(* ===== verification/_CoqProject ===== *)
-Q . S2P
Prelude.v
Arch.v
Vtsc.v
Events.v
Pic.v
Pit.v
Ioapic.v
Lapic.v
Memory.v
Mptable.v
Regs.v
Cpuid.v
Timers.v
Proto.v
Driver.v
Text.v
Lines.v
Utf8.v
Control.v
Conscan.v
EgressCodec.v
Egress.v
EgressSpec.v
EgressWaits.v
Connector.v
ConnectorSpec.v
EgressChannel.v
Io.v
Forwarder.v
EgressPath.v
Agent.v
Bridge.v
Cpio.v
Tar.v
Artifact.v
Store.v
Doorbell.v
Park.v
Telemetry.v
Dispatch.v
Vmm.v
Run.v
Capture.v
Yaml.v
YamlPlain.v
YamlSpec.v
YamlDoc.v
YamlTree.v
Compose.v
ComposeSpec.v
Files.v
Trees.v
TreeHash.v
Cache.v
Pinned.v
Images.v
Ledger.v
Dates.v
Cli.v
Normalize.v
Assemble.v
Stage.v
