(* ===== verification/Prelude.v ===== *)
(** * tdvmm: a verification development

    tdvmm is a KVM virtual machine monitor whose guest runs in virtual time:
    the host owns the guest's TSC, and when the guest idles it can jump the
    clock to the next deadline instead of waiting.  A compose file is baked into
    an artifact, the artifact runs in the guest, an agent in the guest drives
    its containers and a forwarder carries their connections to the host.  This
    library translates the program's own logic from [src/src],
    [src/tdvmm-proto/src] and [src/tdvmm-agent/src] and proves what makes it
    correct.  This file is the root: it documents the whole and holds the shared
    prelude (machine integers, byte lists, [result], record updates, tactics,
    hints).

    ** The program and its files

    - The clock.  [Vtsc] is [vtsc.rs]: frequency conversions and the clock whose
      offset is one shared cell, here a location of a store, so that clones
      alias.  The KVM ioctls are the class [KvmTsc].
    - The devices a guest sees: [Pic] ([pic.rs]), [Pit] ([pit.rs]), [Ioapic]
      ([ioapic.rs]), [Lapic] ([lapic.rs]).  Each is a record with the fields of
      the Rust struct and one definition per method.
    - Booting: [Arch] ([arch.rs], [util.rs]), [Memory] ([memory.rs], [boot.rs]),
      [Mptable] ([mptable.rs]), [Regs] ([regs.rs], [msrs.rs]), [Cpuid]
      ([cpuid.rs]).  Guest memory is the class [GuestMemory].
    - Virtual-time events: [Events] ([events.rs]) is the queue, [Timers]
      ([service_timers], [raise_irq], [min_deadline] of [main.rs]) moves the
      LAPIC deadline and the horizon through it.
    - The control channel to the guest agent: [Proto] ([tdvmm-proto/src/lib.rs])
      has the messages and framing, [Lines] the line splitting, [Control]
      ([control.rs], [serial.rs]) the COM2 channel over the class [Uart],
      [Driver] ([driver.rs], [exit.rs]) the verdict and the exit codes.
    - The console: [Conscan] ([conscan.rs]) with [Utf8].
    - Egress, the guest's only way to the network: [EgressCodec]
      ([tdvmm-proto/src/egress.rs]) is the wire format, [Egress] ([egress.rs])
      the session table and its pump over the classes [EgressConnector] and
      [Epoll], [EgressSpec] the laws of a connector, the invariant and the
      proofs, [EgressWaits] what it has in flight, [EgressChannel] the COM4 UART
      around the backend.  [Connector] is the connector it runs on, sockets and
      the resolver thread over the class [SocketOs]; [ConnectorSpec] proves that
      it keeps the laws, wakes the loop and gives its descriptors back.
    - Waiting and waking: [Doorbell] ([doorbell.rs]), [Park] ([park.rs]),
      [Telemetry] ([telemetry.rs]).
    - The vCPU loop of [main.rs]: [Dispatch] is the injection protocol and the
      port and MMIO exits over all devices; [Vmm] the two park loops, with the
      egress gate and the fast-forward jump; [Run] the loop around them, turn by
      turn, and its second form, [drive_until_reply]; [Capture] the log capture
      that pages the services' logs out of the guest through it.
    - In the guest: [Agent] ([tdvmm-agent/src/agent.rs]) answers the requests of
      the control channel over the class [GuestOs]; [Bridge] ([bridge.rs]) moves
      lines and events between the host, the FIFO and the local sockets;
      [Forwarder] ([forwarder.rs]) is the SOCKS5 end of egress, a step relation
      over its threads and the one tty, and [EgressPath] composes it with the
      host's [Egress].
    - The artifact: [Cpio] ([cpio.rs]) writes the initramfs, [Tar]
      ([artifact/tar.rs]) the container, [Artifact] (the rest of [artifact]) seals
      and checks it, [Store] lists and finds it.  Files are classes ([RootFs],
      [StoreFs]), sha256 and the manifest's JSON too.
    - The compose front end: [Yaml] ([compose/yaml_emitter.rs]) is the emitter;
      [YamlPlain] has the grammar of plain scalars and the regular expressions
      of the types of YAML 1.1, written from YAML's documents and not from the
      emitter; [YamlSpec] is a reader of scalars on them and the proof that it
      reads what was written, [YamlDoc] and [YamlTree] the same for whole
      documents; [Compose]
      (the rest of [compose]) is the gate and the lock, [ComposeSpec] what they
      promise.
    - The build pipeline, [src/src/build].  [Files] is a file system shared with
      other processes, whose calls may fail half way, with a triple for what a
      caller may conclude.  On it, [TreeHash] ([fsops.rs]) is the content hash
      of a tree, [Cache] ([cache.rs], [base.rs], [overlay_id]) the key of a bake
      and the two caches, [Pinned] ([pins.rs], [kernel.rs], [agent.rs],
      [util.rs]) the downloads, the guest kernel and agent and the scratch
      directories, [Images] ([images.rs]) the pool of image bakes.  [Ledger]
      ([bake.rs], [seed.rs], [stack_lock.rs], [pack.rs]) merges the images' outputs
      into the lock, the ledger and the manifest.  [Trees] (the rest of
      [fsops.rs]) is a tree with modes and symbolic links and the copies of
      such trees, with its own triples; [Assemble] ([initramfs.rs],
      [overlay.rs]) puts the two trees of an initramfs together on it and
      [Normalize] is what that erases from one file; [Stage] is [build_one] of
      [images.rs].  [Dates] has the dates as text.
    - The command line: [Cli] ([cli.rs], [main.rs]) goes from the flags and the
      defaults baked into an artifact to the configuration and what is booted.
    - Shared by them: [Text] (numbers as text, byte order, a state and error
      monad), [Io] (what [Read] and [Write] promise), [Utf8], [Lines].

    ** How code is translated

    A [w]-bit integer is a [Z] with its wrap-around written out; a Vec or
    VecDeque of bytes is a list; a map is a [gmap].  Mutation is state passing.
    A fallible call gives a [result], and where the state survives an error
    the error comes with the state ([Egress.M], [Vmm.turn]).  A panic (an
    assertion, an index out of range of the IOAPIC's table or of a LAPIC bitmap,
    a division by zero) is [None] or [Vmm.Panic].  What the host
    decides (the TSC at each sample, poll results, socket answers, whether a
    file can be written) is an argument or a class whose laws are the
    documented behaviour; each class has a concrete instance (the [Toy]
    types), which the witnesses run.

    ** Loops and fuel

    Loops over data are structural or take the data's length.  The egress
    loops take fuel computed from the buffers, each turn moving at least one
    byte or stopping; the timer drain pops at most the two mirrored events.
    The one loop with fuel as an argument is the periodic re-arm of
    [fire_timer_if_due], which the source itself does not bound:
    [periodic_timer_rearms] shows that one more than the number of missed
    periods is enough, [rearm_loop_diverges_at_max] that no fuel is at the top
    of the 64-bit range.  The park loops take the list of turns the host
    plays, so nothing is assumed about how often they go round.  The walks of a
    tree take as fuel the number of its directories or paths, which
    [walk_tree_loop_spec] shows enough, a replacement in a text the text's length;
    [copy_tree] descends 2048 levels, beyond which a path is longer than the
    kernel takes; the pool of image bakes is a step relation and
    [bake_all_terminates] bounds its runs.

    ** What is proved

    - Time: every clone of the clock reads the guest's own TSC; a jump lands
      exactly on the next deadline, never past the horizon, never with an
      interrupt deliverable or a connection open; a whole park keeps the clock
      coherent and returns only for its reasons, and an idle guest is out of it
      after two turns; the always-on assertions cannot fire ([Vtsc], [Timers],
      [Vmm]).
    - Interrupts: the bitmap LAPIC refines an abstract controller on finite
      sets, its delivery rule is the architectural one, injection and EOI
      nest, periodic timers keep their grid; the doorbell loses no wakeup under
      any interleaving with the signal ([Lapic], [Dispatch], [Doorbell]).
    - Robustness against the guest: any port or MMIO access is served without a
      panic and keeps every device well formed; the egress pump keeps its invariant on any
      bytes; no service name escapes the log directory ([Dispatch],
      [EgressSpec], [Conscan]).
    - Streams: the codec is a bijection on well-formed frames, sessions and
      channels keep both byte streams in order and complete, and reset a stream
      only for an error of its socket, the line-based
      channels do not depend on chunking ([EgressCodec], [EgressSpec],
      [EgressChannel], [Control], [Conscan], [Proto]).
    - The real connector: it implements the interface under any interleaving
      with its thread, a socket that would block is no error, and its table is
      the sockets that are open; every lookup is answered once and announced, so no stream
      waits for ever; every descriptor is closed ([Connector], [ConnectorSpec],
      [EgressWaits]).
    - The loop: it ends only for a reason that holds, and leaves the machine in
      order ([Run]); the capture after it writes every log in full when the
      guest answers within its real and virtual budgets, the front of each when
      it does not, and leaves the verdict alone ([Capture]).
    - Egress end to end: whatever the forwarder's threads do, the host acts on
      exactly the frames they sent, each stream's bytes stay in order and in
      their stream, and the window never stalls ([Forwarder], [EgressPath]).
    - The agent: each request has the answer its operation gives, a partition is
      undone by a heal, a verdict reaches the host once and cannot be forged
      through the FIFO; a workload event as deep as the agent's JSON parser goes
      is lost at the host's, and nothing else is ([Agent], [Bridge]).
    - Formats: both archives read back as what was written and are the same for
      the same tree, a replaced payload or a changed header is detected
      ([Cpio], [Tar], [Artifact]).
    - The compose file: the text emitted denotes the document to a reader that
      knows YAML only, whatever the order of its keys; the lock has nothing of the host in it; a document
      that passes the gate has a lock unless an image was not built, and the
      emitter panics exactly on the scalars that start with a sign and a colon
      ([YamlDoc], [YamlTree], [ComposeSpec]).
    - Building: the cache key determines the inputs of the bake up to a
      collision of the hash, the modes and links of the stack directory apart;
      whatever the host and the other builders do, a cache entry is never seen
      half filled, and it and a hit are one builder's files as long as no other
      build writes to the same outputs (which nothing in the program prevents:
      [stored_entry_mixed], [restored_artifact_truncated]); what is booted as
      the kernel has the pinned hash, and a configuration that is not the
      recorded one stops before any container; the pool
      gives the images in the order asked for, whatever its schedule, and ends;
      every image in the lock is named by digest or id, but for a saved image
      whose repository has no digest, which is the empty text; the creation times of the image store do not reach the artifact
      ([TreeHash], [Cache], [Pinned], [Images], [Ledger], [Normalize]).
    - Trees: a copy leaves, path by path, the source over what was there and
      nothing else, but for set-id bits the kernel takes away and an empty
      directory over a file; the overlay has its bytes and modes whatever the umask, the
      passes over a tree reach every file, a staged driver context has the
      checkout's SDK and no other ([Trees], [Assemble], [Stage]).
    - Running: the artifact a build packed is the one a run finds by its name,
      checks and boots, with the defaults it was given ([Cli]).
    - Booting: the E820 map, the MP table, the page tables, the GDT and the
      CPUID profile are the specified ones.
    - Verdicts and accounting: first finish wins, the exit-code contract, the
      telemetry counts every jump.

    ** What is not modelled

    The 16550 itself (vm-superio), JSON, ELF loading, YAML parsing, sha256,
    gzip and the text of an [f64] (libraries; parameters where a model uses
    them), floating-point reports, logging, the terminal, the system calls of
    the agent.  The reader of [YamlSpec] and the grammar of [YamlTree] are
    good for 39 levels of nesting, which is [MAX_DEPTH]; the emitter itself has
    no bound.

    Of the build pipeline, what drives external programs and is nothing but
    their order: the base root file system ([build_base_rootfs]), the unpacking
    of its tar, the record flow of [build-kernel] and the rest of [cmd_build]
    around the parts that are modelled.  The file system of [Files] has no
    modes and no links, that of [Trees] no hard links and one process.  Of
    [main.rs], the wall-clock watchdog and the thread set-up.  The tables of [clap], the user
    interface, the host checks of [doctor] and the diagnostics print; the
    egress test server and the engine probe are test fixtures. *)

From stdpp Require Import base numbers strings gmap sets list.
From Stdlib Require Import ZArith Lia.

Open Scope Z_scope.

(** ** Machine integers

    A [w]-bit unsigned Rust integer is a [Z] in [0, 2^w).  The Rust cast
    [e as uN] (and every wrapping operation at width N) is [as_uN e]; a
    signed 64-bit value is a [Z] in [-2^63, 2^63). *)

Definition wrap (w z : Z) : Z := z mod 2 ^ w.

Definition as_u8 (z : Z) : Z := wrap 8 z.
Definition as_u16 (z : Z) : Z := wrap 16 z.
Definition as_u32 (z : Z) : Z := wrap 32 z.
Definition as_u64 (z : Z) : Z := wrap 64 z.
Definition as_i64 (z : Z) : Z := (z + 2 ^ 63) mod 2 ^ 64 - 2 ^ 63.

Definition U8_MAX : Z := 2 ^ 8 - 1.
Definition U32_MAX : Z := 2 ^ 32 - 1.
Definition U64_MAX : Z := 2 ^ 64 - 1.
Definition I64_MAX : Z := 2 ^ 63 - 1.
Definition I64_MIN : Z := - 2 ^ 63.

(** The value range of a width, as a decidable proposition. *)
Definition fits (w z : Z) : Prop := 0 <= z < 2 ^ w.

#[export] Instance fits_dec w z : Decision (fits w z).
Proof. unfold fits. apply _. Defined.

Definition fits_i64 (z : Z) : Prop := I64_MIN <= z <= I64_MAX.

#[export] Instance fits_i64_dec z : Decision (fits_i64 z).
Proof. unfold fits_i64. apply _. Defined.

(** [u64::wrapping_add], [u64::wrapping_sub], [u64::saturating_sub],
    [u64::saturating_add], [i64::checked_add]. *)
Definition wrapping_add_u64 (a b : Z) : Z := as_u64 (a + b).
Definition wrapping_sub_u64 (a b : Z) : Z := as_u64 (a - b).
Definition saturating_sub (a b : Z) : Z := Z.max 0 (a - b).
Definition saturating_add_u64 (a b : Z) : Z := Z.min U64_MAX (a + b).
Definition checked_add_i64 (a b : Z) : option Z :=
  if decide (fits_i64 (a + b)) then Some (a + b) else None.

(** Bitwise complement at a width ([!x] on uN). *)
Definition bnot (w z : Z) : Z := Z.lxor z (Z.ones w).

(** Little-endian bytes of a [n]-byte integer, and back ([to_le_bytes],
    [from_le_bytes]). *)
Definition le_bytes (n z : Z) : list Z := Z_to_little_endian n 8 z.
Definition of_le_bytes (bs : list Z) : Z := little_endian_to_Z 8 bs.

(** A byte string: every element fits in 8 bits. *)
Definition bytes_ok (bs : list Z) : Prop := Forall (fits 8) bs.

#[export] Instance bytes_ok_dec bs : Decision (bytes_ok bs).
Proof. unfold bytes_ok. apply _. Defined.

(** ** Fallible code

    [Result<A, E>]: [Ok a] or [Err e].  The [?] operator is stdpp's monadic
    bind, [x ← m; k]. *)

Inductive result (E A : Type) : Type :=
  | Ok (a : A)
  | Err (e : E).
Arguments Ok {E A} a.
Arguments Err {E A} e.

#[export] Instance result_ret {E} : MRet (result E) := fun A a => Ok a.

#[export] Instance result_bind {E} : MBind (result E) := fun A B k m =>
  match m with
  | Ok a => k a
  | Err e => Err e
  end.

Definition is_Ok {E A} (m : result E A) : bool :=
  match m with Ok _ => true | Err _ => false end.

(** ** Struct updates

    [r <| f := v |>] is the struct [r] with field [f] replaced by [v] (the
    assignment [self.f = v]).  A record type takes part by declaring its
    constructor applied to its projections as a [Settable] instance; the
    update of one field is derived from it by abstracting that projection. *)

Class Settable (R : Type) := eta_expand : R -> R.

Class Setter {R T : Type} (proj : R -> T) := set_field : (T -> T) -> R -> R.
Arguments set_field {R T} proj {_} _ _ /.

#[global] Hint Mode Setter + + + : typeclass_instances.

Ltac head_of t := lazymatch t with ?f _ => head_of f | _ => t end.

Ltac derive_setter :=
  match goal with
  | |- @Setter ?R ?T ?proj =>
      let e := constr:(_ : Settable R) in
      let e := eval cbv delta [eta_expand] in e in
      let h := head_of e in
      let e := eval unfold h in e in
      let f := fresh "f" in let r := fresh "r" in hnf; intros f r;
      let body := eval cbv beta in (e r) in
      lazymatch (eval pattern (proj r) in body) with
      | (fun _ => ?t) _ => fail "no such field"
      | ?k _ => let t := eval cbv beta in (k (f (proj r))) in exact t
      end
  end.

#[export] Hint Extern 1 (Setter _) => derive_setter : typeclass_instances.

Declare Scope record_scope.
Delimit Scope record_scope with record.
Notation "r <| f := v |>" := (set_field f (fun _ => v) r)
  (at level 1, f at next level, v at level 200, left associativity) : record_scope.
Open Scope record_scope.

(** ** Shared list and iteration operations *)

(** [slice a b l] is [&l[a..b]]. *)
Definition slice {A} (a b : nat) (l : list A) : list A := take (b - a) (drop a l).

(** [position p l]: the index of the first element satisfying [p]
    ([Iterator::position]). *)
Fixpoint position {A} (p : A -> bool) (l : list A) : option nat :=
  match l with
  | [] => None
  | x :: l' => if p x then Some O else S <$> position p l'
  end.

(** The sum of a list of integers. *)
Definition sumZ (l : list Z) : Z := foldr Z.add 0 l.

(** ** Automation *)

(** Keep machine arithmetic folded under [simpl]. *)
Arguments wrap : simpl never.
Arguments as_u8 : simpl never.
Arguments as_u16 : simpl never.
Arguments as_u32 : simpl never.
Arguments as_u64 : simpl never.
Arguments wrapping_add_u64 : simpl never.
Arguments wrapping_sub_u64 : simpl never.
Arguments saturating_sub : simpl never.
Arguments saturating_add_u64 : simpl never.
Arguments le_bytes : simpl never.
Arguments of_le_bytes : simpl never.

Create HintDb width.

Ltac unfold_width :=
  unfold as_u8, as_u16, as_u32, as_u64, wrap, fits, fits_i64, U8_MAX, U32_MAX, U64_MAX,
    I64_MAX, I64_MIN in *.

(** Arithmetic on wrapped values: expose the modulus as equations. *)
Ltac wrap_lia := unfold_width; Z.div_mod_to_equations; lia.

(** Destruct the outermost [if] or [match] scrutinee of the goal or of a
    hypothesis. *)
Ltac case_goal :=
  match goal with
  | |- context [if ?b then _ else _] => destruct b eqn:?
  | |- context [match ?x with _ => _ end] => destruct x eqn:?
  end.

Ltac bool_prop :=
  repeat match goal with
  | H : _ && _ = true |- _ => apply andb_true_iff in H as [? ?]
  | H : _ && _ = false |- _ => apply andb_false_iff in H
  | H : _ || _ = true |- _ => apply orb_true_iff in H
  | H : _ || _ = false |- _ => apply orb_false_iff in H as [? ?]
  | H : negb _ = true |- _ => apply negb_true_iff in H
  | H : negb _ = false |- _ => apply negb_false_iff in H
  | H : (_ <? _) = true |- _ => apply Z.ltb_lt in H
  | H : (_ <? _) = false |- _ => apply Z.ltb_ge in H
  | H : (_ <=? _) = true |- _ => apply Z.leb_le in H
  | H : (_ <=? _) = false |- _ => apply Z.leb_gt in H
  | H : (_ =? _) = true |- _ => apply Z.eqb_eq in H
  | H : (_ =? _) = false |- _ => apply Z.eqb_neq in H
  | H : (_ >? _) = _ |- _ => rewrite Z.gtb_ltb in H
  | H : (_ >=? _) = _ |- _ => rewrite Z.geb_leb in H
  | H : bool_decide _ = true |- _ => apply bool_decide_eq_true in H
  | H : bool_decide _ = false |- _ => apply bool_decide_eq_false in H
  end.

(** Bit-level equality of two integers: reduce to one bit and push
    [Z.testbit] through the operators. *)
Ltac push_testbit :=
  repeat first
    [ rewrite Z.land_spec | rewrite Z.lor_spec | rewrite Z.lxor_spec
    | rewrite Z.ldiff_spec
    | rewrite Z.shiftl_spec by lia | rewrite Z.shiftr_spec by lia
    | rewrite Z.testbit_ones_nonneg by lia
    | rewrite Z.mod_pow2_bits_low by lia | rewrite Z.mod_pow2_bits_high by lia ].

(** Close a goal that is literally a hypothesis, without conversion. *)
Ltac exact_hyp := match goal with H : ?P |- ?P => exact H end.

(** Case analysis on the conditions of a goal until none is left. *)
Ltac case_all := repeat (case_match; simplify_eq/=).

(** ** Lemmas on widths *)

Lemma pow2_pos w : 0 <= w -> 0 < 2 ^ w.
Proof. intros. apply Z.pow_pos_nonneg; lia. Qed.

Lemma wrap_fits w z : 0 <= w -> fits w (wrap w z).
Proof. intros. unfold fits, wrap. apply Z.mod_pos_bound, pow2_pos. lia. Qed.

Lemma wrap_id w z : fits w z -> wrap w z = z.
Proof. intros. apply Z.mod_small. done. Qed.

Lemma as_u8_fits z : fits 8 (as_u8 z).
Proof. by apply wrap_fits. Qed.
Lemma as_u16_fits z : fits 16 (as_u16 z).
Proof. by apply wrap_fits. Qed.
Lemma as_u32_fits z : fits 32 (as_u32 z).
Proof. by apply wrap_fits. Qed.
Lemma as_u64_fits z : fits 64 (as_u64 z).
Proof. by apply wrap_fits. Qed.

Lemma as_u8_id z : fits 8 z -> as_u8 z = z.
Proof. apply wrap_id. Qed.
Lemma as_u16_id z : fits 16 z -> as_u16 z = z.
Proof. apply wrap_id. Qed.
Lemma as_u32_id z : fits 32 z -> as_u32 z = z.
Proof. apply wrap_id. Qed.
Lemma as_u64_id z : fits 64 z -> as_u64 z = z.
Proof. apply wrap_id. Qed.

Lemma fits_mono w w' z : 0 <= w <= w' -> fits w z -> fits w' z.
Proof.
  intros ? [? ?]. split; [done|].
  eapply Z.lt_le_trans; [done|]. apply Z.pow_le_mono_r; lia.
Qed.

Lemma fits_land w a b : 0 <= w -> fits w a -> 0 <= b -> fits w (Z.land a b).
Proof.
  intros Hw [Ha Ha'] Hb. split; [apply Z.land_nonneg; lia|].
  destruct (decide (Z.land a b = 0)) as [->|Hne]; [by apply pow2_pos|].
  assert (0 <= Z.land a b) by (apply Z.land_nonneg; lia).
  assert (a <> 0) by (intros ->; by rewrite Z.land_0_l in Hne).
  apply Z.log2_lt_pow2; [lia|].
  pose proof (Z.log2_land a b Ha Hb). assert (Z.log2 a < w) by (apply Z.log2_lt_pow2; lia). lia.
Qed.

Lemma fits_lor w a b : 0 <= w -> fits w a -> fits w b -> fits w (Z.lor a b).
Proof.
  intros Hw [Ha Ha'] [Hb Hb']. split; [apply Z.lor_nonneg; lia|].
  destruct (decide (Z.lor a b = 0)) as [->|Hne]; [by apply pow2_pos|].
  assert (0 <= Z.lor a b) by (apply Z.lor_nonneg; lia).
  apply Z.log2_lt_pow2; [lia|]. rewrite Z.log2_lor by done.
  destruct (decide (w = 0)) as [->|]; [assert (a = 0 /\ b = 0) as [-> ->] by lia; done|].
  apply Z.max_lub_lt.
  - destruct (decide (a = 0)) as [->|]; [simpl; lia|]. apply Z.log2_lt_pow2; lia.
  - destruct (decide (b = 0)) as [->|]; [simpl; lia|]. apply Z.log2_lt_pow2; lia.
Qed.

Lemma testbit_high w z i : fits w z -> 0 <= w <= i -> Z.testbit z i = false.
Proof.
  intros [Hz Hz'] Hi. destruct (decide (z = 0)) as [->|]; [apply Z.bits_0|].
  apply Z.bits_above_log2; [done|].
  assert (Z.log2 z < w) by (apply Z.log2_lt_pow2; lia). lia.
Qed.

#[export] Hint Resolve as_u8_fits as_u16_fits as_u32_fits as_u64_fits wrap_fits
  fits_land fits_lor : width.

(** [fits] goals on constants. *)
#[export] Hint Extern 1 (fits _ _) => (unfold fits; lia) : width.

Lemma land_ones_wrap w z : 0 <= w -> Z.land z (Z.ones w) = wrap w z.
Proof. intros. by rewrite Z.land_ones. Qed.

Lemma shiftr_fits w z n : 0 <= n -> fits w z -> fits w (Z.shiftr z n).
Proof.
  intros Hn [? ?]. rewrite Z.shiftr_div_pow2 by lia. pose proof (pow2_pos n Hn).
  split; [apply Z.div_pos; lia|]. eapply Z.le_lt_trans; [|done].
  apply Z.div_le_upper_bound; [lia|]. nia.
Qed.

Lemma shiftl_fits w v z n : 0 <= n -> v + n <= w -> 0 <= v -> fits v z -> fits w (Z.shiftl z n).
Proof.
  intros Hn Hv Hv0 [? ?]. rewrite Z.shiftl_mul_pow2 by lia. pose proof (pow2_pos n Hn).
  split; [nia|]. eapply Z.lt_le_trans with (2 ^ (v + n)).
  - rewrite Z.pow_add_r by lia. nia.
  - apply Z.pow_le_mono_r; lia.
Qed.

(** Wrapping addition is associative modulo 2^64. *)
Lemma as_u64_add_l a b : as_u64 (as_u64 a + b) = as_u64 (a + b).
Proof. unfold as_u64, wrap. by rewrite Zplus_mod_idemp_l. Qed.
Lemma as_u64_add_r a b : as_u64 (a + as_u64 b) = as_u64 (a + b).
Proof. unfold as_u64, wrap. by rewrite Zplus_mod_idemp_r. Qed.

Lemma as_i64_id z : fits_i64 z -> as_i64 z = z.
Proof. unfold as_i64. intros. unfold_width. rewrite Z.mod_small; lia. Qed.

Lemma as_i64_fits z : fits_i64 (as_i64 z).
Proof.
  unfold as_i64, fits_i64, I64_MIN, I64_MAX.
  pose proof (Z.mod_pos_bound (z + 2 ^ 63) (2 ^ 64) ltac:(lia)). lia.
Qed.

(** ** Lemmas on bytes *)

Lemma length_le_bytes n z : 0 <= n -> length (le_bytes n z) = Z.to_nat n.
Proof.
  intros. unfold le_bytes.
  pose proof (length_Z_to_little_endian n 8 z ltac:(lia)). lia.
Qed.

Lemma le_bytes_ok n z : 0 <= n -> bytes_ok (le_bytes n z).
Proof. intros. unfold le_bytes. apply (Z_to_little_endian_bound n 8 z); lia. Qed.

Lemma of_le_bytes_le_bytes n z : 0 <= n -> of_le_bytes (le_bytes n z) = z mod 2 ^ (n * 8).
Proof. intros. unfold of_le_bytes, le_bytes. by apply little_endian_to_Z_to_little_endian. Qed.

Lemma le_bytes_of_le_bytes bs n :
  n = Z.of_nat (length bs) -> bytes_ok bs -> le_bytes n (of_le_bytes bs) = bs.
Proof. intros. unfold of_le_bytes, le_bytes. by apply Z_to_little_endian_to_Z. Qed.

(** ** Lemmas on lists *)

Lemma position_Some {A} (p : A -> bool) l i :
  position p l = Some i <->
  (exists x, l !! i = Some x /\ p x = true) /\
  (forall j y, (j < i)%nat -> l !! j = Some y -> p y = false).
Proof.
  revert i. induction l as [|x l IH]; intros i; simpl.
  { split; [done|]. intros [(x & Hx & _) _]. done. }
  destruct (p x) eqn:Hp.
  - split.
    + intros [= <-]. split; [by exists x|]. intros; lia.
    + intros [_ Hmin]. destruct i as [|i]; [done|].
      specialize (Hmin 0%nat x ltac:(lia) eq_refl). congruence.
  - rewrite fmap_Some. split.
    + intros (j & Hj & ->). apply IH in Hj as [Hex Hmin]. split; [done|].
      intros [|k] y ? Hk; simpl in Hk; [congruence|]. eapply Hmin; [|done]. lia.
    + intros [(y & Hy & Hpy) Hmin]. destruct i as [|i]; simpl in Hy; [congruence|].
      exists i. split; [|done]. apply IH. split; [by exists y|].
      intros j z ? Hz. apply (Hmin (S j) z); [lia|done].
Qed.

Lemma position_None {A} (p : A -> bool) l :
  position p l = None <-> Forall (fun x => p x = false) l.
Proof.
  induction l as [|x l IH]; simpl; [split; [constructor|done]|].
  destruct (p x) eqn:Hp.
  - split; [done|]. intros H. inversion H; congruence.
  - rewrite fmap_None, IH. split; [by constructor|]. intros H; by inversion H.
Qed.

Lemma sumZ_app l k : sumZ (l ++ k) = sumZ l + sumZ k.
Proof. unfold sumZ. induction l; simpl; lia. Qed.

Lemma sumZ_replicate n x : sumZ (replicate n x) = Z.of_nat n * x.
Proof. unfold sumZ. induction n; simpl; lia. Qed.

Lemma sumZ_nonneg l : Forall (fun x => 0 <= x) l -> 0 <= sumZ l.
Proof. unfold sumZ. induction 1; simpl; lia. Qed.

Lemma slice_app_l {A} (l k : list A) a b :
  (b <= length l)%nat -> slice a b (l ++ k) = slice a b l.
Proof.
  intros. unfold slice. destruct (decide (a <= length l)%nat).
  - rewrite drop_app_le by done. apply take_app_le. rewrite length_drop. lia.
  - replace (b - a)%nat with 0%nat by lia. done.
Qed.

Lemma list_filter_all {A} (P : A -> Prop) `{!forall x, Decision (P x)} (l : list A) :
  Forall P l -> filter P l = l.
Proof.
  induction 1 as [|x l Hx _ IH]; [done|]. by rewrite filter_cons_True, IH.
Qed.

Lemma list_filter_none {A} (P : A -> Prop) `{!forall x, Decision (P x)} (l : list A) :
  Forall (fun x => ~ P x) l -> filter P l = [].
Proof.
  induction 1 as [|x l Hx _ IH]; [done|]. by rewrite filter_cons_False, IH.
Qed.

Lemma wrap_wrap w w' z : 0 <= w <= w' -> wrap w (wrap w' z) = wrap w z.
Proof.
  intros. unfold wrap. apply Z.mod_mod_divide. exists (2 ^ (w' - w)).
  rewrite <- Z.pow_add_r by lia. f_equal; lia.
Qed.

Lemma wrap_sub_r w a b : wrap w (a - wrap w b) = wrap w (a - b).
Proof. unfold wrap. by rewrite Zminus_mod_idemp_r. Qed.

Lemma wrap_add_r w a b : wrap w (a + wrap w b) = wrap w (a + b).
Proof. unfold wrap. by rewrite Zplus_mod_idemp_r. Qed.

(** Joining disjoint bit fields is addition. *)
Lemma lor_shiftl_add a b n : 0 <= n -> fits n b -> Z.lor (Z.shiftl a n) b = a * 2 ^ n + b.
Proof.
  intros Hn Hb. pose proof (Z.add_lor_land (Z.shiftl a n) b) as E.
  assert (Z.land (Z.shiftl a n) b = 0) as E0; [|rewrite E0 in E; rewrite <- Z.shiftl_mul_pow2; lia].
  apply Z.bits_inj'. intros i Hi. rewrite Z.bits_0, Z.land_spec, Z.shiftl_spec by done.
  destruct (decide (i < n)).
  - by rewrite Z.testbit_neg_r by lia.
  - rewrite (testbit_high n b i) by (done || lia). apply andb_false_r.
Qed.

Lemma land_bit z n : 0 <= n -> (Z.land z (Z.shiftl 1 n) =? 0) = negb (Z.testbit z n).
Proof.
  intros Hn. rewrite Z.shiftl_1_l. destruct (Z.testbit z n) eqn:E; simpl.
  - apply Z.eqb_neq. intros H0. assert (Z.testbit (Z.land z (2 ^ n)) n = true) as Ht.
    { by rewrite Z.land_spec, E, Z.pow2_bits_true by lia. }
    by rewrite H0, Z.bits_0 in Ht.
  - apply Z.eqb_eq. apply Z.bits_inj'. intros k Hk. rewrite Z.bits_0, Z.land_spec.
    destruct (decide (k = n)) as [->|]; [by rewrite E|].
    rewrite Z.pow2_bits_false by lia. apply andb_false_r.
Qed.

Lemma fits_lxor w a b : 0 < w -> fits w a -> fits w b -> fits w (Z.lxor a b).
Proof.
  intros Hw Ha Hb. assert (0 <= Z.lxor a b) by (apply Z.lxor_nonneg; unfold fits in *; lia).
  split; [done|]. destruct (decide (Z.lxor a b = 0)) as [->|]; [apply pow2_pos; lia|].
  apply Z.log2_lt_pow2; [lia|]. unfold fits in *.
  eapply Z.le_lt_trans; [apply Z.log2_lxor; lia|]. apply Z.max_lub_lt.
  - destruct (decide (a = 0)) as [->|]; [simpl; lia|]. apply Z.log2_lt_pow2; lia.
  - destruct (decide (b = 0)) as [->|]; [simpl; lia|]. apply Z.log2_lt_pow2; lia.
Qed.
