(* ===== verification/Arch.v ===== *)
(** * Guest-physical layout constants and byte helpers

    [src/src/arch.rs] (addresses, ports, IRQ lines) and the pure helpers of
    [src/src/util.rs]: the little-endian conversions of the MMIO exit handlers
    and the one-shot timer specification. *)

From stdpp Require Import base list numbers.
From Stdlib Require Import ZArith Lia.
From S2P Require Import Prelude.

Open Scope Z_scope.

(** ** [arch.rs] *)

Definition HIMEM_START : Z := 0x00100000.
Definition ZERO_PAGE_START : Z := 0x7000.
Definition CMDLINE_START : Z := 0x00020000.
Definition CMDLINE_MAX_SIZE : Z := 2048.
Definition BOOT_GDT_OFFSET : Z := 0x500.
Definition BOOT_IDT_OFFSET : Z := 0x520.
Definition PML4_START : Z := 0x9000.
Definition PDPTE_START : Z := 0xa000.
Definition PDE_START : Z := 0xb000.
Definition BOOT_STACK_POINTER : Z := 0x8ff0.
Definition SYSTEM_MEM_START : Z := 0x0009fc00.
Definition RSDP_ADDR : Z := 0x000e0000.
Definition SYSTEM_MEM_SIZE : Z := RSDP_ADDR - SYSTEM_MEM_START.
Definition KVM_TSS_ADDRESS : Z := 0xfffbd000.
Definition MMIO_MEM_START : Z := 0xc0000000.
Definition FIRST_ADDR_PAST_32BITS : Z := 0x100000000.
Definition SERIAL_PORT_BASE : Z := 0x3f8.
Definition SERIAL_IRQ : Z := 4.
Definition SERIAL2_PORT_BASE : Z := 0x2f8.
Definition SERIAL2_IRQ : Z := 3.
Definition SERIAL4_PORT_BASE : Z := 0x2e8.
Definition SERIAL4_IRQ : Z := 3.
Definition POST_PORT : Z := 0x80.

(** [(lo..hi).contains(&x)]. *)
Definition in_range (lo hi x : Z) : bool := (lo <=? x) && (x <? hi).

(** ** [util.rs] *)

(** A one-shot [itimerspec]: the interval is zero, [it_value] is split in
    seconds and nanoseconds. *)
Record timespec := { tv_sec : Z; tv_nsec : Z }.
Record itimerspec := { it_interval : timespec; it_value : timespec }.

Definition one_shot_itimerspec (ns : Z) : itimerspec :=
  {| it_interval := {| tv_sec := 0; tv_nsec := 0 |};
     it_value := {| tv_sec := ns / 1000000000; tv_nsec := ns mod 1000000000 |} |}.

(** [read_u32_le]: up to four bytes, missing ones read as zero. *)
Definition read_u32_le (data : list Z) : Z :=
  of_le_bytes ((fun i => default 0 (data !! i)) <$> seq 0 4).

(** [write_u32_le]: the first four bytes of the buffer become the bytes of
    [val], the rest is left alone. *)
Definition write_u32_le (data : list Z) (val : Z) : list Z :=
  imap (fun i b => if (i <? 4)%nat then default 0 (le_bytes 4 val !! i) else b) data.

(** ** Lemmas *)

Lemma in_range_spec lo hi x : in_range lo hi x = true <-> lo <= x < hi.
Proof. unfold in_range. rewrite andb_true_iff, Z.leb_le, Z.ltb_lt. done. Qed.

Lemma write_u32_le_length data val : length (write_u32_le data val) = length data.
Proof. apply length_imap. Qed.

Lemma write_u32_le_4 b0 b1 b2 b3 val :
  write_u32_le [b0; b1; b2; b3] val = le_bytes 4 val.
Proof. reflexivity. Qed.

Lemma read_u32_le_4 b0 b1 b2 b3 : read_u32_le [b0; b1; b2; b3] = of_le_bytes [b0; b1; b2; b3].
Proof. done. Qed.

(** A four-byte MMIO access carries a 32-bit register value unchanged. *)
Lemma read_write_u32_le data val :
  length data = 4%nat -> fits 32 val -> read_u32_le (write_u32_le data val) = val.
Proof.
  intros Hlen Hv. destruct data as [|b0 [|b1 [|b2 [|b3 [|]]]]]; try done.
  rewrite write_u32_le_4. pose proof (length_le_bytes 4 val ltac:(lia)) as Hl.
  destruct (le_bytes 4 val) as [|c0 [|c1 [|c2 [|c3 [|]]]]] eqn:E; try done.
  rewrite read_u32_le_4, <- E, of_le_bytes_le_bytes by lia.
  apply Z.mod_small. done.
Qed.

Lemma one_shot_itimerspec_total ns :
  tv_sec (it_value (one_shot_itimerspec ns)) * 1000000000
  + tv_nsec (it_value (one_shot_itimerspec ns)) = ns
  /\ 0 <= tv_nsec (it_value (one_shot_itimerspec ns)) < 1000000000.
Proof.
  simpl. split; [|apply Z.mod_pos_bound; lia].
  pose proof (Z.div_mod ns 1000000000). lia.
Qed.
