(* ===== verification/Vtsc.v ===== *)
(** * The virtual clock ([src/src/vtsc.rs])

    [TscFrequency] converts between TSC cycles and nanoseconds.
    [VirtualClock] is the guest TSC seen from the host: the host TSC plus an
    offset kept in a shared cell ([Rc<Cell<i64>>]).  The cell lives in a store
    [cells]; cloning a clock copies the reference, so every clone reads the
    same cell.  The vCPU side (the [KVM_VCPU_TSC_OFFSET] device attribute and
    [KVM_GET_TSC_KHZ]) is the class [KvmTsc], an interface with the documented
    behaviour of those ioctls as laws. *)

From stdpp Require Import base numbers gmap list.
From Stdlib Require Import ZArith Lia.
From S2P Require Import Prelude.

Open Scope Z_scope.

(** ** Frequency *)

Record TscFrequency := { hz : Z }.

(** [assert!(hz > 0)]: [None] is the panic. *)
Definition from_hz (h : Z) : option TscFrequency :=
  if 0 <? h then Some {| hz := h |} else None.

Definition from_khz (khz : Z) : option TscFrequency := from_hz (khz * 1000).

Definition freq_khz (f : TscFrequency) : Z := hz f / 1000.

Definition cycles_to_ns (f : TscFrequency) (cycles : Z) : Z :=
  as_u64 (cycles * 1000000000 / hz f).

Definition ns_to_cycles (f : TscFrequency) (ns : Z) : Z :=
  as_u64 (ns * hz f / 1000000000).

(** ** The vCPU's TSC attributes *)

Inductive VtscError :=
  | GetTscKhzFailed
  | ZeroTscFrequency
  | TscOffsetUnavailable
  | GetTscOffsetFailed
  | SetTscOffsetFailed
  | TscOffsetOverflow (old delta : Z)
  | NegativeBump (delta : Z).

(** What the clock needs from a vCPU file descriptor.  [guest_tsc_offset] is
    the offset the hardware adds to the host TSC when the guest executes
    RDTSC; the laws say that GET reports it, that a successful SET installs
    the given value, and that the reported frequency is a u32. *)
Class KvmTsc (Vcpu : Type) := {
  kvm_get_tsc_khz : Vcpu -> option Z;
  kvm_has_tsc_offset : Vcpu -> bool;
  kvm_get_tsc_offset : Vcpu -> option Z;
  kvm_set_tsc_offset : Vcpu -> Z -> option Vcpu;
  guest_tsc_offset : Vcpu -> Z;
  kvm_get_law v o : kvm_get_tsc_offset v = Some o -> o = guest_tsc_offset v;
  kvm_set_law v o v' : kvm_set_tsc_offset v o = Some v' -> guest_tsc_offset v' = o;
  kvm_khz_law v k : kvm_get_tsc_khz v = Some k -> fits 32 k;
}.

(** RDTSC as the guest sees it at host TSC [h]. *)
Definition guest_rdtsc `{KvmTsc Vcpu} (v : Vcpu) (h : Z) : Z := as_u64 (h + guest_tsc_offset v).

Definition read_tsc_offset `{KvmTsc Vcpu} (v : Vcpu) : result VtscError Z :=
  if negb (kvm_has_tsc_offset v) then Err TscOffsetUnavailable
  else match kvm_get_tsc_offset v with
       | Some o => Ok o
       | None => Err GetTscOffsetFailed
       end.

Definition write_tsc_offset `{KvmTsc Vcpu} (v : Vcpu) (offset : Z) : result VtscError Vcpu :=
  match kvm_set_tsc_offset v offset with
  | Some v' => Ok v'
  | None => Err SetTscOffsetFailed
  end.

(** ** The clock *)

(** The store of offset cells. *)
Abbreviation cells := (gmap nat Z).

Record VirtualClock := { tsc_offset_cell : nat; clock_freq : TscFrequency }.

(** [Rc::new(Cell::new(off))]: a fresh cell. *)
Definition alloc_cell (σ : cells) (off : Z) : nat * cells :=
  let l := fresh (dom σ) in (l, <[l := off]> σ).

Definition clock_new (σ : cells) (off : Z) (f : TscFrequency) : VirtualClock * cells :=
  let '(l, σ') := alloc_cell σ off in
  ({| tsc_offset_cell := l; clock_freq := f |}, σ').

Definition clock_clone (c : VirtualClock) : VirtualClock :=
  {| tsc_offset_cell := tsc_offset_cell c; clock_freq := clock_freq c |}.

Definition clock_from_vcpu `{KvmTsc Vcpu} (σ : cells) (v : Vcpu)
    : result VtscError (VirtualClock * cells) :=
  match kvm_get_tsc_khz v with
  | None => Err GetTscKhzFailed
  | Some khz =>
      if khz =? 0 then Err ZeroTscFrequency
      else match from_khz khz with
           | None => Err ZeroTscFrequency
           | Some f => off ← read_tsc_offset v; Ok (clock_new σ off f)
           end
  end.

Definition tsc_offset (σ : cells) (c : VirtualClock) : Z := σ !!! tsc_offset_cell c.

(** [vtsc_now] is [vtsc_from_host] at the host TSC sample [h]. *)
Definition vtsc_from_host (σ : cells) (c : VirtualClock) (h : Z) : Z :=
  as_u64 (h + tsc_offset σ c).

(** [bump_offset]: KVM first, then the cell.  An error leaves both untouched. *)
Definition bump_offset `{KvmTsc Vcpu} (σ : cells) (c : VirtualClock) (v : Vcpu) (delta : Z)
    : result VtscError (cells * Vcpu) :=
  if delta <? 0 then Err (NegativeBump delta)
  else
    let old := tsc_offset σ c in
    match checked_add_i64 old delta with
    | None => Err (TscOffsetOverflow old delta)
    | Some new =>
        v' ← write_tsc_offset v new;
        Ok (<[tsc_offset_cell c := new]> σ, v')
    end.

(** The single-clock invariant: the cached offset is the one the guest's
    RDTSC uses. *)
Definition coherent `{KvmTsc Vcpu} (σ : cells) (c : VirtualClock) (v : Vcpu) : Prop :=
  tsc_offset σ c = guest_tsc_offset v.

(** A run of successful bumps through any clone of the clock. *)
Inductive bumps `{KvmTsc Vcpu} (c : VirtualClock) : cells * Vcpu -> list Z -> cells * Vcpu -> Prop :=
  | bumps_nil s : bumps c s [] s
  | bumps_cons σ v d σ' v' ds s'' :
      bump_offset σ c v d = Ok (σ', v') ->
      bumps c (σ', v') ds s'' ->
      bumps c (σ, v) (d :: ds) s''.

(** A concrete vCPU, used by the witnesses: the offset and whether SET works. *)
Record ToyVcpu := { toy_offset : Z; toy_accepts : bool }.

#[export] Program Instance toy_kvm : KvmTsc ToyVcpu := {|
  kvm_get_tsc_khz _ := Some 3072000;
  kvm_has_tsc_offset _ := true;
  kvm_get_tsc_offset v := Some (toy_offset v);
  kvm_set_tsc_offset v o :=
    if toy_accepts v then Some {| toy_offset := o; toy_accepts := true |} else None;
  guest_tsc_offset := toy_offset;
|}.
Next Obligation. simpl; congruence. Qed.
Next Obligation. simpl. intros v o v'. destruct (toy_accepts v); [|done]. by intros [= <-]. Qed.
Next Obligation. simpl. intros _ k [= <-]. unfold fits. lia. Qed.

Definition toy_clock : VirtualClock := {| tsc_offset_cell := 0; clock_freq := {| hz := 3072000000 |} |}.

(** ** Lemmas *)

Lemma tsc_offset_insert σ c o :
  tsc_offset (<[tsc_offset_cell c := o]> σ) c = o.
Proof. unfold tsc_offset. apply lookup_total_insert_eq. Qed.

Lemma bump_offset_inv `{KvmTsc Vcpu} σ c (v : Vcpu) d σ' v' :
  bump_offset σ c v d = Ok (σ', v') ->
  0 <= d /\ fits_i64 (tsc_offset σ c + d) /\
  kvm_set_tsc_offset v (tsc_offset σ c + d) = Some v' /\
  σ' = <[tsc_offset_cell c := tsc_offset σ c + d]> σ.
Proof.
  unfold bump_offset, checked_add_i64, write_tsc_offset. intros Hb.
  destruct (d <? 0) eqn:Hd; [done|]. bool_prop.
  case_decide as Hf; [|done]. simpl in Hb.
  destruct (kvm_set_tsc_offset v _) as [w|] eqn:Hs; [|done]. simplify_eq/=.
  repeat split; first [done | lia | apply Hf].
Qed.

Lemma bump_offset_ok `{KvmTsc Vcpu} σ c (v : Vcpu) d v' :
  0 <= d -> fits_i64 (tsc_offset σ c + d) ->
  kvm_set_tsc_offset v (tsc_offset σ c + d) = Some v' ->
  bump_offset σ c v d = Ok (<[tsc_offset_cell c := tsc_offset σ c + d]> σ, v').
Proof.
  intros Hd Hf Hs. unfold bump_offset, checked_add_i64, write_tsc_offset.
  destruct (d <? 0) eqn:E; [bool_prop; lia|].
  rewrite decide_True by done. by rewrite Hs.
Qed.

Lemma bump_offset_tsc_offset `{KvmTsc Vcpu} σ c (v : Vcpu) d σ' v' :
  bump_offset σ c v d = Ok (σ', v') -> tsc_offset σ' c = tsc_offset σ c + d.
Proof. intros (_ & _ & _ & ->)%bump_offset_inv. apply tsc_offset_insert. Qed.

Lemma vtsc_from_host_fits σ c h : fits 64 (vtsc_from_host σ c h).
Proof. apply as_u64_fits. Qed.

Lemma bump_offset_shift `{KvmTsc Vcpu} σ c (v : Vcpu) d σ' v' c' h :
  bump_offset σ c v d = Ok (σ', v') ->
  tsc_offset_cell c' = tsc_offset_cell c ->
  vtsc_from_host σ' c' h = as_u64 (vtsc_from_host σ c' h + d).
Proof.
  intros Hb Hc. apply bump_offset_tsc_offset in Hb.
  unfold vtsc_from_host, tsc_offset in *. rewrite Hc in *. rewrite Hb, as_u64_add_l.
  f_equal. lia.
Qed.

Lemma cycles_to_ns_exact f c :
  1000000000 <= hz f -> fits 64 c -> cycles_to_ns f c = c * 1000000000 / hz f.
Proof.
  intros Hf [? ?]. unfold cycles_to_ns. apply as_u64_id. split; [apply Z.div_pos; lia|].
  eapply Z.le_lt_trans; [|eassumption]. apply Z.div_le_upper_bound; nia.
Qed.

Lemma cycles_to_ns_0 f : cycles_to_ns f 0 = 0.
Proof. done. Qed.

Lemma cycles_to_ns_fits f c : fits 64 (cycles_to_ns f c).
Proof. apply as_u64_fits. Qed.

Lemma bump_offset_coherent `{KvmTsc Vcpu} σ c (v : Vcpu) d σ' v' :
  bump_offset σ c v d = Ok (σ', v') -> coherent σ' c v'.
Proof.
  intros (_ & _ & Hs & ->)%bump_offset_inv. unfold coherent.
  rewrite tsc_offset_insert. symmetry. by eapply kvm_set_law.
Qed.

Lemma bumps_coherent `{KvmTsc Vcpu} c s ds s' :
  bumps c s ds s' -> forall σ (v : Vcpu) σ' v',
  s = (σ, v) -> s' = (σ', v') -> coherent σ c v ->
  coherent σ' c v' /\ tsc_offset σ' c = tsc_offset σ c + sumZ ds /\ Forall (fun d => 0 <= d) ds.
Proof.
  induction 1 as [s|σ v d σ1 v1 ds s2 Hb _ IH]; intros σ0 v0 σ' v' Hs Hs' Hco; simplify_eq.
  { split; [done|]. split; [unfold sumZ; simpl; lia|constructor]. }
  destruct (IH _ _ _ _ eq_refl eq_refl (bump_offset_coherent _ _ _ _ _ _ Hb)) as (? & Hoff & ?).
  pose proof (bump_offset_tsc_offset _ _ _ _ _ _ Hb) as Hd.
  apply bump_offset_inv in Hb as (? & _).
  split; [done|]. split; [unfold sumZ in *; simpl; lia|by constructor].
Qed.

Lemma clock_from_vcpu_inv `{KvmTsc Vcpu} σ0 (v : Vcpu) c σ :
  clock_from_vcpu σ0 v = Ok (c, σ) ->
  coherent σ c v /\ tsc_offset σ c = guest_tsc_offset v /\ 0 < hz (clock_freq c).
Proof.
  unfold clock_from_vcpu, read_tsc_offset, from_khz, from_hz. intros Hc.
  destruct (kvm_get_tsc_khz v) as [khz|]; [|done].
  destruct (khz =? 0) eqn:?; [done|]. destruct (0 <? khz * 1000) eqn:?; [|done].
  destruct (kvm_has_tsc_offset v); [|done]. simpl in Hc.
  destruct (kvm_get_tsc_offset v) as [o|] eqn:Ho; [|done]. simplify_eq/=.
  apply kvm_get_law in Ho as ->. bool_prop.
  unfold coherent, tsc_offset. simpl. rewrite lookup_total_insert_eq. done.
Qed.

(** ** Properties *)

(** C31: Bumping moves every clone of the clock: after a successful
    [bump_offset] by [next - now], taken at one host sample, every clock that
    shares the cell reads exactly [next] at that sample. *)
Theorem bump_lands_exactly `{KvmTsc Vcpu} σ c c' (v : Vcpu) h next σ' v' :
  tsc_offset_cell c' = tsc_offset_cell c ->
  fits 64 next ->
  vtsc_from_host σ c h <= next ->
  bump_offset σ c v (next - vtsc_from_host σ c h) = Ok (σ', v') ->
  vtsc_from_host σ' c' h = next.
Proof.
  intros Hc Hn Hle Hb. rewrite (bump_offset_shift _ _ _ _ _ _ c' _ Hb Hc).
  replace (vtsc_from_host σ c' h) with (vtsc_from_host σ c h)
    by (unfold vtsc_from_host, tsc_offset; by rewrite Hc).
  rewrite as_u64_id; [lia|]. split; destruct Hn; lia.
Qed.

(** The hypotheses of [bump_lands_exactly] hold at a concrete clock: offset
    -500, host sample 600, so the clock reads 100 and is bumped to 1000. *)
Lemma bump_lands_exactly_witness :
  vtsc_from_host (<[0%nat := 400]> {[0%nat := -500]}) (clock_clone toy_clock) 600 = 1000.
Proof.
  apply (bump_lands_exactly {[0%nat := -500]} toy_clock (clock_clone toy_clock)
    {| toy_offset := -500; toy_accepts := true |} 600 1000
    (<[0%nat := 400]> {[0%nat := -500]}) {| toy_offset := 400; toy_accepts := true |}).
  all: by vm_compute.
Defined.

(** The single-clock invariant holds along a whole run: a clock built by
    [clock_from_vcpu] and bumped any number of times through the cell reads,
    at every host sample, exactly what the guest's RDTSC reads, and its offset
    is the initial one plus the sum of the bumps, all of them non-negative. *)
Theorem clock_is_guest_tsc `{KvmTsc Vcpu} σ0 (v0 : Vcpu) c σ ds σ' v' h :
  clock_from_vcpu σ0 v0 = Ok (c, σ) ->
  bumps c (σ, v0) ds (σ', v') ->
  vtsc_from_host σ' c h = guest_rdtsc v' h
  /\ tsc_offset σ' c = guest_tsc_offset v0 + sumZ ds
  /\ Forall (fun d => 0 <= d) ds
  /\ 0 < hz (clock_freq c).
Proof.
  intros Hc Hb. apply clock_from_vcpu_inv in Hc as (Hco & Hoff & Hhz).
  destruct (bumps_coherent _ _ _ _ Hb _ _ _ _ eq_refl eq_refl Hco) as (Hco' & Hsum & Hpos).
  split; [|split; [lia|done]].
  unfold vtsc_from_host, guest_rdtsc. by rewrite Hco'.
Qed.

(** A concrete run: two bumps through a freshly built clock. *)
Lemma clock_is_guest_tsc_witness :
  tsc_offset (<[0%nat := 350]> (<[0%nat := 100]> (<[0%nat := -50]> ∅))) toy_clock = -50 + 400.
Proof.
  destruct (clock_is_guest_tsc ∅ {| toy_offset := -50; toy_accepts := true |} toy_clock
    (<[0%nat := -50]> ∅) [150; 250] (<[0%nat := 350]> (<[0%nat := 100]> (<[0%nat := -50]> ∅)))
    {| toy_offset := 350; toy_accepts := true |} 0) as (_ & Hoff & _).
  - by vm_compute.
  - eapply bumps_cons; [by vm_compute|]. eapply bumps_cons; [by vm_compute|]. constructor.
  - exact Hoff.
Defined.

(** Every outcome of [bump_offset]: it panics on a negative delta, reports an
    overflow of the signed 64-bit offset, reports a refused ioctl, and
    otherwise installs [old + delta] in KVM and in the cell. *)
Theorem bump_offset_outcomes `{KvmTsc Vcpu} σ c (v : Vcpu) d :
  bump_offset σ c v d =
    if decide (d < 0) then Err (NegativeBump d)
    else if decide (fits_i64 (tsc_offset σ c + d)) then
      match kvm_set_tsc_offset v (tsc_offset σ c + d) with
      | Some v' => Ok (<[tsc_offset_cell c := tsc_offset σ c + d]> σ, v')
      | None => Err SetTscOffsetFailed
      end
    else Err (TscOffsetOverflow (tsc_offset σ c) d).
Proof.
  unfold bump_offset, checked_add_i64, write_tsc_offset.
  destruct (d <? 0) eqn:E; bool_prop; destruct (decide (d < 0)); try lia; [done|].
  destruct (decide (fits_i64 _)); [|done]. simpl.
  by destruct (kvm_set_tsc_offset v _).
Qed.

(** Converting a span of cycles to nanoseconds and back never overshoots and
    loses less than one nanosecond's worth of cycles plus one: this is what
    makes a real wait end no later than the deadline it was computed from. *)
Theorem cycles_ns_roundtrip f c :
  1000000000 <= hz f -> fits 64 c ->
  c - hz f / 1000000000 - 1 <= ns_to_cycles f (cycles_to_ns f c) <= c.
Proof.
  intros Hf Hc. rewrite cycles_to_ns_exact by done. unfold ns_to_cycles.
  assert (Hle : c * 1000000000 / hz f * hz f / 1000000000 <= c).
  { apply Z.div_le_upper_bound; [lia|]. pose proof (Z.mul_div_le (c * 1000000000) (hz f) ltac:(lia)). lia. }
  assert (Hge : 0 <= c * 1000000000 / hz f * hz f / 1000000000).
  { apply Z.div_pos; [|lia]. apply Z.mul_nonneg_nonneg; [apply Z.div_pos|]; destruct Hc; lia. }
  rewrite as_u64_id by (split; destruct Hc; lia).
  split; [|done]. destruct Hc as [? _].
  pose proof (Z.mul_succ_div_gt (c * 1000000000) (hz f) ltac:(lia)).
  pose proof (Z.mul_succ_div_gt (hz f) 1000000000 ltac:(lia)).
  apply Z.div_le_lower_bound; [lia|]. nia.
Qed.

(** At 3.072 GHz, a span of 1000 cycles survives within 4 cycles. *)
Lemma cycles_ns_roundtrip_witness :
  1000 - 3072000000 / 1000000000 - 1
    <= ns_to_cycles {| hz := 3072000000 |} (cycles_to_ns {| hz := 3072000000 |} 1000) <= 1000.
Proof. apply (cycles_ns_roundtrip {| hz := 3072000000 |} 1000); vm_compute; intuition congruence. Defined.

(** [ns_to_cycles] is not monotone on 64-bit durations: the 128-bit quotient
    exceeds 2^64 once the frequency is over 1 GHz and the final cast drops its
    high bits.  At 4 GHz one more nanosecond takes the result from 2^64 - 4 to
    0. *)
Theorem ns_to_cycles_truncates :
  ns_to_cycles {| hz := 4000000000 |} (2 ^ 62 - 1) = 2 ^ 64 - 4
  /\ ns_to_cycles {| hz := 4000000000 |} (2 ^ 62) = 0.
Proof. split; vm_compute; reflexivity. Qed.
