(* ===== verification/Events.v ===== *)
(** * The virtual-time event queue ([src/src/events.rs])

    [EventQueue] is a [BinaryHeap] ordered by the reversed [(deadline, seq)]
    key, so its greatest element is the earliest event.  The heap is modelled
    by what the source uses of it: a collection from which [pop] takes a
    greatest element in the [Ord] of [Event] and [peek] reads it.  The
    properties are that draining at [now] returns exactly the due events in
    strict [(deadline, seq)] order, that equal deadlines are served in push
    order, and that the loop ends. *)

From Stdlib Require Import ZArith Lia.
From stdpp Require Import base numbers list sorting.
From S2P Require Import Prelude.

Open Scope Z_scope.

Section events.
Context {T : Type}.

(** ** Data and operations *)

Record Event := { deadline : Z; payload : T; seq : Z }.

(** [Ord for Event]: reversed, earlier deadline (then earlier seq) is greater. *)
Definition event_cmp (self other : Event) : comparison :=
  match Z.compare (deadline other) (deadline self) with
  | Eq => Z.compare (seq other) (seq self)
  | c => c
  end.

(** [PartialEq for Event]: the key only, never the payload. *)
Definition event_eqb (self other : Event) : bool :=
  (deadline self =? deadline other) && (seq self =? seq other).

(** [BinaryHeap::pop]: a greatest element in [event_cmp], and the rest. *)
Fixpoint heap_pop (h : list Event) : option (Event * list Event) :=
  match h with
  | [] => None
  | e :: h' =>
      match heap_pop h' with
      | None => Some (e, [])
      | Some (m, r) =>
          match event_cmp e m with
          | Lt => Some (m, e :: r)
          | _ => Some (e, m :: r)
          end
      end
  end.

(** [BinaryHeap::peek]. *)
Definition heap_peek (h : list Event) : option Event := fst <$> heap_pop h.

Record EventQueue := { heap : list Event; next_seq : Z }.

Definition queue_new : EventQueue := {| heap := []; next_seq := 0 |}.

Definition queue_len (q : EventQueue) : nat := length (heap q).

Definition queue_is_empty (q : EventQueue) : bool := bool_decide (heap q = []).

Definition push (q : EventQueue) (dl : Z) (p : T) : EventQueue :=
  {| heap := {| deadline := dl; payload := p; seq := next_seq q |} :: heap q;
     next_seq := as_u64 (next_seq q + 1) |}.

Definition peek_deadline (q : EventQueue) : option Z := deadline <$> heap_peek (heap q).

Definition clear (q : EventQueue) : EventQueue := {| heap := []; next_seq := next_seq q |}.

Definition pop_due (q : EventQueue) (now : Z) : option (Event * EventQueue) :=
  match heap_peek (heap q) with
  | Some e =>
      if deadline e <=? now then
        match heap_pop (heap q) with
        | Some (e', h') => Some (e', {| heap := h'; next_seq := next_seq q |})
        | None => None
        end
      else None
  | None => None
  end.

(** [while let Some(ev) = queue.pop_due(now) { .. }]: the events in the order
    they are served, and the queue left.  [fuel] bounds the number of pops. *)
Fixpoint drain (fuel : nat) (q : EventQueue) (now : Z) : list Event * EventQueue :=
  match fuel with
  | O => ([], q)
  | S n =>
      match pop_due q now with
      | None => ([], q)
      | Some (e, q') => let '(es, q'') := drain n q' now in (e :: es, q'')
      end
  end.

(** Key orders of the specification. *)
Definition event_lt (a b : Event) : Prop :=
  deadline a < deadline b \/ (deadline a = deadline b /\ seq a < seq b).

Definition event_le (a b : Event) : Prop :=
  deadline a < deadline b \/ (deadline a = deadline b /\ seq a <= seq b).

(** Well-formed queue: insertion sequences are distinct and already issued. *)
Definition queue_wf (q : EventQueue) : Prop :=
  NoDup (seq <$> heap q) /\ Forall (fun e => 0 <= seq e < next_seq q) (heap q).

(** Pushing a batch in order. *)
Definition push_all (q : EventQueue) (l : list (Z * T)) : EventQueue :=
  foldl (fun q '(dl, p) => push q dl p) q l.

(** The reference order: insertion sort on the deadline, stable. *)
Fixpoint insert_event (e : Event) (l : list Event) : list Event :=
  match l with
  | [] => [e]
  | x :: l' => if deadline x <? deadline e then x :: insert_event e l' else e :: l
  end.

Definition sort_events (l : list Event) : list Event := foldr insert_event [] l.

Fixpoint insert_pair (e : Z * T) (l : list (Z * T)) : list (Z * T) :=
  match l with
  | [] => [e]
  | x :: l' => if x.1 <? e.1 then x :: insert_pair e l' else e :: l
  end.

Definition sort_pairs (l : list (Z * T)) : list (Z * T) := foldr insert_pair [] l.

(** What draining a batch at [now] must serve, in order. *)
Definition serve_order (now : Z) (l : list (Z * T)) : list (Z * T) :=
  sort_pairs (filter (fun x => x.1 <= now) l).

Definition forget (e : Event) : Z * T := (deadline e, payload e).

(** The events a batch becomes, numbered from [s]. *)
Fixpoint stamp (s : Z) (l : list (Z * T)) : list Event :=
  match l with
  | [] => []
  | (dl, p) :: l' => {| deadline := dl; payload := p; seq := s |} :: stamp (s + 1) l'
  end.

(** ** Lemmas *)

Lemma event_cmp_Lt a b : event_cmp a b = Lt <-> event_lt b a.
Proof.
  unfold event_cmp, event_lt.
  destruct (Z.compare_spec (deadline b) (deadline a)) as [E|E|E].
  - rewrite Z.compare_lt_iff. rewrite E. lia.
  - split; [intros _; by left|done].
  - split; [done|]. lia.
Qed.

Lemma event_cmp_not_Lt a b : event_cmp a b <> Lt -> event_le a b.
Proof.
  rewrite event_cmp_Lt. unfold event_lt, event_le. lia.
Qed.

Lemma heap_pop_None h : heap_pop h = None <-> h = [].
Proof.
  destruct h as [|e h]; [done|]. simpl.
  destruct (heap_pop h) as [[m r]|]; [|done]. by destruct (event_cmp e m).
Qed.

Lemma heap_pop_perm h e r : heap_pop h = Some (e, r) -> h ≡ₚ e :: r.
Proof.
  revert e r. induction h as [|x h IH]; intros e r; [done|]. simpl.
  destruct (heap_pop h) as [[m r']|] eqn:E.
  - specialize (IH _ _ eq_refl).
    destruct (event_cmp x m); intros [= <- <-]; by rewrite IH, ?(Permutation_swap m).
  - apply heap_pop_None in E as ->. by intros [= <- <-].
Qed.

Lemma heap_pop_least h e r : heap_pop h = Some (e, r) -> Forall (event_le e) r.
Proof.
  revert e r. induction h as [|x h IH]; intros e r; [done|]. simpl.
  destruct (heap_pop h) as [[m r']|] eqn:E; [|by intros [= <- <-]].
  specialize (IH _ _ eq_refl).
  destruct (event_cmp x m) eqn:C; intros [= <- <-].
  - assert (event_le x m) by (apply event_cmp_not_Lt; congruence).
    constructor; [done|]. eapply Forall_impl; [exact IH|]. unfold event_le in *. simpl. lia.
  - apply event_cmp_Lt in C. constructor; [|done]. unfold event_le, event_lt in *. lia.
  - assert (event_le x m) by (apply event_cmp_not_Lt; congruence).
    constructor; [done|]. eapply Forall_impl; [exact IH|]. unfold event_le in *. simpl. lia.
Qed.

Lemma pop_due_Some q now e q' :
  pop_due q now = Some (e, q') ->
  heap q ≡ₚ e :: heap q' /\ deadline e <= now /\ Forall (event_le e) (heap q')
  /\ next_seq q' = next_seq q.
Proof.
  unfold pop_due, heap_peek. destruct (heap_pop (heap q)) as [[x r]|] eqn:E; simpl; [|done].
  destruct (deadline x <=? now) eqn:D; [|done]. intros [= <- <-]. simpl. bool_prop.
  split; [by apply heap_pop_perm|]. split; [done|]. split; [by eapply heap_pop_least|done].
Qed.

Lemma pop_due_None q now :
  pop_due q now = None -> Forall (fun e => now < deadline e) (heap q).
Proof.
  unfold pop_due, heap_peek. destruct (heap_pop (heap q)) as [[x r]|] eqn:E; simpl.
  - destruct (deadline x <=? now) eqn:D; [done|]. intros _. bool_prop.
    rewrite (heap_pop_perm _ _ _ E). constructor; [done|].
    eapply Forall_impl; [by eapply heap_pop_least|]. unfold event_le. simpl. lia.
  - apply heap_pop_None in E as ->. constructor.
Qed.

Lemma queue_wf_pop q now e q' :
  queue_wf q -> pop_due q now = Some (e, q') ->
  queue_wf q' /\ Forall (event_lt e) (heap q').
Proof.
  intros [Hnd Hlt] Hp. apply pop_due_Some in Hp as (Hperm & _ & Hle & Hseq).
  rewrite Hperm in Hnd, Hlt. simpl in Hnd.
  apply NoDup_cons in Hnd as [Hni Hnd]. apply Forall_cons in Hlt as [? Hlt].
  split; [split; [done|]; by rewrite Hseq|].
  apply Forall_forall. intros x Hx. rewrite Forall_forall in Hle.
  specialize (Hle x Hx). assert (seq e <> seq x).
  { intros Heq. apply Hni. rewrite Heq. apply list_elem_of_fmap. by exists x. }
  unfold event_le, event_lt in *. lia.
Qed.

Lemma queue_wf_new : queue_wf queue_new.
Proof. split; simpl; constructor. Qed.

Lemma queue_wf_clear q : queue_wf (clear q).
Proof. split; simpl; constructor. Qed.

Lemma queue_wf_push q dl p : queue_wf q -> fits 64 (next_seq q + 1) -> 0 <= next_seq q -> queue_wf (push q dl p).
Proof.
  intros [Hnd Hlt] Hf H0. unfold push. split; simpl; rewrite ?as_u64_id by done.
  - apply NoDup_cons. split; [|done]. intros (x & Hx & Hin)%list_elem_of_fmap.
    rewrite Forall_forall in Hlt. specialize (Hlt x Hin). lia.
  - constructor; [simpl; lia|]. eapply Forall_impl; [exact Hlt|]. simpl. lia.
Qed.

(** What one drain does, given enough fuel: the drained events are strictly
    sorted by key, all due; what is left is not due; nothing is lost. *)
Lemma drain_spec n q now :
  queue_wf q -> (length (heap q) <= n)%nat ->
  let '(es, q') := drain n q now in
  heap q ≡ₚ es ++ heap q' /\ StronglySorted event_lt es
  /\ Forall (fun e => deadline e <= now) es
  /\ Forall (fun e => now < deadline e) (heap q')
  /\ Forall (fun e => Forall (event_lt e) (heap q')) es.
Proof.
  revert q. induction n as [|n IH]; intros q Hwf Hn; simpl.
  { assert (heap q = []) as -> by (by apply nil_length_inv; lia).
    repeat split; constructor. }
  destruct (pop_due q now) as [[e q1]|] eqn:Hp.
  2: { apply pop_due_None in Hp. repeat split; try constructor; done. }
  destruct (queue_wf_pop _ _ _ _ Hwf Hp) as [Hwf1 Hlt1].
  apply pop_due_Some in Hp as (Hperm & Hdue & _ & _).
  assert (length (heap q1) <= n)%nat by (rewrite Hperm in Hn; simpl in Hn; lia).
  specialize (IH q1 Hwf1 ltac:(done)). destruct (drain n q1 now) as [es q2].
  destruct IH as (Hperm2 & Hs & Hd & Hr & Hx).
  rewrite Hperm2, Forall_app in Hlt1. destruct Hlt1 as [Hlt1 Hlt2].
  split; [by rewrite Hperm, Hperm2|].
  split; [by constructor|]. split; [by constructor|]. split; [done|]. by constructor.
Qed.

(** ** The service order as a stable sort *)

Lemma insert_event_perm e l : insert_event e l ≡ₚ e :: l.
Proof.
  induction l as [|x l IH]; simpl; [done|]. destruct (deadline x <? deadline e); [|done].
  by rewrite IH, Permutation_swap.
Qed.

Lemma sort_events_perm l : sort_events l ≡ₚ l.
Proof. induction l as [|x l IH]; simpl; [done|]. by rewrite insert_event_perm, IH. Qed.

Lemma insert_event_sorted e l :
  StronglySorted event_lt l -> Forall (fun x => seq e < seq x) l ->
  StronglySorted event_lt (insert_event e l).
Proof.
  induction 1 as [|x l Hs IH Hx]; intros Hseq; simpl; [by repeat constructor|].
  apply Forall_cons in Hseq as [Hseq1 Hseq]. destruct (deadline x <? deadline e) eqn:E; bool_prop.
  - constructor; [by apply IH|]. rewrite insert_event_perm. constructor; [by left|done].
  - assert (event_lt e x) by (unfold event_lt; lia).
    constructor; [by constructor|]. constructor; [done|].
    eapply Forall_impl; [exact Hx|]. unfold event_lt in *. simpl. lia.
Qed.

Lemma sort_events_sorted l :
  StronglySorted (fun a b => seq a < seq b) l -> StronglySorted event_lt (sort_events l).
Proof.
  induction 1 as [|x l Hs IH Hx]; simpl; [constructor|].
  apply insert_event_sorted; [done|]. by rewrite sort_events_perm.
Qed.

Lemma StronglySorted_filter {A} (R : A -> A -> Prop) (P : A -> Prop) `{!forall x, Decision (P x)} l :
  StronglySorted R l -> StronglySorted R (filter P l).
Proof.
  induction 1 as [|x l Hs IH Hx]; [constructor|]. rewrite filter_cons.
  case_decide; [|done]. constructor; [done|]. rewrite Forall_forall in *.
  intros y [_ Hy]%list_elem_of_filter. by apply Hx.
Qed.

Lemma event_lt_asym a b : event_lt a b -> event_lt b a -> a = b.
Proof. unfold event_lt. lia. Qed.

Lemma push_all_heap l : forall q,
  Z.of_nat (length l) + next_seq q < 2 ^ 64 -> 0 <= next_seq q ->
  heap (push_all q l) = reverse (stamp (next_seq q) l) ++ heap q
  /\ next_seq (push_all q l) = next_seq q + Z.of_nat (length l).
Proof.
  induction l as [|[dl p] l IH]; intros q Hl H0; simpl; [split; [done|lia]|].
  simpl in Hl. assert (Hn : next_seq (push q dl p) = next_seq q + 1).
  { simpl. apply as_u64_id. unfold fits. lia. }
  destruct (IH (push q dl p)) as [Hh Hs]; [lia..|].
  unfold push_all in *. simpl. rewrite Hh, Hs, Hn. split; [|lia].
  by rewrite reverse_cons, <- app_assoc.
Qed.

Lemma stamp_seq s l : Forall (fun e => s <= seq e < s + Z.of_nat (length l)) (stamp s l).
Proof.
  revert s. induction l as [|[dl p] l IH]; intros s; simpl; [constructor|].
  constructor; [simpl; lia|]. eapply Forall_impl; [apply IH|]. simpl. lia.
Qed.

Lemma stamp_sorted s l : StronglySorted (fun a b => seq a < seq b) (stamp s l).
Proof.
  revert s. induction l as [|[dl p] l IH]; intros s; simpl; [constructor|].
  constructor; [done|]. eapply Forall_impl; [apply stamp_seq|]. simpl. lia.
Qed.

Lemma stamp_NoDup s l : NoDup (seq <$> stamp s l).
Proof.
  revert s. induction l as [|[dl p] l IH]; intros s; simpl; [constructor|].
  constructor; [|done]. intros (x & Hx & Hin)%list_elem_of_fmap.
  pose proof (stamp_seq (s + 1) l) as Hf. rewrite Forall_forall in Hf. specialize (Hf x Hin). lia.
Qed.

Lemma stamp_forget s l : forget <$> stamp s l = l.
Proof.
  revert s. induction l as [|[dl p] l IH]; intros s; simpl; [done|]. by rewrite IH.
Qed.

Lemma queue_wf_push_all l :
  Z.of_nat (length l) < 2 ^ 64 -> queue_wf (push_all queue_new l).
Proof.
  intros Hl. destruct (push_all_heap l queue_new) as [Hh Hs]; simpl; [lia..|].
  unfold queue_wf. rewrite Hh, Hs. simpl. rewrite app_nil_r, fmap_reverse. split.
  - rewrite reverse_Permutation. apply stamp_NoDup.
  - rewrite reverse_Permutation. eapply Forall_impl; [apply stamp_seq|]. simpl. lia.
Qed.

Lemma forget_filter now (l : list Event) :
  forget <$> filter (fun e => deadline e <= now) l = filter (fun x => x.1 <= now) (forget <$> l).
Proof.
  induction l as [|e l IH]; [done|]. rewrite fmap_cons, !filter_cons.
  change ((forget e).1) with (deadline e). case_decide; rewrite ?fmap_cons; by rewrite IH.
Qed.

Lemma forget_filter_not now (l : list Event) :
  forget <$> filter (fun e => ~ deadline e <= now) l = filter (fun x => ~ x.1 <= now) (forget <$> l).
Proof.
  induction l as [|e l IH]; [done|]. rewrite fmap_cons, !filter_cons.
  change ((forget e).1) with (deadline e). case_decide; rewrite ?fmap_cons; by rewrite IH.
Qed.

Lemma pop_due_not_due q now : Forall (fun e => now < deadline e) (heap q) -> pop_due q now = None.
Proof.
  intros Hf. destruct (pop_due q now) as [[e q']|] eqn:E; [|done].
  apply pop_due_Some in E as (Hp & ? & _). rewrite Hp in Hf. inversion Hf; simplify_eq. lia.
Qed.

Lemma forget_sort l : forget <$> sort_events l = sort_pairs (forget <$> l).
Proof.
  induction l as [|e l IH]; [done|]. csimpl. rewrite <- IH. generalize (sort_events l).
  intros k. induction k as [|x k IHk]; [done|]. csimpl. destruct (deadline x <? deadline e); csimpl; [|done].
  by rewrite IHk.
Qed.

Lemma drain_is_sort n q now l :
  queue_wf q -> heap q ≡ₚ l -> StronglySorted (fun a b => seq a < seq b) l ->
  (length (heap q) <= n)%nat ->
  fst (drain n q now) = sort_events (filter (fun e => deadline e <= now) l)
  /\ heap (snd (drain n q now)) ≡ₚ filter (fun e => ~ deadline e <= now) l.
Proof.
  intros Hwf Hl Hs Hn. pose proof (drain_spec n q now Hwf Hn) as Hd.
  destruct (drain n q now) as [es q']. destruct Hd as (Hp & Hss & Hdue & Hnot & _). simpl.
  assert (Hfil : filter (fun e => deadline e <= now) l ≡ₚ es
    /\ filter (fun e => ~ deadline e <= now) l ≡ₚ heap q').
  { rewrite <- Hl, Hp, !filter_app. split.
    - rewrite (list_filter_all _ es), (list_filter_none _ (heap q')), app_nil_r; [done|..].
      + eapply Forall_impl; [exact Hnot|]. simpl. lia.
      + done.
    - rewrite (list_filter_none _ es), (list_filter_all _ (heap q')); [done|..].
      + eapply Forall_impl; [exact Hnot|]. simpl. lia.
      + eapply Forall_impl; [exact Hdue|]. simpl. lia. }
  destruct Hfil as [Hf1 Hf2]. split; [|done].
  apply (StronglySorted_unique_strong event_lt); auto using event_lt_asym.
  - apply sort_events_sorted. by apply StronglySorted_filter.
  - by rewrite sort_events_perm.
Qed.

(** ** Properties *)

(** The queue implements its documented order: after any batch of
    pushes, draining at [now] with as many pops as there are entries serves
    exactly the due events, in the stable order by deadline (equal deadlines in
    push order), keeps exactly the others, and leaves nothing due. *)
Theorem drain_serves_stable_order (l : list (Z * T)) now :
  Z.of_nat (length l) < 2 ^ 64 ->
  let q := push_all queue_new l in
  let '(es, q') := drain (queue_len q) q now in
  forget <$> es = serve_order now l
  /\ forget <$> heap q' ≡ₚ filter (fun x => ~ x.1 <= now) l
  /\ pop_due q' now = None.
Proof.
  intros Hl q. pose proof (queue_wf_push_all l Hl) as Hwf.
  destruct (push_all_heap l queue_new) as [Hh _]; simpl; [lia..|].
  simpl in Hh. rewrite app_nil_r in Hh.
  pose proof (drain_is_sort (queue_len q) q now (stamp 0 l) Hwf) as Hd.
  pose proof (drain_spec (queue_len q) q now Hwf ltac:(done)) as Hsp.
  destruct (drain (queue_len q) q now) as [es q']. destruct Hsp as (_ & _ & _ & Hnot & _).
  destruct Hd as [He Hr].
  { unfold q. rewrite Hh. apply reverse_Permutation. } { apply stamp_sorted. } { done. }
  simpl in He, Hr. subst es. split; [by rewrite forget_sort, forget_filter, stamp_forget|]. split.
  - rewrite Hr, forget_filter_not, stamp_forget. done.
  - by apply pop_due_not_due.
Qed.

(** Pushing after a drain, and clearing, keep the queue well formed, so the
    order above is the order of every queue the loop builds. *)
Lemma queue_wf_drain n q now : queue_wf q -> queue_wf (snd (drain n q now)).
Proof.
  revert q. induction n as [|n IH]; intros q Hwf; simpl; [done|].
  destruct (pop_due q now) as [[e q1]|] eqn:Hp; [|done].
  destruct (queue_wf_pop _ _ _ _ Hwf Hp) as [Hwf1 _]. specialize (IH q1 Hwf1).
  by destruct (drain n q1 now).
Qed.

End events.

(** Four pushes, two of them at one deadline, drained at 20. *)
Lemma drain_serves_stable_order_witness :
  let q := push_all queue_new [(20, 1); (30, 2); (10, 3); (20, 4)] in
  forget <$> fst (drain (queue_len q) q 20) = [(10, 3); (20, 1); (20, 4)].
Proof.
  pose proof (drain_serves_stable_order [(20, 1); (30, 2); (10, 3); (20, 4)] 20 ltac:(simpl; lia)) as H.
  cbv zeta in *. destruct (drain _ _ _) as [es q']. cbn [fst]. destruct H as [-> _]. by vm_compute.
Defined.
