(* ===== verification/Pic.v ===== *)
(** * The masked 8259A pair ([src/src/pic.rs])

    Two 8259s that accept the ICW1..ICW4 initialisation and remember the OCW1
    mask, and deliver nothing.  The properties give the mask register after an
    arbitrary initialisation followed by arbitrary data writes, and that the
    two chips do not disturb each other. *)

From Stdlib Require Import ZArith Lia.
From stdpp Require Import base numbers list.
From S2P Require Import Prelude.

Open Scope Z_scope.

Definition PIC1_CMD : Z := 0x20.
Definition PIC1_DATA : Z := 0x21.
Definition PIC2_CMD : Z := 0xa0.
Definition PIC2_DATA : Z := 0xa1.

Record Pic8259 := { imr : Z; icw_step : Z; expect_icw4 : bool }.

Definition pic8259_new : Pic8259 := {| imr := 0xff; icw_step := 0; expect_icw4 := false |}.

Definition write_cmd (p : Pic8259) (val : Z) : Pic8259 :=
  if negb (Z.land val 0x10 =? 0) then
    {| imr := imr p; icw_step := 1; expect_icw4 := negb (Z.land val 0x01 =? 0) |}
  else p.

Definition write_data (p : Pic8259) (val : Z) : Pic8259 :=
  let step s := {| imr := imr p; icw_step := s; expect_icw4 := expect_icw4 p |} in
  if icw_step p =? 1 then step 2
  else if icw_step p =? 2 then step 3
  else if icw_step p =? 3 then step (if expect_icw4 p then 4 else 0)
  else if icw_step p =? 4 then step 0
  else {| imr := val; icw_step := icw_step p; expect_icw4 := expect_icw4 p |}.

Definition read_data (p : Pic8259) : Z := imr p.

Record PicStub := { master : Pic8259; slave : Pic8259 }.

Definition pic_new : PicStub := {| master := pic8259_new; slave := pic8259_new |}.

Definition pic_handles (port : Z) : bool :=
  (port =? PIC1_CMD) || (port =? PIC1_DATA) || (port =? PIC2_CMD) || (port =? PIC2_DATA).

Definition pic_write (s : PicStub) (port val : Z) : PicStub :=
  if port =? PIC1_CMD then {| master := write_cmd (master s) val; slave := slave s |}
  else if port =? PIC1_DATA then {| master := write_data (master s) val; slave := slave s |}
  else if port =? PIC2_CMD then {| master := master s; slave := write_cmd (slave s) val |}
  else if port =? PIC2_DATA then {| master := master s; slave := write_data (slave s) val |}
  else s.

Definition pic_read (s : PicStub) (port : Z) : Z :=
  if port =? PIC1_DATA then read_data (master s)
  else if port =? PIC2_DATA then read_data (slave s)
  else if (port =? PIC1_CMD) || (port =? PIC2_CMD) then 0
  else 0xff.

(** A sequence of port writes. *)
Definition pic_writes (s : PicStub) (ws : list (Z * Z)) : PicStub :=
  foldl (fun s '(port, val) => pic_write s port val) s ws.

(** The data bytes an initialisation consumes before the next one is a mask. *)
Definition init_bytes (icw1 : Z) : nat := if Z.land icw1 0x01 =? 0 then 3 else 4.

(** ** Lemmas *)

Lemma idle_data_writes p ds :
  icw_step p = 0 ->
  foldl write_data p ds =
    {| imr := default (imr p) (last ds); icw_step := 0; expect_icw4 := expect_icw4 p |}.
Proof.
  revert p. induction ds as [|d ds IH]; intros [i s e] Hs; simpl in *; subst; [done|].
  unfold write_data at 2. simpl. rewrite IH by done. simpl.
  destruct ds as [|d' ds]; [done|]. rewrite last_cons_cons. by destruct (last_is_Some (d' :: ds)) as [_ [? ->]].
Qed.

Lemma master_data_writes ds s :
  pic_writes s ((fun d => (PIC1_DATA, d)) <$> ds) =
    {| master := foldl write_data (master s) ds; slave := slave s |}.
Proof.
  revert s. induction ds as [|d ds IH]; intros s; [by destruct s|].
  rewrite fmap_cons. unfold pic_writes in *. simpl. rewrite IH. done.
Qed.

Lemma init_then_data p icw1 ds :
  Z.land icw1 0x10 <> 0 -> (init_bytes icw1 <= length ds)%nat ->
  foldl write_data (write_cmd p icw1) ds =
    {| imr := default (imr p) (last (drop (init_bytes icw1) ds)); icw_step := 0;
       expect_icw4 := negb (Z.land icw1 0x01 =? 0) |}.
Proof.
  intros H1 Hl. unfold write_cmd, init_bytes in *.
  destruct (Z.land icw1 16 =? 0) eqn:?; [bool_prop; done|]. simpl.
  destruct (Z.land icw1 1 =? 0) eqn:E4; simpl in *.
  - destruct ds as [|a [|b [|c ds]]]; simpl in Hl; try lia. simpl. by rewrite idle_data_writes.
  - destruct ds as [|a [|b [|c [|d ds]]]]; simpl in Hl; try lia. simpl. by rewrite idle_data_writes.
Qed.

(** ** Properties *)

(** The master's mask register after an initialisation: writing ICW1 and
    then the data bytes [ds] leaves in the mask the last data byte written
    after the bytes the initialisation consumes (four when ICW1 asks for ICW4,
    three otherwise), or the old mask if there is none; the chip is idle again
    and the slave is untouched. *)
Theorem pic_mask_after_init s icw1 ds :
  Z.land icw1 0x10 <> 0 -> (init_bytes icw1 <= length ds)%nat ->
  let s' := pic_writes s ((PIC1_CMD, icw1) :: ((fun d => (PIC1_DATA, d)) <$> ds)) in
  pic_read s' PIC1_DATA = default (imr (master s)) (last (drop (init_bytes icw1) ds))
  /\ icw_step (master s') = 0 /\ slave s' = slave s.
Proof.
  intros H1 Hl. cbv zeta.
  change (pic_writes s ((PIC1_CMD, icw1) :: ((fun d => (PIC1_DATA, d)) <$> ds))) with
    (pic_writes (pic_write s PIC1_CMD icw1) ((fun d => (PIC1_DATA, d)) <$> ds)).
  rewrite master_data_writes.
  change (master (pic_write s PIC1_CMD icw1)) with (write_cmd (master s) icw1).
  by rewrite init_then_data.
Qed.

(** ICW1 = 0x15 (edge, cascade, ICW4), ICW2..ICW4 and two mask writes: the last is read back. *)
Lemma pic_mask_after_init_witness :
  pic_read (pic_writes pic_new [(PIC1_CMD, 0x15); (PIC1_DATA, 0x20); (PIC1_DATA, 0x04);
    (PIC1_DATA, 0x01); (PIC1_DATA, 0xff); (PIC1_DATA, 0xfb)]) PIC1_DATA = 0xfb.
Proof.
  destruct (pic_mask_after_init pic_new 0x15 [0x20; 0x04; 0x01; 0xff; 0xfb]) as [H _];
    [done | vm_compute; lia | exact H].
Defined.

(** The initialisation consumes one data byte more than the 8259A's
    ICW sequence has: after ICW1 with ICW4 requested, ICW2, ICW3 and ICW4, the
    first OCW1 mask write is taken for an initialisation word and the mask
    keeps its old value, whatever byte was written. *)
Theorem pic_first_mask_write_lost s icw2 icw3 icw4 mask :
  pic_read (pic_writes s [(PIC1_CMD, 0x11); (PIC1_DATA, icw2); (PIC1_DATA, icw3);
    (PIC1_DATA, icw4); (PIC1_DATA, mask)]) PIC1_DATA = imr (master s).
Proof. destruct s as [[i st e] sl]. reflexivity. Qed.
