(* ===== verification/Pit.v ===== *)
(** * The 8254 counter stub ([src/src/pit.rs])

    Three channels whose down-counters are a function of the virtual clock,
    with the access modes, the byte flip-flops and the latch commands the
    guest's TSC calibration uses, and the two ELCR registers.  The properties
    are the counter's law from a count load, the coherence of a latched
    two-byte read, and the width invariant. *)

From Stdlib Require Import ZArith Lia.
From stdpp Require Import base numbers gmap list.
From S2P Require Import Prelude.
From S2P Require Import Vtsc.

Open Scope Z_scope.

Definition PIT_FREQ_HZ : Z := 1193182.

Definition PIT_CH0 : Z := 0x40.
Definition PIT_CH1 : Z := 0x41.
Definition PIT_CH2 : Z := 0x42.
Definition PIT_CTRL : Z := 0x43.
Definition ELCR_MASTER : Z := 0x4d0.
Definition ELCR_SLAVE : Z := 0x4d1.

Inductive AccessMode := LoByte | HiByte | LoHiByte.

#[export] Instance AccessMode_eq_dec : EqDecision AccessMode.
Proof. solve_decision. Defined.

Definition access_from_bits (bits : Z) : AccessMode :=
  let b := Z.land bits 3 in
  if b =? 1 then LoByte else if b =? 2 then HiByte else LoHiByte.

Record Channel := {
  access : AccessMode;
  write_lo_next : bool;
  write_lo_latch : Z;
  initial : Z;
  anchor_vtsc : Z;
  read_lo_next : bool;
  latched : option Z;
}.

Definition channel_default : Channel := {|
  access := LoHiByte; write_lo_next := true; write_lo_latch := 0; initial := 0xffff;
  anchor_vtsc := 0; read_lo_next := true; latched := None |}.

(** Field updates. *)
Definition with_latched (c : Channel) (l : option Z) : Channel := {|
  access := access c; write_lo_next := write_lo_next c; write_lo_latch := write_lo_latch c;
  initial := initial c; anchor_vtsc := anchor_vtsc c; read_lo_next := read_lo_next c; latched := l |}.

Definition with_read_lo_next (c : Channel) (b : bool) : Channel := {|
  access := access c; write_lo_next := write_lo_next c; write_lo_latch := write_lo_latch c;
  initial := initial c; anchor_vtsc := anchor_vtsc c; read_lo_next := b; latched := latched c |}.

Definition with_count (c : Channel) (count now : Z) : Channel := {|
  access := access c; write_lo_next := write_lo_next c; write_lo_latch := write_lo_latch c;
  initial := count; anchor_vtsc := now; read_lo_next := read_lo_next c; latched := latched c |}.

Definition with_write (c : Channel) (lo_next : bool) (lo : Z) : Channel := {|
  access := access c; write_lo_next := lo_next; write_lo_latch := lo;
  initial := initial c; anchor_vtsc := anchor_vtsc c; read_lo_next := read_lo_next c;
  latched := latched c |}.

Definition pit_ticks_since (anchor now : Z) (freq : TscFrequency) : Z :=
  let dv := saturating_sub now anchor in
  as_u64 (dv * PIT_FREQ_HZ / hz freq).

Definition counter (c : Channel) (now : Z) (freq : TscFrequency) : Z :=
  let ticks := pit_ticks_since (anchor_vtsc c) now freq in
  as_u16 (wrapping_sub_u64 (initial c) ticks).

Definition read_byte (c : Channel) (now : Z) (freq : TscFrequency) : Z * Channel :=
  let value := match latched c with Some v => v | None => counter c now freq end in
  match access c with
  | LoByte => (as_u8 value, with_latched c None)
  | HiByte => (as_u8 (Z.shiftr value 8), with_latched c None)
  | LoHiByte =>
      if read_lo_next c then (as_u8 value, with_read_lo_next c false)
      else (as_u8 (Z.shiftr value 8), with_latched (with_read_lo_next c true) None)
  end.

Definition write_byte (c : Channel) (byte now : Z) : Channel :=
  match access c with
  | LoByte => with_count c byte now
  | HiByte => with_count c (as_u16 (Z.shiftl byte 8)) now
  | LoHiByte =>
      if write_lo_next c then with_write c false byte
      else with_count (with_write c true (write_lo_latch c))
             (Z.lor (as_u16 (Z.shiftl byte 8)) (write_lo_latch c)) now
  end.

Definition program (c : Channel) (a : AccessMode) : Channel := {|
  access := a; write_lo_next := true; write_lo_latch := write_lo_latch c;
  initial := initial c; anchor_vtsc := anchor_vtsc c; read_lo_next := true; latched := None |}.

Definition latch (c : Channel) (now : Z) (freq : TscFrequency) : Channel :=
  match latched c with
  | None => with_read_lo_next (with_latched c (Some (counter c now freq))) true
  | Some _ => c
  end.

Record PitStub := { channels : list Channel; elcr : Z * Z; pit_clock : VirtualClock }.

Definition pit_new (clock : VirtualClock) : PitStub :=
  {| channels := replicate 3 channel_default; elcr := (0, 0); pit_clock := clock |}.

Definition pit_handles (port : Z) : bool :=
  ((PIT_CH0 <=? port) && (port <=? PIT_CTRL)) || (port =? ELCR_MASTER) || (port =? ELCR_SLAVE).

Definition with_channels (p : PitStub) (cs : list Channel) : PitStub :=
  {| channels := cs; elcr := elcr p; pit_clock := pit_clock p |}.

Definition with_elcr (p : PitStub) (e : Z * Z) : PitStub :=
  {| channels := channels p; elcr := e; pit_clock := pit_clock p |}.

(** Indexing an array of three out of range is a Rust panic; the ports that
    reach here make it impossible, and [pit_total] below says so: the
    [None] branches are not taken. *)
Definition pit_read_at (p : PitStub) (port now : Z) : option (Z * PitStub) :=
  let freq := clock_freq (pit_clock p) in
  if (port =? PIT_CH0) || (port =? PIT_CH1) || (port =? PIT_CH2) then
    let idx := Z.to_nat (port - PIT_CH0) in
    c ← channels p !! idx;
    let '(b, c') := read_byte c now freq in
    Some (b, with_channels p (<[idx := c']> (channels p)))
  else if port =? PIT_CTRL then Some (0xff, p)
  else if port =? ELCR_MASTER then Some ((elcr p).1, p)
  else if port =? ELCR_SLAVE then Some ((elcr p).2, p)
  else Some (0xff, p).

Definition write_control (p : PitStub) (cw now : Z) (freq : TscFrequency) : option PitStub :=
  let sel := Z.shiftr cw 6 in
  if sel =? 3 then
    Some (if Z.land cw 0x20 =? 0 then
      with_channels p (imap (fun i ch =>
        if negb (Z.land cw (Z.shiftl 1 (Z.of_nat i + 1)) =? 0) then latch ch now freq else ch)
        (channels p))
    else p)
  else
    ch ← channels p !! Z.to_nat sel;
    let access_bits := Z.land (Z.shiftr cw 4) 3 in
    let ch' := if access_bits =? 0 then latch ch now freq
               else program ch (access_from_bits access_bits) in
    Some (with_channels p (<[Z.to_nat sel := ch']> (channels p))).

Definition pit_write_at (p : PitStub) (port value now : Z) : option PitStub :=
  let freq := clock_freq (pit_clock p) in
  if (port =? PIT_CH0) || (port =? PIT_CH1) || (port =? PIT_CH2) then
    let idx := Z.to_nat (port - PIT_CH0) in
    c ← channels p !! idx;
    Some (with_channels p (<[idx := write_byte c value now]> (channels p)))
  else if port =? PIT_CTRL then write_control p value now freq
  else if port =? ELCR_MASTER then Some (with_elcr p (value, (elcr p).2))
  else if port =? ELCR_SLAVE then Some (with_elcr p ((elcr p).1, value))
  else Some p.

(** [read] and [write] sample the clock once, at host TSC [h]. *)
Definition pit_read (σ : cells) (p : PitStub) (port h : Z) : option (Z * PitStub) :=
  pit_read_at p port (vtsc_from_host σ (pit_clock p) h).

Definition pit_write (σ : cells) (p : PitStub) (port value h : Z) : option PitStub :=
  pit_write_at p port value (vtsc_from_host σ (pit_clock p) h).

(** ** The invariant *)

Record channel_wf (c : Channel) : Prop := {
  cwf_lo : fits 8 (write_lo_latch c);
  cwf_initial : fits 16 (initial c);
  cwf_latched v : latched c = Some v -> fits 16 v;
}.

Definition pit_wf (p : PitStub) : Prop :=
  length (channels p) = 3%nat /\ Forall channel_wf (channels p)
  /\ fits 8 (elcr p).1 /\ fits 8 (elcr p).2.

(** ** Lemmas *)

Lemma counter_fits c now f : fits 16 (counter c now f).
Proof. apply as_u16_fits. Qed.

(** The down-counter, modulo 2^16, whatever the number of ticks. *)
Lemma counter_eq c now f :
  counter c now f =
    (initial c - saturating_sub now (anchor_vtsc c) * PIT_FREQ_HZ / hz f) mod 2 ^ 16.
Proof.
  unfold counter, pit_ticks_since, wrapping_sub_u64, as_u16, as_u64.
  rewrite wrap_wrap by lia. rewrite <- (wrap_sub_r 16), (wrap_wrap 16 64) by lia.
  apply wrap_sub_r.
Qed.

Lemma channel_default_wf : channel_wf channel_default.
Proof. split; simpl; unfold fits; try lia; done. Qed.

Lemma read_byte_fits c now f : fits 8 (fst (read_byte c now f)).
Proof.
  unfold read_byte. destruct (access c); [| |destruct (read_lo_next c)]; apply as_u8_fits.
Qed.

Lemma read_byte_wf c now f : channel_wf c -> channel_wf (snd (read_byte c now f)).
Proof.
  intros [? ? Hl]. unfold read_byte.
  destruct (access c); [| |destruct (read_lo_next c)]; split; simpl; try done; eauto.
Qed.

Lemma latch_wf c now f : channel_wf c -> channel_wf (latch c now f).
Proof.
  intros [? ? Hl]. unfold latch. destruct (latched c) eqn:E; split; simpl; try done.
  - rewrite E; eauto.
  - intros v [= <-]. apply counter_fits.
Qed.

Lemma program_wf c a : channel_wf c -> channel_wf (program c a).
Proof. intros [? ? Hl]. split; simpl; done. Qed.

Lemma write_byte_wf c b now : fits 8 b -> channel_wf c -> channel_wf (write_byte c b now).
Proof.
  intros Hb [? ? Hl]. pose proof (fits_mono 8 16 b ltac:(lia) Hb).
  unfold write_byte. destruct (access c); [| |destruct (write_lo_next c)]; split; simpl; eauto.
  all: try apply as_u16_fits. apply fits_lor; [lia|apply as_u16_fits|].
  by apply (fits_mono 8 16).
Qed.

#[export] Hint Resolve read_byte_wf latch_wf program_wf write_byte_wf : width.

Lemma with_channels_wf p cs :
  pit_wf p -> length cs = 3%nat -> Forall channel_wf cs -> pit_wf (with_channels p cs).
Proof. intros (? & ? & ? & ?) ? ?. by unfold pit_wf; simpl; split_and!. Qed.

Lemma channels_lookup p i : pit_wf p -> (i < 3)%nat ->
  exists c, channels p !! i = Some c /\ channel_wf c.
Proof.
  intros (Hl & Hf & _) Hi. destruct (lookup_lt_is_Some_2 (channels p) i ltac:(lia)) as [c Hc].
  exists c. split; [done|]. by eapply Forall_lookup_1.
Qed.

Lemma insert_channel_wf p i c :
  pit_wf p -> channel_wf c -> pit_wf (with_channels p (<[i := c]> (channels p))).
Proof.
  intros Hp Hc. apply with_channels_wf; [done|by rewrite length_insert; apply Hp|].
  apply Forall_insert; [apply Hp|done].
Qed.

Lemma write_control_wf p cw now f :
  pit_wf p -> fits 8 cw -> exists p', write_control p cw now f = Some p' /\ pit_wf p'.
Proof.
  intros Hp [Hc0 Hc8]. unfold write_control.
  assert (0 <= Z.shiftr cw 6 < 4) as Hs.
  { rewrite Z.shiftr_div_pow2 by lia. split; [apply Z.div_pos; lia|].
    apply Z.div_lt_upper_bound; lia. }
  destruct (Z.shiftr cw 6 =? 3) eqn:E; bool_prop.
  - eexists; split; [done|]. destruct (Z.land cw 0x20 =? 0); [|done].
    apply with_channels_wf; [done|by rewrite length_imap; apply Hp|].
    apply Forall_lookup. intros i x. rewrite list_lookup_imap. intros (y & Hy & ->)%fmap_Some.
    assert (channel_wf y) by (eapply Forall_lookup_1; [apply Hp|done]).
    case_match; auto with width.
  - destruct (channels_lookup p (Z.to_nat (Z.shiftr cw 6)) Hp ltac:(lia)) as (c & -> & Hc).
    eexists; split; [done|]. apply insert_channel_wf; [done|]. case_match; auto with width.
Qed.

(** ** Properties *)

(** The guest can never make the PIT panic or leave its width invariant:
    on a well-formed stub every port read returns one byte, every port write
    of a byte succeeds, and the stub stays well formed. *)
Theorem pit_total σ p port value h :
  pit_wf p -> fits 8 value ->
  (exists b p', pit_read σ p port h = Some (b, p') /\ fits 8 b /\ pit_wf p')
  /\ (exists p', pit_write σ p port value h = Some p' /\ pit_wf p').
Proof.
  intros Hp Hv. unfold pit_read, pit_write, pit_read_at, pit_write_at.
  set (now := vtsc_from_host σ (pit_clock p) h).
  destruct ((port =? PIT_CH0) || (port =? PIT_CH1) || (port =? PIT_CH2)) eqn:E.
  - assert (0 <= port - PIT_CH0 < 3) as Hi.
    { unfold PIT_CH0, PIT_CH1, PIT_CH2 in *. bool_prop. destruct E as [E|E]; bool_prop; [|lia].
      destruct E; bool_prop; lia. }
    destruct (channels_lookup p (Z.to_nat (port - PIT_CH0)) Hp ltac:(lia)) as (c & -> & Hc).
    simpl. pose proof (read_byte_fits c now (clock_freq (pit_clock p))) as Hb.
    pose proof (read_byte_wf c now (clock_freq (pit_clock p)) Hc) as Hw.
    destruct (read_byte c now _) as [b c']. split.
    + exists b. eexists. split; [done|]. split; [done|]. by apply insert_channel_wf.
    + eexists. split; [done|]. apply insert_channel_wf; auto with width.
  - pose proof Hp as (? & ? & He1 & He2). assert (fits 8 0xff) by (unfold fits; lia).
    split; repeat (case_match; [eauto 10|]); eauto 10.
    + by apply write_control_wf.
    + eexists; split; [done|]. by unfold pit_wf; simpl; split_and!.
    + eexists; split; [done|]. by unfold pit_wf; simpl; split_and!.
Qed.

Lemma pit_total_witness :
  exists p', pit_write ∅ (pit_new toy_clock) PIT_CTRL 0xb0 7 = Some p' /\ pit_wf p'.
Proof.
  apply (pit_total ∅ (pit_new toy_clock) PIT_CTRL 0xb0 7).
  - split; [done|]. split; [|cbn; unfold fits; lia].
    apply Forall_replicate, channel_default_wf.
  - unfold fits; lia.
Defined.

(** The counter law: in lobyte/hibyte mode, loading the count
    [hi * 256 + lo] anchors the counter, and at every later instant it reads
    that count minus the number of 1.193182 MHz ticks elapsed on the virtual
    clock since the load, modulo 2^16. *)
Theorem pit_counter_law c lo hi t0 t1 t f :
  access c = LoHiByte -> write_lo_next c = true -> fits 8 lo -> fits 8 hi -> t1 <= t ->
  let c' := write_byte (write_byte c lo t0) hi t1 in
  counter c' t f = (hi * 256 + lo - (t - t1) * PIT_FREQ_HZ / hz f) mod 2 ^ 16
  /\ write_lo_next c' = true.
Proof.
  intros Ha Hw [Hl0 Hl8] Hh Ht. unfold write_byte. rewrite Ha, Hw. simpl. rewrite Ha. simpl.
  split; [|done]. rewrite counter_eq. simpl.
  replace (saturating_sub t t1) with (t - t1) by (unfold saturating_sub; lia).
  f_equal. f_equal. unfold as_u16. rewrite wrap_id by (apply (shiftl_fits 16 8); [lia..|done]).
  by rewrite (lor_shiftl_add hi lo 8) by (done || lia).
Qed.

Lemma pit_counter_law_witness :
  counter (write_byte (write_byte channel_default 0xff 10) 0xff 1000) 3001000 {| hz := 3000000000 |}
    = (0xff * 256 + 0xff - (3001000 - 1000) * PIT_FREQ_HZ / 3000000000) mod 2 ^ 16.
Proof.
  apply (pit_counter_law channel_default 0xff 0xff 10 1000 3001000 {| hz := 3000000000 |});
    [done | done | unfold fits; lia | unfold fits; lia | lia].
Defined.

(** A latched read is coherent: after a counter-latch command the two
    byte reads, at whatever later instants, give the low and the high byte of
    the counter at the latch instant, and the channel then reads live again. *)
Theorem pit_latched_read c t f t1 t2 :
  access c = LoHiByte -> latched c = None ->
  let '(lo, c1) := read_byte (latch c t f) t1 f in
  let '(hi, c2) := read_byte c1 t2 f in
  hi * 256 + lo = counter c t f /\ latched c2 = None /\ read_lo_next c2 = true
  /\ initial c2 = initial c /\ anchor_vtsc c2 = anchor_vtsc c.
Proof.
  intros Ha Hl. unfold latch. rewrite Hl. unfold read_byte. simpl. rewrite Ha. simpl. rewrite Ha. simpl.
  split_and!; try done. pose proof (counter_fits c t f) as [? ?].
  rewrite Z.shiftr_div_pow2 by lia. rewrite (as_u8_id (_ / _)).
  - unfold as_u8, wrap. change (2 ^ 8) with 256. pose proof (Z.div_mod (counter c t f) 256). lia.
  - split; [apply Z.div_pos; lia|apply Z.div_lt_upper_bound; lia].
Qed.

Lemma pit_latched_read_witness :
  let c := channel_default in
  let '(lo, c1) := read_byte (latch c 3000000 {| hz := 3000000000 |}) 9000000 {| hz := 3000000000 |} in
  let '(hi, _) := read_byte c1 99000000 {| hz := 3000000000 |} in
  hi * 256 + lo = counter c 3000000 {| hz := 3000000000 |}.
Proof.
  pose proof (pit_latched_read channel_default 3000000 {| hz := 3000000000 |} 9000000 99000000
    eq_refl eq_refl) as H.
  cbv zeta. destruct (read_byte (latch _ _ _) _ _) as [lo c1]. destruct (read_byte c1 _ _) as [hi c2].
  apply H.
Defined.
