(* ===== verification/Ioapic.v ===== *)
(** * The I/O APIC ([src/src/ioapic.rs])

    The index/data window, the 24 redirection entries and the resolution of an
    edge on a pin to a vector.  The properties: the redirection table behaves
    as 48 independent 32-bit registers behind the window (a write is read
    back, and disturbs no other register), the width invariant, and the exact
    condition under which an edge yields a vector. *)

From Stdlib Require Import ZArith Lia.
From stdpp Require Import base numbers list.
From S2P Require Import Prelude.
From S2P Require Import Arch.

Open Scope Z_scope.

Definition IOAPIC_BASE : Z := 0xfec00000.
Definition IOAPIC_LEN : Z := 0x20.
Definition NUM_RTES : nat := 24.
Definition IOREGSEL : Z := 0x00.
Definition IOWIN : Z := 0x10.
Definition IOAPIC_REG_ID : Z := 0x00.
Definition IOAPIC_REG_VER : Z := 0x01.
Definition IOAPIC_REG_ARB : Z := 0x02.
Definition IOAPIC_REG_REDTBL_BASE : Z := 0x10.
Definition IOAPIC_REG_REDTBL_END : Z := IOAPIC_REG_REDTBL_BASE + Z.of_nat NUM_RTES * 2.
Definition RTE_MASK : Z := Z.shiftl 1 16.
Definition RTE_TRIGGER_LEVEL : Z := Z.shiftl 1 15.
Definition IOAPIC_VERSION : Z := Z.lor 0x17 (Z.shiftl (Z.of_nat NUM_RTES - 1) 16).

Record Ioapic := { ioregsel : Z; ioapic_id : Z; redtbl : list Z; ioapic_apic_id : Z }.

Definition ioapic_new (apic_id : Z) : Ioapic :=
  {| ioregsel := 0; ioapic_id := Z.shiftl apic_id 24;
     redtbl := replicate NUM_RTES RTE_MASK; ioapic_apic_id := apic_id |}.

Definition ioapic_handles (addr : Z) : bool :=
  in_range IOAPIC_BASE (IOAPIC_BASE + IOAPIC_LEN) addr.

Definition is_redtbl (i : Z) : bool := in_range IOAPIC_REG_REDTBL_BASE IOAPIC_REG_REDTBL_END i.

(** [None] is the panic of [self.redtbl[entry]] out of range, here and in
    every access below. *)
Definition read_indirect (s : Ioapic) (i : Z) : option Z :=
  if i =? IOAPIC_REG_ID then Some (ioapic_id s)
  else if i =? IOAPIC_REG_VER then Some IOAPIC_VERSION
  else if i =? IOAPIC_REG_ARB then Some (ioapic_id s)
  else if is_redtbl i then
    let rel := i - IOAPIC_REG_REDTBL_BASE in
    let entry := Z.to_nat (rel / 2) in
    rte ← redtbl s !! entry;
    Some (if rel mod 2 =? 0 then as_u32 rte else as_u32 (Z.shiftr rte 32))
  else Some 0.

Definition with_ioregsel (s : Ioapic) (v : Z) : Ioapic :=
  {| ioregsel := v; ioapic_id := ioapic_id s; redtbl := redtbl s; ioapic_apic_id := ioapic_apic_id s |}.
Definition with_ioapic_id (s : Ioapic) (v : Z) : Ioapic :=
  {| ioregsel := ioregsel s; ioapic_id := v; redtbl := redtbl s; ioapic_apic_id := ioapic_apic_id s |}.
Definition with_redtbl (s : Ioapic) (t : list Z) : Ioapic :=
  {| ioregsel := ioregsel s; ioapic_id := ioapic_id s; redtbl := t; ioapic_apic_id := ioapic_apic_id s |}.

Definition write_indirect (s : Ioapic) (i val : Z) : option Ioapic :=
  if i =? IOAPIC_REG_ID then Some (with_ioapic_id s (Z.land val 0x0f000000))
  else if (i =? IOAPIC_REG_VER) || (i =? IOAPIC_REG_ARB) then Some s
  else if is_redtbl i then
    let rel := i - IOAPIC_REG_REDTBL_BASE in
    let entry := Z.to_nat (rel / 2) in
    rte ← redtbl s !! entry;
    let rte' :=
      if rel mod 2 =? 0 then Z.lor (Z.land rte 0xffffffff00000000) val
      else Z.lor (Z.land rte 0x00000000ffffffff) (Z.shiftl val 32) in
    Some (with_redtbl s (<[entry := rte']> (redtbl s)))
  else Some s.

Definition ioapic_mmio_read (s : Ioapic) (addr : Z) : option Z :=
  let off := as_u64 (addr - IOAPIC_BASE) in
  if off =? IOREGSEL then Some (ioregsel s)
  else if off =? IOWIN then read_indirect s (ioregsel s)
  else Some 0.

Definition ioapic_mmio_write (s : Ioapic) (addr val : Z) : option Ioapic :=
  let off := as_u64 (addr - IOAPIC_BASE) in
  if off =? IOREGSEL then Some (with_ioregsel s (Z.land val 0xff))
  else if off =? IOWIN then write_indirect s (ioregsel s) val
  else Some s.

Definition edge_vector (s : Ioapic) (pin : nat) : option Z :=
  if (NUM_RTES <=? pin)%nat then None
  else
    let rte := redtbl s !!! pin in
    if negb (Z.land rte RTE_MASK =? 0) then None
    else if negb (Z.land rte RTE_TRIGGER_LEVEL =? 0) then None
    else Some (as_u8 (Z.land rte 0xff)).

Record ioapic_wf (s : Ioapic) : Prop := {
  iwf_len : length (redtbl s) = NUM_RTES;
  iwf_rte : Forall (fits 64) (redtbl s);
  iwf_sel : fits 8 (ioregsel s);
  iwf_id : fits 32 (ioapic_id s);
}.

(** The two halves of an entry. *)
Definition rte_lo (rte : Z) : Z := wrap 32 rte.
Definition rte_hi (rte : Z) : Z := Z.shiftr rte 32.

(** A window access: select the register, then access the data port. *)
Definition select_write (s : Ioapic) (i val : Z) : option Ioapic :=
  s ← ioapic_mmio_write s (IOAPIC_BASE + IOREGSEL) i; ioapic_mmio_write s (IOAPIC_BASE + IOWIN) val.
Definition select_read (s : Ioapic) (i : Z) : option Z :=
  s ← ioapic_mmio_write s (IOAPIC_BASE + IOREGSEL) i; ioapic_mmio_read s (IOAPIC_BASE + IOWIN).

(** ** Lemmas *)

Lemma land_high_part r : fits 64 r -> Z.land r 0xffffffff00000000 = Z.shiftl (rte_hi r) 32.
Proof.
  intros Hr. unfold rte_hi. change 0xffffffff00000000 with (Z.shiftl (Z.ones 32) 32).
  apply Z.bits_inj'. intros i Hi. rewrite Z.land_spec, !Z.shiftl_spec by done.
  destruct (decide (i < 32)).
  - rewrite !(Z.testbit_neg_r _ (i - 32)) by lia. apply andb_false_r.
  - rewrite Z.shiftr_spec by lia. replace (i - 32 + 32) with i by lia.
    destruct (decide (i < 64)).
    + rewrite Z.ones_spec_low by lia. apply andb_true_r.
    + by rewrite (testbit_high 64 r i) by (done || lia).
Qed.

Lemma rte_hi_fits r : fits 64 r -> fits 32 (rte_hi r).
Proof.
  intros [? ?]. unfold rte_hi. rewrite Z.shiftr_div_pow2 by lia. split; [apply Z.div_pos; lia|].
  apply Z.div_lt_upper_bound; lia.
Qed.

Lemma join_halves h l :
  fits 32 h -> fits 32 l ->
  fits 64 (h * 2 ^ 32 + l) /\ rte_lo (h * 2 ^ 32 + l) = l /\ rte_hi (h * 2 ^ 32 + l) = h.
Proof.
  intros [? ?] [? ?]. unfold fits, rte_lo, rte_hi, wrap. split; [lia|].
  rewrite Z.shiftr_div_pow2, Z.add_comm, Z.mod_add, Z.div_add by lia.
  split; [by apply Z.mod_small|]. rewrite Z.div_small; lia.
Qed.

Lemma write_lo_half r v :
  fits 64 r -> fits 32 v ->
  let r' := Z.lor (Z.land r 0xffffffff00000000) v in
  fits 64 r' /\ rte_lo r' = v /\ rte_hi r' = rte_hi r.
Proof.
  intros Hr Hv. cbv zeta. rewrite land_high_part, lor_shiftl_add by (done || lia).
  apply join_halves; [by apply rte_hi_fits|done].
Qed.

Lemma write_hi_half r v :
  fits 64 r -> fits 32 v ->
  let r' := Z.lor (Z.land r 0x00000000ffffffff) (Z.shiftl v 32) in
  fits 64 r' /\ rte_hi r' = v /\ rte_lo r' = rte_lo r.
Proof.
  intros Hr Hv. cbv zeta. change 0x00000000ffffffff with (Z.ones 32).
  rewrite land_ones_wrap, Z.lor_comm by lia. pose proof (wrap_fits 32 r ltac:(lia)) as Hl.
  rewrite lor_shiftl_add by (done || lia).
  destruct (join_halves v (wrap 32 r) Hv Hl) as (? & ? & ?). done.
Qed.

Lemma redtbl_index i : is_redtbl i = true ->
  (Z.to_nat ((i - IOAPIC_REG_REDTBL_BASE) / 2) < NUM_RTES)%nat /\ 16 <= i < 64.
Proof.
  unfold is_redtbl, in_range, IOAPIC_REG_REDTBL_END, IOAPIC_REG_REDTBL_BASE, NUM_RTES.
  intros Hi. bool_prop. split; [|lia]. Z.div_mod_to_equations. lia.
Qed.

Lemma redtbl_fits s k : ioapic_wf s -> fits 64 (redtbl s !!! k).
Proof.
  intros Hs. destruct (redtbl s !! k) as [x|] eqn:E.
  - rewrite (list_lookup_total_correct _ _ _ E). eapply Forall_lookup_1; [apply Hs|done].
  - rewrite list_lookup_total_alt, E. simpl. unfold fits. vm_compute. split; congruence.
Qed.

Lemma with_redtbl_insert_wf s k r :
  ioapic_wf s -> fits 64 r -> ioapic_wf (with_redtbl s (<[k := r]> (redtbl s))).
Proof.
  intros [? ? ? ?] Hr. split; simpl; [by rewrite length_insert| |done|done].
  by apply Forall_insert.
Qed.

(** No register of a well-formed device is out of its table's range. *)
Lemma redtbl_lookup s i : ioapic_wf s -> is_redtbl i = true ->
  redtbl s !! Z.to_nat ((i - IOAPIC_REG_REDTBL_BASE) / 2)
    = Some (redtbl s !!! Z.to_nat ((i - IOAPIC_REG_REDTBL_BASE) / 2)).
Proof. intros Hs Hi. apply list_lookup_lookup_total_lt. rewrite (iwf_len s Hs). by apply redtbl_index. Qed.

Lemma read_indirect_total s i : ioapic_wf s -> is_Some (read_indirect s i).
Proof.
  intros Hs. unfold read_indirect. repeat (case_match; [by eexists|]). case_match eqn:E; [|by eexists].
  by rewrite (redtbl_lookup s i Hs E).
Qed.

Lemma ioapic_mmio_read_total s addr : ioapic_wf s -> is_Some (ioapic_mmio_read s addr).
Proof.
  intros Hs. unfold ioapic_mmio_read. repeat case_match; try by eexists. by apply read_indirect_total.
Qed.

Lemma write_redtbl_eq s i v :
  ioapic_wf s -> is_redtbl i = true ->
  let k := Z.to_nat ((i - IOAPIC_REG_REDTBL_BASE) / 2) in
  write_indirect s i v = Some (with_redtbl s (<[k :=
    if (i - IOAPIC_REG_REDTBL_BASE) mod 2 =? 0
    then Z.lor (Z.land (redtbl s !!! k) 0xffffffff00000000) v
    else Z.lor (Z.land (redtbl s !!! k) 0x00000000ffffffff) (Z.shiftl v 32)]> (redtbl s))).
Proof.
  intros Hs Hi. pose proof (redtbl_index i Hi) as [_ ?]. unfold write_indirect.
  destruct (i =? IOAPIC_REG_ID) eqn:E1; [unfold IOAPIC_REG_ID in *; bool_prop; lia|].
  destruct (i =? IOAPIC_REG_VER) eqn:E2; [unfold IOAPIC_REG_VER in *; bool_prop; lia|].
  destruct (i =? IOAPIC_REG_ARB) eqn:E3; [unfold IOAPIC_REG_ARB in *; bool_prop; lia|].
  by rewrite Hi, (redtbl_lookup s i Hs Hi).
Qed.

Lemma write_indirect_wf s i v : ioapic_wf s -> fits 32 v ->
  exists s', write_indirect s i v = Some s' /\ ioapic_wf s'.
Proof.
  intros Hs Hv. pose proof (redtbl_fits s (Z.to_nat ((i - IOAPIC_REG_REDTBL_BASE) / 2)) Hs) as Hr.
  destruct (is_redtbl i) eqn:Hi.
  - rewrite (write_redtbl_eq s i v Hs Hi). eexists. split; [reflexivity|].
    apply with_redtbl_insert_wf; [done|]. case_match.
    + apply (write_lo_half _ v); done.
    + apply (write_hi_half _ v); done.
  - unfold write_indirect. rewrite Hi.
    repeat case_match; (eexists; split; [reflexivity|]); try done.
    destruct Hs. split; simpl; try done. apply fits_land; [lia|done|lia].
Qed.

Lemma ioapic_mmio_write_wf s addr v :
  ioapic_wf s -> fits 32 v -> exists s', ioapic_mmio_write s addr v = Some s' /\ ioapic_wf s'.
Proof.
  intros Hs Hv. unfold ioapic_mmio_write.
  repeat case_match; [|by apply write_indirect_wf|by exists s].
  eexists. split; [reflexivity|]. destruct Hs. split; simpl; try done. change 0xff with (Z.ones 8).
  rewrite land_ones_wrap by lia. by apply wrap_fits.
Qed.

Lemma read_redtbl_half s i :
  ioapic_wf s -> is_redtbl i = true ->
  read_indirect s i =
    Some ((if (i - IOAPIC_REG_REDTBL_BASE) mod 2 =? 0 then rte_lo else rte_hi)
      (redtbl s !!! Z.to_nat ((i - IOAPIC_REG_REDTBL_BASE) / 2))).
Proof.
  intros Hs Hi. pose proof (redtbl_index i Hi) as [_ ?]. unfold read_indirect.
  destruct (i =? IOAPIC_REG_ID) eqn:E1; [unfold IOAPIC_REG_ID in *; bool_prop; lia|].
  destruct (i =? IOAPIC_REG_VER) eqn:E2; [unfold IOAPIC_REG_VER in *; bool_prop; lia|].
  destruct (i =? IOAPIC_REG_ARB) eqn:E3; [unfold IOAPIC_REG_ARB in *; bool_prop; lia|].
  rewrite Hi, (redtbl_lookup s i Hs Hi). cbn [mbind option_bind]. f_equal.
  case_match; [done|]. apply as_u32_id, rte_hi_fits, redtbl_fits. done.
Qed.

(** The redirection table as a register file. *)
Lemma redtbl_read_write s s' i j v :
  ioapic_wf s -> fits 32 v -> is_redtbl i = true -> is_redtbl j = true ->
  write_indirect s i v = Some s' ->
  read_indirect s' j = if j =? i then Some v else read_indirect s j.
Proof.
  intros Hs Hv Hi Hj Hw. destruct (write_indirect_wf s i v Hs Hv) as (s1 & Hw1 & Hs1).
  assert (s1 = s') as -> by congruence.
  rewrite (read_redtbl_half s' j Hs1 Hj), (read_redtbl_half s j Hs Hj).
  rewrite (write_redtbl_eq s i v Hs Hi) in Hw. injection Hw as <-. simpl.
  pose proof (redtbl_index i Hi) as [Hki ?]. pose proof (redtbl_index j Hj) as [Hkj ?].
  pose proof (iwf_len s Hs) as Hlen. unfold IOAPIC_REG_REDTBL_BASE in *.
  set (ki := Z.to_nat ((i - 16) / 2)) in *. set (kj := Z.to_nat ((j - 16) / 2)) in *.
  pose proof (write_lo_half _ v (redtbl_fits s ki Hs) Hv) as (_ & Hll & Hlh).
  pose proof (write_hi_half _ v (redtbl_fits s ki Hs) Hv) as (_ & Hhh & Hhl).
  destruct (decide (ki = kj)) as [Hk|Hk].
  - rewrite <- Hk, list_lookup_total_insert_eq by lia.
    destruct (j =? i) eqn:Hji; bool_prop; f_equal.
    + subst j. by case_match.
    + assert ((j - 16) mod 2 <> (i - 16) mod 2).
      { unfold ki, kj in Hk. Z.div_mod_to_equations. lia. }
      pose proof (Z.mod_pos_bound (i - 16) 2). pose proof (Z.mod_pos_bound (j - 16) 2).
      destruct ((j - 16) mod 2 =? 0) eqn:E1, ((i - 16) mod 2 =? 0) eqn:E2; bool_prop; try lia; done.
  - rewrite list_lookup_total_insert_ne by done.
    destruct (j =? i) eqn:Hji; bool_prop; [|done]. subst j. done.
Qed.

Lemma select_spec s i : fits 8 i ->
  ioapic_mmio_write s (IOAPIC_BASE + IOREGSEL) i = Some (with_ioregsel s i).
Proof.
  intros Hi. unfold ioapic_mmio_write. simpl. change 0xff with (Z.ones 8).
  by rewrite land_ones_wrap, wrap_id by (done || lia).
Qed.

Lemma edge_vector_iff s pin v :
  edge_vector s pin = Some v <->
  (pin < 24)%nat /\ Z.testbit (redtbl s !!! pin) 16 = false
  /\ Z.testbit (redtbl s !!! pin) 15 = false /\ v = redtbl s !!! pin mod 256.
Proof.
  unfold edge_vector, RTE_MASK, RTE_TRIGGER_LEVEL. rewrite !land_bit by lia.
  change 0xff with (Z.ones 8). rewrite land_ones_wrap by lia. unfold as_u8. rewrite wrap_wrap by lia.
  unfold wrap, NUM_RTES. change (2 ^ 8) with 256. destruct (24 <=? pin)%nat eqn:E.
  { apply Nat.leb_le in E. split; [done|lia]. }
  apply Nat.leb_gt in E.
  destruct (Z.testbit (redtbl s !!! pin) 16); cbn [negb]; [intuition congruence|].
  destruct (Z.testbit (redtbl s !!! pin) 15); cbn [negb]; [intuition congruence|].
  intuition congruence.
Qed.

(** ** Properties *)

(** Behind the select/data window the redirection table is 48
    independent 32-bit registers: writing one and then reading any of them
    gives the value written if it is the same register and its old value
    otherwise, and the device stays well formed. *)
Theorem ioapic_window_register_file s i j v :
  ioapic_wf s -> fits 32 v -> is_redtbl i = true -> is_redtbl j = true ->
  exists s', select_write s i v = Some s'
  /\ select_read s' j = (if j =? i then Some v else select_read s j)
  /\ ioapic_wf s'.
Proof.
  intros Hs Hv Hi Hj. pose proof (redtbl_index i Hi) as [_ ?]. pose proof (redtbl_index j Hj) as [_ ?].
  assert (fits 8 i) by (unfold fits; lia). assert (fits 8 j) by (unfold fits; lia).
  assert (Hsel : ioapic_wf (with_ioregsel s i)) by (by destruct Hs).
  destruct (write_indirect_wf (with_ioregsel s i) i v Hsel Hv) as (s' & Hw & Hs').
  exists s'. unfold select_read, select_write. rewrite !select_spec by done. cbn [mbind option_bind].
  change (ioapic_mmio_read (with_ioregsel ?a ?b) (IOAPIC_BASE + IOWIN)) with (read_indirect a b).
  change (ioapic_mmio_write (with_ioregsel s i) (IOAPIC_BASE + IOWIN) v)
    with (write_indirect (with_ioregsel s i) i v).
  split; [done|]. split; [|done]. exact (redtbl_read_write _ _ i j v Hsel Hv Hi Hj Hw).
Qed.

Lemma ioapic_new_wf a : fits 8 a -> ioapic_wf (ioapic_new a).
Proof.
  intros Ha. split; cbn; [done| |unfold fits; lia|].
  - apply (Forall_replicate _ 24). unfold fits, RTE_MASK. vm_compute. split; congruence.
  - by apply (shiftl_fits 32 8).
Qed.

Lemma ioapic_window_register_file_witness :
  exists s', select_write (ioapic_new 1) 0x18 0x24 = Some s' /\ select_read s' 0x18 = Some 0x24 /\ ioapic_wf s'.
Proof.
  apply (ioapic_window_register_file (ioapic_new 1) 0x18 0x18 0x24).
  - apply ioapic_new_wf. unfold fits; lia.
  - unfold fits; lia.
  - reflexivity.
  - reflexivity.
Defined.

(** An edge on a pin posts a vector exactly when the pin exists, its
    entry is unmasked and edge triggered, and the vector is the entry's low
    byte. *)
Theorem edge_vector_spec s pin v :
  edge_vector s pin = Some v <->
  (pin < 24)%nat /\ Z.testbit (redtbl s !!! pin) 16 = false
  /\ Z.testbit (redtbl s !!! pin) 15 = false /\ v = redtbl s !!! pin mod 256.
Proof. apply edge_vector_iff. Qed.
