(* ===== verification/Lapic.v ===== *)
(** * The local APIC ([src/src/lapic.rs])

    The xAPIC register file, the 256-bit IRR/ISR bitmaps, the priority rule,
    the self-IPI, and the one-shot / periodic / deadline timer as functions of
    the virtual clock.  [AbsLapic] is the abstract interrupt controller, with
    the pending and in-service vectors as finite sets; [abs] maps the bitmaps
    to it and the refinement lemmas relate every operation.  A function that
    reads the clock takes the cell store and the host TSC sample. *)

From Stdlib Require Import ZArith Lia.
From stdpp Require Import base numbers gmap list.
From S2P Require Import Prelude.
From S2P Require Import Arch.
From S2P Require Import Vtsc.

Open Scope Z_scope.

Definition XAPIC_BASE : Z := 0xfee00000.
Definition XAPIC_LEN : Z := 0x1000.

Definition in_lapic (addr : Z) : bool := in_range XAPIC_BASE (XAPIC_BASE + XAPIC_LEN) addr.

Definition DEFAULT_APIC_BUS_HZ : Z := 25000000.

(** [apic_bus_hz_from_cpuid]; the CPUID leaves of the host are arguments. *)
Record CpuidLeaf := { leaf_eax : Z; leaf_ebx : Z; leaf_ecx : Z; leaf_edx : Z }.

Definition apic_bus_hz_from_cpuid (l15 l16 : CpuidLeaf) : Z :=
  let denom := leaf_eax l15 in
  let numer := leaf_ebx l15 in
  let crystal_hz := leaf_ecx l15 in
  if negb (crystal_hz =? 0) then crystal_hz
  else if negb (denom =? 0) && negb (numer =? 0) then
    let base_mhz := leaf_eax l16 in
    if negb (base_mhz =? 0) then as_u64 (as_u64 (base_mhz * 1000000) * denom) / numer
    else DEFAULT_APIC_BUS_HZ
  else DEFAULT_APIC_BUS_HZ.

Definition apic_timer_tsc_ratio (l15 l16 : CpuidLeaf) (tsc_hz : Z) : Z * Z :=
  let den := leaf_eax l15 in
  let num := leaf_ebx l15 in
  if negb (num =? 0) && negb (den =? 0) then (num, den)
  else (tsc_hz, apic_bus_hz_from_cpuid l15 l16).

(** ** Registers *)

Definition REG_ID : Z := 0x020.
Definition REG_VERSION : Z := 0x030.
Definition REG_TPR : Z := 0x080.
Definition REG_APR : Z := 0x090.
Definition REG_PPR : Z := 0x0a0.
Definition REG_EOI : Z := 0x0b0.
Definition REG_RRD : Z := 0x0c0.
Definition REG_LDR : Z := 0x0d0.
Definition REG_DFR : Z := 0x0e0.
Definition REG_SVR : Z := 0x0f0.
Definition REG_ISR0 : Z := 0x100.
Definition REG_TMR0 : Z := 0x180.
Definition REG_IRR0 : Z := 0x200.
Definition REG_ESR : Z := 0x280.
Definition REG_ICR_LOW : Z := 0x300.
Definition REG_ICR_HIGH : Z := 0x310.
Definition REG_LVT_TIMER : Z := 0x320.
Definition REG_LVT_THERMAL : Z := 0x330.
Definition REG_LVT_PERF : Z := 0x340.
Definition REG_LVT_LINT0 : Z := 0x350.
Definition REG_LVT_LINT1 : Z := 0x360.
Definition REG_LVT_ERROR : Z := 0x370.
Definition REG_TIMER_ICT : Z := 0x380.
Definition REG_TIMER_CCT : Z := 0x390.
Definition REG_TIMER_DCR : Z := 0x3e0.

Definition SVR_ENABLE : Z := Z.shiftl 1 8.
Definition LVT_MASK : Z := Z.shiftl 1 16.
Definition LVT_TIMER_MODE_SHIFT : Z := 17.
Definition LVT_TIMER_MODE_ONESHOT : Z := 0.
Definition LVT_TIMER_MODE_PERIODIC : Z := 1.
Definition LVT_TIMER_MODE_TSCDEADLINE : Z := 2.
Definition LAPIC_VERSION : Z := Z.lor 0x14 (Z.shiftl 5 16).

(** ** The vector bitmaps *)

Record VecBits := { words : list Z }.

Definition vecbits_default : VecBits := {| words := replicate 8 0 |}.

Definition word_at (b : VecBits) (i : nat) : Z := default 0 (words b !! i).

Definition vec_set (b : VecBits) (vec : Z) : VecBits :=
  let i := Z.to_nat (Z.shiftr vec 5) in
  {| words := <[i := Z.lor (word_at b i) (Z.shiftl 1 (Z.land vec 31))]> (words b) |}.

Definition vec_clear (b : VecBits) (vec : Z) : VecBits :=
  let i := Z.to_nat (Z.shiftr vec 5) in
  {| words := <[i := Z.land (word_at b i) (bnot 32 (Z.shiftl 1 (Z.land vec 31)))]> (words b) |}.

Definition vec_get (b : VecBits) (vec : Z) : bool :=
  negb (Z.land (word_at b (Z.to_nat (Z.shiftr vec 5))) (Z.shiftl 1 (Z.land vec 31)) =? 0).

(** [u32::leading_zeros]. *)
Definition leading_zeros32 (w : Z) : Z := if w =? 0 then 32 else 31 - Z.log2 w.

Definition vec_highest (b : VecBits) : option Z :=
  match List.find (fun '(_, w) => negb (w =? 0))
          (reverse (imap (fun i w => (i, w)) (words b))) with
  | Some (i, w) => Some (as_u8 (as_u8 (Z.of_nat i) * 32 + as_u8 (31 - leading_zeros32 w)))
  | None => None
  end.

(** ** State *)

Record Lapic := {
  lapic_clock : VirtualClock;
  tsc_per_count_num : Z;
  tsc_per_count_den : Z;
  lapic_id : Z;
  tpr : Z;
  svr : Z;
  ldr : Z;
  dfr : Z;
  esr : Z;
  lvt_timer : Z;
  lvt_thermal : Z;
  lvt_perf : Z;
  lvt_lint0 : Z;
  lvt_lint1 : Z;
  lvt_error : Z;
  irr : VecBits;
  isr : VecBits;
  timer_deadline : option Z;
  timer_period : Z;
  timer_dcr : Z;
  timer_ict : Z;
}.

#[export] Instance eta_Lapic : Settable Lapic := fun l => Build_Lapic
  (lapic_clock l) (tsc_per_count_num l) (tsc_per_count_den l) (lapic_id l) (tpr l) (svr l)
  (ldr l) (dfr l) (esr l) (lvt_timer l) (lvt_thermal l) (lvt_perf l) (lvt_lint0 l)
  (lvt_lint1 l) (lvt_error l) (irr l) (isr l) (timer_deadline l) (timer_period l)
  (timer_dcr l) (timer_ict l).

(** [assert!(num > 0 && den > 0)]: [None] is the panic. *)
Definition lapic_new (clock : VirtualClock) (num den : Z) : option Lapic :=
  if (0 <? num) && (0 <? den) then Some {|
    lapic_clock := clock; tsc_per_count_num := num; tsc_per_count_den := den;
    lapic_id := 0; tpr := 0; svr := 0xff; ldr := 0; dfr := 0xffffffff; esr := 0;
    lvt_timer := LVT_MASK; lvt_thermal := LVT_MASK; lvt_perf := LVT_MASK;
    lvt_lint0 := LVT_MASK; lvt_lint1 := LVT_MASK; lvt_error := LVT_MASK;
    irr := vecbits_default; isr := vecbits_default;
    timer_deadline := None; timer_period := 0; timer_dcr := 0; timer_ict := 0 |}
  else None.

Definition lapic_enabled (l : Lapic) : bool := negb (Z.land (svr l) SVR_ENABLE =? 0).

Definition sync_tpr_from_cr8 (l : Lapic) (cr8 : Z) : Lapic :=
  l <| tpr := as_u32 (Z.shiftl (as_u32 (Z.land cr8 0xf)) 4) |>.

(** ** Priority and delivery *)

Definition highest_isr (l : Lapic) : Z := default 0 (vec_highest (isr l)).
Definition highest_irr (l : Lapic) : Z := default 0 (vec_highest (irr l)).

Definition ppr (l : Lapic) : Z :=
  let isrv := highest_isr l in
  if Z.land (tpr l) 0xf0 >=? Z.land isrv 0xf0 then tpr l else Z.land isrv 0xf0.

Definition deliverable_vector (l : Lapic) : option Z :=
  if negb (lapic_enabled l) then None
  else
    let irrv := highest_irr l in
    if irrv =? 0 then None
    else if Z.land irrv 0xf0 >? Z.land (ppr l) 0xf0 then Some (as_u8 irrv) else None.

Definition ack_injected (l : Lapic) (vec : Z) : Lapic :=
  l <| irr := vec_clear (irr l) vec |> <| isr := vec_set (isr l) vec |>.

Definition raise (l : Lapic) (vec : Z) : Lapic := l <| irr := vec_set (irr l) vec |>.

(** ** Timer *)

Definition timer_mode (l : Lapic) : Z := Z.land (Z.shiftr (lvt_timer l) LVT_TIMER_MODE_SHIFT) 3.
Definition timer_vector (l : Lapic) : Z := as_u8 (Z.land (lvt_timer l) 0xff).
Definition timer_masked (l : Lapic) : bool := negb (Z.land (lvt_timer l) LVT_MASK =? 0).

Definition timer_divisor (l : Lapic) : Z :=
  let code := Z.lor (Z.shiftr (Z.land (timer_dcr l) 0x8) 1) (Z.land (timer_dcr l) 0x3) in
  if code =? 0 then 2
  else if code =? 1 then 4
  else if code =? 2 then 8
  else if code =? 3 then 16
  else if code =? 4 then 32
  else if code =? 5 then 64
  else if code =? 6 then 128
  else if code =? 7 then 1
  else 1.

(** Rust's [/]: division by zero is a panic, [None]. *)
Definition div_u128 (a b : Z) : option Z := if b =? 0 then None else Some (a / b).

Definition span_from_count (l : Lapic) (count : Z) : option Z :=
  as_u64 <$> div_u128 (count * timer_divisor l * tsc_per_count_num l) (tsc_per_count_den l).

Definition count_until (l : Lapic) (deadline now : Z) : option Z :=
  if deadline <=? now then Some 0
  else
    c ← div_u128 ((deadline - now) * tsc_per_count_den l) (timer_divisor l * tsc_per_count_num l);
    Some (as_u32 (Z.min c U32_MAX)).

Definition write_lvt_timer (l : Lapic) (val : Z) : Lapic :=
  let old_mode := timer_mode l in
  let l1 := l <| lvt_timer := val |> in
  if negb (timer_mode l1 =? old_mode) then l1 <| timer_deadline := None |> <| timer_period := 0 |>
  else l1.

Definition write_timer_ict (σ : cells) (h : Z) (l : Lapic) (val : Z) : option Lapic :=
  let l1 := l <| timer_ict := val |> in
  let mode := timer_mode l1 in
  if mode =? LVT_TIMER_MODE_TSCDEADLINE then Some l1
  else if val =? 0 then Some (l1 <| timer_deadline := None |> <| timer_period := 0 |>)
  else
    let now := vtsc_from_host σ (lapic_clock l1) h in
    span ← span_from_count l1 val;
    Some (l1 <| timer_deadline := Some (wrapping_add_u64 now span) |>
       <| timer_period := if mode =? LVT_TIMER_MODE_PERIODIC then span else 0 |>).

Definition timer_current_count (σ : cells) (h : Z) (l : Lapic) : option Z :=
  let mode := timer_mode l in
  if (mode =? LVT_TIMER_MODE_ONESHOT) || (mode =? LVT_TIMER_MODE_PERIODIC) then
    match timer_deadline l with
    | Some dl => count_until l dl (vtsc_from_host σ (lapic_clock l) h)
    | None => Some 0
    end
  else Some 0.

Definition write_tsc_deadline (l : Lapic) (deadline : Z) : Lapic :=
  l <| timer_deadline := if deadline =? 0 then None else Some deadline |> <| timer_period := 0 |>.

Definition read_tsc_deadline (l : Lapic) : Z :=
  match timer_deadline l with
  | Some dl => if timer_mode l =? LVT_TIMER_MODE_TSCDEADLINE then dl else 0
  | None => 0
  end.

(** [while now >= next { next = next.wrapping_add(period) }]; [None] when the
    fuel runs out first. *)
Fixpoint advance (fuel : nat) (now period next : Z) : option Z :=
  match fuel with
  | O => None
  | S n => if next <=? now then advance n now period (wrapping_add_u64 next period) else Some next
  end.

Definition fire_timer_if_due (fuel : nat) (l : Lapic) (now : Z) : option (bool * Lapic) :=
  match timer_deadline l with
  | Some dl =>
      if dl <=? now then
        l1 ← (if 0 <? timer_period l then
                next ← advance fuel now (timer_period l) dl;
                Some (l <| timer_deadline := Some next |>)
              else Some (l <| timer_deadline := None |>));
        Some (true, if negb (timer_masked l1) then raise l1 (timer_vector l1) else l1)
      else Some (false, l)
  | None => Some (false, l)
  end.

(** ** MMIO *)

Definition bank (base o : Z) : bool := in_range base (base + 0x80) o && (o mod 0x10 =? 0).

(** [None] is a panic: [words] indexed out of range, or a division by zero. *)
Definition lapic_mmio_read (σ : cells) (h : Z) (l : Lapic) (off : Z) : option Z :=
  if off =? REG_ID then Some (as_u32 (Z.shiftl (lapic_id l) 24))
  else if off =? REG_VERSION then Some LAPIC_VERSION
  else if off =? REG_TPR then Some (tpr l)
  else if off =? REG_APR then Some (ppr l)
  else if off =? REG_PPR then Some (ppr l)
  else if off =? REG_LDR then Some (ldr l)
  else if off =? REG_DFR then Some (dfr l)
  else if off =? REG_SVR then Some (svr l)
  else if off =? REG_ESR then Some 0
  else if off =? REG_ICR_LOW then Some 0
  else if off =? REG_ICR_HIGH then Some 0
  else if off =? REG_LVT_TIMER then Some (lvt_timer l)
  else if off =? REG_LVT_THERMAL then Some (lvt_thermal l)
  else if off =? REG_LVT_PERF then Some (lvt_perf l)
  else if off =? REG_LVT_LINT0 then Some (lvt_lint0 l)
  else if off =? REG_LVT_LINT1 then Some (lvt_lint1 l)
  else if off =? REG_LVT_ERROR then Some (lvt_error l)
  else if off =? REG_TIMER_ICT then Some (timer_ict l)
  else if off =? REG_TIMER_CCT then timer_current_count σ h l
  else if off =? REG_TIMER_DCR then Some (timer_dcr l)
  else if off =? REG_RRD then Some 0
  else if bank REG_ISR0 off then words (isr l) !! Z.to_nat ((off - REG_ISR0) / 0x10)
  else if bank REG_TMR0 off then Some 0
  else if bank REG_IRR0 off then words (irr l) !! Z.to_nat ((off - REG_IRR0) / 0x10)
  else Some 0.

Definition eoi (l : Lapic) : Lapic :=
  match vec_highest (isr l) with
  | Some vec => l <| isr := vec_clear (isr l) vec |>
  | None => l
  end.

Definition write_icr (l : Lapic) (val : Z) : Lapic :=
  let vector := as_u8 (Z.land val 0xff) in
  let delivery_mode := Z.land (Z.shiftr val 8) 7 in
  let dest_shorthand := Z.land (Z.shiftr val 18) 3 in
  if negb (delivery_mode =? 0) then l
  else if dest_shorthand <=? 2 then raise l vector
  else l.

Definition lapic_mmio_write (σ : cells) (h : Z) (l : Lapic) (off val : Z) : option Lapic :=
  if off =? REG_ID then Some (l <| lapic_id := Z.shiftr val 24 |>)
  else if off =? REG_TPR then Some (l <| tpr := Z.land val 0xff |>)
  else if off =? REG_EOI then Some (eoi l)
  else if off =? REG_LDR then Some (l <| ldr := val |>)
  else if off =? REG_DFR then Some (l <| dfr := val |>)
  else if off =? REG_SVR then Some (l <| svr := val |>)
  else if off =? REG_ESR then Some (l <| esr := 0 |>)
  else if off =? REG_ICR_HIGH then Some l
  else if off =? REG_ICR_LOW then Some (write_icr l val)
  else if off =? REG_LVT_TIMER then Some (write_lvt_timer l val)
  else if off =? REG_LVT_THERMAL then Some (l <| lvt_thermal := val |>)
  else if off =? REG_LVT_PERF then Some (l <| lvt_perf := val |>)
  else if off =? REG_LVT_LINT0 then Some (l <| lvt_lint0 := val |>)
  else if off =? REG_LVT_LINT1 then Some (l <| lvt_lint1 := val |>)
  else if off =? REG_LVT_ERROR then Some (l <| lvt_error := val |>)
  else if off =? REG_TIMER_ICT then write_timer_ict σ h l val
  else if off =? REG_TIMER_DCR then Some (l <| timer_dcr := val |>)
  else Some l.

Arguments timer_mode : simpl never.
Arguments timer_divisor : simpl never.
Arguments span_from_count : simpl never.

(** ** The abstract controller *)

(** Pending and in-service vectors as sets. *)
Record AbsLapic := { a_irr : gset Z; a_isr : gset Z; a_tpr : Z; a_enabled : bool }.

Definition vectors : list Z := seqZ 0 256.

Definition set_of (b : VecBits) : gset Z := list_to_set (filter (fun v => vec_get b v = true) vectors).

Definition abs (l : Lapic) : AbsLapic :=
  {| a_irr := set_of (irr l); a_isr := set_of (isr l); a_tpr := tpr l;
     a_enabled := lapic_enabled l |}.

Definition is_max (X : gset Z) (v : Z) : Prop := v ∈ X /\ forall u, u ∈ X -> u <= v.

(** The priority class of a vector or of the task priority. *)
Definition class (v : Z) : Z := v / 16.

(** The rule of the interrupt architecture: the highest pending vector is
    delivered when its class exceeds the task's class and the class of every
    vector in service. *)
Definition abs_deliverable (a : AbsLapic) (v : Z) : Prop :=
  a_enabled a = true /\ is_max (a_irr a) v /\ class (a_tpr a) < class v
  /\ forall u, u ∈ a_isr a -> class u < class v.

Definition abs_raise (a : AbsLapic) (v : Z) : AbsLapic :=
  {| a_irr := {[v]} ∪ a_irr a; a_isr := a_isr a; a_tpr := a_tpr a; a_enabled := a_enabled a |}.

Definition abs_ack (a : AbsLapic) (v : Z) : AbsLapic :=
  {| a_irr := a_irr a ∖ {[v]}; a_isr := {[v]} ∪ a_isr a; a_tpr := a_tpr a;
     a_enabled := a_enabled a |}.

(** End of interrupt, as a relation: the highest vector in service leaves. *)
Inductive abs_eoi (a : AbsLapic) : AbsLapic -> Prop :=
  | abs_eoi_some v : is_max (a_isr a) v ->
      abs_eoi a {| a_irr := a_irr a; a_isr := a_isr a ∖ {[v]}; a_tpr := a_tpr a;
                   a_enabled := a_enabled a |}
  | abs_eoi_none : a_isr a = ∅ -> abs_eoi a a.

(** ** The invariant *)

Definition vb_wf (b : VecBits) : Prop := length (words b) = 8%nat /\ Forall (fits 32) (words b).

Record lapic_wf (l : Lapic) : Prop := {
  lwf_num : 0 < tsc_per_count_num l /\ fits 64 (tsc_per_count_num l);
  lwf_den : 0 < tsc_per_count_den l /\ fits 64 (tsc_per_count_den l);
  lwf_id : fits 8 (lapic_id l);
  lwf_tpr : fits 8 (tpr l);
  lwf_svr : fits 32 (svr l);
  lwf_ldr : fits 32 (ldr l);
  lwf_dfr : fits 32 (dfr l);
  lwf_lvt_timer : fits 32 (lvt_timer l);
  lwf_lvt_thermal : fits 32 (lvt_thermal l);
  lwf_lvt_perf : fits 32 (lvt_perf l);
  lwf_lvt_lint0 : fits 32 (lvt_lint0 l);
  lwf_lvt_lint1 : fits 32 (lvt_lint1 l);
  lwf_lvt_error : fits 32 (lvt_error l);
  lwf_irr : vb_wf (irr l);
  lwf_isr : vb_wf (isr l);
  lwf_deadline dl : timer_deadline l = Some dl -> fits 64 dl;
  lwf_period : fits 64 (timer_period l);
  lwf_dcr : fits 32 (timer_dcr l);
  lwf_ict : fits 32 (timer_ict l);
  (** A period is live only in periodic mode with a deadline armed. *)
  lwf_periodic : 0 < timer_period l ->
    timer_mode l = LVT_TIMER_MODE_PERIODIC /\ is_Some (timer_deadline l);
}.

(** ** Lemmas on the bitmaps *)

Lemma vec_index v : 0 <= v < 256 ->
  Z.shiftr v 5 = v / 32 /\ Z.land v 31 = v mod 32 /\ (Z.to_nat (v / 32) < 8)%nat.
Proof.
  intros. rewrite Z.shiftr_div_pow2 by lia. change 31 with (Z.ones 5). rewrite Z.land_ones by lia.
  split_and!; [done|done|]. change (2 ^ 5) with 32. Z.div_mod_to_equations. lia.
Qed.

Lemma vec_get_testbit b v : 0 <= v < 256 ->
  vec_get b v = Z.testbit (word_at b (Z.to_nat (v / 32))) (v mod 32).
Proof.
  intros Hv. unfold vec_get. destruct (vec_index v Hv) as (-> & -> & _).
  rewrite land_bit by (apply Z.mod_pos_bound; lia). apply negb_involutive.
Qed.

Lemma word_at_fits b i : vb_wf b -> fits 32 (word_at b i).
Proof.
  intros [_ Hf]. unfold word_at. destruct (words b !! i) eqn:E; simpl; [|unfold fits; lia].
  by eapply Forall_lookup_1.
Qed.

Lemma word_at_insert b i j w : (i < length (words b))%nat ->
  word_at {| words := <[i := w]> (words b) |} j = if decide (i = j) then w else word_at b j.
Proof.
  intros Hi. unfold word_at. simpl. case_decide as E.
  - subst. by rewrite list_lookup_insert_eq.
  - by rewrite list_lookup_insert_ne.
Qed.

(** Two vectors are equal when word and bit agree. *)
Lemma vec_eq u v : u / 32 = v / 32 -> u mod 32 = v mod 32 -> u = v.
Proof. intros. rewrite (Z.div_mod u 32), (Z.div_mod v 32) by lia. congruence. Qed.

Lemma vec_get_set b v u : vb_wf b -> 0 <= v < 256 -> 0 <= u < 256 ->
  vec_get (vec_set b v) u = (u =? v) || vec_get b u.
Proof.
  intros [Hl _] Hv Hu. rewrite !vec_get_testbit by done. unfold vec_set.
  destruct (vec_index v Hv) as (-> & -> & Hi). rewrite word_at_insert by lia.
  pose proof (Z.mod_pos_bound u 32 ltac:(lia)). pose proof (Z.mod_pos_bound v 32 ltac:(lia)).
  pose proof (vec_eq u v) as Heq. case_decide as E.
  - assert (u / 32 = v / 32) as Hd by (Z.div_mod_to_equations; lia). rewrite Hd.
    rewrite Z.lor_spec, Z.shiftl_1_l, Z.pow2_bits_eqb, orb_comm by lia. f_equal.
    destruct (u =? v) eqn:Euv; bool_prop; [subst; apply Z.eqb_refl|].
    apply Z.eqb_neq. intros Hm. apply Euv, Heq; done.
  - destruct (u =? v) eqn:Euv; bool_prop; [subst; done|done].
Qed.

Lemma bnot_testbit z i : 0 <= i < 32 -> Z.testbit (bnot 32 z) i = negb (Z.testbit z i).
Proof. intros. unfold bnot. rewrite Z.lxor_spec, Z.ones_spec_low by lia. by rewrite xorb_true_r. Qed.

Lemma bnot_fits z : fits 32 z -> fits 32 (bnot 32 z).
Proof.
  intros Hz. apply fits_lxor; [lia|done|]. unfold fits. vm_compute. split; congruence.
Qed.

Lemma vec_get_clear b v u : vb_wf b -> 0 <= v < 256 -> 0 <= u < 256 ->
  vec_get (vec_clear b v) u = negb (u =? v) && vec_get b u.
Proof.
  intros [Hl _] Hv Hu. rewrite !vec_get_testbit by done. unfold vec_clear.
  destruct (vec_index v Hv) as (-> & -> & Hi). rewrite word_at_insert by lia.
  pose proof (Z.mod_pos_bound u 32 ltac:(lia)). pose proof (Z.mod_pos_bound v 32 ltac:(lia)).
  pose proof (vec_eq u v) as Heq. case_decide as E.
  - assert (u / 32 = v / 32) as Hd by (Z.div_mod_to_equations; lia). rewrite Hd.
    rewrite Z.land_spec, bnot_testbit, Z.shiftl_1_l, Z.pow2_bits_eqb, andb_comm by lia.
    f_equal. f_equal. destruct (u =? v) eqn:Euv; bool_prop; [subst; apply Z.eqb_refl|].
    apply Z.eqb_neq. intros Hm. apply Euv, Heq; done.
  - destruct (u =? v) eqn:Euv; bool_prop; [subst; done|done].
Qed.

Lemma bit_fits n : 0 <= n < 32 -> fits 32 (Z.shiftl 1 n).
Proof. intros. apply (shiftl_fits 32 1); [lia..|unfold fits; lia]. Qed.

Lemma vec_set_wf b v : vb_wf b -> 0 <= v < 256 -> vb_wf (vec_set b v).
Proof.
  intros Hb Hv. pose proof (word_at_fits b (Z.to_nat (Z.shiftr v 5)) Hb). unfold vec_set.
  split; simpl; [rewrite length_insert; apply Hb|]. apply Forall_insert; [apply Hb|].
  destruct (vec_index v Hv) as (_ & -> & _). apply fits_lor; [lia|done|].
  apply bit_fits, Z.mod_pos_bound. lia.
Qed.

Lemma vec_clear_wf b v : vb_wf b -> 0 <= v < 256 -> vb_wf (vec_clear b v).
Proof.
  intros Hb Hv. pose proof (word_at_fits b (Z.to_nat (Z.shiftr v 5)) Hb). unfold vec_clear.
  split; simpl; [rewrite length_insert; apply Hb|]. apply Forall_insert; [apply Hb|].
  destruct (vec_index v Hv) as (_ & -> & _). apply fits_land; [lia|done|].
  apply bnot_fits, bit_fits, Z.mod_pos_bound. lia.
Qed.

Lemma vecbits_default_wf : vb_wf vecbits_default.
Proof. split; [done|]. apply (Forall_replicate _ 8). unfold fits. lia. Qed.

(** What the reversed search finds: the last non-zero word. *)
Lemma find_last_nonzero (ws : list Z) :
  match List.find (fun '(_, w) => negb (w =? 0)) (reverse (imap (fun i w => (i, w)) ws)) with
  | Some (i, w) => ws !! i = Some w /\ w <> 0 /\ forall j x, (i < j)%nat -> ws !! j = Some x -> x = 0
  | None => forall j x, ws !! j = Some x -> x = 0
  end.
Proof.
  induction ws as [|w ws IH] using rev_ind; [done|].
  rewrite imap_app, reverse_app. simpl. rewrite Nat.add_0_r. destruct (w =? 0) eqn:E; simpl; bool_prop.
  - subst w. destruct (List.find _ _) as [[i w]|].
    + destruct IH as (Hi & Hw & Hz). split_and!; [by apply lookup_app_l_Some|done|].
      intros j x Hj [Hx|[_ Hx]]%lookup_app_Some; [eauto|].
      by apply list_lookup_singleton_Some in Hx as [_ <-].
    + intros j x [Hx|[_ Hx]]%lookup_app_Some; [eauto|].
      by apply list_lookup_singleton_Some in Hx as [_ <-].
  - split_and!; [|done|].
    + rewrite lookup_app_r, Nat.sub_diag by lia. done.
    + intros j x Hj Hx. apply lookup_lt_Some in Hx. rewrite length_app in Hx. simpl in Hx. lia.
Qed.

Lemma log2_word w : fits 32 w -> w <> 0 -> 0 <= Z.log2 w < 32 /\ Z.testbit w (Z.log2 w) = true.
Proof.
  intros [? ?] ?. split; [|apply Z.bit_log2; lia].
  split; [apply Z.log2_nonneg|]. apply Z.log2_lt_pow2; lia.
Qed.

Lemma vec_highest_spec b : vb_wf b ->
  match vec_highest b with
  | Some v => 0 <= v < 256 /\ vec_get b v = true /\
              forall u, 0 <= u < 256 -> vec_get b u = true -> u <= v
  | None => forall u, 0 <= u < 256 -> vec_get b u = false
  end.
Proof.
  intros Hb. unfold vec_highest. pose proof (find_last_nonzero (words b)) as Hf.
  destruct (List.find _ _) as [[i w]|].
  - destruct Hf as (Hi & Hw & Hz). destruct Hb as [Hl Hb].
    assert (fits 32 w) as Hw32 by (by eapply Forall_lookup_1).
    pose proof (log2_word w Hw32 Hw) as [Hlog Hbit].
    pose proof (lookup_lt_Some _ _ _ Hi) as Hi8. rewrite Hl in Hi8.
    unfold leading_zeros32. destruct (w =? 0) eqn:E0; [bool_prop; done|].
    rewrite !as_u8_id by (unfold fits; rewrite ?as_u8_id by (unfold fits; lia);
      rewrite ?as_u8_id by (unfold fits; lia); lia).
    replace (31 - (31 - Z.log2 w)) with (Z.log2 w) by lia.
    set (v := Z.of_nat i * 32 + Z.log2 w).
    assert (v / 32 = Z.of_nat i /\ v mod 32 = Z.log2 w) as [Hvd Hvm]
      by (unfold v; Z.div_mod_to_equations; lia).
    split; [lia|]. split.
    + rewrite vec_get_testbit by lia. unfold word_at. by rewrite Hvd, Hvm, Nat2Z.id, Hi.
    + intros u Hu. rewrite vec_get_testbit by done. intros Ht.
      destruct (decide (u <= v)) as [|Hgt]; [done|]. exfalso. unfold word_at in Ht.
      destruct (words b !! Z.to_nat (u / 32)) as [x|] eqn:Ex; simpl in Ht; [|by rewrite Z.bits_0 in Ht].
      destruct (decide (Z.to_nat (u / 32) = i)) as [Heq|Hne].
      * rewrite Heq, Hi in Ex. simplify_eq. rewrite Z.bits_above_log2 in Ht; [done|unfold fits in *; lia|].
        unfold v in Hgt. Z.div_mod_to_equations. lia.
      * assert (x = 0) as ->; [|by rewrite Z.bits_0 in Ht].
        eapply (Hz (Z.to_nat (u / 32))); [|done]. unfold v in Hgt. Z.div_mod_to_equations. lia.
  - intros u Hu. rewrite vec_get_testbit by done. unfold word_at.
    destruct (words b !! Z.to_nat (u / 32)) as [x|] eqn:Ex; simpl; [|apply Z.bits_0].
    rewrite (Hf _ _ Ex). apply Z.bits_0.
Qed.

(** ** Lemmas on the abstraction *)

Lemma elem_of_set_of b v : v ∈ set_of b <-> 0 <= v < 256 /\ vec_get b v = true.
Proof.
  unfold set_of, vectors. rewrite elem_of_list_to_set, list_elem_of_filter, elem_of_seqZ.
  split; intros []; split; (done || lia).
Qed.

Lemma set_of_set b v : vb_wf b -> 0 <= v < 256 -> set_of (vec_set b v) = {[v]} ∪ set_of b.
Proof.
  intros Hb Hv. apply set_eq. intros u. rewrite elem_of_union, elem_of_singleton, !elem_of_set_of.
  split.
  - intros [Hu H]. rewrite vec_get_set in H by done. bool_prop. destruct H; bool_prop; auto.
  - intros [->|[Hu H]]; (split; [done|]); rewrite vec_get_set by done.
    + by rewrite Z.eqb_refl.
    + rewrite H. apply orb_true_r.
Qed.

Lemma set_of_clear b v : vb_wf b -> 0 <= v < 256 -> set_of (vec_clear b v) = set_of b ∖ {[v]}.
Proof.
  intros Hb Hv. apply set_eq. intros u. rewrite elem_of_difference, elem_of_singleton, !elem_of_set_of.
  split.
  - intros [Hu H]. rewrite vec_get_clear in H by done. by bool_prop.
  - intros [[Hu H] Hne]. split; [done|]. rewrite vec_get_clear, H by done.
    apply Z.eqb_neq in Hne. by rewrite Hne.
Qed.

Lemma vec_highest_max b : vb_wf b ->
  match vec_highest b with
  | Some v => is_max (set_of b) v
  | None => set_of b = ∅
  end.
Proof.
  intros Hb. pose proof (vec_highest_spec b Hb) as H. destruct (vec_highest b) as [v|].
  - destruct H as (? & ? & Hm). split; [by apply elem_of_set_of|].
    intros u [? ?]%elem_of_set_of. auto.
  - apply set_eq. intros u. rewrite elem_of_set_of. split; [|set_solver].
    intros [Hu ?]. rewrite H in *; done.
Qed.

Lemma is_max_unique X u v : is_max X u -> is_max X v -> u = v.
Proof. intros [Hu Hmu] [Hv Hmv]. specialize (Hmu v Hv). specialize (Hmv u Hu). lia. Qed.

Lemma class_land a : fits 8 a -> Z.land a 0xf0 = 16 * class a.
Proof.
  intros Ha. assert (Forall (fun a => Z.land a 0xf0 = 16 * class a) (seqZ 0 256)) as H.
  { apply (bool_decide_unpack _). by vm_compute. }
  rewrite Forall_forall in H. apply H. rewrite elem_of_seqZ. unfold fits in Ha. lia.
Qed.

Lemma class_mono u v : u <= v -> class u <= class v.
Proof. intros. unfold class. apply Z.div_le_mono; lia. Qed.

Lemma fits8_vec v : fits 8 v <-> 0 <= v < 256.
Proof. unfold fits. lia. Qed.

(** The priority register's class is the larger of the two classes. *)
Lemma ppr_class l : lapic_wf l ->
  Z.land (ppr l) 0xf0 = 16 * Z.max (class (tpr l)) (class (highest_isr l)).
Proof.
  intros Hl. assert (fits 8 (highest_isr l)) as Hi.
  { unfold highest_isr. pose proof (vec_highest_spec _ (lwf_isr l Hl)) as H.
    destruct (vec_highest _); simpl; unfold fits; lia. }
  pose proof (class_land _ (lwf_tpr l Hl)) as Ht. pose proof (class_land _ Hi) as Hc.
  unfold ppr. destruct (_ >=? _) eqn:E; rewrite ?Z.geb_leb in E; bool_prop.
  - rewrite Ht, Hc in E. rewrite Ht. lia.
  - rewrite <- Z.land_assoc. change (Z.land 0xf0 0xf0) with 0xf0. rewrite Ht, Hc in E. rewrite Hc. lia.
Qed.

Lemma deliverable_iff l v : lapic_wf l ->
  deliverable_vector l = Some v <-> abs_deliverable (abs l) v.
Proof.
  intros Hl. unfold deliverable_vector, abs_deliverable. simpl.
  destruct (lapic_enabled l); simpl; [|split; [done|by intros []]].
  unfold highest_irr. pose proof (vec_highest_max _ (lwf_irr l Hl)) as Hm.
  pose proof (vec_highest_spec _ (lwf_irr l Hl)) as Hs.
  destruct (vec_highest (irr l)) as [i|]; simpl.
  2: { split; [done|]. intros (_ & [Hv _] & _). rewrite Hm in Hv. set_solver. }
  destruct Hs as (Hi & _). rewrite (class_land i), (ppr_class l), as_u8_id by (done || by apply fits8_vec).
  assert (Hisr : forall v, class (highest_isr l) < class v -> 0 <= class v ->
    forall u, u ∈ set_of (isr l) -> class u < class v).
  { intros w Hw _ u Hu. unfold highest_isr in Hw. pose proof (vec_highest_max _ (lwf_isr l Hl)) as Hx.
    destruct (vec_highest (isr l)) as [x|]; simpl in *; [|rewrite Hx in Hu; set_solver].
    destruct Hx as [_ Hx]. specialize (Hx u Hu). apply class_mono in Hx. lia. }
  assert (Hisr' : (forall u, u ∈ set_of (isr l) -> class u < class i) -> 0 < class i -> class (highest_isr l) < class i).
  { intros Hu Hc. unfold highest_isr. pose proof (vec_highest_max _ (lwf_isr l Hl)) as Hx.
    destruct (vec_highest (isr l)) as [x|]; simpl in *; [by apply Hu, Hx|exact Hc]. }
  assert (0 <= class (tpr l)) by (pose proof (lwf_tpr l Hl) as [? ?]; unfold class; apply Z.div_pos; lia).
  destruct (i =? 0) eqn:E0; bool_prop.
  { subst i. split; [done|]. intros (_ & Hv & Hc & _). rewrite (is_max_unique _ _ _ Hv Hm) in Hc.
    change (class 0) with 0 in Hc. lia. }
  rewrite Z.gtb_ltb. destruct (_ <? _) eqn:E; bool_prop; split.
  - intros [= <-]. split_and!; [done|done|lia|]. apply Hisr; lia.
  - intros (_ & Hv & _). by rewrite (is_max_unique _ _ _ Hv Hm).
  - done.
  - intros (_ & Hv & Hc & Hu). rewrite (is_max_unique _ _ _ Hv Hm) in *.
    specialize (Hisr' Hu ltac:(lia)). lia.
Qed.

(** ** Preservation of the invariant *)

(** Every operation another component or the guest can perform. *)
Inductive lapic_step (σ : cells) : Lapic -> Lapic -> Prop :=
  | step_raise l v : fits 8 v -> lapic_step σ l (raise l v)
  | step_inject l v : deliverable_vector l = Some v -> lapic_step σ l (ack_injected l v)
  | step_write h l off val l' : fits 32 val -> lapic_mmio_write σ h l off val = Some l' -> lapic_step σ l l'
  | step_cr8 l cr8 : fits 64 cr8 -> lapic_step σ l (sync_tpr_from_cr8 l cr8)
  | step_deadline l dl : fits 64 dl -> lapic_step σ l (write_tsc_deadline l dl)
  | step_fire fuel l now b l' :
      fire_timer_if_due fuel l now = Some (b, l') -> lapic_step σ l l'.

Ltac solve_wf H := destruct H; split; simpl; exact_hyp.

Lemma land_ones8_fits v : fits 8 (Z.land v 0xff).
Proof. change 0xff with (Z.ones 8). rewrite land_ones_wrap by lia. by apply wrap_fits. Qed.

Lemma raise_wf l v : lapic_wf l -> fits 8 v -> lapic_wf (raise l v).
Proof. intros Hl Hv. pose proof (vec_set_wf _ v (lwf_irr l Hl) (proj1 (fits8_vec v) Hv)). solve_wf Hl. Qed.

Lemma ack_wf l v : lapic_wf l -> 0 <= v < 256 -> lapic_wf (ack_injected l v).
Proof.
  intros Hl Hv. pose proof (vec_set_wf _ v (lwf_isr l Hl) Hv).
  pose proof (vec_clear_wf _ v (lwf_irr l Hl) Hv). solve_wf Hl.
Qed.

Lemma deliverable_range l v : lapic_wf l -> deliverable_vector l = Some v -> 0 <= v < 256.
Proof.
  intros Hl (_ & [Hv _] & _)%(deliverable_iff _ _ Hl). simpl in Hv. by apply elem_of_set_of in Hv as [? _].
Qed.

Lemma eoi_wf l : lapic_wf l -> lapic_wf (eoi l).
Proof.
  intros Hl. unfold eoi. pose proof (vec_highest_spec _ (lwf_isr l Hl)) as Hs.
  destruct (vec_highest _) as [v|]; [|done]. destruct Hs as (Hv & _).
  pose proof (vec_clear_wf _ v (lwf_isr l Hl) Hv). solve_wf Hl.
Qed.

Lemma write_icr_wf l v : lapic_wf l -> lapic_wf (write_icr l v).
Proof. intros Hl. unfold write_icr. repeat case_match; try done. apply raise_wf; auto with width. Qed.

Lemma write_lvt_timer_wf l v : lapic_wf l -> fits 32 v -> lapic_wf (write_lvt_timer l v).
Proof.
  intros Hl Hv. unfold write_lvt_timer. destruct (negb _) eqn:E; bool_prop.
  - destruct Hl; split; simpl; try exact_hyp; try done; unfold fits; lia.
  - destruct Hl as [? ? ? ? ? ? ? ? ? ? ? ? ? ? ? ? ? ? ? Hp]. split; simpl; try exact_hyp.
    intros H0. destruct (Hp H0) as [Hm Hs]. split; [|done]. rewrite <- Hm. exact E.
Qed.

Lemma arm_wf l v d p :
  lapic_wf l -> fits 32 v -> (forall dl, d = Some dl -> fits 64 dl) -> fits 64 p ->
  (0 < p -> timer_mode l = LVT_TIMER_MODE_PERIODIC /\ is_Some d) ->
  lapic_wf (l <| timer_ict := v |> <| timer_deadline := d |> <| timer_period := p |>).
Proof. intros Hl Hv Hd Hp Hm. destruct Hl; split; simpl; exact_hyp. Qed.

Lemma divisor_pos l : 1 <= timer_divisor l <= 128.
Proof. unfold timer_divisor. cbv zeta. repeat case_match; lia. Qed.

Lemma div_u128_pos a b : 0 < b -> div_u128 a b = Some (a / b).
Proof. intros Hb. unfold div_u128. by rewrite (proj2 (Z.eqb_neq b 0)) by lia. Qed.

(** The CPUID ratio is positive and the divisor a power of two, so neither
    conversion divides by zero. *)
Lemma span_from_count_eq l c : lapic_wf l ->
  span_from_count l c = Some (as_u64 (c * timer_divisor l * tsc_per_count_num l / tsc_per_count_den l)).
Proof. intros Hl. unfold span_from_count. by rewrite div_u128_pos by apply Hl. Qed.

Lemma count_until_eq l d now : lapic_wf l ->
  count_until l d now = Some (if d <=? now then 0
    else as_u32 (Z.min ((d - now) * tsc_per_count_den l / (timer_divisor l * tsc_per_count_num l)) U32_MAX)).
Proof.
  intros Hl. unfold count_until. destruct (d <=? now); [done|]. pose proof (divisor_pos l).
  pose proof (proj1 (lwf_num l Hl)). by rewrite div_u128_pos by nia.
Qed.

Lemma write_timer_ict_wf σ h l v : lapic_wf l -> fits 32 v ->
  exists l', write_timer_ict σ h l v = Some l' /\ lapic_wf l'.
Proof.
  intros Hl Hv. unfold write_timer_ict. cbv zeta.
  change (timer_mode (l <| timer_ict := v |>)) with (timer_mode l).
  assert (fits 64 0) by (unfold fits; lia).
  assert (Hict : lapic_wf (l <| timer_ict := v |>)) by solve_wf Hl.
  destruct (timer_mode l =? LVT_TIMER_MODE_TSCDEADLINE); [by eexists|].
  destruct (v =? 0); [|rewrite (span_from_count_eq _ v Hict)]; cbn [mbind option_bind];
    (eexists; split; [reflexivity|]); (apply arm_wf; [done|done| | |]); try done.
  - intros dl [= <-]. apply as_u64_fits.
  - destruct (_ =? LVT_TIMER_MODE_PERIODIC); [apply as_u64_fits|done].
  - destruct (_ =? LVT_TIMER_MODE_PERIODIC) eqn:E; [|intros; lia]. bool_prop.
    intros _. split; [done|by eexists].
Qed.

Lemma some_wf l : lapic_wf l -> exists l', Some l = Some l' /\ lapic_wf l'.
Proof. eauto. Qed.

Lemma lapic_mmio_write_wf σ h l off v :
  lapic_wf l -> fits 32 v -> exists l', lapic_mmio_write σ h l off v = Some l' /\ lapic_wf l'.
Proof.
  intros Hl Hv. unfold lapic_mmio_write.
  repeat (match goal with |- exists _, (if ?b then _ else _) = _ /\ _ => destruct b eqn:? end;
    [lazymatch goal with
     | |- context [write_timer_ict] => by apply write_timer_ict_wf
     | |- _ => apply some_wf
     end;
     lazymatch goal with
     | |- lapic_wf (eoi _) => by apply eoi_wf
     | |- lapic_wf (write_icr _ _) => by apply write_icr_wf
     | |- lapic_wf (write_lvt_timer _ _) => by apply write_lvt_timer_wf
     | |- lapic_wf l => done
     | |- _ => try solve [solve_wf Hl]
     end|]); [..|by apply some_wf].
  - destruct Hl; split; simpl; try exact_hyp. destruct Hv. rewrite Z.shiftr_div_pow2 by lia.
    split; [apply Z.div_pos; lia|apply Z.div_lt_upper_bound; lia].
  - pose proof (land_ones8_fits v). solve_wf Hl.
Qed.

(** A bank register names one of the eight words. *)
Lemma bank_word base o (b : VecBits) : vb_wf b -> bank base o = true ->
  is_Some (words b !! Z.to_nat ((o - base) / 0x10)).
Proof.
  intros Hb. unfold bank, in_range. intros Ho. bool_prop. apply lookup_lt_is_Some_2.
  rewrite (proj1 Hb). Z.div_mod_to_equations. lia.
Qed.

Lemma lapic_mmio_read_total σ h l off : lapic_wf l -> is_Some (lapic_mmio_read σ h l off).
Proof.
  intros Hl. unfold lapic_mmio_read.
  repeat (match goal with |- is_Some (if ?b then _ else _) => destruct b eqn:? end;
    [lazymatch goal with
     | |- is_Some (Some _) => by eexists
     | |- is_Some (words _ !! _) => apply bank_word; [apply Hl|done]
     | |- _ => idtac
     end|]); [|by eexists].
  unfold timer_current_count. cbv zeta. repeat case_match; try by eexists.
  rewrite count_until_eq by done. by eexists.
Qed.

Lemma sync_tpr_wf l cr8 : lapic_wf l -> lapic_wf (sync_tpr_from_cr8 l cr8).
Proof.
  intros Hl. assert (fits 8 (as_u32 (Z.shiftl (as_u32 (Z.land cr8 0xf)) 4))).
  { change 0xf with (Z.ones 4). rewrite land_ones_wrap by lia.
    pose proof (wrap_fits 4 cr8 ltac:(lia)) as H4. rewrite (as_u32_id (wrap 4 cr8)) by (apply (fits_mono 4); [lia|done]).
    pose proof (shiftl_fits 8 4 (wrap 4 cr8) 4 ltac:(lia) ltac:(lia) ltac:(lia) H4).
    by rewrite as_u32_id by (apply (fits_mono 8); [lia|done]). }
  solve_wf Hl.
Qed.

Lemma write_tsc_deadline_wf l dl : lapic_wf l -> fits 64 dl -> lapic_wf (write_tsc_deadline l dl).
Proof.
  intros Hl Hd. destruct Hl; split; simpl; try exact_hyp; try (unfold fits; lia).
  intros d. case_match; [done|]. by intros [= <-].
Qed.

Lemma advance_fits fuel now p next next' :
  fits 64 next -> advance fuel now p next = Some next' -> fits 64 next' /\ now < next'.
Proof.
  revert next. induction fuel as [|n IH]; intros next Hn; simpl; [done|].
  destruct (next <=? now) eqn:E; bool_prop; [apply IH, as_u64_fits|]. by intros [= <-].
Qed.

Lemma fire_wf fuel l now b l' :
  lapic_wf l -> fire_timer_if_due fuel l now = Some (b, l') -> lapic_wf l'.
Proof.
  intros Hl. unfold fire_timer_if_due. destruct (timer_deadline l) as [dl|] eqn:Ed; [|by intros [= _ <-]].
  destruct (dl <=? now); [|by intros [= _ <-]]. intros Hf.
  assert (Hgo : forall l1, lapic_wf l1 ->
    lapic_wf (if negb (timer_masked l1) then raise l1 (timer_vector l1) else l1)).
  { intros l1 H1. destruct (negb _); [|done]. apply raise_wf; [done|apply as_u8_fits]. }
  destruct (0 <? timer_period l) eqn:Ep; bool_prop.
  - destruct (advance _ _ _ _) as [next|] eqn:Ea; [|done]. simpl in Hf. injection Hf as <- <-.
    apply advance_fits in Ea as [Hn _]; [|by apply (lwf_deadline l Hl)].
    apply Hgo. destruct Hl; split; simpl; try exact_hyp.
    + by intros ? [= <-].
    + intros H0. split; [by apply lwf_periodic0|by eexists].
  - simpl in Hf. injection Hf as <- <-. apply Hgo. destruct Hl; split; simpl; try exact_hyp; [done|].
    intros H0. lia.
Qed.

Lemma lapic_step_wf σ l l' : lapic_wf l -> lapic_step σ l l' -> lapic_wf l'.
Proof.
  intros Hl Hs. revert Hl. destruct Hs; intros Hl.
  - by apply raise_wf.
  - apply ack_wf; [done|]. by eapply deliverable_range.
  - destruct (lapic_mmio_write_wf σ h l off val Hl) as (l1 & E & ?); [done|]. by simplify_eq.
  - by apply sync_tpr_wf.
  - by apply write_tsc_deadline_wf.
  - by eapply fire_wf.
Qed.

Lemma lapic_new_wf clock num den l :
  fits 64 num -> fits 64 den -> lapic_new clock num den = Some l -> lapic_wf l.
Proof.
  intros Hn Hd. unfold lapic_new. destruct (_ && _) eqn:E; [|done]. bool_prop. intros [= <-].
  split; simpl; auto using vecbits_default_wf; try done; try (unfold fits, LVT_MASK; simpl; lia); lia.
Qed.

(** ** Lemmas on the timer *)

(** The loop adds whole periods until it passes [now]. *)
Lemma advance_steps now p target : forall k next fuel,
  target = next + Z.of_nat k * p -> target < 2 ^ 64 -> 0 <= next -> 0 < p ->
  target - p <= now < target -> (k < fuel)%nat ->
  advance fuel now p next = Some target.
Proof.
  induction k as [|k IH]; intros next [|fuel] Ht H64 Hn Hp Hb Hf; try lia; simpl.
  - destruct (next <=? now) eqn:E; bool_prop; [lia|]. f_equal. lia.
  - destruct (next <=? now) eqn:E; bool_prop; [|lia]. unfold wrapping_add_u64.
    rewrite as_u64_id by (unfold fits; lia). apply IH; lia.
Qed.

Lemma advance_total now p dl fuel :
  0 <= dl <= now -> 0 < p -> dl + ((now - dl) / p + 1) * p < 2 ^ 64 ->
  ((now - dl) / p + 1 < Z.of_nat fuel) ->
  advance fuel now p dl = Some (dl + ((now - dl) / p + 1) * p).
Proof.
  intros Hd Hp H64 Hf. assert (0 <= (now - dl) / p) by (apply Z.div_pos; lia).
  pose proof (Z.mul_div_le (now - dl) p Hp). pose proof (Z.mul_succ_div_gt (now - dl) p Hp).
  apply (advance_steps _ _ _ (Z.to_nat ((now - dl) / p + 1))); try lia.
Qed.

Lemma raise_irr l v : irr (raise l v) = vec_set (irr l) v.
Proof. done. Qed.

Definition raise_timer (l : Lapic) : Lapic :=
  if negb (timer_masked l) then raise l (timer_vector l) else l.

Lemma raise_timer_fields l :
  timer_deadline (raise_timer l) = timer_deadline l /\ timer_period (raise_timer l) = timer_period l
  /\ irr (raise_timer l) = (if timer_masked l then irr l else vec_set (irr l) (timer_vector l)).
Proof. unfold raise_timer. by destruct (timer_masked l). Qed.

(** The two shapes of a fire. *)
Lemma fire_due_periodic fuel l now dl next :
  timer_deadline l = Some dl -> dl <= now -> 0 < timer_period l ->
  advance fuel now (timer_period l) dl = Some next ->
  fire_timer_if_due fuel l now = Some (true, raise_timer (l <| timer_deadline := Some next |>)).
Proof.
  intros Hd Hle Hp Ha. unfold fire_timer_if_due. rewrite Hd, (proj2 (Z.leb_le dl now)) by done.
  by rewrite (proj2 (Z.ltb_lt 0 _)), Ha by done.
Qed.

Lemma fire_due_oneshot fuel l now dl :
  timer_deadline l = Some dl -> dl <= now -> timer_period l = 0 ->
  fire_timer_if_due fuel l now = Some (true, raise_timer (l <| timer_deadline := None |>)).
Proof.
  intros Hd Hle Hp. unfold fire_timer_if_due. by rewrite Hd, (proj2 (Z.leb_le dl now)), Hp by done.
Qed.

Lemma fire_not_due fuel l now :
  (forall dl, timer_deadline l = Some dl -> now < dl) -> fire_timer_if_due fuel l now = Some (false, l).
Proof.
  intros Hd. unfold fire_timer_if_due. destruct (timer_deadline l) as [dl|]; [|done].
  specialize (Hd dl eq_refl). by rewrite (proj2 (Z.leb_gt dl now)).
Qed.

Lemma svr_wf l v : lapic_wf l -> fits 32 v -> lapic_wf (l <| svr := v |>).
Proof. intros Hl Hv. solve_wf Hl. Qed.

(** A concrete controller: divide by 1, 160/2 cycles per count. *)
Definition toy_lapic : Lapic := default
  {| lapic_clock := toy_clock; tsc_per_count_num := 0; tsc_per_count_den := 0;
     lapic_id := 0; tpr := 0; svr := 0; ldr := 0; dfr := 0; esr := 0; lvt_timer := 0;
     lvt_thermal := 0; lvt_perf := 0; lvt_lint0 := 0; lvt_lint1 := 0; lvt_error := 0;
     irr := vecbits_default; isr := vecbits_default; timer_deadline := None;
     timer_period := 0; timer_dcr := 0; timer_ict := 0 |}
  (lapic_new toy_clock 160 2).

Lemma toy_lapic_wf : lapic_wf toy_lapic.
Proof. apply (lapic_new_wf toy_clock 160 2); [unfold fits; lia|unfold fits; lia|reflexivity]. Qed.

(** ** Properties *)

(** Every controller reachable from reset by any sequence of raises,
    injections, MMIO writes, CR8 syncs, deadline writes and timer fires
    satisfies the invariant: each register fits its width, the bitmaps have
    eight 32-bit words, and a period is live only in periodic mode with a
    deadline armed. *)
Theorem lapic_reachable_wf σ clock num den l l' :
  fits 64 num -> fits 64 den -> lapic_new clock num den = Some l ->
  rtc (lapic_step σ) l l' -> lapic_wf l'.
Proof.
  intros Hn Hd Hnew Hr. apply (lapic_new_wf _ _ _ _ Hn Hd) in Hnew.
  induction Hr as [|x y z Hs _ IH]; [done|]. by apply IH, (lapic_step_wf σ x).
Qed.

Lemma lapic_reachable_wf_witness : lapic_wf (raise (sync_tpr_from_cr8 toy_lapic 3) 0x31).
Proof.
  apply (lapic_reachable_wf ∅ toy_clock 160 2 toy_lapic);
    [unfold fits; lia | unfold fits; lia | reflexivity |].
  eapply rtc_l; [apply (step_cr8 ∅ _ 3); unfold fits; lia|].
  eapply rtc_l; [apply (step_raise ∅ _ 0x31); unfold fits; lia|]. apply rtc_refl.
Defined.

(** C3: The delivery rule of the interrupt architecture: the controller
    offers vector [v] exactly when it is software-enabled, [v] is the highest
    pending vector, and the priority class of [v] exceeds the task-priority
    class and the class of every vector in service. *)
Theorem deliverable_vector_refines l v :
  lapic_wf l -> deliverable_vector l = Some v <-> abs_deliverable (abs l) v.
Proof. apply deliverable_iff. Qed.

Definition toy_pending : Lapic := raise (raise (toy_lapic <| svr := 0x1ff |>) 0x31) 0xec.

Lemma toy_pending_wf : lapic_wf toy_pending.
Proof.
  unfold toy_pending. do 2 (apply raise_wf; [|unfold fits; lia]).
  apply svr_wf; [apply toy_lapic_wf|unfold fits; lia].
Qed.

Lemma deliverable_vector_refines_witness : abs_deliverable (abs toy_pending) 0xec.
Proof.
  apply (deliverable_vector_refines toy_pending 0xec); [apply toy_pending_wf|by vm_compute].
Defined.

(** C30: The bitmap operations implement the abstract controller: raising a
    vector adds it to the pending set, injecting moves it to the in-service
    set, and an EOI removes the highest in-service vector (and does nothing
    when there is none). *)
Theorem lapic_simulates_sets l v :
  lapic_wf l -> fits 8 v ->
  abs (raise l v) = abs_raise (abs l) v
  /\ abs (ack_injected l v) = abs_ack (abs l) v
  /\ abs_eoi (abs l) (abs (eoi l)).
Proof.
  intros Hl Hv%fits8_vec. pose proof (lwf_irr l Hl). pose proof (lwf_isr l Hl).
  split; [|split].
  - unfold abs, abs_raise. simpl. by rewrite set_of_set.
  - unfold abs, abs_ack. simpl. by rewrite set_of_set, set_of_clear.
  - unfold eoi. pose proof (vec_highest_max (isr l) ltac:(done)) as Hm.
    pose proof (vec_highest_spec (isr l) ltac:(done)) as Hs.
    destruct (vec_highest (isr l)) as [x|]; [|by apply abs_eoi_none].
    unfold abs at 2. simpl. rewrite set_of_clear by (done || apply Hs). by apply abs_eoi_some.
Qed.

Lemma lapic_simulates_sets_witness : abs (raise toy_lapic 0x31) = abs_raise (abs toy_lapic) 0x31.
Proof. apply (lapic_simulates_sets toy_lapic 0x31); [apply toy_lapic_wf|unfold fits; lia]. Defined.

(** Interrupt nesting: injecting a deliverable vector makes it the
    highest in service, so the next EOI retires exactly that vector and gives
    back the in-service set from before; nothing is deliverable in between
    from its class or below. *)
Theorem inject_then_eoi l v :
  lapic_wf l -> deliverable_vector l = Some v ->
  vec_highest (isr (ack_injected l v)) = Some v
  /\ a_isr (abs (eoi (ack_injected l v))) = a_isr (abs l)
  /\ a_irr (abs (eoi (ack_injected l v))) = a_irr (abs l) ∖ {[v]}
  /\ (forall u, deliverable_vector (ack_injected l v) = Some u -> class v < class u).
Proof.
  intros Hl Hd. pose proof (deliverable_range l v Hl Hd) as Hv.
  pose proof (proj1 (deliverable_iff l v Hl) Hd) as (_ & _ & _ & Hisr). simpl in Hisr.
  pose proof (ack_wf l v Hl Hv) as Hla. pose proof (vec_highest_max _ (lwf_isr _ Hla)) as Hm.
  simpl in Hm. rewrite set_of_set in Hm by (done || apply Hl).
  assert (Hmax : is_max ({[v]} ∪ set_of (isr l)) v).
  { split; [set_solver|]. intros u [->%elem_of_singleton|Hu]%elem_of_union; [done|].
    specialize (Hisr u Hu). destruct (decide (u <= v)) as [|Hgt]; [done|].
    pose proof (class_mono v u ltac:(lia)). lia. }
  assert (vec_highest (vec_set (isr l) v) = Some v) as Hh.
  { destruct (vec_highest _) as [x|]; [f_equal; by eapply is_max_unique|]. set_solver. }
  split; [done|]. unfold eoi. simpl. rewrite Hh. simpl.
  rewrite set_of_clear, set_of_set, set_of_clear by (done || apply Hl || (apply vec_set_wf; [apply Hl|done])).
  split; [|split; [done|]].
  - assert (v ∉ set_of (isr l)) by (intros Hu; specialize (Hisr v Hu); lia). set_solver.
  - intros u (_ & _ & _ & Hu)%(deliverable_iff _ _ Hla). apply Hu. simpl.
    rewrite set_of_set by (done || apply Hl). set_solver.
Qed.

Lemma inject_then_eoi_witness :
  a_isr (abs (eoi (ack_injected toy_pending 0xec))) = a_isr (abs toy_pending).
Proof.
  apply (inject_then_eoi toy_pending 0xec); [apply toy_pending_wf|by vm_compute].
Defined.

(** A periodic timer fires once and re-arms on its grid: when the
    deadline [dl] is due, the loop ends (given one more unit of fuel than the
    periods missed) and the new deadline is the first [dl + k * period] after
    [now]; the vector is raised unless masked, and firing again at the same
    instant does nothing. *)
Theorem periodic_timer_rearms l now dl fuel :
  lapic_wf l -> timer_deadline l = Some dl -> dl <= now -> 0 < timer_period l ->
  let k := (now - dl) / timer_period l + 1 in
  let next := dl + k * timer_period l in
  next < 2 ^ 64 -> k < Z.of_nat fuel ->
  exists l', fire_timer_if_due fuel l now = Some (true, l')
  /\ timer_deadline l' = Some next /\ now < next <= now + timer_period l
  /\ timer_period l' = timer_period l
  /\ irr l' = (if timer_masked l then irr l else vec_set (irr l) (timer_vector l))
  /\ fire_timer_if_due fuel l' now = Some (false, l').
Proof.
  intros Hl Hd Hle Hp k next H64 Hf. pose proof (lwf_deadline l Hl dl Hd) as [? ?].
  pose proof (Z.mul_div_le (now - dl) (timer_period l) Hp).
  pose proof (Z.mul_succ_div_gt (now - dl) (timer_period l) Hp).
  assert (Hb : now < next <= now + timer_period l) by (unfold next, k; lia).
  set (l1 := l <| timer_deadline := Some next |>).
  pose proof (raise_timer_fields l1) as (Hd1 & Hp1 & Hi1).
  exists (raise_timer l1). split_and!; try done; try lia.
  - apply fire_due_periodic with dl; try done. by apply advance_total.
  - apply fire_not_due. intros d. rewrite Hd1. intros [= <-]. lia.
Qed.

(** Deadline 100, period 40, fired late at 190: one interrupt, next at 220. *)
Definition toy_periodic : Lapic :=
  toy_lapic <| lvt_timer := 0x200ec |> <| timer_deadline := Some 100 |> <| timer_period := 40 |>.

Lemma toy_periodic_wf : lapic_wf toy_periodic.
Proof.
  apply (arm_wf (toy_lapic <| lvt_timer := 0x200ec |>) 0 (Some 100) 40).
  - apply (write_lvt_timer_wf toy_lapic 0x200ec toy_lapic_wf). unfold fits; lia.
  - unfold fits; lia.
  - intros dl [= <-]. unfold fits; lia.
  - unfold fits; lia.
  - intros _. split; [reflexivity|by eexists].
Qed.

Lemma periodic_timer_rearms_witness :
  exists l', fire_timer_if_due 5 toy_periodic 190 = Some (true, l') /\ timer_deadline l' = Some 220.
Proof.
  destruct (periodic_timer_rearms toy_periodic 190 100 5) as (l' & H1 & H2 & _);
    [apply toy_periodic_wf | reflexivity | lia | reflexivity | reflexivity | reflexivity |].
  exists l'. split; [exact H1|exact H2].
Defined.

(** A one-shot timer fires exactly once: when due it is disarmed and its
    vector raised unless masked, and no later fire does anything. *)
Theorem oneshot_timer_fires_once l now dl fuel fuel' now' :
  timer_deadline l = Some dl -> timer_period l = 0 -> dl <= now ->
  exists l', fire_timer_if_due fuel l now = Some (true, l')
  /\ timer_deadline l' = None
  /\ irr l' = (if timer_masked l then irr l else vec_set (irr l) (timer_vector l))
  /\ fire_timer_if_due fuel' l' now' = Some (false, l').
Proof.
  intros Hd Hp Hle. set (l1 := l <| timer_deadline := None |>).
  pose proof (raise_timer_fields l1) as (Hd1 & _ & Hi1).
  exists (raise_timer l1). split_and!; try done.
  - by apply fire_due_oneshot with dl.
  - apply fire_not_due. intros d. by rewrite Hd1.
Qed.

Lemma oneshot_timer_fires_once_witness :
  exists l', fire_timer_if_due 0 (toy_lapic <| timer_deadline := Some 7 |>) 9 = Some (true, l')
  /\ timer_deadline l' = None.
Proof.
  destruct (oneshot_timer_fires_once (toy_lapic <| timer_deadline := Some 7 |>) 9 7 0 0 0)
    as (l' & H1 & H2 & _); [reflexivity | reflexivity | lia |]. exists l'. split; [exact H1|exact H2].
Defined.

(** Programming the initial count and reading the current count at the
    same instant gives the count back up to one unit, and exactly when one
    count spans a whole number of TSC cycles, as long as the span fits 64
    bits. *)
Theorem timer_count_roundtrip l c now :
  lapic_wf l -> fits 32 c -> tsc_per_count_den l <= timer_divisor l * tsc_per_count_num l ->
  now + c * timer_divisor l * tsc_per_count_num l / tsc_per_count_den l < 2 ^ 64 -> 0 <= now ->
  exists span c', span_from_count l c = Some span /\ count_until l (now + span) now = Some c'
  /\ c - 1 <= c' <= c
  /\ ((timer_divisor l * tsc_per_count_num l) mod tsc_per_count_den l = 0 -> c' = c).
Proof.
  intros Hl [Hc0 Hc] Hge H64 Hn. destruct (lwf_num l Hl) as [Hnum _], (lwf_den l Hl) as [Hden _].
  pose proof (divisor_pos l). rewrite span_from_count_eq by done. eexists _, _.
  split; [done|]. rewrite count_until_eq by done. split; [done|].
  set (N := timer_divisor l * tsc_per_count_num l) in *. set (D := tsc_per_count_den l) in *.
  rewrite <- Z.mul_assoc in *. fold N in H64 |- *.
  assert (0 < N) by (unfold N; nia).
  assert (0 <= c * N / D) by (apply Z.div_pos; nia).
  rewrite as_u64_id by (unfold fits; lia).
  pose proof (Z.mul_div_le (c * N) D Hden). pose proof (Z.mul_succ_div_gt (c * N) D Hden).
  assert (Hlow : c * N / D = 0 -> c * N < D) by nia.
  destruct (_ <=? now) eqn:E; bool_prop.
  - assert (c * N / D = 0) by lia. assert (c = 0) by nia. subst c. split; [lia|done].
  - replace (now + c * N / D - now) with (c * N / D) by lia.
    assert (Hub : c * N / D * D / N <= c) by (apply Z.div_le_upper_bound; nia).
    assert (Hlb : c - 1 <= c * N / D * D / N) by (apply Z.div_le_lower_bound; nia).
    assert (0 <= c * N / D * D / N) by (apply Z.div_pos; nia).
    unfold U32_MAX. rewrite Z.min_l by lia. rewrite as_u32_id by (unfold fits; lia).
    split; [lia|]. intros Hex%Z.mod_divide; [|lia]. destruct Hex as [q Hq].
    rewrite Hq. replace (c * (q * D)) with (c * q * D) by lia. rewrite Z.div_mul by lia.
    replace (c * q * D) with (c * (q * D)) by lia. rewrite <- Hq. rewrite Z.div_mul; lia.
Qed.

Lemma timer_count_roundtrip_witness :
  exists span c', span_from_count toy_lapic 50 = Some span /\ count_until toy_lapic (1000 + span) 1000 = Some c'
  /\ c' = 50.
Proof.
  destruct (timer_count_roundtrip toy_lapic 50 1000) as (sp & c' & H1 & H2 & _ & H3);
    [apply toy_lapic_wf | unfold fits; lia | by vm_compute | by vm_compute | lia |].
  exists sp, c'. split; [exact H1|]. split; [exact H2|]. apply H3. by vm_compute.
Defined.

(** The re-arm loop has no exit at the top of the 64-bit range: with
    [now = u64::MAX] the wrapped deadline is never past [now], so no amount of
    fuel ends it. *)
Theorem rearm_loop_diverges_at_max fuel p next :
  fits 64 next -> advance fuel U64_MAX p next = None.
Proof.
  revert next. induction fuel as [|n IH]; intros next [? ?]; simpl; [done|].
  rewrite (proj2 (Z.leb_le next U64_MAX)) by (unfold U64_MAX; lia). apply IH, as_u64_fits.
Qed.

Lemma rearm_loop_diverges_at_max_witness : advance 1000 U64_MAX 40 100 = None.
Proof. apply (rearm_loop_diverges_at_max 1000 40 100). unfold fits; lia. Defined.
