(* ===== verification/Memory.v ===== *)
(** * Guest memory and boot layout ([src/src/memory.rs], [src/src/boot.rs])

    The guest-memory crate is the interface [GuestMemory]: regions, writes that
    succeed inside one region, and read-after-write.  On it: the split of RAM
    around the 32-bit MMIO gap, the placement of the initramfs, the E820 map,
    and the assembly of the boot parameters.  The main properties are that the
    E820 map describes as RAM exactly the backed addresses outside the
    reserved system area, and that the initramfs is page aligned, below 4 GiB
    and intact. *)

From Stdlib Require Import ZArith Lia.
From stdpp Require Import base numbers strings gmap list.
From S2P Require Import Prelude.
From S2P Require Import Arch.

Open Scope Z_scope.

(** ** The memory interface *)

(** A region is [(start, length)]. *)
Abbreviation region := (Z * Z)%type.

Definition in_region (x : Z) (r : region) : Prop := r.1 <= x < r.1 + r.2.

(** A byte range lies within one of the regions. *)
Definition backed (rs : list region) (a n : Z) : Prop :=
  exists r, r ∈ rs /\ r.1 <= a /\ a + n <= r.1 + r.2.

Class GuestMemory (M : Type) := {
  gm_from_ranges : list region -> option M;
  gm_regions : M -> list region;
  gm_find_region : M -> Z -> option region;
  gm_write_slice : M -> Z -> list Z -> option M;
  gm_byte : M -> Z -> option Z;
  gm_from_ranges_law rs m : gm_from_ranges rs = Some m -> gm_regions m = rs;
  gm_find_region_law m a r :
    gm_find_region m a = Some r -> r ∈ gm_regions m /\ in_region a r;
  gm_find_region_none m a :
    gm_find_region m a = None -> forall r, r ∈ gm_regions m -> ~ in_region a r;
  gm_write_ok m a bs :
    backed (gm_regions m) a (Z.of_nat (length bs)) -> is_Some (gm_write_slice m a bs);
  gm_write_regions m a bs m' :
    gm_write_slice m a bs = Some m' -> gm_regions m' = gm_regions m;
  gm_write_read m a bs m' x :
    gm_write_slice m a bs = Some m' ->
    gm_byte m' x =
      if decide (a <= x < a + Z.of_nat (length bs)) then bs !! Z.to_nat (x - a) else gm_byte m x;
}.

(** [write_obj] of a u64. *)
Definition gm_write_u64 `{GuestMemory M} (m : M) (v a : Z) : option M :=
  gm_write_slice m a (le_bytes 8 v).

(** The bytes of memory from [a]. *)
Definition gm_holds `{GuestMemory M} (m : M) (a : Z) (bs : list Z) : Prop :=
  forall i b, bs !! i = Some b -> gm_byte m (a + Z.of_nat i) = Some b.

(** Writes as patches of memory. *)
Lemma backed_sub rs a n b k : backed rs a n -> a <= b -> b + k <= a + n -> backed rs b k.
Proof. intros (r & Hr & ? & ?) ? ?. exists r. split; [done|]. lia. Qed.

(** Memory [m'] is [m] with the bytes [bs] at [a]. *)
Definition patched `{GuestMemory M} (m m' : M) (a : Z) (bs : list Z) : Prop :=
  gm_regions m' = gm_regions m /\
  forall x, gm_byte m' x =
    if decide (a <= x < a + Z.of_nat (length bs)) then bs !! Z.to_nat (x - a) else gm_byte m x.

Lemma write_patched `{GuestMemory M} (m : M) a bs :
  backed (gm_regions m) a (Z.of_nat (length bs)) ->
  exists m', gm_write_slice m a bs = Some m' /\ patched m m' a bs.
Proof.
  intros Hb. destruct (gm_write_ok m a bs Hb) as [m' Hw]. exists m'. split; [done|]. split.
  - by eapply gm_write_regions.
  - intros x. by apply gm_write_read.
Qed.

Lemma patched_app `{GuestMemory M} (m m1 m2 : M) a l k :
  patched m m1 a l -> patched m1 m2 (a + Z.of_nat (length l)) k -> patched m m2 a (l ++ k).
Proof.
  intros [Hr1 H1] [Hr2 H2]. split; [congruence|]. intros x. rewrite H2, H1, length_app.
  repeat case_decide; try lia; [| |done].
  - rewrite lookup_app_r by lia. f_equal. lia.
  - rewrite lookup_app_l by lia. done.
Qed.

Lemma patched_holds `{GuestMemory M} (m m' : M) a bs : patched m m' a bs -> gm_holds m' a bs.
Proof.
  intros [_ Hp] i b Hi. rewrite Hp. pose proof (lookup_lt_Some _ _ _ Hi).
  rewrite decide_True by lia. by replace (Z.to_nat (a + Z.of_nat i - a)) with i by lia.
Qed.

(** ** RAM ([memory.rs]) *)

Definition MAX_GUEST_MEM : Z := Z.shiftl 1 40.

Inductive MemoryError := TooLarge (n : Z) | Mmap | RegisterFailed.

Definition guest_ranges (size : Z) : list region :=
  if size >? MMIO_MEM_START then
    [(0, MMIO_MEM_START); (FIRST_ADDR_PAST_32BITS, size - MMIO_MEM_START)]
  else [(0, size)].

Definition create_guest_memory `{GuestMemory M} (size : Z) : result MemoryError M :=
  if size >? MAX_GUEST_MEM then Err (TooLarge size)
  else match gm_from_ranges (guest_ranges size) with
       | Some m => Ok m
       | None => Err Mmap
       end.

(** The KVM memory slots: one per region, numbered in order.  [host_addr] is
    the mapping's address, [set_region] the ioctl on the VM descriptor. *)
Record kvm_userspace_memory_region := {
  slot : Z; mr_flags : Z; guest_phys_addr : Z; memory_size : Z; userspace_addr : Z }.

Definition kvm_regions (host_addr : region -> Z) (rs : list region) : list kvm_userspace_memory_region :=
  imap (fun i r => {| slot := as_u32 (Z.of_nat i); mr_flags := 0; guest_phys_addr := r.1;
                      memory_size := r.2; userspace_addr := host_addr r |}) rs.

Fixpoint set_regions {V} (set_region : V -> kvm_userspace_memory_region -> option V)
    (vm : V) (mrs : list kvm_userspace_memory_region) : result MemoryError V :=
  match mrs with
  | [] => Ok vm
  | mr :: mrs' =>
      match set_region vm mr with
      | Some vm' => set_regions set_region vm' mrs'
      | None => Err RegisterFailed
      end
  end.

Definition register_with_kvm `{GuestMemory M} {V} (set_region : V -> kvm_userspace_memory_region -> option V)
    (host_addr : region -> Z) (vm : V) (m : M) : result MemoryError V :=
  set_regions set_region vm (kvm_regions host_addr (gm_regions m)).

(** ** Initramfs placement ([boot.rs]) *)

Inductive BootError :=
  | InitrdTooLarge
  | WritingInitrd
  | TooManyE820
  | CmdlineInsert
  | LoadingCmdline
  | MptableError (ctx : string)
  | WritingZeroPage.

Record InitrdConfig := { initrd_address : Z; initrd_size : Z }.

Definition load_initrd `{GuestMemory M} (m : M) (data : list Z) (mem_size : Z)
    : result BootError (M * InitrdConfig) :=
  let size := Z.of_nat (length data) in
  let lowmem_end := match gm_find_region m 0 with Some r => r.2 | None => mem_size end in
  if size >? lowmem_end then Err InitrdTooLarge
  else
    let address := Z.land (lowmem_end - size) (bnot 64 0xfff) in
    match gm_write_slice m address data with
    | Some m' => Ok (m', {| initrd_address := address; initrd_size := size |})
    | None => Err WritingInitrd
    end.

(** ** The E820 map and the boot parameters *)

Definition E820_RAM : Z := 1.
Definition E820_RESERVED : Z := 2.
Definition KERNEL_BOOT_FLAG_MAGIC : Z := 0xaa55.
Definition KERNEL_HDR_MAGIC : Z := 0x53726448.
Definition KERNEL_LOADER_OTHER : Z := 0xff.
Definition KERNEL_MIN_ALIGNMENT_BYTES : Z := 0x01000000.

Record e820_entry := { e_addr : Z; e_size : Z; e_type : Z }.

(** The fields of [setup_header] the loader fills; the others keep their
    default, zero. *)
Record setup_header := {
  type_of_loader : Z; boot_flag : Z; header : Z; kernel_alignment : Z;
  cmd_line_ptr : Z; hdr_cmdline_size : Z; ramdisk_image : Z; ramdisk_size : Z }.

#[export] Instance eta_setup_header : Settable setup_header := fun h => Build_setup_header
  (type_of_loader h) (boot_flag h) (header h) (kernel_alignment h) (cmd_line_ptr h)
  (hdr_cmdline_size h) (ramdisk_image h) (ramdisk_size h).

Record boot_params := { hdr : setup_header; e820_entries : Z; e820_table : list e820_entry }.

#[export] Instance eta_boot_params : Settable boot_params := fun p => Build_boot_params
  (hdr p) (e820_entries p) (e820_table p).

Definition add_e820_entry (p : boot_params) (addr size mem_type : Z) : result BootError boot_params :=
  let idx := Z.to_nat (e820_entries p) in
  match e820_table p !! idx with
  | None => Err TooManyE820
  | Some _ =>
      Ok (p <| e820_table := <[idx := {| e_addr := addr; e_size := size; e_type := mem_type |}]>
                (e820_table p) |>
            <| e820_entries := as_u8 (e820_entries p + 1) |>)
  end.

Definition build_e820_map (p : boot_params) (mem_size : Z) : result BootError boot_params :=
  let low_ram_end := Z.min mem_size MMIO_MEM_START in
  p ← add_e820_entry p 0 SYSTEM_MEM_START E820_RAM;
  p ← add_e820_entry p SYSTEM_MEM_START SYSTEM_MEM_SIZE E820_RESERVED;
  p ← add_e820_entry p HIMEM_START (as_u64 (low_ram_end - HIMEM_START)) E820_RAM;
  if mem_size >? MMIO_MEM_START then
    add_e820_entry p FIRST_ADDR_PAST_32BITS (mem_size - MMIO_MEM_START) E820_RAM
  else Ok p.

(** [boot_params::default()] with a header; the table has [cap] slots. *)
Definition boot_params_new (cap : nat) (h : setup_header) : boot_params :=
  {| hdr := h; e820_entries := 0;
     e820_table := replicate cap {| e_addr := 0; e_size := 0; e_type := 0 |} |}.

(** The populated entries. *)
Definition e820_map (p : boot_params) : list e820_entry :=
  take (Z.to_nat (e820_entries p)) (e820_table p).

Definition boot_header (cmdline_size : Z) (initrd : option InitrdConfig) : setup_header :=
  let h := {| type_of_loader := KERNEL_LOADER_OTHER; boot_flag := KERNEL_BOOT_FLAG_MAGIC;
              header := KERNEL_HDR_MAGIC; kernel_alignment := KERNEL_MIN_ALIGNMENT_BYTES;
              cmd_line_ptr := as_u32 CMDLINE_START; hdr_cmdline_size := as_u32 cmdline_size;
              ramdisk_image := 0; ramdisk_size := 0 |} in
  match initrd with
  | Some cfg => h <| ramdisk_image := as_u32 (initrd_address cfg) |>
                  <| ramdisk_size := as_u32 (initrd_size cfg) |>
  | None => h
  end.

(** [configure_system].  The kernel-loader crate is a parameter:
    [cmdline_bytes] validates the command line and appends its NUL,
    [load_cmdline] and [write_bootparams] place their argument, and
    [setup_mptable] is the MP-table writer. *)
Definition configure_system {M} (cap : nat) (cmdline_bytes : string -> option (list Z))
    (load_cmdline : M -> Z -> list Z -> option M)
    (setup_mptable : M -> Z -> result string M)
    (write_bootparams : M -> Z -> boot_params -> option M)
    (m : M) (cmdline : string) (initrd : option InitrdConfig) (mem_size num_cpus : Z)
    : result BootError M :=
  match cmdline_bytes cmdline with
  | None => Err CmdlineInsert
  | Some bs =>
      match load_cmdline m CMDLINE_START bs with
      | None => Err LoadingCmdline
      | Some m1 =>
          match setup_mptable m1 num_cpus with
          | Err ctx => Err (MptableError ctx)
          | Ok m2 =>
              p ← build_e820_map (boot_params_new cap (boot_header (Z.of_nat (length bs)) initrd)) mem_size;
              match write_bootparams m2 ZERO_PAGE_START p with
              | Some m3 => Ok m3
              | None => Err WritingZeroPage
              end
          end
      end
  end.

(** An address the map gives to the guest as RAM. *)
Definition e820_ram (es : list e820_entry) (x : Z) : Prop :=
  Exists (fun e => e_type e = E820_RAM /\ e_addr e <= x < e_addr e + e_size e) es.

(** ** A concrete memory *)

Record ToyMem := { toy_regions : list region; toy_bytes : gmap Z Z }.

Definition toy_in (x : Z) (r : region) : bool := (r.1 <=? x) && (x <? r.1 + r.2).

Definition toy_backed (rs : list region) (a n : Z) : bool :=
  existsb (fun r => (r.1 <=? a) && (a + n <=? r.1 + r.2)) rs.

Fixpoint put_bytes (a : Z) (bs : list Z) (b : gmap Z Z) : gmap Z Z :=
  match bs with
  | [] => b
  | x :: bs' => <[a := x]> (put_bytes (a + 1) bs' b)
  end.

Lemma put_bytes_lookup a bs b x :
  put_bytes a bs b !! x =
    if decide (a <= x < a + Z.of_nat (length bs)) then bs !! Z.to_nat (x - a) else b !! x.
Proof.
  revert a. induction bs as [|y bs IH]; intros a; simpl.
  { case_decide; [lia|done]. }
  destruct (decide (x = a)) as [->|Hne].
  - rewrite lookup_insert_eq, decide_True by lia. by rewrite Z.sub_diag.
  - rewrite lookup_insert_ne, IH by done. repeat case_decide; try lia; [|done].
    replace (Z.to_nat (x - a)) with (S (Z.to_nat (x - (a + 1)))) by lia. done.
Qed.

#[export] Program Instance toy_memory : GuestMemory ToyMem := {|
  gm_from_ranges rs := Some {| toy_regions := rs; toy_bytes := ∅ |};
  gm_regions := toy_regions;
  gm_find_region m a := List.find (toy_in a) (toy_regions m);
  gm_write_slice m a bs :=
    if toy_backed (toy_regions m) a (Z.of_nat (length bs))
    then Some {| toy_regions := toy_regions m; toy_bytes := put_bytes a bs (toy_bytes m) |}
    else None;
  gm_byte m x := toy_bytes m !! x;
|}.
Next Obligation. by intros rs m [= <-]. Qed.
Next Obligation.
  intros m a r [Hin Ht]%List.find_some. unfold toy_in, in_region in *. bool_prop.
  split; [by apply list_elem_of_In|lia].
Qed.
Next Obligation.
  intros m a Hn r Hr%list_elem_of_In Hc. pose proof (List.find_none _ _ Hn r Hr) as Hf.
  unfold toy_in, in_region in *. bool_prop. destruct Hf; bool_prop; lia.
Qed.
Next Obligation.
  intros m a bs (r & Hr & ? & ?). assert (toy_backed (toy_regions m) a (Z.of_nat (length bs)) = true) as ->; [|done].
  unfold toy_backed. apply existsb_exists. exists r. split; [by apply list_elem_of_In|].
  apply andb_true_intro. split; apply Z.leb_le; lia.
Qed.
Next Obligation. intros m a bs m' Hw. simpl in Hw. by destruct (toy_backed _ _ _); simplify_eq/=. Qed.
Next Obligation.
  intros m a bs m' x Hw. simpl in Hw. destruct (toy_backed _ _ _); simplify_eq/=. apply put_bytes_lookup.
Qed.

(** ** Lemmas *)

Lemma align_down x : fits 64 x -> Z.land x (bnot 64 0xfff) = x / 4096 * 4096.
Proof.
  intros Hx. change 4096 with (2 ^ 12).
  rewrite <- Z.shiftr_div_pow2, <- Z.shiftl_mul_pow2 by lia.
  apply Z.bits_inj'. intros i Hi. unfold bnot. rewrite Z.land_spec, Z.lxor_spec, Z.shiftl_spec by done.
  change 0xfff with (Z.ones 12). destruct (decide (i < 12)).
  - rewrite !Z.ones_spec_low by lia. rewrite (Z.testbit_neg_r _ (i - 12)) by lia. apply andb_false_r.
  - rewrite Z.shiftr_spec by lia. replace (i - 12 + 12) with i by lia.
    rewrite (Z.ones_spec_high 12 i) by lia. destruct (decide (i < 64)).
    + rewrite Z.ones_spec_low by lia. apply andb_true_r.
    + by rewrite (testbit_high 64 x i) by (done || lia).
Qed.

Lemma create_guest_memory_inv `{GuestMemory M} size (m : M) :
  create_guest_memory size = Ok m -> size <= MAX_GUEST_MEM /\ gm_regions m = guest_ranges size.
Proof.
  unfold create_guest_memory. destruct (size >? MAX_GUEST_MEM) eqn:E; [done|].
  destruct (gm_from_ranges _) as [m'|] eqn:Er; [|done]. intros [= <-]. bool_prop.
  split; [lia|]. by apply gm_from_ranges_law.
Qed.

Lemma low_region `{GuestMemory M} size (m : M) :
  0 < size -> create_guest_memory size = Ok m ->
  gm_find_region m 0 = Some (0, Z.min size MMIO_MEM_START).
Proof.
  intros Hs [_ Hr]%create_guest_memory_inv. unfold guest_ranges in Hr.
  destruct (gm_find_region m 0) as [r|] eqn:E.
  - apply gm_find_region_law in E as [Hin Hc]. rewrite Hr in Hin.
    destruct (size >? MMIO_MEM_START) eqn:Es; bool_prop.
    + rewrite Z.min_r by lia. apply elem_of_cons in Hin as [->|Hin]; [done|].
      apply list_elem_of_singleton in Hin as ->. unfold in_region, FIRST_ADDR_PAST_32BITS in Hc.
      cbn [fst snd] in Hc. lia.
    + rewrite Z.min_l by lia. by apply list_elem_of_singleton in Hin as ->.
  - exfalso. assert (exists r, r ∈ gm_regions m /\ in_region 0 r) as (r & Hin & Hc).
    { rewrite Hr. unfold in_region, MMIO_MEM_START.
      destruct (size >? _); (eexists; split; [by left|]); cbn [fst snd]; lia. }
    by apply (gm_find_region_none m 0 E r).
Qed.

Lemma add_e820_entry_ok p addr size ty :
  0 <= e820_entries p -> (Z.to_nat (e820_entries p) < length (e820_table p))%nat ->
  e820_entries p + 1 < 256 ->
  exists p', add_e820_entry p addr size ty = Ok p'
  /\ e820_map p' = e820_map p ++ [{| e_addr := addr; e_size := size; e_type := ty |}]
  /\ e820_entries p' = e820_entries p + 1 /\ length (e820_table p') = length (e820_table p)
  /\ hdr p' = hdr p.
Proof.
  intros H0 Hl Hu. unfold add_e820_entry.
  destruct (lookup_lt_is_Some_2 _ _ Hl) as [x ->]. eexists; split; [done|].
  unfold e820_map. simpl. rewrite as_u8_id by (unfold fits; lia). rewrite length_insert.
  split_and!; try done.
  replace (Z.to_nat (e820_entries p + 1)) with (S (Z.to_nat (e820_entries p))) by lia.
  rewrite (take_S_r _ _ {| e_addr := addr; e_size := size; e_type := ty |}).
  - f_equal. by rewrite take_insert_ge by lia.
  - by apply list_lookup_insert_eq.
Qed.

(** The map as a list: what the four calls produce. *)
Definition e820_layout (mem_size : Z) : list e820_entry :=
  let low_ram_end := Z.min mem_size MMIO_MEM_START in
  [ {| e_addr := 0; e_size := SYSTEM_MEM_START; e_type := E820_RAM |};
    {| e_addr := SYSTEM_MEM_START; e_size := SYSTEM_MEM_SIZE; e_type := E820_RESERVED |};
    {| e_addr := HIMEM_START; e_size := low_ram_end - HIMEM_START; e_type := E820_RAM |} ]
  ++ (if mem_size >? MMIO_MEM_START then
        [{| e_addr := FIRST_ADDR_PAST_32BITS; e_size := mem_size - MMIO_MEM_START; e_type := E820_RAM |}]
      else []).

Lemma build_e820_map_ok cap h mem_size :
  (4 <= cap)%nat -> HIMEM_START <= mem_size ->
  exists p, build_e820_map (boot_params_new cap h) mem_size = Ok p
  /\ e820_map p = e820_layout mem_size /\ hdr p = h.
Proof.
  intros Hcap Hm. unfold build_e820_map. cbv zeta.
  assert (as_u64 (Z.min mem_size MMIO_MEM_START - HIMEM_START) = Z.min mem_size MMIO_MEM_START - HIMEM_START) as ->.
  { apply as_u64_id. unfold fits, HIMEM_START, MMIO_MEM_START in *. lia. }
  destruct (add_e820_entry_ok (boot_params_new cap h) 0 SYSTEM_MEM_START E820_RAM)
    as (p1 & -> & Hm1 & He1 & Hl1 & Hh1); simpl; try rewrite length_replicate; try lia.
  destruct (add_e820_entry_ok p1 SYSTEM_MEM_START SYSTEM_MEM_SIZE E820_RESERVED)
    as (p2 & -> & Hm2 & He2 & Hl2 & Hh2); rewrite ?He1, ?Hl1; simpl; try rewrite length_replicate; try lia.
  destruct (add_e820_entry_ok p2 HIMEM_START (Z.min mem_size MMIO_MEM_START - HIMEM_START) E820_RAM)
    as (p3 & -> & Hm3 & He3 & Hl3 & Hh3);
    rewrite ?He2, ?He1, ?Hl2, ?Hl1; simpl; try rewrite length_replicate; try lia.
  unfold e820_layout. destruct (mem_size >? MMIO_MEM_START).
  - destruct (add_e820_entry_ok p3 FIRST_ADDR_PAST_32BITS (mem_size - MMIO_MEM_START) E820_RAM)
      as (p4 & -> & Hm4 & He4 & Hl4 & Hh4);
      rewrite ?He3, ?He2, ?He1, ?Hl3, ?Hl2, ?Hl1; simpl; try rewrite length_replicate; try lia.
    eexists; split; [done|]. split; [by rewrite Hm4, Hm3, Hm2, Hm1|by rewrite Hh4, Hh3, Hh2, Hh1].
  - eexists; split; [done|]. split; [by rewrite Hm3, Hm2, Hm1|by rewrite Hh3, Hh2, Hh1].
Qed.

Lemma layout_ram mem_size x :
  HIMEM_START <= mem_size ->
  e820_ram (e820_layout mem_size) x <->
  Exists (in_region x) (guest_ranges mem_size) /\ ~ SYSTEM_MEM_START <= x < HIMEM_START.
Proof.
  intros Hm. unfold e820_ram, e820_layout, guest_ranges. cbv zeta.
  destruct (mem_size >? MMIO_MEM_START) eqn:E; bool_prop; cbn [app];
    rewrite !Exists_cons, !Exists_nil; unfold in_region, E820_RAM, E820_RESERVED;
    cbn [e_addr e_size e_type fst snd];
    unfold HIMEM_START, SYSTEM_MEM_START, MMIO_MEM_START, FIRST_ADDR_PAST_32BITS in *; lia.
Qed.

(** ** Properties *)

(** The E820 map tells the truth: for any guest of at least 1 MiB the
    map builds, and an address is described as RAM exactly when guest memory
    backs it and it is outside the reserved system area; in particular nothing
    in the 32-bit MMIO gap is RAM. *)
Theorem e820_describes_backed_ram `{GuestMemory M} cap h mem_size (m : M) :
  (4 <= cap)%nat -> HIMEM_START <= mem_size -> create_guest_memory mem_size = Ok m ->
  exists p, build_e820_map (boot_params_new cap h) mem_size = Ok p
  /\ forall x, e820_ram (e820_map p) x <->
       Exists (in_region x) (gm_regions m) /\ ~ SYSTEM_MEM_START <= x < HIMEM_START.
Proof.
  intros Hcap Hm Hc. destruct (build_e820_map_ok cap h mem_size Hcap Hm) as (p & Hb & Hmap & _).
  exists p. split; [done|]. intros x. rewrite Hmap.
  apply create_guest_memory_inv in Hc as [_ Hr]. rewrite Hr. by apply layout_ram.
Qed.

Lemma e820_describes_backed_ram_witness :
  exists p, build_e820_map (boot_params_new 128 (boot_header 12 None)) (6 * 2 ^ 30) = Ok p
  /\ e820_ram (e820_map p) (5 * 2 ^ 30).
Proof.
  destruct (e820_describes_backed_ram 128 (boot_header 12 None) (6 * 2 ^ 30)
    {| toy_regions := guest_ranges (6 * 2 ^ 30); toy_bytes := ∅ |}) as (p & Hp & Hx).
  - lia.
  - unfold HIMEM_START; lia.
  - by vm_compute.
  - exists p. split; [exact Hp|]. apply Hx. split; [|unfold SYSTEM_MEM_START, HIMEM_START; lia].
    apply Exists_cons_tl, Exists_cons_hd. by vm_compute.
Defined.

(** The initramfs is placed where the 32-bit boot header can name it: on
    any guest, an image that fits in low RAM is written, page aligned, wholly
    below the MMIO gap and within a page of its top, with every byte readable
    back at its place; a larger one is refused. *)
Theorem load_initrd_places `{GuestMemory M} size (m : M) data :
  0 < size -> create_guest_memory size = Ok m ->
  let low := Z.min size MMIO_MEM_START in
  let n := Z.of_nat (length data) in
  if decide (n <= low) then
    exists m' cfg, load_initrd m data size = Ok (m', cfg)
    /\ initrd_size cfg = n /\ initrd_address cfg mod 4096 = 0
    /\ low - 4096 < initrd_address cfg + n <= low
    /\ as_u32 (initrd_address cfg) = initrd_address cfg
    /\ (forall i b, data !! i = Some b -> gm_byte m' (initrd_address cfg + Z.of_nat i) = Some b)
  else load_initrd m data size = Err InitrdTooLarge.
Proof.
  intros Hs Hc low n. pose proof (low_region size m Hs Hc) as Hlow.
  unfold load_initrd. rewrite Hlow. cbn [snd]. fold low. fold n. case_decide as Hn.
  2: { destruct (n >? low) eqn:E; [done|]. bool_prop. lia. }
  destruct (n >? low) eqn:E; bool_prop; [lia|].
  assert (0 <= n) by lia. assert (low <= 3221225472) by (unfold low, MMIO_MEM_START; lia).
  rewrite align_down by (unfold fits; lia). set (a := (low - n) / 4096 * 4096).
  assert (Ha : 0 <= a /\ low - n - 4096 < a <= low - n) by (unfold a; Z.div_mod_to_equations; lia).
  destruct (gm_write_ok m a data) as [m' Hw].
  { exists (0, low). split; [by apply gm_find_region_law in Hlow as [? _]|]. simpl. lia. }
  rewrite Hw. exists m'. eexists. split; [reflexivity|]. cbn [initrd_size initrd_address].
  split_and!; try done; try lia.
  - unfold a. by rewrite Z.mod_mul.
  - apply as_u32_id. unfold fits. lia.
  - intros i b Hi. rewrite (gm_write_read _ _ _ _ _ Hw). pose proof (lookup_lt_Some _ _ _ Hi).
    rewrite decide_True by lia. by replace (Z.to_nat (a + Z.of_nat i - a)) with i by lia.
Qed.

Lemma load_initrd_places_witness :
  exists m' cfg, load_initrd {| toy_regions := guest_ranges (2 ^ 20); toy_bytes := ∅ |} [7; 8; 9] (2 ^ 20)
    = Ok (m', cfg) /\ initrd_address cfg mod 4096 = 0.
Proof.
  destruct (load_initrd_places (2 ^ 20) {| toy_regions := guest_ranges (2 ^ 20); toy_bytes := ∅ |} [7; 8; 9])
    as (m' & cfg & H1 & _ & H2 & _); [lia | by vm_compute |].
  exists m', cfg. split; [exact H1|exact H2].
Defined.
