(* ===== verification/Mptable.v ===== *)
(** * The MP table ([src/src/mptable.rs])

    The Intel MP structures with their in-memory bytes, the ISA-IRQ to IO-APIC
    pin map, and the writer: a sequence of object writes from the EBDA up, the
    configuration header last.  The main property is that the writer leaves in
    guest memory exactly the specified image, whose two checksums are zero and
    whose header gives its own length and entry count. *)

From Stdlib Require Import ZArith Lia.
From stdpp Require Import base numbers strings gmap list.
From S2P Require Import Prelude.
From S2P Require Import Arch.
From S2P Require Import Memory.

Open Scope Z_scope.

Definition GSI_LEGACY_END : Z := 23.
Definition MP_PROCESSOR : Z := 0.
Definition MP_BUS : Z := 1.
Definition MP_IOAPIC : Z := 2.
Definition MP_INTSRC : Z := 3.
Definition MP_LINTSRC : Z := 4.
Definition CPU_ENABLED : Z := 1.
Definition CPU_BOOTPROCESSOR : Z := 2.
Definition MPC_APIC_USABLE : Z := 1.
Definition MP_IRQ_SOURCE_INT : Z := 0.
Definition MP_IRQ_SOURCE_NMI : Z := 1.
Definition MP_IRQ_SOURCE_EXTINT : Z := 3.
Definition APIC_VERSION : Z := 0x14.
Definition CPU_STEPPING : Z := 0x600.
Definition CPU_FEATURE_APIC : Z := 0x200.
Definition CPU_FEATURE_FPU : Z := 0x001.
Definition IO_APIC_DEFAULT_PHYS_BASE : Z := 0xfec00000.
Definition APIC_DEFAULT_PHYS_BASE : Z := 0xfee00000.

(** ASCII literals of the source: "_MP_", "PCMP", "ISA   ", "FC      ",
    "000000000000". *)
Definition b_MP : list Z := [0x5f; 0x4d; 0x50; 0x5f].
Definition b_PCMP : list Z := [0x50; 0x43; 0x4d; 0x50].
Definition b_ISA : list Z := [0x49; 0x53; 0x41; 0x20; 0x20; 0x20].
Definition b_OEM : list Z := [0x46; 0x43; 0x20; 0x20; 0x20; 0x20; 0x20; 0x20].
Definition b_PRODUCT : list Z := replicate 12 0x30.

(** ** The structures and their [repr(C)] bytes *)

Record MpfIntel := { mpf_physptr : Z; mpf_length : Z; mpf_specification : Z; mpf_checksum : Z }.

Definition MpfIntel_bytes (s : MpfIntel) : list Z :=
  b_MP ++ le_bytes 4 (mpf_physptr s) ++
  [mpf_length s; mpf_specification s; mpf_checksum s; 0; 0; 0; 0; 0].

Record MpcTable := { tbl_length : Z; tbl_spec : Z; tbl_checksum : Z; tbl_oemcount : Z; tbl_lapic : Z }.

Definition MpcTable_bytes (s : MpcTable) : list Z :=
  b_PCMP ++ le_bytes 2 (tbl_length s) ++ [tbl_spec s; tbl_checksum s] ++ b_OEM ++ b_PRODUCT ++
  le_bytes 4 0 ++ le_bytes 2 0 ++ le_bytes 2 (tbl_oemcount s) ++ le_bytes 4 (tbl_lapic s) ++ le_bytes 4 0.

Record MpcCpu := {
  cpu_apicid : Z; cpu_apicver : Z; cpu_cpuflag : Z; cpu_cpufeature : Z; cpu_featureflag : Z }.

Definition MpcCpu_bytes (s : MpcCpu) : list Z :=
  [MP_PROCESSOR; cpu_apicid s; cpu_apicver s; cpu_cpuflag s] ++ le_bytes 4 (cpu_cpufeature s) ++
  le_bytes 4 (cpu_featureflag s) ++ le_bytes 4 0 ++ le_bytes 4 0.

Definition MpcBus_bytes (busid : Z) (bustype : list Z) : list Z := [MP_BUS; busid] ++ bustype.

Record MpcIoapic := { io_apicid : Z; io_apicver : Z; io_flags : Z; io_apicaddr : Z }.

Definition MpcIoapic_bytes (s : MpcIoapic) : list Z :=
  [MP_IOAPIC; io_apicid s; io_apicver s; io_flags s] ++ le_bytes 4 (io_apicaddr s).

Record MpcIntsrc := {
  is_irqtype : Z; is_irqflag : Z; is_srcbus : Z; is_srcbusirq : Z; is_dstapic : Z; is_dstirq : Z }.

Definition MpcIntsrc_bytes (s : MpcIntsrc) : list Z :=
  [MP_INTSRC; is_irqtype s] ++ le_bytes 2 (is_irqflag s) ++
  [is_srcbus s; is_srcbusirq s; is_dstapic s; is_dstirq s].

Record MpcLintsrc := { ls_irqtype : Z; ls_irqflag : Z; ls_destapic : Z; ls_destapiclint : Z }.

Definition MpcLintsrc_bytes (s : MpcLintsrc) : list Z :=
  [MP_LINTSRC; ls_irqtype s] ++ le_bytes 2 (ls_irqflag s) ++
  [0; 0; ls_destapic s; ls_destapiclint s].

(** [v.as_slice().iter().fold(0u8, |a, &b| a.wrapping_add(b))]. *)
Definition checksum (bs : list Z) : Z := foldl (fun a b => as_u8 (a + b)) 0 bs.

(** [size_of] of the structures. *)
Definition SIZE_MPF : Z := 16.
Definition SIZE_TABLE : Z := 44.
Definition SIZE_CPU : Z := 20.
Definition SIZE_BUS : Z := 8.
Definition SIZE_IOAPIC : Z := 8.
Definition SIZE_INTSRC : Z := 8.
Definition SIZE_LINTSRC : Z := 8.

Definition mp_size (num_cpus : Z) : Z :=
  SIZE_MPF + SIZE_TABLE + SIZE_CPU * num_cpus + SIZE_IOAPIC + SIZE_BUS
  + SIZE_INTSRC * (GSI_LEGACY_END + 1) + SIZE_LINTSRC * 2.

Definition isa_irq_to_ioapic_pin (irq : Z) : Z :=
  if irq =? 0 then 2 else if irq =? 2 then 0 else irq.

(** ** The writer *)

(** The loop-carried variables: memory, write cursor, running checksum, and
    entry count. *)
Record MpState (M : Type) := { mp_mem : M; mp_base : Z; mp_sum : Z; mp_entries : Z }.
Arguments mp_mem {M}.
Arguments mp_base {M}.
Arguments mp_sum {M}.
Arguments mp_entries {M}.
Arguments Build_MpState {M}.

(** [mem.write_obj(obj, base)], then the checksum, cursor and count updates. *)
Definition emit `{GuestMemory M} (ctx : string) (st : MpState M) (obj : list Z)
    : result string (MpState M) :=
  match gm_write_slice (mp_mem st) (mp_base st) obj with
  | None => Err ctx
  | Some m' => Ok {| mp_mem := m'; mp_base := mp_base st + Z.of_nat (length obj);
                     mp_sum := as_u8 (mp_sum st + checksum obj);
                     mp_entries := as_u16 (mp_entries st + 1) |}
  end.

Fixpoint emit_all `{GuestMemory M} (ctx : string) (st : MpState M) (objs : list (list Z))
    : result string (MpState M) :=
  match objs with
  | [] => Ok st
  | o :: objs' => st' ← emit ctx st o; emit_all ctx st' objs'
  end.

Definition cpu_entry (cpu_id : Z) : list Z := MpcCpu_bytes {|
  cpu_apicid := cpu_id; cpu_apicver := APIC_VERSION;
  cpu_cpuflag := Z.lor CPU_ENABLED (if cpu_id =? 0 then CPU_BOOTPROCESSOR else 0);
  cpu_cpufeature := CPU_STEPPING; cpu_featureflag := Z.lor CPU_FEATURE_APIC CPU_FEATURE_FPU |}.

Definition ioapic_entry (ioapicid : Z) : list Z := MpcIoapic_bytes {|
  io_apicid := ioapicid; io_apicver := APIC_VERSION; io_flags := MPC_APIC_USABLE;
  io_apicaddr := IO_APIC_DEFAULT_PHYS_BASE |}.

Definition intsrc_entry (ioapicid i : Z) : list Z := MpcIntsrc_bytes {|
  is_irqtype := MP_IRQ_SOURCE_INT; is_irqflag := 0; is_srcbus := 0; is_srcbusirq := i;
  is_dstapic := ioapicid; is_dstirq := isa_irq_to_ioapic_pin i |}.

Definition lintsrc_entry (irqtype destapic destlint : Z) : list Z := MpcLintsrc_bytes {|
  ls_irqtype := irqtype; ls_irqflag := 0; ls_destapic := destapic; ls_destapiclint := destlint |}.

(** The floating pointer, its checksum filled in so the structure sums to 0:
    [(!checksum(&mpf).wrapping_sub(mpf.checksum)).wrapping_add(1)]. *)
Definition mpf_object (base : Z) : list Z :=
  let mpf := {| mpf_physptr := as_u32 (base + SIZE_MPF); mpf_length := 1; mpf_specification := 4;
                mpf_checksum := 0 |} in
  let c := as_u8 (checksum (MpfIntel_bytes mpf) - mpf_checksum mpf) in
  MpfIntel_bytes {| mpf_physptr := mpf_physptr mpf; mpf_length := mpf_length mpf;
                    mpf_specification := mpf_specification mpf;
                    mpf_checksum := as_u8 (bnot 8 c + 1) |}.

(** The configuration header, given the sum of the entries. *)
Definition table_object (len entries sum : Z) : list Z :=
  let table c := {| tbl_length := len; tbl_spec := 4; tbl_checksum := c; tbl_oemcount := entries;
                    tbl_lapic := APIC_DEFAULT_PHYS_BASE |} in
  let s := as_u8 (sum + checksum (MpcTable_bytes (table 0))) in
  MpcTable_bytes (table (as_u8 (bnot 8 s + 1))).

Definition setup_mptable `{GuestMemory M} (m : M) (num_cpus : Z) : result string M :=
  let total := mp_size num_cpus in
  let base := SYSTEM_MEM_START in
  match gm_write_slice m base (replicate (Z.to_nat total) 0) with
  | None => Err "clear"%string
  | Some m =>
      let ioapicid := as_u8 (num_cpus + 1) in
      match gm_write_slice m base (mpf_object base) with
      | None => Err "mpf"%string
      | Some m =>
          let table_base := base + SIZE_MPF in
          let st := {| mp_mem := m; mp_base := table_base + SIZE_TABLE; mp_sum := 0; mp_entries := 0 |} in
          st ← emit_all "cpu" st (cpu_entry <$> seqZ 0 num_cpus);
          st ← emit "bus" st (MpcBus_bytes 0 b_ISA);
          st ← emit "ioapic" st (ioapic_entry ioapicid);
          st ← emit_all "intsrc" st (intsrc_entry ioapicid <$> seqZ 0 (GSI_LEGACY_END + 1));
          st ← emit_all "lintsrc" st [lintsrc_entry MP_IRQ_SOURCE_EXTINT 0 0;
                                      lintsrc_entry MP_IRQ_SOURCE_NMI 0xff 1];
          let table_len := as_u16 (mp_base st - table_base) in
          match gm_write_slice (mp_mem st) table_base (table_object table_len (mp_entries st) (mp_sum st)) with
          | None => Err "table"%string
          | Some m => Ok m
          end
      end
  end.

(** ** The specified image *)

Definition mp_objects (n : Z) : list (list Z) :=
  (cpu_entry <$> seqZ 0 n) ++ [MpcBus_bytes 0 b_ISA] ++ [ioapic_entry (as_u8 (n + 1))]
  ++ (intsrc_entry (as_u8 (n + 1)) <$> seqZ 0 (GSI_LEGACY_END + 1))
  ++ [lintsrc_entry MP_IRQ_SOURCE_EXTINT 0 0; lintsrc_entry MP_IRQ_SOURCE_NMI 0xff 1].

Definition mp_entry_bytes (n : Z) : list Z := concat (mp_objects n).

Definition mp_config (n : Z) : list Z :=
  table_object (as_u16 (SIZE_TABLE + Z.of_nat (length (mp_entry_bytes n))))
    (as_u16 (Z.of_nat (length (mp_objects n)))) (checksum (mp_entry_bytes n))
  ++ mp_entry_bytes n.


(** ** Lemmas on checksums *)

Lemma checksum_acc bs a : fits 8 a -> foldl (fun a b => as_u8 (a + b)) a bs = as_u8 (a + sumZ bs).
Proof.
  revert a. induction bs as [|b bs IH]; intros a Ha; simpl.
  - rewrite Z.add_0_r. by rewrite as_u8_id.
  - rewrite IH by apply as_u8_fits. unfold as_u8, wrap. rewrite Zplus_mod_idemp_l.
    f_equal. unfold sumZ. simpl. lia.
Qed.

Lemma checksum_sum bs : checksum bs = as_u8 (sumZ bs).
Proof. unfold checksum. rewrite checksum_acc by (unfold fits; lia). f_equal. Qed.

Lemma checksum_fits bs : fits 8 (checksum bs).
Proof. rewrite checksum_sum. apply as_u8_fits. Qed.

Lemma checksum_app a b : checksum (a ++ b) = as_u8 (checksum a + checksum b).
Proof.
  rewrite !checksum_sum, sumZ_app. unfold as_u8, wrap. apply Z.add_mod. lia.
Qed.

Lemma neg_u8 c : fits 8 c -> as_u8 (bnot 8 c + 1) = as_u8 (- c).
Proof.
  intros Hc. assert (Forall (fun c => as_u8 (bnot 8 c + 1) = as_u8 (- c)) (seqZ 0 256)) as H.
  { apply (bool_decide_unpack _). by vm_compute. }
  rewrite Forall_forall in H. apply H. rewrite elem_of_seqZ. unfold fits in Hc. lia.
Qed.

(** Filling a zero byte with the two's complement of the rest makes the sum zero. *)
Lemma sum_cancel r c : c = as_u8 (- as_u8 r) -> as_u8 (r + c) = 0.
Proof.
  intros ->. unfold as_u8, wrap. change (2 ^ 8) with 256. rewrite Zplus_mod_idemp_r.
  Z.div_mod_to_equations. lia.
Qed.

Lemma table_sum len entries c :
  sumZ (MpcTable_bytes {| tbl_length := len; tbl_spec := 4; tbl_checksum := c; tbl_oemcount := entries;
                          tbl_lapic := APIC_DEFAULT_PHYS_BASE |}) =
  sumZ (MpcTable_bytes {| tbl_length := len; tbl_spec := 4; tbl_checksum := 0; tbl_oemcount := entries;
                          tbl_lapic := APIC_DEFAULT_PHYS_BASE |}) + c.
Proof. unfold MpcTable_bytes. rewrite !sumZ_app. unfold sumZ. simpl. lia. Qed.

Lemma table_object_checksum len entries sum rest :
  checksum rest = sum -> checksum (table_object len entries sum ++ rest) = 0.
Proof.
  intros Hr. unfold table_object. cbv zeta. rewrite neg_u8 by apply as_u8_fits.
  rewrite checksum_app, Hr, !checksum_sum, table_sum.
  set (t := sumZ (MpcTable_bytes _)). set (c := as_u8 (- _)).
  unfold as_u8 at 1 2, wrap. rewrite Zplus_mod_idemp_l.
  replace (t + c + sum) with (sum + t + c) by lia. apply sum_cancel. unfold c. f_equal. f_equal.
  unfold as_u8, wrap. by rewrite Zplus_mod_idemp_r.
Qed.

Lemma mpf_object_checksum : checksum (mpf_object SYSTEM_MEM_START) = 0.
Proof. by vm_compute. Qed.

(** ** Lemmas on the writer *)

Definition mp_wf {M} (st : MpState M) : Prop := fits 8 (mp_sum st) /\ fits 16 (mp_entries st).

Lemma emit_all_ok `{GuestMemory M} ctx objs : forall st : MpState M,
  mp_wf st ->
  backed (gm_regions (mp_mem st)) (mp_base st) (Z.of_nat (length (concat objs))) ->
  exists st', emit_all ctx st objs = Ok st' /\ mp_wf st'
  /\ mp_base st' = mp_base st + Z.of_nat (length (concat objs))
  /\ mp_sum st' = as_u8 (mp_sum st + checksum (concat objs))
  /\ mp_entries st' = as_u16 (mp_entries st + Z.of_nat (length objs))
  /\ patched (mp_mem st) (mp_mem st') (mp_base st) (concat objs).
Proof.
  induction objs as [|o objs IH]; intros st [Hs He] Hb; simpl.
  { exists st. split_and!; try done; try lia.
    - change (checksum []) with 0. by rewrite Z.add_0_r, as_u8_id.
    - change (Z.of_nat 0) with 0. by rewrite Z.add_0_r, as_u16_id.
    - split; [done|]. intros x. case_decide; [simpl in *; lia|done]. }
  simpl in Hb. rewrite length_app in Hb. unfold emit.
  destruct (write_patched (mp_mem st) (mp_base st) o) as (m1 & -> & Hp1).
  { eapply backed_sub; [exact Hb|lia|lia]. }
  simpl. destruct (IH {| mp_mem := m1; mp_base := mp_base st + Z.of_nat (length o);
    mp_sum := as_u8 (mp_sum st + checksum o); mp_entries := as_u16 (mp_entries st + 1) |})
    as (st' & -> & Hwf & Hbase & Hsum & Hent & Hp2); simpl in *.
  { split; [apply as_u8_fits|apply as_u16_fits]. }
  { rewrite (proj1 Hp1). eapply backed_sub; [exact Hb|lia|lia]. }
  exists st'. split_and!; try done.
  - rewrite Hbase, length_app. lia.
  - rewrite Hsum, checksum_app. unfold as_u8, wrap. rewrite Zplus_mod_idemp_l, Zplus_mod_idemp_r.
    f_equal. lia.
  - rewrite Hent. unfold as_u16, wrap. rewrite Zplus_mod_idemp_l. f_equal. lia.
  - by eapply patched_app.
Qed.

Lemma emit_as_all `{GuestMemory M} ctx (st : MpState M) o : emit ctx st o = emit_all ctx st [o].
Proof. simpl. by destruct (emit ctx st o). Qed.

Lemma concat_length_const (objs : list (list Z)) n :
  Forall (fun o => length o = n) objs -> length (concat objs) = (length objs * n)%nat.
Proof. induction 1 as [|o objs Ho _ IH]; simpl; [done|]. rewrite length_app, Ho, IH. done. Qed.

Lemma mp_entry_bytes_length n : 0 <= n ->
  Z.of_nat (length (mp_entry_bytes n)) = mp_size n - SIZE_MPF - SIZE_TABLE
  /\ Z.of_nat (length (mp_objects n)) = n + 28.
Proof.
  intros Hn. unfold mp_entry_bytes, mp_objects. rewrite !concat_app, !length_app.
  rewrite (concat_length_const (cpu_entry <$> seqZ 0 n) 20), length_fmap, length_seqZ.
  2: { apply Forall_fmap, Forall_true. intros x. reflexivity. }
  rewrite (concat_length_const (intsrc_entry _ <$> _) 8), length_fmap, length_seqZ.
  2: { apply Forall_fmap, Forall_true. intros x. reflexivity. }
  unfold mp_size, SIZE_MPF, SIZE_TABLE, SIZE_CPU, SIZE_IOAPIC, SIZE_BUS, SIZE_INTSRC, SIZE_LINTSRC,
    GSI_LEGACY_END. simpl. lia.
Qed.

(** Success does not depend on the error label, and sequences compose. *)
Lemma emit_all_ctx `{GuestMemory M} c1 c2 objs : forall st st' : MpState M,
  emit_all c1 st objs = Ok st' -> emit_all c2 st objs = Ok st'.
Proof.
  induction objs as [|o objs IH]; intros st st'; simpl; [done|]. unfold emit.
  destruct (gm_write_slice _ _ _); simpl; [apply IH|done].
Qed.

Lemma emit_all_app `{GuestMemory M} c a b : forall st : MpState M,
  emit_all c st (a ++ b) = (st1 ← emit_all c st a; emit_all c st1 b).
Proof.
  induction a as [|o a IH]; intros st; simpl; [done|]. destruct (emit c st o); simpl; [apply IH|done].
Qed.

Lemma emit_all_app_inv `{GuestMemory M} c c' a b (st st' : MpState M) :
  emit_all c st (a ++ b) = Ok st' ->
  exists st1, emit_all c' st a = Ok st1 /\ emit_all c st1 b = Ok st'.
Proof.
  rewrite emit_all_app. destruct (emit_all c st a) as [st1|] eqn:E; [|done]. simpl. intros Hb.
  exists st1. split; [by eapply emit_all_ctx|done].
Qed.

(** The five groups of entries are one sequence. *)
Lemma emit_groups `{GuestMemory M} {B} (st st' : MpState M) n (k : MpState M -> result string B) :
  emit_all "cpu" st (mp_objects n) = Ok st' ->
  (st ← emit_all "cpu" st (cpu_entry <$> seqZ 0 n);
   st ← emit "bus" st (MpcBus_bytes 0 b_ISA);
   st ← emit "ioapic" st (ioapic_entry (as_u8 (n + 1)));
   st ← emit_all "intsrc" st (intsrc_entry (as_u8 (n + 1)) <$> seqZ 0 (GSI_LEGACY_END + 1));
   st ← emit_all "lintsrc" st [lintsrc_entry MP_IRQ_SOURCE_EXTINT 0 0;
                               lintsrc_entry MP_IRQ_SOURCE_NMI 0xff 1];
   k st) = k st'.
Proof.
  intros Ha. unfold mp_objects in Ha.
  apply (emit_all_app_inv _ "cpu") in Ha as (s1 & -> & Ha). cbn [mbind result_bind].
  apply (emit_all_app_inv _ "bus") in Ha as (s2 & Hs2 & Ha). rewrite emit_as_all, Hs2. cbn [mbind result_bind].
  apply (emit_all_app_inv _ "ioapic") in Ha as (s3 & Hs3 & Ha). rewrite emit_as_all, Hs3. cbn [mbind result_bind].
  apply (emit_all_app_inv _ "intsrc") in Ha as (s4 & -> & Ha). cbn [mbind result_bind].
  by rewrite (emit_all_ctx _ "lintsrc" _ _ _ Ha).
Qed.

Lemma length_table_object len e c : length (table_object len e c) = 44%nat.
Proof. reflexivity. Qed.

Lemma length_mp_config n : 0 <= n ->
  Z.of_nat (length (mp_config n)) = mp_size n - SIZE_MPF
  /\ as_u16 (SIZE_TABLE + Z.of_nat (length (mp_entry_bytes n))) = as_u16 (mp_size n - SIZE_MPF).
Proof.
  intros Hn. destruct (mp_entry_bytes_length n Hn) as [Hl _]. unfold mp_config.
  rewrite length_app, length_table_object. unfold SIZE_TABLE in *. split; [lia|]. f_equal. lia.
Qed.

(** Header last: the four writes amount to one. *)
Lemma patched_image `{GuestMemory M} (m m1 m2 m3 m4 : M) a z f t e :
  patched m m1 a z -> patched m1 m2 a f ->
  patched m2 m3 (a + Z.of_nat (length f) + Z.of_nat (length t)) e ->
  patched m3 m4 (a + Z.of_nat (length f)) t ->
  length z = (length f + length t + length e)%nat ->
  patched m m4 a (f ++ t ++ e).
Proof.
  intros [R1 H1] [R2 H2] [R3 H3] [R4 H4] Hz. split; [congruence|]. intros x.
  rewrite H4, H3, H2, H1, Hz, !length_app.
  destruct (decide (a <= x < a + Z.of_nat (length f + length t + length e))).
  - rewrite (decide_True (P := a <= x < a + Z.of_nat (length f + (length t + length e)))) by lia.
    destruct (decide (x < a + Z.of_nat (length f))).
    { rewrite !(decide_False (P := a + Z.of_nat (length f) <= x < _)) by lia.
      rewrite decide_False, decide_True, lookup_app_l by lia. done. }
    destruct (decide (x < a + Z.of_nat (length f) + Z.of_nat (length t))).
    { rewrite decide_True, lookup_app_r, lookup_app_l by lia. f_equal. lia. }
    rewrite decide_False, decide_True by lia. rewrite !lookup_app_r by lia. f_equal. lia.
  - rewrite !decide_False by lia. done.
Qed.

Lemma slice_le_bytes (pre post : list Z) k v :
  fits (8 * Z.of_nat k) v ->
  of_le_bytes (slice (length pre) (length pre + k) (pre ++ le_bytes (Z.of_nat k) v ++ post)) = v.
Proof.
  intros Hv. unfold slice. rewrite drop_app_length.
  replace (length pre + k - length pre)%nat with k by lia.
  rewrite take_app_length' by (rewrite length_le_bytes; lia).
  rewrite of_le_bytes_le_bytes by lia. apply Z.mod_small. rewrite Z.mul_comm. done.
Qed.

(** ** Properties *)

(** The MP table in guest memory is the specified one: for up to 254
    CPUs, if the table's span is backed, the writer succeeds; memory then
    holds the floating pointer and the configuration table back to back, both
    with checksum zero; the configuration table's length is the one its header
    states, its entry count is the one its header states, the whole span is
    [mp_size] bytes inside the area the E820 map reserves, and no byte outside
    it has changed. *)
Theorem setup_mptable_image `{GuestMemory M} (m : M) n :
  0 <= n <= 254 -> backed (gm_regions m) SYSTEM_MEM_START (mp_size n) ->
  exists m', setup_mptable m n = Ok m'
  /\ gm_holds m' SYSTEM_MEM_START (mpf_object SYSTEM_MEM_START ++ mp_config n)
  /\ checksum (mpf_object SYSTEM_MEM_START) = 0 /\ checksum (mp_config n) = 0
  /\ of_le_bytes (slice 4 6 (mp_config n)) = Z.of_nat (length (mp_config n))
  /\ of_le_bytes (slice 34 36 (mp_config n)) = n + 28
  /\ SIZE_MPF + Z.of_nat (length (mp_config n)) = mp_size n /\ mp_size n <= SYSTEM_MEM_SIZE
  /\ (forall x, ~ SYSTEM_MEM_START <= x < SYSTEM_MEM_START + mp_size n -> gm_byte m' x = gm_byte m x).
Proof.
  intros Hn Hb. pose proof (mp_entry_bytes_length n ltac:(lia)) as [Hel Hol].
  pose proof (length_mp_config n ltac:(lia)) as [Hcl Hc16].
  assert (Hsz : mp_size n = 284 + 20 * n) by (unfold mp_size, SIZE_MPF, SIZE_TABLE, SIZE_CPU,
    SIZE_IOAPIC, SIZE_BUS, SIZE_INTSRC, SIZE_LINTSRC, GSI_LEGACY_END; lia).
  unfold SIZE_MPF, SIZE_TABLE in *.
  unfold setup_mptable. cbv zeta.
  destruct (write_patched m SYSTEM_MEM_START (replicate (Z.to_nat (mp_size n)) 0)) as (m1 & -> & P1).
  { rewrite length_replicate. eapply backed_sub; [exact Hb|lia|lia]. }
  destruct (write_patched m1 SYSTEM_MEM_START (mpf_object SYSTEM_MEM_START)) as (m2 & -> & P2).
  { rewrite (proj1 P1). eapply backed_sub; [exact Hb|lia|]. change (length (mpf_object _)) with 16%nat. lia. }
  destruct (emit_all_ok "cpu" (mp_objects n) {| mp_mem := m2;
    mp_base := SYSTEM_MEM_START + SIZE_MPF + SIZE_TABLE; mp_sum := 0; mp_entries := 0 |})
    as (st & Hst & _ & Hbase & Hsum & Hent & P3); cbn [mp_mem mp_base mp_sum mp_entries] in *.
  { split; unfold fits; simpl; lia. }
  { rewrite (proj1 P2), (proj1 P1). fold (mp_entry_bytes n). eapply backed_sub; [exact Hb| |];
      unfold SIZE_MPF, SIZE_TABLE; lia. }
  fold (mp_entry_bytes n) in *. rewrite (emit_groups _ _ n _ Hst).
  rewrite Hent, Hsum, Hbase. rewrite (Z.add_0_l (checksum _)), (as_u8_id (checksum _)) by apply checksum_fits.
  replace (as_u16 (_ - _)) with (as_u16 (44 + Z.of_nat (length (mp_entry_bytes n))))
    by (f_equal; unfold SIZE_MPF, SIZE_TABLE; lia).
  rewrite Z.add_0_l. set (t := table_object _ _ _).
  assert (Hcfg : mp_config n = t ++ mp_entry_bytes n) by reflexivity.
  assert (Ht : length t = 44%nat) by reflexivity.
  destruct (write_patched (mp_mem st) (SYSTEM_MEM_START + SIZE_MPF) t) as (m4 & -> & P4).
  { rewrite (proj1 P3), (proj1 P2), (proj1 P1). eapply backed_sub; [exact Hb| |];
      rewrite ?Ht; unfold SIZE_MPF; lia. }
  assert (P : patched m m4 SYSTEM_MEM_START (mpf_object SYSTEM_MEM_START ++ mp_config n)).
  { rewrite Hcfg. apply (patched_image m m1 m2 (mp_mem st) m4 SYSTEM_MEM_START _ _ t (mp_entry_bytes n) P1 P2 P3 P4).
    rewrite length_replicate, Ht. change (length (mpf_object _)) with 16%nat. lia. }
  exists m4. split; [done|]. split; [by eapply patched_holds|]. split; [apply mpf_object_checksum|].
  split; [rewrite Hcfg; by apply table_object_checksum|].
  assert (H16 : fits 16 (44 + Z.of_nat (length (mp_entry_bytes n)))) by (unfold fits; lia).
  split; [|split; [|split; [lia|split]]].
  - rewrite Hcl, Hcfg. unfold t, table_object, MpcTable_bytes. cbn [tbl_length]. rewrite <- !app_assoc.
    rewrite (as_u16_id _ H16). etransitivity; [apply (slice_le_bytes b_PCMP _ 2); exact H16|lia].
  - rewrite Hcfg. unfold t, table_object, MpcTable_bytes. cbn [tbl_oemcount]. rewrite Hol.
    rewrite (as_u16_id (n + 28)) by (unfold fits; lia). 
    match goal with |- context [b_PCMP ++ ?a ++ ?b ++ b_OEM ++ b_PRODUCT ++ ?c ++ ?d ++ ?e ++ ?post] =>
      etransitivity; [|apply (slice_le_bytes (b_PCMP ++ a ++ b ++ b_OEM ++ b_PRODUCT ++ c ++ d)
        (post ++ mp_entry_bytes n) 2 (n + 28)); unfold fits; simpl; lia] end.
    rewrite <- !app_assoc. reflexivity.
  - unfold SYSTEM_MEM_SIZE, RSDP_ADDR, SYSTEM_MEM_START. lia.
  - intros x Hx. rewrite (proj2 P). rewrite decide_False; [done|].
    rewrite length_app. change (length (mpf_object _)) with 16%nat. lia.
Qed.

(** One vCPU in 1 MiB of RAM. *)
Lemma setup_mptable_image_witness :
  exists m', setup_mptable {| toy_regions := [(0, 2 ^ 20)]; toy_bytes := ∅ |} 1 = Ok m'
  /\ gm_holds m' SYSTEM_MEM_START (mpf_object SYSTEM_MEM_START ++ mp_config 1).
Proof.
  destruct (setup_mptable_image {| toy_regions := [(0, 2 ^ 20)]; toy_bytes := ∅ |} 1)
    as (m' & H1 & H2 & _).
  - lia.
  - exists (0, 2 ^ 20). split; [left|vm_compute; split; congruence].
  - exists m'. split; [exact H1|exact H2].
Defined.

(** The advertised IRQ wiring is a bijection of the 24 legacy lines onto
    the 24 redirection-table pins, with the timer on pin 2, the cascade on pin
    0 and every other line, the serial ports' included, on its own pin. *)
Theorem isa_pin_bijection :
  (isa_irq_to_ioapic_pin <$> seqZ 0 24) ≡ₚ seqZ 0 24
  /\ (forall irq, isa_irq_to_ioapic_pin (isa_irq_to_ioapic_pin irq) = irq)
  /\ isa_irq_to_ioapic_pin 0 = 2 /\ isa_irq_to_ioapic_pin SERIAL_IRQ = SERIAL_IRQ
  /\ isa_irq_to_ioapic_pin SERIAL2_IRQ = SERIAL2_IRQ.
Proof.
  split; [|split; [|done]].
  - apply (bool_decide_unpack _). by vm_compute.
  - intros irq. unfold isa_irq_to_ioapic_pin.
    destruct (irq =? 0) eqn:E0; bool_prop; [subst; done|].
    destruct (irq =? 2) eqn:E2; bool_prop; [subst; done|].
    by rewrite (proj2 (Z.eqb_neq _ _) E0), (proj2 (Z.eqb_neq _ _) E2).
Qed.
