(* ===== verification/Regs.v ===== *)
(** * Boot registers, segments and page tables ([src/src/regs.rs], [src/src/msrs.rs])

    The GDT entry encoding and the segment decoded from it, the general and
    special registers of the 64-bit boot protocol, the identity page tables
    and the boot MSRs.  The properties: a segment decoded from an encoded
    entry has the base and limit that were encoded, and a page walk through
    the tables in guest memory is the identity on the first GiB. *)

From Stdlib Require Import ZArith Lia.
From stdpp Require Import base numbers strings gmap list.
From S2P Require Import Prelude.
From S2P Require Import Arch.
From S2P Require Import Memory.

Open Scope Z_scope.

(** ** GDT *)

Definition gdt_entry (flags base limit : Z) : Z :=
  Z.lor (Z.lor (Z.lor (Z.lor
    (Z.shiftl (Z.land base 0xff000000) (56 - 24))
    (Z.shiftl (Z.land flags 0x0000f0ff) 40))
    (Z.shiftl (Z.land limit 0x000f0000) (48 - 16)))
    (Z.shiftl (Z.land base 0x00ffffff) 16))
    (Z.land limit 0x0000ffff).

Definition get_base (entry : Z) : Z :=
  Z.lor (Z.lor
    (Z.shiftr (Z.land entry 0xFF00000000000000) 32)
    (Z.shiftr (Z.land entry 0x000000FF00000000) 16))
    (Z.shiftr (Z.land entry 0x00000000FFFF0000) 16).

Definition get_limit (entry : Z) : Z :=
  let limit := as_u32 (Z.lor (Z.shiftr (Z.land entry 0x000F000000000000) 32)
                             (Z.land entry 0x000000000000FFFF)) in
  if Z.shiftr (Z.land entry 0x0080000000000000) 55 =? 0 then limit
  else Z.lor (as_u32 (Z.shiftl limit 12)) 0xFFF.

Record kvm_segment := {
  seg_base : Z; seg_limit : Z; seg_selector : Z; seg_type : Z; seg_present : Z; seg_dpl : Z;
  seg_db : Z; seg_s : Z; seg_l : Z; seg_g : Z; seg_avl : Z; seg_unusable : Z }.

Definition kvm_segment_from_gdt (entry table_index : Z) : kvm_segment :=
  let present := as_u8 (Z.shiftr (Z.land entry 0x0000800000000000) 47) in
  {| seg_base := get_base entry;
     seg_limit := get_limit entry;
     seg_selector := as_u16 (table_index * 8);
     seg_type := as_u8 (Z.shiftr (Z.land entry 0x00000F0000000000) 40);
     seg_present := present;
     seg_dpl := as_u8 (Z.shiftr (Z.land entry 0x0000600000000000) 45);
     seg_db := as_u8 (Z.shiftr (Z.land entry 0x0040000000000000) 54);
     seg_s := as_u8 (Z.shiftr (Z.land entry 0x0000100000000000) 44);
     seg_l := as_u8 (Z.shiftr (Z.land entry 0x0020000000000000) 53);
     seg_g := as_u8 (Z.shiftr (Z.land entry 0x0080000000000000) 55);
     seg_avl := as_u8 (Z.shiftr (Z.land entry 0x0010000000000000) 52);
     seg_unusable := if present =? 0 then 1 else 0 |}.

(** ** Registers *)

(** The registers [setup_fpu] and [setup_regs] program; the others are zero. *)
Record kvm_fpu := { fcw : Z; mxcsr : Z }.
Definition boot_fpu : kvm_fpu := {| fcw := 0x37f; mxcsr := 0x1f80 |}.

Record kvm_regs := { rflags : Z; rip : Z; rsp : Z; rbp : Z; rsi : Z }.
Definition boot_regs (boot_ip : Z) : kvm_regs :=
  {| rflags := 0x2; rip := boot_ip; rsp := BOOT_STACK_POINTER; rbp := BOOT_STACK_POINTER;
     rsi := ZERO_PAGE_START |}.

Definition EFER_LMA : Z := 0x400.
Definition EFER_LME : Z := 0x100.
Definition X86_CR0_PE : Z := 0x1.
Definition X86_CR0_PG : Z := 0x80000000.
Definition X86_CR4_PAE : Z := 0x20.

Record kvm_dtable := { dt_base : Z; dt_limit : Z }.

Record kvm_sregs := {
  cs : kvm_segment; ds : kvm_segment; es : kvm_segment; fs : kvm_segment; gs : kvm_segment;
  ss : kvm_segment; tr : kvm_segment; gdt : kvm_dtable; idt : kvm_dtable;
  cr0 : Z; cr3 : Z; cr4 : Z; efer : Z }.

#[export] Instance eta_kvm_sregs : Settable kvm_sregs := fun s => Build_kvm_sregs
  (cs s) (ds s) (es s) (fs s) (gs s) (ss s) (tr s) (gdt s) (idt s) (cr0 s) (cr3 s) (cr4 s) (efer s).

Definition gdt_table : list Z :=
  [gdt_entry 0 0 0; gdt_entry 0xa09b 0 0xfffff; gdt_entry 0xc093 0 0xfffff; gdt_entry 0x808b 0 0xfffff].

Section regs.
Context `{GuestMemory M}.

(** Writing a list of u64 values at increasing addresses. *)
Fixpoint write_u64s (ctx : string) (m : M) (a : Z) (vs : list Z) : result string M :=
  match vs with
  | [] => Ok m
  | v :: vs' =>
      match gm_write_u64 m v a with
      | None => Err ctx
      | Some m' => write_u64s ctx m' (a + 8) vs'
      end
  end.

Definition write_gdt_table (table : list Z) (m : M) : result string M :=
  write_u64s "write GDT" m BOOT_GDT_OFFSET table.

Definition pde_entries : list Z := (fun i => Z.lor (Z.shiftl i 21) 0x83) <$> seqZ 0 512.

Definition setup_page_tables (m : M) (s : kvm_sregs) : result string (M * kvm_sregs) :=
  match gm_write_u64 m (Z.lor PDPTE_START 0x03) PML4_START with
  | None => Err "write PML4"%string
  | Some m =>
      match gm_write_u64 m (Z.lor PDE_START 0x03) PDPTE_START with
      | None => Err "write PDPTE"%string
      | Some m =>
          m ← write_u64s "write PDE" m PDE_START pde_entries;
          Ok (m, s <| cr3 := PML4_START |> <| cr4 := Z.lor (cr4 s) X86_CR4_PAE |>
                   <| cr0 := Z.lor (cr0 s) X86_CR0_PG |>)
      end
  end.

(** [setup_sregs] between the vCPU's GET and SET of the special registers. *)
Definition setup_sregs (m : M) (s : kvm_sregs) : result string (M * kvm_sregs) :=
  let code_seg := kvm_segment_from_gdt (gdt_entry 0xa09b 0 0xfffff) 1 in
  let data_seg := kvm_segment_from_gdt (gdt_entry 0xc093 0 0xfffff) 2 in
  let tss_seg := kvm_segment_from_gdt (gdt_entry 0x808b 0 0xfffff) 3 in
  m ← write_gdt_table gdt_table m;
  match gm_write_u64 m 0 BOOT_IDT_OFFSET with
  | None => Err "write IDT"%string
  | Some m =>
      let s := s <| gdt := {| dt_base := BOOT_GDT_OFFSET;
                              dt_limit := as_u16 (Z.of_nat (length gdt_table) * 8 - 1) |} |>
                 <| idt := {| dt_base := BOOT_IDT_OFFSET; dt_limit := as_u16 (8 - 1) |} |>
                 <| cs := code_seg |> <| ds := data_seg |> <| es := data_seg |> <| fs := data_seg |>
                 <| gs := data_seg |> <| ss := data_seg |> <| tr := tss_seg |>
                 <| cr0 := Z.lor (cr0 s) X86_CR0_PE |>
                 <| efer := Z.lor (efer s) (Z.lor EFER_LME EFER_LMA) |> in
      setup_page_tables m s
  end.

(** *** The hardware's page walk, for 4-level paging with 2 MiB pages *)

Definition gm_u64 (m : M) (a : Z) : option Z :=
  bs ← mapM (fun i => gm_byte m (a + i)) (seqZ 0 8); Some (of_le_bytes bs).

(** The physical base of a table or page entry; [None] when not present. *)
Definition entry_addr (e mask : Z) : option Z :=
  if Z.testbit e 0 then Some (Z.land e mask) else None.

Definition page_walk (m : M) (cr3 va : Z) : option Z :=
  e4 ← gm_u64 m (cr3 + 8 * (va / 2 ^ 39 mod 512));
  pdpt ← entry_addr e4 0xffffffffff000;
  e3 ← gm_u64 m (pdpt + 8 * (va / 2 ^ 30 mod 512));
  pd ← entry_addr e3 0xffffffffff000;
  e2 ← gm_u64 m (pd + 8 * (va / 2 ^ 21 mod 512));
  if Z.testbit e2 7 then (fun p => p + va mod 2 ^ 21) <$> entry_addr e2 0xfffffffe00000 else None.

End regs.

(** ** MSRs ([msrs.rs]) *)

Definition MSR_IA32_SYSENTER_CS : Z := 0x174.
Definition MSR_IA32_SYSENTER_ESP : Z := 0x175.
Definition MSR_IA32_SYSENTER_EIP : Z := 0x176.
Definition MSR_IA32_TSC : Z := 0x10.
Definition MSR_IA32_MISC_ENABLE : Z := 0x1a0.
Definition MSR_MTRR_DEF_TYPE : Z := 0x2ff.
Definition MSR_STAR : Z := 0xc0000081.
Definition MSR_LSTAR : Z := 0xc0000082.
Definition MSR_CSTAR : Z := 0xc0000083.
Definition MSR_SYSCALL_MASK : Z := 0xc0000084.
Definition MSR_KERNEL_GS_BASE : Z := 0xc0000102.
Definition MSR_IA32_MISC_ENABLE_FAST_STRING : Z := 0x1.
Definition MTRR_ENABLE_WRITE_BACK : Z := Z.lor (Z.shiftl 1 11) 0x6.

(** [(index, data)] in the order they are programmed. *)
Definition boot_msrs : list (Z * Z) :=
  [(MSR_IA32_SYSENTER_CS, 0); (MSR_IA32_SYSENTER_ESP, 0); (MSR_IA32_SYSENTER_EIP, 0);
   (MSR_STAR, 0); (MSR_CSTAR, 0); (MSR_KERNEL_GS_BASE, 0); (MSR_SYSCALL_MASK, 0);
   (MSR_LSTAR, 0); (MSR_IA32_TSC, 0); (MSR_IA32_MISC_ENABLE, MSR_IA32_MISC_ENABLE_FAST_STRING);
   (MSR_MTRR_DEF_TYPE, MTRR_ENABLE_WRITE_BACK)].

(** ** Lemmas on bit fields *)

Definition mask (k n : Z) : Z := Z.shiftl (Z.ones k) n.

Lemma mask_testbit k n i : 0 <= k -> 0 <= n -> 0 <= i ->
  Z.testbit (mask k n) i = (n <=? i) && (i <? n + k).
Proof.
  intros Hk Hn Hi. unfold mask. rewrite Z.shiftl_spec by done.
  destruct (n <=? i) eqn:E1; bool_prop.
  - destruct (i <? n + k) eqn:E2; bool_prop; simpl.
    + apply Z.ones_spec_low; lia.
    + apply Z.ones_spec_high; lia.
  - by rewrite Z.testbit_neg_r by lia.
Qed.

Lemma shiftl_testbit z n i : 0 <= i -> Z.testbit (Z.shiftl z n) i = Z.testbit z (i - n).
Proof. apply Z.shiftl_spec. Qed.

Lemma shiftr_testbit z n i : 0 <= i -> Z.testbit (Z.shiftr z n) i = Z.testbit z (i + n).
Proof. apply Z.shiftr_spec. Qed.

(** One bit of an encoded entry, by its position. *)
Lemma gdt_entry_bit flags base limit i :
  0 <= i < 64 ->
  Z.testbit (gdt_entry flags base limit) i =
    if i <? 16 then Z.testbit limit i
    else if i <? 40 then Z.testbit base (i - 16)
    else if i <? 48 then Z.testbit flags (i - 40)
    else if i <? 52 then Z.testbit limit (i - 32)
    else if i <? 56 then Z.testbit flags (i - 40)
    else Z.testbit base (i - 32).
Proof.
  intros Hi. unfold gdt_entry.
  change 0xff000000 with (mask 8 24). change 0x0000f0ff with (Z.lor (mask 8 0) (mask 4 12)).
  change 0x000f0000 with (mask 4 16). change 0x00ffffff with (mask 24 0).
  change 0x0000ffff with (mask 16 0). change (56 - 24) with 32. change (48 - 16) with 32.
  assert (Hcut : forall z k n s, 0 <= k -> 0 <= n ->
    Z.testbit (Z.shiftl (Z.land z (mask k n)) s) i =
      Z.testbit z (i - s) && ((n <=? i - s) && (i - s <? n + k))).
  { intros z k n s Hk Hn. rewrite Z.shiftl_spec, Z.land_spec by lia.
    destruct (decide (0 <= i - s)); [by rewrite mask_testbit by lia|].
    by rewrite !(Z.testbit_neg_r _ (i - s)) by lia. }
  assert (Hflags : Z.testbit (Z.shiftl (Z.land flags (Z.lor (mask 8 0) (mask 4 12))) 40) i =
    Z.testbit flags (i - 40) && (((0 <=? i - 40) && (i - 40 <? 8)) || ((12 <=? i - 40) && (i - 40 <? 16)))).
  { rewrite Z.shiftl_spec, Z.land_spec, Z.lor_spec by lia.
    destruct (decide (0 <= i - 40)); [by rewrite !mask_testbit by lia|].
    by rewrite !(Z.testbit_neg_r _ (i - 40)) by lia. }
  rewrite !Z.lor_spec, Hflags, !Hcut by lia. rewrite Z.land_spec, mask_testbit by lia.
  repeat match goal with |- context [?a <=? ?b] => destruct (Z.leb_spec a b); try lia end;
  repeat match goal with |- context [?a <? ?b] => destruct (Z.ltb_spec a b); try lia end;
  simpl; rewrite ?andb_true_r, ?andb_false_r, ?orb_false_r; try done.
Qed.

(** A field of an entry moved down: its bits. *)
Lemma field_testbit e k n s i : 0 <= k -> 0 <= n -> 0 <= s -> 0 <= i ->
  Z.testbit (Z.shiftr (Z.land e (mask k n)) s) i =
    Z.testbit e (i + s) && ((n <=? i + s) && (i + s <? n + k)).
Proof. intros. rewrite Z.shiftr_spec, Z.land_spec, mask_testbit by lia. done. Qed.

Ltac split_ranges :=
  repeat match goal with |- context [?a <=? ?b] => destruct (Z.leb_spec a b); try lia end;
  repeat match goal with |- context [?a <? ?b] => destruct (Z.ltb_spec a b); try lia end;
  simpl; rewrite ?andb_true_r, ?andb_false_r, ?orb_false_r; simpl.

Lemma get_base_gdt flags base limit : fits 32 base -> get_base (gdt_entry flags base limit) = base.
Proof.
  intros Hb. apply Z.bits_inj'. intros i Hi. unfold get_base.
  change 0xFF00000000000000 with (mask 8 56). change 0x000000FF00000000 with (mask 8 32).
  change 0x00000000FFFF0000 with (mask 16 16).
  rewrite !Z.lor_spec, !field_testbit by lia. destruct (decide (i < 32)).
  - rewrite !gdt_entry_bit by lia. split_ranges; f_equal; lia.
  - rewrite (testbit_high 32 base i) by (done || lia). split_ranges; done.
Qed.

Lemma raw_limit_gdt flags base limit : fits 20 limit ->
  as_u32 (Z.lor (Z.shiftr (Z.land (gdt_entry flags base limit) 0x000F000000000000) 32)
                (Z.land (gdt_entry flags base limit) 0x000000000000FFFF)) = limit.
Proof.
  intros Hl. assert (Z.lor (Z.shiftr (Z.land (gdt_entry flags base limit) 0x000F000000000000) 32)
    (Z.land (gdt_entry flags base limit) 0x000000000000FFFF) = limit) as ->.
  { apply Z.bits_inj'. intros i Hi.
    change 0x000F000000000000 with (mask 4 48). change 0x000000000000FFFF with (mask 16 0).
    rewrite Z.lor_spec, field_testbit, Z.land_spec, mask_testbit by lia. destruct (decide (i < 20)).
    - rewrite !gdt_entry_bit by lia. split_ranges; f_equal; lia.
    - rewrite (testbit_high 20 limit i) by (done || lia). split_ranges; done. }
  apply as_u32_id. apply (fits_mono 20); [lia|done].
Qed.

(** A one-bit field is the bit. *)
Lemma one_bit e n : 0 <= n -> Z.shiftr (Z.land e (mask 1 n)) n = Z.b2z (Z.testbit e n).
Proof.
  intros Hn. apply Z.bits_inj'. intros i Hi. rewrite field_testbit by lia.
  destruct (decide (i = 0)) as [->|].
  - rewrite Z.b2z_bit0. split_ranges. done.
  - rewrite (testbit_high 1 (Z.b2z _) i); [split_ranges; done| |lia].
    destruct (Z.testbit e n); unfold fits; simpl; lia.
Qed.

(** ** Lemmas on page tables *)

Section tables.
Context `{GuestMemory M}.

Definition u64s_bytes (vs : list Z) : list Z := concat (le_bytes 8 <$> vs).

Lemma u64s_bytes_cons v vs : u64s_bytes (v :: vs) = le_bytes 8 v ++ u64s_bytes vs.
Proof. reflexivity. Qed.

Lemma length_u64s_bytes vs : length (u64s_bytes vs) = (8 * length vs)%nat.
Proof.
  induction vs as [|v vs IH]; [done|]. rewrite u64s_bytes_cons. cbn [length].
  rewrite length_app, length_le_bytes, IH by lia. lia.
Qed.

Lemma write_u64s_ok ctx vs : forall (m : M) a,
  backed (gm_regions m) a (8 * Z.of_nat (length vs)) ->
  exists m', write_u64s ctx m a vs = Ok m' /\ patched m m' a (u64s_bytes vs).
Proof.
  induction vs as [|v vs IH]; intros m a Hb; simpl.
  { exists m. split; [done|]. split; [done|]. intros x. case_decide; [simpl in *; lia|done]. }
  simpl in Hb. unfold gm_write_u64.
  destruct (write_patched m a (le_bytes 8 v)) as (m1 & -> & P1).
  { rewrite length_le_bytes by lia. eapply backed_sub; [exact Hb|lia|lia]. }
  destruct (IH m1 (a + 8)) as (m2 & -> & P2).
  { rewrite (proj1 P1). eapply backed_sub; [exact Hb|lia|lia]. }
  exists m2. split; [done|]. rewrite u64s_bytes_cons. apply (patched_app m m1 m2 a (le_bytes 8 v)); [done|].
  by rewrite length_le_bytes by lia.
Qed.

(** The i-th u64 of a patched table reads back. *)
Lemma u64s_lookup vs i v j : vs !! i = Some v -> (j < 8)%nat ->
  u64s_bytes vs !! (8 * i + j)%nat = le_bytes 8 v !! j.
Proof.
  revert i. induction vs as [|w vs IH]; intros i Hi Hj; [done|].
  assert (length (le_bytes 8 w) = 8%nat) as Hw by (by rewrite length_le_bytes by lia).
  rewrite u64s_bytes_cons. destruct i as [|i]; simpl in Hi.
  - simplify_eq. rewrite lookup_app_l by lia. f_equal; lia.
  - rewrite lookup_app_r by lia. rewrite Hw. replace (8 * S i + j - 8)%nat with (8 * i + j)%nat by lia.
    by apply IH.
Qed.

Lemma gm_u64_of_bytes (m : M) a v :
  fits 64 v -> (forall j, (j < 8)%nat -> gm_byte m (a + Z.of_nat j) = le_bytes 8 v !! j) ->
  gm_u64 m a = Some v.
Proof.
  intros Hv Hb. unfold gm_u64.
  assert (mapM (fun i => gm_byte m (a + i)) (seqZ 0 8) = Some (le_bytes 8 v)) as ->.
  { apply mapM_Some. apply Forall2_same_length_lookup. split; [by rewrite length_le_bytes|].
    intros i x y Hx Hy. apply lookup_seqZ in Hx as [-> ?]. rewrite Z.add_0_l, Hb by lia. done. }
  simpl. rewrite of_le_bytes_le_bytes by lia. f_equal. by apply Z.mod_small.
Qed.

Lemma patched_u64 (m m' : M) a vs i v :
  patched m m' a (u64s_bytes vs) -> vs !! i = Some v -> fits 64 v ->
  gm_u64 m' (a + 8 * Z.of_nat i) = Some v.
Proof.
  intros [_ Hp] Hi Hv. apply gm_u64_of_bytes; [done|]. intros j Hj. rewrite Hp.
  pose proof (lookup_lt_Some _ _ _ Hi). rewrite length_u64s_bytes, decide_True by lia.
  rewrite <- (u64s_lookup vs i v j Hi Hj). f_equal. lia.
Qed.

Lemma patched_u64_other (m m' : M) a bs x :
  patched m m' a bs -> x + 8 <= a \/ a + Z.of_nat (length bs) <= x -> gm_u64 m' x = gm_u64 m x.
Proof.
  intros [_ Hp] Hx. unfold gm_u64. f_equal. apply Forall_mapM_ext, Forall_forall.
  intros i Hi%elem_of_seqZ. rewrite Hp, decide_False by lia. done.
Qed.

(** The mapping of one 2 MiB page entry. *)
Lemma pde_entry i : 0 <= i < 512 ->
  let e := Z.lor (Z.shiftl i 21) 0x83 in
  pde_entries !! Z.to_nat i = Some e /\ fits 64 e /\ Z.testbit e 7 = true
  /\ entry_addr e 0xfffffffe00000 = Some (i * 2 ^ 21).
Proof.
  intros Hi e. split.
  { unfold pde_entries. rewrite list_lookup_fmap, fmap_Some. exists i. split; [|done].
    apply lookup_seqZ. lia. }
  assert (Forall (fun i => fits 64 (Z.lor (Z.shiftl i 21) 0x83)
    /\ Z.testbit (Z.lor (Z.shiftl i 21) 0x83) 7 = true
    /\ entry_addr (Z.lor (Z.shiftl i 21) 0x83) 0xfffffffe00000 = Some (i * 2 ^ 21))
    (seqZ 0 512)) as Ha.
  { apply (bool_decide_unpack _). by vm_compute. }
  rewrite Forall_forall in Ha. apply (Ha i). apply elem_of_seqZ. lia.
Qed.

End tables.

(** ** Properties *)

(** The GDT encoding round-trips through the segment the vCPU is given:
    base and limit come back, the limit scaled to bytes when the granularity
    flag is set, and the present bit decides [unusable]. *)
Theorem gdt_segment_roundtrip flags base limit idx :
  fits 32 base -> fits 20 limit ->
  let s := kvm_segment_from_gdt (gdt_entry flags base limit) idx in
  seg_base s = base
  /\ seg_limit s = (if Z.testbit flags 15 then limit * 4096 + 4095 else limit)
  /\ seg_present s = Z.b2z (Z.testbit flags 7)
  /\ seg_unusable s = 1 - seg_present s
  /\ seg_l s = Z.b2z (Z.testbit flags 13) /\ seg_db s = Z.b2z (Z.testbit flags 14).
Proof.
  intros Hb Hl s. split; [by apply get_base_gdt|].
  assert (Hbit : forall n, 0 <= n < 64 -> as_u8 (Z.shiftr (Z.land (gdt_entry flags base limit) (mask 1 n)) n)
    = Z.b2z (Z.testbit (gdt_entry flags base limit) n)).
  { intros n Hn. rewrite one_bit by lia. apply as_u8_id. destruct (Z.testbit _ n); unfold fits; simpl; lia. }
  assert (Hp : seg_present s = Z.b2z (Z.testbit flags 7)).
  { unfold s. cbn [seg_present kvm_segment_from_gdt]. change 0x0000800000000000 with (mask 1 47).
    rewrite Hbit, gdt_entry_bit by lia. done. }
  split; [|split; [done|split; [|split]]].
  - unfold s. cbn [seg_limit kvm_segment_from_gdt]. unfold get_limit. cbv zeta.
    rewrite raw_limit_gdt by done. change 0x0080000000000000 with (mask 1 55).
    assert (Z.testbit (gdt_entry flags base limit) 55 = Z.testbit flags 15) as Hg
      by (by rewrite gdt_entry_bit by lia).
    rewrite one_bit, Hg by lia. destruct (Z.testbit flags 15); [|done]. cbn [Z.b2z Z.eqb].
    pose proof (shiftl_fits 32 20 limit 12 ltac:(lia) ltac:(lia) ltac:(lia) Hl).
    rewrite as_u32_id by done. rewrite (lor_shiftl_add limit 0xFFF 12) by (unfold fits; lia). lia.
  - transitivity (if seg_present s =? 0 then 1 else 0); [done|]. rewrite Hp. by destruct (Z.testbit flags 7).
  - unfold s. cbn [seg_l kvm_segment_from_gdt]. change 0x0020000000000000 with (mask 1 53).
    rewrite Hbit, gdt_entry_bit by lia. done.
  - unfold s. cbn [seg_db kvm_segment_from_gdt]. change 0x0040000000000000 with (mask 1 54).
    rewrite Hbit, gdt_entry_bit by lia. done.
Qed.

Lemma gdt_segment_roundtrip_witness :
  seg_limit (kvm_segment_from_gdt (gdt_entry 0xa09b 0 0xfffff) 1) = 0xfffff * 4096 + 4095.
Proof. apply (gdt_segment_roundtrip 0xa09b 0 0xfffff 1); unfold fits; lia. Defined.

(** The boot page tables identity-map the first GiB: after
    [setup_page_tables] on memory whose low 48 KiB are backed, walking the
    tables from the new CR3 takes every virtual address below 1 GiB to
    itself; paging, PAE and the other control bits are set and kept. *)
Theorem page_tables_identity `{GuestMemory M} (m : M) s va :
  backed (gm_regions m) 0 0xc000 -> 0 <= va < 2 ^ 30 ->
  exists m' s', setup_page_tables m s = Ok (m', s')
  /\ page_walk m' (cr3 s') va = Some va
  /\ cr4 s' = Z.lor (cr4 s) X86_CR4_PAE /\ cr0 s' = Z.lor (cr0 s) X86_CR0_PG.
Proof.
  intros Hb Hva. unfold setup_page_tables, gm_write_u64, PML4_START, PDPTE_START, PDE_START.
  destruct (write_u64s_ok "" [Z.lor 0xa000 3] m 0x9000) as (m1 & Hw1 & P1).
  { eapply backed_sub; [exact Hb|lia|simpl; lia]. }
  simpl in Hw1. unfold gm_write_u64 in Hw1. destruct (gm_write_slice m 0x9000 _) as [m1'|]; [|done].
  injection Hw1 as ->.
  destruct (write_u64s_ok "" [Z.lor 0xb000 3] m1 0xa000) as (m2 & Hw2 & P2).
  { rewrite (proj1 P1). eapply backed_sub; [exact Hb|lia|simpl; lia]. }
  simpl in Hw2. unfold gm_write_u64 in Hw2. destruct (gm_write_slice m1 0xa000 _) as [m2'|]; [|done].
  injection Hw2 as ->.
  destruct (write_u64s_ok "write PDE" pde_entries m2 0xb000) as (m3 & -> & P3).
  { rewrite (proj1 P2), (proj1 P1). eapply backed_sub; [exact Hb|lia|].
    change (length pde_entries) with 512%nat. lia. }
  cbn [mbind result_bind]. exists m3. eexists. split; [reflexivity|]. split; [|done].
  cbn [cr3 set_field]. set (i := va / 2 ^ 21).
  assert (Hi : 0 <= i < 512) by (unfold i; Z.div_mod_to_equations; lia).
  destruct (pde_entry i Hi) as (Hlk & Hfit & Hps & Haddr).
  assert (Hlen : length (u64s_bytes pde_entries) = 4096%nat) by (by rewrite length_u64s_bytes).
  assert (He4 : gm_u64 m3 0x9000 = Some (Z.lor 0xa000 3)).
  { rewrite (patched_u64_other _ _ _ _ _ P3) by (rewrite Hlen; lia).
    rewrite (patched_u64_other _ _ _ _ _ P2) by (left; lia).
    apply (patched_u64 m m1 0x9000 [Z.lor 0xa000 3] 0); [done|done|by vm_compute]. }
  assert (He3 : gm_u64 m3 0xa000 = Some (Z.lor 0xb000 3)).
  { rewrite (patched_u64_other _ _ _ _ _ P3) by (rewrite Hlen; lia).
    apply (patched_u64 m1 m2 0xa000 [Z.lor 0xb000 3] 0); [done|done|by vm_compute]. }
  assert (He2 : gm_u64 m3 (0xb000 + 8 * i) = Some (Z.lor (Z.shiftl i 21) 0x83)).
  { rewrite <- (Z2Nat.id i) at 1 by lia. by apply (patched_u64 m2 m3 0xb000 pde_entries). }
  unfold page_walk. replace (va / 2 ^ 39 mod 512) with 0 by (Z.div_mod_to_equations; lia).
  replace (va / 2 ^ 30 mod 512) with 0 by (Z.div_mod_to_equations; lia).
  change (0x9000 + 8 * 0) with 0x9000. rewrite He4. cbn [mbind option_bind].
  change (entry_addr (Z.lor 0xa000 3) 0xffffffffff000) with (Some 0xa000). cbn [mbind option_bind].
  change (0xa000 + 8 * 0) with 0xa000. rewrite He3. cbn [mbind option_bind].
  change (entry_addr (Z.lor 0xb000 3) 0xffffffffff000) with (Some 0xb000). cbn [mbind option_bind].
  fold i. rewrite (Z.mod_small i 512) by lia. rewrite He2. cbn [mbind option_bind].
  rewrite Hps, Haddr. simpl. f_equal. unfold i. pose proof (Z.div_mod va (2 ^ 21) ltac:(lia)). lia.
Qed.

Definition toy_sregs : kvm_sregs :=
  let z := kvm_segment_from_gdt 0 0 in let d := {| dt_base := 0; dt_limit := 0 |} in
  {| cs := z; ds := z; es := z; fs := z; gs := z; ss := z; tr := z; gdt := d; idt := d;
     cr0 := 0x10; cr3 := 0; cr4 := 0; efer := 0 |}.

Lemma page_tables_identity_witness :
  exists m' s', setup_page_tables {| toy_regions := [(0, 2 ^ 20)]; toy_bytes := ∅ |} toy_sregs = Ok (m', s')
  /\ page_walk m' (cr3 s') 0x1234567 = Some 0x1234567.
Proof.
  destruct (page_tables_identity {| toy_regions := [(0, 2 ^ 20)]; toy_bytes := ∅ |} toy_sregs 0x1234567)
    as (m' & s' & H1 & H2 & _).
  - exists (0, 2 ^ 20). split; [left|vm_compute; split; congruence].
  - lia.
  - exists m', s'. split; [exact H1|exact H2].
Defined.
