(* ===== verification/Cpuid.v ===== *)
(** * The CPUID filter ([src/src/cpuid.rs])

    The edits to KVM's supported CPUID that protect the owned clock.  The host
    CPUID instruction is the parameter [host_cpuid], and [max_entries] is the
    capacity of the entry container.  The property is the profile the guest
    sees: no paravirt leaf, no MWAIT / x2APIC / TSC-deadline / hypervisor bit,
    an invariant TSC, and the host's frequency leaves. *)

From Stdlib Require Import ZArith Lia.
From stdpp Require Import base numbers sets list.
From S2P Require Import Prelude.
From S2P Require Import Lapic.

Open Scope Z_scope.

Definition HYPERVISOR_LEAF_LOW : Z := 0x40000000.
Definition HYPERVISOR_LEAF_HIGH : Z := 0x400000ff.
Definition LEAF_FEATURE_INFO : Z := 0x1.
Definition LEAF_TSC_FREQ : Z := 0x15.
Definition LEAF_CPU_FREQ : Z := 0x16.
Definition LEAF_EXT_POWER_MGMT : Z := 0x80000007.
Definition ECX_MONITOR : Z := Z.shiftl 1 3.
Definition ECX_TSC_DEADLINE : Z := Z.shiftl 1 24.
Definition ECX_X2APIC : Z := Z.shiftl 1 21.
Definition ECX_HYPERVISOR : Z := Z.shiftl 1 31.
Definition EDX_INVARIANT_TSC : Z := Z.shiftl 1 8.

Record cpuid_entry := {
  function : Z; index : Z; ce_flags : Z; eax : Z; ebx : Z; ecx : Z; edx : Z }.

#[export] Instance eta_cpuid_entry : Settable cpuid_entry := fun e => Build_cpuid_entry
  (function e) (index e) (ce_flags e) (eax e) (ebx e) (ecx e) (edx e).

(** [iter_mut().find(p)] followed by an assignment: the first match is
    replaced; [None] when there is none. *)
Fixpoint update_first (p : cpuid_entry -> bool) (f : cpuid_entry -> cpuid_entry)
    (l : list cpuid_entry) : option (list cpuid_entry) :=
  match l with
  | [] => None
  | e :: l' => if p e then Some (f e :: l') else cons e <$> update_first p f l'
  end.

Definition is_leaf (leaf : Z) (e : cpuid_entry) : bool := (function e =? leaf) && (index e =? 0).

Section filter.
Context (host_cpuid : Z -> CpuidLeaf) (max_entries : nat).

Definition is_hypervisor_leaf (e : cpuid_entry) : bool :=
  (HYPERVISOR_LEAF_LOW <=? function e) && (function e <=? HYPERVISOR_LEAF_HIGH).

(** One step of the edit loop. *)
Definition edit_entry (e : cpuid_entry) : cpuid_entry :=
  if function e =? LEAF_FEATURE_INFO then
    let c := Z.land (ecx e) (bnot 32 ECX_HYPERVISOR) in
    let c := Z.land c (bnot 32 ECX_MONITOR) in
    let c := Z.land c (bnot 32 ECX_X2APIC) in
    let c := Z.land c (bnot 32 ECX_TSC_DEADLINE) in
    e <| ecx := c |>
  else if function e =? LEAF_EXT_POWER_MGMT then e <| edx := Z.lor (edx e) EDX_INVARIANT_TSC |>
  else e.

Definition host_entry (leaf : Z) : cpuid_entry :=
  let h := host_cpuid leaf in
  {| function := leaf; index := 0; ce_flags := 0; eax := leaf_eax h; ebx := leaf_ebx h;
     ecx := leaf_ecx h; edx := leaf_edx h |}.

(** Pass one frequency leaf through: overwrite the first entry, or add one. *)
Definition pass_leaf (entries : list cpuid_entry) (leaf : Z) : list cpuid_entry :=
  let h := host_cpuid leaf in
  match update_first (is_leaf leaf)
          (fun e => e <| ce_flags := 0 |> <| eax := leaf_eax h |> <| ebx := leaf_ebx h |>
                      <| ecx := leaf_ecx h |> <| edx := leaf_edx h |>) entries with
  | Some entries' => entries'
  | None => entries ++ [host_entry leaf]
  end.

Definition filter_cpuid (supported : list cpuid_entry) : option (list cpuid_entry) :=
  let entries := filter (fun e => is_hypervisor_leaf e = false) supported in
  let has_ext_power := existsb (fun e => function e =? LEAF_EXT_POWER_MGMT) entries in
  let entries := edit_entry <$> entries in
  let entries := foldl pass_leaf entries [LEAF_TSC_FREQ; LEAF_CPU_FREQ] in
  let entries :=
    if negb has_ext_power then
      entries ++ [{| function := LEAF_EXT_POWER_MGMT; index := 0; ce_flags := 0; eax := 0; ebx := 0;
                     ecx := 0; edx := EDX_INVARIANT_TSC |}]
    else entries in
  if (length entries <=? max_entries)%nat then Some entries else None.

(** What the guest's CPUID instruction finds for a leaf (subleaf 0). *)
Definition cpuid_lookup (entries : list cpuid_entry) (leaf : Z) : option cpuid_entry :=
  List.find (is_leaf leaf) entries.

(** An entry that respects the clock policy. *)
Definition policy_ok (e : cpuid_entry) : Prop :=
  is_hypervisor_leaf e = false
  /\ (function e = LEAF_FEATURE_INFO ->
      Z.testbit (ecx e) 3 = false /\ Z.testbit (ecx e) 21 = false
      /\ Z.testbit (ecx e) 24 = false /\ Z.testbit (ecx e) 31 = false)
  /\ (function e = LEAF_EXT_POWER_MGMT -> Z.testbit (edx e) 8 = true).

(** ** Lemmas *)

Lemma clear_bit x n i : 0 <= n < 32 -> 0 <= i < 32 ->
  Z.testbit (Z.land x (bnot 32 (Z.shiftl 1 n))) i = Z.testbit x i && negb (i =? n).
Proof.
  intros Hn Hi. rewrite Z.land_spec, bnot_testbit, Z.shiftl_1_l, Z.pow2_bits_eqb by lia.
  by rewrite (Z.eqb_sym n i).
Qed.

Lemma edit_entry_policy e : is_hypervisor_leaf e = false -> policy_ok (edit_entry e).
Proof.
  intros Hh. unfold edit_entry.
  destruct (function e =? LEAF_FEATURE_INFO) eqn:E1; bool_prop.
  - split; [done|]. split; cbn [function ecx edx set_field]; [intros _|rewrite E1; done].
    unfold ECX_HYPERVISOR, ECX_MONITOR, ECX_X2APIC, ECX_TSC_DEADLINE.
    rewrite !clear_bit by lia. split_and!; simpl; by rewrite ?andb_false_r.
  - destruct (function e =? LEAF_EXT_POWER_MGMT) eqn:E2; bool_prop.
    + split; [done|]. split; cbn [function ecx edx set_field]; [rewrite E2; done|]. intros _.
      rewrite Z.lor_spec. unfold EDX_INVARIANT_TSC. apply orb_true_r.
    + split; [done|]. split; congruence.
Qed.

Lemma update_first_spec p f l l' :
  update_first p f l = Some l' -> exists pre e post,
  l = pre ++ e :: post /\ Forall (fun x => p x = false) pre /\ p e = true /\ l' = pre ++ f e :: post.
Proof.
  revert l'. induction l as [|e l IH]; intros l'; simpl; [done|]. destruct (p e) eqn:Hp.
  - intros [= <-]. by exists [], e, l.
  - intros (k & Hk & ->)%fmap_Some. destruct (IH k Hk) as (pre & x & post & -> & Hf & Hx & ->).
    exists (e :: pre), x, post. split_and!; try done. by constructor.
Qed.

Lemma update_first_none p f l : update_first p f l = None -> Forall (fun x => p x = false) l.
Proof.
  induction l as [|e l IH]; simpl; [constructor|]. destruct (p e) eqn:Hp; [done|].
  intros Hn%fmap_None. constructor; auto.
Qed.

Lemma find_app_skip (p : cpuid_entry -> bool) pre l :
  Forall (fun x => p x = false) pre -> List.find p (pre ++ l) = List.find p l.
Proof. induction 1 as [|x pre Hx _ IH]; simpl; [done|]. by rewrite Hx. Qed.

Lemma find_app_some (p : cpuid_entry -> bool) l k e :
  List.find p l = Some e -> List.find p (l ++ k) = Some e.
Proof. induction l as [|x l IH]; simpl; [done|]. destruct (p x); auto. Qed.

(** What passing a leaf through does to the list and to lookups. *)
Lemma pass_leaf_spec l leaf :
  (forall e, e ∈ pass_leaf l leaf -> e ∈ l \/ (function e = leaf))
  /\ (exists e, cpuid_lookup (pass_leaf l leaf) leaf = Some e /\ e = host_entry leaf)
  /\ (forall leaf' e, leaf' <> leaf -> cpuid_lookup l leaf' = Some e ->
        cpuid_lookup (pass_leaf l leaf) leaf' = Some e)
  /\ (forall g, g <> leaf -> Exists (fun e => function e = g) l ->
        Exists (fun e => function e = g) (pass_leaf l leaf)).
Proof.
  unfold pass_leaf, cpuid_lookup. cbv zeta. set (f := fun e : cpuid_entry => _).
  destruct (update_first (is_leaf leaf) f l) as [l'|] eqn:E.
  - apply update_first_spec in E as (pre & e & post & -> & Hpre & He & ->).
    assert (Hfe : f e = host_entry leaf).
    { unfold is_leaf in He. bool_prop. unfold f, host_entry. simpl. congruence. }
    assert (Hle : is_leaf leaf (f e) = true) by (rewrite Hfe; unfold is_leaf; simpl; by rewrite !Z.eqb_refl).
    split_and!.
    + intros x Hx. apply elem_of_app in Hx as [Hx|Hx]; [left; set_solver|].
      apply elem_of_cons in Hx as [->|Hx]; [right; by rewrite Hfe|left; set_solver].
    + exists (f e). split; [|done]. rewrite find_app_skip by done. simpl. by rewrite Hle.
    + intros leaf' x Hne. assert (is_leaf leaf' e = false /\ is_leaf leaf' (f e) = false) as [H1 H2].
      { unfold is_leaf in *. rewrite Hfe. simpl. bool_prop. split.
        - rewrite (proj2 (Z.eqb_neq _ _)); [done|]. congruence.
        - rewrite (proj2 (Z.eqb_neq _ _)); [done|]. congruence. }
      intros Hx. assert (List.find (is_leaf leaf') (pre ++ f e :: post) =
        List.find (is_leaf leaf') (pre ++ e :: post)) as ->; [|done].
      clear -H1 H2. induction pre as [|y pre IH]; simpl; [by rewrite H1, H2|]. by rewrite IH.
    + intros g Hg Hex. apply Exists_app in Hex as [Hex|Hex]; apply Exists_app; [by left|right].
      apply Exists_cons in Hex as [Hex|Hex]; apply Exists_cons; [|by right].
      unfold is_leaf in He. bool_prop. congruence.
  - apply update_first_none in E. split_and!.
    + intros x Hx. apply elem_of_app in Hx as [Hx|Hx]; [by left|].
      apply list_elem_of_singleton in Hx as ->. by right.
    + exists (host_entry leaf). split; [|done]. rewrite find_app_skip by done. simpl.
      unfold is_leaf. simpl. by rewrite Z.eqb_refl.
    + intros leaf' x _. apply find_app_some.
    + intros g _ Hex. apply Exists_app. by left.
Qed.

Lemma pass_leaf_length l leaf : (length (pass_leaf l leaf) <= length l + 1)%nat.
Proof.
  unfold pass_leaf. cbv zeta. destruct (update_first _ _ l) as [l'|] eqn:E.
  - apply update_first_spec in E as (pre & e & post & -> & _ & _ & ->). rewrite !length_app. simpl. lia.
  - rewrite length_app. simpl. lia.
Qed.

Lemma freq_leaf_policy e : function e = LEAF_TSC_FREQ \/ function e = LEAF_CPU_FREQ -> policy_ok e.
Proof.
  intros [He|He]; unfold policy_ok, is_hypervisor_leaf; rewrite He; split_and!; done.
Qed.

(** ** Properties *)

(** The guest's CPUID profile protects the owned clock: every entry of
    the filtered set respects the policy (no hypervisor leaf, no hypervisor,
    MONITOR, x2APIC or TSC-deadline bit, invariant TSC set), an invariant-TSC
    leaf is always present, and leaves 0x15 and 0x16 are exactly the host's.
    The filter fails only when the result does not fit the container. *)
Theorem filter_cpuid_profile supported :
  match filter_cpuid supported with
  | Some out =>
      Forall policy_ok out
      /\ Exists (fun e => function e = LEAF_EXT_POWER_MGMT) out
      /\ cpuid_lookup out LEAF_TSC_FREQ = Some (host_entry LEAF_TSC_FREQ)
      /\ cpuid_lookup out LEAF_CPU_FREQ = Some (host_entry LEAF_CPU_FREQ)
  | None => (max_entries < length supported + 3)%nat
  end.
Proof.
  unfold filter_cpuid. cbv zeta. cbn [foldl].
  set (kept := filter _ supported). set (edited := edit_entry <$> kept).
  set (p1 := pass_leaf edited LEAF_TSC_FREQ). set (p2 := pass_leaf p1 LEAF_CPU_FREQ).
  destruct (pass_leaf_spec edited LEAF_TSC_FREQ) as (Hin1 & (e15 & Hl15 & ->) & _ & Hex1).
  destruct (pass_leaf_spec p1 LEAF_CPU_FREQ) as (Hin2 & (e16 & Hl16 & ->) & Hkeep & Hex2).
  fold p1 in Hin1, Hl15, Hex1. fold p2 in Hin2, Hl16, Hkeep, Hex2.
  assert (H15 : cpuid_lookup p2 LEAF_TSC_FREQ = Some (host_entry LEAF_TSC_FREQ)) by (by apply Hkeep).
  assert (Hpol : Forall policy_ok p2).
  { apply Forall_forall. intros e He. destruct (Hin2 e He) as [He1|?]; [|apply freq_leaf_policy; auto].
    destruct (Hin1 e He1) as [He0|?]; [|apply freq_leaf_policy; auto].
    apply list_elem_of_fmap in He0 as (x & -> & Hx). apply list_elem_of_filter in Hx as [Hx _].
    by apply edit_entry_policy. }
  assert (Hlen : (length p2 <= length supported + 2)%nat).
  { pose proof (pass_leaf_length edited LEAF_TSC_FREQ) as L1. pose proof (pass_leaf_length p1 LEAF_CPU_FREQ) as L2.
    fold p1 in L1. fold p2 in L2. unfold edited in L1. rewrite length_fmap in L1.
    pose proof (length_filter (fun e => is_hypervisor_leaf e = false) supported) as L0. fold kept in L0. lia. }
  destruct (existsb _ kept) eqn:Eex; cbn [negb].
  - destruct (_ <=? _)%nat eqn:Efit; [|apply Nat.leb_gt in Efit; lia].
    split_and!; [done| |done|done]. apply Hex2; [done|]. apply Hex1; [done|].
    apply existsb_exists in Eex as (x & Hx & Hfx). bool_prop. apply Exists_exists.
    exists (edit_entry x). split; [by apply list_elem_of_fmap_2, list_elem_of_In|].
    unfold edit_entry. by rewrite Hfx.
  - destruct (_ <=? _)%nat eqn:Efit; [|apply Nat.leb_gt in Efit; rewrite length_app in Efit; simpl in Efit; lia].
    split_and!.
    + apply Forall_app. split; [done|]. constructor; [|constructor]. by split_and!.
    + apply Exists_app. right. by apply Exists_cons_hd.
    + by apply find_app_some.
    + by apply find_app_some.
Qed.
End filter.
