(* ===== verification/Timers.v ===== *)
(** * Timer service and IRQ routing at the loop boundary ([src/src/main.rs])

    [service_timers] mirrors the LAPIC deadline and the virtual-time horizon
    into the event queue and drains what is due; [raise_irq] routes an ISA line
    through the IO-APIC into the LAPIC; [min_deadline] joins the queue with
    the live LAPIC deadline.  The properties say exactly what one service
    does, when the horizon fires, and which deadline the queue then shows. *)

From Stdlib Require Import ZArith Lia.
From stdpp Require Import base numbers gmap list.
From S2P Require Import Prelude.
From S2P Require Import Arch.
From S2P Require Import Vtsc.
From S2P Require Import Events.
From S2P Require Import Ioapic.
From S2P Require Import Lapic.
From S2P Require Import Mptable.

Open Scope Z_scope.

Inductive TimerKind := LapicDeadline | StopRun.

#[export] Instance TimerKind_eq_dec : EqDecision TimerKind.
Proof. solve_decision. Defined.

Record Fired := { fired_horizon : bool }.

Definition min_deadline (queue lapic : option Z) : option Z :=
  match queue, lapic with
  | Some a, Some b => Some (Z.min a b)
  | Some a, None => Some a
  | None, b => b
  end.

(** [raise_irq]; [irq as u8]. *)
Definition raise_irq (l : Lapic) (io : Ioapic) (irq : Z) : Lapic :=
  let pin := Z.to_nat (isa_irq_to_ioapic_pin (as_u8 irq)) in
  match edge_vector io pin with
  | Some vector => raise l vector
  | None => l
  end.

(** The drain loop of [service_timers]: [None] is the queue-discipline panic,
    a diverging re-arm, or [pops] running out. *)
Fixpoint service_loop (pops fuel : nat) (now : Z) (l : Lapic) (q : EventQueue) (fired : Fired)
    : option (Lapic * EventQueue * Fired) :=
  match pops with
  | O => None
  | S n =>
      match pop_due q now with
      | None => Some (l, q, fired)
      | Some (ev, q') =>
          if negb (deadline ev <=? now) then None
          else match payload ev with
               | LapicDeadline =>
                   r ← fire_timer_if_due fuel l now;
                   service_loop n fuel now r.2 q' fired
               | StopRun => service_loop n fuel now l q' {| fired_horizon := true |}
               end
      end
  end.

(** The queue after the mirror step. *)
Definition mirror (l : Lapic) (q : EventQueue) (horizon : option Z) : EventQueue :=
  let q := clear q in
  let q := match timer_deadline l with Some dl => push q dl LapicDeadline | None => q end in
  match horizon with Some h => push q h StopRun | None => q end.

(** At most two events are ever mirrored, so three pops end the loop. *)
Definition service_timers (fuel : nat) (l : Lapic) (q : EventQueue (T := TimerKind))
    (horizon : option Z) (now : Z) : option (Lapic * EventQueue * Fired) :=
  service_loop 3 fuel now l (mirror l q horizon) {| fired_horizon := false |}.

(** ** Specification *)

Definition due (now : Z) (d : option Z) : bool :=
  match d with Some x => x <=? now | None => false end.

(** A deadline still ahead of [now]. *)
Definition ahead (now : Z) (d : option Z) : option Z :=
  match d with Some x => if x <=? now then None else Some x | None => None end.

(** ** Lemmas *)

Lemma fire_not_due' fuel l now :
  due now (timer_deadline l) = false -> fire_timer_if_due fuel l now = Some (false, l).
Proof.
  intros Hd. apply fire_not_due. intros dl Hdl. rewrite Hdl in Hd. simpl in Hd. bool_prop. lia.
Qed.

Section one.
Context (e : Event (T := TimerKind)) (s : Z).

Lemma pop_due_one now :
  pop_due {| heap := [e]; next_seq := s |} now =
    if deadline e <=? now then Some (e, {| heap := []; next_seq := s |}) else None.
Proof. done. Qed.
End one.

(** A two-element queue: which event comes first. *)
Lemma pop_due_two (a b : Event (T := TimerKind)) s now :
  pop_due {| heap := [a; b]; next_seq := s |} now =
    let '(x, y) := match event_cmp a b with Lt => (b, a) | _ => (a, b) end in
    if deadline x <=? now then Some (x, {| heap := [y]; next_seq := s |}) else None.
Proof. unfold pop_due, heap_peek. simpl. destruct (event_cmp a b); simpl; by case_match. Qed.

(** The order of the two events does not matter: the horizon event touches no
    timer, and the timer event does not read the horizon. *)
Lemma service_loop_two fuel now l a b s :
  payload a = StopRun -> payload b = LapicDeadline -> timer_deadline l = Some (deadline b) ->
  service_loop 3 fuel now l {| heap := [a; b]; next_seq := s |} {| fired_horizon := false |} =
    r ← fire_timer_if_due fuel l now;
    Some (r.2, {| heap := filter (fun e => ~ deadline e <= now) [a; b]; next_seq := s |},
          {| fired_horizon := deadline a <=? now |}).
Proof.
  intros Ha Hb Hd. rewrite !filter_cons, filter_nil.
  assert (Hlt : event_cmp a b = Lt -> deadline b <= deadline a)
    by (rewrite event_cmp_Lt; unfold event_lt; lia).
  assert (Hge : event_cmp a b <> Lt -> deadline a <= deadline b)
    by (intros H%event_cmp_not_Lt; unfold event_le in H; lia).
  cbn [service_loop]. rewrite pop_due_two.
  destruct (deadline a <=? now) eqn:Ea, (deadline b <=? now) eqn:Eb; bool_prop;
    repeat case_decide; try lia;
    try (rewrite (fire_not_due' fuel l now) by (rewrite Hd; simpl; apply Z.leb_gt; lia));
    destruct (event_cmp a b) eqn:Ec;
    try (specialize (Hlt eq_refl)); try (specialize (Hge ltac:(congruence))); try lia;
    rewrite ?(proj2 (Z.leb_le (deadline a) now)), ?(proj2 (Z.leb_le (deadline b) now)),
      ?(proj2 (Z.leb_gt (deadline a) now)), ?(proj2 (Z.leb_gt (deadline b) now)) by lia;
    cbn [negb]; rewrite ?Ha, ?Hb; cbn [service_loop]; rewrite ?pop_due_one;
    rewrite ?(proj2 (Z.leb_le (deadline a) now)), ?(proj2 (Z.leb_le (deadline b) now)),
      ?(proj2 (Z.leb_gt (deadline a) now)), ?(proj2 (Z.leb_gt (deadline b) now)) by lia;
    cbn [negb]; rewrite ?Ha, ?Hb; try done;
    destruct (fire_timer_if_due fuel l now) as [[fb l']|]; cbn [mbind option_bind snd]; try done;
    rewrite ?pop_due_one, ?(proj2 (Z.leb_le (deadline a) now)), ?(proj2 (Z.leb_gt (deadline a) now)) by lia;
    cbn [negb]; rewrite ?Ha; done.
Qed.

(** The earliest deadline of a queue of at most two events. *)
Lemma peek_two (a b : Event (T := TimerKind)) s :
  peek_deadline {| heap := [a; b]; next_seq := s |} = Some (Z.min (deadline a) (deadline b)).
Proof.
  unfold peek_deadline, heap_peek. simpl. unfold event_cmp.
  destruct (Z.compare_spec (deadline b) (deadline a)) as [E|E|E]; [destruct (seq b ?= seq a)%Z| |];
    simpl; f_equal; lia.
Qed.

Lemma peek_ahead_two (a b : Event (T := TimerKind)) s now :
  peek_deadline {| heap := filter (fun e => ~ deadline e <= now) [a; b]; next_seq := s |} =
    min_deadline (ahead now (Some (deadline b))) (ahead now (Some (deadline a))).
Proof.
  rewrite !filter_cons, filter_nil. unfold ahead.
  destruct (deadline a <=? now) eqn:Ea, (deadline b <=? now) eqn:Eb; bool_prop;
    repeat case_decide; try lia; rewrite ?peek_two; simpl; try done. f_equal. lia.
Qed.

Lemma peek_ahead_one (a : Event (T := TimerKind)) s now :
  peek_deadline {| heap := filter (fun e => ~ deadline e <= now) [a]; next_seq := s |} =
    ahead now (Some (deadline a)).
Proof.
  rewrite filter_cons, filter_nil. unfold ahead.
  destruct (deadline a <=? now) eqn:Ea; bool_prop; case_decide; try lia; done.
Qed.

Lemma service_loop_one fuel now l a s :
  (payload a = LapicDeadline -> timer_deadline l = Some (deadline a)) ->
  (payload a = StopRun -> timer_deadline l = None) ->
  service_loop 3 fuel now l {| heap := [a]; next_seq := s |} {| fired_horizon := false |} =
    r ← fire_timer_if_due fuel l now;
    Some (r.2, {| heap := filter (fun e => ~ deadline e <= now) [a]; next_seq := s |},
          {| fired_horizon := bool_decide (payload a = StopRun) && (deadline a <=? now) |}).
Proof.
  intros Hl Hs. rewrite filter_cons, filter_nil. cbn [service_loop]. rewrite pop_due_one.
  destruct (deadline a <=? now) eqn:E; bool_prop; case_decide; try lia.
  - rewrite (proj2 (Z.leb_le _ _)) by lia. cbn [negb]. destruct (payload a).
    + by destruct (fire_timer_if_due fuel l now) as [[fb l']|].
    + rewrite fire_not_due' by (by rewrite Hs). done.
  - rewrite fire_not_due'; [by rewrite andb_false_r|]. destruct (payload a).
    + rewrite Hl by done. simpl. apply Z.leb_gt. lia.
    + by rewrite Hs.
Qed.

(** What one service does, in full. *)
Lemma service_timers_eq fuel l q horizon now : exists q',
  service_timers fuel l q horizon now =
    (r ← fire_timer_if_due fuel l now; Some (r.2, q', {| fired_horizon := due now horizon |}))
  /\ peek_deadline q' = min_deadline (ahead now (timer_deadline l)) (ahead now horizon).
Proof.
  unfold service_timers, mirror, push. cbv zeta.
  destruct (timer_deadline l) as [dl|] eqn:Hd, horizon as [h|]; cbn [clear heap next_seq].
  - eexists. rewrite service_loop_two by done. split; [reflexivity|]. by rewrite peek_ahead_two.
  - eexists. rewrite service_loop_one by done. split; [reflexivity|]. rewrite peek_ahead_one. simpl.
    by case_match.
  - eexists. rewrite service_loop_one by done. split; [reflexivity|]. by rewrite peek_ahead_one.
  - eexists. cbn [service_loop]. rewrite fire_not_due' by (by rewrite Hd). split; [reflexivity|done].
Qed.

(** ** Properties *)

(** One timer service is one fire of the LAPIC timer plus the horizon
    test: it ends (as soon as the fire does), it leaves the LAPIC in the state
    of one [fire_timer_if_due] at [now], it reports the horizon exactly when
    the horizon has been reached, whatever was in the queue before, and the
    queue's next deadline is the earlier of the two deadlines it mirrored that
    are still ahead. *)
Theorem service_timers_spec fuel l q horizon now r :
  fire_timer_if_due fuel l now = Some r ->
  exists q', service_timers fuel l q horizon now = Some (r.2, q', {| fired_horizon := due now horizon |})
  /\ (due now horizon = true <-> exists h, horizon = Some h /\ h <= now)
  /\ peek_deadline q' = min_deadline (ahead now (timer_deadline l)) (ahead now horizon)
  /\ (forall d, peek_deadline q' = Some d -> now < d).
Proof.
  intros Hf. destruct (service_timers_eq fuel l q horizon now) as (q' & He & Hp).
  rewrite Hf in He. exists q'. split; [done|]. split.
  { destruct horizon as [h|]; simpl; [|split; [done|by intros (? & ? & _)]].
    rewrite Z.leb_le. split; [eauto|]. by intros (x & [= <-] & ?). }
  split; [done|]. intros d. rewrite Hp. unfold ahead.
  destruct (timer_deadline l) as [dl|], horizon as [h|];
    repeat (destruct (_ <=? _) eqn:?; bool_prop); simpl; intros [= <-]; lia.
Qed.

(** Deadline 100 with period 40 and horizon 200, serviced at 190. *)
Lemma service_timers_spec_witness :
  exists l' q', service_timers 5 toy_periodic queue_new (Some 200) 190
    = Some (l', q', {| fired_horizon := false |}) /\ peek_deadline q' = Some 200.
Proof.
  destruct (fire_timer_if_due 5 toy_periodic 190) as [r|] eqn:E; [|by vm_compute in E].
  destruct (service_timers_spec 5 toy_periodic queue_new (Some 200) 190 r E) as (q' & H1 & _ & H2 & _).
  exists r.2, q'. split; [exact H1|exact H2].
Defined.

(** The queue loses sight of a tick that has just been re-armed: after a
    service in which a periodic timer was due and no horizon is set, the LAPIC
    has a next deadline but the queue shows none, so a caller that reads only
    the queue sees no timer armed; [min_deadline] with the LAPIC's own deadline
    does see it. *)
Theorem rearmed_tick_not_in_queue fuel l q now dl :
  lapic_wf l -> timer_deadline l = Some dl -> dl <= now -> 0 < timer_period l ->
  dl + ((now - dl) / timer_period l + 1) * timer_period l < 2 ^ 64 ->
  (now - dl) / timer_period l + 1 < Z.of_nat fuel ->
  exists l' q' next, service_timers fuel l q None now = Some (l', q', {| fired_horizon := false |})
  /\ timer_deadline l' = Some next /\ now < next
  /\ peek_deadline q' = None
  /\ min_deadline (peek_deadline q') (timer_deadline l') = Some next.
Proof.
  intros Hl Hd Hle Hp H64 Hf. pose proof (lwf_deadline l Hl dl Hd) as [? _].
  pose proof (Z.mul_succ_div_gt (now - dl) (timer_period l) Hp).
  pose proof (fire_due_periodic fuel l now dl _ Hd Hle Hp
    (advance_total now _ dl fuel ltac:(lia) Hp H64 Hf)) as Hfire.
  destruct (service_timers_eq fuel l q None now) as (q' & He & Hpk). rewrite Hfire in He.
  assert (Hnone : peek_deadline q' = None).
  { rewrite Hpk, Hd. unfold ahead. by rewrite (proj2 (Z.leb_le dl now)). }
  eexists _, q', _. split; [exact He|]. cbn [snd].
  destruct (raise_timer_fields (l <| timer_deadline := Some (dl + ((now - dl) / timer_period l + 1)
    * timer_period l) |>)) as (Hdl & _ & _).
  rewrite Hdl. split; [reflexivity|]. rewrite Hnone. split; [lia|]. split; [done|]. reflexivity.
Qed.

Lemma rearmed_tick_not_in_queue_witness :
  exists l' q', service_timers 5 toy_periodic queue_new None 190
    = Some (l', q', {| fired_horizon := false |}) /\ peek_deadline q' = None.
Proof.
  destruct (rearmed_tick_not_in_queue 5 toy_periodic queue_new 190 100)
    as (l' & q' & next & H1 & _ & _ & H2 & _);
    [apply toy_periodic_wf | reflexivity | lia | reflexivity | reflexivity | reflexivity |].
  exists l', q'. split; [exact H1|exact H2].
Defined.

(** Routing an ISA line: the vector of the line's redirection entry
    becomes pending exactly when that entry is unmasked and edge triggered,
    and nothing else of the LAPIC changes. *)
Theorem raise_irq_spec l io irq :
  fits 8 irq -> irq < 24 ->
  let rte := redtbl io !!! Z.to_nat (isa_irq_to_ioapic_pin irq) in
  raise_irq l io irq =
    if Z.testbit rte 16 || Z.testbit rte 15 then l
    else l <| irr := vec_set (irr l) (rte mod 256) |>.
Proof.
  intros Hi Hlt. cbv zeta. unfold raise_irq. rewrite as_u8_id by done.
  set (pin := Z.to_nat (isa_irq_to_ioapic_pin irq)).
  assert (Hpin : (pin < 24)%nat).
  { unfold pin, isa_irq_to_ioapic_pin, fits in *. repeat case_match; lia. }
  destruct (edge_vector io pin) as [v|] eqn:E.
  - apply edge_vector_iff in E as (_ & -> & -> & ->). done.
  - destruct (Z.testbit (redtbl io !!! pin) 16) eqn:E16; [done|].
    destruct (Z.testbit (redtbl io !!! pin) 15) eqn:E15; [done|].
    assert (edge_vector io pin = Some (redtbl io !!! pin mod 256)) as Hs by (by apply edge_vector_iff).
    congruence.
Qed.

Lemma raise_irq_spec_witness :
  raise_irq toy_lapic (ioapic_new 2) SERIAL_IRQ = toy_lapic.
Proof. apply (raise_irq_spec toy_lapic (ioapic_new 2) SERIAL_IRQ); [unfold fits, SERIAL_IRQ; lia|unfold SERIAL_IRQ; lia]. Defined.
