(* ===== verification/Proto.v ===== *)
(** * The control protocol ([src/tdvmm-proto/src/lib.rs])

    The line-delimited JSON messages between host and guest agent: the message
    types, the frame trimming, the error codes and the reserved event kinds.
    The JSON library is the interface [Json]: its laws are what becomes of a
    compact document that is parsed again (nothing, past the nesting limit of
    the parser) and that it neither starts nor ends with whitespace.  The main
    property is that framing round-trips through any surrounding whitespace. *)

From Stdlib Require Import ZArith Lia.
From stdpp Require Import base numbers strings list.
From S2P Require Import Prelude.

Open Scope Z_scope.

Definition SCHEMA : Z := 4.
Definition MAX_LOGS_CHUNK_BYTES : Z := 128 * 1024.
Definition OP_FINISH : string := "finish".
Definition RESERVED_EVENT_KINDS : list string := [OP_FINISH; "ctl"].

Definition is_reserved_event_kind (kind : string) : bool :=
  bool_decide (kind ∈ RESERVED_EVENT_KINDS).

(** ** Messages *)

Record Request := {
  req_id : Z; req_op : string; req_container : option string; req_peer : option string;
  req_cmd : option (list string); req_timeout_s : option Z; req_cursor : option Z;
  req_max_bytes : option Z; req_exit : option Z; req_message : option string }.

Record ContainerInfo := {
  ci_name : string; ci_service : string; ci_state : string; ci_exit_code : Z; ci_health : string }.

(** [details] is an opaque JSON value of type [V]. *)
Record GuestEvent (V : Type) := {
  ev_kind : string; ev_name : string; ev_ok : option bool; ev_exit : option Z; ev_details : option V }.
Arguments Build_GuestEvent {V}.
Arguments ev_kind {V}.
Arguments ev_name {V}.
Arguments ev_ok {V}.
Arguments ev_exit {V}.
Arguments ev_details {V}.

Record Reply (V : Type) := {
  rep_id : option Z; rep_ok : option bool; rep_op : option string; rep_exit : option Z;
  rep_stdout : option string; rep_stderr : option string; rep_error : option string;
  rep_dur_ms : option Z; rep_containers : option (list ContainerInfo); rep_agent : option string;
  rep_schema : option Z; rep_build : option string; rep_data : option string;
  rep_next_cursor : option Z; rep_eof : option bool; rep_event : option (GuestEvent V);
  rep_seq : option Z }.
Arguments Build_Reply {V}.
Arguments rep_id {V}.
Arguments rep_agent {V}.
Arguments rep_schema {V}.
Arguments rep_build {V}.
Arguments rep_event {V}.
Arguments rep_seq {V}.
Arguments rep_data {V}.
Arguments rep_next_cursor {V}.
Arguments rep_eof {V}.
Arguments rep_ok {V}.
Arguments rep_error {V}.
Arguments rep_op {V}.
Arguments rep_exit {V}.
Arguments rep_stdout {V}.
Arguments rep_stderr {V}.
Arguments rep_dur_ms {V}.
Arguments rep_containers {V}.

#[export] Instance eta_Reply V : Settable (Reply V) := fun r => Build_Reply
  (rep_id r) (rep_ok r) (rep_op r) (rep_exit r) (rep_stdout r) (rep_stderr r) (rep_error r) (rep_dur_ms r)
  (rep_containers r) (rep_agent r) (rep_schema r) (rep_build r) (rep_data r) (rep_next_cursor r) (rep_eof r)
  (rep_event r) (rep_seq r).

Definition reply_default {V} : Reply V :=
  Build_Reply None None None None None None None None None None None None None None None None None.

Definition reply_hello {V} (agent build : string) : Reply V :=
  Build_Reply None None None None None None None None None (Some agent) (Some SCHEMA) (Some build)
    None None None None None.

Definition is_hello {V} (r : Reply V) : bool :=
  bool_decide (rep_id r = None) && bool_decide (is_Some (rep_agent r)).

Definition from_event {V} (s : Z) (e : GuestEvent V) : Reply V :=
  Build_Reply None None None None None None None None None None None None None None None (Some e) (Some s).

Definition is_event {V} (r : Reply V) : bool :=
  bool_decide (rep_id r = None) && match rep_event r with Some _ => true | None => false end.

Inductive ErrorKind :=
  | BadRequest | UnknownOp | MissingArgs | NoContainer | PodmanPs | PodmanExec | PodmanOp | Ip | Nft.

#[export] Instance ErrorKind_eq_dec : EqDecision ErrorKind.
Proof. solve_decision. Defined.

Definition error_code (k : ErrorKind) : string :=
  match k with
  | BadRequest => "bad_request"
  | UnknownOp => "unknown_op"
  | MissingArgs => "missing_args"
  | NoContainer => "no_container"
  | PodmanPs => "podman_ps"
  | PodmanExec => "podman_exec"
  | PodmanOp => "podman_op"
  | Ip => "ip"
  | Nft => "nft"
  end.

Definition error_msg (k : ErrorKind) (detail : string) : string :=
  (error_code k ++ ": " ++ detail)%string.

(** ** Framing *)

(** [u8::is_ascii_whitespace]: space, tab, LF, FF, CR. *)
Definition is_ascii_whitespace (b : Z) : bool :=
  (b =? 32) || (b =? 9) || (b =? 10) || (b =? 12) || (b =? 13).

(** [Iterator::rposition]. *)
Definition rposition {A} (p : A -> bool) (l : list A) : option nat :=
  match position p (reverse l) with
  | Some i => Some (length l - 1 - i)%nat
  | None => None
  end.

Definition trim_frame (line : list Z) : list Z :=
  let nonws b := negb (is_ascii_whitespace b) in
  let start := match position nonws line with Some i => i | None => length line end in
  let stop := match rposition nonws line with Some i => (i + 1)%nat | None => start end in
  slice start stop line.

(** How deep the parser follows arrays and objects: [serde_json] starts with
    128 levels, spends one on each and refuses the one that leaves none. *)
Definition JSON_DEPTH : nat := 127.

(** The JSON library on a message type.  [json_depth v]: how deep arrays and
    objects nest in the document of [v].  [json_norm v]: what that document
    reads back as, which for an opaque value inside [v] need not be [v] (a
    [Some] of null comes back as [None], a fraction may be rounded). *)
Class Json (T : Type) := {
  to_vec : T -> option (list Z);
  from_slice : list Z -> option T;
  json_depth : T -> nat;
  json_norm : T -> T;
  json_parse v bs : to_vec v = Some bs ->
    from_slice bs = if (json_depth v <=? JSON_DEPTH)%nat then Some (json_norm v) else None;
  json_limit bs v : from_slice bs = Some v -> (json_depth v <= JSON_DEPTH)%nat;
  json_compact v bs : to_vec v = Some bs ->
    exists a b, head bs = Some a /\ last bs = Some b
    /\ is_ascii_whitespace a = false /\ is_ascii_whitespace b = false;
}.

Definition encode_line `{Json T} (v : T) : option (list Z) := (fun bs => bs ++ [10]) <$> to_vec v.

Definition decode_line `{Json T} (line : list Z) : option T := from_slice (trim_frame line).

(** A value that its document gives back. *)
Definition json_exact `{Json T} (v : T) : Prop := (json_depth v <= JSON_DEPTH)%nat /\ json_norm v = v.

(** What nests no foreign value is given back: every request, and every reply
    that carries no event. *)
Class RequestJson `{Json Request} : Prop := request_exact (r : Request) : json_exact r.
Class ReplyJson (V : Type) `{Json (Reply V)} : Prop :=
  reply_exact (r : Reply V) : rep_event r = None -> json_exact r.

(** ** Lemmas *)

Lemma json_roundtrip `{Json T} (v : T) bs : json_exact v -> to_vec v = Some bs -> from_slice bs = Some v.
Proof. intros [Hd Hn] Hb. by rewrite (json_parse v bs Hb), (proj2 (Nat.leb_le _ _) Hd), Hn. Qed.

Definition all_ws (l : list Z) : Prop := Forall (fun b => is_ascii_whitespace b = true) l.

Lemma position_skip {A} (p : A -> bool) pre x post :
  Forall (fun y => p y = false) pre -> p x = true ->
  position p (pre ++ x :: post) = Some (length pre).
Proof. induction 1 as [|y pre Hy _ IH]; intros Hx; simpl; [by rewrite Hx|]. by rewrite Hy, IH. Qed.

Lemma rposition_skip {A} (p : A -> bool) pre x post :
  Forall (fun y => p y = false) post -> p x = true ->
  rposition p (pre ++ x :: post) = Some (length pre).
Proof.
  intros Hf Hx. unfold rposition. rewrite reverse_app, reverse_cons, <- app_assoc. simpl.
  rewrite position_skip; [|by apply Forall_reverse|done].
  rewrite length_reverse, length_app. simpl. f_equal. lia.
Qed.

Lemma nonws_false l : all_ws l -> Forall (fun b => negb (is_ascii_whitespace b) = false) l.
Proof. intros H. eapply Forall_impl; [exact H|]. by intros b ->. Qed.

(** Trimming removes exactly the surrounding whitespace. *)
Lemma trim_frame_core pre core post a b :
  all_ws pre -> all_ws post -> head core = Some a -> last core = Some b ->
  is_ascii_whitespace a = false -> is_ascii_whitespace b = false ->
  trim_frame (pre ++ core ++ post) = core.
Proof.
  intros Hpre Hpost Ha Hb Hwa Hwb. unfold trim_frame. cbv zeta.
  destruct core as [|a' core]; [done|]. simpl in Ha. simplify_eq.
  apply last_Some in Hb as [l' Hl'].
  change (pre ++ (a :: core) ++ post) with (pre ++ a :: (core ++ post)).
  rewrite position_skip by (try apply nonws_false; by rewrite ?Hwa).
  change (pre ++ a :: core ++ post) with (pre ++ (a :: core) ++ post).
  rewrite Hl'. rewrite <- (app_assoc l'), (app_assoc pre). cbn [app].
  rewrite rposition_skip by (try apply nonws_false; by rewrite ?Hwb).
  unfold slice. rewrite <- (app_assoc pre), drop_app_length.
  replace (length (pre ++ l') + 1 - length pre)%nat with (length (l' ++ [b])) by (rewrite !length_app; simpl; lia).
  change (l' ++ b :: post) with (l' ++ [b] ++ post). rewrite (app_assoc l'). apply take_app_length.
Qed.

Lemma first_nonws l :
  all_ws l \/ exists pre a r, l = pre ++ a :: r /\ all_ws pre /\ is_ascii_whitespace a = false.
Proof.
  induction l as [|x l IH]; [left; constructor|]. destruct (is_ascii_whitespace x) eqn:E.
  - destruct IH as [IH|(pre & a & r & -> & ? & ?)]; [left; by constructor|].
    right. exists (x :: pre), a, r. split_and!; try done. by constructor.
  - right. exists [], x, l. split_and!; try done. constructor.
Qed.

Lemma last_nonws l :
  all_ws l \/ exists q b post, l = q ++ b :: post /\ all_ws post /\ is_ascii_whitespace b = false.
Proof.
  destruct (first_nonws (reverse l)) as [H|(pre & a & r & Hl & Hpre & Ha)].
  - left. apply Forall_reverse in H. by rewrite reverse_involutive in H.
  - right. exists (reverse r), a, (reverse pre). split_and!; [|by apply Forall_reverse|done].
    rewrite <- (reverse_involutive l), Hl, reverse_app, reverse_cons, <- app_assoc. done.
Qed.

(** Every line is blank or has a core between whitespace. *)
Lemma frame_split l :
  all_ws l \/ exists pre core post a b, l = pre ++ core ++ post /\ all_ws pre /\ all_ws post
  /\ head core = Some a /\ last core = Some b
  /\ is_ascii_whitespace a = false /\ is_ascii_whitespace b = false.
Proof.
  destruct (first_nonws l) as [?|(pre & a & r & -> & Hpre & Ha)]; [by left|right].
  destruct (last_nonws (a :: r)) as [Hw|(q & b & post & Hq & Hpost & Hb)].
  { inversion Hw; congruence. }
  exists pre, (q ++ [b]), post, a, b. rewrite Hq, <- app_assoc. split_and!; try done.
  - destruct q as [|x q]; simpl in *; congruence.
  - apply last_snoc.
Qed.

Lemma trim_frame_blank l : all_ws l -> trim_frame l = [].
Proof.
  intros Hl. unfold trim_frame, rposition. cbv zeta. apply nonws_false in Hl.
  rewrite (proj2 (position_None _ l) Hl).
  rewrite (proj2 (position_None _ (reverse l))) by (by apply Forall_reverse).
  unfold slice. by rewrite Nat.sub_diag.
Qed.

(** A toy codec for witnesses: a message is a digit string of its value. *)
Definition toy_to_vec (n : nat) : option (list Z) := Some (123 :: replicate n 49 ++ [125]).

Definition toy_from_slice (bs : list Z) : option nat :=
  let n := (length bs - 2)%nat in
  if bool_decide (bs = 123 :: replicate n 49 ++ [125]) then Some n else None.

Lemma toy_json_roundtrip v bs : toy_to_vec v = Some bs -> toy_from_slice bs = Some v.
Proof.
  intros [= <-]. unfold toy_from_slice. cbn [length]. rewrite length_app, length_replicate. cbn [length].
  replace (S (v + 1) - 2)%nat with v by lia. by rewrite bool_decide_eq_true_2.
Qed.

Lemma toy_json_compact v bs : toy_to_vec v = Some bs ->
  exists a b, head bs = Some a /\ last bs = Some b
  /\ is_ascii_whitespace a = false /\ is_ascii_whitespace b = false.
Proof.
  intros [= <-]. exists 123, 125. split_and!; try done.
  change (123 :: replicate v 49 ++ [125]) with ((123 :: replicate v 49) ++ [125]). by rewrite last_snoc.
Qed.

Lemma toy_depth_ok : (1 <= JSON_DEPTH)%nat.
Proof. unfold JSON_DEPTH. lia. Qed.

#[export] Instance toy_json : Json nat := {|
  to_vec := toy_to_vec; from_slice := toy_from_slice; json_depth _ := 1%nat; json_norm v := v;
  json_parse := toy_json_roundtrip; json_limit _ _ _ := toy_depth_ok; json_compact := toy_json_compact |}.

(** ** Properties *)

(** Framing round-trips: a message its document gives back, encoded as a
    line, decodes to itself,
    also with any run of whitespace before it and any (such as CR LF) after
    it. *)
Theorem frame_roundtrip `{Json T} (v : T) line pre post :
  json_exact v -> encode_line v = Some line -> all_ws pre -> all_ws post ->
  decode_line (pre ++ line ++ post) = Some v.
Proof.
  intros Hx (bs & Hbs & ->)%fmap_Some Hpre Hpost. unfold decode_line.
  destruct (json_compact v bs Hbs) as (a & b & Ha & Hb & Hwa & Hwb).
  rewrite <- app_assoc. rewrite (trim_frame_core pre bs ([10] ++ post) a b); try done.
  - by apply json_roundtrip.
  - by constructor.
Qed.

Lemma frame_roundtrip_witness : decode_line ([32; 32] ++ [123; 49; 49; 125; 10] ++ [13; 10]) = Some 2%nat.
Proof.
  apply (frame_roundtrip 2%nat [123; 49; 49; 125; 10] [32; 32] [13; 10]);
    [split; [exact toy_depth_ok|reflexivity] | reflexivity | repeat constructor | repeat constructor].
Defined.

(** Trimming is idempotent and blank lines vanish: the trimmed frame of
    any line is a contiguous part of it with no whitespace at either end, and
    it is empty exactly when the line is all whitespace. *)
Theorem trim_frame_spec line :
  exists pre post, line = pre ++ trim_frame line ++ post /\ all_ws pre /\ all_ws post
  /\ (trim_frame line = [] <-> all_ws line)
  /\ (forall a, head (trim_frame line) = Some a -> is_ascii_whitespace a = false)
  /\ (forall b, last (trim_frame line) = Some b -> is_ascii_whitespace b = false).
Proof.
  destruct (frame_split line) as [Hw|(pre & core & post & a & b & -> & Hpre & Hpost & Ha & Hb & Hwa & Hwb)].
  - rewrite trim_frame_blank by done. exists line, []. rewrite app_nil_r.
    split_and!; try done. constructor.
  - rewrite (trim_frame_core pre core post a b) by done. exists pre, post. split_and!; try done.
    + split; [by intros ->|]. intros Hw. apply Forall_app in Hw as [_ Hw]. apply Forall_app in Hw as [Hw _].
      destruct core as [|x core]; [done|]. inversion Hw; simpl in Ha; congruence.
    + intros x. by rewrite Ha; intros [= <-].
    + intros x. by rewrite Hb; intros [= <-].
Qed.
