(* ===== verification/Driver.v ===== *)
(** * Driver verdicts and exit codes ([src/src/driver.rs], [src/src/exit.rs])

    The host-side state a driven run accumulates from agent lines (readiness,
    the first [finish], command counts) and the map of stop reasons and
    verdicts to the process exit code.  The properties: the first finish wins
    however many lines follow, the counts are those of the lines seen, and the
    exit-code contract. *)

From Stdlib Require Import ZArith Lia.
From stdpp Require Import base numbers strings pretty list.
From S2P Require Import Prelude.
From S2P Require Import Proto.

Open Scope Z_scope.

(** ** Exit codes ([exit.rs]) *)

Definition EXIT_GUEST_STOP : Z := 0.
Definition EXIT_PASS : Z := EXIT_GUEST_STOP.
Definition EXIT_FAIL : Z := 1.
Definition EXIT_HORIZON : Z := 3.
Definition EXIT_INFRA : Z := 2.

Inductive StopReason := GuestShutdown | GuestSystemEvent | GuestHalt | Horizon | DriverFinish.

#[export] Instance StopReason_eq_dec : EqDecision StopReason.
Proof. solve_decision. Defined.

Definition stop_exit_code (s : StopReason) : Z :=
  match s with
  | GuestShutdown | GuestSystemEvent | GuestHalt => EXIT_GUEST_STOP
  | Horizon => EXIT_HORIZON
  | DriverFinish => EXIT_PASS
  end.

Definition stop_as_str (s : StopReason) : string :=
  match s with
  | GuestShutdown => "guest_shutdown"
  | GuestSystemEvent => "guest_system_event"
  | GuestHalt => "guest_halt"
  | Horizon => "horizon"
  | DriverFinish => "driver_finish"
  end.

Definition stop_human (s : StopReason) : string :=
  match s with
  | GuestShutdown => "guest shut down (triple fault or reboot)"
  | GuestSystemEvent => "guest requested reset or shutdown"
  | GuestHalt => "guest halted (poweroff)"
  | Horizon => "--max-virtual-time horizon reached"
  | DriverFinish => "a container finished the run with a verdict"
  end.

Record RunOutcome := { outcome_stop : StopReason; outcome_exit_code : Z }.

(** ** Verdicts ([driver.rs]) *)

Record Verdict := { verdict_code : Z; verdict_message : option string }.

Definition verdict_exit_code (v : Verdict) : Z := if verdict_code v =? 0 then EXIT_PASS else EXIT_FAIL.

Definition verdict_label (v : Verdict) : string := if verdict_code v =? 0 then "PASS" else "FAIL".

Record DriverRun := {
  agent_ready : bool; verdict : option Verdict; commands : Z; failed_commands : Z }.

#[export] Instance eta_DriverRun : Settable DriverRun := fun d => Build_DriverRun
  (agent_ready d) (verdict d) (commands d) (failed_commands d).

Definition driver_default : DriverRun :=
  {| agent_ready := false; verdict := None; commands := 0; failed_commands := 0 |}.

Section driver.
Context {V : Type} `{Json (Reply V)}.

Definition verdict_of (ev : GuestEvent V) : Verdict :=
  {| verdict_code := default EXIT_INFRA (ev_exit ev);
     verdict_message := if bool_decide (ev_name ev = "") then None else Some (ev_name ev) |}.

(** The trace lines it logs are not modelled. *)
Definition on_event (d : DriverRun) (ev : GuestEvent V) : bool * DriverRun :=
  if bool_decide (ev_kind ev = OP_FINISH) then
    match verdict d with
    | Some _ => (true, d)
    | None => (true, d <| verdict := Some (verdict_of ev) |>)
    end
  else if bool_decide (ev_kind ev = "ctl") then
    let d := d <| commands := as_u64 (commands d + 1) |> in
    let ok := bool_decide (ev_ok ev = Some true) in
    (false, if negb ok then d <| failed_commands := as_u64 (failed_commands d + 1) |> else d)
  else (false, d).

Definition on_agent_line (d : DriverRun) (line : list Z) : bool * DriverRun :=
  match decode_line (T := Reply V) line with
  | None => (false, d)
  | Some reply =>
      if is_hello reply then (false, d <| agent_ready := true |>)
      else match rep_event reply with
           | Some ev => on_event d ev
           | None => (false, d)
           end
  end.

(** Feed lines, whether or not the caller stops at a verdict. *)
Definition on_agent_lines (d : DriverRun) (lines : list (list Z)) : DriverRun :=
  foldl (fun d l => snd (on_agent_line d l)) d lines.

Definition was_driven (d : DriverRun) : bool :=
  match verdict d with Some _ => true | None => 0 <? commands d end.

Definition driver_summary (d : DriverRun) : option string :=
  if negb (was_driven d) then None
  else
    let v := match verdict d with
             | Some v => (verdict_label v ++ " (finish " ++ pretty (verdict_code v) ++ ")")%string
             | None => "NO VERDICT (no container called finish)"%string
             end in
    Some ("==== tdvmm driver: " ++ v ++ " | " ++ pretty (commands d) ++ " control command(s), "
          ++ pretty (failed_commands d) ++ " failed | agent "
          ++ (if agent_ready d then "ready" else "NEVER READY") ++ " ====")%string.

Definition run_outcome (d : DriverRun) (stop : StopReason) : RunOutcome :=
  {| outcome_stop := stop;
     outcome_exit_code := match verdict d with
                          | Some v => verdict_exit_code v
                          | None => stop_exit_code stop
                          end |}.

(** ** Specification of a line *)

(** The event a line carries, if it is not a hello. *)
Definition line_event (line : list Z) : option (GuestEvent V) :=
  match decode_line (T := Reply V) line with
  | Some reply => if is_hello reply then None else rep_event reply
  | None => None
  end.

Definition finish_of (line : list Z) : option Verdict :=
  match line_event line with
  | Some ev => if bool_decide (ev_kind ev = OP_FINISH) then Some (verdict_of ev) else None
  | None => None
  end.

Definition is_ctl (line : list Z) : bool :=
  match line_event line with Some ev => bool_decide (ev_kind ev = "ctl") | None => false end.

(** The first verdict in a list of lines. *)
Definition first_finish (lines : list (list Z)) : option Verdict := head (omap finish_of lines).

(** ** Lemmas *)

Lemma on_agent_line_verdict d line :
  verdict (snd (on_agent_line d line)) =
    match verdict d with Some v => Some v | None => finish_of line end.
Proof.
  unfold on_agent_line, finish_of, line_event.
  destruct (decode_line line) as [r|]; [|simpl; by destruct (verdict d)].
  destruct (is_hello r); [simpl; by destruct (verdict d)|].
  destruct (rep_event r) as [ev|]; [|simpl; by destruct (verdict d)]. unfold on_event.
  destruct (verdict d) as [v|] eqn:E; repeat case_bool_decide; simpl; by rewrite ?E.
Qed.

(** A line that stops the run leaves a verdict. *)
Lemma on_agent_line_stops d line d' : on_agent_line d line = (true, d') -> is_Some (verdict d').
Proof.
  unfold on_agent_line. destruct (decode_line line) as [r|]; [|done]. destruct (is_hello r); [done|].
  destruct (rep_event r) as [ev|]; [|done]. unfold on_event.
  repeat case_bool_decide; try done. destruct (verdict d) eqn:E; intros [= <-]; [by rewrite E|by eexists].
Qed.

Lemma on_agent_lines_verdict lines d :
  verdict (on_agent_lines d lines) =
    match verdict d with Some v => Some v | None => first_finish lines end.
Proof.
  revert d. induction lines as [|l lines IH]; intros d; simpl; [by destruct (verdict d)|].
  rewrite IH, on_agent_line_verdict. destruct (verdict d) as [v|]; [done|].
  unfold first_finish. csimpl. by destruct (finish_of l).
Qed.

Lemma on_agent_line_counts d line :
  0 <= failed_commands d <= commands d -> commands d + 1 < 2 ^ 64 ->
  let d' := snd (on_agent_line d line) in
  commands d' = commands d + (if is_ctl line then 1 else 0)
  /\ 0 <= failed_commands d' <= commands d'.
Proof.
  intros Hf Hc. unfold on_agent_line, is_ctl, line_event. destruct (decode_line line) as [r|]; [|simpl; lia].
  destruct (is_hello r); [simpl; lia|]. destruct (rep_event r) as [ev|]; [|simpl; lia]. unfold on_event.
  assert (Hne : ev_kind ev = OP_FINISH -> ev_kind ev = "ctl" -> False) by (intros -> ?; done).
  repeat case_bool_decide; try tauto; try (destruct (verdict d)); simpl;
    rewrite ?as_u64_id by (unfold fits; lia); lia.
Qed.

Lemma on_agent_lines_counts lines : forall d,
  0 <= failed_commands d <= commands d -> commands d + Z.of_nat (length lines) < 2 ^ 64 ->
  commands (on_agent_lines d lines) = commands d + Z.of_nat (length (filter (fun l => is_ctl l = true) lines))
  /\ 0 <= failed_commands (on_agent_lines d lines) <= commands (on_agent_lines d lines).
Proof.
  induction lines as [|l lines IH]; intros d Hf Hc; simpl; [split; [lia|done]|]. simpl in Hc.
  destruct (on_agent_line_counts d l Hf ltac:(lia)) as [H1 H2].
  destruct (IH (snd (on_agent_line d l))) as [H3 H4].
  { done. } { destruct (is_ctl l); lia. }
  split; [|done]. rewrite H3, H1, filter_cons. case_decide as E; rewrite ?E; csimpl.
  - lia.
  - destruct (is_ctl l); [done|]. lia.
Qed.

(** ** Properties *)

(** First finish wins: after any lines at all, the recorded verdict is
    the one of the first [finish] event among them (a malformed finish graded
    as infrastructure, never a pass), a line stops the run exactly when it is
    a finish, and the command counters count the [ctl] lines. *)
Theorem first_finish_wins lines line :
  Z.of_nat (length lines) < 2 ^ 64 ->
  let d := on_agent_lines driver_default lines in
  verdict d = first_finish lines
  /\ (fst (on_agent_line d line) = true <-> is_Some (finish_of line))
  /\ commands d = Z.of_nat (length (filter (fun l => is_ctl l = true) lines))
  /\ 0 <= failed_commands d <= commands d
  /\ (driver_summary d = None <-> first_finish lines = None /\ commands d = 0).
Proof.
  intros Hl d. destruct (on_agent_lines_counts lines driver_default) as [Hc Hf]; [done|simpl; lia|].
  assert (Hv : verdict d = first_finish lines) by (unfold d; by rewrite on_agent_lines_verdict).
  split; [done|]. split; [|split; [done|split; [done|]]].
  - unfold on_agent_line, finish_of, line_event. destruct (decode_line line) as [r|]; simpl; [|by rewrite is_Some_alt].
    destruct (is_hello r); [by rewrite is_Some_alt|]. destruct (rep_event r) as [ev|]; [|by rewrite is_Some_alt].
    unfold on_event. repeat case_bool_decide; try (destruct (verdict d)); simpl; rewrite is_Some_alt; done.
  - fold d in Hf. unfold driver_summary, was_driven. rewrite Hv. destruct (first_finish lines); simpl; [split; [done|by intros [? _]]|].
    destruct (0 <? commands d) eqn:E; bool_prop; simpl.
    + split; [done|]. intros [_ ?]. lia.
    + split; [|done]. intros _. split; [done|lia].
Qed.

(** The exit-code contract: a driven run exits 0 exactly when the first
    finish carried code 0 and 1 otherwise (a finish without a code included),
    whatever the stop reason; an undriven run exits 3 at the horizon and 0 on
    a guest stop; no run exits with the raw code or with the infrastructure
    code 2. *)
Theorem exit_code_contract lines stop :
  let code := outcome_exit_code (run_outcome (on_agent_lines driver_default lines) stop) in
  match first_finish lines with
  | Some v => code = (if decide (verdict_code v = 0) then 0 else 1)
  | None => code = (if decide (stop = Horizon) then 3 else 0)
  end
  /\ (forall ev line, line_event line = Some ev -> ev_kind ev = OP_FINISH -> ev_exit ev = None ->
      first_finish lines = finish_of line -> code = 1).
Proof.
  cbv zeta. unfold run_outcome. cbn [outcome_exit_code]. rewrite on_agent_lines_verdict. cbn [verdict driver_default].
  split.
  - destruct (first_finish lines) as [v|].
    + unfold verdict_exit_code, EXIT_PASS, EXIT_GUEST_STOP, EXIT_FAIL.
      destruct (verdict_code v =? 0) eqn:E; bool_prop; by case_decide.
    + destruct stop; done.
  - intros ev line He Hk Hx ->. unfold finish_of. rewrite He, bool_decide_eq_true_2 by done.
    unfold verdict_of. by rewrite Hx.
Qed.
End driver.

(** ** A concrete protocol for the witnesses *)

(** Lines "{0}", "{1}", "{c}" for a passing finish, a failing finish and a
    control command. *)
Definition toy_event (kind : string) (code : option Z) : Reply unit :=
  from_event 0 {| ev_kind := kind; ev_name := ""; ev_ok := None; ev_exit := code; ev_details := None |}.

Definition toy_reply_of (bs : list Z) : option (Reply unit) :=
  if bool_decide (bs = [123; 48; 125]) then Some (toy_event "finish" (Some 0))
  else if bool_decide (bs = [123; 49; 125]) then Some (toy_event "finish" (Some 1))
  else if bool_decide (bs = [123; 99; 125]) then Some (toy_event "ctl" None)
  else None.

#[export] Program Instance toy_reply_json : Json (Reply unit) := {|
  to_vec _ := None; from_slice := toy_reply_of; json_depth _ := 1%nat; json_norm r := r |}.
Next Obligation. done. Qed.
Next Obligation. intros. exact toy_depth_ok. Qed.
Next Obligation. done. Qed.

Lemma first_finish_wins_witness :
  let d := on_agent_lines driver_default [[123; 99; 125]; [123; 49; 125; 13]; [123; 48; 125]] in
  verdict d = Some {| verdict_code := 1; verdict_message := None |} /\ commands d = 1.
Proof.
  destruct (first_finish_wins [[123; 99; 125]; [123; 49; 125; 13]; [123; 48; 125]] []) as (H1 & _ & H2 & _);
    [simpl; lia|].
  cbv zeta. rewrite H1, H2. split; by vm_compute.
Defined.
