(* ===== verification/Text.v ===== *)
(** * Numbers as text, and fallible [&mut] code

    What several components use of the standard library: [format!] of an
    unsigned integer in a radix (with and without zero padding), the value of
    a digit string ([from_str_radix]), the bytes of a string literal, and the
    state-and-error monad of an operation that takes [&mut self] and returns a
    [Result].  The main facts are that printing and reading a number are
    inverse and how many digits a bounded number takes. *)

From Stdlib Require Import ZArith Lia Ascii String.
From stdpp Require Import base numbers strings list.
From S2P Require Import Prelude.

Open Scope Z_scope.

(** ** String literals as bytes *)

Definition byte_of_ascii (a : ascii) : Z := Z.of_N (N_of_ascii a).
Definition lit (s : string) : list Z := byte_of_ascii <$> list_ascii_of_string s.

(** ** Digits *)

(** The character of a digit; hexadecimal letters start at [letter]. *)
Definition digit_char (letter d : Z) : Z := if d <? 10 then 48 + d else letter + (d - 10).

(** The digits of [n], most significant first; a number below [base ^ fuel]
    is printed in full. *)
Fixpoint digits (fuel : nat) (base n : Z) : list Z :=
  match fuel with
  | O => []
  | S fuel => (if n / base =? 0 then [] else digits fuel base (n / base)) ++ [n mod base]
  end.

(** [format!("{}")], [format!("{:x}")], [format!("{:X}")] and
    [format!("{:o}")] on an unsigned value of at most 64 bits. *)
Definition radix (letter base n : Z) : list Z := digit_char letter <$> digits 64 base n.
Definition dec (n : Z) : list Z := radix 97 10 n.
Definition hex_lower (n : Z) : list Z := radix 97 16 n.
Definition hex_upper (n : Z) : list Z := radix 65 16 n.
Definition octal (n : Z) : list Z := radix 97 8 n.

(** [{:0width}]: zeros on the left up to [width] characters. *)
Definition zero_pad (width : nat) (s : list Z) : list Z := replicate (width - length s) 48 ++ s.

(** The digit a character stands for in [base] ([char::to_digit]). *)
Definition to_digit (base c : Z) : option Z :=
  let d := if (48 <=? c) && (c <=? 57) then c - 48
           else if (97 <=? c) && (c <=? 122) then c - 97 + 10
           else if (65 <=? c) && (c <=? 90) then c - 65 + 10
           else base in
  if d <? base then Some d else None.

Definition of_digits (base : Z) (ds : list Z) : Z := fold_left (fun acc d => acc * base + d) ds 0.

(** [u64::from_str_radix] and the like: an empty string, a sign alone, a
    character that is no digit and an overflow are errors; a leading [+] is
    accepted. *)
Inductive ParseIntError := PEmpty | PInvalidDigit | PPosOverflow.

Fixpoint parse_digits (w base acc : Z) (s : list Z) : result ParseIntError Z :=
  match s with
  | [] => Ok acc
  | c :: s =>
      match to_digit base c with
      | None => Err PInvalidDigit
      | Some d => if acc * base + d <? 2 ^ w then parse_digits w base (acc * base + d) s else Err PPosOverflow
      end
  end.

Definition from_str_radix (w base : Z) (s : list Z) : result ParseIntError Z :=
  match s with
  | [] => Err PEmpty
  | [43] | [45] => Err PInvalidDigit
  | 43 :: s => parse_digits w base 0 s
  | s => parse_digits w base 0 s
  end.

(** [str::split(c)]: always at least one part. *)
Fixpoint split_char (c : Z) (s : list Z) : list Z * list (list Z) :=
  match s with
  | [] => ([], [])
  | b :: s => let '(first, rest) := split_char c s in if b =? c then ([], first :: rest) else (b :: first, rest)
  end.

(** [[_]::join]. *)
Fixpoint join_with (sep : list Z) (l : list (list Z)) : list Z :=
  match l with [] => [] | [s] => s | s :: l => s ++ sep ++ join_with sep l end.

(** Byte order ([Ord] on [str] and [Vec<u8>]). *)
Fixpoint bytes_leb (a b : list Z) : bool :=
  match a, b with
  | [], _ => true
  | _ :: _, [] => false
  | x :: a, y :: b => (x <? y) || ((x =? y) && bytes_leb a b)
  end.

(** ** State and errors *)

(** A fallible [&mut] operation: the state survives an error. *)
Definition SE (E S A : Type) : Type := S -> result E A * S.

#[export] Instance SE_ret {E S} : MRet (SE E S) := fun A a s => (Ok a, s).

#[export] Instance SE_bind {E S} : MBind (SE E S) := fun A B k m s =>
  match m s with
  | (Ok a, s') => k a s'
  | (Err e, s') => (Err e, s')
  end.

Definition fail {E S A} (e : E) : SE E S A := fun s => (Err e, s).

(** [let _ = op;]: the error is dropped, the effect stays. *)
Definition ignore {E E' S A} (m : SE E S A) : SE E' S unit := fun s => (Ok tt, (m s).2).

(** [let r = op;]: the result is held. *)
Definition attempt {E E' S A} (m : SE E S A) : SE E' S (result E A) := fun s => let '(r, s) := m s in (Ok r, s).

(** [op.map_err(f)?]. *)
Definition map_err {E E' S A} (f : E -> E') (m : SE E S A) : SE E' S A := fun s =>
  match m s with (Ok a, s) => (Ok a, s) | (Err e, s) => (Err (f e), s) end.

Lemma result_bind_Ok {E A B} (m : result E A) (k : A -> result E B) b :
  (m ≫= k) = Ok b <-> exists a, m = Ok a /\ k a = Ok b.
Proof. destruct m as [a|e]; cbn; naive_solver. Qed.

Lemma SE_bind_ok {E S A B} (m : SE E S A) (k : A -> SE E S B) s b s' :
  (m ≫= k) s = (Ok b, s') -> exists a s1, m s = (Ok a, s1) /\ k a s1 = (Ok b, s').
Proof. unfold mbind, SE_bind. destruct (m s) as [[a|e] s1]; [by exists a, s1|done]. Qed.

(** ** Lemmas *)

Lemma of_digits_app base ds ds' :
  of_digits base (ds ++ ds') = fold_left (fun acc d => acc * base + d) ds' (of_digits base ds).
Proof. unfold of_digits. by rewrite fold_left_app. Qed.

Lemma digits_value fuel base n :
  1 < base -> 0 <= n < base ^ Z.of_nat fuel -> of_digits base (digits fuel base n) = n.
Proof.
  intros Hb. revert n. induction fuel as [|fuel IH]; intros n Hn; [simpl in *; rewrite Z.pow_0_r in Hn; unfold of_digits; simpl; lia|].
  cbn [digits]. rewrite of_digits_app. cbn [fold_left].
  assert (Hq : 0 <= n / base < base ^ Z.of_nat fuel).
  { split; [apply Z.div_pos; lia|]. apply Z.div_lt_upper_bound; [lia|].
    rewrite Nat2Z.inj_succ, Z.pow_succ_r in Hn by lia. lia. }
  pose proof (Z.div_mod n base ltac:(lia)).
  destruct (n / base =? 0) eqn:E; bool_prop; [unfold of_digits; cbn [fold_left]; lia|]. rewrite IH by done. lia.
Qed.

Lemma digits_range fuel base n : 1 < base -> Forall (fun d => 0 <= d < base) (digits fuel base n).
Proof.
  intros Hb. revert n. induction fuel as [|fuel IH]; intros n; cbn [digits]; [constructor|].
  apply Forall_app. split; [by destruct (_ =? 0)|].
  apply Forall_singleton, Z.mod_pos_bound. lia.
Qed.

Lemma digits_length fuel base n w :
  1 < base -> 0 <= n < base ^ Z.of_nat w -> (0 < w)%nat -> (length (digits fuel base n) <= w)%nat.
Proof.
  intros Hb. revert n w. induction fuel as [|fuel IH]; intros n w Hn Hw; cbn [digits]; [simpl; lia|].
  rewrite length_app. cbn [length]. destruct (n / base =? 0) eqn:E; [simpl; lia|]. bool_prop.
  destruct w as [|[|w]]; [lia| |].
  - exfalso. change (Z.of_nat 1) with 1 in Hn. rewrite Z.pow_1_r in Hn. by rewrite Z.div_small in E.
  - assert (0 <= n / base < base ^ Z.of_nat (S w)).
    { split; [apply Z.div_pos; lia|]. apply Z.div_lt_upper_bound; [lia|].
      rewrite (Nat2Z.inj_succ (S w)), Z.pow_succ_r in Hn by lia. lia. }
    specialize (IH (n / base) (S w) ltac:(done) ltac:(lia)). lia.
Qed.

Lemma digits_nonempty fuel base n : digits (S fuel) base n <> [].
Proof. cbn [digits]. intros E%app_nil. by destruct E. Qed.

Lemma to_digit_char base letter d :
  (letter = 97 \/ letter = 65) -> 1 < base <= 36 -> 0 <= d < base -> to_digit base (digit_char letter d) = Some d.
Proof.
  intros Hl Hb Hd. unfold to_digit, digit_char.
  assert (forall x, x < base -> (if x <? base then Some x else None) = Some x) as Hx.
  { intros x Hx. by rewrite (proj2 (Z.ltb_lt _ _)). }
  destruct (d <? 10) eqn:E; bool_prop.
  - rewrite (proj2 (Z.leb_le 48 _)), (proj2 (Z.leb_le _ 57)) by lia. cbn [andb]. rewrite Hx by lia. f_equal. lia.
  - destruct Hl as [-> | ->].
    + rewrite (proj2 (Z.leb_gt _ 57)) by lia. rewrite andb_false_r.
      rewrite (proj2 (Z.leb_le 97 _)), (proj2 (Z.leb_le _ 122)) by lia. cbn [andb]. rewrite Hx by lia. f_equal. lia.
    + rewrite (proj2 (Z.leb_gt _ 57)) by lia. rewrite andb_false_r.
      rewrite (proj2 (Z.leb_gt 97 _)) by lia. cbn [andb].
      rewrite (proj2 (Z.leb_le 65 _)), (proj2 (Z.leb_le _ 90)) by lia. cbn [andb]. rewrite Hx by lia. f_equal. lia.
Qed.

Lemma digit_char_byte letter d : (letter = 97 \/ letter = 65) -> 0 <= d < 36 -> 48 <= digit_char letter d <= 122.
Proof. intros Hl Hd. unfold digit_char. destruct (d <? 10) eqn:E; bool_prop; lia. Qed.

Lemma fold_left_mono base ds acc : 1 < base -> Forall (fun d => 0 <= d < base) ds -> 0 <= acc ->
  acc <= fold_left (fun acc d => acc * base + d) ds acc.
Proof.
  intros Hb Hds. revert acc. induction Hds as [|d ds Hd _ IH]; intros acc Ha; cbn [fold_left]; [lia|].
  specialize (IH (acc * base + d) ltac:(nia)). nia.
Qed.

(** Reading printed digits, after any that were read before. *)
Lemma parse_digits_chars w base letter ds acc :
  (letter = 97 \/ letter = 65) -> 1 < base <= 36 -> Forall (fun d => 0 <= d < base) ds -> 0 <= acc ->
  fold_left (fun acc d => acc * base + d) ds acc < 2 ^ w ->
  parse_digits w base acc (digit_char letter <$> ds) = Ok (fold_left (fun acc d => acc * base + d) ds acc).
Proof.
  intros Hl Hb Hds. revert acc. induction Hds as [|d ds Hd Hds IH]; intros acc Ha Hw; [done|].
  cbn [fmap list_fmap parse_digits fold_left] in *. rewrite to_digit_char by done.
  pose proof (fold_left_mono base ds (acc * base + d) ltac:(lia) Hds ltac:(nia)).
  rewrite (proj2 (Z.ltb_lt _ _)) by lia. apply IH; [nia|done].
Qed.

Lemma parse_digits_zeros w base k s : 1 < base -> 0 <= w ->
  parse_digits w base 0 (replicate k 48 ++ s) = parse_digits w base 0 s.
Proof.
  intros Hb Hw. induction k as [|k IH]; [done|]. cbn [replicate app parse_digits].
  change (to_digit base 48) with (if 0 <? base then Some 0 else None).
  rewrite (proj2 (Z.ltb_lt 0 _)) by lia. change (0 * base + 0) with 0.
  rewrite (proj2 (Z.ltb_lt 0 _)) by (apply pow2_pos; lia). done.
Qed.

Lemma radix_range letter base n : (letter = 97 \/ letter = 65) -> 1 < base <= 36 ->
  Forall (fun c => 48 <= c <= 122) (radix letter base n).
Proof.
  intros Hl Hb. unfold radix. apply Forall_fmap.
  eapply Forall_impl; [apply (digits_range 64 base n); lia|]. intros d Hd. cbn beta in Hd. apply digit_char_byte; [done|lia].
Qed.

Lemma radix_length letter base n w :
  1 < base -> 0 <= n < base ^ Z.of_nat w -> (0 < w)%nat -> (length (radix letter base n) <= w)%nat.
Proof. intros. unfold radix. rewrite length_fmap. by apply digits_length. Qed.

Lemma pow_64_le base : 1 < base -> 2 ^ 64 <= base ^ 64.
Proof. intros. apply Z.pow_le_mono_l. lia. Qed.

(** Printing and reading a number are inverse, padded or not. *)
Lemma radix_roundtrip w letter base n k :
  (letter = 97 \/ letter = 65) -> 1 < base <= 36 -> 0 <= w <= 64 -> fits w n ->
  from_str_radix w base (zero_pad k (radix letter base n)) = Ok n.
Proof.
  intros Hl Hb Hw Hn. pose proof (fits_mono w 64 n ltac:(lia) Hn) as Hn64.
  pose proof (pow_64_le base ltac:(lia)). unfold fits in *.
  assert (Hv : of_digits base (digits 64 base n) = n).
  { apply digits_value; [lia|]. change (Z.of_nat 64) with 64. lia. }
  assert (Hp : parse_digits w base 0 (zero_pad k (radix letter base n)) = Ok n).
  { unfold zero_pad, radix. rewrite parse_digits_zeros by lia.
    rewrite parse_digits_chars; [exact (f_equal Ok Hv)|done|lia|apply digits_range; lia|lia|].
    fold (of_digits base (digits 64 base n)). lia. }
  assert (Hr : Forall (fun c => 48 <= c <= 122) (zero_pad k (radix letter base n))).
  { apply Forall_app. split; [apply Forall_replicate; lia|]. by apply radix_range. }
  destruct (zero_pad k _) as [|c s] eqn:E.
  { unfold zero_pad in E. apply app_nil in E as [_ E]. unfold radix in E. apply fmap_nil_inv in E.
    by apply digits_nonempty in E. }
  apply Forall_cons in Hr as [Hc _]. rewrite <- Hp. unfold from_str_radix.
  repeat (case_match; simplify_eq; try lia). all: done.
Qed.

Lemma split_char_prefix c p s : c ∉ p -> (split_char c (p ++ s)).1 = p ++ (split_char c s).1.
Proof.
  induction p as [|b p IH]; [done|]. rewrite not_elem_of_cons. intros [Hb Hp]. cbn [app split_char].
  rewrite <- (IH Hp). destruct (split_char c (p ++ s)). by rewrite (proj2 (Z.eqb_neq b c)) by congruence.
Qed.

Lemma zero_pad_length k s : length (zero_pad k s) = Nat.max k (length s).
Proof. unfold zero_pad. rewrite length_app, length_replicate. lia. Qed.

(** ** Byte order *)

Lemma bytes_leb_total a b : bytes_leb a b = true \/ bytes_leb b a = true.
Proof.
  revert b. induction a as [|x a IH]; intros [|y b]; cbn [bytes_leb]; auto.
  destruct (Z.ltb_spec x y), (Z.ltb_spec y x); cbn; auto; try lia. assert (x = y) as -> by lia.
  rewrite Z.eqb_refl. cbn. apply IH.
Qed.

Lemma bytes_leb_antisym a b : bytes_leb a b = true -> bytes_leb b a = true -> a = b.
Proof.
  revert b. induction a as [|x a IH]; intros [|y b]; cbn [bytes_leb]; try done. intros H1 H2.
  apply orb_true_iff in H1, H2. rewrite !andb_true_iff, !Z.ltb_lt, !Z.eqb_eq in H1, H2.
  destruct H1 as [?|[-> H1]], H2 as [?|[? H2]]; try lia. by rewrite (IH b H1 H2).
Qed.

Lemma bytes_leb_trans a b c : bytes_leb a b = true -> bytes_leb b c = true -> bytes_leb a c = true.
Proof.
  revert b c. induction a as [|x a IH]; intros [|y b] [|z c]; cbn [bytes_leb]; try done.
  rewrite !orb_true_iff, !andb_true_iff, !Z.ltb_lt, !Z.eqb_eq.
  intros [?|[-> H1]] [?|[-> H2]]; try (left; lia). right. split; [done|]. by eapply IH.
Qed.
