(* ===== verification/Lines.v ===== *)
(** * Splitting a byte stream into lines

    The line extraction shared by the control channel
    ([src/src/control.rs], [poll_line]) and the console scanner
    ([src/src/conscan.rs], [emit_complete_lines]): find the first LF, drain up
    to it, drop the LF and one trailing CR.  The library lemma is that
    splitting is independent of how the stream was cut into chunks. *)

From Stdlib Require Import ZArith Lia.
From stdpp Require Import base numbers sets list.
From S2P Require Import Prelude.
From S2P Require Import Text.

Open Scope Z_scope.

Definition LF : Z := 10.
Definition CR : Z := 13.

(** [if line.last() == Some(&b'\r') { line.pop(); }]. *)
Definition strip_cr (line : list Z) : list Z :=
  if bool_decide (last line = Some CR) then take (length line - 1) line else line.

(** The first complete line (without its LF) and the rest of the buffer. *)
Definition pop_line (buf : list Z) : option (list Z * list Z) :=
  match position (fun b => b =? LF) buf with
  | Some pos =>
      let line := take (pos + 1) buf in
      let line := take (length line - 1) line in
      Some (line, drop (pos + 1) buf)
  | None => None
  end.

(** All complete lines, and the trailing fragment.  Each line takes at least
    one byte, so [length buf] is enough fuel ([split_lines]). *)
Fixpoint split_fuel (fuel : nat) (buf : list Z) : list (list Z) * list Z :=
  match fuel with
  | O => ([], buf)
  | S n =>
      match pop_line buf with
      | None => ([], buf)
      | Some (line, rest) => let '(ls, r) := split_fuel n rest in (line :: ls, r)
      end
  end.

Definition split_lines (buf : list Z) : list (list Z) * list Z := split_fuel (length buf) buf.

(** [str::lines]: a last line without an end is kept as it is. *)
Definition lines_of (text : list Z) : list (list Z) :=
  let '(ls, rest) := split_lines text in (strip_cr <$> ls) ++ (if bool_decide (rest = []) then [] else [rest]).

(** A stream with its lines in the clear. *)
Definition join_lines (ls : list (list Z)) (rest : list Z) : list Z :=
  concat ((fun l => l ++ [LF]) <$> ls) ++ rest.

Definition no_lf (l : list Z) : Prop := Forall (fun b => b <> LF) l.

(** ** Lemmas *)

(** Text up to the first mark, and from the last one on. *)
Lemma app_mark_inj (c : Z) a b r r' : c ∉ a -> c ∉ b -> a ++ c :: r = b ++ c :: r' -> a = b /\ r = r'.
Proof.
  revert b. induction a as [|x a IH]; intros [|y b] Ha Hb E; cbn in E; simplify_eq; [done|set_solver..|].
  destruct (IH b) as [-> ->]; set_solver.
Qed.

Lemma app_mark_inj_r (c : Z) a b r r' : c ∉ r -> c ∉ r' -> a ++ c :: r = b ++ c :: r' -> a = b /\ r = r'.
Proof.
  intros Hr Hr' E. apply (f_equal reverse) in E. rewrite !reverse_app, !reverse_cons, <- !(assoc_L (++)) in E.
  apply app_mark_inj in E as [E1 E2]; [|by rewrite elem_of_reverse..]. by apply (inj reverse) in E1, E2.
Qed.

Lemma no_lf_elem l : no_lf l <-> LF ∉ l.
Proof. unfold no_lf. rewrite Forall_forall. set_solver. Qed.

(** Parts without the separator come back from their [join]. *)
Lemma join_with_inj (c : Z) l l' :
  Forall (fun s => s <> [] /\ c ∉ s) l -> Forall (fun s => s <> [] /\ c ∉ s) l' -> join_with [c] l = join_with [c] l' -> l = l'.
Proof.
  intros Hl. revert l'. induction Hl as [|s l [Hs Hc] Hl IH]; intros l' Hl' E.
  - destruct Hl' as [|s' l' [Hs' _] _]; [done|]. by destruct s', l'.
  - destruct Hl' as [|s' l' [Hs' Hc'] Hl']; [by destruct s, l|].
    destruct l as [|s2 l], l' as [|s2' l'].
    + cbn in E. by subst.
    + change (s = s' ++ c :: join_with [c] (s2' :: l')) in E. subst s. set_solver.
    + change (s ++ c :: join_with [c] (s2 :: l) = s') in E. subst s'. set_solver.
    + change (s ++ c :: join_with [c] (s2 :: l) = s' ++ c :: join_with [c] (s2' :: l')) in E.
      apply app_mark_inj in E as [-> E]; [|done..]. f_equal. by apply IH.
Qed.

Lemma pop_line_cons line rest : no_lf line -> pop_line (line ++ LF :: rest) = Some (line, rest).
Proof.
  intros Hl. unfold pop_line.
  assert (position (fun b => b =? LF) (line ++ LF :: rest) = Some (length line)) as ->.
  { apply position_Some. split.
    - exists LF. split; [|done]. by rewrite lookup_app_r, Nat.sub_diag by lia.
    - intros j y Hj Hy. rewrite lookup_app_l in Hy by done. apply Z.eqb_neq.
      eapply Forall_lookup_1 in Hl; done. }
  replace (length line + 1)%nat with (length (line ++ [LF])) by (by rewrite length_app).
  change (line ++ LF :: rest) with (line ++ [LF] ++ rest). rewrite app_assoc.
  rewrite take_app_length, drop_app_length, length_app. simpl.
  replace (length line + 1 - 1)%nat with (length line) by lia. by rewrite take_app_length.
Qed.

Lemma pop_line_None buf : no_lf buf -> pop_line buf = None.
Proof.
  intros Hb. unfold pop_line. rewrite (proj2 (position_None _ buf)); [done|].
  eapply Forall_impl; [exact Hb|]. intros b. apply Z.eqb_neq.
Qed.

Lemma no_lf_split buf : no_lf buf \/ exists line rest, buf = line ++ LF :: rest /\ no_lf line.
Proof.
  induction buf as [|b buf IH]; [left; constructor|]. destruct (decide (b = LF)) as [->|].
  - right. exists [], buf. split; [done|constructor].
  - destruct IH as [|(line & rest & -> & ?)]; [left; by constructor|].
    right. exists (b :: line), rest. split; [done|by constructor].
Qed.

Lemma split_fuel_join fuel ls rest :
  Forall no_lf ls -> no_lf rest -> (length ls <= fuel)%nat ->
  split_fuel fuel (join_lines ls rest) = (ls, rest).
Proof.
  revert ls. induction fuel as [|n IH]; intros ls Hls Hr Hf.
  - destruct ls; [done|simpl in Hf; lia].
  - destruct ls as [|l ls]; simpl in Hf; cbn [split_fuel].
    + change (join_lines [] rest) with rest. by rewrite pop_line_None.
    + apply Forall_cons in Hls as [Hl Hls].
      assert (join_lines (l :: ls) rest = l ++ LF :: join_lines ls rest) as ->.
      { unfold join_lines. csimpl. by rewrite <- !app_assoc. }
      rewrite pop_line_cons, IH by (done || lia). done.
Qed.

Lemma join_lines_length ls rest :
  (length ls + length rest <= length (join_lines ls rest))%nat.
Proof.
  unfold join_lines. rewrite length_app. induction ls as [|l ls IH]; csimpl; [lia|].
  rewrite !length_app. simpl. lia.
Qed.

Lemma split_lines_join ls rest :
  Forall no_lf ls -> no_lf rest -> split_lines (join_lines ls rest) = (ls, rest).
Proof. intros. apply split_fuel_join; try done. pose proof (join_lines_length ls rest). lia. Qed.

(** Every buffer is a joined stream, so [split_lines] is total and exact. *)
Lemma split_lines_spec buf :
  let '(ls, rest) := split_lines buf in
  buf = join_lines ls rest /\ Forall no_lf ls /\ no_lf rest.
Proof.
  assert (exists ls rest, buf = join_lines ls rest /\ Forall no_lf ls /\ no_lf rest)
    as (ls & rest & -> & Hls & Hr).
  { remember (length buf) as n eqn:Hn. revert buf Hn.
    induction (lt_wf n) as [n _ IH]. intros buf ->.
    destruct (no_lf_split buf) as [?|(line & r & -> & Hl)]; [by exists [], buf|].
    destruct (IH (length r) ltac:(rewrite length_app; simpl; lia) r eq_refl) as (ls & rest & -> & ? & ?).
    exists (line :: ls), rest. split_and!; [|by constructor|done].
    unfold join_lines. csimpl. by rewrite <- !app_assoc. }
  by rewrite split_lines_join.
Qed.

Lemma join_lines_app ls ls' rest rest' :
  join_lines ls (join_lines ls' rest) ++ rest' = join_lines (ls ++ ls') (rest ++ rest').
Proof. unfold join_lines. by rewrite fmap_app, concat_app, <- !app_assoc. Qed.

(** Splitting is incremental: cutting the stream anywhere changes nothing. *)
Lemma split_lines_app a b :
  let '(l1, r1) := split_lines a in
  let '(l2, r2) := split_lines (r1 ++ b) in
  split_lines (a ++ b) = (l1 ++ l2, r2).
Proof.
  pose proof (split_lines_spec a) as Ha. destruct (split_lines a) as [l1 r1].
  pose proof (split_lines_spec (r1 ++ b)) as Hb. destruct (split_lines (r1 ++ b)) as [l2 r2].
  destruct Ha as (-> & H1 & _), Hb as (Hb & H2 & H3).
  assert (join_lines l1 r1 ++ b = join_lines (l1 ++ l2) r2) as ->.
  { unfold join_lines at 1. rewrite <- app_assoc, Hb. unfold join_lines.
    by rewrite fmap_app, concat_app, <- app_assoc. }
  apply split_lines_join; [|done]. by apply Forall_app.
Qed.
