(* ===== verification/Utf8.v ===== *)
(** * UTF-8 ([String::from_utf8_lossy] and [str::from_utf8])

    The standard library's conversions of a byte string to a string, as
    [src/src/egress.rs] and [src/src/conscan.rs] use them: the lossy one keeps
    valid sequences and turns each maximal ill-formed part into U+FFFD, the
    strict one fails on an ill-formed part. *)

From Stdlib Require Import ZArith Lia.
From stdpp Require Import base numbers list.
From S2P Require Import Prelude.

Open Scope Z_scope.

(** The three bytes of U+FFFD. *)
Definition REPLACEMENT : list Z := [239; 191; 189].

Definition between (lo hi b : Z) : bool := (lo <=? b) && (b <=? hi).

(** The length of the sequence a lead byte announces, and the range of its
    second byte. *)
Definition utf8_lead (b : Z) : option (nat * Z * Z) :=
  if between 194 223 b then Some (2%nat, 128, 191)
  else if b =? 224 then Some (3%nat, 160, 191)
  else if between 225 236 b || between 238 239 b then Some (3%nat, 128, 191)
  else if b =? 237 then Some (3%nat, 128, 159)
  else if b =? 240 then Some (4%nat, 144, 191)
  else if between 241 243 b then Some (4%nat, 128, 191)
  else if b =? 244 then Some (4%nat, 128, 143)
  else None.

(** How many of the continuation bytes a sequence wants ([want]) are there:
    the first one in [lo, hi], the others in [0x80, 0xBF]. *)
Fixpoint continuation (want : nat) (lo hi : Z) (bs : list Z) : nat :=
  match want, bs with
  | S w, b :: bs' => if between lo hi b then S (continuation w 128 191 bs') else O
  | _, _ => O
  end.

(** One step: the bytes to output and how many input bytes they stand for. *)
Definition utf8_step (b : Z) (bs : list Z) : list Z * nat :=
  if b <? 128 then ([b], 1%nat)
  else
    match utf8_lead b with
    | None => (REPLACEMENT, 1%nat)
    | Some (len, lo, hi) =>
        let k := continuation (len - 1) lo hi bs in
        if (k =? len - 1)%nat then (b :: take k bs, len) else (REPLACEMENT, S k)
    end.

(** Every step consumes at least a byte, so the length is enough fuel. *)
Fixpoint lossy_loop (fuel : nat) (bs : list Z) : list Z :=
  match fuel, bs with
  | S n, b :: bs' =>
      let '(out, k) := utf8_step b bs' in out ++ lossy_loop n (drop k bs)
  | _, _ => []
  end.

Definition from_utf8_lossy (bs : list Z) : list Z := lossy_loop (length bs) bs.

(** [str::from_utf8(bs).is_ok()]. *)
Fixpoint valid_loop (fuel : nat) (bs : list Z) : bool :=
  match fuel, bs with
  | S n, b :: bs' =>
      if b <? 128 then valid_loop n bs'
      else
        match utf8_lead b with
        | None => false
        | Some (len, lo, hi) =>
            (continuation (len - 1) lo hi bs' =? len - 1)%nat && valid_loop n (drop (len - 1) bs')
        end
  | _, _ => true
  end.

Definition from_utf8_ok (bs : list Z) : bool := valid_loop (length bs) bs.

(** ** White space *)

(** The UTF-8 sequences of the characters with the property White_Space. *)
Definition white_space : list (list Z) :=
  ((fun b => [b]) <$> [9; 10; 11; 12; 13; 32]) ++
  [[194; 133]; [194; 160]; [225; 154; 128]; [226; 128; 168]; [226; 128; 169]; [226; 128; 175];
   [226; 129; 159]; [227; 128; 128]] ++
  ((fun b => [226; 128; b]) <$> [128; 129; 130; 131; 132; 133; 134; 135; 136; 137; 138]).

(** The rest of [bs] after the first of [seqs] that is a prefix of it. *)
Fixpoint strip_any (seqs : list (list Z)) (bs : list Z) : option (list Z) :=
  match seqs with
  | [] => None
  | w :: seqs => if decide (take (length w) bs = w) then Some (drop (length w) bs) else strip_any seqs bs
  end.

(** Every turn takes at least a byte: the length is enough fuel. *)
Fixpoint trim_loop (fuel : nat) (seqs : list (list Z)) (bs : list Z) : list Z :=
  match fuel with
  | O => bs
  | S fuel => match strip_any seqs bs with Some bs => trim_loop fuel seqs bs | None => bs end
  end.

(** [str::trim]. *)
Definition trim (bs : list Z) : list Z :=
  let bs := trim_loop (length bs) white_space bs in
  reverse (trim_loop (length bs) (reverse <$> white_space) (reverse bs)).

(** [.split_whitespace().collect::<String>()]: the text without white space. *)
Fixpoint squeeze_loop (fuel : nat) (bs : list Z) : list Z :=
  match fuel, bs with
  | S fuel, b :: bs' => match strip_any white_space bs with Some bs => squeeze_loop fuel bs | None => b :: squeeze_loop fuel bs' end
  | _, _ => []
  end.

Definition squeeze (bs : list Z) : list Z := squeeze_loop (length bs) bs.

(** Hostnames are ASCII: the conversion keeps them. *)
Lemma from_utf8_lossy_ascii bs :
  Forall (fun b => b < 128) bs -> from_utf8_lossy bs = bs.
Proof.
  unfold from_utf8_lossy. induction 1 as [|b bs Hb _ IH]; [done|].
  cbn [length lossy_loop]. unfold utf8_step. rewrite (proj2 (Z.ltb_lt _ _)) by done.
  cbn [drop app]. rewrite drop_0. by f_equal.
Qed.

Lemma from_utf8_ok_ascii bs : Forall (fun b => b < 128) bs -> from_utf8_ok bs = true.
Proof.
  unfold from_utf8_ok. induction 1 as [|b bs Hb _ IH]; [done|]. cbn. by rewrite (proj2 (Z.ltb_lt b 128)).
Qed.

(** What holds of the bytes and of the replacement holds of the result. *)
Lemma from_utf8_lossy_Forall (P : Z -> Prop) bs : Forall P REPLACEMENT -> Forall P bs -> Forall P (from_utf8_lossy bs).
Proof.
  intros Hr. unfold from_utf8_lossy. generalize (length bs) as n. intros n. revert bs.
  induction n as [|n IH]; intros [|b bs] Hbs; try constructor. cbn [lossy_loop].
  apply Forall_cons in Hbs as [Hb Hbs]. destruct (utf8_step b bs) as [out k] eqn:E.
  apply Forall_app. split; [|apply IH, Forall_drop; by constructor]. unfold utf8_step in E.
  repeat case_match; simplify_eq; eauto using Forall_take, Forall_cons_2, Forall_nil_2.
Qed.

(** On valid input the lossy conversion changes nothing. *)
Lemma from_utf8_ok_lossy bs : from_utf8_ok bs = true -> from_utf8_lossy bs = bs.
Proof.
  unfold from_utf8_ok, from_utf8_lossy.
  assert (forall n m bs, (length bs <= n)%nat -> (length bs <= m)%nat ->
            valid_loop n bs = true -> lossy_loop m bs = bs) as H by
    (induction n as [|n IH]; intros m l Hn Hm;
     [by destruct l; [destruct m|simpl in Hn; lia]|];
     destruct l as [|b l]; [by destruct m|]; destruct m as [|m]; [simpl in Hm; lia|];
     cbn [valid_loop lossy_loop length] in *; unfold utf8_step;
     destruct (b <? 128);
     [intros Hv; cbn [drop app]; f_equal; apply IH; simpl in *; done || lia|];
     destruct (utf8_lead b) as [[[len lo] hi]|] eqn:El; [|done];
     assert (2 <= len)%nat by (unfold utf8_lead in El; repeat case_match; simplify_eq; lia);
     intros [Hk Hv]%andb_prop; rewrite Hk; apply Nat.eqb_eq in Hk; rewrite Hk;
     destruct len as [|len]; [lia|]; cbn [drop app Nat.sub] in *; rewrite Nat.sub_0_r in *;
     rewrite (IH m); [by rewrite take_drop|rewrite length_drop; lia|rewrite length_drop; lia|done]).
  intros Hv. by apply (H (length bs)).
Qed.

(** ** Trimming a line of visible ASCII *)

Definition graphic (b : Z) : Prop := 33 <= b <= 126.

#[export] Instance graphic_dec b : Decision (graphic b).
Proof. unfold graphic. apply _. Defined.

Lemma strip_any_other seqs bs : (forall s, s ∈ seqs -> exists c r, s = c :: r /\ head bs <> Some c) -> strip_any seqs bs = None.
Proof.
  induction seqs as [|s seqs IH]; intros Hs; [done|]. cbn [strip_any].
  destruct (Hs s ltac:(left)) as (c & r & -> & Hc).
  rewrite decide_False by (destruct bs as [|b bs]; cbn in *; congruence). apply IH. intros s Hin. apply Hs. by right.
Qed.

Lemma graphic_not_space seqs b bs : graphic b ->
  forallb (fun s => match s with c :: _ => negb ((33 <=? c) && (c <=? 126)) | [] => false end) seqs = true ->
  strip_any seqs (b :: bs) = None.
Proof.
  unfold graphic. rewrite forallb_forall. intros Hb Hs. apply strip_any_other. intros s Hin%list_elem_of_In%Hs.
  destruct s as [|c r]; [done|]. exists c, r. split; [done|]. intros [= ->]. lia.
Qed.

Lemma trim_loop_graphic n seqs bs : Forall graphic bs ->
  forallb (fun s => match s with c :: _ => negb ((33 <=? c) && (c <=? 126)) | [] => false end) seqs = true ->
  trim_loop n seqs bs = bs.
Proof.
  intros Hbs Hs. destruct n; [done|]. cbn. destruct Hbs as [|b bs Hb _].
  - by rewrite strip_any_other by (intros s Hin%list_elem_of_In; rewrite forallb_forall in Hs; apply Hs in Hin; destruct s; eauto; done).
  - by rewrite graphic_not_space.
Qed.

(** A visible line and its end of line: [trim] gives the line. *)
Lemma trim_line bs : Forall graphic bs -> trim (bs ++ [10]) = bs.
Proof.
  intros Hbs. unfold trim.
  assert (Hf : trim_loop (length (bs ++ [10])) white_space (bs ++ [10]) = match bs with [] => [] | _ => bs ++ [10] end).
  { destruct Hbs as [|b bs Hb _]; [by vm_compute|]. rewrite length_app, Nat.add_comm. cbn [trim_loop length Nat.add app].
    by rewrite graphic_not_space. }
  rewrite Hf. destruct bs as [|b bs]; [done|]. set (seqs := reverse <$> white_space). set (rest := reverse (b :: bs)).
  assert (Hs : forall n, trim_loop (S n) seqs (10 :: rest) = trim_loop n seqs rest).
  { intros n. cbn [trim_loop]. change (strip_any seqs (10 :: rest)) with (Some (drop 1 (10 :: rest))). cbn [drop]. by rewrite drop_0. }
  rewrite reverse_app, length_app, Nat.add_comm. change (reverse [10] ++ reverse (b :: bs)) with (10 :: rest).
  rewrite Hs, trim_loop_graphic; [apply reverse_involutive|by apply Forall_reverse|by vm_compute].
Qed.

Lemma trim_graphic bs : Forall graphic bs -> trim bs = bs.
Proof.
  intros Hbs. unfold trim. rewrite (trim_loop_graphic _ white_space bs Hbs) by (vm_compute; reflexivity).
  rewrite trim_loop_graphic; [apply reverse_involutive|by apply Forall_reverse|by vm_compute].
Qed.
