(* ===== verification/Control.v ===== *)
(** * The serial sinks and the control channel ([src/src/serial.rs], [src/src/control.rs])

    The UART model is the interface [Uart]: register access, the receive FIFO
    and its interrupt trigger.  On it: the console tee, the capture sink, and
    the COM2 control channel, which streams queued command bytes into the
    receive FIFO and cuts the captured replies into lines. *)

From Stdlib Require Import ZArith Lia.
From stdpp Require Import base numbers list.
From S2P Require Import Prelude.
From S2P Require Import Arch.
From S2P Require Import Ioapic.
From S2P Require Import Lapic.
From S2P Require Import Timers.
From S2P Require Import Lines.

Open Scope Z_scope.

(** ** The UART interface *)

(** [uart_rx] is the receive FIFO's content; [uart_write] also gives the bytes
    the UART sends to its output sink.  [drain_irq] reads the trigger: whether
    an interrupt was pending. *)
Class Uart (U : Type) := {
  uart_write : U -> Z -> Z -> list Z * U;
  uart_read : U -> Z -> Z * U;
  fifo_capacity : U -> nat;
  enqueue_raw_bytes : U -> list Z -> option (nat * U);
  drain_irq : U -> bool * U;
  uart_rx : U -> list Z;
  enqueue_law u bs n u' : enqueue_raw_bytes u bs = Some (n, u') ->
    (n <= length bs)%nat /\ (n <= fifo_capacity u)%nat
    /\ uart_rx u' = uart_rx u ++ take n bs
    /\ fifo_capacity u' = (fifo_capacity u - n)%nat;
  drain_law u b u' : drain_irq u = (b, u') ->
    uart_rx u' = uart_rx u /\ fifo_capacity u' = fifo_capacity u;
}.

(** ** Sinks ([serial.rs]) *)

Definition CONSOLE_TEE_CAP : nat := Z.to_nat (Z.shiftl 1 20).

Record ConsoleOut := { tee : option (list Z); overflowed : bool }.

(** [ConsoleOut::write]: [n] is the result of the write on fd 1 ([None] an
    error); the tee never changes it. *)
Definition console_write (c : ConsoleOut) (buf : list Z) (n : option nat) : option nat * ConsoleOut :=
  match n with
  | None => (None, c)
  | Some n =>
      match tee c with
      | None => (Some n, c)
      | Some b =>
          let over := (CONSOLE_TEE_CAP <? length b + n)%nat in
          let b := if over then [] else b in
          (Some n, {| tee := Some (b ++ take n buf); overflowed := overflowed c || over |})
      end
  end.

Definition sink_write (buf data : list Z) : list Z := buf ++ data.

Definition is_serial (port : Z) : bool := in_range SERIAL_PORT_BASE (SERIAL_PORT_BASE + 8) port.

(** ** The control channel ([control.rs]) *)

Definition TX_BUF_CAP : nat := Z.to_nat (Z.shiftl 1 20).

Record ControlChannel (U : Type) := { ch_serial : U; ch_tx : list Z; pending_rx : list Z }.
Arguments Build_ControlChannel {U}.
Arguments ch_serial {U}.
Arguments ch_tx {U}.
Arguments pending_rx {U}.

Definition control_handles (port : Z) : bool := in_range SERIAL2_PORT_BASE (SERIAL2_PORT_BASE + 8) port.

Section control.
Context `{Uart U}.

Definition after_uart_io (u : U) (l : Lapic) (io : Ioapic) (irq : Z) : U * Lapic :=
  let '(pending, u') := drain_irq u in
  (u', if pending then raise_irq l io irq else l).

Definition pio_write (c : ControlChannel U) (port byte : Z) (l : Lapic) (io : Ioapic)
    : ControlChannel U * Lapic :=
  let '(out, u) := uart_write (ch_serial c) (as_u8 (port - SERIAL2_PORT_BASE)) byte in
  let '(u, l) := after_uart_io u l io SERIAL2_IRQ in
  ({| ch_serial := u; ch_tx := sink_write (ch_tx c) out; pending_rx := pending_rx c |}, l).

Definition pio_read (c : ControlChannel U) (port : Z) (l : Lapic) (io : Ioapic)
    : Z * (ControlChannel U * Lapic) :=
  let '(v, u) := uart_read (ch_serial c) (as_u8 (port - SERIAL2_PORT_BASE)) in
  let '(u, l) := after_uart_io u l io SERIAL2_IRQ in
  (v, ({| ch_serial := u; ch_tx := ch_tx c; pending_rx := pending_rx c |}, l)).

Definition send_frame (c : ControlChannel U) (framed : list Z) : ControlChannel U :=
  {| ch_serial := ch_serial c; ch_tx := ch_tx c; pending_rx := pending_rx c ++ framed |}.

(** The feed loop.  Every turn that goes on consumes a byte, so the length of
    the queue is enough fuel. *)
Fixpoint pump_loop (fuel : nat) (u : U) (pending : list Z) (sent : bool) : U * list Z * bool :=
  match fuel with
  | O => (u, pending, sent)
  | S n =>
      match pending with
      | [] => (u, pending, sent)
      | _ =>
          let cap := fifo_capacity u in
          if (cap =? 0)%nat then (u, pending, sent)
          else
            let take_n := Nat.min cap (length pending) in
            let chunk := take take_n pending in
            match enqueue_raw_bytes u chunk with
            | Some (k, u') =>
                if (0 <? k)%nat then pump_loop n u' (drop k pending) true else (u', pending, sent)
            | None => (u, pending, sent)
            end
      end
  end.

Definition control_pump (c : ControlChannel U) (l : Lapic) (io : Ioapic) : ControlChannel U * Lapic :=
  match pending_rx c with
  | [] => (c, l)
  | _ =>
      let '(u, pending, sent) := pump_loop (length (pending_rx c)) (ch_serial c) (pending_rx c) false in
      let '(u, l) := if sent then after_uart_io u l io SERIAL2_IRQ else (u, l) in
      ({| ch_serial := u; ch_tx := ch_tx c; pending_rx := pending |}, l)
  end.

Definition poll_line (c : ControlChannel U) : option (list Z) * ControlChannel U :=
  let set_tx b := {| ch_serial := ch_serial c; ch_tx := b; pending_rx := pending_rx c |} in
  match pop_line (ch_tx c) with
  | Some (line, rest) => (Some (strip_cr line), set_tx rest)
  | None => (None, if (TX_BUF_CAP <? length (ch_tx c))%nat then set_tx [] else c)
  end.

(** [while let Some(line) = com2.poll_line() { .. }]. *)
Fixpoint poll_lines (fuel : nat) (c : ControlChannel U) : list (list Z) * ControlChannel U :=
  match fuel with
  | O => ([], c)
  | S n =>
      match poll_line c with
      | (Some line, c') => let '(ls, c'') := poll_lines n c' in (line :: ls, c'')
      | (None, c') => ([], c')
      end
  end.

(** ** Lemmas *)

Lemma pump_loop_stream fuel : forall u pending sent,
  let '(u', pending', _) := pump_loop fuel u pending sent in
  uart_rx u' ++ pending' = uart_rx u ++ pending.
Proof.
  induction fuel as [|n IH]; intros u pending sent; simpl; [done|].
  destruct pending as [|b pending]; [done|]. destruct (fifo_capacity u =? 0)%nat; [done|].
  destruct (enqueue_raw_bytes u _) as [[k u']|] eqn:E; [|done].
  apply enqueue_law in E as (Hk & _ & Hrx & _).
  destruct (0 <? k)%nat eqn:Ek.
  - specialize (IH u' (drop k (b :: pending)) true). destruct (pump_loop n u' _ true) as [[u2 p2] s2].
    rewrite IH, Hrx, <- app_assoc, take_take, Nat.min_l.
    + by rewrite take_drop.
    + rewrite length_take in Hk. lia.
  - apply Nat.ltb_ge in Ek. assert (k = 0%nat) as -> by lia. by rewrite Hrx, take_0, app_nil_r.
Qed.

(** A UART that is not in loopback takes at least one byte when it has room. *)
Definition accepts : Prop :=
  forall u bs, bs <> [] -> (0 < fifo_capacity u)%nat ->
  exists n u', enqueue_raw_bytes u bs = Some (S n, u').

Lemma pump_loop_end fuel : accepts -> forall u pending sent,
  (length pending <= fuel)%nat ->
  let '(u', pending', _) := pump_loop fuel u pending sent in
  pending' = [] \/ fifo_capacity u' = 0%nat.
Proof.
  intros Hacc. induction fuel as [|n IH]; intros u pending sent Hf; simpl.
  { left. destruct pending; [done|simpl in Hf; lia]. }
  destruct pending as [|b pending]; [by left|].
  destruct (fifo_capacity u =? 0)%nat eqn:Ec; [apply Nat.eqb_eq in Ec; auto|].
  apply Nat.eqb_neq in Ec.
  destruct (Hacc u (take (Nat.min (fifo_capacity u) (length (b :: pending))) (b :: pending)))
    as (k & u' & ->); [|lia|].
  { destruct (fifo_capacity u); [done|]. simpl. done. }
  cbn [Nat.ltb Nat.leb]. apply IH. rewrite length_drop. simpl in *. lia.
Qed.

Lemma poll_lines_split fuel : forall c,
  (length (split_lines (ch_tx c)).1 < fuel)%nat ->
  (length (ch_tx c) <= TX_BUF_CAP)%nat ->
  let '(ls, c') := poll_lines fuel c in
  ls = strip_cr <$> (split_lines (ch_tx c)).1 /\ ch_tx c' = (split_lines (ch_tx c)).2
  /\ ch_serial c' = ch_serial c /\ pending_rx c' = pending_rx c.
Proof.
  induction fuel as [|n IH]; intros c Hf Hcap; [lia|].
  pose proof (split_lines_spec (ch_tx c)) as Hs.
  destruct (split_lines (ch_tx c)) as [ls rest] eqn:E. destruct Hs as (Htx & Hls & Hr).
  simpl in *. unfold poll_line. destruct ls as [|l ls].
  - change (join_lines [] rest) with rest in Htx. rewrite Htx, pop_line_None by done. rewrite Htx in Hcap.
    destruct (TX_BUF_CAP <? length rest)%nat eqn:Eo; [apply Nat.ltb_lt in Eo; lia|]. done.
  - apply Forall_cons in Hls as [Hl Hls].
    assert (Hj : ch_tx c = l ++ LF :: join_lines ls rest).
    { rewrite Htx. unfold join_lines. csimpl. by rewrite <- !app_assoc. }
    rewrite Hj, pop_line_cons by done.
    specialize (IH {| ch_serial := ch_serial c; ch_tx := join_lines ls rest; pending_rx := pending_rx c |}).
    cbn [ch_tx ch_serial pending_rx] in IH. rewrite split_lines_join in IH by done.
    destruct (poll_lines n _) as [ls' c']. destruct IH as (-> & ? & ? & ?); [simpl in *; lia| |done].
    rewrite Hj, length_app in Hcap. simpl in Hcap. lia.
Qed.
End control.

(** ** A concrete UART *)

Record ToyUart := { toy_rx : list Z; toy_room : nat; toy_irq : bool }.

Definition toy_enqueue (u : ToyUart) (bs : list Z) : option (nat * ToyUart) :=
  let n := Nat.min (length bs) (toy_room u) in
  Some (n, {| toy_rx := toy_rx u ++ take n bs; toy_room := toy_room u - n; toy_irq := true |}).

#[export] Program Instance toy_uart : Uart ToyUart := {|
  uart_write u off b := ([b], u);
  uart_read u off := (default 0 (head (toy_rx u)),
    {| toy_rx := tail (toy_rx u); toy_room := S (toy_room u); toy_irq := toy_irq u |});
  fifo_capacity := toy_room;
  enqueue_raw_bytes := toy_enqueue;
  drain_irq u := (toy_irq u, {| toy_rx := toy_rx u; toy_room := toy_room u; toy_irq := false |});
  uart_rx := toy_rx;
|}.
Next Obligation.
  intros u bs n u' [= <- <-]. simpl. split_and!; try lia; done.
Qed.
Next Obligation. by intros u b u' [= <- <-]. Qed.

Lemma toy_accepts_bytes : accepts (U := ToyUart).
Proof.
  intros u bs Hb Hc. simpl in *. unfold toy_enqueue.
  destruct bs as [|b bs]; [done|]. destruct (toy_room u) as [|r] eqn:E; [lia|].
  exists (Nat.min (length bs) r). eexists. done.
Qed.

Definition toy_channel : ControlChannel ToyUart :=
  {| ch_serial := {| toy_rx := []; toy_room := 2; toy_irq := false |};
     ch_tx := [104; 105; 13; 10; 120]; pending_rx := [1; 2; 3] |}.

(** ** Properties *)

(** Commands stream to the guest in order and without loss: pumping
    moves a prefix of the queued bytes to the end of the receive FIFO, so FIFO
    followed by queue is the same stream as before; with a UART that accepts
    bytes it stops only when the queue is empty or the FIFO is full; replies
    already captured are not touched. *)
Theorem control_pump_streams `{Uart U} (c : ControlChannel U) l io :
  accepts ->
  let c' := fst (control_pump c l io) in
  uart_rx (ch_serial c') ++ pending_rx c' = uart_rx (ch_serial c) ++ pending_rx c
  /\ (pending_rx c' = [] \/ fifo_capacity (ch_serial c') = 0%nat)
  /\ ch_tx c' = ch_tx c.
Proof.
  intros Hacc. unfold control_pump. destruct (pending_rx c) as [|b pending] eqn:Hp.
  { cbv zeta. cbn [fst]. rewrite Hp. auto. }
  rewrite <- Hp. pose proof (pump_loop_stream (length (pending_rx c)) (ch_serial c) (pending_rx c) false) as Hs.
  pose proof (pump_loop_end (length (pending_rx c)) Hacc (ch_serial c) (pending_rx c) false ltac:(done)) as He.
  destruct (pump_loop _ _ _ _) as [[u p] sent]. unfold after_uart_io.
  destruct sent; [|by cbn].
  destruct (drain_irq u) as [b' u'] eqn:Ed. apply drain_law in Ed as [Hr Hc]. cbn. by rewrite Hr, Hc.
Qed.

Lemma control_pump_streams_witness :
  let c' := fst (control_pump toy_channel toy_lapic (ioapic_new 2)) in
  uart_rx (ch_serial c') ++ pending_rx c' = [1; 2; 3].
Proof.
  destruct (control_pump_streams toy_channel toy_lapic (ioapic_new 2) toy_accepts_bytes) as [H _]. exact H.
Defined.

(** The agent's replies come back as lines, however the UART delivered
    them: polling after the bytes of [a] and again after the bytes of [b]
    gives the same lines and leaves the same fragment as polling once after
    [a ++ b], as long as the buffered bytes stay under the cap. *)
Theorem poll_lines_chunking `{Uart U} (u : U) a b n1 n2 n3 :
  (length (a ++ b) <= TX_BUF_CAP)%nat ->
  (length a < n1)%nat -> (length (a ++ b) < n2)%nat -> (length (a ++ b) < n3)%nat ->
  let ch tx := {| ch_serial := u; ch_tx := tx; pending_rx := [] |} in
  let '(l1, c1) := poll_lines n1 (ch a) in
  let '(l2, c2) := poll_lines n2 (ch (sink_write (ch_tx c1) b)) in
  let '(l3, c3) := poll_lines n3 (ch (a ++ b)) in
  l3 = l1 ++ l2 /\ ch_tx c3 = ch_tx c2.
Proof.
  intros Hcap H1 H2 H3. cbv zeta. rewrite length_app in *.
  pose proof (poll_lines_split n1 {| ch_serial := u; ch_tx := a; pending_rx := [] |}) as P1.
  pose proof (split_lines_app a b) as Happ. pose proof (split_lines_spec a) as Sa.
  cbn [ch_tx ch_serial pending_rx] in P1.
  destruct (split_lines a) as [la ra] eqn:Ea. destruct Sa as (Ha & _ & _).
  assert (La : (length la + length ra <= length a)%nat) by (rewrite Ha; apply join_lines_length).
  destruct (poll_lines n1 _) as [l1 c1]. cbn [fst snd] in P1.
  destruct P1 as (-> & Ht1 & _ & _); [lia|lia|]. unfold sink_write. rewrite Ht1.
  pose proof (split_lines_spec (ra ++ b)) as Sb.
  pose proof (poll_lines_split n2 {| ch_serial := u; ch_tx := ra ++ b; pending_rx := [] |}) as P2.
  cbn [ch_tx ch_serial pending_rx] in P2. destruct (split_lines (ra ++ b)) as [lb rb] eqn:Eb.
  destruct Sb as (Hb & _ & _).
  assert (Lb : (length lb + length rb <= length ra + length b)%nat) by (rewrite <- length_app, Hb; apply join_lines_length).
  destruct (poll_lines n2 _) as [l2 c2]. cbn [fst snd] in P2.
  destruct P2 as (-> & Ht2 & _ & _); [lia|rewrite length_app; lia|].
  pose proof (poll_lines_split n3 {| ch_serial := u; ch_tx := a ++ b; pending_rx := [] |}) as P3.
  cbn [ch_tx ch_serial pending_rx] in P3. rewrite Happ in P3. cbn [fst snd] in P3.
  destruct (poll_lines n3 _) as [l3 c3].
  destruct P3 as (-> & Ht3 & _ & _); [rewrite length_app; lia|rewrite length_app; lia|].
  rewrite Ht3, Ht2. split; [by rewrite fmap_app|done].
Qed.

Lemma poll_lines_chunking_witness :
  let ch tx := {| ch_serial := {| toy_rx := []; toy_room := 2; toy_irq := false |}; ch_tx := tx; pending_rx := [] |} in
  let '(l1, c1) := poll_lines 9 (ch [104; 105; 13]) in
  let '(l2, c2) := poll_lines 9 (ch (sink_write (ch_tx c1) [10; 120])) in
  l1 ++ l2 = [[104; 105]].
Proof.
  assert (Hcap : (5 <= TX_BUF_CAP)%nat) by (unfold TX_BUF_CAP; change (Z.shiftl 1 20) with 1048576; lia).
  pose proof (poll_lines_chunking {| toy_rx := []; toy_room := 2; toy_irq := false |} [104; 105; 13] [10; 120] 9 9 9
    Hcap ltac:(simpl; lia) ltac:(simpl; lia) ltac:(simpl; lia)) as H.
  cbv zeta in *. destruct (poll_lines 9 _) as [l1 c1]. destruct (poll_lines 9 _) as [l2 c2].
  destruct (poll_lines 9 {| ch_serial := _; ch_tx := [104; 105; 13] ++ [10; 120]; pending_rx := [] |}) as [l3 c3] eqn:E.
  destruct H as [<- _]. vm_compute in E. congruence.
Defined.
