(* ===== verification/Conscan.v ===== *)
(** * The console scanner ([src/src/conscan.rs])

    Draining the console tee into per-service log files: line splitting with a
    bounded fragment, attribution of a [[name]]-prefixed line to a compose
    service, and lazily opened files.  File names are validated by
    [is_safe_path_component] ([src/src/main.rs]).  Parameters: the
    three-decimal rendering of a quotient of two integers as [f64], and
    whether the file system lets a file be opened or written. *)

From Stdlib Require Import ZArith Lia.
From stdpp Require Import base numbers gmap list.
From S2P Require Import Prelude.
From S2P Require Import Proto.
From S2P Require Import Lines.
From S2P Require Import Utf8.

Open Scope Z_scope.

Abbreviation bytes := (list Z).

Definition PARTIAL_CAP : nat := Z.to_nat (64 * 1024).

(** "console". *)
Definition RESIDUE : bytes := [99; 111; 110; 115; 111; 108; 101].

Definition is_ascii_digit (b : Z) : bool := (48 <=? b) && (b <=? 57).

Definition is_ascii_alphanumeric (b : Z) : bool :=
  is_ascii_digit b || ((65 <=? b) && (b <=? 90)) || ((97 <=? b) && (b <=? 122)).

(** A single safe path component: non-empty, not "." or "..", every byte in
    [A-Za-z0-9._-]. *)
Definition is_safe_path_component (s : bytes) : bool :=
  negb (bool_decide (s = [])) && negb (bool_decide (s = [46])) && negb (bool_decide (s = [46; 46]))
  && forallb (fun b => is_ascii_alphanumeric b || (b =? 46) || (b =? 95) || (b =? 45)) s.

Definition sanitize_service_filename (name : bytes) : option bytes :=
  if is_safe_path_component name then Some name else None.

(** [if line starts with "[name]"]: the bytes between the brackets. *)
Definition bracket_prefix (line : bytes) : option bytes :=
  if negb (bool_decide (head line = Some 91)) then None
  else close ← position (fun b => b =? 93) line; Some (slice 1 close line).

(** [strip_prefix]. *)
Definition strip_prefix (p s : bytes) : option bytes :=
  if bool_decide (take (length p) s = p) then Some (drop (length p) s) else None.

Record ConsoleScan := {
  cs_tee : bytes; cs_partial : bytes; cs_project_prefix : bytes; cs_services : list bytes;
  cs_files : gmap bytes (option bytes); cs_residue : bytes; cs_t0 : Z; cs_hz : Z }.

#[export] Instance eta_ConsoleScan : Settable ConsoleScan := fun c => Build_ConsoleScan
  (cs_tee c) (cs_partial c) (cs_project_prefix c) (cs_services c) (cs_files c) (cs_residue c) (cs_t0 c)
  (cs_hz c).

Definition residue_for (services : list bytes) : bytes :=
  if existsb (fun s => bool_decide (s = RESIDUE)) services then 95 :: RESIDUE else RESIDUE.

Definition conscan_new (project : bytes) (services : list bytes) (t0 hz : Z) : ConsoleScan :=
  {| cs_tee := []; cs_partial := []; cs_project_prefix := project ++ [45]; cs_services := services;
     cs_files := ∅; cs_residue := residue_for services; cs_t0 := t0; cs_hz := hz |}.

Section scan.
(** [fixed3 n d] is [format!("{:.3}", n as f64 / d as f64)]. *)
Context (fixed3 : Z -> Z -> bytes) (open_ok : bytes -> bool)
  (write_ok : bytes -> bytes -> bool).

Definition find_service (c : ConsoleScan) (name : bytes) : option bytes :=
  List.find (fun s => bool_decide (s = name)) (cs_services c).

Definition service_of (c : ConsoleScan) (name : bytes) : option bytes :=
  if negb (from_utf8_ok name) then None
  else
    let from_container :=
      rest ← strip_prefix (cs_project_prefix c) name;
      dash ← rposition (fun b => b =? 45) rest;
      let svc := take dash rest in
      let num := drop (dash + 1) rest in
      if negb (bool_decide (num = [])) && forallb is_ascii_digit num then find_service c svc else None in
    match from_container with
    | Some s => Some s
    | None => find_service c name
    end.

Definition route (c : ConsoleScan) (line : bytes) : bytes * bytes :=
  let fallback := (cs_residue c, line) in
  match bracket_prefix line with
  | Some name =>
      match service_of c name with
      | Some service =>
          let rest := drop (length name + 2) line in
          (service, match strip_prefix [32] rest with Some r => r | None => rest end)
      | None => fallback
      end
  | None => fallback
  end.

(** [None] inside the map marks a file given up on. *)
Definition open_file (stem : bytes) : option bytes :=
  match sanitize_service_filename stem with
  | None => None
  | Some fname => if open_ok fname then Some [] else None
  end.

Definition append (c : ConsoleScan) (stem out : bytes) : ConsoleScan :=
  let files := match cs_files c !! stem with
               | Some _ => cs_files c
               | None => <[stem := open_file stem]> (cs_files c)
               end in
  let files := match files !! stem with
               | Some (Some content) =>
                   <[stem := if write_ok stem out then Some (content ++ out) else None]> files
               | _ => files
               end in
  c <| cs_files := files |>.

Definition write_line (c : ConsoleScan) (now : Z) (line : bytes) : ConsoleScan :=
  let '(stem, message) := route c line in
  append c stem (fixed3 (wrapping_sub_u64 now (cs_t0 c)) (cs_hz c) ++ [32] ++ message ++ [LF]).

(** The loop; every turn that goes on drains at least one byte. *)
Fixpoint emit_loop (fuel : nat) (c : ConsoleScan) (now : Z) : ConsoleScan :=
  match fuel with
  | O => c
  | S n =>
      match pop_line (cs_partial c) with
      | Some (line, rest) => emit_loop n (write_line (c <| cs_partial := rest |>) now (strip_cr line)) now
      | None =>
          if (PARTIAL_CAP <? length (cs_partial c))%nat then
            write_line (c <| cs_partial := [] |>) now (cs_partial c)
          else c
      end
  end.

Definition emit_complete_lines (c : ConsoleScan) (now : Z) : ConsoleScan :=
  emit_loop (S (length (cs_partial c))) c now.

Definition conscan_drain (c : ConsoleScan) (now : Z) : ConsoleScan :=
  match cs_tee c with
  | [] => c
  | chunk => emit_complete_lines (c <| cs_tee := [] |> <| cs_partial := cs_partial c ++ chunk |>) now
  end.

Definition conscan_finish (c : ConsoleScan) (now : Z) : ConsoleScan :=
  let c := conscan_drain c now in
  match cs_partial c with
  | [] => c
  | line => write_line (c <| cs_partial := [] |>) now line
  end.

(** The guest writes to the tee. *)
Definition tee_in (c : ConsoleScan) (bs : bytes) : ConsoleScan := c <| cs_tee := cs_tee c ++ bs |>.

(** ** Lemmas *)

(** Writing a line touches only the files. *)
Lemma write_line_partial c now line p :
  write_line (c <| cs_partial := p |>) now line = (write_line c now line) <| cs_partial := p |>.
Proof.
  unfold write_line. change (route (c <| cs_partial := p |>) line) with (route c line).
  destruct (route c line). done.
Qed.

Definition write_lines (c : ConsoleScan) (now : Z) (ls : list bytes) : ConsoleScan :=
  foldl (fun c l => write_line c now l) c ls.

Lemma write_line_frame c now line :
  cs_partial (write_line c now line) = cs_partial c /\ cs_tee (write_line c now line) = cs_tee c.
Proof. unfold write_line. by destruct (route c line). Qed.

Lemma write_lines_frame ls : forall c now,
  cs_partial (write_lines c now ls) = cs_partial c /\ cs_tee (write_lines c now ls) = cs_tee c.
Proof.
  induction ls as [|l ls IH]; intros c now; [done|]. unfold write_lines in *. simpl.
  destruct (IH (write_line c now l) now) as [-> ->]. apply write_line_frame.
Qed.

Lemma write_lines_partial ls : forall c now p,
  write_lines (c <| cs_partial := p |>) now ls = (write_lines c now ls) <| cs_partial := p |>.
Proof.
  induction ls as [|l ls IH]; intros c now p; [done|]. unfold write_lines in *. cbn [foldl].
  by rewrite write_line_partial, IH.
Qed.

Lemma partial_idem c p p' : c <| cs_partial := p |> <| cs_partial := p' |> = c <| cs_partial := p' |>.
Proof. done. Qed.

(** Without an overlong fragment, emitting is writing the split lines. *)
Lemma emit_loop_split fuel : forall c now ls rest,
  cs_partial c = join_lines ls rest -> Forall no_lf ls -> no_lf rest ->
  (length rest <= PARTIAL_CAP)%nat -> (length ls < fuel)%nat ->
  emit_loop fuel c now = (write_lines c now (strip_cr <$> ls)) <| cs_partial := rest |>.
Proof.
  induction fuel as [|n IH]; intros c now ls rest Hp Hls Hr Hcap Hf; [lia|]. cbn [emit_loop].
  destruct ls as [|l ls].
  - change (join_lines [] rest) with rest in Hp. rewrite Hp, pop_line_None by done.
    destruct (PARTIAL_CAP <? length rest)%nat eqn:E; [apply Nat.ltb_lt in E; lia|].
    simpl. rewrite <- Hp. by destruct c.
  - apply Forall_cons in Hls as [Hl Hls].
    assert (cs_partial c = l ++ LF :: join_lines ls rest) as ->.
    { rewrite Hp. unfold join_lines. csimpl. by rewrite <- !app_assoc. }
    rewrite pop_line_cons by done. simpl in Hf.
    rewrite (IH _ now ls rest); try done; [|apply write_line_frame|lia].
    rewrite write_line_partial, write_lines_partial, partial_idem. done.
Qed.

Lemma drain_split c now ls rest :
  split_lines (cs_partial c ++ cs_tee c) = (ls, rest) -> no_lf (cs_partial c) ->
  (length rest <= PARTIAL_CAP)%nat ->
  conscan_drain c now = (write_lines (c <| cs_tee := [] |>) now (strip_cr <$> ls)) <| cs_partial := rest |>.
Proof.
  intros Hs Hnp Hcap. pose proof (split_lines_spec (cs_partial c ++ cs_tee c)) as Hsp. rewrite Hs in Hsp.
  destruct Hsp as (Hj & Hls & Hr). unfold conscan_drain. destruct (cs_tee c) as [|b t] eqn:Ht.
  - rewrite app_nil_r in *. assert (ls = [] /\ rest = cs_partial c) as [-> ->].
    { pose proof (split_lines_join [] (cs_partial c) ltac:(constructor) Hnp) as Hx.
      change (join_lines [] (cs_partial c)) with (cs_partial c) in Hx. rewrite Hs in Hx. by simplify_eq. }
    simpl. rewrite <- Ht. by destruct c.
  - unfold emit_complete_lines.
    rewrite (emit_loop_split _ _ now ls rest); try done.
    + rewrite write_lines_partial. by rewrite partial_idem.
    + cbn [cs_partial set_field]. rewrite Hj. pose proof (join_lines_length ls rest). lia.
Qed.

(** ** File safety *)

Definition files_safe (c : ConsoleScan) : Prop :=
  forall stem content, cs_files c !! stem = Some (Some content) -> is_safe_path_component stem = true.

Lemma append_safe c stem out : files_safe c -> files_safe (append c stem out).
Proof.
  intros Hs s content. unfold append. cbn [cs_files set_field].
  assert (Hopen : forall x, open_file stem = Some x -> is_safe_path_component stem = true).
  { intros x. unfold open_file, sanitize_service_filename. by destruct (is_safe_path_component stem). }
  assert (Hstep : forall s content, (match cs_files c !! stem with
      | Some _ => cs_files c | None => <[stem := open_file stem]> (cs_files c) end) !! s = Some (Some content) ->
      is_safe_path_component s = true).
  { intros s' content'. destruct (cs_files c !! stem) eqn:E; [apply Hs|].
    destruct (decide (s' = stem)) as [->|]; [rewrite lookup_insert_eq; intros [= ?]; eauto|].
    rewrite lookup_insert_ne by done. apply Hs. }
  set (files := match cs_files c !! stem with Some _ => _ | None => _ end) in *.
  destruct (files !! stem) as [[k|]|] eqn:Ef; [|apply Hstep|apply Hstep].
  destruct (decide (s = stem)) as [->|]; [intros _; eauto|]. rewrite lookup_insert_ne by done. apply Hstep.
Qed.

Lemma write_line_safe c now line : files_safe c -> files_safe (write_line c now line).
Proof. intros. unfold write_line. destruct (route c line). by apply append_safe. Qed.

Lemma emit_loop_safe fuel : forall c now, files_safe c -> files_safe (emit_loop fuel c now).
Proof.
  induction fuel as [|n IH]; intros c now Hs; cbn [emit_loop]; [done|].
  destruct (pop_line (cs_partial c)) as [[line rest]|].
  - apply IH, write_line_safe. exact Hs.
  - case_match; [|done]. apply write_line_safe. exact Hs.
Qed.

Lemma drain_safe c now : files_safe c -> files_safe (conscan_drain c now).
Proof. intros Hs. unfold conscan_drain. destruct (cs_tee c); [done|]. apply emit_loop_safe. exact Hs. Qed.

(** Everything the scanner does to its state. *)
Inductive scan_step : ConsoleScan -> ConsoleScan -> Prop :=
  | scan_tee c bs : scan_step c (tee_in c bs)
  | scan_drain c now : scan_step c (conscan_drain c now)
  | scan_finish c now : scan_step c (conscan_finish c now).

Lemma scan_step_safe c c' : files_safe c -> scan_step c c' -> files_safe c'.
Proof.
  intros Hs Hstep. revert Hs. destruct Hstep as [c bs|c now|c now]; intros Hs; [exact Hs|by apply drain_safe|].
  unfold conscan_finish. pose proof (drain_safe c now Hs) as Hd.
  destruct (cs_partial (conscan_drain c now)); [done|]. apply write_line_safe. exact Hd.
Qed.

(** ** Properties *)

(** The logs do not depend on how the console bytes were delivered: for
    a scanner with no newline pending, draining after [a] and again after [b]
    at the same instant leaves the same files, fragment and state as draining
    once after [a ++ b], as long as no unterminated fragment passes the cap
    (past it the scanner writes the fragment out as a truncated line). *)
Theorem conscan_chunking c a b now :
  cs_tee c = [] -> no_lf (cs_partial c) ->
  (length (split_lines (cs_partial c ++ a)).2 <= PARTIAL_CAP)%nat ->
  (length (split_lines (cs_partial c ++ a ++ b)).2 <= PARTIAL_CAP)%nat ->
  conscan_drain (tee_in (conscan_drain (tee_in c a) now) b) now = conscan_drain (tee_in c (a ++ b)) now.
Proof.
  intros Ht Hnp Hcap1 Hcap2. pose proof (split_lines_app (cs_partial c ++ a) b) as Happ.
  pose proof (split_lines_spec (cs_partial c ++ a)) as S1.
  destruct (split_lines (cs_partial c ++ a)) as [l1 r1] eqn:E1. destruct S1 as (J1 & _ & Hr1).
  pose proof (split_lines_spec (r1 ++ b)) as S2.
  destruct (split_lines (r1 ++ b)) as [l2 r2] eqn:E2. destruct S2 as (J2 & _ & _).
  rewrite app_assoc, Happ in Hcap2. cbn [snd] in Hcap1, Hcap2.
  rewrite (drain_split (tee_in c a) now l1 r1); [|cbn [tee_in cs_partial cs_tee set_field]; by rewrite Ht|done|lia].
  rewrite (drain_split (tee_in c (a ++ b)) now (l1 ++ l2) r2);
    [|cbn [tee_in cs_partial cs_tee set_field]; rewrite Ht, app_nil_l, app_assoc; exact Happ|done|lia].
  set (c1 := (write_lines ((tee_in c a) <| cs_tee := [] |>) now (strip_cr <$> l1)) <| cs_partial := r1 |>).
  assert (Htee : cs_tee c1 = []) by (unfold c1; cbn [cs_tee set_field]; apply write_lines_frame).
  rewrite (drain_split (tee_in c1 b) now l2 r2); [|cbn [tee_in cs_partial cs_tee set_field]; by rewrite Htee|done|lia].
  assert ((tee_in c1 b) <| cs_tee := [] |> = c1) as -> by (rewrite <- Htee; by destruct c1).
  assert ((tee_in c (a ++ b)) <| cs_tee := [] |> = (tee_in c a) <| cs_tee := [] |>) as -> by done.
  unfold c1. rewrite write_lines_partial, partial_idem. f_equal.
  unfold write_lines. by rewrite fmap_app, foldl_app.
Qed.

(** Hostile service names never reach the file system: in every state
    reachable from a new scanner, each open log file's name is one safe path
    component. *)
Theorem conscan_files_safe project services t0 hz c :
  rtc scan_step (conscan_new project services t0 hz) c -> files_safe c.
Proof.
  intros Hr. assert (files_safe (conscan_new project services t0 hz)) as H0.
  { intros stem content. simpl. by rewrite lookup_empty. }
  induction Hr as [|x y z Hs _ IH]; [done|]. by apply IH, (scan_step_safe x).
Qed.

(** A container's line reaches its service's log: a line
    [[<project>-<service>-<digits>] msg] (no bracket in the name, which is
    valid UTF-8) is attributed to the service and its prefix stripped; a line
    that names no service goes to the residue file verbatim. *)
Theorem route_container_line c svc num msg :
  svc ∈ cs_services c -> num <> [] -> forallb is_ascii_digit num = true ->
  Forall (fun b => b <> 93) (cs_project_prefix c ++ svc) ->
  let name := cs_project_prefix c ++ svc ++ [45] ++ num in
  from_utf8_ok name = true ->
  route c ([91] ++ name ++ [93; 32] ++ msg) = (svc, msg)
  /\ (forall line, bracket_prefix line = None -> route c line = (cs_residue c, line)).
Proof.
  intros Hsvc Hne Hdig Hnb name Hutf. split.
  2: { intros line Hb. unfold route. by rewrite Hb. }
  assert (Hname : Forall (fun b => (b =? 93) = false) name).
  { unfold name. rewrite app_assoc. apply Forall_app. split.
    - eapply Forall_impl; [exact Hnb|]. intros b. apply Z.eqb_neq.
    - constructor; [done|]. apply Forall_forall. intros b Hb. rewrite forallb_forall in Hdig.
      apply list_elem_of_In in Hb. specialize (Hdig b Hb). unfold is_ascii_digit in Hdig. bool_prop.
      apply Z.eqb_neq. lia. }
  assert (Hbr : bracket_prefix ([91] ++ name ++ [93; 32] ++ msg) = Some name).
  { unfold bracket_prefix. rewrite bool_decide_eq_true_2 by done. cbn [negb app].
    change (91 :: name ++ 93 :: 32 :: msg) with ((91 :: name) ++ 93 :: 32 :: msg).
    rewrite (position_skip (fun b => b =? 93) (91 :: name) 93); [|by constructor|done].
    cbn [mbind option_bind]. f_equal. unfold slice. cbn [length app drop].
    replace (S (length name) - 1)%nat with (length name) by lia. apply take_app_length. }
  assert (Hfind : find_service c svc = Some svc).
  { unfold find_service. destruct (List.find _ _) as [s|] eqn:E.
    - apply List.find_some in E as [_ E]. by apply bool_decide_eq_true in E as ->.
    - apply list_elem_of_In in Hsvc. apply (List.find_none _ _ E) in Hsvc. by rewrite bool_decide_eq_true_2 in Hsvc. }
  assert (Hso : service_of c name = Some svc).
  { unfold service_of. rewrite Hutf. cbn [negb]. unfold strip_prefix at 1. unfold name.
    rewrite take_app_length, drop_app_length, bool_decide_eq_true_2 by done. cbn [mbind option_bind].
    cbn [app]. rewrite (rposition_skip (fun b => b =? 45) svc 45 num); [|apply Forall_forall|done].
    - cbn [mbind option_bind]. rewrite take_app_length.
      replace (drop (length svc + 1) (svc ++ 45 :: num)) with num.
      + rewrite bool_decide_eq_false_2, Hdig by done. cbn [negb andb]. by rewrite Hfind.
      + rewrite drop_app_add. done.
    - intros b Hb. rewrite forallb_forall in Hdig. apply list_elem_of_In in Hb. specialize (Hdig b Hb).
      unfold is_ascii_digit in Hdig. bool_prop. apply Z.eqb_neq. lia. }
  unfold route. rewrite Hbr, Hso.
  assert (drop (length name + 2) ([91] ++ name ++ [93; 32] ++ msg) = 32 :: msg) as ->.
  { replace (length name + 2)%nat with (length (([91] ++ name) ++ [93])) by (rewrite !length_app; simpl; lia).
    change ([93; 32] ++ msg) with ([93] ++ 32 :: msg). rewrite !(app_assoc _ _ (32 :: msg)), app_assoc.
    apply drop_app_length. }
  unfold strip_prefix. cbn [length take drop]. by rewrite take_0, bool_decide_eq_true_2.
Qed.
End scan.

(** Service "web" of project "p", line "[p-web-1] hi". *)
Lemma route_container_line_witness :
  route (conscan_new [112] [[119; 101; 98]] 0 1000)
    ([91] ++ ([112; 45] ++ [119; 101; 98] ++ [45] ++ [49]) ++ [93; 32] ++ [104; 105]) = ([119; 101; 98], [104; 105]).
Proof.
  apply (route_container_line (conscan_new [112] [[119; 101; 98]] 0 1000) [119; 101; 98] [49] [104; 105]).
  - left.
  - done.
  - reflexivity.
  - repeat constructor; lia.
  - reflexivity.
Defined.

Lemma conscan_chunking_witness :
  let c := conscan_new [112] [[119; 101; 98]] 0 1000 in
  let drain c := conscan_drain (fun _ _ => [84]) (fun _ => true) (fun _ _ => true) c 5 in
  drain (tee_in (drain (tee_in c [104; 105; 10; 120])) [121; 10]) = drain (tee_in c [104; 105; 10; 120; 121; 10]).
Proof.
  apply (conscan_chunking (fun _ _ => [84]) (fun _ => true) (fun _ _ => true)
    (conscan_new [112] [[119; 101; 98]] 0 1000) [104; 105; 10; 120] [121; 10] 5).
  - reflexivity.
  - constructor.
  - apply Nat.leb_le. by vm_compute.
  - apply Nat.leb_le. by vm_compute.
Defined.

Lemma conscan_files_safe_witness :
  files_safe (conscan_drain (fun _ _ => [84]) (fun _ => true) (fun _ _ => true)
    (tee_in (conscan_new [112] [[46; 46]] 0 1000) [91; 46; 46; 93; 10]) 5).
Proof.
  apply (conscan_files_safe (fun _ _ => [84]) (fun _ => true) (fun _ _ => true) [112] [[46; 46]] 0 1000).
  eapply rtc_l; [apply scan_tee|]. eapply rtc_l; [apply scan_drain|]. apply rtc_refl.
Defined.

(** The residue file is not always separate: with services named both
    "console" and "_console" the residue takes the second service's file, so
    kernel lines and that service's lines share one log. *)
Theorem residue_can_collide services :
  RESIDUE ∈ services -> 95 :: RESIDUE ∈ services -> residue_for services ∈ services.
Proof.
  intros H1 H2. unfold residue_for.
  assert (existsb (fun s => bool_decide (s = RESIDUE)) services = true) as ->; [|done].
  apply existsb_exists. exists RESIDUE. split; [by apply list_elem_of_In|by apply bool_decide_eq_true_2].
Qed.

Lemma residue_can_collide_witness : residue_for [RESIDUE; 95 :: RESIDUE] ∈ [RESIDUE; 95 :: RESIDUE].
Proof. apply (residue_can_collide [RESIDUE; 95 :: RESIDUE]); [left|right; left]. Defined.
