(* ===== verification/EgressCodec.v ===== *)
(** * The egress mux codec ([src/tdvmm-proto/src/egress.rs])

    The binary frames between the guest forwarder and the host backend.  The
    properties make encode and decode inverse of each other on well-formed
    frames, on whole streams and on prefixes: what is encoded decodes back
    with whatever follows it, a truncated frame asks for more bytes, and every
    accepted byte string is the encoding of the frame it gives. *)

From Stdlib Require Import ZArith Lia.
From stdpp Require Import base numbers list.
From S2P Require Import Prelude.

Open Scope Z_scope.

Definition EGRESS_SCHEMA : Z := 1.
Definition EGRESS_VERSION : Z := 1.
Definition EGRESS_HEADER_LEN : nat := 6.
Definition EGRESS_MAX_PAYLOAD : Z := 65535.
Definition EGRESS_MAX_HOST_LEN : Z := 255.
Definition T_OPEN : Z := 1.
Definition T_OPEN_OK : Z := 2.
Definition T_OPEN_ERR : Z := 3.
Definition T_DATA : Z := 4.
Definition T_CLOSE : Z := 5.
Definition T_RST : Z := 6.
Definition T_WINDOW : Z := 7.

Inductive EgressReason :=
  | ResolveFailed | ConnectRefused | Unreachable | StreamLimit | ProtocolError | Overrun
  | OtherReason (x : Z).

#[export] Instance EgressReason_eq_dec : EqDecision EgressReason.
Proof. solve_decision. Defined.

Definition reason_code (r : EgressReason) : Z :=
  match r with
  | ResolveFailed => 0 | ConnectRefused => 1 | Unreachable => 2 | StreamLimit => 3
  | ProtocolError => 4 | Overrun => 5 | OtherReason x => x
  end.

Definition reason_from_code (code : Z) : EgressReason :=
  if code =? 0 then ResolveFailed
  else if code =? 1 then ConnectRefused
  else if code =? 2 then Unreachable
  else if code =? 3 then StreamLimit
  else if code =? 4 then ProtocolError
  else if code =? 5 then Overrun
  else OtherReason code.

Inductive EgressFrame :=
  | Open (stream port : Z) (host : list Z)
  | OpenOk (stream : Z)
  | OpenErr (stream : Z) (reason : EgressReason)
  | Data (stream : Z) (payload : list Z)
  | Close (stream : Z)
  | Rst (stream : Z)
  | Window (stream credit : Z).

#[export] Instance EgressFrame_eq_dec : EqDecision EgressFrame.
Proof. solve_decision. Defined.

Definition frame_stream (f : EgressFrame) : Z :=
  match f with
  | Open s _ _ | OpenOk s | OpenErr s _ | Data s _ | Close s | Rst s | Window s _ => s
  end.

Inductive EgressCodecError :=
  | UnsupportedVersion (v : Z)
  | UnknownType (t : Z)
  | BadLength (frame_type len : Z)
  | HostTooLong (n : Z)
  | PayloadTooLong (n : Z).

Record Decoded := { decoded_frame : EgressFrame; consumed : nat }.

(** ** Encoding *)

Definition write_header (out : list Z) (ty stream len : Z) : result EgressCodecError (list Z) :=
  if len <=? 65535 then Ok (out ++ [EGRESS_VERSION; ty] ++ le_bytes 2 stream ++ le_bytes 2 len)
  else Err (PayloadTooLong len).

Definition encode (f : EgressFrame) (out : list Z) : result EgressCodecError (list Z) :=
  match f with
  | Open stream port host =>
      let n := Z.of_nat (length host) in
      if EGRESS_MAX_HOST_LEN <? n then Err (HostTooLong n)
      else out ← write_header out T_OPEN stream (2 + n); Ok (out ++ le_bytes 2 port ++ host)
  | OpenOk stream => write_header out T_OPEN_OK stream 0
  | OpenErr stream reason =>
      out ← write_header out T_OPEN_ERR stream 1; Ok (out ++ [reason_code reason])
  | Data stream payload =>
      let n := Z.of_nat (length payload) in
      if EGRESS_MAX_PAYLOAD <? n then Err (PayloadTooLong n)
      else out ← write_header out T_DATA stream n; Ok (out ++ payload)
  | Close stream => write_header out T_CLOSE stream 0
  | Rst stream => write_header out T_RST stream 0
  | Window stream credit =>
      out ← write_header out T_WINDOW stream 4; Ok (out ++ le_bytes 4 credit)
  end.

(** ** Decoding *)

Definition byte_at (l : list Z) (i : nat) : Z := default 0 (l !! i).

(** The frame of type [ty] with payload [payload] of length [len]. *)
Definition decode_payload (ty stream len : Z) (payload : list Z) : result EgressCodecError EgressFrame :=
  let bad_len := Err (BadLength ty len) in
  if ty =? T_OPEN then
    if (length payload <? 2)%nat || (EGRESS_MAX_HOST_LEN <? Z.of_nat (length payload) - 2) then bad_len
    else Ok (Open stream (of_le_bytes [byte_at payload 0; byte_at payload 1]) (drop 2 payload))
  else if ty =? T_OPEN_OK then if negb (len =? 0) then bad_len else Ok (OpenOk stream)
  else if ty =? T_OPEN_ERR then
    if negb (len =? 1) then bad_len else Ok (OpenErr stream (reason_from_code (byte_at payload 0)))
  else if ty =? T_DATA then Ok (Data stream payload)
  else if ty =? T_CLOSE then if negb (len =? 0) then bad_len else Ok (Close stream)
  else if ty =? T_RST then if negb (len =? 0) then bad_len else Ok (Rst stream)
  else if ty =? T_WINDOW then
    if negb (len =? 4) then bad_len
    else Ok (Window stream (of_le_bytes [byte_at payload 0; byte_at payload 1; byte_at payload 2; byte_at payload 3]))
  else Err (UnknownType ty).

Definition decode (input : list Z) : result EgressCodecError (option Decoded) :=
  let bad_version := match input with
                     | ver :: _ => if negb (ver =? EGRESS_VERSION) then Some ver else None
                     | [] => None
                     end in
  match bad_version with
  | Some ver => Err (UnsupportedVersion ver)
  | None =>
      if (length input <? EGRESS_HEADER_LEN)%nat then Ok None
      else
        let ty := byte_at input 1 in
        let stream := of_le_bytes [byte_at input 2; byte_at input 3] in
        let len := of_le_bytes [byte_at input 4; byte_at input 5] in
        let total := (EGRESS_HEADER_LEN + Z.to_nat len)%nat in
        if (length input <? total)%nat then Ok None
        else
          f ← decode_payload ty stream len (slice EGRESS_HEADER_LEN total input);
          Ok (Some {| decoded_frame := f; consumed := total |})
  end.

(** ** Specification *)

(** Frames the wire can carry: fields at their width, limits respected, and a
    reason in its canonical constructor. *)
Definition frame_ok (f : EgressFrame) : Prop :=
  fits 16 (frame_stream f) /\
  match f with
  | Open _ port host => fits 16 port /\ bytes_ok host /\ Z.of_nat (length host) <= EGRESS_MAX_HOST_LEN
  | OpenErr _ r => reason_from_code (reason_code r) = r /\ fits 8 (reason_code r)
  | Data _ payload => bytes_ok payload /\ Z.of_nat (length payload) <= EGRESS_MAX_PAYLOAD
  | Window _ credit => fits 32 credit
  | _ => True
  end.

(** The wire image of a frame. *)
Definition frame_type (f : EgressFrame) : Z :=
  match f with
  | Open _ _ _ => T_OPEN | OpenOk _ => T_OPEN_OK | OpenErr _ _ => T_OPEN_ERR | Data _ _ => T_DATA
  | Close _ => T_CLOSE | Rst _ => T_RST | Window _ _ => T_WINDOW
  end.

Definition frame_payload (f : EgressFrame) : list Z :=
  match f with
  | Open _ port host => le_bytes 2 port ++ host
  | OpenErr _ r => [reason_code r]
  | Data _ payload => payload
  | Window _ credit => le_bytes 4 credit
  | _ => []
  end.

Definition wire (f : EgressFrame) : list Z :=
  [EGRESS_VERSION; frame_type f] ++ le_bytes 2 (frame_stream f)
  ++ le_bytes 2 (Z.of_nat (length (frame_payload f))) ++ frame_payload f.

(** Decoding a whole buffer: the frames, and what is left. *)
Fixpoint decode_all (fuel : nat) (input : list Z) : result EgressCodecError (list EgressFrame * list Z) :=
  match fuel with
  | O => Ok ([], input)
  | S n =>
      d ← decode input;
      match d with
      | None => Ok ([], input)
      | Some d =>
          r ← decode_all n (drop (consumed d) input);
          Ok (decoded_frame d :: r.1, r.2)
      end
  end.

(** ** Lemmas *)

Lemma le_bytes_2 z : exists a b, le_bytes 2 z = [a; b] /\ fits 8 a /\ fits 8 b
  /\ of_le_bytes [a; b] = wrap 16 z.
Proof.
  pose proof (length_le_bytes 2 z ltac:(lia)) as Hl. pose proof (le_bytes_ok 2 z ltac:(lia)) as Hok.
  pose proof (of_le_bytes_le_bytes 2 z ltac:(lia)) as Hv.
  destruct (le_bytes 2 z) as [|a [|b [|c l]]]; try done. unfold bytes_ok in Hok.
  rewrite !Forall_cons in Hok. destruct Hok as (? & ? & _). exists a, b. done.
Qed.

Lemma le_bytes_4 z : exists a b c d, le_bytes 4 z = [a; b; c; d] /\ of_le_bytes [a; b; c; d] = wrap 32 z.
Proof.
  pose proof (length_le_bytes 4 z ltac:(lia)) as Hl. pose proof (of_le_bytes_le_bytes 4 z ltac:(lia)) as Hv.
  destruct (le_bytes 4 z) as [|a [|b [|c [|d [|e l]]]]]; try done. by exists a, b, c, d.
Qed.

Lemma payload_length f : frame_ok f -> Z.of_nat (length (frame_payload f)) <= 65535.
Proof.
  unfold frame_ok, EGRESS_MAX_HOST_LEN, EGRESS_MAX_PAYLOAD.
  destruct f; cbn [frame_payload]; rewrite ?length_app, ?length_le_bytes by lia; cbn [length]; lia.
Qed.

Lemma encode_wire f out : frame_ok f -> encode f out = Ok (out ++ wire f).
Proof.
  intros Hf. unfold encode, write_header, wire, frame_ok, EGRESS_MAX_HOST_LEN, EGRESS_MAX_PAYLOAD in *.
  destruct f as [s p h|s|s r|s p|s|s|s c]; cbn [frame_payload frame_type frame_stream length] in *;
    rewrite ?app_nil_r; try done.
  - destruct Hf as (_ & _ & _ & Hh).
    rewrite (proj2 (Z.ltb_ge _ _)), (proj2 (Z.leb_le _ _)) by lia. cbn [mbind result_bind].
    rewrite length_app, length_le_bytes by lia.
    replace (Z.of_nat (Z.to_nat 2 + length h)) with (2 + Z.of_nat (length h)) by lia.
    by rewrite <- !app_assoc.
  - change (1 <=? 65535) with true. cbn [mbind result_bind]. by rewrite <- !app_assoc.
  - destruct Hf as (_ & _ & Hp). rewrite (proj2 (Z.ltb_ge _ _)), (proj2 (Z.leb_le _ _)) by lia.
    cbn [mbind result_bind]. by rewrite <- !app_assoc.
  - change (4 <=? 65535) with true. cbn [mbind result_bind]. rewrite length_le_bytes by lia.
    by rewrite <- !app_assoc.
Qed.

(** Reading a header and its payload back. *)
Lemma decode_header ty s payload rest :
  fits 8 ty -> fits 16 s -> Z.of_nat (length payload) <= 65535 ->
  decode (([EGRESS_VERSION; ty] ++ le_bytes 2 s ++ le_bytes 2 (Z.of_nat (length payload)) ++ payload) ++ rest) =
    (f ← decode_payload ty s (Z.of_nat (length payload)) payload;
     Ok (Some {| decoded_frame := f; consumed := 6 + length payload |})).
Proof.
  intros Hty Hs Hl. destruct (le_bytes_2 s) as (a & b & -> & _ & _ & Hab).
  destruct (le_bytes_2 (Z.of_nat (length payload))) as (c & d & -> & _ & _ & Hcd).
  rewrite wrap_id in Hab by done. rewrite wrap_id in Hcd by (unfold fits; lia).
  set (input := ([EGRESS_VERSION; ty] ++ [a; b] ++ [c; d] ++ payload) ++ rest).
  assert (Hin : input = [EGRESS_VERSION; ty; a; b; c; d] ++ payload ++ rest) by (unfold input; by rewrite <- !app_assoc).
  assert (Hlen : length input = (6 + (length payload + length rest))%nat)
    by (rewrite Hin, !length_app; done).
  unfold decode. rewrite Hlen. unfold EGRESS_HEADER_LEN.
  assert (match input with ver :: _ => if negb (ver =? EGRESS_VERSION) then Some ver else None | [] => None end
    = None) as -> by (by rewrite Hin).
  assert (byte_at input 1 = ty /\ byte_at input 2 = a /\ byte_at input 3 = b /\ byte_at input 4 = c
    /\ byte_at input 5 = d) as (-> & -> & -> & -> & ->) by (rewrite Hin; done).
  rewrite Hab, Hcd, Nat2Z.id. cbv zeta.
  destruct (_ <? 6)%nat eqn:E6; [apply Nat.ltb_lt in E6; lia|].
  destruct (_ <? 6 + length payload)%nat eqn:El; [apply Nat.ltb_lt in El; lia|].
  assert (slice 6 (6 + length payload) input = payload) as ->; [|done].
  unfold slice. rewrite Hin. replace (6 + length payload - 6)%nat with (length payload) by lia.
  change 6%nat with (length [EGRESS_VERSION; ty; a; b; c; d]) at 1. rewrite drop_app_length.
  apply take_app_length.
Qed.

Lemma decode_payload_ok f : frame_ok f ->
  decode_payload (frame_type f) (frame_stream f) (Z.of_nat (length (frame_payload f))) (frame_payload f) = Ok f.
Proof.
  intros Hf. unfold frame_ok, EGRESS_MAX_HOST_LEN in Hf.
  destruct f as [s p h|s|s r|s p|s|s|s c]; cbn [frame_payload frame_type frame_stream] in *; try done.
  - destruct Hf as (_ & Hp & _ & Hh). destruct (le_bytes_2 p) as (a & b & -> & _ & _ & Hab).
    rewrite wrap_id in Hab by done. unfold decode_payload. cbn [app length].
    change (T_OPEN =? T_OPEN) with true. cbv iota. unfold EGRESS_MAX_HOST_LEN.
    rewrite (proj2 (Nat.ltb_ge _ _)), (proj2 (Z.ltb_ge _ _)) by lia. cbn [orb drop].
    unfold byte_at. simpl. by rewrite Hab, drop_0.
  - destruct Hf as (_ & Hr & _). unfold decode_payload, byte_at. simpl. by rewrite Hr.
  - destruct Hf as (_ & Hc). destruct (le_bytes_4 c) as (x & y & z & w & -> & Hxyz).
    rewrite wrap_id in Hxyz by done. unfold decode_payload, byte_at. simpl. by rewrite Hxyz.
Qed.

Lemma frame_type_fits f : fits 8 (frame_type f).
Proof. destruct f; unfold fits, frame_type, T_OPEN, T_OPEN_OK, T_OPEN_ERR, T_DATA, T_CLOSE, T_RST, T_WINDOW; lia. Qed.

Lemma length_wire f : length (wire f) = (6 + length (frame_payload f))%nat.
Proof. unfold wire. rewrite !length_app, !length_le_bytes by lia. done. Qed.

Lemma decode_wire f rest : frame_ok f ->
  decode (wire f ++ rest) = Ok (Some {| decoded_frame := f; consumed := length (wire f) |}).
Proof.
  intros Hf. pose proof (payload_length f Hf). unfold wire at 1.
  rewrite decode_header; [|apply frame_type_fits|apply Hf|done].
  rewrite decode_payload_ok by done. by rewrite length_wire.
Qed.

(** A proper prefix of a frame is incomplete. *)
Lemma decode_prefix f k : frame_ok f -> (k < length (wire f))%nat -> decode (take k (wire f)) = Ok None.
Proof.
  intros Hf Hk. pose proof (payload_length f Hf) as Hl. rewrite length_wire in Hk.
  unfold decode, EGRESS_HEADER_LEN. rewrite length_take, length_wire, Nat.min_l by lia.
  destruct (le_bytes_2 (frame_stream f)) as (a & b & Ea & _).
  destruct (le_bytes_2 (Z.of_nat (length (frame_payload f)))) as (c & d & Ec & _ & _ & Hcd).
  rewrite wrap_id in Hcd by (unfold fits; lia).
  assert (Hw : wire f = [EGRESS_VERSION; frame_type f; a; b; c; d] ++ frame_payload f)
    by (unfold wire; rewrite Ea, Ec; done).
  assert (match take k (wire f) with ver :: _ => if negb (ver =? EGRESS_VERSION) then Some ver else None
    | [] => None end = None) as -> by (rewrite Hw; by destruct k).
  destruct (k <? 6)%nat eqn:E; [done|]. apply Nat.ltb_ge in E.
  assert (forall i, (i < 6)%nat -> byte_at (take k (wire f)) i = byte_at (wire f) i) as Hb.
  { intros i Hi. unfold byte_at. by rewrite lookup_take_lt by lia. }
  rewrite !Hb by lia. cbv zeta.
  assert (of_le_bytes [byte_at (wire f) 4; byte_at (wire f) 5] = Z.of_nat (length (frame_payload f))) as ->
    by (rewrite Hw; exact Hcd).
  rewrite Nat2Z.id. destruct (k <? 6 + length (frame_payload f))%nat eqn:Ek; [done|].
  apply Nat.ltb_ge in Ek. lia.
Qed.

(** The fields of an accepted input. *)
Lemma reason_from_code_fits c : fits 8 c ->
  reason_code (reason_from_code c) = c /\ reason_from_code (reason_code (reason_from_code c)) = reason_from_code c.
Proof.
  intros _. unfold reason_from_code.
  repeat (destruct (_ =? _) eqn:?; bool_prop; [subst; done|]). split; [done|]. cbn [reason_code].
  by repeat (rewrite (proj2 (Z.eqb_neq _ _)) by done).
Qed.

Lemma of_le_bytes_pair a b : fits 8 a -> fits 8 b ->
  fits 16 (of_le_bytes [a; b]) /\ le_bytes 2 (of_le_bytes [a; b]) = [a; b].
Proof.
  intros Ha Hb. assert (bytes_ok [a; b]) as Hok by (by unfold bytes_ok; rewrite !Forall_cons).
  pose proof (le_bytes_of_le_bytes [a; b] 2 ltac:(done) Hok) as Hle. split; [|done].
  pose proof (of_le_bytes_le_bytes 2 (of_le_bytes [a; b]) ltac:(lia)) as Hv. rewrite Hle in Hv.
  rewrite Hv. apply (wrap_fits 16). lia.
Qed.

Lemma of_le_bytes_quad a b c d : bytes_ok [a; b; c; d] ->
  fits 32 (of_le_bytes [a; b; c; d]) /\ le_bytes 4 (of_le_bytes [a; b; c; d]) = [a; b; c; d].
Proof.
  intros Hok. pose proof (le_bytes_of_le_bytes [a; b; c; d] 4 ltac:(done) Hok) as Hle. split; [|done].
  pose proof (of_le_bytes_le_bytes 4 (of_le_bytes [a; b; c; d]) ltac:(lia)) as Hv. rewrite Hle in Hv.
  rewrite Hv. apply (wrap_fits 32). lia.
Qed.

Lemma decode_payload_inv ty s payload f :
  fits 16 s -> bytes_ok payload -> Z.of_nat (length payload) <= 65535 ->
  decode_payload ty s (Z.of_nat (length payload)) payload = Ok f ->
  frame_ok f /\ frame_type f = ty /\ frame_stream f = s /\ frame_payload f = payload.
Proof.
  intros Hs Hok Hl. unfold decode_payload, frame_ok, EGRESS_MAX_HOST_LEN, EGRESS_MAX_PAYLOAD.
  destruct (ty =? T_OPEN) eqn:E1; bool_prop.
  { destruct payload as [|a [|b h]]; [done|done|]. cbn [length].
    destruct (_ || _) eqn:E; [done|]. bool_prop. intros [= <-]. unfold byte_at. cbn [lookup list_lookup default drop].
    unfold bytes_ok in Hok. rewrite !Forall_cons in Hok. destruct Hok as (Ha & Hb & Hh).
    destruct (of_le_bytes_pair a b Ha Hb) as [Hf Hle]. cbn [frame_stream frame_type frame_payload].
    simpl. rewrite drop_0. split_and!; try done; try lia. exact (f_equal (.++ h) Hle). }
  destruct (ty =? T_OPEN_OK) eqn:E2; bool_prop.
  { destruct (negb _) eqn:E; [done|]. bool_prop. intros [= <-]. destruct payload; [done|simpl in *; lia]. }
  destruct (ty =? T_OPEN_ERR) eqn:E3; bool_prop.
  { destruct (negb _) eqn:E; [done|]. bool_prop. intros [= <-].
    destruct payload as [|a [|b h]]; simpl in *; try lia. unfold byte_at. simpl.
    apply Forall_cons in Hok as [Ha _]. destruct (reason_from_code_fits a Ha) as [Hr Hr'].
    rewrite Hr in *. split_and!; done. }
  destruct (ty =? T_DATA) eqn:E4; bool_prop; [by intros [= <-]|].
  destruct (ty =? T_CLOSE) eqn:E5; bool_prop.
  { destruct (negb _) eqn:E; [done|]. bool_prop. intros [= <-]. destruct payload; [done|simpl in *; lia]. }
  destruct (ty =? T_RST) eqn:E6; bool_prop.
  { destruct (negb _) eqn:E; [done|]. bool_prop. intros [= <-]. destruct payload; [done|simpl in *; lia]. }
  destruct (ty =? T_WINDOW) eqn:E7; bool_prop; [|done].
  destruct (negb _) eqn:E; [done|]. bool_prop. intros [= <-].
  destruct payload as [|a [|b [|c [|d [|e h]]]]]; simpl in *; try lia. unfold byte_at. simpl.
  destruct (of_le_bytes_quad a b c d Hok) as [Hf Hle]. split_and!; done.
Qed.

Lemma decode_sound input d : bytes_ok input -> decode input = Ok (Some d) ->
  frame_ok (decoded_frame d) /\ (consumed d <= length input)%nat
  /\ wire (decoded_frame d) = take (consumed d) input.
Proof.
  intros Hok. unfold decode, EGRESS_HEADER_LEN.
  destruct input as [|v [|t [|a [|b [|c [|e rest]]]]]]; cbn [length]; try (by repeat case_match).
  destruct (negb (v =? EGRESS_VERSION)) eqn:Ev; [done|]. bool_prop. subst v.
  destruct (_ <? 6)%nat eqn:E6; [apply Nat.ltb_lt in E6; lia|]. unfold byte_at. simpl lookup. cbn [default from_option].
  unfold bytes_ok in Hok. rewrite !Forall_cons in Hok. destruct Hok as (_ & Ht & Ha & Hb & Hc & He & Hr).
  destruct (of_le_bytes_pair a b Ha Hb) as [Hs Hsl]. destruct (of_le_bytes_pair c e Hc He) as [Hn Hnl].
  set (n := of_le_bytes [c; e]) in *. set (s := of_le_bytes [a; b]) in *.
  unfold id. fold n s. destruct (_ <? 6 + Z.to_nat n)%nat eqn:El; [done|]. apply Nat.ltb_ge in El.
  assert (slice 6 (6 + Z.to_nat n) (EGRESS_VERSION :: t :: a :: b :: c :: e :: rest) = take (Z.to_nat n) rest) as ->.
  { unfold slice. replace (6 + Z.to_nat n - 6)%nat with (Z.to_nat n) by lia. cbn [drop]. by rewrite drop_0. }
  set (payload := take (Z.to_nat n) rest).
  assert (Hpl : Z.of_nat (length payload) = n).
  { unfold payload, fits in *. rewrite length_take. lia. }
  destruct (decode_payload t s n payload) as [f|] eqn:Ed; [|done]. simpl. intros [= <-]. cbn [decoded_frame consumed].
  rewrite <- Hpl in Ed. apply decode_payload_inv in Ed as (Hf & Hty & Hst & Hp); [|done|by apply Forall_take|].
  2: { unfold fits in Hn. lia. }
  split; [done|]. split; [lia|]. unfold wire. rewrite Hty, Hst, Hp, Hpl, Hsl, Hnl. unfold payload. done.
Qed.

Lemma decode_consumes input d : decode input = Ok (Some d) -> (6 <= consumed d)%nat.
Proof.
  unfold decode, EGRESS_HEADER_LEN. cbv zeta. generalize (decode_payload (byte_at input 1)). intros g H.
  assert (forall (m : result EgressCodecError EgressFrame) n, (x ← m; Ok (Some {| decoded_frame := x; consumed := 6 + n |})) = Ok (Some d)
    -> (6 <= consumed d)%nat) as Hb by (intros [x|e] n; [intros [= <-]; simpl; lia|done]).
  destruct input as [|v input]; [done|]. destruct (negb _); [done|].
  destruct (_ <? 6)%nat; [done|]. destruct (_ <? _)%nat; [done|]. exact (Hb _ _ H).
Qed.

Lemma decode_all_stream fs : forall fuel tail,
  Forall frame_ok fs -> decode tail = Ok None -> (length fs < fuel)%nat ->
  decode_all fuel (concat (wire <$> fs) ++ tail) = Ok (fs, tail).
Proof.
  induction fs as [|f fs IH]; intros fuel tail Hok Ht Hf; (destruct fuel as [|fuel]; [simpl in Hf; lia|]).
  - cbn [decode_all fmap list_fmap concat app]. by rewrite Ht.
  - apply Forall_cons in Hok as [Hf1 Hok]. cbn [decode_all fmap list_fmap concat].
    rewrite <- app_assoc, decode_wire by done. cbn [mbind result_bind consumed decoded_frame].
    rewrite drop_app_length. change (list_fmap _ _ wire fs) with (wire <$> fs).
    rewrite IH by (done || simpl in Hf; lia). done.
Qed.

(** A cut of a stream of frames: the frames that are whole, and a rest that
    asks for more. *)
Lemma decode_all_cut fs : forall fuel k, Forall frame_ok fs -> (length (take k (concat (wire <$> fs))) < fuel)%nat ->
  exists n tail, decode_all fuel (take k (concat (wire <$> fs))) = Ok (take n fs, tail)
  /\ take k (concat (wire <$> fs)) = concat (wire <$> take n fs) ++ tail /\ decode tail = Ok None.
Proof.
  induction fs as [|f fs IH]; intros fuel k Hok Hf; (destruct fuel as [|fuel]; [lia|]).
  { exists O, []. cbn [fmap list_fmap concat]. rewrite take_nil. done. }
  apply Forall_cons in Hok as [Hf1 Hok]. cbn [fmap list_fmap concat] in *. fold (wire <$> fs) in *.
  destruct (decide (k < length (wire f))%nat) as [Hk|Hk].
  - exists O, (take k (wire f)). rewrite take_app_le by lia. cbn [decode_all take fmap list_fmap concat app].
    rewrite (decode_prefix f k Hf1 Hk). done.
  - rewrite take_app_ge in * by lia. cbn [decode_all]. rewrite decode_wire by done.
    cbn [mbind result_bind consumed decoded_frame]. rewrite drop_app_length.
    rewrite length_app, length_wire in Hf.
    destruct (IH fuel (k - length (wire f))%nat Hok ltac:(rewrite length_wire; lia)) as (n & tail & E & Et & Ed).
    exists (S n), tail. cbn [take fmap list_fmap concat]. fold (wire <$> fs). rewrite E. cbn [fst snd].
    fold (wire <$> take n fs). rewrite Et, <- app_assoc. done.
Qed.

(** Well-formed frame sequences are determined by their bytes. *)
Lemma wire_stream_inj fs gs : Forall frame_ok fs -> Forall frame_ok gs ->
  concat (wire <$> fs) = concat (wire <$> gs) -> fs = gs.
Proof.
  intros Hf Hg E. set (n := S (length fs + length gs)).
  pose proof (decode_all_stream fs n [] Hf eq_refl ltac:(lia)) as H1.
  pose proof (decode_all_stream gs n [] Hg eq_refl ltac:(lia)) as H2. rewrite E in H1. congruence.
Qed.

(** ** Properties *)

(** C32: Encode then decode: any frame the wire can carry encodes, and its
    bytes, followed by anything, decode to the same frame and consume exactly
    those bytes; every proper prefix of them asks for more. *)
Theorem codec_roundtrip f out rest k :
  frame_ok f ->
  exists bs, encode f out = Ok (out ++ bs)
  /\ decode (bs ++ rest) = Ok (Some {| decoded_frame := f; consumed := length bs |})
  /\ ((k < length bs)%nat -> decode (take k bs) = Ok None).
Proof.
  intros Hf. exists (wire f). split; [by apply encode_wire|].
  split; [by apply decode_wire|]. by apply decode_prefix.
Qed.

Lemma codec_roundtrip_witness :
  exists bs, encode (Window 1 65536) [] = Ok ([] ++ bs)
  /\ decode (bs ++ [1; 2]) = Ok (Some {| decoded_frame := Window 1 65536; consumed := length bs |}).
Proof.
  destruct (codec_roundtrip (Window 1 65536) [] [1; 2] 0) as (bs & H1 & H2 & _);
    [split; cbn; unfold fits; lia|].
  exists bs. split; [exact H1|exact H2].
Defined.

(** Decode then encode: on any bytes at all the decoder answers a frame,
    "more", or an error; when it gives a frame, the frame is well formed, it
    consumed no more than there is, and encoding it gives back exactly the
    bytes consumed, so two different byte strings never mean the same frame. *)
Theorem codec_canonical input d :
  bytes_ok input -> decode input = Ok (Some d) ->
  frame_ok (decoded_frame d) /\ (6 <= consumed d <= length input)%nat
  /\ encode (decoded_frame d) [] = Ok (take (consumed d) input).
Proof.
  intros Hok Hd. destruct (decode_sound input d Hok Hd) as (Hf & Hc & Hw).
  pose proof (decode_consumes input d Hd). split; [done|]. split; [lia|].
  rewrite encode_wire by done. simpl. by rewrite Hw.
Qed.

Lemma codec_canonical_witness :
  encode (OpenErr 7 (OtherReason 9)) [] = Ok (take 7 [1; 3; 7; 0; 1; 0; 9; 1; 1]).
Proof.
  apply (codec_canonical [1; 3; 7; 0; 1; 0; 9; 1; 1] {| decoded_frame := OpenErr 7 (OtherReason 9); consumed := 7 |}).
  - repeat constructor; unfold fits; lia.
  - reflexivity.
Defined.

(** Streams are self-delimiting: a sequence of frames written back to
    back, followed by an incomplete frame, parses to exactly those frames and
    leaves the incomplete bytes. *)
Theorem codec_stream fs tail fuel :
  Forall frame_ok fs -> decode tail = Ok None -> (length fs < fuel)%nat ->
  decode_all fuel (concat (wire <$> fs) ++ tail) = Ok (fs, tail).
Proof. intros. by apply decode_all_stream. Qed.

Lemma codec_stream_witness :
  decode_all 3 (concat (wire <$> [Close 1; Data 2 [65; 66]]) ++ [1; 4]) = Ok ([Close 1; Data 2 [65; 66]], [1; 4]).
Proof.
  apply (codec_stream [Close 1; Data 2 [65; 66]] [1; 4] 3).
  - repeat constructor; cbn; unfold fits, EGRESS_MAX_PAYLOAD; lia.
  - reflexivity.
  - simpl. lia.
Defined.
