(* ===== verification/Egress.v ===== *)
(** * The egress backend ([src/src/egress.rs])

    The host end of guest-initiated TCP streams: the session table, the parse
    and transmit buffers, the pump.  Sockets, DNS and epoll are behind the
    interfaces [EgressConnector] and [Epoll] ([EgressSpec] states what they
    promise and proves the backend against it).  The code threads [&mut self] through
    fallible calls, so an operation is a state transformer that keeps the
    state on an error ([M]). *)

From Stdlib Require Import ZArith Lia.
From stdpp Require Import base numbers strings gmap sets sorting list.
From S2P Require Import Prelude.
From S2P Require Import EgressCodec.
From S2P Require Import Utf8.

Open Scope Z_scope.

Definition WINDOW_BYTES : Z := 32 * 1024.
Definition READ_CHUNK : Z := 16 * 1024.
Definition TO_SOCKET_CAP : Z := 256 * 1024.
Definition MAX_SESSIONS : nat := 256.
Definition EPOLLIN : Z := 1.
Definition EPOLLOUT : Z := 4.
Definition USIZE_MAX : Z := 2 ^ 64 - 1.

Definition zlen {A} (l : list A) : Z := Z.of_nat (length l).

(** ** Errors *)

Inductive EgressError :=
  | EgressIo (what : string) (source : Z)
  | EgressFraming (source : EgressCodecError).

(** ** The connector seam *)

(** The answers a connector gives, [A] being its address type. *)
Record Resolved (A : Type) := { resolved_stream : Z; resolved_addr : option A }.
Arguments Build_Resolved {A}.
Arguments resolved_stream {A}.
Arguments resolved_addr {A}.

Inductive ConnectPoll :=
  | Pending
  | Connected
  | Failed (r : EgressReason).

(** The trait, one operation per method.  An [io::Result] is a [result] with
    an errno; [read] takes the buffer slice and gives it back filled. *)
Class EgressConnector (A C : Type) := {
  start_resolve : Z -> list Z -> Z -> C -> C;
  take_resolved : C -> list (Resolved A) * C;
  start_connect : Z -> A -> C -> result Z unit * C;
  poll_connect : Z -> C -> ConnectPoll * C;
  sock_read : Z -> list Z -> C -> result Z (option nat) * list Z * C;
  sock_write : Z -> list Z -> C -> result Z (option nat) * C;
  shutdown_write : Z -> C -> C;
  sock_close : Z -> C -> C;
  stream_fd : Z -> C -> option Z;
  resolver_fd : C -> option Z;
}.

(** The epoll set, part of the same host state. *)
Class Epoll (C : Type) := {
  epoll_add : Z -> Z -> C -> result Z unit * C;
  epoll_mod : Z -> Z -> C -> result Z unit * C;
  epoll_del : Z -> C -> C;
}.

(** ** The session table *)

Inductive SessionState := Resolving | Connecting | Established | HalfClosed.

#[export] Instance SessionState_eq_dec : EqDecision SessionState.
Proof. solve_decision. Defined.

Record Session := {
  sstate : SessionState;
  to_socket : list Z;
  to_guest : list Z;
  to_guest_credit : Z;
  guest_write_closed : bool;
  host_read_closed : bool;
  host_close_sent : bool;
  epoll_mask : Z;
}.

#[export] Instance eta_Session : Settable Session := fun r =>
  Build_Session (sstate r) (to_socket r) (to_guest r) (to_guest_credit r)
    (guest_write_closed r) (host_read_closed r) (host_close_sent r) (epoll_mask r).

Definition new_resolving : Session :=
  {| sstate := Resolving; to_socket := []; to_guest := []; to_guest_credit := WINDOW_BYTES;
     guest_write_closed := false; host_read_closed := false; host_close_sent := false;
     epoll_mask := 0 |}.

Definition is_empty {A} (l : list A) : bool := match l with [] => true | _ => false end.

Definition is_drained (s : Session) : bool :=
  guest_write_closed s && host_read_closed s && is_empty (to_socket s) && is_empty (to_guest s).

Inductive OwnedFrame :=
  | OwnedOpen (stream port : Z) (host : list Z)
  | OwnedData (stream : Z) (payload : list Z)
  | OwnedClose (stream : Z)
  | OwnedRst (stream : Z)
  | OwnedWindow (stream credit : Z)
  | Unexpected (stream : Z).

Definition to_owned (f : EgressFrame) : OwnedFrame :=
  match f with
  | Open s p h => OwnedOpen s p h
  | Data s d => OwnedData s d
  | Close s => OwnedClose s
  | Rst s => OwnedRst s
  | Window s c => OwnedWindow s c
  | OpenOk s | OpenErr s _ => Unexpected s
  end.

Inductive Disposition := Keep | Remove.

Record EgressStats := {
  sessions_total : Z; opens_failed : Z; bytes_up : Z; bytes_down : Z;
  gated_real_ns : Z; gated_intervals : Z;
}.

#[export] Instance eta_EgressStats : Settable EgressStats := fun r =>
  Build_EgressStats (sessions_total r) (opens_failed r) (bytes_up r) (bytes_down r)
    (gated_real_ns r) (gated_intervals r).

(** [connector] is the connector together with the epoll set. *)
Record EgressBackend (C : Type) := {
  connector : C;
  sessions : gmap Z Session;
  resolving : gset Z;
  rx_parse : list Z;
  tx_pending : list Z;
  stats : EgressStats;
}.
Arguments Build_EgressBackend {C}.
Arguments connector {C}.
Arguments sessions {C}.
Arguments resolving {C}.
Arguments rx_parse {C}.
Arguments tx_pending {C}.
Arguments stats {C}.

#[export] Instance eta_EgressBackend C : Settable (EgressBackend C) := fun r =>
  Build_EgressBackend (connector r) (sessions r) (resolving r) (rx_parse r) (tx_pending r) (stats r).

(** ** State and errors *)

(** A fallible [&mut] operation: the state survives an error. *)
Definition M (S A : Type) : Type := S -> result EgressError A * S.

#[export] Instance M_ret {S} : MRet (M S) := fun A a s => (Ok a, s).

#[export] Instance M_bind {S} : MBind (M S) := fun A B k m s =>
  match m s with
  | (Ok a, s') => k a s'
  | (Err e, s') => (Err e, s')
  end.

Definition modify {S} (f : S -> S) : M S unit := fun s => (Ok tt, f s).

Section backend.
Context {A C : Type} `{EgressConnector A C, Epoll C}.

Abbreviation B := (EgressBackend C).

Definition set_stats (f : EgressStats -> EgressStats) (b : B) : B :=
  b <| stats := f (stats b) |>.

Definition set_connector (c : C) (b : B) : B := b <| connector := c |>.

Definition count_failed_open (b : B) : B :=
  set_stats (fun st => st <| opens_failed := as_u64 (opens_failed st + 1) |>) b.

(** [with_connector]: [c] is the host state once the epoll fd exists. *)
Definition with_connector (c : C) : result EgressError B :=
  let '(r, c) := match resolver_fd c with
                 | Some fd => epoll_add fd EPOLLIN c
                 | None => (Ok tt, c)
                 end in
  match r with
  | Err e => Err (EgressIo "registering resolver fd" e)
  | Ok _ => Ok {| connector := c; sessions := ∅; resolving := ∅; rx_parse := []; tx_pending := [];
                  stats := Build_EgressStats 0 0 0 0 0 0 |}
  end.

Definition is_quiescent (b : B) : bool :=
  bool_decide (sessions b = ∅) && bool_decide (resolving b = ∅)
  && is_empty (rx_parse b) && is_empty (tx_pending b).

Definition note_gated_interval (real_ns : Z) (b : B) : B :=
  set_stats (fun st => st <| gated_real_ns := saturating_add_u64 (gated_real_ns st) real_ns |>
                          <| gated_intervals := saturating_add_u64 (gated_intervals st) 1 |>) b.

Definition drain_to_guest (max : nat) (b : B) : list Z * B :=
  let n := Nat.min max (length (tx_pending b)) in
  (take n (tx_pending b), b <| tx_pending := drop n (tx_pending b) |>).

Definition unshift_to_guest (bytes : list Z) (b : B) : B :=
  b <| tx_pending := fold_right cons (tx_pending b) bytes |>.

Definition has_frames_for_guest (b : B) : bool := negb (is_empty (tx_pending b)).

(** ** Frames toward the guest and socket teardown *)

Definition enqueue (f : EgressFrame) : M B unit := fun b =>
  match encode f [] with
  | Ok buf => (Ok tt, b <| tx_pending := tx_pending b ++ buf |>)
  | Err e => (Err (EgressFraming e), b)
  end.

Definition detach_socket (id : Z) (b : B) : B :=
  let c := match stream_fd id (connector b) with
           | Some fd => epoll_del fd (connector b)
           | None => connector b
           end in
  set_connector (sock_close id c) b.

Definition remove_session (id : Z) (b : B) : B := b <| sessions := delete id (sessions b) |>.

Definition reset_stream (id : Z) : M B unit :=
  modify (detach_socket id);; modify (remove_session id);; enqueue (Rst id).

Definition fail_open (id : Z) (r : EgressReason) : M B unit :=
  modify (detach_socket id);; modify (remove_session id);;
  modify count_failed_open;; enqueue (OpenErr id r).

Definition drop_stream (id : Z) (b : B) : B := remove_session id (detach_socket id b).

(** ** Guest frames *)

Definition handle_open (id port : Z) (host : list Z) : M B unit := fun b =>
  if bool_decide (id ∈ dom (sessions b)) || bool_decide (id ∈ resolving b) then reset_stream id b
  else if (MAX_SESSIONS <=? size (sessions b))%nat then fail_open id StreamLimit b
  else if is_empty host || (port =? 0) then fail_open id ProtocolError b
  else
    let b := set_connector (start_resolve id (from_utf8_lossy host) port (connector b)) b in
    let b := b <| resolving := {[id]} ∪ resolving b |> in
    let b := set_stats (fun st => st <| sessions_total := as_u64 (sessions_total st + 1) |>) b in
    (Ok tt, b <| sessions := <[id := new_resolving]> (sessions b) |>).

(** [handle_data]: the payload is appended before the cap is tested. *)
Definition handle_data (id : Z) (payload : list Z) : M B unit := fun b =>
  match sessions b !! id with
  | Some s =>
      if negb (guest_write_closed s) then
        let s := s <| to_socket := to_socket s ++ payload |> in
        let b := b <| sessions := <[id := s]> (sessions b) |> in
        if TO_SOCKET_CAP <? zlen (to_socket s) then reset_stream id b else (Ok tt, b)
      else reset_stream id b
  | None => reset_stream id b
  end.

Definition handle_close (id : Z) (b : B) : B :=
  match sessions b !! id with
  | Some s =>
      let s := s <| guest_write_closed := true |> in
      let s := if decide (sstate s = Established) then s <| sstate := HalfClosed |> else s in
      let b := b <| sessions := <[id := s]> (sessions b) |> in
      set_connector (shutdown_write id (connector b)) b
  | None => b
  end.

Definition handle_window (id credit : Z) (b : B) : B :=
  match sessions b !! id with
  | Some s =>
      let s := s <| to_guest_credit := Z.min USIZE_MAX (to_guest_credit s + credit) |> in
      b <| sessions := <[id := s]> (sessions b) |>
  | None => b
  end.

Definition handle_frame (f : OwnedFrame) : M B unit :=
  match f with
  | OwnedOpen id port host => handle_open id port host
  | OwnedData id payload => handle_data id payload
  | OwnedClose id => modify (handle_close id)
  | OwnedRst id => modify (drop_stream id)
  | OwnedWindow id credit => modify (handle_window id credit)
  | Unexpected id => reset_stream id
  end.

Fixpoint handle_frames (fs : list OwnedFrame) : M B unit :=
  match fs with
  | [] => mret tt
  | f :: fs => handle_frame f;; handle_frames fs
  end.

(** The parse loop advances an offset in [rx_parse]; each frame takes at least
    its header, so the length of the buffer is enough fuel. *)
Definition ingest_and_parse (from_guest : list Z) : M B unit := fun b =>
  let b := b <| rx_parse := rx_parse b ++ from_guest |> in
  match decode_all (S (length (rx_parse b))) (rx_parse b) with
  | Err e => (Err (EgressFraming e), b <| rx_parse := [] |>)
  | Ok (frames, rest) => handle_frames (to_owned <$> frames) (b <| rx_parse := rest |>)
  end.

(** ** Resolutions *)

Definition harvest_one (r : Resolved A) : M B unit := fun b =>
  let id := resolved_stream r in
  let b := b <| resolving := resolving b ∖ {[id]} |> in
  if negb (bool_decide (sstate <$> sessions b !! id = Some Resolving)) then (Ok tt, b)
  else
    match resolved_addr r with
    | None => fail_open id ResolveFailed b
    | Some addr =>
        let '(res, c) := start_connect id addr (connector b) in
        let b := set_connector c b in
        match res with
        | Err _ => fail_open id Unreachable b
        | Ok _ =>
            let mask := Z.lor EPOLLIN EPOLLOUT in
            let '(res, c) := match stream_fd id (connector b) with
                             | Some fd => epoll_add fd mask (connector b)
                             | None => (Ok tt, connector b)
                             end in
            let b := set_connector c b in
            match res with
            | Err e => (Err (EgressIo "registering egress socket" e), b)
            | Ok _ =>
                match sessions b !! id with
                | Some s =>
                    let s := s <| sstate := Connecting |> <| epoll_mask := mask |> in
                    (Ok tt, b <| sessions := <[id := s]> (sessions b) |>)
                | None => (Ok tt, b)
                end
            end
        end
    end.

Fixpoint harvest_all (rs : list (Resolved A)) : M B unit :=
  match rs with
  | [] => mret tt
  | r :: rs => harvest_one r;; harvest_all rs
  end.

Definition harvest_resolves : M B unit := fun b =>
  let '(rs, c) := take_resolved (connector b) in
  harvest_all rs (set_connector c b).

(** ** Serviced sessions

    A serviced session is out of the table; the state is the session and the
    backend.  [Some d] from a phase is an early return with disposition [d]. *)

Abbreviation SB := (Session * B)%type.

Definition lift {X} (m : M B X) : M SB X := fun sb =>
  let '(r, b) := m (snd sb) in (r, (fst sb, b)).

Definition abort_open (id : Z) : M B Disposition :=
  modify (detach_socket id);; enqueue (Rst id);; mret Remove.

Definition update_epoll (id : Z) : M SB unit := fun '(s, b) =>
  let mask := if negb (host_read_closed s) && (zlen (to_guest s) <? WINDOW_BYTES) then EPOLLIN else 0 in
  let mask := if negb (is_empty (to_socket s)) then Z.lor mask EPOLLOUT else mask in
  if mask =? epoll_mask s then (Ok tt, (s, b))
  else
    let '(res, c) := match stream_fd id (connector b) with
                     | Some fd => epoll_mod fd mask (connector b)
                     | None => (Ok tt, connector b)
                     end in
    let b := set_connector c b in
    match res with
    | Err e => (Err (EgressIo "updating egress epoll interest" e), (s, b))
    | Ok _ => (Ok tt, (s <| epoll_mask := mask |>, b))
    end.

Definition run_connecting (id : Z) : M SB Disposition := fun '(s, b) =>
  let '(p, c) := poll_connect id (connector b) in
  let b := set_connector c b in
  match p with
  | Pending => (Ok Keep, (s, b))
  | Connected =>
      (lift (enqueue (OpenOk id));;
       modify (fun '(s, b) =>
         let s := s <| sstate := Established |> in
         if guest_write_closed s
         then (s <| sstate := HalfClosed |>, set_connector (shutdown_write id (connector b)) b)
         else (s, b));;
       update_epoll id;; mret Keep) (s, b)
  | Failed r =>
      (lift (modify (detach_socket id);; modify count_failed_open;; enqueue (OpenErr id r));;
       mret Remove) (s, b)
  end.

(** 1. Guest to host bytes.  Every turn that goes on drains at least a byte:
    the length of the backlog is enough fuel. *)
Fixpoint flush_to_socket (fuel : nat) (id : Z) : M SB (option Disposition) := fun '(s, b) =>
  match fuel with
  | O => (Ok None, (s, b))
  | S fuel =>
      if is_empty (to_socket s) then (Ok None, (s, b))
      else
        let front := to_socket s in
        let '(res, c) := sock_write id front (connector b) in
        let b := set_connector c b in
        match res with
        | Ok (Some n) =>
            if (0 <? n)%nat then
              let n := Nat.min n (length front) in
              flush_to_socket fuel id
                (s <| to_socket := drop n (to_socket s) |>,
                 set_stats (fun st => st <| bytes_up := as_u64 (bytes_up st + Z.of_nat n) |>) b)
            else (Ok None, (s, b))
        | Ok None => (Ok None, (s, b))
        | Err _ => (d ← lift (abort_open id); mret (Some d)) (s, b)
        end
  end.

(** 2. Host to guest bytes, through a scratch buffer of [READ_CHUNK] bytes.
    Every turn that goes on reads at least a byte: the room in the window is
    enough fuel. *)
Fixpoint read_from_socket (fuel : nat) (id : Z) (buf : list Z) : M SB (option Disposition) := fun '(s, b) =>
  match fuel with
  | O => (Ok None, (s, b))
  | S fuel =>
      if WINDOW_BYTES <=? zlen (to_guest s) then (Ok None, (s, b))
      else
        let want := Z.to_nat (Z.min (WINDOW_BYTES - zlen (to_guest s)) READ_CHUNK) in
        let '(res, filled, c) := sock_read id (take want buf) (connector b) in
        let buf := filled ++ drop want buf in
        let b := set_connector c b in
        match res with
        | Ok (Some O) =>
            let s := s <| host_read_closed := true |> in
            (Ok None, (if decide (sstate s = Established) then s <| sstate := HalfClosed |> else s, b))
        | Ok (Some n) =>
            let n := Nat.min n want in
            read_from_socket fuel id buf (s <| to_guest := to_guest s ++ take n buf |>, b)
        | Ok None => (Ok None, (s, b))
        | Err _ => (d ← lift (abort_open id); mret (Some d)) (s, b)
        end
  end.

(** 3. Framing within the credit.  Every turn takes at least a byte off the
    buffer: its length is enough fuel. *)
Fixpoint frame_to_guest (fuel : nat) (id : Z) : M SB unit := fun '(s, b) =>
  match fuel with
  | O => (Ok tt, (s, b))
  | S fuel =>
      if is_empty (to_guest s) || (to_guest_credit s <=? 0) then (Ok tt, (s, b))
      else
        let n := Z.min (Z.min (zlen (to_guest s)) (to_guest_credit s)) EGRESS_MAX_PAYLOAD in
        let chunk := take (Z.to_nat n) (to_guest s) in
        match enqueue (Data id chunk) b with
        | (Err e, b) => (Err e, (s, b))
        | (Ok _, b) =>
            frame_to_guest fuel id
              (s <| to_guest_credit := to_guest_credit s - n |>
                 <| to_guest := drop (Z.to_nat n) (to_guest s) |>,
               set_stats (fun st => st <| bytes_down := as_u64 (bytes_down st + n) |>) b)
        end
  end.

(** 3b. The read-side EOF, after the last byte. *)
Definition announce_eof (id : Z) : M SB unit := fun '(s, b) =>
  if host_read_closed s && is_empty (to_guest s) && negb (host_close_sent s) then
    match enqueue (Close id) b with
    | (Err e, b) => (Err e, (s, b))
    | (Ok _, b) => (Ok tt, (s <| host_close_sent := true |>, b))
    end
  else (Ok tt, (s, b)).

Definition flush_all (id : Z) : M SB (option Disposition) := fun sb =>
  flush_to_socket (length (to_socket (fst sb))) id sb.

Definition read_all (id : Z) : M SB (option Disposition) := fun sb =>
  if host_read_closed (fst sb) then (Ok None, sb)
  else read_from_socket (Z.to_nat (WINDOW_BYTES - zlen (to_guest (fst sb)))) id
         (replicate (Z.to_nat READ_CHUNK) 0) sb.

(** Steps 1 and 2 end in an early return when the socket fails. *)
Definition socket_io (id : Z) : M SB (option Disposition) :=
  r ← flush_all id;
  match r with
  | Some d => mret (Some d)
  | None => read_all id
  end.

Definition frame_all (id : Z) : M SB unit := fun sb =>
  frame_to_guest (length (to_guest (fst sb))) id sb.

(** 5. Drop a drained session's socket. *)
Definition finish_open (id : Z) : M SB Disposition := fun '(s, b) =>
  if is_drained s then (Ok Remove, (s, detach_socket id b)) else (Ok Keep, (s, b)).

Definition run_open_io (id : Z) : M SB Disposition :=
  r ← socket_io id;
  match r with
  | Some d => mret d
  | None =>
      frame_all id;; announce_eof id;; update_epoll id;;
      finish_open id
  end.

(** ** The pump *)

Definition service_one (id : Z) : M B unit := fun b =>
  match sessions b !! id with
  | None => (Ok tt, b)
  | Some s =>
      let b := b <| sessions := delete id (sessions b) |> in
      let '(res, (s, b)) :=
        match sstate s with
        | Resolving => (Ok Keep, (s, b))
        | Connecting => run_connecting id (s, b)
        | Established | HalfClosed => run_open_io id (s, b)
        end in
      match res with
      | Ok Keep => (Ok tt, b <| sessions := <[id := s]> (sessions b) |>)
      | Ok Remove => (Ok tt, b)
      | Err e => (Err e, b <| sessions := <[id := s]> (sessions b) |>)
      end
  end.

Fixpoint service_all (ids : list Z) : M B unit :=
  match ids with
  | [] => mret tt
  | id :: ids => service_one id;; service_all ids
  end.

(** The keys of the [BTreeMap], in order. *)
Definition service_sessions : M B unit := fun b =>
  service_all (merge_sort Z.le (elements (dom (sessions b)))) b.

Definition backend_pump (from_guest : list Z) : M B unit :=
  ingest_and_parse from_guest;; harvest_resolves;; service_sessions.

(** ** The gate *)

Definition ff_jump_allowed (egress : option B) : bool :=
  match egress with None => true | Some b => is_quiescent b end.

(** The tripwire: [None] is the panic. *)
Definition assert_ff_jump_legal (egress : option B) : option unit :=
  if ff_jump_allowed egress then Some tt else None.
End backend.
