(* ===== verification/EgressSpec.v ===== *)
(** * The egress backend: what it relies on and what it guarantees

    The laws of a connector ([ConnectorLaws], from the trait's documentation),
    the invariant of the backend and its preservation by every operation of
    [Egress], the byte streams of a serviced session, and the properties. *)

From Stdlib Require Import ZArith Lia.
From stdpp Require Import base numbers strings gmap sets sorting list.
From S2P Require Import Prelude.
From S2P Require Import EgressCodec.
From S2P Require Import Utf8.
From S2P Require Import Egress.

Open Scope Z_scope.

(** ** What a connector promises

    [live]: the streams with an open socket.  [unanswered]: the resolutions
    started and not yet handed back, in any order.  [unread id]: what the peer
    of [id] sends from here on, nothing once the socket is closed;
    [written id]: what the peer got so far.  [dry id], [full id]: nothing can
    be read from, or written to, the socket of [id] for now; [broken id]: it is
    in error.  The laws are the trait's documentation, operation by operation:
    "[Ok(None)] would block", and an error is an error of the socket. *)

Class Ghost (C : Type) := {
  live : C -> gset Z;
  unanswered : C -> list Z;
  unread : Z -> C -> list Z;
  written : Z -> C -> list Z;
  dry : Z -> C -> Prop;
  full : Z -> C -> Prop;
  broken : Z -> C -> Prop;
}.

(** An operation that opens, closes and moves nothing. *)
Definition quiet `{Ghost C} (c c' : C) : Prop :=
  live c' = live c /\ unanswered c' = unanswered c
  /\ (forall id, unread id c' = unread id c) /\ (forall id, written id c' = written id c).

Class ConnectorLaws (A C : Type) `{EgressConnector A C, Epoll C, Ghost C} : Prop := {
  start_resolve_law id h p c : live (start_resolve id h p c) = live c
    /\ unanswered (start_resolve id h p c) ≡ₚ id :: unanswered c;
  take_resolved_law c rs c' : take_resolved c = (rs, c') -> live c' = live c
    /\ unanswered c ≡ₚ (resolved_stream <$> rs) ++ unanswered c';
  start_connect_law id a c r c' : start_connect id a c = (r, c') -> unanswered c' = unanswered c
    /\ live c' = (if is_Ok r then {[id]} ∪ live c else live c);
  poll_connect_law id c p c' : poll_connect id c = (p, c') -> quiet c c'
    /\ (forall r, p = Failed r -> reason_from_code (reason_code r) = r /\ fits 8 (reason_code r));
  sock_read_law id buf c r filled c' : sock_read id buf c = (r, filled, c') -> bytes_ok buf ->
    live c' = live c /\ unanswered c' = unanswered c /\ length filled = length buf /\ bytes_ok filled
    /\ written id c' = written id c
    /\ match r with
       | Ok (Some n) => (n <= length buf)%nat /\ unread id c = take n filled ++ unread id c'
                        /\ (n = 0%nat -> buf <> [] -> unread id c = [])
       | Ok None => unread id c' = unread id c /\ dry id c
       | Err _ => unread id c' = unread id c /\ broken id c
       end
    /\ (dry id c -> buf <> [] -> r = Ok None);
  sock_write_law id data c r c' : sock_write id data c = (r, c') ->
    live c' = live c /\ unanswered c' = unanswered c /\ unread id c' = unread id c
    /\ match r with
       | Ok (Some n) => (n <= length data)%nat /\ written id c' = written id c ++ take n data
       | Ok None => written id c' = written id c /\ full id c
       | Err _ => written id c' = written id c /\ broken id c
       end
    /\ (full id c -> data <> [] -> r = Ok None);
  shutdown_write_law id c : quiet c (shutdown_write id c);
  sock_close_law id c : live (sock_close id c) = live c ∖ {[id]}
    /\ unanswered (sock_close id c) = unanswered c
    /\ (forall i, unread i (sock_close id c) = if decide (i = id) then [] else unread i c)
    /\ (forall i, written i (sock_close id c) = written i c);
  epoll_add_law fd m c r c' : epoll_add fd m c = (r, c') -> quiet c c';
  epoll_mod_law fd m c r c' : epoll_mod fd m c = (r, c') -> quiet c c';
  epoll_del_law fd c : quiet c (epoll_del fd c);
}.

(** Field accesses of an updated backend. *)
Ltac fields :=
  unfold set_connector, set_stats;
  cbn [connector sessions resolving rx_parse tx_pending stats fst snd set_field].

(** ** Invariants *)

Record session_ok (s : Session) : Prop := {
  ok_to_socket : zlen (to_socket s) <= TO_SOCKET_CAP;
  ok_to_socket_bytes : bytes_ok (to_socket s);
  ok_to_guest : zlen (to_guest s) <= WINDOW_BYTES;
  ok_to_guest_bytes : bytes_ok (to_guest s);
  ok_credit : 0 <= to_guest_credit s <= USIZE_MAX;
  ok_close : host_close_sent s = true -> host_read_closed s = true /\ to_guest s = [];
}.

Section invariant.
Context `{ConnectorLaws A C}.
Abbreviation B := (EgressBackend C).

(** [X]: the stream being serviced, out of the table. *)
Record Inv (X : gset Z) (b : B) : Prop := {
  inv_live : live (connector b) ⊆ X ∪ dom (sessions b);
  inv_unanswered : NoDup (unanswered (connector b)) /\ list_to_set (unanswered (connector b)) ⊆ resolving b;
  inv_size : (size (X ∪ dom (sessions b)) <= MAX_SESSIONS)%nat;
  inv_sessions : map_Forall (fun id s => fits 16 id /\ session_ok s) (sessions b);
  inv_rx : bytes_ok (rx_parse b);
}.

(** What was appended for the guest is a sequence of whole frames. *)
Definition emitted (b b' : B) : Prop :=
  exists fs, Forall frame_ok fs /\ tx_pending b' = tx_pending b ++ concat (wire <$> fs).

Lemma emitted_refl b b' : tx_pending b' = tx_pending b -> emitted b b'.
Proof. intros E. exists []. split; [done|]. by rewrite E, app_nil_r. Qed.

Lemma emitted_trans b1 b2 b3 : emitted b1 b2 -> emitted b2 b3 -> emitted b1 b3.
Proof.
  intros (fs & Hf & E) (gs & Hg & E'). exists (fs ++ gs). split; [by apply Forall_app|].
  by rewrite E', E, fmap_app, concat_app, app_assoc.
Qed.

Lemma enqueue_ok f (b : B) : frame_ok f ->
  enqueue f b = (Ok tt, b <| tx_pending := tx_pending b ++ wire f |>).
Proof. intros Hf. unfold enqueue. by rewrite encode_wire. Qed.

Lemma emitted_one f (b b' : B) : frame_ok f -> tx_pending b' = tx_pending b ++ wire f -> emitted b b'.
Proof. intros Hf E. exists [f]. split; [by apply Forall_singleton|]. by rewrite E; simpl; rewrite app_nil_r. Qed.

Lemma detach_sets id (b : B) :
  live (connector (detach_socket id b)) = live (connector b) ∖ {[id]}
  /\ unanswered (connector (detach_socket id b)) = unanswered (connector b).
Proof.
  unfold detach_socket, set_connector. cbn [connector set_field].
  destruct (stream_fd id (connector b)) as [fd|].
  - destruct (epoll_del_law fd (connector b)) as (E1 & E2 & _).
    destruct (sock_close_law id (epoll_del fd (connector b))) as (-> & -> & _). by rewrite E1, E2.
  - destruct (sock_close_law id (connector b)) as (-> & -> & _). done.
Qed.

Lemma Inv_mono X X' b : X' ⊆ X -> live (connector b) ⊆ X' ∪ dom (sessions b) -> Inv X b -> Inv X' b.
Proof.
  intros HX Hl []. split; try done. etrans; [|done]. apply subseteq_size. set_solver.
Qed.

(** Any change that keeps the table and the parse buffer, and opens nothing. *)
Lemma Inv_same X (b b' : B) : Inv X b -> sessions b' = sessions b -> rx_parse b' = rx_parse b ->
  live (connector b') ⊆ live (connector b) -> unanswered (connector b') = unanswered (connector b) ->
  resolving b' = resolving b -> Inv X b'.
Proof.
  intros [] Es Er El Eu Ev. split; rewrite ?Es, ?Er, ?Eu, ?Ev; try done; set_solver.
Qed.

Lemma Inv_quiet X b c : Inv X b -> quiet (connector b) c -> Inv X (set_connector c b).
Proof. intros Hi (El & Eu & _). eapply Inv_same; try done; simpl; by rewrite ?El, ?Eu. Qed.

Lemma Inv_insert X id s b : Inv X b -> session_ok s -> fits 16 id -> id ∈ X ∪ dom (sessions b) ->
  Inv (X ∖ {[id]}) (b <| sessions := <[id := s]> (sessions b) |>).
Proof.
  intros [] Hs Hf Hid. split; simpl; try done.
  - rewrite dom_insert_L. intros x Hx. apply inv_live0 in Hx.
    destruct (decide (x = id)); set_solver.
  - rewrite dom_insert_L. etrans; [|done]. apply subseteq_size. set_solver.
  - by apply map_Forall_insert_2.
Qed.

Lemma Inv_update id s b : Inv ∅ b -> session_ok s -> is_Some (sessions b !! id) ->
  Inv ∅ (b <| sessions := <[id := s]> (sessions b) |>).
Proof.
  intros Hi Hs [s' Hl]. assert (∅ = (∅ : gset Z) ∖ {[id]}) as -> by set_solver.
  apply Inv_insert; try done; [by destruct (inv_sessions _ _ Hi id s' Hl)|].
  apply elem_of_dom_2 in Hl. set_solver.
Qed.

(** Detaching a stream and dropping its session. *)
Lemma Inv_drop X id b : Inv X b -> Inv X (drop_stream id b).
Proof.
  intros Hi. destruct (detach_sets id b) as [El Eu]. destruct Hi.
  unfold drop_stream, remove_session. split; fields; try done.
  - rewrite El, dom_delete_L. set_solver.
  - by rewrite Eu.
  - etrans; [|done]. apply subseteq_size. rewrite dom_delete_L. set_solver.
  - by apply map_Forall_delete.
Qed.

(** ** Operations on the table *)

Definition keeps {X} (m : M B X) : Prop := forall b, Inv ∅ b -> Inv ∅ (m b).2 /\ emitted b (m b).2.

Lemma keeps_ret {X} (x : X) : keeps (mret x).
Proof. intros b Hb. split; [done|by apply emitted_refl]. Qed.

Lemma keeps_bind {X Y} (m : M B X) (k : X -> M B Y) :
  keeps m -> (forall x, keeps (k x)) -> keeps (m ≫= k).
Proof.
  intros Hm Hk b Hb. destruct (Hm b Hb) as [Hi He]. unfold mbind, M_bind.
  destruct (m b) as [[x|e] b1]; [|done]. destruct (Hk x b1 Hi) as [Hi' He'].
  split; [done|by eapply emitted_trans].
Qed.

Lemma reset_stream_eq id b : fits 16 id ->
  reset_stream id b = (Ok tt, (drop_stream id b) <| tx_pending := tx_pending b ++ wire (Rst id) |>).
Proof. intros. unfold reset_stream, modify, mbind, M_bind. by rewrite enqueue_ok. Qed.

Lemma Inv_reset X id b : Inv X b -> fits 16 id ->
  Inv X (reset_stream id b).2 /\ emitted b (reset_stream id b).2.
Proof.
  intros Hi Hf. rewrite reset_stream_eq by done. split.
  - by apply (Inv_same X (drop_stream id b)); [apply Inv_drop|..].
  - by apply (emitted_one (Rst id)).
Qed.

Lemma fail_open_eq id r b : frame_ok (OpenErr id r) ->
  fail_open id r b
  = (Ok tt, (count_failed_open (drop_stream id b)) <| tx_pending := tx_pending b ++ wire (OpenErr id r) |>).
Proof. intros. unfold fail_open, modify, mbind, M_bind. by rewrite enqueue_ok. Qed.

Lemma Inv_fail X id r b : Inv X b -> frame_ok (OpenErr id r) ->
  Inv X (fail_open id r b).2 /\ emitted b (fail_open id r b).2.
Proof.
  intros Hi Hf. rewrite fail_open_eq by done. split.
  - by apply (Inv_same X (drop_stream id b)); [apply Inv_drop|..].
  - by apply (emitted_one (OpenErr id r)).
Qed.

Lemma new_resolving_ok : session_ok new_resolving.
Proof. split; try done; constructor. Qed.

Lemma dom_size_sessions (b : B) : size (dom (sessions b)) = size (sessions b).
Proof. apply size_dom. Qed.

Lemma keeps_handle_open id port host : fits 16 id -> keeps (handle_open id port host).
Proof.
  intros Hf b Hb. unfold handle_open.
  destruct (bool_decide _ || bool_decide _) eqn:E1; [by apply Inv_reset|]. bool_prop.
  destruct (_ <=? _)%nat eqn:E2; [by apply Inv_fail|]. apply Nat.leb_gt in E2.
  destruct (is_empty host || _); [by apply Inv_fail|]. split; [|by apply emitted_refl].
  destruct (start_resolve_law id (from_utf8_lossy host) port (connector b)) as [El Eu].
  destruct Hb. split; fields; try done.
  - rewrite El, dom_insert_L. set_solver.
  - destruct inv_unanswered0 as [Hn Hs]. rewrite Eu. split; [constructor; [set_solver|done]|].
    rewrite list_to_set_cons. set_solver.
  - rewrite dom_insert_L, (union_empty_l_L _). rewrite size_union by set_solver.
    rewrite size_singleton, dom_size_sessions. lia.
  - apply map_Forall_insert_2; [|done]. split; [done|apply new_resolving_ok].
Qed.

Lemma keeps_handle_data id payload : fits 16 id -> bytes_ok payload -> keeps (handle_data id payload).
Proof.
  intros Hf Hp b Hb. unfold handle_data.
  destruct (sessions b !! id) as [s|] eqn:Es; [|by apply Inv_reset].
  destruct (negb _); [|by apply Inv_reset]. set (s' := s <| to_socket := _ |>).
  destruct (inv_sessions _ _ Hb id s Es) as [_ [? ? ? ? ? ?]].
  destruct (TO_SOCKET_CAP <? _) eqn:E; bool_prop.
  - rewrite reset_stream_eq by done. split; [|by apply (emitted_one (Rst id))].
    apply (Inv_same ∅ (drop_stream id b)); try done; [by apply Inv_drop|].
    unfold drop_stream, remove_session. cbn. by rewrite delete_insert_eq.
  - split; [|by apply emitted_refl]. apply Inv_update; [done| |by eexists].
    split; cbn [to_socket to_guest to_guest_credit host_close_sent host_read_closed s' set_field]; try done.
    by apply Forall_app.
Qed.

Lemma keeps_handle_close id : keeps (modify (handle_close id)).
Proof.
  intros b Hb. split; [|apply emitted_refl; unfold modify, handle_close; simpl; by case_match].
  unfold modify, handle_close. cbn [snd]. destruct (sessions b !! id) as [s|] eqn:Es; [|done].
  set (s' := if decide _ then _ else _).
  assert (session_ok s') as Hs'.
  { destruct (inv_sessions _ _ Hb id s Es) as [_ [? ? ? ? ? ?]]. unfold s'. by case_decide; split. }
  apply Inv_quiet; [|apply shutdown_write_law]. by apply Inv_update; [| |eexists].
Qed.

Lemma keeps_handle_window id credit : 0 <= credit -> keeps (modify (handle_window id credit)).
Proof.
  intros Hc b Hb. split; [|apply emitted_refl; unfold modify, handle_window; simpl; by case_match].
  unfold modify, handle_window. cbn [snd]. destruct (sessions b !! id) as [s|] eqn:Es; [|done].
  destruct (inv_sessions _ _ Hb id s Es) as [_ [? ? ? ? ? ?]].
  apply Inv_update; [done| |by eexists]. split; try done.
  cbn [to_guest_credit set_field]. unfold USIZE_MAX in *. lia.
Qed.

Lemma keeps_handle_frame f : frame_ok f -> keeps (handle_frame (to_owned f)).
Proof.
  intros [Hs Hf]. destruct f; cbn [to_owned handle_frame frame_stream] in *;
    try (intros b Hb; by apply Inv_reset).
  - by apply keeps_handle_open.
  - by apply keeps_handle_data; destruct Hf.
  - apply keeps_handle_close.
  - intros b Hb. split; [by apply Inv_drop|by apply emitted_refl].
  - apply keeps_handle_window. unfold fits in Hf. lia.
Qed.

Lemma keeps_handle_frames fs : Forall frame_ok fs -> keeps (handle_frames (to_owned <$> fs)).
Proof.
  induction 1 as [|f fs Hf _ IH]; [apply keeps_ret|].
  cbn [fmap list_fmap handle_frames]. apply keeps_bind; [by apply keeps_handle_frame|done].
Qed.

Lemma decode_all_ok fuel : forall input fs rest,
  bytes_ok input -> decode_all fuel input = Ok (fs, rest) -> Forall frame_ok fs /\ bytes_ok rest.
Proof.
  induction fuel as [|n IH]; intros input fs rest Hok; cbn [decode_all]; [by intros [= <- <-]|].
  destruct (decode input) as [[d|]|] eqn:Ed; cbn [mbind result_bind]; [|by intros [= <- <-]|done].
  destruct (decode_all n _) as [[fs' rest']|] eqn:E; cbn [mbind result_bind fst snd]; [|done].
  intros [= <- <-]. destruct (decode_sound input d Hok Ed) as (Hf & _ & _).
  destruct (IH _ _ _ (Forall_drop _ _ _ Hok) E). split; [by constructor|done].
Qed.

Lemma Inv_set_rx X b l : Inv X b -> bytes_ok l -> Inv X (b <| rx_parse := l |>).
Proof. intros [] Hl. by split. Qed.

Lemma keeps_ingest bs : bytes_ok bs -> keeps (ingest_and_parse bs).
Proof.
  intros Hbs b Hb. unfold ingest_and_parse.
  set (b1 := b <| rx_parse := _ |>). assert (Hok : bytes_ok (rx_parse b1)).
  { apply Forall_app. split; [by destruct Hb|done]. }
  destruct (decode_all _ _) as [[fs rest]|e] eqn:E.
  - destruct (decode_all_ok _ _ _ _ Hok E) as [Hfs Hr].
    destruct (keeps_handle_frames fs Hfs (b1 <| rx_parse := rest |>)) as [Hi He];
      [by apply Inv_set_rx; [apply Inv_set_rx|]|]. done.
  - split; [|by apply emitted_refl]. by apply Inv_set_rx; [apply Inv_set_rx|constructor].
Qed.

(** ** Resolutions *)

(** Registering a socket does not touch the connector's promises. *)
Lemma epoll_register_quiet id m (c : C) r c' :
  match stream_fd id c with Some fd => epoll_add fd m c | None => (Ok tt, c) end = (r, c') -> quiet c c'.
Proof.
  destruct (stream_fd id c); [apply epoll_add_law|]. by intros [= <- <-].
Qed.

Lemma keeps_harvest_one (r : Resolved A) b : Inv ∅ b ->
  resolved_stream r ∉ unanswered (connector b) ->
  Inv ∅ (harvest_one r b).2 /\ emitted b (harvest_one r b).2
  /\ unanswered (connector (harvest_one r b).2) = unanswered (connector b).
Proof.
  intros Hb Hr. unfold harvest_one. set (id := resolved_stream r) in *.
  set (b1 := b <| resolving := _ |>).
  assert (Hb1 : Inv ∅ b1) by (destruct Hb; split; try done; unfold b1; fields; set_solver).
  destruct (negb _) eqn:E; [split; [done|]; split; [by apply emitted_refl|done]|]. bool_prop.
  apply fmap_Some in E as (s & Hs & _).
  destruct (inv_sessions _ _ Hb1 id s Hs) as [Hf Hso].
  assert (Hfail : forall reason (b2 : B), frame_ok (OpenErr id reason) -> Inv ∅ b2 -> tx_pending b2 = tx_pending b ->
    unanswered (connector b2) = unanswered (connector b) ->
    Inv ∅ (fail_open id reason b2).2 /\ emitted b (fail_open id reason b2).2
    /\ unanswered (connector (fail_open id reason b2).2) = unanswered (connector b)).
  { intros reason b2 Hok Hb2 Et Eu. destruct (Inv_fail ∅ id reason b2 Hb2 Hok) as [? ?]. split; [done|].
    split; [eapply emitted_trans; [by apply emitted_refl|done]|].
    rewrite fail_open_eq by done. fields. by rewrite <- Eu, <- (proj2 (detach_sets id b2)). }
  destruct (resolved_addr r) as [a|]; [|by apply Hfail].
  destruct (start_connect id a (connector b1)) as [res c] eqn:Ec.
  apply start_connect_law in Ec as [Eu El].
  assert (Hdom : id ∈ dom (sessions b1)) by by eapply elem_of_dom_2.
  assert (Hb2 : Inv ∅ (set_connector c b1)).
  { destruct Hb1. split; fields; try done; [|by rewrite Eu]. destruct (is_Ok res); set_solver. }
  destruct res as [[]|e]; [|by apply Hfail].
  destruct (match stream_fd id _ with Some _ => _ | None => _ end) as [res c2] eqn:Ee.
  apply epoll_register_quiet in Ee. pose proof (Inv_quiet _ _ _ Hb2 Ee) as Hb3.
  assert (unanswered c2 = unanswered (connector b)) as Eu2.
  { destruct Ee as (_ & -> & _). fields. by rewrite Eu. }
  destruct res as [[]|e]; [|split; [done|]; split; [by apply emitted_refl|done]].
  destruct (sessions (set_connector c2 _) !! id) as [s2|] eqn:Es2;
    [|split; [done|]; split; [by apply emitted_refl|done]].
  destruct (inv_sessions _ _ Hb3 id s2 Es2) as [_ [? ? ? ? ? ?]].
  split; [by apply Inv_update; [|split|eexists]|]. split; [by apply emitted_refl|done].
Qed.

Lemma keeps_harvest_all (rs : list (Resolved A)) : forall b, Inv ∅ b ->
  Forall (fun r => resolved_stream r ∉ unanswered (connector b)) rs ->
  Inv ∅ (harvest_all rs b).2 /\ emitted b (harvest_all rs b).2.
Proof.
  induction rs as [|r rs IH]; intros b Hb Hrs; [by apply keeps_ret|].
  apply Forall_cons in Hrs as [Hr Hrs].
  destruct (keeps_harvest_one r b Hb Hr) as (Hi & He & Hu).
  cbn [harvest_all]. unfold mbind, M_bind. destruct (harvest_one r b) as [[[]|e] b1]; [|done].
  cbn [snd] in *. destruct (IH b1 Hi) as [Hi' He']; [by rewrite Hu|].
  split; [done|by eapply emitted_trans].
Qed.

Lemma keeps_harvest : keeps harvest_resolves.
Proof.
  intros b Hb. unfold harvest_resolves. destruct (take_resolved (connector b)) as [rs c] eqn:E.
  apply take_resolved_law in E as [El Eu]. destruct (inv_unanswered _ _ Hb) as [Hn Hs].
  rewrite Eu in Hn, Hs. apply NoDup_app in Hn as (_ & Hd & Hn).
  destruct (keeps_harvest_all rs (set_connector c b)) as [Hi He]; [| |done].
  - destruct Hb. split; fields; rewrite ?El; try done. split; [done|]. rewrite list_to_set_app in Hs. set_solver.
  - apply Forall_forall. intros r Hr. fields. apply Hd, list_elem_of_fmap. by exists r.
Qed.

(** ** Serviced sessions *)

Abbreviation SB := (Session * B)%type.

Definition gone_opt (o : option Disposition) : bool := match o with Some _ => true | None => false end.
Definition gone (d : Disposition) : bool := match d with Remove => true | Keep => false end.

(** A phase on the serviced session keeps the invariant with that stream set
    aside; a result that removes the session has closed its socket. *)
Definition skeeps {X} (removed : X -> bool) (id : Z) (m : M SB X) : Prop := forall s b,
  Inv {[id]} b -> session_ok s ->
  let '(r, (s', b')) := m (s, b) in
  emitted b b' /\ session_ok s' /\ Inv {[id]} b'
  /\ match r with Ok x => removed x = true -> Inv ∅ b' | Err _ => True end.

(** What ran before only has to be composed with what it emitted. *)
Lemma skeeps_after {X} (removed : X -> bool) id (m : M SB X) b s1 b1 :
  skeeps removed id m -> emitted b b1 -> Inv {[id]} b1 -> session_ok s1 ->
  let '(r, (s', b')) := m (s1, b1) in
  emitted b b' /\ session_ok s' /\ Inv {[id]} b'
  /\ match r with Ok x => removed x = true -> Inv ∅ b' | Err _ => True end.
Proof.
  intros Hm He Hb1 Hs1. specialize (Hm s1 b1 Hb1 Hs1). destruct (m (s1, b1)) as [r [s' b']].
  destruct Hm as (? & ? & ? & ?). split; [by eapply emitted_trans|done].
Qed.

Lemma skeeps_bind {X Y} removed id (m : M SB X) (k : X -> M SB Y) :
  skeeps (fun _ => false) id m -> (forall x, skeeps removed id (k x)) -> skeeps removed id (m ≫= k).
Proof.
  intros Hm Hk s b Hb Hs. specialize (Hm s b Hb Hs). unfold mbind, M_bind.
  destruct (m (s, b)) as [[x|e] [s1 b1]]; destruct Hm as (He & Hs1 & Hb1 & _); [|done].
  exact (skeeps_after removed id _ b s1 b1 (Hk x) He Hb1 Hs1).
Qed.

Lemma skeeps_ret {X} (removed : X -> bool) id (x : X) : removed x = false -> skeeps removed id (mret x).
Proof. intros Hx s b Hb Hs. split_and!; try done; [by apply emitted_refl|]. by rewrite Hx. Qed.

Lemma abort_open_eq id b : fits 16 id ->
  abort_open id b = (Ok Remove, (detach_socket id b) <| tx_pending := tx_pending b ++ wire (Rst id) |>).
Proof. intros. unfold abort_open, modify, mbind, M_bind. by rewrite enqueue_ok. Qed.

(** Closing the serviced stream's socket ends its claim on the live set. *)
Lemma Inv_detach id b : Inv {[id]} b -> Inv ∅ (detach_socket id b).
Proof.
  intros Hb. destruct (detach_sets id b) as [El Eu]. apply (Inv_mono {[id]}); [set_solver|..].
  - rewrite El. destruct Hb. fields. set_solver.
  - eapply Inv_same; try done; rewrite ?El, ?Eu; set_solver.
Qed.

Lemma Inv_detach_aside id b : Inv {[id]} b -> Inv {[id]} (detach_socket id b).
Proof.
  intros Hb. destruct (detach_sets id b) as [El Eu]. eapply Inv_same; try done; rewrite ?El, ?Eu; set_solver.
Qed.

(** The early return of a failed socket. *)
Lemma skeeps_abort id : fits 16 id ->
  skeeps gone_opt id (d ← lift (abort_open id); mret (Some d)).
Proof.
  intros Hf s b Hb Hs. unfold lift, mbind, M_bind. cbn [fst snd]. rewrite abort_open_eq by done.
  cbn [mret M_ret fst snd]. split; [by apply (emitted_one (Rst id))|]. split; [done|].
  split; [|intros _].
  - by apply (Inv_same _ (detach_socket id b)); [apply Inv_detach_aside|..].
  - by apply (Inv_same _ (detach_socket id b)); [apply Inv_detach|..].
Qed.

Lemma skeeps_update_epoll id : skeeps (fun _ => false) id (update_epoll id).
Proof.
  intros s b Hb Hs. unfold update_epoll.
  set (mask := if negb (is_empty _) then _ else _). destruct (mask =? _).
  { split_and!; try done. by apply emitted_refl. }
  destruct (match stream_fd id _ with Some _ => _ | None => _ end) as [res c] eqn:E.
  assert (quiet (connector b) c) as Hq.
  { destruct (stream_fd id (connector b)); [by eapply epoll_mod_law|]. by simplify_eq. }
  pose proof (Inv_quiet _ _ _ Hb Hq). destruct res as [[]|e].
  - split; [by apply emitted_refl|]. destruct Hs. by split_and!; [split|..].
  - split; [by apply emitted_refl|]. done.
Qed.

Lemma skeeps_flush fuel id : fits 16 id -> skeeps gone_opt id (flush_to_socket fuel id).
Proof.
  intros Hf. induction fuel as [|n IH]; intros s b Hb Hs; cbn [flush_to_socket].
  { split_and!; try done. by apply emitted_refl. }
  destruct (is_empty (to_socket s)); [split_and!; try done; by apply emitted_refl|].
  destruct (sock_write id (to_socket s) (connector b)) as [res c] eqn:E.
  apply sock_write_law in E as (El & Eu & _).
  assert (Hb1 : Inv {[id]} (set_connector c b)).
  { eapply Inv_same; try done; fields; by rewrite ?El, ?Eu. }
  destruct res as [[k|]|e].
  - destruct (0 <? k)%nat; [|split_and!; try done; by apply emitted_refl].
    match goal with |- context [flush_to_socket n id (?s1, ?b1)] => specialize (IH s1 b1) end.
    destruct (flush_to_socket n id _) as [r [s' b']].
    destruct IH as (He & ? & ? & ?); [by apply (Inv_same _ (set_connector c b))| |done].
    destruct Hs. split; cbn [to_socket to_guest to_guest_credit host_close_sent host_read_closed set_field];
      try done; [|by apply Forall_drop].
    unfold zlen in *. rewrite length_drop. lia.
  - split_and!; try done. by apply emitted_refl.
  - exact (skeeps_abort id Hf s (set_connector c b) Hb1 Hs).
Qed.

Lemma skeeps_read fuel id : fits 16 id -> forall buf s b,
  bytes_ok buf -> length buf = Z.to_nat READ_CHUNK -> host_read_closed s = false ->
  Inv {[id]} b -> session_ok s ->
  let '(r, (s', b')) := read_from_socket fuel id buf (s, b) in
  emitted b b' /\ session_ok s' /\ Inv {[id]} b'
  /\ match r with Ok x => gone_opt x = true -> Inv ∅ b' | Err _ => True end.
Proof.
  intros Hf. induction fuel as [|n IH]; intros buf s b Hok Hl Hc Hb Hs; cbn [read_from_socket].
  { split_and!; try done. by apply emitted_refl. }
  destruct (WINDOW_BYTES <=? _) eqn:Ew; bool_prop; [split_and!; try done; by apply emitted_refl|].
  set (want := Z.to_nat (Z.min _ _)).
  assert (Hw : (want <= length buf)%nat) by (rewrite Hl; unfold want, READ_CHUNK; lia).
  assert (Hw' : Z.of_nat want <= WINDOW_BYTES - zlen (to_guest s)) by (unfold want; lia).
  destruct (sock_read id (take want buf) (connector b)) as [[res filled] c] eqn:E.
  apply sock_read_law in E as (El & Eu & Hlen & Hfo & _); [|by apply Forall_take].
  rewrite length_take, Nat.min_l in Hlen by done.
  assert (Hb1 : Inv {[id]} (set_connector c b)).
  { eapply Inv_same; try done; fields; by rewrite ?El, ?Eu. }
  assert (Hcl : host_close_sent s = false).
  { destruct (host_close_sent s) eqn:Ec; [|done]. apply Hs in Ec as [Ec _]. congruence. }
  destruct res as [[[|k]|]|e].
  - split; [by apply emitted_refl|]. split; [|done].
    destruct Hs. case_decide; split; cbn [host_close_sent set_field]; try done; by rewrite Hcl.
  - set (buf' := filled ++ drop want buf). set (m := Nat.min _ want).
    assert (Hbuf : bytes_ok buf') by (apply Forall_app; split; [done|by apply Forall_drop]).
    specialize (IH buf' (s <| to_guest := to_guest s ++ take m buf' |>) (set_connector c b)).
    destruct (read_from_socket n id _ _) as [r [s' b']].
    apply IH; try done.
    + unfold buf'. rewrite length_app, length_drop. lia.
    + destruct Hs. split; cbn [to_socket to_guest to_guest_credit host_close_sent host_read_closed set_field];
        try done; [| |by rewrite Hcl].
      * unfold zlen in *. rewrite length_app, length_take. lia.
      * apply Forall_app. split; [done|by apply Forall_take].
  - split_and!; try done. by apply emitted_refl.
  - exact (skeeps_abort id Hf s (set_connector c b) Hb1 Hs).
Qed.

Lemma skeeps_flush_all id : fits 16 id -> skeeps gone_opt id (flush_all id).
Proof. intros Hf s b Hb Hs. by apply (skeeps_flush (length (to_socket s)) id Hf s b). Qed.

Lemma zeros_ok n : bytes_ok (replicate n 0).
Proof. apply Forall_replicate. done. Qed.

Lemma skeeps_read_all id : fits 16 id -> skeeps gone_opt id (read_all id).
Proof.
  intros Hf s b Hb Hs. unfold read_all. cbn [fst]. destruct (host_read_closed s) eqn:E.
  { split_and!; try done. by apply emitted_refl. }
  apply skeeps_read; [done|apply zeros_ok|apply length_replicate|done..].
Qed.

Lemma skeeps_socket_io id : fits 16 id -> skeeps gone_opt id (socket_io id).
Proof.
  intros Hf s b Hb Hs. unfold socket_io, mbind, M_bind.
  pose proof (skeeps_flush_all id Hf s b Hb Hs) as Hfl.
  destruct (flush_all id (s, b)) as [[[d|]|e] [s1 b1]]; [done| |done].
  destruct Hfl as (He & Hs1 & Hb1 & _).
  exact (skeeps_after gone_opt id _ b s1 b1 (skeeps_read_all id Hf) He Hb1 Hs1).
Qed.

(** The bytes of one [DATA] frame: at least one, and no more than the buffer,
    the credit or a frame can carry. *)
Lemma chunk_bounds s : session_ok s -> is_empty (to_guest s) || (to_guest_credit s <=? 0) = false ->
  let n := Z.min (Z.min (zlen (to_guest s)) (to_guest_credit s)) EGRESS_MAX_PAYLOAD in
  1 <= n <= zlen (to_guest s) /\ n <= to_guest_credit s /\ n <= EGRESS_MAX_PAYLOAD.
Proof.
  intros Hs E. bool_prop. unfold zlen, EGRESS_MAX_PAYLOAD. destruct (to_guest s); [done|]. simpl. lia.
Qed.

Lemma data_frame_ok id s n : fits 16 id -> session_ok s -> n <= EGRESS_MAX_PAYLOAD ->
  frame_ok (Data id (take (Z.to_nat n) (to_guest s))).
Proof.
  intros Hf Hs Hn. split; [done|]. split; [apply Forall_take; by destruct Hs|].
  rewrite length_take. unfold EGRESS_MAX_PAYLOAD in *. lia.
Qed.

(** The session after a [DATA] frame of [n] bytes. *)
Definition sent_data (n : Z) (s : Session) : Session :=
  s <| to_guest_credit := to_guest_credit s - n |> <| to_guest := drop (Z.to_nat n) (to_guest s) |>.

Lemma sent_data_ok n s : session_ok s -> 0 <= n <= to_guest_credit s -> session_ok (sent_data n s).
Proof.
  intros [] Hn. split; cbn [sent_data to_socket to_guest to_guest_credit host_close_sent host_read_closed set_field];
    try done; try lia.
  - unfold zlen in *. rewrite length_drop. lia.
  - by apply Forall_drop.
  - intros Ec. destruct (ok_close0 Ec) as [? ->]. by rewrite drop_nil.
Qed.

Lemma skeeps_frame fuel id : fits 16 id -> skeeps (fun _ => false) id (frame_to_guest fuel id).
Proof.
  intros Hf. induction fuel as [|k IH]; intros s b Hb Hs; cbn [frame_to_guest].
  { split_and!; try done. by apply emitted_refl. }
  destruct (is_empty _ || _) eqn:E; [split_and!; try done; by apply emitted_refl|].
  pose proof (chunk_bounds s Hs E) as Hn. cbv zeta in Hn. set (n := Z.min _ EGRESS_MAX_PAYLOAD) in *.
  destruct Hn as (Hn & Hcr & Hmax). pose proof (data_frame_ok id s n Hf Hs Hmax) as Hfo.
  rewrite enqueue_ok by done.
  match goal with |- context [frame_to_guest k id (_, ?b1)] => specialize (IH (sent_data n s) b1) end.
  unfold sent_data in IH at 1. destruct (frame_to_guest k id _) as [r [s' b']].
  destruct IH as (He & ? & ? & ?); [by apply (Inv_same _ b)|by apply sent_data_ok; [|lia]|].
  split; [|done]. eapply emitted_trans; [|done]. by eapply emitted_one.
Qed.

Lemma skeeps_frame_all id : fits 16 id -> skeeps (fun _ => false) id (frame_all id).
Proof. intros Hf s b Hb Hs. by apply (skeeps_frame (length (to_guest s)) id Hf s b). Qed.

Lemma skeeps_announce id : fits 16 id -> skeeps (fun _ => false) id (announce_eof id).
Proof.
  intros Hf s b Hb Hs. unfold announce_eof. destruct (_ && _) eqn:E;
    [|split_and!; try done; by apply emitted_refl].
  bool_prop. rewrite enqueue_ok by done. split; [by apply (emitted_one (Close id))|].
  split; [|split; [by apply (Inv_same _ b)|done]].
  destruct Hs. split; cbn [to_socket to_guest to_guest_credit host_close_sent host_read_closed set_field]; try done.
  by destruct (to_guest s).
Qed.

Lemma skeeps_run_open_io id : fits 16 id -> skeeps gone id (run_open_io id).
Proof.
  intros Hf s b Hb Hs. unfold run_open_io. unfold mbind at 1, M_bind at 1.
  pose proof (skeeps_socket_io id Hf s b Hb Hs) as Hio.
  destruct (socket_io id (s, b)) as [[[d|]|e] [s1 b1]]; destruct Hio as (He & Hs1 & Hb1 & Hg); [|
    |done].
  { cbn. split_and!; try done. intros _. by apply Hg. }
  assert (Hrest : skeeps gone id (frame_all id;; announce_eof id;; update_epoll id;; finish_open id)).
  { apply skeeps_bind; [by apply skeeps_frame_all|intros _].
    apply skeeps_bind; [by apply skeeps_announce|intros _].
    apply skeeps_bind; [apply skeeps_update_epoll|intros _].
    intros s2 b2 Hb2 Hs2. unfold finish_open. destruct (is_drained s2).
    - split; [by apply emitted_refl|]. split; [done|]. split; [by apply Inv_detach_aside|].
      intros _. by apply Inv_detach.
    - split_and!; try done. by apply emitted_refl. }
  exact (skeeps_after gone id _ b s1 b1 Hrest He Hb1 Hs1).
Qed.

Lemma skeeps_lift {X} id (m : M B X) :
  (forall b, Inv {[id]} b -> Inv {[id]} (m b).2 /\ emitted b (m b).2) -> skeeps (fun _ => false) id (lift m).
Proof.
  intros Hm s b Hb Hs. unfold lift. cbn [fst snd]. specialize (Hm b Hb). destruct (m b) as [r b'].
  destruct Hm. split_and!; try done. by destruct r.
Qed.

Lemma skeeps_run_connecting id : fits 16 id -> skeeps gone id (run_connecting id).
Proof.
  intros Hf s b Hb Hs. unfold run_connecting.
  destruct (poll_connect id (connector b)) as [p c] eqn:E. apply poll_connect_law in E as [Hq Hr].
  pose proof (Inv_quiet _ _ _ Hb Hq) as Hb1.
  assert (He : emitted b (set_connector c b)) by by apply emitted_refl.
  destruct p as [| |r]; [split_and!; try done| |].
  - apply (skeeps_after gone id _ b s (set_connector c b)); try done.
    apply skeeps_bind; [apply skeeps_lift|intros _].
    { intros b1 Hi1. rewrite enqueue_ok by done. split; [by apply (Inv_same _ b1)|].
      by apply (emitted_one (OpenOk id)). }
    apply skeeps_bind; [|intros _; apply skeeps_bind; [apply skeeps_update_epoll|intros _; by apply skeeps_ret]].
    intros s1 b1 Hb2 Hs1. unfold modify. cbn [guest_write_closed set_field].
    destruct (guest_write_closed s1); (split; [by apply emitted_refl|]).
    + split; [by destruct Hs1; split|]. split; [apply Inv_quiet; [done|apply shutdown_write_law]|done].
    + split; [by destruct Hs1; split|]. done.
  - destruct (Hr r eq_refl) as [Hr1 Hr2]. unfold lift, modify, mbind, M_bind. cbn [fst snd].
    rewrite enqueue_ok by done. cbn [mret M_ret]. split; [by apply (emitted_one (OpenErr id r))|].
    split; [done|]. split; [|intros _].
    + by apply (Inv_same _ (detach_socket id (set_connector c b))); [apply Inv_detach_aside|..].
    + by apply (Inv_same _ (detach_socket id (set_connector c b))); [apply Inv_detach|..].
Qed.

(** ** The pump *)

Lemma keeps_service_one id : keeps (service_one id).
Proof.
  intros b Hb. unfold service_one. destruct (sessions b !! id) as [s|] eqn:Es;
    [|split; [done|by apply emitted_refl]].
  destruct (inv_sessions _ _ Hb id s Es) as [Hf Hs]. pose proof (elem_of_dom_2 _ _ _ Es) as Hid.
  set (b1 := b <| sessions := delete id (sessions b) |>).
  assert (Hb1 : Inv {[id]} b1).
  { destruct Hb. split; unfold b1; fields; try done.
    - rewrite dom_delete_L. intros x Hx. apply inv_live0 in Hx. destruct (decide (x = id)); set_solver.
    - etrans; [|done]. apply subseteq_size. rewrite dom_delete_L. set_solver.
    - by apply map_Forall_delete. }
  set (run := match sstate s with Resolving => _ | Connecting => _ | Established | HalfClosed => _ end).
  assert (Hrun : let '(r, (s', b')) := run in emitted b b' /\ session_ok s' /\ Inv {[id]} b'
    /\ match r with Ok x => gone x = true -> Inv ∅ b' | Err _ => True end).
  { assert (He : emitted b b1) by by apply emitted_refl. unfold run. destruct (sstate s).
    - done.
    - exact (skeeps_after gone id _ b s b1 (skeeps_run_connecting id Hf) He Hb1 Hs).
    - exact (skeeps_after gone id _ b s b1 (skeeps_run_open_io id Hf) He Hb1 Hs).
    - exact (skeeps_after gone id _ b s b1 (skeeps_run_open_io id Hf) He Hb1 Hs). }
  clearbody run. destruct run as [r [s' b']]. destruct Hrun as (He & Hs' & Hb' & Hg).
  assert (Inv ∅ (b' <| sessions := <[id := s']> (sessions b') |>)).
  { assert (∅ = ({[id]} : gset Z) ∖ {[id]}) as -> by set_solver. apply Inv_insert; try done. set_solver. }
  destruct r as [[|]|e]; split; try done. by apply Hg.
Qed.

Lemma keeps_service_all ids : keeps (service_all ids).
Proof.
  induction ids as [|id ids IH]; [apply keeps_ret|]. cbn [service_all].
  by apply keeps_bind; [apply keeps_service_one|].
Qed.

Lemma keeps_pump bs : bytes_ok bs -> keeps (backend_pump bs).
Proof.
  intros Hbs. unfold backend_pump. apply keeps_bind; [by apply keeps_ingest|intros _].
  apply keeps_bind; [apply keeps_harvest|intros _]. intros b Hb. by apply keeps_service_all.
Qed.
End invariant.

(** ** The byte streams of a session *)

Section streams.
Context `{ConnectorLaws A C}.
Abbreviation B := (EgressBackend C).

(** A session that has seen the end of the peer's stream has read it all. *)
Definition eof_ok (id : Z) (s : Session) (b : B) : Prop :=
  host_read_closed s = true -> unread id (connector b) = [].

(** What a phase keeps of the session when it only moves bytes to the socket. *)
Definition same_down (s s' : Session) : Prop :=
  to_guest s' = to_guest s /\ to_guest_credit s' = to_guest_credit s
  /\ host_read_closed s' = host_read_closed s /\ host_close_sent s' = host_close_sent s.

Lemma abort_run id s (b : B) : fits 16 id ->
  (d ← lift (abort_open id); mret (Some d)) (s, b)
  = (Ok (Some Remove), (s, (detach_socket id b) <| tx_pending := tx_pending b ++ wire (Rst id) |>)).
Proof. intros. unfold lift, mbind, M_bind. cbn [fst snd]. by rewrite abort_open_eq. Qed.

Lemma detach_streams id (b : B) :
  unread id (connector (detach_socket id b)) = []
  /\ written id (connector (detach_socket id b)) = written id (connector b).
Proof.
  unfold detach_socket. fields. destruct (stream_fd id (connector b)) as [fd|].
  - destruct (epoll_del_law fd (connector b)) as (_ & _ & Hu & Hw).
    destruct (sock_close_law id (epoll_del fd (connector b))) as (_ & _ & -> & ->).
    by rewrite decide_True.
  - destruct (sock_close_law id (connector b)) as (_ & _ & -> & ->). by rewrite decide_True.
Qed.

(** A call on the stream's socket that does not fail. *)
Inductive io_ok (id : Z) : C -> C -> Prop :=
  | io_ok_write data k c c' : sock_write id data c = (Ok k, c') -> io_ok id c c'
  | io_ok_read buf k filled c c' : sock_read id buf c = (Ok k, filled, c') -> io_ok id c c'.

(** After calls that do not fail, the socket is in error and a call says so,
    leaving [c']. *)
Definition socket_failed (id : Z) (c c' : C) : Prop :=
  exists c1 e, rtc (io_ok id) c c1 /\ broken id c1
  /\ ((exists data, sock_write id data c1 = (Err e, c'))
      \/ exists buf filled, sock_read id buf c1 = (Err e, filled, c')).

(** After calls that do not fail, the socket takes nothing of [data]. *)
Definition socket_full (id : Z) (data : list Z) (c : C) : Prop :=
  exists c1 c2, rtc (io_ok id) c c1
  /\ (sock_write id data c1 = (Ok None, c2) /\ full id c1 \/ sock_write id data c1 = (Ok (Some 0%nat), c2)).

Lemma socket_failed_step id c c1 c' : io_ok id c c1 -> socket_failed id c1 c' -> socket_failed id c c'.
Proof. intros Hs (c2 & e & Hr & Hb). exists c2, e. split; [by eapply rtc_l|done]. Qed.

Lemma socket_full_step id data c c1 : io_ok id c c1 -> socket_full id data c1 -> socket_full id data c.
Proof. intros Hs (c2 & c3 & Hr & Hb). exists c2, c3. split; [by eapply rtc_l|done]. Qed.

(** The stream is torn down: the failing call was made, the socket closed, one
    reset queued, and what the peer got of the backlog is a prefix of it. *)
Definition torn_down (id : Z) (s : Session) (b b' : B) : Prop :=
  (exists c, socket_failed id (connector b) c /\ connector b' = connector (detach_socket id (set_connector c b)))
  /\ tx_pending b' = tx_pending b ++ wire (Rst id)
  /\ exists k, written id (connector b') = written id (connector b) ++ take k (to_socket s).

Lemma detach_connector id (b b' : B) : connector b = connector b' ->
  connector (detach_socket id b) = connector (detach_socket id b').
Proof. intros E. unfold detach_socket. fields. by rewrite E. Qed.

Lemma flush_streams fuel id : fits 16 id -> forall s (b : B), (length (to_socket s) <= fuel)%nat ->
  let '(r, (s', b')) := flush_to_socket fuel id (s, b) in
  (r = Ok (Some Remove) /\ torn_down id s b b')
  \/ (r = Ok None /\ tx_pending b' = tx_pending b /\ same_down s s'
      /\ guest_write_closed s' = guest_write_closed s
      /\ (exists k, written id (connector b') = written id (connector b) ++ take k (to_socket s)
           /\ to_socket s' = drop k (to_socket s))
      /\ (to_socket s' = [] \/ socket_full id (to_socket s') (connector b))
      /\ rtc (io_ok id) (connector b) (connector b')
      /\ unread id (connector b') = unread id (connector b)).
Proof.
  assert (Hstay : forall (s : Session) (c c' : C), written id c' = written id c ->
    exists k, written id c' = written id c ++ take k (to_socket s) /\ to_socket s = drop k (to_socket s)).
  { intros s c c' E. exists 0%nat. by rewrite take_0, app_nil_r, drop_0. }
  intros Hf. induction fuel as [|n IH]; intros s b Hl; cbn [flush_to_socket].
  { assert (to_socket s = []) as E by (destruct (to_socket s); [done|simpl in Hl; lia]).
    right. split_and!; try done; [by apply Hstay|by left]. }
  destruct (is_empty (to_socket s)) eqn:Ee.
  { right. split_and!; try done; [by apply Hstay|left; by destruct (to_socket s)]. }
  destruct (sock_write id (to_socket s) (connector b)) as [res c] eqn:E.
  pose proof E as E'. apply sock_write_law in E' as (_ & _ & Eu & Ew & _).
  destruct res as [[k|]|e].
  - destruct Ew as [Hk Ew]. assert (Hok : io_ok id (connector b) c) by (by eapply io_ok_write).
    destruct (0 <? k)%nat eqn:Ek.
    + apply Nat.ltb_lt in Ek. rewrite Nat.min_l by done.
      match goal with |- context [flush_to_socket n id (?s1, ?b1)] => specialize (IH s1 b1) end.
      destruct (flush_to_socket n id _) as [r [s' b']].
      revert IH. fields. cbn [to_socket set_field]. rewrite length_drop.
      intros [[-> ((c0 & Hc0 & Ec0) & Ht & j & Hj)]|(-> & Ht & Hsd & Hg & (j & Hj & Hd) & Hend & Hrtc & Hu)]; [lia| |].
      * left. split; [done|]. split_and!; [|done|].
        -- exists c0. split; [by eapply socket_failed_step|]. rewrite Ec0. by apply detach_connector.
        -- exists (k + j)%nat. rewrite Hj. fields. cbn [to_socket]. by rewrite Ew, <- app_assoc, take_take_drop.
      * right. split_and!; try done.
        -- exists (k + j)%nat. rewrite Hj, Hd. fields. cbn [to_socket]. by rewrite Ew, <- app_assoc, take_take_drop, drop_drop.
        -- destruct Hend as [?|Hend]; [by left|right]. by eapply socket_full_step.
        -- by eapply rtc_l.
        -- by rewrite Hu.
    + right. apply Nat.ltb_ge in Ek. assert (k = 0%nat) as -> by lia. fields.
      split_and!; try done; [apply Hstay; by rewrite Ew, take_0, app_nil_r| |by apply rtc_once].
      right. exists (connector b), c. split; [done|by right].
  - destruct Ew as [Ew Hfull]. right. fields. split_and!; try done; [by apply Hstay| |].
    + right. exists (connector b), c. split; [done|by left].
    + apply rtc_once. by eapply io_ok_write.
  - destruct Ew as [Ew Hbr]. rewrite abort_run by done. left. split; [done|]. split_and!; [|done|].
    + exists c. split; [|by apply detach_connector]. exists (connector b), e. split; [done|]. split; [done|]. left. by eexists.
    + exists 0%nat. rewrite take_0, app_nil_r. fields.
      rewrite <- Ew. apply (detach_streams id (set_connector c b)).
Qed.

Lemma read_streams fuel id : fits 16 id -> forall buf s (b : B),
  bytes_ok buf -> length buf = Z.to_nat READ_CHUNK -> host_read_closed s = false ->
  let '(r, (s', b')) := read_from_socket fuel id buf (s, b) in
  (r = Ok (Some Remove) /\ torn_down id s b b')
  \/ (r = Ok None /\ tx_pending b' = tx_pending b
      /\ to_guest_credit s' = to_guest_credit s /\ host_close_sent s' = host_close_sent s
      /\ guest_write_closed s' = guest_write_closed s /\ to_socket s' = to_socket s
      /\ written id (connector b') = written id (connector b)
      /\ to_guest s' ++ unread id (connector b') = to_guest s ++ unread id (connector b)
      /\ eof_ok id s' b').
Proof.
  intros Hf. induction fuel as [|n IH]; intros buf s b Hok Hl Hc; cbn [read_from_socket].
  { right. unfold eof_ok. rewrite Hc. done. }
  destruct (WINDOW_BYTES <=? _) eqn:Ew; bool_prop; [right; unfold eof_ok; by rewrite Hc|].
  set (want := Z.to_nat (Z.min _ _)).
  assert (Hw : (0 < want <= length buf)%nat) by (rewrite Hl; unfold want, READ_CHUNK; lia).
  destruct (sock_read id (take want buf) (connector b)) as [[res filled] c] eqn:E. pose proof E as E'.
  apply sock_read_law in E' as (_ & _ & Hlen & Hfo & Ew' & Hu & _); [|by apply Forall_take].
  rewrite length_take, Nat.min_l in * by lia.
  destruct res as [[[|k]|]|e].
  - right. destruct Hu as (_ & Hu & Hz). rewrite take_0 in Hu. cbn [app] in Hu. unfold eof_ok.
    assert (unread id (connector b) = []) as Hnil.
    { apply Hz; [done|]. intros Ht. apply (f_equal length) in Ht. rewrite length_take in Ht. simpl in Ht. lia. }
    assert (unread id c = []) as Hnil' by by rewrite <- Hu.
    fields. rewrite Hnil, Hnil'. by case_decide.
  - destruct Hu as (Hk & Hu & _). set (buf' := filled ++ drop want buf).
    rewrite (Nat.min_l (S k) want) by done.
    assert (Htk : take (S k) buf' = take (S k) filled) by (unfold buf'; by rewrite take_app_le by lia).
    specialize (IH buf' (s <| to_guest := to_guest s ++ take (S k) buf' |>) (set_connector c b)).
    destruct (read_from_socket n id _ _) as [r [s' b']].
    destruct IH as [[-> ((c0 & Hc0 & Ec0) & Ht & j & Hj)]|(? & ? & ? & ? & ? & ? & Hwr & Hun & ?)]; [..|left|right].
    + apply Forall_app. split; [done|by apply Forall_drop].
    + unfold buf'. rewrite length_app, length_drop. lia.
    + done.
    + split; [done|]. split_and!; [|done|].
      * exists c0. split; [eapply socket_failed_step; [|exact Hc0]; by eapply io_ok_read|].
        rewrite Ec0. by apply detach_connector.
      * exists j. rewrite Hj. fields. cbn [to_socket]. by rewrite Ew'.
    + split_and!; try done; [by rewrite Hwr|].
      rewrite Hun. fields. cbn [to_guest set_field]. by rewrite Htk, <- app_assoc, <- Hu.
  - right. destruct Hu as [Hu _]. unfold eof_ok. fields. rewrite Hc, Hu. done.
  - destruct Hu as [_ Hbr]. rewrite abort_run by done. left. split; [done|]. split_and!; [|done|].
    + exists c. split; [|by apply detach_connector]. exists (connector b), e. split; [done|]. split; [done|].
      right. by eexists _, _.
    + exists 0%nat. rewrite take_0, app_nil_r. fields. rewrite <- Ew'. apply (detach_streams id (set_connector c b)).
Qed.

Lemma frame_streams fuel id : fits 16 id -> forall s (b : B), session_ok s ->
  (length (to_guest s) <= fuel)%nat ->
  exists chunks s' b', frame_to_guest fuel id (s, b) = (Ok tt, (s', b'))
  /\ tx_pending b' = tx_pending b ++ concat (wire <$> (Data id <$> chunks))
  /\ to_guest s = concat chunks ++ to_guest s'
  /\ to_guest_credit s' = to_guest_credit s - zlen (concat chunks) /\ 0 <= to_guest_credit s'
  /\ (to_guest s' = [] \/ to_guest_credit s' = 0)
  /\ connector b' = connector b /\ to_socket s' = to_socket s
  /\ guest_write_closed s' = guest_write_closed s
  /\ host_read_closed s' = host_read_closed s /\ host_close_sent s' = host_close_sent s.
Proof.
  intros Hf. induction fuel as [|k IH]; intros s b Hs Hl; cbn [frame_to_guest].
  { exists [], s, b. destruct (to_guest s) eqn:Et; [|simpl in Hl; lia]. destruct Hs. cbn. rewrite app_nil_r.
    unfold zlen. split_and!; try done; simpl; try lia. by left. }
  destruct (is_empty _ || _) eqn:E.
  { exists [], s, b. destruct Hs. cbn. rewrite app_nil_r. unfold zlen. split_and!; try done; simpl; try lia.
    apply orb_true_iff in E as [E|E]; bool_prop; [left; by destruct (to_guest s)|right; lia]. }
  pose proof (chunk_bounds s Hs E) as Hn. cbv zeta in Hn. set (n := Z.min _ EGRESS_MAX_PAYLOAD) in *.
  destruct Hn as (Hn & Hcr & Hmax). rewrite enqueue_ok by by apply data_frame_ok.
  match goal with |- context [frame_to_guest k id (_, ?b1)] =>
    destruct (IH (sent_data n s) b1) as (chunks & s' & b' & Hrun & Ht & Hg & Hc & ? & ? & ? & ? & ? & ? & ?) end.
  { apply sent_data_ok; [done|lia]. }
  { cbn [sent_data to_guest set_field]. rewrite length_drop. lia. }
  exists (take (Z.to_nat n) (to_guest s) :: chunks), s', b'. split; [exact Hrun|]. split_and!; try done.
  - rewrite Ht. fields. cbn [fmap list_fmap concat]. by rewrite <- app_assoc.
  - cbn [concat]. rewrite <- app_assoc, <- Hg. cbn [sent_data to_guest set_field]. by rewrite take_drop.
  - rewrite Hc. cbn [concat sent_data to_guest_credit set_field]. unfold zlen in *.
    rewrite length_app, length_take. lia.
Qed.

(** Moving bytes between the session and its socket: nothing lost, nothing
    reordered, in either direction. *)
Lemma socket_io_streams id s (b : B) : fits 16 id -> eof_ok id s b ->
  let '(r, (s', b')) := socket_io id (s, b) in
  (r = Ok (Some Remove) /\ torn_down id s b b')
  \/ (r = Ok None /\ tx_pending b' = tx_pending b
      /\ to_guest_credit s' = to_guest_credit s /\ host_close_sent s' = host_close_sent s
      /\ guest_write_closed s' = guest_write_closed s
      /\ written id (connector b') ++ to_socket s' = written id (connector b) ++ to_socket s
      /\ (to_socket s' = [] \/ socket_full id (to_socket s') (connector b))
      /\ to_guest s' ++ unread id (connector b') = to_guest s ++ unread id (connector b)
      /\ eof_ok id s' b').
Proof.
  intros Hf Heof. unfold socket_io, flush_all, mbind, M_bind. cbn [fst].
  pose proof (flush_streams (length (to_socket s)) id Hf s b (le_n _)) as Hfl.
  destruct (flush_to_socket _ id (s, b)) as [r1 [s1 b1]].
  destruct Hfl as [[-> ?]|(-> & Ht & (Hg & Hcr & Hrc & Hcs) & Hgw & (k & Hk & Hd) & Hend & Hrtc & Hu)]; [by left|].
  assert (Hw : written id (connector b1) ++ to_socket s1 = written id (connector b) ++ to_socket s).
  { by rewrite Hk, Hd, <- app_assoc, take_drop. }
  unfold read_all. cbn [fst]. destruct (host_read_closed s1) eqn:Ec.
  { right. unfold eof_ok. rewrite Hu, Hg, Hcr, Hcs, Hgw, Ht. split_and!; try done.
    intros _. apply Heof. congruence. }
  pose proof (read_streams (Z.to_nat (WINDOW_BYTES - zlen (to_guest s1))) id Hf (replicate (Z.to_nat READ_CHUNK) 0)
    s1 b1 (zeros_ok _) (length_replicate _ _) Ec) as Hr.
  destruct (read_from_socket _ id _ _) as [r2 [s2 b2]].
  destruct Hr as [[-> ((c0 & (c1 & e & Hr1 & Hbr) & Ec0) & Ht2 & j & Hj)]
    |(-> & Ht2 & ? & ? & ? & Hts & Hw2 & Hu2 & ?)]; [left|right].
  - split; [done|]. split_and!; [|by rewrite Ht2, Ht|].
    + exists c0. split; [|rewrite Ec0; by apply detach_connector]. exists c1, e. split; [by etrans|done].
    + exists (k + j)%nat. by rewrite Hj, Hk, Hd, <- app_assoc, take_take_drop.
  - rewrite Hts. split_and!; try congruence; done.
Qed.

Lemma announce_streams id s (b : B) : fits 16 id ->
  exists closing s' b', announce_eof id (s, b) = (Ok tt, (s', b'))
  /\ closing = (host_read_closed s && is_empty (to_guest s) && negb (host_close_sent s))
  /\ tx_pending b' = tx_pending b ++ concat (wire <$> (if closing then [Close id] else []))
  /\ host_close_sent s' = (host_close_sent s || closing)
  /\ connector b' = connector b /\ to_guest s' = to_guest s /\ to_socket s' = to_socket s
  /\ to_guest_credit s' = to_guest_credit s
  /\ guest_write_closed s' = guest_write_closed s /\ host_read_closed s' = host_read_closed s.
Proof.
  intros Hf. unfold announce_eof. destruct (_ && _) eqn:E.
  - rewrite enqueue_ok by done. exists true. eexists _, _. split; [done|]. fields. cbn [fmap list_fmap concat].
    rewrite app_nil_r, orb_true_r. done.
  - exists false, s, b. rewrite orb_false_r. cbn. by rewrite app_nil_r.
Qed.

Lemma update_epoll_streams id s (b : B) :
  let '(r, (s', b')) := update_epoll id (s, b) in
  quiet (connector b) (connector b') /\ tx_pending b' = tx_pending b
  /\ same_down s s' /\ to_socket s' = to_socket s /\ guest_write_closed s' = guest_write_closed s.
Proof.
  unfold update_epoll. set (mask := if negb (is_empty _) then _ else _). destruct (mask =? _); [done|].
  destruct (match stream_fd id _ with Some _ => _ | None => _ end) as [res c] eqn:E.
  assert (quiet (connector b) c) as Hq.
  { destruct (stream_fd id (connector b)); [by eapply epoll_mod_law|]. by simplify_eq. }
  by destruct res.
Qed.

(** What one service of an open session does to its two streams. *)
Definition serviced (id : Z) (s : Session) (b : B) (r : result EgressError Disposition)
    (s' : Session) (b' : B) : Prop :=
  (r = Ok Remove /\ torn_down id s b b')
  \/ exists chunks closing,
      tx_pending b' = tx_pending b
        ++ concat (wire <$> ((Data id <$> chunks) ++ (if closing : bool then [Close id] else [])))
      /\ concat chunks ++ to_guest s' ++ unread id (connector b') = to_guest s ++ unread id (connector b)
      /\ written id (connector b') ++ to_socket s' = written id (connector b) ++ to_socket s
      /\ (to_socket s' = [] \/ socket_full id (to_socket s') (connector b))
      /\ 0 <= to_guest_credit s' /\ to_guest_credit s' = to_guest_credit s - zlen (concat chunks)
      /\ (to_guest s' = [] \/ to_guest_credit s' = 0)
      /\ host_close_sent s' = (host_close_sent s || closing)
      /\ (closing = true -> host_close_sent s = false /\ to_guest s' = [] /\ unread id (connector b') = [])
      /\ (r = Ok Remove -> is_drained s' = true /\ host_close_sent s' = true)
      /\ eof_ok id s' b'.

Lemma run_open_io_serviced id s (b : B) : fits 16 id -> Inv {[id]} b -> session_ok s -> eof_ok id s b ->
  let '(r, (s', b')) := run_open_io id (s, b) in serviced id s b r s' b'.
Proof.
  intros Hf Hb Hs Heof. unfold run_open_io. unfold mbind at 1, M_bind at 1.
  pose proof (socket_io_streams id s b Hf Heof) as Hio.
  pose proof (skeeps_socket_io id Hf s b Hb Hs) as Hok.
  destruct (socket_io id (s, b)) as [r1 [s1 b1]]. destruct Hok as (_ & Hs1 & _).
  destruct Hio as [[-> Ht]|(-> & Ht & Hcr & Hcs & Hgw & Hw & Hend & Hu & He)]; [by left|].
  unfold frame_all, mbind, M_bind. cbn [fst].
  destruct (frame_streams (length (to_guest s1)) id Hf s1 b1 Hs1 ltac:(done))
    as (chunks & s2 & b2 & -> & Ht2 & Hg2 & Hc2 & Hp2 & Hst & Hcn2 & Hsk2 & Hgw2 & Hrc2 & Hcs2).
  destruct (announce_streams id s2 b2 Hf)
    as (closing & s3 & b3 & -> & Hcl & Ht3 & Hcs3 & Hcn3 & Hg3 & Hsk3 & Hc3 & Hgw3 & Hrc3).
  pose proof (update_epoll_streams id s3 b3) as Hep.
  destruct (update_epoll id (s3, b3)) as [r4 [s4 b4]].
  destruct Hep as ((_ & _ & Hu4 & Hw4) & Ht4 & (Hg4 & Hc4 & Hrc4 & Hcs4) & Hsk4 & Hgw4).
  assert (Heof4 : eof_ok id s4 b4).
  { unfold eof_ok. rewrite Hu4, Hcn3, Hcn2, Hrc4, Hrc3, Hrc2. done. }
  assert (Hrel : forall r b5, tx_pending b5 = tx_pending b4 ->
    unread id (connector b5) = unread id (connector b4) -> written id (connector b5) = written id (connector b4) ->
    (r = Ok Remove -> is_drained s4 = true) -> serviced id s b r s4 b5).
  { intros r b5 Ht5 Hu5 Hw5 Hr. right. exists chunks, closing. unfold eof_ok.
    rewrite Ht5, Hu5, Hw5, Hg4, Hg3, Hc4, Hc3, Hcs4, Hcs3, Hcs2, Hcs. split_and!; try done.
    - rewrite Ht4, Ht3, Ht2, Ht, <- app_assoc, fmap_app, concat_app. done.
    - rewrite Hu4, Hcn3, Hcn2, app_assoc, <- Hg2. done.
    - rewrite Hw4, Hsk4, Hcn3, Hsk3, Hcn2, Hsk2. done.
    - by rewrite Hsk4, Hsk3, Hsk2.
    - congruence.
    - intros Hcl'. rewrite Hcl' in Hcl. symmetry in Hcl. bool_prop. split; [congruence|].
      split; [by destruct (to_guest s2)|]. rewrite Hu4, Hcn3, Hcn2. apply He. congruence.
    - intros Hrm. specialize (Hr Hrm). split; [done|]. unfold is_drained in Hr.
      apply andb_true_iff in Hr as [Hr Hge]. apply andb_true_iff in Hr as [Hr _].
      apply andb_true_iff in Hr as [_ Hrc]. rewrite Hg4, Hg3 in Hge. rewrite Hrc4, Hrc3 in Hrc.
      rewrite Hcl, Hge, Hrc, Hcs2, Hcs. by destruct (host_close_sent s). }
  destruct r4 as [_|e]; [|by apply Hrel]. unfold finish_open.
  destruct (is_drained s4) eqn:Ed; [|by apply Hrel].
  destruct (detach_streams id b4) as [Hud Hwd]. apply Hrel; [done| |done|done].
  rewrite Hud, Heof4; [done|]. unfold is_drained in Ed. bool_prop. done.
Qed.
End streams.

(** ** Reachable backends *)

Section reachable.
Context `{ConnectorLaws A C}.
Abbreviation B := (EgressBackend C).

(** From a fresh connector, everything the channel calls. *)
Inductive reachable : B -> Prop :=
  | reach_new c b : live c = ∅ -> unanswered c = [] -> with_connector c = Ok b -> reachable b
  | reach_pump b bs : reachable b -> bytes_ok bs -> reachable (backend_pump bs b).2
  | reach_drain b n : reachable b -> reachable (drain_to_guest n b).2
  | reach_unshift b bs : reachable b -> reachable (unshift_to_guest bs b)
  | reach_note b ns : reachable b -> reachable (note_gated_interval ns b).

Lemma with_connector_Inv c b : live c = ∅ -> unanswered c = [] -> with_connector c = Ok b -> Inv ∅ b.
Proof.
  intros Hl Hu. unfold with_connector.
  destruct (match resolver_fd c with Some _ => _ | None => _ end) as [r c'] eqn:E.
  assert (quiet c c') as (El & Eu & _).
  { destruct (resolver_fd c); [by eapply epoll_add_law|by simplify_eq]. }
  destruct r; [|done]. intros [= <-]. split; fields.
  - rewrite El, Hl. set_solver.
  - rewrite Eu, Hu. split; [constructor|set_solver].
  - rewrite dom_empty_L, union_empty_l_L, size_empty. unfold MAX_SESSIONS. lia.
  - apply map_Forall_empty.
  - constructor.
Qed.

Lemma reachable_Inv b : reachable b -> Inv ∅ b.
Proof.
  induction 1 as [c b Hl Hu E|b bs _ IH Hbs|b n _ IH|b bs _ IH|b ns _ IH].
  - by eapply with_connector_Inv.
  - by apply keeps_pump.
  - by apply (Inv_same _ b).
  - by apply (Inv_same _ b).
  - by apply (Inv_same _ b).
Qed.
End reachable.

(** The module's definition of the activity sum [E]. *)
Definition activity {C} (b : EgressBackend C) : nat :=
  size (sessions b) + size (resolving b)
  + (if is_empty (rx_parse b) then 0 else 1) + (if is_empty (tx_pending b) then 0 else 1).

Lemma is_quiescent_activity {C} (b : EgressBackend C) : is_quiescent b = true <-> activity b = 0%nat.
Proof.
  unfold is_quiescent, activity. rewrite !andb_true_iff, !bool_decide_eq_true.
  pose proof (map_size_empty_iff (sessions b)) as Hs. pose proof (size_empty_iff (resolving b)) as Hr.
  unfold_leibniz. rewrite <- Hs, <- Hr.
  destruct (is_empty (rx_parse b)), (is_empty (tx_pending b)); split; intros; (done || (split_and!; try done; lia) || lia || intuition done).
Qed.

(** ** A concrete connector

    Every name resolves to its port, every connect succeeds, sockets accept
    all they are given and deliver [toy_in]. *)

Record ToyHost := { toy_live : gset Z; toy_asked : list (Z * Z); toy_in : gmap Z (list Z); toy_out : gmap Z (list Z) }.

#[export] Instance eta_ToyHost : Settable ToyHost := fun r =>
  Build_ToyHost (toy_live r) (toy_asked r) (toy_in r) (toy_out r).

Definition toy_pending_in (id : Z) (c : ToyHost) : list Z := as_u8 <$> default [] (toy_in c !! id).

#[export] Instance toy_connector : EgressConnector Z ToyHost := {|
  start_resolve id h p c := c <| toy_asked := toy_asked c ++ [(id, p)] |>;
  take_resolved c := ((fun q => {| resolved_stream := q.1; resolved_addr := Some q.2 |}) <$> toy_asked c,
                      c <| toy_asked := [] |>);
  start_connect id a c := (Ok tt, c <| toy_live := {[id]} ∪ toy_live c |>);
  poll_connect id c := (Connected, c);
  sock_read id buf c :=
    let avail := toy_pending_in id c in
    let n := Nat.min (length buf) (length avail) in
    (Ok (Some n), take n avail ++ drop n buf, c <| toy_in := <[id := drop n avail]> (toy_in c) |>);
  sock_write id data c :=
    (Ok (Some (length data)), c <| toy_out := <[id := default [] (toy_out c !! id) ++ data]> (toy_out c) |>);
  shutdown_write id c := c;
  sock_close id c := c <| toy_live := toy_live c ∖ {[id]} |> <| toy_in := delete id (toy_in c) |>;
  stream_fd id c := if bool_decide (id ∈ toy_live c) then Some (100 + id) else None;
  resolver_fd c := Some 3;
|}.

#[export] Instance toy_epoll : Epoll ToyHost := {|
  epoll_add fd m c := (Ok tt, c); epoll_mod fd m c := (Ok tt, c); epoll_del fd c := c |}.

#[export] Instance toy_ghost : Ghost ToyHost := {|
  live := toy_live; unanswered c := (toy_asked c).*1;
  unread := toy_pending_in; written id c := default [] (toy_out c !! id);
  dry _ _ := False; full _ _ := False; broken _ _ := False |}.

Lemma as_u8_fmap_idem (l : list Z) : (as_u8 <$> (as_u8 <$> l)) = as_u8 <$> l.
Proof.
  rewrite <- list_fmap_compose. apply list_fmap_ext. intros i x _. simpl. apply as_u8_id, as_u8_fits.
Qed.

Lemma toy_pending_ok id c : bytes_ok (toy_pending_in id c).
Proof. apply Forall_fmap, Forall_forall. intros. apply as_u8_fits. Qed.

#[export] Program Instance toy_laws : ConnectorLaws Z ToyHost.
Next Obligation. intros id h p c. cbn. split; [done|]. rewrite fmap_app. cbn. symmetry. apply Permutation_cons_append. Qed.
Next Obligation.
  intros c rs c' [= <- <-]. cbn. split; [done|]. by rewrite <- list_fmap_compose, app_nil_r.
Qed.
Next Obligation. intros id a c r c' [= <- <-]. done. Qed.
Next Obligation. intros id c p c' [= <- <-]. done. Qed.
Next Obligation.
  intros id buf c r filled c' [= <- <- <-] Hb. set (avail := toy_pending_in id c). cbn.
  assert (Hd : toy_pending_in id (c <| toy_in := <[id := drop (Nat.min (length buf) (length avail)) avail]> (toy_in c) |>)
    = drop (Nat.min (length buf) (length avail)) avail).
  { unfold toy_pending_in. cbn [toy_in set_field]. rewrite lookup_insert_eq. simpl.
    unfold avail, toy_pending_in. by rewrite <- fmap_drop, as_u8_fmap_idem. }
  split_and!; try done.
  - rewrite length_app, length_take, length_drop. lia.
  - apply Forall_app. split; [apply Forall_take, toy_pending_ok|by apply Forall_drop].
  - lia.
  - rewrite take_app_le by (rewrite length_take; lia). rewrite take_take, Nat.min_id.
    etrans; [symmetry; apply (take_drop (Nat.min (length buf) (length avail)))|]. f_equal. symmetry. exact Hd.
  - intros Hn Hne. destruct avail eqn:Ea; [exact Ea|]. destruct buf; [done|]. simpl in Hn. lia.
Qed.
Next Obligation.
  intros id data c r c' [= <- <-]. cbn. rewrite lookup_insert_eq. split_and!; try done.
  - cbn. by rewrite firstn_all.
Qed.
Next Obligation. done. Qed.
Next Obligation.
  intros id c. cbn. split_and!; try done. intros i. unfold toy_pending_in. cbn.
  case_decide; [subst; by rewrite lookup_delete_eq|by rewrite lookup_delete_ne].
Qed.
Next Obligation. intros fd m c r c' [= <- <-]. done. Qed.
Next Obligation. intros fd m c r c' [= <- <-]. done. Qed.
Next Obligation. done. Qed.

Definition toy_host : ToyHost := {| toy_live := ∅; toy_asked := []; toy_in := {[7 := [72; 105]]}; toy_out := ∅ |}.

Definition toy_backend : EgressBackend ToyHost :=
  {| connector := toy_host; sessions := ∅; resolving := ∅; rx_parse := []; tx_pending := [];
     stats := Build_EgressStats 0 0 0 0 0 0 |}.

Lemma toy_backend_Inv : Inv ∅ toy_backend.
Proof. by apply (with_connector_Inv toy_host). Qed.

Lemma toy_backend_reachable : reachable toy_backend.
Proof. by apply (reach_new toy_host). Qed.

(** An [OPEN] of stream 7 to "a":80, a [DATA] frame, and half a frame. *)
Definition toy_bytes : list Z := [1; 1; 7; 0; 3; 0; 80; 0; 97; 1; 4; 7; 0; 1; 0; 33; 1; 4; 7].

(** ** Properties *)

(** C29: The pump is safe on any guest input: whatever bytes the guest sends
    and whatever the connector answers, also when the pump fails half way,
    there are never more than 256 sessions, every session's buffers stay
    within their caps, every open socket belongs to a session of the table,
    every unanswered resolution is accounted for, and what was queued for the
    guest is a sequence of whole well-formed frames. *)
Theorem egress_pump_invariant `{ConnectorLaws A C} (b : EgressBackend C) bs :
  Inv ∅ b -> bytes_ok bs ->
  let b' := (backend_pump bs b).2 in
  Inv ∅ b'
  /\ exists fs, Forall frame_ok fs /\ tx_pending b' = tx_pending b ++ concat (wire <$> fs).
Proof. intros Hb Hbs. exact (keeps_pump bs Hbs b Hb). Qed.

Lemma egress_pump_invariant_witness :
  let b' := (backend_pump toy_bytes toy_backend).2 in
  (size (sessions b') <= 256)%nat /\ sessions b' !! 7 <> None /\ toy_live (connector b') = {[7]}.
Proof.
  assert (Hok : bytes_ok toy_bytes) by (by apply (bool_decide_unpack _); vm_compute).
  destruct (egress_pump_invariant toy_backend toy_bytes toy_backend_Inv Hok) as [[_ _ Hs _ _] _].
  rewrite union_empty_l_L, size_dom in Hs. split; [exact Hs|]. split; [by vm_compute|].
  apply (bool_decide_unpack _). by vm_compute.
Defined.

(** Quiescence is exactly the documented sum being zero, and it is
    enough for a jump: when a reachable backend passes the gate there is no
    open socket, no resolution in flight and no byte waiting in either
    direction. *)
Theorem quiescent_has_no_external_state `{ConnectorLaws A C} (b : EgressBackend C) :
  reachable b -> assert_ff_jump_legal (Some b) = Some tt ->
  activity b = 0%nat /\ live (connector b) = ∅ /\ unanswered (connector b) = []
  /\ rx_parse b = [] /\ tx_pending b = [].
Proof.
  intros Hr Hg. apply reachable_Inv in Hr as [Hl [_ Hu] _ _ _].
  assert (Hq : is_quiescent b = true).
  { unfold assert_ff_jump_legal, ff_jump_allowed in Hg. by destruct (is_quiescent b). }
  split; [by apply is_quiescent_activity|]. unfold is_quiescent in Hq. bool_prop.
  assert (sessions b = ∅) as Es by done. rewrite Es, dom_empty_L in Hl.
  assert (resolving b = ∅) as Er by done. rewrite Er in Hu.
  split; [set_solver|]. split; [|by destruct (rx_parse b), (tx_pending b)].
  destruct (unanswered (connector b)); [done|]. rewrite list_to_set_cons in Hu. set_solver.
Qed.

Lemma quiescent_has_no_external_state_witness :
  activity toy_backend = 0%nat /\ assert_ff_jump_legal (Some (backend_pump toy_bytes toy_backend).2) = None.
Proof.
  split; [|by vm_compute].
  apply (quiescent_has_no_external_state toy_backend toy_backend_reachable). by vm_compute.
Defined.

(** C5: One service of an open session keeps both byte streams: either a read
    or a write was answered by an error of the socket, which is then closed,
    the guest gets a single reset and the peer has got a prefix of the backlog
    (a socket that would block is no reason for that), or what went to the
    guest followed by what is still buffered or unread is what was there
    before, what the peer got followed by the backlog likewise, a backlog is
    left only when the socket takes nothing of it, the credit is
    spent byte for byte and never exceeded, framing stops only with an empty
    buffer or no credit, and the close goes out at most once, only after the
    last byte; a session leaves the table only when both directions are
    closed, both buffers empty and the close sent. *)
Theorem session_streams_preserved `{ConnectorLaws A C} id s (b : EgressBackend C) :
  fits 16 id -> Inv {[id]} b -> session_ok s -> eof_ok id s b ->
  let '(r, (s', b')) := run_open_io id (s, b) in serviced id s b r s' b'.
Proof. apply run_open_io_serviced. Qed.

(** A session of stream 7, half closed by the guest, with one byte to send. *)
Definition toy_session : Session :=
  {| sstate := HalfClosed; to_socket := [33]; to_guest := []; to_guest_credit := 10;
     guest_write_closed := true; host_read_closed := false; host_close_sent := false; epoll_mask := 0 |}.

Lemma session_streams_preserved_witness :
  let '(r, (s', b')) := run_open_io 7 (toy_session, toy_backend) in
  serviced 7 toy_session toy_backend r s' b'
  /\ (r, tx_pending b') = (Ok Remove, wire (Data 7 [72; 105]) ++ wire (Close 7)).
Proof.
  assert (Hi : Inv {[7]} toy_backend).
  { destruct toy_backend_Inv. split; try done. apply (bool_decide_unpack _). by vm_compute. }
  assert (Hs : session_ok toy_session) by (split; try done; by apply (bool_decide_unpack _); vm_compute).
  pose proof (session_streams_preserved 7 toy_session toy_backend ltac:(done) Hi Hs ltac:(done)) as Hp.
  assert (E : (let '(r, (s', b')) := run_open_io 7 (toy_session, toy_backend) in (r, tx_pending b'))
    = (Ok Remove, wire (Data 7 [72; 105]) ++ wire (Close 7))) by by vm_compute.
  destruct (run_open_io 7 (toy_session, toy_backend)) as [r [s' b']]. split; [exact Hp|exact E].
Defined.

(** An open has exactly four outcomes: an id that is live or whose
    earlier resolution is still out is reset, so a late answer can never bind
    to a reused id; past 256 sessions the guest gets a stream-limit error; an
    empty host or port 0 a protocol error; otherwise the session starts
    resolving with a full window and is counted.  The table changes only at
    that id. *)
Theorem open_outcomes `{ConnectorLaws A C} id port host (b : EgressBackend C) :
  fits 16 id ->
  let '(r, b') := handle_open id port host b in
  let busy := bool_decide (id ∈ dom (sessions b) ∪ resolving b) in
  r = Ok tt
  /\ (busy = true -> sessions b' = delete id (sessions b) /\ resolving b' = resolving b
        /\ tx_pending b' = tx_pending b ++ wire (Rst id))
  /\ (busy = false -> (256 <= size (sessions b))%nat -> sessions b' = sessions b /\ resolving b' = resolving b
        /\ tx_pending b' = tx_pending b ++ wire (OpenErr id StreamLimit))
  /\ (busy = false -> (size (sessions b) < 256)%nat -> host = [] \/ port = 0 ->
        sessions b' = sessions b /\ tx_pending b' = tx_pending b ++ wire (OpenErr id ProtocolError))
  /\ (busy = false -> (size (sessions b) < 256)%nat -> host <> [] -> port <> 0 ->
        sessions b' = <[id := new_resolving]> (sessions b) /\ resolving b' = {[id]} ∪ resolving b
        /\ tx_pending b' = tx_pending b
        /\ sessions_total (stats b') = as_u64 (sessions_total (stats b) + 1)).
Proof.
  intros Hf. unfold handle_open.
  assert (Hbusy : bool_decide (id ∈ dom (sessions b)) || bool_decide (id ∈ resolving b)
    = bool_decide (id ∈ dom (sessions b) ∪ resolving b)).
  { repeat case_bool_decide; set_solver. }
  rewrite Hbusy. destruct (bool_decide (id ∈ dom _ ∪ _)) eqn:Eb; bool_prop.
  { rewrite reset_stream_eq by done. by split_and!. }
  assert (Hnd : delete id (sessions b) = sessions b).
  { apply delete_id, not_elem_of_dom. set_solver. }
  unfold MAX_SESSIONS. destruct (256 <=? size (sessions b))%nat eqn:Es.
  { apply Nat.leb_le in Es. rewrite fail_open_eq by done. unfold count_failed_open, drop_stream, remove_session. fields.
    rewrite Hnd. split_and!; try done; intros; lia. }
  apply Nat.leb_gt in Es. destruct (is_empty host || _) eqn:Ee.
  - rewrite fail_open_eq by done. unfold count_failed_open, drop_stream, remove_session. fields.
    rewrite Hnd. split_and!; try done; try (intros; lia). intros _ _ Hh Hp.
    apply orb_true_iff in Ee as [Ee|Ee]; [by destruct host|bool_prop; done].
  - bool_prop. split_and!; try done; try (intros; lia).
    intros _ _ [->| ->]; done.
Qed.

Lemma open_outcomes_witness :
  let '(r, b') := handle_open 7 80 [97] toy_backend in
  r = Ok tt /\ sessions b' = {[7 := new_resolving]} /\ resolving b' = {[7]}.
Proof.
  pose proof (open_outcomes 7 80 [97] toy_backend ltac:(done)) as Hp.
  destruct (handle_open 7 80 [97] toy_backend) as [r b'].
  destruct Hp as (Hr & _ & _ & _ & Hok). split; [exact Hr|].
  destruct Hok as (Hs & Hv & _); [by vm_compute|simpl; rewrite map_size_empty; lia|done|done|].
  split; [exact Hs|rewrite Hv; apply union_empty_r_L].
Defined.

(** A full session table does not bound the transmit queue: every
    further open appends a seven-byte refusal, so [n] opens that the guest
    sends without draining its receive FIFO leave [7 * n] more bytes queued. *)
Theorem refused_opens_grow_queue `{ConnectorLaws A C} id port host n (b : EgressBackend C) :
  fits 16 id -> id ∉ dom (sessions b) -> id ∉ resolving b -> (256 <= size (sessions b))%nat ->
  let b' := (handle_frames (replicate n (OwnedOpen id port host)) b).2 in
  length (tx_pending b') = (length (tx_pending b) + 7 * n)%nat /\ sessions b' = sessions b.
Proof.
  intros Hf Hs Hr Hn. revert b Hs Hr Hn. induction n as [|n IH]; intros b Hs Hr Hn; [simpl; split; [lia|done]|].
  cbn [replicate handle_frames handle_frame]. unfold mbind, M_bind, handle_open.
  rewrite !bool_decide_eq_false_2 by done. cbn [orb].
  rewrite (proj2 (Nat.leb_le MAX_SESSIONS _)) by done. rewrite fail_open_eq by done.
  assert (Hnd : delete id (sessions b) = sessions b) by by apply delete_id, not_elem_of_dom.
  set (b1 := (count_failed_open _) <| tx_pending := _ |>).
  assert (Hss : sessions b1 = sessions b) by exact Hnd.
  destruct (IH b1) as [Hl Hs']; [by rewrite Hss|done|by rewrite Hss|].
  cbv zeta. rewrite Hl, Hs', Hss. split; [|done]. unfold b1. fields. rewrite length_app, length_wire. simpl. lia.
Qed.

(** A table of 256 sessions. *)
Definition full_backend : EgressBackend ToyHost :=
  toy_backend <| sessions := list_to_map ((fun i => (Z.of_nat i, new_resolving)) <$> seq 0 256) |>.

Lemma refused_opens_grow_queue_witness :
  length (tx_pending (handle_frames (replicate 3 (OwnedOpen 999 80 [97])) full_backend).2) = 21%nat.
Proof.
  apply (refused_opens_grow_queue 999 80 [97] 3 full_backend).
  - done.
  - apply (bool_decide_unpack _). by vm_compute.
  - apply (bool_decide_unpack _). by vm_compute.
  - apply (bool_decide_unpack _). by vm_compute.
Defined.
