(* ===== verification/EgressWaits.v ===== *)
(** * The egress backend: what it waits for

    The backend uses its connector only through the interface ([call]); the
    resolutions it holds in flight are exactly those the connector has not
    answered, and a session that waits for an address waits for one of them.
    Proved for every operation of [Egress], over any connector that keeps the
    laws. *)

From Stdlib Require Import ZArith Lia.
From stdpp Require Import base numbers strings gmap sets sorting list.
From S2P Require Import Prelude.
From S2P Require Import EgressCodec.
From S2P Require Import Utf8.
From S2P Require Import Egress.
From S2P Require Import EgressSpec.

Open Scope Z_scope.

Section waits.
Context `{ConnectorLaws A C}.
Abbreviation B := (EgressBackend C).
Abbreviation SB := (Session * B)%type.

(** One call of the interface. *)
Inductive call : C -> C -> Prop :=
  | call_start_resolve id host port c : call c (start_resolve id host port c)
  | call_take_resolved c : call c (take_resolved c).2
  | call_start_connect id a c : call c (start_connect id a c).2
  | call_poll_connect id c : call c (poll_connect id c).2
  | call_read id buf c : call c (sock_read id buf c).2
  | call_write id data c : call c (sock_write id data c).2
  | call_shutdown id c : call c (shutdown_write id c)
  | call_close id c : call c (sock_close id c)
  | call_epoll_add fd m c : call c (epoll_add fd m c).2
  | call_epoll_mod fd m c : call c (epoll_mod fd m c).2
  | call_epoll_del fd c : call c (epoll_del fd c).

(** What changes nothing of what is waited for. *)
Record calm (b b' : B) : Prop := {
  calm_calls : rtc call (connector b) (connector b');
  calm_unanswered : unanswered (connector b') = unanswered (connector b);
  calm_resolving : resolving b' = resolving b;
  calm_sessions id s' : sessions b' !! id = Some s' -> sstate s' = Resolving ->
    exists s, sessions b !! id = Some s /\ sstate s = Resolving;
}.

#[local] Instance calm_po : PreOrder calm.
Proof.
  split.
  - intros b. split; [done..|]. by eexists.
  - intros b1 b2 b3 [C1 U1 R1 S1] [C2 U2 R2 S2]. split; [by etrans|congruence..|].
    intros id s Hs Hr. destruct (S2 id s Hs Hr) as (s2 & Hs2 & Hr2). by eapply S1.
Qed.

(** A connector call that answers and asks nothing. *)
Lemma calm_connector (b : B) c : rtc call (connector b) c -> unanswered c = unanswered (connector b) ->
  calm b (set_connector c b).
Proof. intros. split; [done..|]. by eexists. Qed.

Lemma calm_call (b : B) c : call (connector b) c -> unanswered c = unanswered (connector b) ->
  calm b (set_connector c b).
Proof. intros. by apply calm_connector; [apply rtc_once|]. Qed.

(** A change of the rest of the backend. *)
Lemma calm_table (b b' : B) : connector b' = connector b -> resolving b' = resolving b ->
  (forall id s', sessions b' !! id = Some s' -> sstate s' = Resolving ->
     exists s, sessions b !! id = Some s /\ sstate s = Resolving) -> calm b b'.
Proof. intros Ec Er Hs. split; [by rewrite Ec|by rewrite Ec|done..]. Qed.

Lemma calm_same (b b' : B) : connector b' = connector b -> resolving b' = resolving b ->
  sessions b' = sessions b -> calm b b'.
Proof. intros Ec Er Es. apply calm_table; [done..|]. rewrite Es. by eexists. Qed.

Lemma calm_insert id s s' (b : B) : sessions b !! id = Some s -> (sstate s' = Resolving -> sstate s = Resolving) ->
  calm b (b <| sessions := <[id := s']> (sessions b) |>).
Proof.
  intros Hs Hst. apply calm_table; [done..|]. fields. intros i t. destruct (decide (i = id)) as [->|].
  - rewrite lookup_insert_eq. intros [= <-] Hr. exists s. auto.
  - rewrite lookup_insert_ne by done. by eexists.
Qed.

Lemma calm_remove id (b : B) : calm b (remove_session id b).
Proof.
  apply calm_table; [done..|]. unfold remove_session. fields. intros i t.
  rewrite lookup_delete_Some. intros [_ Ht]. by eexists.
Qed.

Lemma calm_detach id (b : B) : calm b (detach_socket id b).
Proof.
  unfold detach_socket. destruct (stream_fd id (connector b)) as [fd|].
  - etrans; [apply (calm_call b (epoll_del fd (connector b))); [apply call_epoll_del|apply epoll_del_law]|].
    apply (calm_call (set_connector (epoll_del fd (connector b)) b)); [apply call_close|apply sock_close_law].
  - apply calm_call; [apply call_close|apply sock_close_law].
Qed.

(** ** Operations of the backend *)

Definition mcalm {X} (m : M B X) : Prop := forall b, calm b (m b).2.

Lemma mcalm_bind {X Y} (m : M B X) (k : X -> M B Y) : mcalm m -> (forall x, mcalm (k x)) -> mcalm (m ≫= k).
Proof.
  intros Hm Hk b. specialize (Hm b). unfold mbind, M_bind. destruct (m b) as [[x|e] b1]; [|done].
  etrans; [exact Hm|apply Hk].
Qed.

Lemma mcalm_ret {X} (x : X) : mcalm (mret x).
Proof. by intros b. Qed.

Lemma mcalm_modify f : (forall b, calm b (f b)) -> mcalm (modify f).
Proof. by intros Hf b. Qed.

Lemma mcalm_enqueue f : mcalm (enqueue f).
Proof. intros b. unfold enqueue. destruct (encode f []); [|done]. by apply calm_same. Qed.

Lemma mcalm_reset id : mcalm (reset_stream id).
Proof.
  apply mcalm_bind; [apply mcalm_modify, calm_detach|intros _]. apply mcalm_bind; [apply mcalm_modify, calm_remove|intros _].
  apply mcalm_enqueue.
Qed.

Lemma mcalm_fail id r : mcalm (fail_open id r).
Proof.
  apply mcalm_bind; [apply mcalm_modify, calm_detach|intros _]. apply mcalm_bind; [apply mcalm_modify, calm_remove|intros _].
  apply mcalm_bind; [|intros _; apply mcalm_enqueue]. apply mcalm_modify. intros b. by apply calm_same.
Qed.

Lemma calm_drop id (b : B) : calm b (drop_stream id b).
Proof. etrans; [apply calm_detach|apply calm_remove]. Qed.

Lemma mcalm_data id payload : mcalm (handle_data id payload).
Proof.
  intros b. unfold handle_data. destruct (sessions b !! id) as [s|] eqn:Es; [|apply mcalm_reset].
  destruct (negb _); [|apply mcalm_reset]. set (s1 := s <| to_socket := _ |>).
  assert (Hi : calm b (b <| sessions := <[id := s1]> (sessions b) |>)) by by eapply calm_insert.
  destruct (_ <? _); [|done]. etrans; [exact Hi|apply mcalm_reset].
Qed.

Lemma calm_close id (b : B) : calm b (handle_close id b).
Proof.
  unfold handle_close. destruct (sessions b !! id) as [s|] eqn:Es; [|done].
  etrans; [eapply calm_insert; [done|]|apply calm_call; [apply call_shutdown|apply shutdown_write_law]].
  case_decide; cbn; [done|done].
Qed.

Lemma calm_window id credit (b : B) : calm b (handle_window id credit b).
Proof. unfold handle_window. destruct (sessions b !! id) as [s|] eqn:Es; [|done]. by eapply calm_insert. Qed.

(** ** Operations on a serviced session *)

Definition scalm {X} (m : M SB X) : Prop := forall s b,
  let '(_, (s', b')) := m (s, b) in calm b b' /\ (sstate s' = Resolving -> sstate s = Resolving).

Lemma scalm_bind {X Y} (m : M SB X) (k : X -> M SB Y) : scalm m -> (forall x, scalm (k x)) -> scalm (m ≫= k).
Proof.
  intros Hm Hk s b. specialize (Hm s b). unfold mbind, M_bind. destruct (m (s, b)) as [[x|e] [s1 b1]]; [|done].
  destruct Hm as [Hc Hs]. specialize (Hk x s1 b1). destruct (k x (s1, b1)) as [r [s2 b2]].
  destruct Hk as [Hc' Hs']. split; [by etrans|auto].
Qed.

Lemma scalm_ret {X} (x : X) : scalm (mret x).
Proof. by intros s b. Qed.

Lemma scalm_lift {X} (m : M B X) : mcalm m -> scalm (lift m).
Proof. intros Hm s b. unfold lift. cbn [fst snd]. specialize (Hm b). by destruct (m b). Qed.

(** A step from where an operation got to. *)
Lemma scalm_from {X} (m : M SB X) s b s1 b1 : scalm m -> calm b b1 ->
  (sstate s1 = Resolving -> sstate s = Resolving) ->
  let '(_, (s', b')) := m (s1, b1) in calm b b' /\ (sstate s' = Resolving -> sstate s = Resolving).
Proof.
  intros Hm Hc Hs. specialize (Hm s1 b1). destruct (m (s1, b1)) as [r [s' b']]. destruct Hm as [Hc' Hs'].
  split; [by etrans|auto].
Qed.

Lemma scalm_abort id : scalm (d ← lift (abort_open id); mret (Some d)).
Proof.
  apply scalm_bind; [|intros; apply scalm_ret]. apply scalm_lift. unfold abort_open.
  apply mcalm_bind; [apply mcalm_modify, calm_detach|intros _].
  apply mcalm_bind; [apply mcalm_enqueue|intros _; apply mcalm_ret].
Qed.

Lemma scalm_update_epoll id : scalm (update_epoll id).
Proof.
  intros s b. unfold update_epoll. set (mask := if negb (is_empty _) then _ else _).
  destruct (mask =? _); [done|].
  destruct (match stream_fd id _ with Some _ => _ | None => _ end) as [res c] eqn:E.
  assert (Hc : calm b (set_connector c b)).
  { destruct (stream_fd id (connector b)) as [fd|]; [|injection E as <- <-; by apply calm_same].
    pose proof (epoll_mod_law _ _ _ _ _ E) as (_ & Hu & _). apply calm_call; [|done].
    replace c with (epoll_mod fd mask (connector b)).2 by (by rewrite E). apply call_epoll_mod. }
  by destruct res.
Qed.

Lemma scalm_flush fuel id : scalm (flush_to_socket fuel id).
Proof.
  induction fuel as [|fuel IH]; intros s b; cbn [flush_to_socket]; [done|].
  destruct (is_empty _); [done|]. destruct (sock_write id _ _) as [res c] eqn:E.
  assert (Hc : calm b (set_connector c b)).
  { pose proof (sock_write_law _ _ _ _ _ E) as (_ & Hu & _). apply calm_call; [|done].
    replace c with (sock_write id (to_socket s) (connector b)).2 by (by rewrite E). apply call_write. }
  destruct res as [[n|]|e]; [|done|by apply scalm_from; [apply scalm_abort|..]].
  destruct (0 <? n)%nat; [|done]. apply scalm_from; [done| |done].
  etrans; [exact Hc|]. by apply calm_same.
Qed.

Lemma scalm_read fuel id : forall buf, bytes_ok buf -> (Z.to_nat READ_CHUNK <= length buf)%nat ->
  scalm (read_from_socket fuel id buf).
Proof.
  induction fuel as [|fuel IH]; intros buf Hb Hl s b; cbn [read_from_socket]; [done|].
  destruct (WINDOW_BYTES <=? _) eqn:Ew; bool_prop; [done|]. set (want := Z.to_nat (Z.min _ _)).
  destruct (sock_read id _ _) as [[res filled] c] eqn:E.
  pose proof (sock_read_law _ _ _ _ _ _ E ltac:(by apply Forall_take)) as (_ & Hu & Hlen & Hf & _).
  rewrite length_take in Hlen.
  assert (Hc : calm b (set_connector c b)).
  { apply calm_call; [|done].
    replace c with (sock_read id (take want buf) (connector b)).2 by (by rewrite E). apply call_read. }
  destruct res as [[[|n]|]|e].
  - split; [done|]. case_decide; cbn; done.
  - apply scalm_from; [|done|done]. apply IH.
    + apply Forall_app. split; [done|by apply Forall_drop].
    + rewrite length_app, length_drop. lia.
  - done.
  - by apply scalm_from; [apply scalm_abort|..].
Qed.

Lemma scalm_frame fuel id : scalm (frame_to_guest fuel id).
Proof.
  induction fuel as [|fuel IH]; intros s b; cbn [frame_to_guest]; [done|].
  destruct (_ || _); [done|]. set (f := Data id _). pose proof (mcalm_enqueue f b) as He.
  destruct (enqueue f b) as [[x|e] b1]; [|done]. apply scalm_from; [done| |done].
  etrans; [exact He|]. by apply calm_same.
Qed.

Lemma scalm_announce id : scalm (announce_eof id).
Proof.
  intros s b. unfold announce_eof. destruct (_ && _); [|done]. pose proof (mcalm_enqueue (Close id) b) as He.
  by destruct (enqueue (Close id) b) as [[x|e] b1].
Qed.

Lemma scalm_open_io id : scalm (run_open_io id).
Proof.
  unfold run_open_io. apply scalm_bind.
  - unfold socket_io. apply scalm_bind; [intros s b; exact (scalm_flush _ id s b)|].
    intros [d|]; [apply scalm_ret|]. intros s b. unfold read_all. cbn [fst]. destruct (host_read_closed s); [done|].
    apply scalm_read; [apply zeros_ok|by rewrite length_replicate].
  - intros [d|]; [apply scalm_ret|]. apply scalm_bind; [intros s b; exact (scalm_frame _ id s b)|intros _].
    apply scalm_bind; [apply scalm_announce|intros _]. apply scalm_bind; [apply scalm_update_epoll|intros _].
    intros s b. unfold finish_open. destruct (is_drained s); [|done]. split; [apply calm_detach|done].
Qed.

Lemma scalm_connecting id : scalm (run_connecting id).
Proof.
  intros s b. unfold run_connecting. destruct (poll_connect id (connector b)) as [p c] eqn:E.
  assert (Hc : calm b (set_connector c b)).
  { pose proof (poll_connect_law _ _ _ _ E) as [(_ & Hu & _) _]. apply calm_call; [|done].
    replace c with (poll_connect id (connector b)).2 by (by rewrite E). apply call_poll_connect. }
  destruct p as [| |r]; [done| |]; apply scalm_from; try done.
  - apply scalm_bind; [apply scalm_lift, mcalm_enqueue|intros _]. apply scalm_bind.
    + intros s1 b1. cbn. destruct (guest_write_closed s1); [|done]. split; [|done].
      apply calm_call; [apply call_shutdown|apply shutdown_write_law].
    + intros _. apply scalm_bind; [apply scalm_update_epoll|intros _; apply scalm_ret].
  - apply scalm_bind; [|intros _; apply scalm_ret]. apply scalm_lift.
    apply mcalm_bind; [apply mcalm_modify, calm_detach|intros _].
    apply mcalm_bind; [|intros _; apply mcalm_enqueue]. apply mcalm_modify. intros b1. by apply calm_same.
Qed.

Lemma mcalm_service_one id : mcalm (service_one id).
Proof.
  intros b. unfold service_one. destruct (sessions b !! id) as [s|] eqn:Es; [|done].
  set (b0 := b <| sessions := delete id (sessions b) |>).
  set (m := match sstate s with Resolving => _ | _ => _ end).
  assert (Hm : let '(_, (s', b')) := m in calm b0 b' /\ (sstate s' = Resolving -> sstate s = Resolving)).
  { unfold m. generalize (scalm_connecting id s b0) (scalm_open_io id s b0). by destruct (sstate s). }
  destruct m as [r [s' b']]. destruct Hm as [Hc Hs].
  assert (Hb0 : calm b b0) by apply (calm_remove id b).
  assert (Hi : calm b (b' <| sessions := <[id := s']> (sessions b') |>)).
  { destruct (calm_po.(PreOrder_Transitive) _ _ _ Hb0 Hc) as [C1 U1 R1 S1]. split; [done..|].
    fields. intros i t. destruct (decide (i = id)) as [->|].
    - rewrite lookup_insert_eq. intros [= <-] Hr. exists s. auto.
    - rewrite lookup_insert_ne by done. apply S1. }
  destruct r as [[]|e]; [exact Hi| |exact Hi]. etrans; [exact Hb0|exact Hc].
Qed.

Lemma mcalm_service : mcalm service_sessions.
Proof.
  intros b. unfold service_sessions. generalize (merge_sort Z.le (elements (dom (sessions b)))). intros ids.
  revert b. induction ids as [|id ids IH]; [apply mcalm_ret|]. cbn [service_all].
  apply mcalm_bind; [apply mcalm_service_one|intros _; exact IH].
Qed.

(** ** What is waited for *)

Record waits (b : B) : Prop := {
  waits_nodup : NoDup (unanswered (connector b));
  waits_all : list_to_set (unanswered (connector b)) = resolving b;
  waits_sessions id s : sessions b !! id = Some s -> sstate s = Resolving -> id ∈ resolving b;
}.

(** An operation uses the interface, and keeps that when it succeeds. *)
Definition mwaits {X} (m : M B X) : Prop := forall b,
  rtc call (connector b) (connector (m b).2) /\ (is_Ok (m b).1 = true -> waits b -> waits (m b).2).

Lemma mcalm_waits {X} (m : M B X) : mcalm m -> mwaits m.
Proof.
  intros Hm b. destruct (Hm b) as [Hc Hu Hr Hs]. split; [done|]. intros _ [Hn Ha Hw].
  split; rewrite ?Hu, ?Hr; [done|done|]. intros id s' Hs' Hst. destruct (Hs id s' Hs' Hst) as (s & ? & ?). by eapply Hw.
Qed.

Lemma mwaits_bind {X Y} (m : M B X) (k : X -> M B Y) : mwaits m -> (forall x, mwaits (k x)) -> mwaits (m ≫= k).
Proof.
  intros Hm Hk b. destruct (Hm b) as [Hc Hw]. unfold mbind, M_bind.
  destruct (m b) as [[x|e] b1]; [|done]. destruct (Hk x b1) as [Hc' Hw']. split; [by etrans|].
  intros Hok Hb. apply Hw'; [done|]. by apply Hw.
Qed.

Lemma mwaits_open id port host : mwaits (handle_open id port host).
Proof.
  intros b. unfold handle_open.
  destruct (bool_decide _ || bool_decide _) eqn:E1; [by apply mcalm_waits, mcalm_reset|]. bool_prop.
  destruct (_ <=? _)%nat; [by apply mcalm_waits, mcalm_fail|].
  destruct (is_empty host || _); [by apply mcalm_waits, mcalm_fail|].
  fields. split; [apply rtc_once, call_start_resolve|]. intros _ [Hn Ha Hw].
  destruct (start_resolve_law id (from_utf8_lossy host) port (connector b)) as [_ Eu].
  split; fields.
  - rewrite Eu. constructor; [|done]. intros Hin. apply (elem_of_list_to_set (C := gset Z)) in Hin. by rewrite Ha in Hin.
  - by rewrite (list_to_set_perm_L _ _ Eu), list_to_set_cons, Ha.
  - intros i s. destruct (decide (i = id)) as [->|]; [set_solver|]. rewrite lookup_insert_ne by done.
    intros Hs Hr. pose proof (Hw i s Hs Hr). set_solver.
Qed.

Lemma mwaits_frame f : mwaits (handle_frame f).
Proof.
  destruct f; cbn [handle_frame]; [apply mwaits_open| | | | |]; apply mcalm_waits;
    auto using mcalm_data, mcalm_reset, mcalm_modify, calm_close, calm_drop, calm_window.
Qed.

Lemma mwaits_ingest bs : mwaits (ingest_and_parse bs).
Proof.
  intros b. unfold ingest_and_parse. set (b1 := b <| rx_parse := _ |>).
  destruct (decode_all _ _) as [[fs rest]|e]; [|by split].
  generalize (to_owned <$> fs). intros os. assert (Hos : mwaits (handle_frames os)).
  { induction os as [|f os IH]; [apply mcalm_waits, mcalm_ret|]. cbn [handle_frames].
    apply mwaits_bind; [apply mwaits_frame|intros _; exact IH]. }
  destruct (Hos (b1 <| rx_parse := rest |>)) as [Hc Hw]. split; [exact Hc|]. intros Hok Hb. apply Hw; [done|].
  by destruct Hb.
Qed.

(** ** Harvesting *)

Lemma fail_open_gone id r (b : B) : is_Ok (fail_open id r b).1 = true -> sessions (fail_open id r b).2 !! id = None.
Proof.
  unfold fail_open, modify, mbind, M_bind, enqueue. destruct (encode _ _); [|done]. intros _. cbn.
  unfold remove_session. fields. apply lookup_delete_eq.
Qed.

(** One answer: its stream is no longer waited for, and no longer waits. *)
Lemma harvest_one_waits (r : Resolved A) (b : B) :
  let id := resolved_stream r in
  calm (b <| resolving := resolving b ∖ {[id]} |>) (harvest_one r b).2
  /\ (is_Ok (harvest_one r b).1 = true ->
      forall s', sessions (harvest_one r b).2 !! id = Some s' -> sstate s' <> Resolving).
Proof.
  cbv zeta. unfold harvest_one. set (id := resolved_stream r). set (b1 := b <| resolving := _ |>).
  destruct (negb _) eqn:E; bool_prop.
  { split; [done|]. intros _ s' Hs Hr. apply E. change (sessions b1) with (sessions b) in *. cbn [snd] in Hs. change (sessions b1) with (sessions b) in Hs. by rewrite Hs, <- Hr. }
  assert (Hfail : forall reason b2, calm b1 b2 -> calm b1 (fail_open id reason b2).2
    /\ (is_Ok (fail_open id reason b2).1 = true -> forall s', sessions (fail_open id reason b2).2 !! id = Some s' ->
         sstate s' <> Resolving)).
  { intros reason b2 Hc. split; [etrans; [exact Hc|apply mcalm_fail]|]. intros Hok s'. by rewrite fail_open_gone. }
  destruct (resolved_addr r) as [a|]; [|by apply Hfail].
  destruct (start_connect id a (connector b1)) as [res c] eqn:Ec.
  assert (Hc : calm b1 (set_connector c b1)).
  { pose proof (start_connect_law _ _ _ _ _ Ec) as [Hu _]. apply calm_call; [|done].
    replace c with (start_connect id a (connector b1)).2 by (by rewrite Ec). apply call_start_connect. }
  destruct res as [[]|e]; [|by apply Hfail].
  destruct (match stream_fd id _ with Some _ => _ | None => _ end) as [res c2] eqn:Ee.
  assert (Hc2 : calm b1 (set_connector c2 (set_connector c b1))).
  { etrans; [exact Hc|]. destruct (stream_fd id _) as [fd|]; [|injection Ee as <- <-; by apply calm_same].
    pose proof (epoll_add_law _ _ _ _ _ Ee) as (_ & Hu & _). apply calm_call; [|done].
    replace c2 with (epoll_add fd (Z.lor EPOLLIN EPOLLOUT) (connector (set_connector c b1))).2 by (by rewrite Ee).
    apply call_epoll_add. }
  destruct res as [[]|e]; [|split; [exact Hc2|done]].
  destruct (sessions (set_connector c2 _) !! id) as [s2|] eqn:Es2.
  - split; [etrans; [exact Hc2|by eapply calm_insert]|]. intros _ s'. fields. by rewrite lookup_insert_eq; intros [= <-].
  - split; [exact Hc2|]. intros _ s'. cbn [snd]. by rewrite Es2.
Qed.

(** The answers [rs] are taken and not yet acted on. *)
Lemma harvest_all_waits (rs : list (Resolved A)) : forall b : B,
  rtc call (connector b) (connector (harvest_all rs b).2)
  /\ (is_Ok (harvest_all rs b).1 = true -> NoDup ((resolved_stream <$> rs) ++ unanswered (connector b)) ->
      list_to_set ((resolved_stream <$> rs) ++ unanswered (connector b)) = resolving b ->
      (forall id s, sessions b !! id = Some s -> sstate s = Resolving -> id ∈ resolving b) ->
      waits (harvest_all rs b).2).
Proof.
  induction rs as [|r rs IH]; intros b; [split; [done|]; intros _ ? ? ?; by split|].
  destruct (harvest_one_waits r b) as [[Hc Hu Hr Hs] Hid].
  cbn [harvest_all]. unfold mbind, M_bind. destruct (harvest_one r b) as [[[]|e] b1]; [|by split]. cbn [fst snd] in *.
  destruct (IH b1) as [Hc' Hw]. split; [etrans; [exact Hc|exact Hc']|]. revert Hu Hr Hs. fields. intros Hu Hr Hs.
  intros Hok Hn Ha Hw0. cbn [fmap list_fmap app] in Hn, Ha. apply NoDup_cons in Hn as [Hni Hn].
  apply Hw; rewrite ?Hu; [done|done| |].
  - rewrite Hr, <- Ha, list_to_set_cons. apply set_eq. intros i. rewrite elem_of_difference, elem_of_union, !elem_of_singleton,
      elem_of_list_to_set. split; [|naive_solver]. intros Hi. split; [by right|]. by intros ->.
  - intros i s' Hs' Hst. destruct (decide (i = resolved_stream r)) as [->|Hne]; [by destruct (Hid eq_refl s' Hs')|].
    destruct (Hs i s' Hs' Hst) as (s & Hss & Hst'). rewrite Hr. pose proof (Hw0 i s Hss Hst'). set_solver.
Qed.

Lemma mwaits_harvest : mwaits harvest_resolves.
Proof.
  intros b. unfold harvest_resolves. destruct (take_resolved (connector b)) as [rs c] eqn:E.
  pose proof (take_resolved_law _ _ _ E) as [_ Eu]. destruct (harvest_all_waits rs (set_connector c b)) as [Hc Hw].
  split.
  - eapply rtc_l; [|exact Hc]. fields. replace c with (take_resolved (connector b)).2 by (by rewrite E).
    apply call_take_resolved.
  - intros Hok [Hn Ha Hs]. apply Hw; fields; [done| |by rewrite <- Ha, (list_to_set_perm_L _ _ Eu)|done].
    by rewrite <- Eu.
Qed.

Lemma harvest_all_unanswered (rs : list (Resolved A)) : forall b : B,
  unanswered (connector (harvest_all rs b).2) = unanswered (connector b).
Proof.
  induction rs as [|r rs IH]; intros b; [done|]. destruct (harvest_one_waits r b) as [[_ Hu _ _] _].
  cbn [harvest_all]. unfold mbind, M_bind. destruct (harvest_one r b) as [[[]|e] b1]; [|exact Hu].
  rewrite IH. exact Hu.
Qed.

(** When the connector hands over all it was asked, nothing waits any more. *)
Lemma harvest_leaves_none (b b2 : B) : waits b -> unanswered (take_resolved (connector b)).2 = [] ->
  harvest_resolves b = (Ok tt, b2) ->
  resolving b2 = ∅ /\ forall id s, sessions b2 !! id = Some s -> sstate s <> Resolving.
Proof.
  intros Hb Hnone E. destruct (mwaits_harvest b) as [_ Hw]. rewrite E in Hw.
  destruct (Hw eq_refl Hb) as [_ Ha Hs]. cbn [snd] in *.
  assert (Hu : unanswered (connector b2) = []).
  { unfold harvest_resolves in E. destruct (take_resolved (connector b)) as [rs c].
    pose proof (harvest_all_unanswered rs (set_connector c b)) as Hu. rewrite E in Hu; cbn [snd] in Hu, Hnone; rewrite Hu; exact Hnone. }
  rewrite Hu in Ha. split; [done|]. intros id s Hss Hr. pose proof (Hs id s Hss Hr). set_solver.
Qed.

Lemma mwaits_pump bs : mwaits (backend_pump bs).
Proof.
  unfold backend_pump. apply mwaits_bind; [apply mwaits_ingest|intros _].
  apply mwaits_bind; [apply mwaits_harvest|intros _]. apply mcalm_waits, mcalm_service.
Qed.

(** ** A backend in service *)

(** From a fresh connector, whatever the channel calls while no call fails;
    [env] is what the connector does by itself. *)
Inductive serving (env : C -> C -> Prop) (c0 : C) : B -> Prop :=
  | serving_new b : live c0 = ∅ -> unanswered c0 = [] -> with_connector c0 = Ok b -> serving env c0 b
  | serving_pump b bs : serving env c0 b -> bytes_ok bs -> is_Ok (backend_pump bs b).1 = true ->
      serving env c0 (backend_pump bs b).2
  | serving_drain b n : serving env c0 b -> serving env c0 (drain_to_guest n b).2
  | serving_unshift b bs : serving env c0 b -> serving env c0 (unshift_to_guest bs b)
  | serving_note b ns : serving env c0 b -> serving env c0 (note_gated_interval ns b)
  | serving_env b c : serving env c0 b -> env (connector b) c -> serving env c0 (set_connector c b).

Lemma with_connector_waits (c : C) b : live c = ∅ -> unanswered c = [] -> with_connector c = Ok b ->
  waits b /\ rtc call c (connector b).
Proof.
  intros Hl Hu. unfold with_connector.
  destruct (match resolver_fd c with Some _ => _ | None => _ end) as [r c'] eqn:E.
  assert (unanswered c' = [] /\ rtc call c c') as [Eu Hc].
  { destruct (resolver_fd c) as [fd|]; [|by injection E as <- <-].
    pose proof (epoll_add_law _ _ _ _ _ E) as (_ & Eu & _). split; [congruence|]. apply rtc_once.
    replace c' with (epoll_add fd EPOLLIN c).2 by (by rewrite E). apply call_epoll_add. }
  destruct r; [|done]. intros [= <-]. split; [|done]. split; fields; rewrite ?Eu; [constructor|done|done].
Qed.

Lemma serving_waits (env : C -> C -> Prop) c0 b : (forall c c', env c c' -> quiet c c') -> serving env c0 b ->
  waits b /\ rtc (fun c c' => call c c' \/ env c c') c0 (connector b).
Proof.
  intros Henv. assert (Hsub : forall c c', rtc call c c' -> rtc (fun c c' => call c c' \/ env c c') c c').
  { intros c c'. apply rtc_subrel. auto. }
  induction 1 as [b Hl Hu Hb|b bs _ [IHw IHc] Hbs Hok|b n _ IH|b bs _ IH|b ns _ IH|b c _ [IHw IHc] He].
  - destruct (with_connector_waits c0 b Hl Hu Hb) as [Hw Hc]. auto.
  - destruct (mwaits_pump bs b) as [Hc Hw]. split; [by apply Hw|]. etrans; [exact IHc|by apply Hsub].
  - destruct IH as [[] Hc]. by split.
  - destruct IH as [[] Hc]. by split.
  - destruct IH as [[] Hc]. by split.
  - destruct (Henv _ _ He) as (_ & Eu & _). destruct IHw as [Hn Ha Hs]. split.
    + split; fields; rewrite ?Eu; done.
    + eapply rtc_r; [exact IHc|]. by right.
Qed.
End waits.
