(* ===== verification/Connector.v ===== *)
(** * The real connector ([RealConnector] of [src/src/egress.rs])

    What the egress backend runs on: DNS through a resolver thread reached by
    two channels and an eventfd, TCP through a table of non-blocking sockets.
    The libc calls are the class [SocketOs], their documented behaviour
    [SocketLaws]; the thread is a step function on the state it shares with the
    connector, and the scheduler runs it between any two accesses of the
    connector to that state.  The connector is proved to keep the promises the
    backend was proved against ([ConnectorLaws]). *)

From Stdlib Require Import ZArith Lia.
From stdpp Require Import base numbers strings gmap sets list.
From S2P Require Import Prelude.
From S2P Require Import EgressCodec.
From S2P Require Import Egress.
From S2P Require Import EgressSpec.

Open Scope Z_scope.

(** ** Addresses *)

Inductive SocketAddr :=
  | V4 (ip : list Z) (port : Z)
  | V6 (ip : list Z) (port flowinfo scope_id : Z).

Definition AF_INET : Z := 2.
Definition AF_INET6 : Z := 10.

Definition addr_family (a : SocketAddr) : Z :=
  match a with V4 _ _ => AF_INET | V6 _ _ _ _ => AF_INET6 end.

(** [to_sockaddr]: the [sockaddr_storage] (128 bytes, zeroed) with the fields of
    [sockaddr_in] or [sockaddr_in6] written over it, and that struct's size.
    The port is in network byte order, the addresses are octets, the other
    fields are native (little-endian) integers. *)
Definition to_sockaddr (addr : SocketAddr) : list Z * nat :=
  match addr with
  | V4 ip port =>
      let sin := le_bytes 2 AF_INET ++ rev (le_bytes 2 port) ++ ip in
      (sin ++ replicate (128 - length sin) 0, 16%nat)
  | V6 ip port flowinfo scope_id =>
      let sin6 := le_bytes 2 AF_INET6 ++ rev (le_bytes 2 port) ++ le_bytes 4 flowinfo ++ ip
                  ++ le_bytes 4 scope_id in
      (sin6 ++ replicate (128 - length sin6) 0, 28%nat)
  end.

(** ** The host *)

Definition EAGAIN : Z := 11.
Definition ECONNREFUSED : Z := 111.
Definition EINPROGRESS : Z := 115.
Definition EPOLL_CTL_ADD : Z := 1.
Definition EPOLL_CTL_DEL : Z := 2.
Definition EPOLL_CTL_MOD : Z := 3.

(** The calls into libc and the standard library's resolver.  An error is an
    errno.  [os_poll fd] is [poll] for [POLLOUT] with no timeout.
    [worker_turns] is the scheduler: how many steps the resolver thread makes
    before the next step of this one. *)
Class SocketOs (O : Type) := {
  to_socket_addrs : list Z -> Z -> O -> result Z (list SocketAddr) * O;
  worker_turns : O -> nat * O;
  os_eventfd : O -> result Z Z * O;
  os_dup : Z -> O -> result Z Z * O;
  os_spawn : O -> result Z unit * O;
  os_socket : Z -> O -> result Z Z * O;
  os_connect : Z -> list Z -> O -> result Z unit * O;
  os_poll : Z -> O -> Z * O;
  os_so_error : Z -> O -> result Z Z * O;
  os_read : Z -> list Z -> O -> result Z nat * list Z * O;
  os_write : Z -> list Z -> O -> result Z nat * O;
  os_shutdown_write : Z -> O -> O;
  os_close : Z -> O -> O;
  os_epoll_ctl : Z -> Z -> Z -> O -> result Z unit * O;
}.

(** ** The state *)

Record ResolveJob := { job_stream : Z; job_host : list Z; job_port : Z }.

(** Where the resolver thread is in its loop.  [unsent]: the answer a failed
    [send] gave back, kept as history. *)
Inductive Worker :=
  | Receiving
  | Looking (job : ResolveJob)
  | Posting (r : Resolved SocketAddr)
  | Pulsing
  | Exited (unsent : option (Resolved SocketAddr)).

(** What the two threads share: the request channel and whether its sender
    exists, the answer channel and whether its receiver exists, the counter of
    the eventfd, the thread and its descriptor of the eventfd. *)
Record Resolver := {
  jobs : list ResolveJob;
  jobs_open : bool;
  answers : list (Resolved SocketAddr);
  answers_open : bool;
  counter : Z;
  worker_at : Worker;
  event_worker : Z;
}.

#[export] Instance eta_Resolver : Settable Resolver := fun r =>
  Build_Resolver (jobs r) (jobs_open r) (answers r) (answers_open r) (counter r) (worker_at r)
    (event_worker r).

(** The struct.  The channel ends are those of the [Resolver]: [to_worker] is
    whether the sender is still held, [worker] whether the thread is still to
    be joined.  A socket is its descriptor. *)
Record RealConnector := {
  conns : gmap Z Z;
  to_worker : option unit;
  event : Z;
  worker : option unit;
  failed : list (Resolved SocketAddr);
}.

#[export] Instance eta_RealConnector : Settable RealConnector := fun r =>
  Build_RealConnector (conns r) (to_worker r) (event r) (worker r) (failed r).

(** The connector with the host it runs on.  [last_fd] is a history variable:
    the last socket closed of each stream, which nothing reads. *)
Record Host (O : Type) := {
  rc : RealConnector;
  resolver : Resolver;
  os : O;
  last_fd : gmap Z Z;
}.
Arguments Build_Host {O}.
Arguments rc {O}.
Arguments resolver {O}.
Arguments os {O}.
Arguments last_fd {O}.

#[export] Instance eta_Host O : Settable (Host O) := fun r =>
  Build_Host (rc r) (resolver r) (os r) (last_fd r).

Definition EVENTFD_MAX : Z := 2 ^ 64 - 2.

(** A write of [one] to a non-blocking eventfd: it fails with [EAGAIN] when the
    counter is full, and a read gives the counter and clears it, or fails with
    [EAGAIN] when it is zero. *)
Definition eventfd_write (one n : Z) : Z := if n + one <=? EVENTFD_MAX then n + one else n.
Definition eventfd_read (n : Z) : option Z * Z := if n =? 0 then (None, 0) else (Some n, 0).

Section connector.
Context {Sys : Type} `{SocketOs Sys}.

Abbreviation HC := (Host Sys).

Definition set_rc (f : RealConnector -> RealConnector) (h : HC) : HC := h <| rc := f (rc h) |>.
Definition set_resolver (f : Resolver -> Resolver) (h : HC) : HC := h <| resolver := f (resolver h) |>.

(** ** The resolver thread

    [resolver_loop], one step at a time: [recv] blocks on an empty channel and
    fails when the sender is gone too; the first address found is the answer;
    [send] fails when the receiver is gone.  The end of the thread drops what
    its closure owns, the descriptor of the eventfd among it. *)
Definition worker_exit (unsent : option (Resolved SocketAddr)) (h : HC) : HC :=
  set_resolver (fun s => s <| worker_at := Exited unsent |>)
    (h <| os := os_close (event_worker (resolver h)) (os h) |>).

Definition resolver_step (h : HC) : HC :=
  let s := resolver h in
  match worker_at s with
  | Receiving =>
      match jobs s with
      | job :: rest => h <| resolver := s <| jobs := rest |> <| worker_at := Looking job |> |>
      | [] => if jobs_open s then h else worker_exit None h
      end
  | Looking job =>
      let '(r, o) := to_socket_addrs (job_host job) (job_port job) (os h) in
      let addr := match r with Ok (a :: _) => Some a | _ => None end in
      h <| os := o |>
        <| resolver := s <| worker_at := Posting {| resolved_stream := job_stream job; resolved_addr := addr |} |> |>
  | Posting r =>
      if answers_open s
      then h <| resolver := s <| answers := answers s ++ [r] |> <| worker_at := Pulsing |> |>
      else worker_exit (Some r) h
  | Pulsing =>
      h <| resolver := s <| counter := eventfd_write 1 (counter s) |> <| worker_at := Receiving |> |>
  | Exited _ => h
  end.

Fixpoint resolver_steps (n : nat) (h : HC) : HC :=
  match n with
  | O => h
  | S n => resolver_steps n (resolver_step h)
  end.

(** What may happen between two steps of the connector's thread. *)
Definition interleave (h : HC) : HC :=
  let '(n, o) := worker_turns (os h) in resolver_steps n (h <| os := o |>).

(** ** Resolutions *)

(** [Sender::send] fails when the receiver is gone, that is when the thread has
    ended. *)
Definition send_job (job : ResolveJob) (h : HC) : bool * HC :=
  match worker_at (resolver h) with
  | Exited _ => (false, h)
  | _ => (true, set_resolver (fun s => s <| jobs := jobs s ++ [job] |>) h)
  end.

Definition real_start_resolve (stream : Z) (host : list Z) (port : Z) (h : HC) : HC :=
  let h := interleave h in
  let '(sent, h) :=
    match to_worker (rc h) with
    | Some _ => send_job {| job_stream := stream; job_host := host; job_port := port |} h
    | None => (false, h)
    end in
  if sent then h
  else set_rc (fun c => c <| failed := failed c ++ [{| resolved_stream := stream; resolved_addr := None |}] |>) h.

(** The resolutions the thread still has to answer, and those on the way back. *)
Definition in_hand (w : Worker) : list Z :=
  match w with
  | Looking job => [job_stream job]
  | Posting r => [resolved_stream r]
  | Exited (Some r) => [resolved_stream r]
  | _ => []
  end.

Definition asked (s : Resolver) : list Z := in_hand (worker_at s) ++ (job_stream <$> jobs s).

Definition in_flight (s : Resolver) : list Z := (resolved_stream <$> answers s) ++ asked s.

(** The [try_recv] loop.  Nothing is asked meanwhile, so each turn that goes on
    takes one of the resolutions in flight. *)
Fixpoint recv_all (fuel : nat) (out : list (Resolved SocketAddr)) (h : HC)
    : list (Resolved SocketAddr) * HC :=
  match fuel with
  | O => (out, h)
  | S fuel =>
      let h := interleave h in
      match answers (resolver h) with
      | r :: rest => recv_all fuel (out ++ [r]) (set_resolver (fun s => s <| answers := rest |>) h)
      | [] => (out, h)
      end
  end.

Definition clear_event (h : HC) : HC :=
  set_resolver (fun s => s <| counter := (eventfd_read (counter s)).2 |>) (interleave h).

Definition real_take_resolved (h : HC) : list (Resolved SocketAddr) * HC :=
  let h := clear_event h in
  let out := failed (rc h) in
  let h := set_rc (fun c => c <| failed := [] |>) h in
  recv_all (S (length (in_flight (resolver h)))) out h.

(** ** Sockets *)

Definition close_fd (fd : Z) (h : HC) : HC := h <| os := os_close fd (os h) |>.

(** A socket replaced in the table is dropped, which closes it. *)
Definition insert_conn (stream fd : Z) (h : HC) : HC :=
  let h' := set_rc (fun c => c <| conns := <[stream := fd]> (conns c) |>) h in
  match conns (rc h) !! stream with
  | Some old => close_fd old h'
  | None => h'
  end.

Definition real_start_connect (stream : Z) (addr : SocketAddr) (h : HC) : result Z unit * HC :=
  let '(r, o) := os_socket (addr_family addr) (os h) in
  let h := h <| os := o |> in
  match r with
  | Err e => (Err e, h)
  | Ok fd =>
      let '(sa, len) := to_sockaddr addr in
      let '(rc, o) := os_connect fd (take len sa) (os h) in
      let h := h <| os := o |> in
      match rc with
      | Err e => if negb (e =? EINPROGRESS) then (Err e, close_fd fd h) else (Ok tt, insert_conn stream fd h)
      | Ok _ => (Ok tt, insert_conn stream fd h)
      end
  end.

Definition real_poll_connect (stream : Z) (h : HC) : ConnectPoll * HC :=
  match conns (rc h) !! stream with
  | None => (Failed Unreachable, h)
  | Some fd =>
      let '(n, o) := os_poll fd (os h) in
      let h := h <| os := o |> in
      if n <=? 0 then (Pending, h)
      else
        let '(r, o) := os_so_error fd (os h) in
        let h := h <| os := o |> in
        match r with
        | Err _ => (Failed Unreachable, h)
        | Ok err =>
            if err =? 0 then (Connected, h)
            else if err =? ECONNREFUSED then (Failed ConnectRefused, h)
            else (Failed Unreachable, h)
        end
  end.

(** [io::ErrorKind::WouldBlock] is [EAGAIN]. *)
Definition would_block (r : result Z nat) : result Z (option nat) :=
  match r with
  | Ok n => Ok (Some n)
  | Err e => if e =? EAGAIN then Ok None else Err e
  end.

Definition real_read (stream : Z) (buf : list Z) (h : HC) : result Z (option nat) * list Z * HC :=
  match conns (rc h) !! stream with
  | Some fd => let '(r, filled, o) := os_read fd buf (os h) in (would_block r, filled, h <| os := o |>)
  | None => (Ok (Some 0%nat), buf, h)
  end.

Definition real_write (stream : Z) (data : list Z) (h : HC) : result Z (option nat) * HC :=
  match conns (rc h) !! stream with
  | Some fd => let '(r, o) := os_write fd data (os h) in (would_block r, h <| os := o |>)
  | None => (Ok None, h)
  end.

Definition real_shutdown_write (stream : Z) (h : HC) : HC :=
  match conns (rc h) !! stream with
  | Some fd => h <| os := os_shutdown_write fd (os h) |>
  | None => h
  end.

(** The entry removed is dropped. *)
Definition real_close (stream : Z) (h : HC) : HC :=
  match conns (rc h) !! stream with
  | Some fd =>
      close_fd fd (set_rc (fun c => c <| conns := delete stream (conns c) |>) h)
        <| last_fd := <[stream := fd]> (last_fd h) |>
  | None => h
  end.

#[export] Instance real_connector : EgressConnector SocketAddr HC := {|
  start_resolve := real_start_resolve;
  take_resolved := real_take_resolved;
  start_connect := real_start_connect;
  poll_connect := real_poll_connect;
  sock_read := real_read;
  sock_write := real_write;
  shutdown_write := real_shutdown_write;
  sock_close := real_close;
  stream_fd stream h := conns (rc h) !! stream;
  resolver_fd h := Some (event (rc h));
|}.

(** [epoll_ctl] and its three uses; the result of a removal is ignored. *)
Definition epoll_ctl (op fd events : Z) (h : HC) : result Z unit * HC :=
  let '(r, o) := os_epoll_ctl op fd events (os h) in (r, h <| os := o |>).

#[export] Instance real_epoll : Epoll HC := {|
  epoll_add := epoll_ctl EPOLL_CTL_ADD;
  epoll_mod := epoll_ctl EPOLL_CTL_MOD;
  epoll_del fd h := (epoll_ctl EPOLL_CTL_DEL fd 0 h).2;
|}.

(** ** Birth and death *)

(** [RealConnector::new], from the host's state.  On the way out the
    descriptors already made are dropped, the worker's too when the thread
    could not be spawned (its closure is). *)
Definition real_new (o : Sys) : result Z HC * Sys :=
  let '(raw, o) := os_eventfd o in
  match raw with
  | Err e => (Err e, o)
  | Ok ev =>
      let '(dup, o) := os_dup ev o in
      match dup with
      | Err e => (Err e, os_close ev o)
      | Ok evw =>
          let '(spawned, o) := os_spawn o in
          match spawned with
          | Err e => (Err e, os_close ev (os_close evw o))
          | Ok _ =>
              (Ok {| rc := {| conns := ∅; to_worker := Some tt; event := ev; worker := Some tt; failed := [] |};
                     resolver := {| jobs := []; jobs_open := true; answers := []; answers_open := true;
                                    counter := 0; worker_at := Receiving; event_worker := evw |};
                     os := o; last_fd := ∅ |}, o)
          end
      end
  end.

(** [join] waits for the thread.  It needs at most four steps for every
    resolution queued, those of the one in hand, and one to see the end. *)
Definition worker_left (w : Worker) : nat :=
  match w with Exited _ => 0 | Receiving => 1 | Pulsing => 2 | Posting _ => 3 | Looking _ => 4 end.

Definition work (s : Resolver) : nat :=
  match worker_at s with
  | Exited _ => 0
  | w => worker_left w + 4 * length (jobs s)
  end.

Definition join (h : HC) : HC := resolver_steps (work (resolver h)) h.

(** [Drop::drop], then the fields in their order. *)
Definition real_drop (h : HC) : HC :=
  let h := set_rc (fun c => c <| to_worker := None |>) h in
  let h := set_resolver (fun s => s <| jobs_open := false |>) h in
  let h := match worker (rc h) with
           | Some _ => join (set_rc (fun c => c <| worker := None |>) h)
           | None => h
           end in
  let h := set_rc (fun c => c <| conns := ∅ |>) (foldr close_fd h ((map_to_list (conns (rc h))).*2)) in
  let h := set_resolver (fun s => s <| answers_open := false |>) h in
  set_rc (fun c => c <| failed := [] |>) (close_fd (event (rc h)) h).
End connector.

(** ** What the host promises

    [open_fds]: the descriptors of the process; [fd_unread fd]: what the peer
    of a socket sends from here on; [fd_written fd]: what it got so far.  The
    last two are kept when the descriptor is closed, until its number is used
    again.  [fd_dry], [fd_full]: a read, or a write, of the non-blocking socket
    would block now, and so fails with [EAGAIN]; [fd_broken]: the socket is in
    error, which is what any other errno says. *)
Class OsGhost (O : Type) := {
  open_fds : O -> gset Z;
  fd_unread : Z -> O -> list Z;
  fd_written : Z -> O -> list Z;
  fd_dry : Z -> O -> Prop;
  fd_full : Z -> O -> Prop;
  fd_broken : Z -> O -> Prop;
}.

(** A call that moves no byte, and one that leaves the descriptors alone too. *)
Definition moves_nothing `{OsGhost Sys} (o o' : Sys) : Prop :=
  (forall fd, fd_unread fd o' = fd_unread fd o) /\ (forall fd, fd_written fd o' = fd_written fd o).
Definition os_still `{OsGhost Sys} (o o' : Sys) : Prop := open_fds o' = open_fds o /\ moves_nothing o o'.

(** A call that makes a descriptor uses a free number. *)
Definition makes_fd `{OsGhost Sys} (r : result Z Z) (o o' : Sys) : Prop :=
  match r with
  | Ok fd => ~ (fd ∈ open_fds o) /\ open_fds o' = {[fd]} ∪ open_fds o
  | Err _ => open_fds o' = open_fds o
  end.

Class SocketLaws (O : Type) `{SocketOs O, OsGhost O} := {
  to_socket_addrs_law host port o r o' : to_socket_addrs host port o = (r, o') -> os_still o o';
  worker_turns_law o n o' : worker_turns o = (n, o') -> os_still o o';
  os_eventfd_law o r o' : os_eventfd o = (r, o') -> makes_fd r o o';
  os_dup_law fd o r o' : os_dup fd o = (r, o') -> makes_fd r o o';
  os_spawn_law o r o' : os_spawn o = (r, o') -> open_fds o' = open_fds o;
  os_socket_law family o r o' : os_socket family o = (r, o') -> makes_fd r o o';
  os_connect_law fd sa o r o' : os_connect fd sa o = (r, o') -> open_fds o' = open_fds o;
  os_poll_law fd o n o' : os_poll fd o = (n, o') -> os_still o o';
  os_so_error_law fd o r o' : os_so_error fd o = (r, o') -> os_still o o';
  os_read_law fd buf o r filled o' : os_read fd buf o = (r, filled, o') ->
    open_fds o' = open_fds o /\ fd_written fd o' = fd_written fd o /\ length filled = length buf
    /\ (bytes_ok buf -> bytes_ok filled)
    /\ match r with
       | Ok n => (n <= length buf)%nat /\ fd_unread fd o = take n filled ++ fd_unread fd o'
                 /\ (n = 0%nat -> buf <> [] -> fd_unread fd o = [])
       | Err e => fd_unread fd o' = fd_unread fd o
                  /\ (if e =? EAGAIN then fd_dry fd o else fd_broken fd o)
       end
    /\ (fd_dry fd o -> buf <> [] -> r = Err EAGAIN);
  os_write_law fd data o r o' : os_write fd data o = (r, o') ->
    open_fds o' = open_fds o /\ fd_unread fd o' = fd_unread fd o
    /\ match r with
       | Ok n => (n <= length data)%nat /\ fd_written fd o' = fd_written fd o ++ take n data
       | Err e => fd_written fd o' = fd_written fd o
                  /\ (if e =? EAGAIN then fd_full fd o else fd_broken fd o)
       end
    /\ (fd_full fd o -> data <> [] -> r = Err EAGAIN);
  os_shutdown_law fd o : os_still o (os_shutdown_write fd o);
  os_close_law fd o : open_fds (os_close fd o) = open_fds o ∖ {[fd]} /\ moves_nothing o (os_close fd o);
  os_epoll_ctl_law op fd events o r o' : os_epoll_ctl op fd events o = (r, o') -> os_still o o';
}.

(** The ghost state of the connector, read off its own and the host's; a
    stream without a socket takes nothing. *)
#[export] Instance real_ghost `{OsGhost Sys} : Ghost (Host Sys) := {|
  live h := dom (conns (rc h));
  unanswered h := (resolved_stream <$> failed (rc h)) ++ in_flight (resolver h);
  unread id h := match conns (rc h) !! id with Some fd => fd_unread fd (os h) | None => [] end;
  written id h :=
    match conns (rc h) !! id with
    | Some fd => fd_written fd (os h)
    | None => match last_fd h !! id with Some fd => fd_written fd (os h) | None => [] end
    end;
  dry id h := exists fd, conns (rc h) !! id = Some fd /\ fd_dry fd (os h);
  full id h := match conns (rc h) !! id with Some fd => fd_full fd (os h) | None => True end;
  broken id h := exists fd, conns (rc h) !! id = Some fd /\ fd_broken fd (os h);
|}.

(** Ltac for the two-field updates of a [Host]. *)
Ltac host := unfold set_rc, set_resolver, close_fd; cbn [rc resolver os last_fd set_field conns to_worker event
  worker failed jobs jobs_open answers answers_open counter worker_at event_worker fst snd].

(** ** The connector implements the interface *)

Section laws.
Context `{SocketLaws Sys}.
Abbreviation HC := (Host Sys).

#[local] Instance moves_nothing_po : PreOrder (moves_nothing (Sys := Sys)).
Proof.
  split; [by split|]. intros x y z [E1 E2] [F1 F2]. split; intros; [by rewrite F1|by rewrite F2].
Qed.

(** A change of the host that moves no byte, and keeps the rest. *)
Lemma quiet_os (h : HC) o : moves_nothing (os h) o -> quiet h (h <| os := o |>).
Proof.
  intros [Hu Hw]. split_and!; [done|done| |]; intros id; cbn; repeat case_match; rewrite ?Hu, ?Hw; done.
Qed.

(** What the resolver thread never touches. *)
Definition same_main (h h' : HC) : Prop :=
  rc h' = rc h /\ last_fd h' = last_fd h /\ moves_nothing (os h) (os h').

#[local] Instance same_main_po : PreOrder same_main.
Proof.
  split; [intros x; split_and!; [done..|reflexivity]|]. intros x y z (E1 & E2 & E3) (F1 & F2 & F3).
  split_and!; [congruence..|by etrans].
Qed.

(** A step of the thread loses no resolution and does not reorder them. *)
Lemma resolver_step_frame (h : HC) :
  same_main h (resolver_step h) /\ in_flight (resolver (resolver_step h)) = in_flight (resolver h).
Proof.
  unfold resolver_step, in_flight, asked, worker_exit. destruct (worker_at (resolver h)) as [|job|r| |] eqn:Ew.
  - destruct (jobs (resolver h)) as [|j js] eqn:Ej; [destruct (jobs_open (resolver h))|];
      host; rewrite ?Ew, ?Ej; split; try done.
    split_and!; [done..|]. apply os_close_law.
  - destruct (to_socket_addrs _ _ _) as [r o] eqn:E. host. split; [|done].
    split_and!; [done..|]. by eapply to_socket_addrs_law.
  - destruct (answers_open (resolver h)); host; split; try done.
    + by rewrite fmap_app, <- app_assoc.
    + split_and!; [done..|]. apply os_close_law.
  - by host.
  - by rewrite Ew.
Qed.

Lemma resolver_steps_frame n : forall h : HC,
  same_main h (resolver_steps n h) /\ in_flight (resolver (resolver_steps n h)) = in_flight (resolver h).
Proof.
  induction n as [|n IH]; intros h; [done|]. cbn [resolver_steps].
  destruct (resolver_step_frame h) as [Hm He], (IH (resolver_step h)) as [Hm' He'].
  split; [by etrans|congruence].
Qed.

Lemma interleave_frame (h : HC) :
  same_main h (interleave h) /\ in_flight (resolver (interleave h)) = in_flight (resolver h).
Proof.
  unfold interleave. destruct (worker_turns (os h)) as [n o] eqn:E.
  destruct (resolver_steps_frame n (h <| os := o |>)) as [Hm He]. split; [|done].
  etrans; [|exact Hm]. split_and!; [done..|]. by eapply worker_turns_law.
Qed.

Lemma same_main_quiet (h h' : HC) : same_main h h' -> in_flight (resolver h') = in_flight (resolver h) -> quiet h h'.
Proof.
  intros (Er & El & Hu & Hw) Ef.
  split_and!; [|..|intros id|intros id]; cbn; rewrite ?Er, ?El, ?Ef; try done; repeat case_match; rewrite ?Hu, ?Hw; done.
Qed.

(** The [try_recv] loop: it takes the answers there are and ends with none,
    the fuel it is given being enough. *)
Lemma recv_all_spec fuel : forall out (h : HC) rs h', recv_all fuel out h = (rs, h') ->
  (length (in_flight (resolver h)) < fuel)%nat ->
  same_main h h' /\ answers (resolver h') = []
  /\ exists got, rs = out ++ got /\ in_flight (resolver h) = (resolved_stream <$> got) ++ in_flight (resolver h').
Proof.
  induction fuel as [|fuel IH]; intros out h rs h' E Hf; [lia|]. cbn [recv_all] in E.
  destruct (interleave_frame h) as [Hm He]. rewrite <- He in *.
  destruct (answers (resolver (interleave h))) as [|r rest] eqn:Ea.
  - injection E as <- <-. split_and!; [apply Hm..|done|]. exists []. by rewrite app_nil_r.
  - apply IH in E as (Hm' & Ha & got & -> & Hg).
    + split; [etrans; [exact Hm|exact Hm']|]. split; [done|]. exists (r :: got).
      rewrite <- app_assoc. split; [done|]. rewrite fmap_cons. cbn. rewrite <- Hg.
      unfold in_flight, asked at 1. rewrite Ea. by host.
    + revert Hf. unfold in_flight, asked. rewrite Ea. host. cbn. lia.
Qed.

Lemma take_resolved_spec (h : HC) rs h' : real_take_resolved h = (rs, h') ->
  rc h' = (rc h) <| failed := [] |> /\ last_fd h' = last_fd h /\ moves_nothing (os h) (os h')
  /\ answers (resolver h') = []
  /\ unanswered h = (resolved_stream <$> rs) ++ unanswered h'.
Proof.
  unfold real_take_resolved, clear_event. intros E.
  destruct (interleave_frame h) as [(Er & El & Hb) He].
  apply recv_all_spec in E as ((Er' & El' & Hb') & Ha & got & -> & Hg); [|lia].
  revert Er' El' Hb' Hg. host. rewrite Er, El. intros Er' El' Hb' Hg.
  split_and!; [done|done|by etrans|done|].
  cbn [unanswered real_ghost]. rewrite fmap_app, <- app_assoc, Er'. host. f_equal. by rewrite <- He.
Qed.

(** [start_resolve]: the job is queued, or its failure is. *)
Lemma start_resolve_spec id host port (h : HC) :
  dom (conns (rc (real_start_resolve id host port h))) = dom (conns (rc h))
  /\ unanswered (real_start_resolve id host port h) ≡ₚ id :: unanswered h.
Proof.
  unfold real_start_resolve, send_job. destruct (interleave_frame h) as [(Er & _) He].
  assert (Hfail : unanswered (set_rc (fun c => c <| failed := failed c
      ++ [{| resolved_stream := id; resolved_addr := None |}] |>) (interleave h)) ≡ₚ id :: unanswered h).
  { cbn [unanswered real_ghost]. host. rewrite Er, He, fmap_app, <- app_assoc. cbn. by rewrite Permutation_middle. }
  assert (Hsent : unanswered (set_resolver (fun s => s <| jobs := jobs s
      ++ [{| job_stream := id; job_host := host; job_port := port |}] |>) (interleave h)) ≡ₚ id :: unanswered h).
  { cbn [unanswered real_ghost]. rewrite <- He. unfold in_flight, asked. host. rewrite Er, fmap_app.
    rewrite !app_assoc. cbn. by rewrite <- Permutation_cons_append. }
  destruct (to_worker _); [destruct (worker_at _)|]; (split; [host; by rewrite Er|exact Hfail || exact Hsent]).
Qed.

(** A socket enters the table, the one it replaces is closed. *)
Lemma insert_conn_ids id fd (h : HC) :
  dom (conns (rc (insert_conn id fd h))) = {[id]} ∪ dom (conns (rc h))
  /\ unanswered (insert_conn id fd h) = unanswered h.
Proof. unfold insert_conn. destruct (conns (rc h) !! id); host; by rewrite dom_insert_L. Qed.

Lemma start_connect_spec id a (h : HC) r h' : real_start_connect id a h = (r, h') ->
  unanswered h' = unanswered h /\ live h' = (if is_Ok r then {[id]} ∪ live h else live h).
Proof.
  unfold real_start_connect. destruct (os_socket _ _) as [[fd|e] o]; [|by intros [= <- <-]].
  destruct (to_sockaddr a) as [sa len]. host. destruct (os_connect _ _ _) as [[[]|e] o'].
  - intros [= <- <-]. edestruct insert_conn_ids as [El Eu]. split; [exact Eu|]. cbn [live real_ghost is_Ok]. by rewrite El.
  - destruct (negb _); intros [= <- <-]; [done|].
    edestruct insert_conn_ids as [El Eu]. split; [exact Eu|]. cbn [live real_ghost is_Ok]. by rewrite El.
Qed.

Lemma poll_connect_spec id (h : HC) p h' : real_poll_connect id h = (p, h') ->
  quiet h h' /\ forall r, p = Failed r -> reason_from_code (reason_code r) = r /\ fits 8 (reason_code r).
Proof.
  unfold real_poll_connect. destruct (conns (rc h) !! id) as [fd|]; [|intros [= <- <-]; split; [done|by intros r [= <-]]].
  destruct (os_poll fd (os h)) as [n o] eqn:Ep. apply os_poll_law in Ep as [_ Ep].
  destruct (n <=? 0); [intros [= <- <-]; split; [by apply quiet_os|done]|].
  host. destruct (os_so_error fd o) as [r o'] eqn:Ee. apply os_so_error_law in Ee as [_ Ee].
  assert (Hq : quiet h (h <| os := o |> <| os := o' |>)) by (apply (quiet_os h o'); by etrans).
  destruct r as [err|]; [destruct (err =? 0); [|destruct (err =? ECONNREFUSED)]|];
    intros [= <- <-]; (split; [exact Hq|by intros r [= <-]]).
Qed.

Lemma read_spec id buf (h : HC) r filled h' : real_read id buf h = (r, filled, h') -> bytes_ok buf ->
  live h' = live h /\ unanswered h' = unanswered h /\ length filled = length buf /\ bytes_ok filled
  /\ written id h' = written id h
  /\ match r with
     | Ok (Some n) => (n <= length buf)%nat /\ unread id h = take n filled ++ unread id h'
                      /\ (n = 0%nat -> buf <> [] -> unread id h = [])
     | Ok None => unread id h' = unread id h /\ dry id h
     | Err _ => unread id h' = unread id h /\ broken id h
     end
  /\ (dry id h -> buf <> [] -> r = Ok None).
Proof.
  unfold real_read. intros E Hb. cbn [live unanswered unread written dry broken real_ghost].
  destruct (conns (rc h) !! id) as [fd|] eqn:Ec;
    [|injection E as <- <- <-; rewrite Ec; split_and!; try (done || lia); by intros (? & ? & _)].
  destruct (os_read fd buf (os h)) as [[r' filled'] o] eqn:Er. injection E as <- <- <-.
  apply os_read_law in Er as (_ & Hw & Hl & Hb' & Hr & Hd). host. rewrite Ec.
  split_and!; [done|done|done|by apply Hb'|done| |].
  - destruct r' as [n|e]; [done|]. cbn [would_block]. destruct Hr as [Hu He].
    destruct (e =? EAGAIN); (split; [done|by exists fd]).
  - intros (fd' & [= <-] & Hdry) Hne. by rewrite (Hd Hdry Hne).
Qed.

Lemma write_spec id data (h : HC) r h' : real_write id data h = (r, h') ->
  live h' = live h /\ unanswered h' = unanswered h /\ unread id h' = unread id h
  /\ match r with
     | Ok (Some n) => (n <= length data)%nat /\ written id h' = written id h ++ take n data
     | Ok None => written id h' = written id h /\ full id h
     | Err _ => written id h' = written id h /\ broken id h
     end
  /\ (full id h -> data <> [] -> r = Ok None).
Proof.
  unfold real_write. intros E. cbn [live unanswered unread written full broken real_ghost].
  destruct (conns (rc h) !! id) as [fd|] eqn:Ec; [|injection E as <- <-; rewrite Ec; by split_and!].
  destruct (os_write fd data (os h)) as [r' o] eqn:Ew. injection E as <- <-.
  apply os_write_law in Ew as (_ & Hu & Hr & Hf). host. rewrite Ec.
  split_and!; [done|done|done| |].
  - destruct r' as [n|e]; [done|]. cbn [would_block]. destruct Hr as [Hw He].
    destruct (e =? EAGAIN); (split; [done|done || by exists fd]).
  - intros Hfull Hne. by rewrite (Hf Hfull Hne).
Qed.

Lemma shutdown_spec id (h : HC) : quiet h (real_shutdown_write id h).
Proof. unfold real_shutdown_write. case_match; [apply quiet_os, os_shutdown_law|done]. Qed.

Lemma close_spec id (h : HC) :
  live (real_close id h) = live h ∖ {[id]} /\ unanswered (real_close id h) = unanswered h
  /\ (forall i, unread i (real_close id h) = if decide (i = id) then [] else unread i h)
  /\ (forall i, written i (real_close id h) = written i h).
Proof.
  unfold real_close. destruct (conns (rc h) !! id) as [fd|] eqn:Ec.
  - destruct (os_close_law fd (os h)) as [_ [Hu Hw]]. cbn [live unanswered unread written real_ghost]. host.
    rewrite dom_delete_L. split_and!; [done|done|intros i|intros i].
    + case_decide; [subst; by rewrite lookup_delete_eq|]. rewrite lookup_delete_ne by done. case_match; [apply Hu|done].
    + destruct (decide (i = id)) as [->|].
      * rewrite lookup_delete_eq, lookup_insert_eq, Ec. apply Hw.
      * rewrite lookup_delete_ne, lookup_insert_ne by done. repeat case_match; rewrite ?Hw; done.
  - split_and!; [|done|intros i|done].
    + cbn [live real_ghost]. apply not_elem_of_dom in Ec. set_solver.
    + case_decide; [|done]. subst. cbn [unread real_ghost]. by rewrite Ec.
Qed.

Lemma epoll_spec op fd m (h : HC) r h' : epoll_ctl op fd m h = (r, h') -> quiet h h'.
Proof.
  unfold epoll_ctl. destruct (os_epoll_ctl op fd m (os h)) as [r' o] eqn:E. intros [= <- <-].
  apply quiet_os. by eapply os_epoll_ctl_law.
Qed.

(** Every promise of the interface, assembled. *)
#[export] Instance real_laws : ConnectorLaws SocketAddr HC.
Proof.
  split.
  - exact start_resolve_spec.
  - intros h rs h' E. apply take_resolved_spec in E as (Er & _ & _ & _ & Eu). rewrite Eu.
    split; [|done]. cbn [live real_ghost]. by rewrite Er.
  - exact start_connect_spec.
  - exact poll_connect_spec.
  - exact read_spec.
  - exact write_spec.
  - exact shutdown_spec.
  - exact close_spec.
  - intros fd m h r h'. apply epoll_spec.
  - intros fd m h r h'. apply epoll_spec.
  - intros fd h. cbn. destruct (epoll_ctl _ _ _ _) as [r h'] eqn:E. by eapply epoll_spec.
Qed.
End laws.
