(* ===== verification/ConnectorSpec.v ===== *)
(** * The real connector: the resolver thread, the descriptors, the backend on it

    The reachable states of [Connector] under any interleaving with its thread,
    and what holds of them: no answer is without a wakeup, every resolution is
    answered once, every descriptor is accounted for and closed.  Then the
    backend of [Egress] on any connector: its resolutions in flight are exactly
    the connector's, so on this one no stream waits for ever. *)

From Stdlib Require Import ZArith Lia.
From stdpp Require Import base numbers strings gmap sets sorting list.
From S2P Require Import Prelude.
From S2P Require Import EgressCodec.
From S2P Require Import Egress.
From S2P Require Import EgressSpec.
From S2P Require Import EgressWaits.
From S2P Require Import Connector.

Open Scope Z_scope.

(** ** A concrete host

    Descriptors are the least free numbers; every name resolves to the
    loopback address; a socket delivers what [toy_feed] has for its number and
    takes eight bytes in all; the thread makes [toy_turns] steps at each
    opportunity. *)

Record ToyOs := { toy_fds : gset Z; toy_turns : nat; toy_feed : gmap Z (list Z); toy_sent : gmap Z (list Z) }.

#[export] Instance eta_ToyOs : Settable ToyOs := fun r =>
  Build_ToyOs (toy_fds r) (toy_turns r) (toy_feed r) (toy_sent r).

(** The least number from [n] on that is not in [X], which has [fuel] elements. *)
Fixpoint least_free (fuel : nat) (X : gset Z) (n : Z) : Z :=
  match fuel with
  | O => n
  | S fuel => if bool_decide (n ∈ X) then least_free fuel (X ∖ {[n]}) (n + 1) else n
  end.

Definition toy_open (o : ToyOs) : result Z Z * ToyOs :=
  let fd := least_free (size (toy_fds o)) (toy_fds o) 3 in (Ok fd, o <| toy_fds := {[fd]} ∪ toy_fds o |>).

Definition toy_bytes_of (fd : Z) (o : ToyOs) : list Z := as_u8 <$> default [] (toy_feed o !! fd).

#[export] Instance toy_os : SocketOs ToyOs := {|
  to_socket_addrs host port o := (if is_empty host then Err 22 else Ok [V4 [127; 0; 0; 1] port], o);
  worker_turns o := (toy_turns o, o);
  os_eventfd := toy_open;
  os_dup _ := toy_open;
  os_spawn o := (Ok tt, o);
  os_socket _ := toy_open;
  os_connect _ _ o := (Err EINPROGRESS, o);
  os_poll _ o := (1, o);
  os_so_error _ o := (Ok 0, o);
  os_read fd buf o :=
    let avail := toy_bytes_of fd o in
    let n := Nat.min (length buf) (length avail) in
    if is_empty avail then (Err EAGAIN, buf, o)
    else (Ok n, take n avail ++ drop n buf, o <| toy_feed := <[fd := drop n avail]> (toy_feed o) |>);
  os_write fd data o :=
    let sent := default [] (toy_sent o !! fd) in
    let n := Nat.min (length data) (8 - length sent) in
    if (8 <=? length sent)%nat then (Err EAGAIN, o)
    else (Ok n, o <| toy_sent := <[fd := sent ++ take n data]> (toy_sent o) |>);
  os_shutdown_write _ o := o;
  os_close fd o := o <| toy_fds := toy_fds o ∖ {[fd]} |>;
  os_epoll_ctl _ _ _ o := (Ok tt, o);
|}.

#[export] Instance toy_os_ghost : OsGhost ToyOs := {|
  open_fds := toy_fds; fd_unread := toy_bytes_of; fd_written fd o := default [] (toy_sent o !! fd);
  fd_dry fd o := toy_bytes_of fd o = []; fd_broken _ _ := False;
  fd_full fd o := (8 <= length (default [] (toy_sent o !! fd)))%nat |}.

Lemma least_free_notin fuel : forall X n, (size X <= fuel)%nat -> ~ (least_free fuel X n ∈ X) /\ n <= least_free fuel X n.
Proof.
  induction fuel as [|fuel IH]; intros X n Hs; cbn [least_free].
  - assert (X = ∅) as -> by (apply size_empty_inv in Hs || (apply leibniz_equiv, size_empty_inv; lia); done). set_solver.
  - case_bool_decide as Hn; [|by split].
    assert (size (X ∖ {[n]}) <= fuel)%nat as Hs'.
    { rewrite size_difference by set_solver. rewrite size_singleton. lia. }
    destruct (IH _ (n + 1) Hs') as [Hf Hle]. split; [|lia]. intros Hin. apply Hf. apply elem_of_difference.
    split; [done|]. rewrite elem_of_singleton. lia.
Qed.

Lemma toy_open_makes o r o' : toy_open o = (r, o') -> makes_fd r o o'.
Proof. intros [= <- <-]. split; [by apply least_free_notin|done]. Qed.

Lemma toy_still (o : ToyOs) : os_still o o.
Proof. by split. Qed.

#[export] Instance toy_os_laws : SocketLaws ToyOs.
Proof.
  split; try (by intros; simplify_eq/=; apply toy_still); try (by intros; simplify_eq/=).
  - exact toy_open_makes.
  - intros ?. exact toy_open_makes.
  - intros ?. exact toy_open_makes.
  - intros fd buf o r filled o'. cbn [os_read toy_os open_fds fd_written fd_unread fd_dry fd_broken toy_os_ghost].
    set (avail := toy_bytes_of fd o). assert (Ha : bytes_ok avail).
    { apply Forall_fmap, Forall_forall. intros. apply as_u8_fits. }
    destruct (is_empty avail) eqn:En.
    { intros [= <- <- <-]. change (EAGAIN =? EAGAIN) with true. split_and!; try done. by destruct avail. }
    intros [= <- <- <-]. split_and!; [done|done| | |lia| | |].
    + rewrite length_app, length_take, length_drop. lia.
    + intros Hb. apply Forall_app. split; [by apply Forall_take|by apply Forall_drop].
    + rewrite take_app_le by (rewrite length_take; lia). rewrite take_take, Nat.min_id.
      assert (forall l, toy_bytes_of fd (o <| toy_feed := <[fd := l]> (toy_feed o) |>) = as_u8 <$> l) as Hl.
      { intros l. unfold toy_bytes_of. cbn. by rewrite lookup_insert_eq. }
      setoid_rewrite Hl. unfold avail, toy_bytes_of. by rewrite <- fmap_drop, as_u8_fmap_idem, fmap_drop, take_drop.
    + intros Hz Hne. destruct buf, avail; done.
    + intros Hd. by rewrite Hd in En.
  - intros fd data o r o'. cbn [os_write toy_os open_fds fd_written fd_unread fd_full fd_broken toy_os_ghost].
    set (sent := default [] (toy_sent o !! fd)). destruct (8 <=? length sent)%nat eqn:E.
    + apply Nat.leb_le in E. intros [= <- <-]. change (EAGAIN =? EAGAIN) with true. by split_and!.
    + apply Nat.leb_gt in E. intros [= <- <-]. cbn [toy_fds toy_sent set_field].
      split_and!; [done|done|lia| |lia]. by rewrite lookup_insert_eq.
Qed.

(** ** The states the connector can be in *)

Section reach.
Context `{SocketLaws Sys}.
Abbreviation HC := (Host Sys).

(** A call of the interface, or a step of the thread at any moment. *)
Inductive connector_step : HC -> HC -> Prop :=
  | step_worker h : connector_step h (resolver_step h)
  | step_call h h' : call (A := SocketAddr) h h' -> connector_step h h'.

(** From [new], on a process that has the descriptors [F]. *)
Definition connector_reach (F : gset Z) (h : HC) : Prop :=
  exists o h0 o', open_fds o = F /\ real_new o = (Ok h0, o') /\ rtc connector_step h0 h.

(** ** Descriptors *)

(** Those the connector holds: its eventfd, the thread's, the sockets. *)
Definition worker_fds (s : Resolver) : list Z :=
  match worker_at s with Exited _ => [] | _ => [event_worker s] end.
Definition held (h : HC) : list Z :=
  worker_fds (resolver h) ++ event (rc h) :: (map_to_list (conns (rc h))).*2.

(** They are distinct, not the process's other ones [F], and with those all the
    descriptors there are. *)
Record ledger (F : gset Z) (l : list Z) (fds : gset Z) : Prop := {
  held_nodup : NoDup l;
  held_new fd : fd ∈ l -> fd ∉ F;
  held_all : fds = F ∪ list_to_set l;
}.

Lemma ledger_perm F l l' fds : l ≡ₚ l' -> ledger F l fds -> ledger F l' fds.
Proof.
  intros Hp [Hn Hf Ha]. split; [by rewrite <- Hp|intros fd; rewrite <- Hp; apply Hf|].
  by rewrite Ha, (list_to_set_perm_L _ _ Hp).
Qed.

(** A descriptor more, made by the host; one less, closed. *)
Lemma ledger_add F l fd (o o' : Sys) : makes_fd (Ok fd) o o' ->
  ledger F l (open_fds o) -> ledger F (fd :: l) (open_fds o').
Proof.
  intros [Hfresh Ho] [Hn Hf Ha]. rewrite Ha, elem_of_union, elem_of_list_to_set in Hfresh. split.
  - constructor; naive_solver.
  - intros fd'. rewrite elem_of_cons. naive_solver.
  - rewrite Ho, Ha. cbn. set_solver.
Qed.

Lemma ledger_remove F l fd o : ledger F (fd :: l) (open_fds o) -> ledger F l (open_fds (os_close fd o)).
Proof.
  intros [Hn Hf Ha]. apply NoDup_cons in Hn as [Hni Hn].
  assert (fd ∉ F) as HF by (apply Hf; left). split; [done|intros fd' Hin; apply Hf; by right|].
  rewrite (proj1 (os_close_law fd o)), Ha. cbn. set_solver.
Qed.

(** ** The running connector *)

Record running (F : gset Z) (h : HC) : Prop := {
  run_jobs_open : jobs_open (resolver h) = true;
  run_answers_open : answers_open (resolver h) = true;
  run_alive : match worker_at (resolver h) with Exited _ => False | _ => True end;
  run_sender : to_worker (rc h) = Some tt;
  run_thread : worker (rc h) = Some tt;
  run_failed : failed (rc h) = [];
  run_counter : 0 <= counter (resolver h) <= EVENTFD_MAX;
  run_ledger : ledger F (held h) (open_fds (os h));
}.

(** An answer that is waiting is announced, or about to be. *)
Definition announced (s : Resolver) : Prop := answers s <> [] -> 0 < counter s \/ worker_at s = Pulsing.

Lemma eventfd_write_one n : 0 <= n <= EVENTFD_MAX -> 0 < eventfd_write 1 n <= EVENTFD_MAX.
Proof. unfold eventfd_write, EVENTFD_MAX. intros. case_match; bool_prop; lia. Qed.

(** The thread of a running connector goes on, and leaves it running. *)
Lemma running_step F (h : HC) : running F h ->
  running F (resolver_step h) /\ (announced (resolver h) -> announced (resolver (resolver_step h))).
Proof.
  intros []. unfold resolver_step, announced. rewrite run_jobs_open0, run_answers_open0.
  destruct (worker_at (resolver h)) as [|job|r| |u] eqn:Ew; [| | | |done].
  - destruct (jobs (resolver h)) as [|j js] eqn:Ej; [split; [split; try done; by rewrite Ew|by rewrite Ew]|].
    split; [|host; intros Ha Hne; destruct (Ha Hne); [by left|done]]. split; try done; host.
    revert run_ledger0. unfold held, worker_fds. host. by rewrite Ew, ?Eo.
  - destruct (to_socket_addrs _ _ _) as [r o] eqn:E. apply to_socket_addrs_law in E as [Eo _].
    split; [|host; intros Ha Hne; destruct (Ha Hne); [by left|done]]. split; try done; host.
    revert run_ledger0. unfold held, worker_fds. host. by rewrite Ew, ?Eo.
  - split; [|host; by right]. split; try done; host.
    revert run_ledger0. unfold held, worker_fds. host. by rewrite Ew, ?Eo.
  - pose proof (eventfd_write_one _ run_counter0) as Hc.
    split; [|host; left; lia]. split; try done; host; [lia|].
    revert run_ledger0. unfold held, worker_fds. host. by rewrite Ew, ?Eo.
Qed.

Lemma running_steps F n : forall h : HC, running F h ->
  running F (resolver_steps n h) /\ (announced (resolver h) -> announced (resolver (resolver_steps n h))).
Proof.
  induction n as [|n IH]; intros h Hh; [done|]. cbn [resolver_steps].
  destruct (running_step F h Hh) as [Hs Ha], (IH _ Hs) as [Hs' Ha']. auto.
Qed.

Lemma running_fds F (h : HC) o : ledger F (held h) (open_fds o) -> running F h -> running F (h <| os := o |>).
Proof. intros Hl []. by split. Qed.

Lemma running_os F (h : HC) o : open_fds o = open_fds (os h) -> running F h -> running F (h <| os := o |>).
Proof. intros Eo Hh. apply running_fds; [|done]. rewrite Eo. by destruct Hh. Qed.

Lemma running_interleave F (h : HC) : running F h ->
  running F (interleave h) /\ (announced (resolver h) -> announced (resolver (interleave h))).
Proof.
  intros Hh. unfold interleave. destruct (worker_turns (os h)) as [n o] eqn:E.
  apply worker_turns_law in E as [Eo _].
  destruct (running_steps F n (h <| os := o |>) (running_os F h o Eo Hh)) as [Hr Ha]. split; [exact Hr|exact Ha].
Qed.

(** ** Each operation leaves it running *)

Definition keeps_running (F : gset Z) (h h' : HC) : Prop :=
  running F h' /\ (announced (resolver h) -> announced (resolver h')).

Lemma running_queues F (h : HC) js rs n : 0 <= n <= EVENTFD_MAX -> running F h ->
  running F (h <| resolver := (resolver h) <| jobs := js |> <| answers := rs |> <| counter := n |> |>).
Proof. intros Hn []. by split. Qed.

Lemma running_recv_all F fuel : forall out (h : HC), running F h -> running F (recv_all fuel out h).2.
Proof.
  induction fuel as [|fuel IH]; intros out h Hh; cbn [recv_all]; [done|].
  apply running_interleave in Hh as [Hh _].
  destruct (answers (resolver (interleave h))) eqn:Ea; [done|]. apply IH.
  exact (running_queues F _ _ _ _ (run_counter _ _ Hh) Hh).
Qed.

(** Whatever was announced before, nothing is left waiting after. *)
Lemma running_take F (h : HC) : running F h -> keeps_running F h (take_resolved h).2.
Proof.
  intros Hh. split.
  - cbn [take_resolved real_connector]. unfold real_take_resolved, clear_event. apply running_recv_all.
    apply running_interleave in Hh as [Hh _].
    assert (Hn : 0 <= (eventfd_read (counter (resolver (interleave h)))).2 <= EVENTFD_MAX).
    { unfold eventfd_read, EVENTFD_MAX. destruct (_ =? 0); cbn; lia. }
    apply (running_queues F (interleave h) (jobs (resolver (interleave h))) (answers (resolver (interleave h)))) in Hn; [|exact Hh].
    destruct Hn. by split.
  - intros _ Hne. destruct (take_resolved h) as [rs h'] eqn:E. apply take_resolved_spec in E as (_ & _ & _ & Ha & _).
    cbn [snd] in Hne. contradiction.
Qed.

Lemma running_start_resolve F id host port (h : HC) :
  running F h -> keeps_running F h (start_resolve id host port h).
Proof.
  intros Hh. apply running_interleave in Hh as [Hh Ha].
  cbn [start_resolve real_connector]. unfold real_start_resolve, send_job. rewrite (run_sender _ _ Hh).
  pose proof (run_alive _ _ Hh) as Hal.
  destruct (worker_at (resolver (interleave h))) eqn:Ew; try done.
  all: split; [|exact Ha]; host.
  all: exact (running_queues F _ _ _ _ (run_counter _ _ Hh) Hh).
Qed.

Lemma running_still F (h : HC) o : os_still (os h) o -> running F h -> keeps_running F h (h <| os := o |>).
Proof. intros [Eo _] Hh. split; [by apply running_os|done]. Qed.

Lemma running_sockets F (h h' : HC) m : resolver h' = resolver h -> rc h' = (rc h) <| conns := m |> ->
  ledger F (held h') (open_fds (os h')) -> running F h -> keeps_running F h h'.
Proof.
  intros Es Ec Hl []. unfold keeps_running. rewrite Es. split; [|done].
  by split; rewrite ?Es, ?Ec.
Qed.

Lemma running_epoll F op fd m (h : HC) : running F h -> keeps_running F h (epoll_ctl op fd m h).2.
Proof.
  intros Hh. unfold epoll_ctl. destruct (os_epoll_ctl _ _ _ _) as [r o] eqn:E.
  apply os_epoll_ctl_law in E. by apply running_still.
Qed.

(** The table of sockets, entry by entry. *)
Lemma held_insert id fd (h : HC) : conns (rc h) !! id = None ->
  held (set_rc (fun c => c <| conns := <[id := fd]> (conns c) |>) h) ≡ₚ fd :: held h.
Proof.
  intros Hn. unfold held. host. rewrite map_to_list_insert by done. cbn. solve_Permutation.
Qed.

Lemma held_delete id fd (h : HC) : conns (rc h) !! id = Some fd ->
  held h ≡ₚ fd :: held (set_rc (fun c => c <| conns := delete id (conns c) |>) h).
Proof.
  intros Hn. unfold held. host. rewrite <- (map_to_list_delete _ _ _ Hn). cbn. solve_Permutation.
Qed.

Lemma running_insert F id fd (h : HC) o : ledger F (fd :: held h) (open_fds o) -> running F h ->
  keeps_running F h (insert_conn id fd (h <| os := o |>)).
Proof.
  intros Hl Hh. unfold insert_conn. host. destruct (conns (rc h) !! id) as [old|] eqn:Eo.
  - eapply running_sockets; [done|done| |done]. host.
    apply ledger_remove. eapply ledger_perm; [|exact Hl]. rewrite (held_delete id old h) by done.
    set (h1 := set_rc (fun c => c <| conns := delete id (conns c) |>) h).
    pose proof (held_insert id fd h1) as Hi. rewrite (Permutation_swap old fd). f_equiv. symmetry.
    etrans; [|apply Hi; by apply lookup_delete_eq]. unfold held, h1. host. by rewrite insert_delete_eq.
  - eapply running_sockets; [done|done| |done]. by eapply ledger_perm; [symmetry; by apply held_insert|].
Qed.

Lemma running_start_connect F id a (h : HC) : running F h -> keeps_running F h (start_connect id a h).2.
Proof.
  intros Hh. cbn [start_connect real_connector]. unfold real_start_connect.
  destruct (os_socket _ _) as [[fd|e] o] eqn:Es; apply os_socket_law in Es;
    [|split; [by apply running_os|done]].
  destruct (to_sockaddr a) as [sa len]. host. destruct (os_connect _ _ _) as [r o'] eqn:Ec.
  apply os_connect_law in Ec.
  pose proof (ledger_add F (held h) fd _ _ Es (run_ledger _ _ Hh)) as Hl. rewrite <- Ec in Hl.
  assert (Hi : keeps_running F h (insert_conn id fd (h <| os := o' |>))) by by apply running_insert.
  destruct r as [[]|e]; [exact Hi|]. destruct (negb _); [|exact Hi]. split; [|done].
  by apply running_fds; [apply ledger_remove in Hl|].
Qed.

Lemma running_close F id (h : HC) : running F h -> keeps_running F h (sock_close id h).
Proof.
  intros Hh. cbn [sock_close real_connector]. unfold real_close.
  destruct (conns (rc h) !! id) as [fd|] eqn:Ec; [|done].
  eapply running_sockets; [done|done| |done]. host. apply ledger_remove.
  eapply ledger_perm; [by apply held_delete|]. by destruct Hh.
Qed.

Lemma connector_step_running F (h h' : HC) : connector_step h h' -> running F h -> keeps_running F h h'.
Proof.
  intros [h1|h1 h2 []] Hh; [by apply running_step|..].
  - by apply running_start_resolve.
  - by apply running_take.
  - by apply running_start_connect.
  - cbn. unfold real_poll_connect. destruct (conns _ !! id) as [fd|]; [|done].
    destruct (os_poll fd _) as [n o] eqn:Ep. apply os_poll_law in Ep as [Ep _].
    destruct (n <=? 0); [split; [by apply running_os|done]|]. host.
    destruct (os_so_error fd o) as [r o'] eqn:Ee. apply os_so_error_law in Ee as [Ee _].
    assert (keeps_running F c (c <| os := o' |>)) by (split; [apply running_os; [congruence|done]|done]).
    by repeat case_match.
  - cbn. unfold real_read. destruct (conns _ !! id) as [fd|]; [|done].
    destruct (os_read _ _ _) as [[r filled] o] eqn:E. apply os_read_law in E as [E _].
    split; [by apply running_os|done].
  - cbn. unfold real_write. destruct (conns _ !! id) as [fd|]; [|done].
    destruct (os_write _ _ _) as [r o] eqn:E. apply os_write_law in E as [E _].
    split; [by apply running_os|done].
  - cbn. unfold real_shutdown_write. destruct (conns _ !! id) as [fd|]; [|done].
    apply running_still; [apply os_shutdown_law|done].
  - by apply running_close.
  - by apply running_epoll.
  - by apply running_epoll.
  - by apply running_epoll.
Qed.

Lemma connector_reach_running F (h : HC) : connector_reach F h -> running F h /\ announced (resolver h).
Proof.
  intros (o & h0 & o' & <- & En & Hr).
  assert (H0' : running (open_fds o) h0 /\ announced (resolver h0)).
  { revert En. unfold real_new. destruct (os_eventfd o) as [[ev|e] o1] eqn:E1; [|done].
    destruct (os_dup ev o1) as [[evw|e] o2] eqn:E2; [|done].
    destruct (os_spawn o2) as [[[]|e] o3] eqn:E3; [|done]. intros [= <- <-].
    apply os_eventfd_law in E1. apply os_dup_law in E2. apply os_spawn_law in E3.
    split; [|by intros Hne]. split; try done. host. rewrite E3. unfold held. host. rewrite map_to_list_empty.
    eapply ledger_add, ledger_add; [done..|]. split; [constructor|by intros fd ?%elem_of_nil|cbn; set_solver]. }
  clear En. induction Hr as [|h1 h2 h3 Hs _ IH]; [done|]. destruct H0' as [Hh Ha]. apply IH.
  by destruct (connector_step_running _ _ _ Hs Hh); auto.
Qed.

(** The table of sockets against the descriptors of the process. *)
Record table_open (F : gset Z) (h : HC) : Prop := {
  tab_live id : id ∈ live h <-> exists fd, stream_fd (A := SocketAddr) id h = Some fd /\ fd ∈ open_fds (os h);
  tab_own id id' fd : stream_fd (A := SocketAddr) id h = Some fd -> stream_fd (A := SocketAddr) id' h = Some fd ->
    id = id';
  tab_all fd : fd ∈ open_fds (os h) -> fd ∉ F -> fd <> event (rc h) -> fd ∉ worker_fds (resolver h) ->
    exists id, stream_fd (A := SocketAddr) id h = Some fd;
  tab_closed id fd : stream_fd (A := SocketAddr) id h = Some fd ->
    fd ∉ open_fds (os (sock_close (A := SocketAddr) id h));
}.

Lemma conns_held (h : HC) id fd : conns (rc h) !! id = Some fd -> fd ∈ held h.
Proof.
  intros E. unfold held. apply elem_of_app. right. apply elem_of_cons. right. apply list_elem_of_fmap.
  exists (id, fd). split; [done|]. by apply elem_of_map_to_list.
Qed.

Lemma running_table F (h : HC) : running F h -> table_open F h.
Proof.
  intros [_ _ _ _ _ _ _ [Hn Hf Ha]]. split; cbn [live real_ghost stream_fd sock_close real_connector].
  - intros id. rewrite elem_of_dom. split; [|by intros (fd & -> & _); eexists].
    intros [fd E]. exists fd. split; [done|]. rewrite Ha. apply elem_of_union. right.
    by eapply elem_of_list_to_set, conns_held.
  - intros id id' fd E E'. unfold held in Hn. apply NoDup_app in Hn as (_ & _ & Hn).
    apply NoDup_cons in Hn as [_ Hn].
    destruct (decide (id = id')) as [|Hne]; [done|exfalso].
    assert (Hp : (map_to_list (conns (rc h))).*2 ≡ₚ fd :: fd :: (map_to_list (delete id' (delete id (conns (rc h))))).*2).
    { rewrite <- (map_to_list_delete _ id fd) by done. cbn.
      rewrite <- (map_to_list_delete (delete id (conns (rc h))) id' fd) by (by rewrite lookup_delete_ne). done. }
    rewrite Hp in Hn. apply NoDup_cons in Hn as [Hn _]. apply Hn. left.
  - intros fd Hin HF He Hw. rewrite Ha in Hin. apply elem_of_union in Hin as [|Hin]; [done|].
    apply elem_of_list_to_set in Hin. unfold held in Hin.
    apply elem_of_app in Hin as [|Hin]; [done|]. apply elem_of_cons in Hin as [|Hin]; [done|].
    apply list_elem_of_fmap in Hin as ([id fd'] & -> & Hin). apply elem_of_map_to_list in Hin. by exists id.
  - intros id fd E. unfold real_close. rewrite E. host. rewrite (proj1 (os_close_law fd (os h))). set_solver.
Qed.

(** ** Every resolution is answered *)

(** The steps the thread still needs until it waits for a request again. *)
Definition to_do (s : Resolver) : nat := pred (worker_left (worker_at s)) + 4 * length (jobs s).

Lemma resolver_steps_idle F n : forall h : HC, running F h -> (to_do (resolver h) <= n)%nat ->
  worker_at (resolver (resolver_steps n h)) = Receiving /\ jobs (resolver (resolver_steps n h)) = [].
Proof.
  induction n as [|n IH]; intros h Hh Hn; cbn [resolver_steps].
  - revert Hn. pose proof (run_alive _ _ Hh). unfold to_do.
    destruct (worker_at _), (jobs _); cbn; (done || lia).
  - apply IH; [by apply running_step|]. revert Hn. destruct Hh. unfold to_do, resolver_step.
    rewrite run_jobs_open0, run_answers_open0.
    destruct (worker_at (resolver h)) as [|job|r| |u] eqn:Ew; [|destruct (to_socket_addrs _ _ _)| | |done];
      host; cbn; try lia.
    destruct (jobs (resolver h)) eqn:Ej; host; rewrite ?Ew, ?Ej; cbn; lia.
Qed.

(** ** The end *)

(** The sender is dropped: the thread finishes what is queued, then ends and
    closes its descriptor. *)
Record closing (F : gset Z) (c : RealConnector) (h : HC) : Prop := {
  cl_jobs : jobs_open (resolver h) = false;
  cl_answers : answers_open (resolver h) = true;
  cl_rc : rc h = c;
  cl_ledger : ledger F (held h) (open_fds (os h));
}.

Lemma closing_step F c (h : HC) : closing F c h ->
  closing F c (resolver_step h) /\ work (resolver (resolver_step h)) = pred (work (resolver h)).
Proof.
  intros []. unfold resolver_step, work. rewrite cl_jobs0, cl_answers0.
  destruct (worker_at (resolver h)) as [|job|r| |u] eqn:Ew.
  - destruct (jobs (resolver h)) as [|j js] eqn:Ej; unfold worker_exit; host; rewrite ?Ej; cbn; (split; [|lia]).
    + split; try done. host. revert cl_ledger0. unfold held, worker_fds. rewrite Ew. cbn [app]. host.
      apply ledger_remove.
    + split; try done. revert cl_ledger0. unfold held, worker_fds. host. by rewrite Ew.
  - destruct (to_socket_addrs _ _ _) as [r o] eqn:E. apply to_socket_addrs_law in E as [Eo _]. host.
    split; [|cbn; lia]. split; try done. revert cl_ledger0. unfold held, worker_fds. host. by rewrite Ew, Eo.
  - host. split; [|cbn; lia]. split; try done. revert cl_ledger0. unfold held, worker_fds. host. by rewrite Ew.
  - host. split; [|cbn; lia]. split; try done. revert cl_ledger0. unfold held, worker_fds. host. by rewrite Ew.
  - rewrite Ew. by split.
Qed.

Lemma closing_steps F c n : forall h : HC, closing F c h -> (work (resolver h) <= n)%nat ->
  closing F c (resolver_steps n h) /\ exists u, worker_at (resolver (resolver_steps n h)) = Exited u.
Proof.
  induction n as [|n IH]; intros h Hc Hn; cbn [resolver_steps].
  - split; [done|]. revert Hn. unfold work. destruct (worker_at (resolver h)); cbn; try lia. intros _. by eexists.
  - destruct (closing_step F c h Hc) as [Hc' Hw]. apply IH; [done|lia].
Qed.

(** Dropping a table of sockets closes each. *)
Lemma ledger_close_all F l rest : forall o : Sys,
  ledger F (l ++ rest) (open_fds o) -> ledger F rest (open_fds (foldr os_close o l)).
Proof.
  revert rest. induction l as [|fd l IH]; intros rest o Hl; [done|]. cbn [foldr].
  apply ledger_remove, IH. eapply ledger_perm; [|exact Hl]. cbn. by rewrite Permutation_middle.
Qed.

Lemma close_all_os l : forall h : HC, foldr close_fd h l = h <| os := foldr os_close (os h) l |>.
Proof. induction l as [|fd l IH]; intros h; [by destruct h|]. cbn [foldr]. rewrite IH. by host. Qed.

Lemma drop_spec F (h : HC) : running F h ->
  (exists u, worker_at (resolver (real_drop h)) = Exited u) /\ open_fds (os (real_drop h)) = F.
Proof.
  intros []. unfold real_drop. set (h1 := set_resolver _ (set_rc _ h)).
  replace (worker (rc h1)) with (Some tt) by (unfold h1; host; done). unfold join.
  set (h2 := set_rc _ h1). assert (Hc : closing F (rc h2) h2) by (split; done).
  destruct (closing_steps F (rc h2) _ h2 Hc (le_n _)) as [[] Hu]. set (h3 := resolver_steps _ h2) in *.
  rewrite close_all_os. host. split; [exact Hu|]. destruct Hu as [u Hu].
  assert (Hl : ledger F [] (open_fds (os_close (event (rc h3)) (foldr os_close (os h3) (map_to_list (conns (rc h3))).*2)))).
  { apply ledger_remove, ledger_close_all. eapply ledger_perm; [|exact cl_ledger0].
    unfold held, worker_fds. rewrite Hu. cbn. apply Permutation_cons_append. }
  destruct Hl as [_ _ ->]. cbn. set_solver.
Qed.

(** Once nothing is asked, the thread asks nothing. *)
Lemma asked_step (h : HC) : asked (resolver h) = [] -> asked (resolver (resolver_step h)) = [].
Proof.
  unfold asked, resolver_step, worker_exit. intros [Hw Hj]%app_eq_nil. apply fmap_nil_inv in Hj. rewrite Hj.
  destruct (worker_at (resolver h)) eqn:Ew; try done; host; rewrite ?Ew, ?Hj; try done; [|by rewrite app_nil_r].
  destruct (jobs_open _); host; by rewrite ?Ew, ?Hj.
Qed.

Lemma asked_interleave (h : HC) : asked (resolver h) = [] -> asked (resolver (interleave h)) = [].
Proof.
  unfold interleave. destruct (worker_turns (os h)) as [n o]. intros Ha.
  assert (Ho : asked (resolver (h <| os := o |>)) = []) by exact Ha. revert Ho.
  generalize (h <| os := o |>). induction n as [|n IH]; intros h1 Ho; [done|]. by apply IH, asked_step.
Qed.

Lemma asked_take (h : HC) : asked (resolver h) = [] -> asked (resolver (take_resolved h).2) = [].
Proof.
  intros Ha. cbn [take_resolved real_connector]. unfold real_take_resolved, clear_event.
  set (h1 := set_rc _ _). assert (Hh : asked (resolver h1) = []) by exact (asked_interleave h Ha).
  revert Hh. generalize (S (length (in_flight (resolver h1)))) as fuel. generalize (failed (rc (set_resolver
    (fun s => s <| counter := (eventfd_read (counter s)).2 |>) (interleave h)))) as out.
  generalize h1. clear. intros h1 out fuel. revert out h1.
  induction fuel as [|fuel IH]; intros out h Hh; cbn [recv_all]; [done|].
  apply asked_interleave in Hh. destruct (answers _); [done|]. by apply IH.
Qed.

(** Once the thread is idle, the eventfd is readable if anything was asked, and
    taking the answers gives one for each request in order, and leaves none. *)
Lemma steps_announce F n (h : HC) : running F h -> announced (resolver h) -> (to_do (resolver h) <= n)%nat ->
  unanswered h <> [] -> 0 < counter (resolver (resolver_steps n h)).
Proof.
  intros Hh Ha Hn. destruct (running_steps F n h Hh) as [_ Ha'], (resolver_steps_idle F n h Hh Hn) as [Ew Ej].
  destruct (resolver_steps_frame n h) as [_ Hf].
  cbn [unanswered real_ghost]. rewrite (run_failed _ _ Hh), <- Hf.
  unfold in_flight, asked. rewrite Ew, Ej, app_nil_r. cbn [fmap list_fmap app]. intros Hne.
  destruct (Ha' Ha) as [Hc|Hp]; [intros E; by rewrite E in Hne|done|by rewrite Ew in Hp].
Qed.

Lemma steps_take F n (h : HC) : running F h -> (to_do (resolver h) <= n)%nat ->
  let '(rs, h') := take_resolved (resolver_steps n h) in
  resolved_stream <$> rs = unanswered h /\ unanswered h' = [].
Proof.
  intros Hh Hn. destruct (take_resolved (resolver_steps n h)) as [rs h'] eqn:E.
  destruct (resolver_steps_idle F n h Hh Hn) as [Ew Ej], (resolver_steps_frame n h) as [(Erc & _) Hf].
  assert (Hask : asked (resolver h') = []).
  { pose proof (asked_take (resolver_steps n h)) as Hk. rewrite E in Hk. apply Hk.
    unfold asked. by rewrite Ew, Ej. }
  apply take_resolved_spec in E as (Er & _ & _ & Ean & Eu).
  assert (Hnil : unanswered h' = []).
  { cbn [unanswered real_ghost]. rewrite Er. unfold in_flight. by rewrite Ean, Hask. }
  split; [|done]. rewrite Hnil, app_nil_r in Eu. rewrite <- Eu. cbn [unanswered real_ghost]. by rewrite Erc, Hf.
Qed.

Lemma resolver_steps_quiet n (h : HC) : quiet h (resolver_steps n h).
Proof. by apply same_main_quiet; apply resolver_steps_frame. Qed.

(** What the thread does under the backend. *)
Definition thread_step (h h' : HC) : Prop := h' = resolver_step h.

Lemma serving_running o h0 o' b : real_new o = (Ok h0, o') -> serving (A := SocketAddr) thread_step h0 b ->
  waits b /\ running (open_fds o) (connector b) /\ announced (resolver (connector b)).
Proof.
  intros En Hs. apply serving_waits in Hs as [Hw Hc].
  - split; [done|]. apply connector_reach_running. exists o, h0, o'. split; [done|]. split; [done|].
    revert Hc. apply rtc_subrel. intros c c' [Hcall| ->]; [by apply step_call|apply step_worker].
  - intros c c' ->. by apply same_main_quiet; apply resolver_step_frame.
Qed.
End reach.

(** ** Addresses

    A socket address as the kernel reads it (ip(7), ipv6(7)). *)
Definition read_sockaddr (bs : list Z) : option SocketAddr :=
  let family := of_le_bytes (slice 0 2 bs) in
  let port := of_le_bytes (rev (slice 2 4 bs)) in
  if (family =? AF_INET) && (length bs =? 16)%nat then Some (V4 (slice 4 8 bs) port)
  else if (family =? AF_INET6) && (length bs =? 28)%nat
  then Some (V6 (slice 8 24 bs) port (of_le_bytes (slice 4 8 bs)) (of_le_bytes (slice 24 28 bs)))
  else None.

Definition addr_ok (a : SocketAddr) : Prop :=
  match a with
  | V4 ip port => length ip = 4%nat /\ fits 16 port
  | V6 ip port flow scope => length ip = 16%nat /\ fits 16 port /\ fits 32 flow /\ fits 32 scope
  end.

Lemma le_bytes_fits n z : 0 <= n -> fits (n * 8) z -> of_le_bytes (le_bytes n z) = z.
Proof. intros Hn Hz. rewrite of_le_bytes_le_bytes by done. by apply Z.mod_small. Qed.

(** The bytes handed to [connect] are those of the address. *)
Lemma to_sockaddr_reads_back a : addr_ok a ->
  let '(sa, len) := to_sockaddr a in length sa = 128%nat /\ read_sockaddr (take len sa) = Some a.
Proof.
  assert (Hw : forall n z m, 0 <= n -> m = Z.to_nat n -> length (le_bytes n z) = m).
  { intros n z m Hn ->. by apply length_le_bytes. }
  destruct a as [ip port|ip port flow scope]; cbn [addr_ok to_sockaddr].
  - intros [Hi Hp]. pose proof (le_bytes_fits 2 port ltac:(lia) Hp) as Ep.
    pose proof (Hw 2 port 2%nat ltac:(lia) eq_refl) as Lp.
    destruct (le_bytes 2 port) as [|p0 [|p1 [|]]]; try done.
    destruct ip as [|i0 [|i1 [|i2 [|i3 [|]]]]]; try done.
    split; [done|]. by rewrite <- Ep.
  - intros (Hi & Hp & Hf & Hs). pose proof (le_bytes_fits 2 port ltac:(lia) Hp) as Ep.
    pose proof (le_bytes_fits 4 flow ltac:(lia) Hf) as Ef. pose proof (le_bytes_fits 4 scope ltac:(lia) Hs) as Es.
    pose proof (Hw 2 port 2%nat ltac:(lia) eq_refl) as Lp.
    pose proof (Hw 4 flow 4%nat ltac:(lia) eq_refl) as Lf. pose proof (Hw 4 scope 4%nat ltac:(lia) eq_refl) as Ls.
    destruct (le_bytes 2 port) as [|p0 [|p1 [|]]]; try done.
    destruct (le_bytes 4 flow) as [|f0 [|f1 [|f2 [|f3 [|]]]]]; try done.
    destruct (le_bytes 4 scope) as [|s0 [|s1 [|s2 [|s3 [|]]]]]; try done.
    do 16 (destruct ip as [|? ip]; [done|]). destruct ip; [|done].
    split; [done|]. by rewrite <- Ep, <- Ef, <- Es.
Qed.

(** A process with its three standard descriptors, a thread that never gets a
    turn by itself, and a connector with one request in its queue. *)
Definition toy_process : ToyOs := {| toy_fds := {[0; 1; 2]}; toy_turns := 0; toy_feed := ∅; toy_sent := ∅ |}.

Definition toy_new : option (Host ToyOs) :=
  match (real_new toy_process).1 with Ok h => Some h | Err _ => None end.

Definition toy_idle : Host ToyOs := Eval vm_compute in default
  {| rc := {| conns := ∅; to_worker := None; event := 0; worker := None; failed := [] |};
     resolver := {| jobs := []; jobs_open := false; answers := []; answers_open := false; counter := 0;
                    worker_at := Receiving; event_worker := 0 |}; os := toy_process; last_fd := ∅ |} toy_new.

Definition toy_asking : Host ToyOs := start_resolve 7 [97] 80 toy_idle.

Lemma toy_idle_new : real_new toy_process = (Ok toy_idle, os toy_idle).
Proof. by vm_compute. Qed.

Lemma toy_asking_reach : connector_reach {[0; 1; 2]} toy_asking.
Proof.
  exists toy_process, toy_idle, (os toy_idle). split; [done|]. split; [exact toy_idle_new|].
  apply rtc_once, step_call, call_start_resolve.
Qed.

(** ** Properties of the connector *)

(** C7: The socket connector keeps every promise the backend was proved
    against, whatever the resolver thread does in between and whatever the
    host answers: a request is queued or its failure is, the answers handed
    over are requests that leave the queue, a connect that succeeds puts its
    stream in the table and one that fails does not, reads and writes move the
    bytes the host moved on that stream's socket, a socket with nothing to read
    or no room to write (the host's [EAGAIN]) is [None] and not an error,
    [None] means that and an error means the socket is in error, and closing a
    stream discards what was unread of it and nothing else's.  And in every
    state the connector can be in, the table is the open sockets: a stream is
    in it exactly while it has a socket that is open in the process, no two
    share one, every descriptor that is neither the process's own nor an end of
    the eventfd is the socket of a stream, and closing a stream closes it. *)
Theorem real_connector_implements_interface `{SocketLaws Sys} :
  ConnectorLaws SocketAddr (Host Sys)
  /\ forall F (h : Host Sys), connector_reach F h -> table_open F h.
Proof. split; [apply real_laws|]. intros F h Hr. apply connector_reach_running in Hr as [Hh _]. by apply running_table. Qed.

(** Stream 7 connected through descriptor 5, with two bytes to read. *)
Definition toy_connected : Host ToyOs :=
  (start_connect 7 (V4 [127; 0; 0; 1] 80) (toy_asking <| os := (os toy_asking) <| toy_feed := {[5 := [72; 105]]} |> |>)).2.

Lemma toy_connected_reach : connector_reach {[0; 1; 2]} (start_connect 7 (V4 [127; 0; 0; 1] 80) toy_asking).2.
Proof.
  destruct toy_asking_reach as (o & h0 & o' & Ho & En & Hr). exists o, h0, o'. split; [done|]. split; [done|].
  eapply rtc_r; [exact Hr|]. apply step_call, call_start_connect.
Qed.

(** Nine bytes for a socket that takes eight: what is left would block; the
    close discards what was unread. *)
Lemma real_connector_implements_interface_witness :
  let '(r1, h1) := sock_write (A := SocketAddr) 7 [1; 2; 3; 4; 5; 6; 7; 8; 9] toy_connected in
  r1 = Ok (Some 8%nat) /\ (sock_write (A := SocketAddr) 7 [9] h1).1 = Ok None
  /\ live (sock_close (A := SocketAddr) 7 toy_connected) = ∅ /\ unread 7 toy_connected = [72; 105]
  /\ unread 7 (sock_close (A := SocketAddr) 7 toy_connected) = []
  /\ 5 ∉ open_fds (os (sock_close (A := SocketAddr) 7 (start_connect 7 (V4 [127; 0; 0; 1] 80) toy_asking).2)).
Proof.
  destruct (real_connector_implements_interface (Sys := ToyOs)) as [L T].
  destruct (sock_close_law (ConnectorLaws := L) 7 toy_connected) as (El & _ & Eu & _).
  destruct (sock_write (A := SocketAddr) 7 [1; 2; 3; 4; 5; 6; 7; 8; 9] toy_connected) as [r1 h1] eqn:E1.
  destruct (sock_write (A := SocketAddr) 7 [9] h1) as [r2 h2] eqn:E2.
  vm_compute in E1. injection E1 as <- <-.
  split; [reflexivity|]. split.
  { apply (sock_write_law (ConnectorLaws := L) _ _ _ _ _ E2); [vm_compute; lia|done]. }
  split; [rewrite El; by vm_compute|]. split; [by vm_compute|]. split; [exact (Eu 7)|].
  exact (tab_closed _ _ (T _ _ toy_connected_reach) 7 5 ltac:(by vm_compute)).
Defined.

(** No lookup is lost and none goes unnoticed.  In every state the
    connector can be in, an answer waiting in the channel is announced on the
    eventfd or will be at the thread's very next step; and once the thread has
    made the steps it has left, bounded by its queue, the eventfd is readable
    if anything was asked for, and taking the answers gives exactly one for
    every request outstanding, in the order they were made, and leaves
    none. *)
Theorem resolver_answers_every_request `{SocketLaws Sys} F (h : Host Sys) n :
  connector_reach F h -> (to_do (resolver h) <= n)%nat ->
  (answers (resolver h) <> [] ->
     0 < counter (resolver h) \/ 0 < counter (resolver (resolver_step h)))
  /\ (unanswered h <> [] -> 0 < counter (resolver (resolver_steps n h)))
  /\ let '(rs, h') := take_resolved (resolver_steps n h) in
     resolved_stream <$> rs = unanswered h /\ unanswered h' = [].
Proof.
  intros Hr Hn. destruct (connector_reach_running F h Hr) as [Hh Ha].
  split; [|split; [by eapply steps_announce|by eapply steps_take]].
  intros Hne. destruct (Ha Hne) as [Hc|Ew]; [by left|right]. unfold resolver_step. rewrite Ew. host.
  apply eventfd_write_one, Hh.
Qed.

Lemma resolver_answers_every_request_witness :
  let '(rs, h') := take_resolved (resolver_steps 4 toy_asking) in
  rs = [{| resolved_stream := 7; resolved_addr := Some (V4 [127; 0; 0; 1] 80) |}] /\ unanswered h' = [].
Proof.
  destruct (resolver_answers_every_request _ toy_asking 4 toy_asking_reach) as (_ & _ & Ht); [vm_compute; lia|].
  destruct (take_resolved _) as [rs h'] eqn:E. split; [|exact (proj2 Ht)]. by vm_compute in E; simplify_eq.
Defined.

(** C34: Every descriptor is accounted for.  In every state the connector can
    be in, the open descriptors of the process are the ones it had before and,
    each once, those the connector holds: its eventfd, the thread's copy, one
    socket per entry of the table, so failed and replaced connections leave
    none behind.  Dropping the connector ends the thread, after the lookups
    still queued, and closes them all; and a [new] that fails leaves
    none. *)
Theorem connector_leaks_no_descriptor `{SocketLaws Sys} :
  (forall F (h : Host Sys), connector_reach F h ->
     NoDup (held h) /\ (forall fd, fd ∈ held h -> fd ∉ F) /\ open_fds (os h) = F ∪ list_to_set (held h)
     /\ (exists u, worker_at (resolver (real_drop h)) = Exited u) /\ open_fds (os (real_drop h)) = F)
  /\ (forall (o : Sys) e o', real_new o = (Err e, o') -> open_fds o' = open_fds o).
Proof.
  split.
  - intros F h Hr. apply connector_reach_running in Hr as [Hh _].
    destruct (drop_spec F h Hh) as [Hu Hd]. by destruct (run_ledger _ _ Hh).
  - intros o e o'. unfold real_new. destruct (os_eventfd o) as [[ev|e'] o1] eqn:E1; apply os_eventfd_law in E1;
      [|by intros [= _ <-]]. destruct E1 as [Hev E1].
    destruct (os_dup ev o1) as [[evw|e'] o2] eqn:E2; apply os_dup_law in E2.
    + destruct E2 as [Hevw E2]. destruct (os_spawn o2) as [[[]|e'] o3] eqn:E3; [done|].
      apply os_spawn_law in E3. intros [= _ <-].
      rewrite (proj1 (os_close_law _ _)), (proj1 (os_close_law _ _)), E3, E2, E1.
      rewrite E1 in Hevw. set_solver.
    + cbn in E2. intros [= _ <-]. rewrite (proj1 (os_close_law _ _)), E2, E1. set_solver.
Qed.

Lemma connector_leaks_no_descriptor_witness :
  held toy_asking = [4; 3] /\ open_fds (os (real_drop (start_connect 7 (V4 [127; 0; 0; 1] 80) toy_asking).2)) = {[0; 1; 2]}.
Proof.
  split; [by vm_compute|]. apply (proj1 connector_leaks_no_descriptor).
  exact toy_connected_reach.
Defined.

(** C6: On the real connector no stream waits for ever, and no lookup gates
    the clock for ever.  Take the backend over a connector just made, after
    any calls that did not fail and any steps of the thread: a session that
    waits for an address has its lookup in flight; once the thread has made
    the steps it has left, the host's poll is woken if any lookup is in
    flight; and the harvest that follows, if it does not fail, leaves none in
    flight and no session waiting for an address. *)
Theorem no_stream_waits_forever `{SocketLaws Sys} (o : Sys) h0 o' (b : EgressBackend (Host Sys)) n :
  real_new o = (Ok h0, o') -> serving (A := SocketAddr) thread_step h0 b ->
  (to_do (resolver (connector b)) <= n)%nat ->
  let b1 := set_connector (resolver_steps n (connector b)) b in
  (forall id s, sessions b !! id = Some s -> sstate s = Resolving -> id ∈ resolving b)
  /\ (resolving b <> ∅ -> 0 < counter (resolver (connector b1)))
  /\ forall b2, harvest_resolves (A := SocketAddr) b1 = (Ok tt, b2) ->
     resolving b2 = ∅ /\ forall id s, sessions b2 !! id = Some s -> sstate s <> Resolving.
Proof.
  intros En Hs Hn b1. destruct (serving_running o h0 o' b En Hs) as ([Hnd Hall Hw] & Hh & Ha). split_and!; [done| |].
  - intros Hne. apply (steps_announce _ _ _ Hh Ha Hn). intros E. apply Hne. by rewrite <- Hall, E.
  - intros b2. apply harvest_leaves_none; unfold b1; fields.
    + destruct (resolver_steps_quiet n (connector b)) as (_ & Eu & _). split; fields; by rewrite ?Eu.
    + pose proof (steps_take _ _ _ Hh Hn) as Ht. by destruct (take_resolved _) as [rs c]; destruct Ht.
Qed.

(** The backend on the fresh connector, after the guest opened stream 7. *)
Definition toy_fresh : EgressBackend (Host ToyOs) :=
  {| connector := toy_idle; sessions := ∅; resolving := ∅; rx_parse := []; tx_pending := [];
     stats := Build_EgressStats 0 0 0 0 0 0 |}.
Definition toy_waiting : EgressBackend (Host ToyOs) := (backend_pump (A := SocketAddr) [1; 1; 7; 0; 3; 0; 80; 0; 97] toy_fresh).2.

Lemma no_stream_waits_forever_witness :
  let b1 := set_connector (resolver_steps 4 (connector toy_waiting)) toy_waiting in
  resolving toy_waiting = {[7]} /\ 0 < counter (resolver (connector b1))
  /\ let '(r, b2) := harvest_resolves (A := SocketAddr) b1 in
     r = Ok tt /\ resolving b2 = ∅ /\ sstate <$> sessions b2 !! 7 = Some Connecting.
Proof.
  assert (Hs : serving (A := SocketAddr) thread_step toy_idle toy_waiting).
  { apply serving_pump; [by apply serving_new|by apply (bool_decide_unpack _)|by vm_compute]. }
  destruct (no_stream_waits_forever toy_process toy_idle (os toy_idle) toy_waiting 4 toy_idle_new Hs) as (_ & Hw & Hh);
    [vm_compute; lia|].
  cbv zeta. split; [by vm_compute|]. split; [apply Hw; by vm_compute|].
  destruct (harvest_resolves _) as [r b2] eqn:E. assert (r = Ok tt) as -> by (by vm_compute in E; simplify_eq).
  split; [done|]. split; [exact (proj1 (Hh b2 eq_refl))|]. by vm_compute in E; simplify_eq.
Defined.
