(* ===== verification/EgressChannel.v ===== *)
(** * The COM4 egress channel ([src/src/egress.rs], [EgressChannel], [GateWarn])

    The UART wrapper over the backend: captured guest bytes go to the pump,
    pending host bytes go to the receive FIFO.  The channel is a client of the
    interfaces [Uart] and [EgressConnector] only. *)

From Stdlib Require Import ZArith Lia.
From stdpp Require Import base numbers strings gmap sets list.
From S2P Require Import Prelude.
From S2P Require Import Arch.
From S2P Require Import Ioapic.
From S2P Require Import Lapic.
From S2P Require Import Timers.
From S2P Require Import Control.
From S2P Require Import EgressCodec.
From S2P Require Import Egress.
From S2P Require Import EgressSpec.

Open Scope Z_scope.

(** ** The long-gate warning; instants and durations in nanoseconds *)

Definition GATE_WARN_AFTER : Z := 30 * 1000000000.
Definition GATE_WARN_COOLDOWN : Z := 30 * 1000000000.

Record GateWarn := { span_start : option Z; gate_last_warn : option Z }.

Definition gate_note (g : GateWarn) (now : Z) : GateWarn :=
  {| span_start := Some (default now (span_start g)); gate_last_warn := gate_last_warn g |}.

Definition gate_clear (g : GateWarn) : GateWarn :=
  {| span_start := None; gate_last_warn := gate_last_warn g |}.

(** Whether a warning is due; the text is not modelled. *)
Definition warn_at (g : GateWarn) (now : Z) : bool * GateWarn :=
  let g := gate_note g now in
  let start := default now (span_start g) in
  if saturating_sub now start <? GATE_WARN_AFTER then (false, g)
  else
    let cooled := match gate_last_warn g with
                  | None => true
                  | Some t => GATE_WARN_COOLDOWN <=? saturating_sub now t
                  end in
    if negb cooled then (false, g)
    else (true, {| span_start := span_start g; gate_last_warn := Some now |}).

(** ** The channel *)

Record EgressChannel (U C : Type) := {
  eg_backend : EgressBackend C;
  eg_serial : U;
  eg_tx : list Z;
  unsafe_jumps : bool;
  gate_warn : GateWarn;
}.
Arguments Build_EgressChannel {U C}.
Arguments eg_backend {U C}.
Arguments eg_serial {U C}.
Arguments eg_tx {U C}.
Arguments unsafe_jumps {U C}.
Arguments gate_warn {U C}.

#[export] Instance eta_EgressChannel U C : Settable (EgressChannel U C) := fun r =>
  Build_EgressChannel (eg_backend r) (eg_serial r) (eg_tx r) (unsafe_jumps r) (gate_warn r).

Definition egress_handles (port : Z) : bool := in_range SERIAL4_PORT_BASE (SERIAL4_PORT_BASE + 8) port.

Section channel.
Context {A C U : Type} `{EgressConnector A C, Epoll C, Uart U}.
Abbreviation Ch := (EgressChannel U C).

Definition eg_pio_write (c : Ch) (port byte : Z) (l : Lapic) (io : Ioapic) : Ch * Lapic :=
  let '(out, u) := uart_write (eg_serial c) (as_u8 (port - SERIAL4_PORT_BASE)) byte in
  let '(u, l) := after_uart_io u l io SERIAL4_IRQ in
  (c <| eg_serial := u |> <| eg_tx := sink_write (eg_tx c) out |>, l).

Definition eg_pio_read (c : Ch) (port : Z) (l : Lapic) (io : Ioapic) : Z * (Ch * Lapic) :=
  let '(v, u) := uart_read (eg_serial c) (as_u8 (port - SERIAL4_PORT_BASE)) in
  let '(u, l) := after_uart_io u l io SERIAL4_IRQ in
  (v, (c <| eg_serial := u |>, l)).

(** The feed loop of [pump].  Every turn that goes on hands over a whole
    non-empty chunk: the length of the queue is enough fuel. *)
Fixpoint feed_guest (fuel : nat) (u : U) (b : EgressBackend C) (sent : bool) : U * EgressBackend C * bool :=
  match fuel with
  | O => (u, b, sent)
  | S fuel =>
      let cap := fifo_capacity u in
      if (cap =? 0)%nat || negb (has_frames_for_guest b) then (u, b, sent)
      else
        let '(chunk, b) := drain_to_guest cap b in
        match enqueue_raw_bytes u chunk with
        | Some (n, u') =>
            if (0 <? n)%nat then
              if (n <? length chunk)%nat then (u', unshift_to_guest (drop n chunk) b, true)
              else feed_guest fuel u' b true
            else (u', unshift_to_guest chunk b, sent)
        | None => (u, unshift_to_guest chunk b, sent)
        end
  end.

Definition channel_pump (c : Ch) (l : Lapic) (io : Ioapic) : result EgressError unit * (Ch * Lapic) :=
  let from_guest := eg_tx c in
  let '(r, b) := backend_pump from_guest (eg_backend c) in
  let c := c <| eg_tx := [] |> <| eg_backend := b |> in
  match r with
  | Err e => (Err e, (c, l))
  | Ok _ =>
      let '(u, b, sent) := feed_guest (length (tx_pending b)) (eg_serial c) b false in
      let '(u, l) := if sent then after_uart_io u l io SERIAL4_IRQ else (u, l) in
      let c := c <| eg_serial := u |> <| eg_backend := b |> in
      (Ok tt, (if is_quiescent b then c <| gate_warn := gate_clear (gate_warn c) |> else c, l))
  end.

Definition ch_quiescent (c : Ch) : bool := is_quiescent (eg_backend c).

(** [now] is the instant the gated interval ends. *)
Definition ch_note_gated (c : Ch) (real_ns now : Z) : Ch :=
  c <| eg_backend := note_gated_interval real_ns (eg_backend c) |>
    <| gate_warn := gate_note (gate_warn c) now |>.

Definition maybe_warn_long_gate (c : Ch) (now : Z) : bool * Ch :=
  let '(w, g) := warn_at (gate_warn c) now in (w, c <| gate_warn := g |>).

(** ** Lemmas *)

Lemma unshift_app bs (b : EgressBackend C) : tx_pending (unshift_to_guest bs b) = bs ++ tx_pending b.
Proof. unfold unshift_to_guest. fields. induction bs as [|x bs IH]; simpl; [done|by rewrite IH]. Qed.

Lemma drain_unshift n k (b : EgressBackend C) :
  let '(chunk, b1) := drain_to_guest n b in
  take k chunk ++ tx_pending (unshift_to_guest (drop k chunk) b1) = tx_pending b.
Proof.
  unfold drain_to_guest. cbv zeta. rewrite unshift_app. fields.
  by rewrite app_assoc, take_drop, take_drop.
Qed.

Lemma feed_guest_stream fuel : forall u (b : EgressBackend C) sent,
  let '(u', b', _) := feed_guest fuel u b sent in
  uart_rx u' ++ tx_pending b' = uart_rx u ++ tx_pending b
  /\ sessions b' = sessions b /\ resolving b' = resolving b /\ rx_parse b' = rx_parse b
  /\ connector b' = connector b.
Proof.
  induction fuel as [|n IH]; intros u b sent; cbn [feed_guest]; [done|].
  destruct (_ || _); [done|]. pose proof (drain_unshift (fifo_capacity u) 0 b) as Hall.
  pose proof (fun k => drain_unshift (fifo_capacity u) k b) as Hd.
  assert (Hst : forall b1, b1 = (drain_to_guest (fifo_capacity u) b).2 -> sessions b1 = sessions b
    /\ resolving b1 = resolving b /\ rx_parse b1 = rx_parse b /\ connector b1 = connector b) by (by intros ? ->).
  destruct (drain_to_guest (fifo_capacity u) b) as [chunk b1]. specialize (Hst b1 eq_refl).
  rewrite take_0, drop_0 in Hall. cbn [app] in Hall.
  destruct (enqueue_raw_bytes u chunk) as [[k u']|] eqn:E; [|by rewrite Hall].
  apply enqueue_law in E as (Hk & _ & Hrx & _). destruct (0 <? k)%nat eqn:E0.
  - destruct (k <? length chunk)%nat eqn:Ek.
    + split; [|done]. by rewrite Hrx, <- app_assoc, Hd.
    + apply Nat.ltb_ge in Ek. specialize (IH u' b1 true).
      destruct (feed_guest n u' b1 true) as [[u2 b2] s2]. destruct IH as (-> & -> & -> & -> & ->).
      split; [|done]. rewrite Hrx, <- app_assoc. f_equal. rewrite <- (Hd k), unshift_app.
      by rewrite (drop_ge chunk k) by done.
  - apply Nat.ltb_ge in E0. assert (k = 0%nat) as -> by lia.
    split; [|done]. by rewrite Hrx, Hall, take_0, app_nil_r.
Qed.

End channel.

(** ** Properties *)

(** The channel neither loses nor reorders host bytes: after a pump the
    receive FIFO followed by the pending queue is what they were before,
    followed by the whole frames the backend added; the captured guest bytes
    have been consumed; the backend's invariant is kept, also when the pump
    fails; and when the channel is quiescent afterwards every one of those
    bytes is in the FIFO. *)
Theorem channel_pump_delivers `{ConnectorLaws A C, Uart U} (c : EgressChannel U C) l io :
  Inv ∅ (eg_backend c) -> bytes_ok (eg_tx c) ->
  let '(r, (c', l')) := channel_pump c l io in
  Inv ∅ (eg_backend c') /\ eg_tx c' = []
  /\ exists fs, Forall frame_ok fs
     /\ uart_rx (eg_serial c') ++ tx_pending (eg_backend c')
        = uart_rx (eg_serial c) ++ tx_pending (eg_backend c) ++ concat (wire <$> fs)
     /\ (ch_quiescent c' = true ->
         uart_rx (eg_serial c') = uart_rx (eg_serial c) ++ tx_pending (eg_backend c) ++ concat (wire <$> fs)).
Proof.
  intros Hi Hok. unfold channel_pump, ch_quiescent.
  destruct (keeps_pump (eg_tx c) Hok (eg_backend c) Hi) as [Hi1 (fs & Hfs & Htx)].
  destruct (backend_pump (eg_tx c) (eg_backend c)) as [r b1]. cbn [snd] in *.
  assert (Hq : forall b : EgressBackend C, is_quiescent b = true -> tx_pending b = []).
  { intros b Hq. unfold is_quiescent in Hq. apply andb_true_iff in Hq as [_ Hq]. by destruct (tx_pending b). }
  destruct r as [_|e].
  - pose proof (feed_guest_stream (length (tx_pending b1)) (eg_serial c) b1 false) as Hf.
    change (eg_serial ((c <| eg_tx := [] |>) <| eg_backend := b1 |>)) with (eg_serial c).
    destruct (feed_guest _ _ b1 false) as [[u2 b2] sent]. destruct Hf as (Hs & Es & Er & Ep & Ec).
    assert (Hi2 : Inv ∅ b2) by (apply (Inv_same _ b1); by rewrite ?Ec).
    assert (Hu : forall u3 l3, (if sent then after_uart_io u2 l io SERIAL4_IRQ else (u2, l)) = (u3, l3) ->
      uart_rx u3 = uart_rx u2).
    { intros u3 l3. unfold after_uart_io. destruct sent; [|by intros [= <- <-]].
      destruct (drain_irq u2) as [p u4] eqn:Ed. apply drain_law in Ed as [<- _]. by intros [= <- <-]. }
    destruct (if sent then _ else _) as [u3 l3]. specialize (Hu u3 l3 eq_refl).
    rewrite <- Hu, Htx in Hs.
    destruct (is_quiescent b2) eqn:Eq; (split; [exact Hi2|]; split; [done|]; exists fs; split; [done|];
      cbn [eg_serial eg_backend gate_warn set_field]; split; [exact Hs|]).
    + intros _. rewrite (Hq b2 Eq), app_nil_r in Hs. exact Hs.
    + rewrite Eq. done.
  - split; [exact Hi1|]. split; [done|]. exists fs. split; [done|].
    cbn [eg_serial eg_backend set_field]. rewrite Htx. split; [done|].
    intros Eq. rewrite (Hq b1 Eq) in Htx. by rewrite <- Htx, app_nil_r.
Qed.

Definition toy_egress : EgressChannel ToyUart ToyHost :=
  {| eg_backend := toy_backend; eg_serial := {| toy_rx := []; toy_room := 8; toy_irq := false |};
     eg_tx := toy_bytes; unsafe_jumps := false; gate_warn := {| span_start := None; gate_last_warn := None |} |}.

Lemma channel_pump_delivers_witness :
  let '(r, (c', _)) := channel_pump toy_egress toy_lapic (ioapic_new 2) in
  eg_tx c' = [] /\ sessions (eg_backend c') !! 7 <> None.
Proof.
  assert (Hok : bytes_ok toy_bytes) by (by apply (bool_decide_unpack _); vm_compute).
  pose proof (channel_pump_delivers toy_egress toy_lapic (ioapic_new 2) toy_backend_Inv Hok) as Hp.
  assert (E : match channel_pump toy_egress toy_lapic (ioapic_new 2) with
    | (_, (c', _)) => bool_decide (sessions (eg_backend c') !! 7 <> None) end = true) by by vm_compute.
  destruct (channel_pump toy_egress toy_lapic (ioapic_new 2)) as [r [c' l']].
  destruct Hp as (_ & Htx & _). split; [exact Htx|]. by apply bool_decide_eq_true in E.
Defined.
