(* ===== verification/Io.v ===== *)
(** * Byte streams ([std::io::Read], [std::io::Write])

    The two traits as interfaces, what their documentation promises, and
    in-memory instances to run code on.  The guest forwarder and the agent
    bridge are written against them. *)

From Stdlib Require Import ZArith Lia.
From stdpp Require Import base numbers list.
From S2P Require Import Prelude.
From S2P Require Import Text.

Open Scope Z_scope.

(** ** The traits *)

(** [read_exact] fills a buffer of [n] bytes; [read] gives at most [n], and
    its error says whether the call was only interrupted. *)
Class Read (S : Type) := {
  read_exact : nat -> SE unit S (list Z);
  read : nat -> SE bool S (list Z);
}.

Class Write (S : Type) := {
  write_all : list Z -> SE unit S unit;
  flush : SE unit S unit;
}.

(** What the code relies on: a buffer is filled with bytes, and no more than
    asked for. *)
Class ReadLaws (S : Type) `{Read S} := {
  read_exact_law n s bs s' : read_exact n s = (Ok bs, s') -> length bs = n /\ bytes_ok bs;
  read_law n s bs s' : read n s = (Ok bs, s') -> (length bs <= n)%nat /\ bytes_ok bs;
}.

(** [written]: the bytes a sink has taken; [intact]: no write on it has
    failed.  A write that succeeds took all its bytes. *)
Class WriteLaws (S : Type) `{Write S} := {
  written : S -> list Z;
  intact : S -> bool;
  write_all_law bs s r s' : write_all bs s = (r, s') -> intact s' = true ->
    r = Ok tt /\ intact s = true /\ written s' = written s ++ bs;
  flush_law s r s' : flush s = (r, s') -> intact s' = true -> intact s = true /\ written s' = written s;
}.

(** ** Executable peers *)

(** A socket on in-memory buffers: [feed] is what is still to be read, [taken]
    what was written; a short [read_exact] hits the end of the stream. *)
Record Duplex := { feed : list Z; taken : list Z }.

#[export] Instance Duplex_Read : Read Duplex := {
  read_exact n d :=
    if (n <=? length (feed d))%nat
    then (Ok (as_u8 <$> take n (feed d)), {| feed := drop n (feed d); taken := taken d |})
    else (Err tt, {| feed := []; taken := taken d |});
  read n d := (Ok (as_u8 <$> take n (feed d)), {| feed := drop n (feed d); taken := taken d |});
}.

#[export] Instance Duplex_Write : Write Duplex := {
  write_all bs d := (Ok tt, {| feed := feed d; taken := taken d ++ bs |});
  flush d := (Ok tt, d);
}.

#[export] Instance Duplex_ReadLaws : ReadLaws Duplex.
Proof.
  assert (forall l, bytes_ok (as_u8 <$> l)) as Hb.
  { intros l. apply Forall_fmap, Forall_true. intros x. apply as_u8_fits. }
  split; cbn [read_exact read Duplex_Read]; intros n s bs s'.
  - destruct (n <=? _)%nat eqn:E; [|done]. apply Nat.leb_le in E. intros [= <- <-].
    rewrite length_fmap, length_take. split; [lia|done].
  - intros [= <- <-]. rewrite length_fmap, length_take. split; [lia|done].
Qed.

#[export] Program Instance Duplex_WriteLaws : WriteLaws Duplex := { written := taken; intact _ := true }.
Next Obligation. intros bs s r s' [= <- <-] _. done. Qed.
Next Obligation. intros s r s' [= <- <-] _. done. Qed.
