(* ===== verification/Forwarder.v ===== *)
(** * The guest egress forwarder ([src/tdvmm-agent/src/forwarder.rs])

    The SOCKS5h proxy in the guest: the negotiation with a client, the single
    tty writer, the demultiplexer of host frames, stream ids, and the relay in
    both directions.  The program is a set of threads (the demux reader, one
    handler per accepted client, one [relay_up] thread per established
    stream) that share a registry of live streams and the tty, each behind a
    mutex.  It is modelled as a step relation on the shared state: a step is
    what one thread does up to and including one critical section, so every
    interleaving of frames on the tty and of registry updates is a sequence of
    steps.  Sockets and the tty are the interfaces [Read], [Write] and
    [TcpStream]; what a peer does between two steps is arbitrary. *)

From Stdlib Require Import ZArith Lia.
From stdpp Require Import base numbers strings gmap fin_maps sets list.
From S2P Require Import Prelude.
From S2P Require Import Text.
From S2P Require Import Utf8.
From S2P Require Import Io.
From S2P Require Import EgressCodec.

Open Scope Z_scope.

Definition READ_CHUNK : Z := 16 * 1024.
Definition WINDOW_GRANT_THRESHOLD : Z := 16 * 1024.

Inductive Shutdown := ShutWrite | ShutBoth.

Class TcpStream (S : Type) `{Read S, Write S} := {
  try_clone : SE unit S unit;
  shutdown : Shutdown -> S -> S;
}.

(** ** The tty writer *)

Section writer.
Context {W : Type} `{Write W}.

Definition send (frame : EgressFrame) : SE unit W unit := fun w =>
  match encode frame [] with
  | Err _ => (Err tt, w)
  | Ok scratch => (write_all scratch;; flush) w
  end.

(** [payload.chunks(n)]: every chunk takes at least a byte, so the length is
    enough fuel. *)
Fixpoint chunks (fuel n : nat) (l : list Z) : list (list Z) :=
  match fuel, l with
  | S fuel, _ :: _ => take n l :: chunks fuel n (drop n l)
  | _, _ => []
  end.

Fixpoint send_each (stream : Z) (cs : list (list Z)) : SE unit W unit :=
  match cs with
  | [] => mret tt
  | c :: cs => send (Data stream c);; send_each stream cs
  end.

Definition send_data (stream : Z) (payload : list Z) : SE unit W unit :=
  send_each stream (chunks (length payload) (Z.to_nat EGRESS_MAX_PAYLOAD) payload).

End writer.

(** ** Host to guest *)

Inductive Inbound :=
  | InConnected
  | InFailed (r : EgressReason)
  | InData (bytes : list Z)
  | InClose
  | InRst.

(** The stream and the message of a frame; [OPEN] and [WINDOW] are ignored. *)
Definition inbound_of (f : EgressFrame) : option (Z * Inbound) :=
  match f with
  | OpenOk s => Some (s, InConnected)
  | OpenErr s r => Some (s, InFailed r)
  | Data s p => Some (s, InData p)
  | Close s => Some (s, InClose)
  | Rst s => Some (s, InRst)
  | Open _ _ _ | Window _ _ => None
  end.

(** ** SOCKS5h negotiation *)

Record Socks5Target := { host : list Z; port : Z }.

Inductive SocksError := Rejected (rep : Z) | SocksIo.

Definition SOCKS_OK : Z := 0.
Definition SOCKS_GENERAL_FAILURE : Z := 1.
Definition SOCKS_NET_UNREACHABLE : Z := 3.
Definition SOCKS_HOST_UNREACHABLE : Z := 4.
Definition SOCKS_CONN_REFUSED : Z := 5.
Definition SOCKS_CMD_UNSUPPORTED : Z := 7.
Definition SOCKS_ATYP_UNSUPPORTED : Z := 8.

(** [u16::from_be_bytes]. *)
Definition be_u16 (hi lo : Z) : Z := hi * 256 + lo.

Fixpoint join (sep : Z) (parts : list (list Z)) : list Z :=
  match parts with
  | [] => []
  | [p] => p
  | p :: parts => p ++ sep :: join sep parts
  end.

Definition ipv4_text (a : list Z) : list Z :=
  join 46 (dec <$> [byte_at a 0; byte_at a 1; byte_at a 2; byte_at a 3]).

Definition ipv6_text (a : list Z) : list Z :=
  let seg i := hex_lower (be_u16 (byte_at a i) (byte_at a (i + 1))) in
  join 58 (seg <$> [0; 2; 4; 6; 8; 10; 12; 14]%nat).

Section socks.
Context {S : Type} `{Read S, Write S}.

(** [?] on an [io::Result] in the negotiator. *)
Definition io {A} (m : SE unit S A) : SE SocksError S A := map_err (fun _ => SocksIo) m.

Definition read_host (atyp : Z) : SE SocksError S (list Z) :=
  if atyp =? 1 then a ← io (read_exact 4); mret (ipv4_text a)
  else if atyp =? 3 then
    len ← io (read_exact 1);
    name ← io (read_exact (Z.to_nat (byte_at len 0)));
    if from_utf8_ok name then mret name else fail (Rejected SOCKS_GENERAL_FAILURE)
  else if atyp =? 4 then a ← io (read_exact 16); mret (ipv6_text a)
  else fail (Rejected SOCKS_ATYP_UNSUPPORTED).

Definition socks5_negotiate : SE SocksError S Socks5Target :=
  head ← io (read_exact 2);
  if negb (byte_at head 0 =? 5) then fail (Rejected 0) else
  methods ← io (read_exact (Z.to_nat (byte_at head 1)));
  if negb (bool_decide (0 ∈ methods)) then ignore (write_all [5; 255]);; fail (Rejected 0) else
  io (write_all [5; 0]);;
  req ← io (read_exact 4);
  if negb (byte_at req 0 =? 5) then fail (Rejected SOCKS_GENERAL_FAILURE) else
  if negb (byte_at req 1 =? 1) then fail (Rejected SOCKS_CMD_UNSUPPORTED) else
  h ← read_host (byte_at req 3);
  p ← io (read_exact 2);
  let p := be_u16 (byte_at p 0) (byte_at p 1) in
  if (length h =? 0)%nat || (p =? 0) then fail (Rejected SOCKS_GENERAL_FAILURE)
  else mret {| host := h; port := p |}.

Definition socks5_reply (rep : Z) : SE unit S unit := write_all [5; rep; 0; 1; 0; 0; 0; 0; 0; 0].

End socks.

Definition reply_code_for (reason : EgressReason) : Z :=
  match reason with
  | ResolveFailed => SOCKS_HOST_UNREACHABLE
  | ConnectRefused => SOCKS_CONN_REFUSED
  | Unreachable => SOCKS_NET_UNREACHABLE
  | StreamLimit | ProtocolError | Overrun | OtherReason _ => SOCKS_GENERAL_FAILURE
  end.

(** ** The shared state *)

(** A handler's position in [handle_connection]; [Relaying] carries the
    [ungranted] counter of [relay_down]. *)
Inductive Pc :=
  | Negotiate
  | SendOpen (id : Z) (t : Socks5Target)
  | AwaitVerdict (id : Z)
  | Relaying (id ungranted : Z)
  | Joining (id : Z)
  | Deregister (id : Z)
  | Finished.

Inductive UpThread := UpNone | UpRunning (id : Z) | UpDone.

(** One accepted client: its socket (shared with the [relay_up] thread's
    clone), its threads and the queue of its channel. *)
Record Conn (C : Type) := { client : C; pc : Pc; up : UpThread; rx : list Inbound }.
Arguments Build_Conn {C}.
Arguments client {C}.
Arguments pc {C}.
Arguments up {C}.
Arguments rx {C}.

#[export] Instance eta_Conn C : Settable (Conn C) := fun r =>
  Build_Conn (client r) (pc r) (up r) (rx r).

(** The registry maps a live stream id to the connection its sender feeds;
    [demux_buf] is the parse buffer of [demux_loop]; [exited]: the process
    stopped itself. *)
Record Forwarder (W C : Type) := {
  conns : list (Conn C); registry : gmap Z nat; counter : Z; tty : W; demux_buf : list Z; exited : bool }.
Arguments Build_Forwarder {W C}.
Arguments conns {W C}.
Arguments registry {W C}.
Arguments counter {W C}.
Arguments tty {W C}.
Arguments demux_buf {W C}.
Arguments exited {W C}.

#[export] Instance eta_Forwarder W C : Settable (Forwarder W C) := fun r =>
  Build_Forwarder (conns r) (registry r) (counter r) (tty r) (demux_buf r) (exited r).

(** ** Stream ids *)

(** The loop of [register]; [counter.fetch_add] wraps at 32 bits.  65536
    consecutive candidates are all ids, so more turns find nothing new. *)
Fixpoint pick_id (fuel : nat) (reg : gmap Z nat) (counter : Z) : option (Z * Z) :=
  match fuel with
  | O => None
  | S fuel =>
      let cand := as_u16 counter in
      let counter := as_u32 (counter + 1) in
      if bool_decide (is_Some (reg !! cand)) then pick_id fuel reg counter else Some (cand, counter)
  end.

Definition STREAM_IDS : nat := Z.to_nat 65536.

Definition register (reg : gmap Z nat) (counter : Z) (k : nat) : option (Z * gmap Z nat * Z) :=
  '(id, counter) ← pick_id STREAM_IDS reg counter;
  Some (id, <[id := k]> reg, counter).

(** ** The threads *)

Section threads.
Context {W C : Type} `{Write W, TcpStream C}.
Abbreviation F := (Forwarder W C).

(** A write error on a socket is dropped. *)
Definition reply_ignored (rep : Z) (c : C) : C := (socks5_reply rep c).2.

(** [teardown], up to the registry removal (the handler's next step). *)
Definition teardown (id : Z) (c : C) (w : W) : C * W :=
  let w := (send (Rst id) w).2 in
  (shutdown ShutBoth c, w).

(** One message in [relay_down]: the counter to go on with ([None] when the
    function returns), the socket and the tty. *)
Definition relay_down_msg (id ungranted : Z) (m : option Inbound) (c : C) (w : W) : option Z * C * W :=
  match m with
  | Some (InData bytes) =>
      match write_all bytes c with
      | (Err _, c) => (None, c, (send (Rst id) w).2)
      | (Ok _, c) =>
          let ungranted := ungranted + Z.of_nat (length bytes) in
          if WINDOW_GRANT_THRESHOLD <=? ungranted
          then (Some 0, c, (send (Window id (as_u32 ungranted)) w).2)
          else (Some ungranted, c, w)
      end
  | Some InClose => (None, shutdown ShutWrite c, w)
  | Some InRst => (None, c, w)
  | Some InConnected | Some (InFailed _) => (Some ungranted, c, w)
  | None => (None, c, w)
  end.

(** One turn of [relay_up]: whether the thread goes on. *)
Definition relay_up_turn (id : Z) (c : C) (w : W) : bool * C * W :=
  match read (Z.to_nat READ_CHUNK) c with
  | (Ok [], c) => (false, c, (send (Close id) w).2)
  | (Ok bs, c) => let '(r, w) := send_data id bs w in (is_Ok r, c, w)
  | (Err true, c) => (true, c, w)
  | (Err false, c) => (false, c, (send (Rst id) w).2)
  end.

(** The connect verdict: the handler's next position, whether the up thread
    is spawned, the socket and the tty. *)
Definition on_verdict (id : Z) (m : option Inbound) (c : C) (w : W) : Pc * UpThread * C * W :=
  match m with
  | Some InConnected =>
      match socks5_reply SOCKS_OK c with
      | (Err _, c) => let '(c, w) := teardown id c w in (Deregister id, UpNone, c, w)
      | (Ok _, c) =>
          match try_clone c with
          | (Err _, c) => let '(c, w) := teardown id c w in (Deregister id, UpNone, c, w)
          | (Ok _, c) => (Relaying id 0, UpRunning id, c, w)
          end
      end
  | Some (InFailed reason) => (Deregister id, UpNone, reply_ignored (reply_code_for reason) c, w)
  | _ => (Deregister id, UpNone, reply_ignored SOCKS_GENERAL_FAILURE c, w)
  end.

(** [rx.recv()]: a queued message, an error once the queue is empty and the
    sender is gone from the registry; otherwise it blocks ([None]). *)
Definition recv (k : nat) (id : Z) (q : list Inbound) (reg : gmap Z nat) : option (option Inbound * list Inbound) :=
  match q with
  | m :: q => Some (Some m, q)
  | [] => if bool_decide (reg !! id = Some k) then None else Some (None, [])
  end.

Definition set_conn (k : nat) (c : Conn C) (s : F) : F := s <| conns := <[k := c]> (conns s) |>.

(** [handle_connection]: the next action of handler [k]; [None] when it is
    blocked or over. *)
Definition handler_step (k : nat) (s : F) : option F :=
  c ← conns s !! k;
  match pc c with
  | Negotiate =>
      match socks5_negotiate (client c) with
      | (Ok t, cl) =>
          '(id, reg, n) ← register (registry s) (counter s) k;
          Some (set_conn k (c <| client := cl |> <| pc := SendOpen id t |>) s
                  <| registry := reg |> <| counter := n |>)
      | (Err (Rejected rep), cl) =>
          let cl := if negb (rep =? 0) then reply_ignored rep cl else cl in
          Some (set_conn k (c <| client := cl |> <| pc := Finished |>) s)
      | (Err SocksIo, cl) => Some (set_conn k (c <| client := cl |> <| pc := Finished |>) s)
      end
  | SendOpen id t =>
      let '(r, w) := send (Open id (port t) (host t)) (tty s) in
      Some (set_conn k (c <| pc := if is_Ok r then AwaitVerdict id else Deregister id |>) s <| tty := w |>)
  | AwaitVerdict id =>
      '(m, q) ← recv k id (rx c) (registry s);
      let '(p, u, cl, w) := on_verdict id m (client c) (tty s) in
      Some (set_conn k (Build_Conn cl p u q) s <| tty := w |>)
  | Relaying id ungranted =>
      '(m, q) ← recv k id (rx c) (registry s);
      let '(u, cl, w) := relay_down_msg id ungranted m (client c) (tty s) in
      let '(p, cl) := match u with
                      | Some u => (Relaying id u, cl)
                      | None => (Joining id, shutdown ShutBoth cl)
                      end in
      Some (set_conn k (Build_Conn cl p (up c) q) s <| tty := w |>)
  | Joining id =>
      match up c with
      | UpRunning _ => None
      | _ => Some (set_conn k (c <| pc := Deregister id |>) s)
      end
  | Deregister id =>
      Some (set_conn k (c <| pc := Finished |>) s <| registry := delete id (registry s) |>)
  | Finished => None
  end.

Definition up_step (k : nat) (s : F) : option F :=
  c ← conns s !! k;
  match up c with
  | UpRunning id =>
      let '(on, cl, w) := relay_up_turn id (client c) (tty s) in
      Some (set_conn k (c <| client := cl |> <| up := if on then UpRunning id else UpDone |>) s <| tty := w |>)
  | _ => None
  end.

(** [route]: queue the message of a frame for the stream's handler. *)
Definition route (f : EgressFrame) (s : F) : F :=
  match inbound_of f with
  | None => s
  | Some (id, m) =>
      match registry s !! id with
      | None => s
      | Some k =>
          match conns s !! k with
          | Some c => set_conn k (c <| rx := rx c ++ [m] |>) s
          | None => s
          end
      end
  end.

(** The inner loop of [demux_loop], one frame at a time; [None] when the
    buffer holds no whole frame. *)
Definition demux_frame_step (s : F) : option F :=
  match decode (demux_buf s) with
  | Ok (Some d) => Some (route (decoded_frame d) s <| demux_buf := drop (consumed d) (demux_buf s) |>)
  | Ok None => None
  | Err _ => Some (s <| exited := true |>)
  end.

(** The outer loop: what a read of the tty gave. *)
Inductive TtyRead := TtyBytes (bs : list Z) | TtyEof | TtyInterrupted | TtyError.

Definition demux_read_step (ev : TtyRead) (s : F) : option F :=
  match decode (demux_buf s) with
  | Ok None =>
      Some match ev with
           | TtyBytes bs => s <| demux_buf := demux_buf s ++ bs |>
           | TtyInterrupted => s
           | TtyEof | TtyError => s <| exited := true |>
           end
  | _ => None
  end.

(** The accept loop of [try_run] spawns a handler. *)
Definition accept (cl : C) (s : F) : F :=
  s <| conns := conns s ++ [Build_Conn cl Negotiate UpNone []] |>.

(** [try_run], once the tty and the listener are open. *)
Definition forwarder_init (w : W) : F := Build_Forwarder [] ∅ 1 w [] false.

Definition read_ok (ev : TtyRead) : Prop :=
  match ev with TtyBytes bs => bytes_ok bs /\ 0 < Z.of_nat (length bs) <= READ_CHUNK | _ => True end.

(** Any thread may act next; between two actions a client may do anything to
    its side of the socket. *)
Inductive fstep : F -> F -> Prop :=
  | fstep_accept cl s : exited s = false -> fstep s (accept cl s)
  | fstep_handler k s s' : exited s = false -> handler_step k s = Some s' -> fstep s s'
  | fstep_up k s s' : exited s = false -> up_step k s = Some s' -> fstep s s'
  | fstep_demux s s' : exited s = false -> demux_frame_step s = Some s' -> fstep s s'
  | fstep_read ev s s' : exited s = false -> read_ok ev -> demux_read_step ev s = Some s' -> fstep s s'
  | fstep_peer k c cl s : exited s = false -> conns s !! k = Some c ->
      fstep s (set_conn k (c <| client := cl |>) s).

End threads.

#[export] Instance Duplex_TcpStream : TcpStream Duplex := {
  try_clone d := (Ok tt, d);
  shutdown _ d := {| feed := []; taken := taken d |};
}.

(** ** The negotiator *)

Section socks_facts.
Context {S : Type} `{Read S, Write S, !ReadLaws S}.

Lemma io_ok {A} (m : SE unit S A) s a s' : io m s = (Ok a, s') -> m s = (Ok a, s').
Proof. unfold io, map_err. destruct (m s) as [[?|?] ?]; naive_solver. Qed.

Lemma read_exact_ok n s bs s' : io (read_exact n) s = (Ok bs, s') -> length bs = n /\ bytes_ok bs.
Proof. intros ?%io_ok. by eapply read_exact_law. Qed.

Lemma byte_at_fits bs i : bytes_ok bs -> fits 8 (byte_at bs i).
Proof.
  intros Hb. unfold byte_at. destruct (bs !! i) eqn:E; [|unfold fits; simpl; lia].
  by eapply Forall_lookup_1 in Hb.
Qed.

End socks_facts.

(** The texts of an address are short and plain ASCII. *)
Definition ascii_text (s : list Z) : Prop := Forall (fun c => 0 <= c < 128) s.

Lemma join_ascii sep parts : 0 <= sep < 128 -> Forall ascii_text parts -> ascii_text (join sep parts).
Proof.
  intros Hs. induction 1 as [|p parts Hp Hps IH]; [constructor|].
  destruct parts; [done|]. cbn [join]. apply Forall_app. split; [done|]. by constructor.
Qed.

Lemma join_length sep parts w : Forall (fun p => (length p <= w)%nat) parts ->
  (length (join sep parts) <= length parts * (w + 1))%nat.
Proof.
  induction 1 as [|p parts Hp Hps IH]; [simpl; lia|].
  destruct parts; [cbn [join length]; simpl in *; lia|].
  change (join sep (p :: l :: parts)) with (p ++ sep :: join sep (l :: parts)).
  rewrite length_app. cbn [length] in *. lia.
Qed.

Lemma radix_ascii letter base n : (letter = 97 \/ letter = 65) -> 1 < base <= 36 -> ascii_text (radix letter base n).
Proof.
  intros. eapply Forall_impl; [by apply radix_range|]. intros c Hc. cbn beta in Hc. lia.
Qed.

Lemma join_nonempty sep p q parts : join sep (p :: q :: parts) <> [].
Proof. cbn [join]. destruct p; discriminate. Qed.

Lemma be_u16_fits a b : fits 8 a -> fits 8 b -> fits 16 (be_u16 a b).
Proof. unfold fits, be_u16. lia. Qed.

Lemma ipv4_text_ok a : bytes_ok a ->
  ascii_text (ipv4_text a) /\ (length (ipv4_text a) <= 16)%nat /\ ipv4_text a <> [].
Proof.
  intros Ha. unfold ipv4_text, dec. split_and!; [| |apply join_nonempty].
  - apply join_ascii; [lia|]. apply Forall_fmap, Forall_true. intros. apply radix_ascii; lia.
  - etrans; [apply (join_length 46 _ 3)|simpl; lia]. apply Forall_fmap.
    rewrite !Forall_cons, Forall_nil. pose proof (fun i => byte_at_fits a i Ha) as Hf. unfold fits in Hf.
    split_and!; try done; apply radix_length; try lia; change (10 ^ Z.of_nat 3) with 1000;
      match goal with |- context [byte_at a ?i] => specialize (Hf i) end; lia.
Qed.

Lemma ipv6_text_ok a : bytes_ok a ->
  ascii_text (ipv6_text a) /\ (length (ipv6_text a) <= 40)%nat /\ ipv6_text a <> [].
Proof.
  intros Ha. unfold ipv6_text, hex_lower. split_and!; [| |apply join_nonempty].
  - apply join_ascii; [lia|]. apply Forall_fmap, Forall_true. intros. apply radix_ascii; lia.
  - etrans; [apply (join_length 58 _ 4)|simpl; lia]. apply Forall_fmap, Forall_true. intros i.
    apply radix_length; [lia| |lia]. change (16 ^ Z.of_nat 4) with (2 ^ 16).
    apply be_u16_fits; by apply byte_at_fits.
Qed.

Lemma ascii_text_bytes s : ascii_text s -> bytes_ok s.
Proof. intros Hs. eapply Forall_impl; [exact Hs|]. intros c Hc. cbn beta in Hc. unfold fits. lia. Qed.

Lemma ascii_text_utf8 s : ascii_text s -> from_utf8_lossy s = s.
Proof.
  intros Hs. apply from_utf8_lossy_ascii. eapply Forall_impl; [exact Hs|]. intros c Hc. cbn beta in Hc. lia.
Qed.

(** What the negotiator promises about a destination: the frame that opens it
    can be sent, and the host side's text conversion does not change it. *)
Record target_ok (t : Socks5Target) : Prop := {
  target_bytes : bytes_ok (host t);
  target_len : 0 < Z.of_nat (length (host t)) <= EGRESS_MAX_HOST_LEN;
  target_text : from_utf8_lossy (host t) = host t;
  target_port : 0 < port t < 2 ^ 16;
}.

Section negotiate_facts.
Context {S : Type} `{Read S, Write S, !ReadLaws S}.

Lemma read_host_ok atyp s h s' : read_host atyp s = (Ok h, s') ->
  bytes_ok h /\ Z.of_nat (length h) <= EGRESS_MAX_HOST_LEN /\ from_utf8_lossy h = h.
Proof.
  unfold read_host, EGRESS_MAX_HOST_LEN. destruct (atyp =? 1); [|destruct (atyp =? 3); [|destruct (atyp =? 4)]].
  - intros (a & s1 & (_ & Ha)%read_exact_ok & [= <- _])%SE_bind_ok.
    destruct (ipv4_text_ok a Ha) as (Hx & Hl & _).
    split; [by apply ascii_text_bytes|]. split; [lia|]. by apply ascii_text_utf8.
  - intros (len & s1 & (_ & Hl)%read_exact_ok & (name & s2 & (Hn & Hb)%read_exact_ok & Hr)%SE_bind_ok)%SE_bind_ok.
    destruct (from_utf8_ok name) eqn:Eu; [|done]. injection Hr as <- _. split; [done|].
    split; [|by apply from_utf8_ok_lossy]. pose proof (byte_at_fits len 0 Hl). unfold fits in *. lia.
  - intros (a & s1 & (_ & Ha)%read_exact_ok & [= <- _])%SE_bind_ok.
    destruct (ipv6_text_ok a Ha) as (Hx & Hl & _).
    split; [by apply ascii_text_bytes|]. split; [lia|]. by apply ascii_text_utf8.
  - done.
Qed.

Lemma negotiate_ok s t s' : socks5_negotiate s = (Ok t, s') -> target_ok t.
Proof.
  unfold socks5_negotiate. intros (hd & s1 & _ & Hr)%SE_bind_ok.
  destruct (negb _); [done|]. apply SE_bind_ok in Hr as (ms & s2 & _ & Hr).
  destruct (negb _).
  { by apply SE_bind_ok in Hr as (? & ? & _ & ?). }
  apply SE_bind_ok in Hr as (? & s3 & _ & Hr). apply SE_bind_ok in Hr as (req & s4 & _ & Hr).
  destruct (negb _); [done|]. destruct (negb _); [done|].
  apply SE_bind_ok in Hr as (h & s5 & (Hb & Hl & Ht)%read_host_ok & Hr).
  apply SE_bind_ok in Hr as (p & s6 & (_ & Hp)%read_exact_ok & Hr).
  destruct (_ || _) eqn:E; [done|]. injection Hr as <- _. bool_prop.
  pose proof (be_u16_fits _ _ (byte_at_fits p 0 Hp) (byte_at_fits p 1 Hp)) as Hf. unfold fits in Hf.
  match goal with Hh : (length h =? 0)%nat = false |- _ => apply Nat.eqb_neq in Hh end.
  split; cbn [host port]; try done; lia.
Qed.

End negotiate_facts.

(** ** Stream ids *)

Lemma pick_id_fresh fuel reg c id c' : pick_id fuel reg c = Some (id, c') ->
  reg !! id = None /\ fits 16 id /\ fits 32 c'.
Proof.
  revert c. induction fuel as [|fuel IH]; intros c; [done|]. cbn [pick_id].
  destruct (bool_decide _) eqn:E; [apply IH|]. bool_prop. intros [= <- <-].
  split; [by apply eq_None_not_Some|]. split; [apply as_u16_fits|apply as_u32_fits].
Qed.

Lemma as_u16_as_u32_add a i : as_u16 (as_u32 a + i) = as_u16 (a + i).
Proof.
  unfold as_u16, as_u32, wrap. rewrite (Z.add_mod (a mod 2 ^ 32) i), (Z.add_mod a i) by lia. f_equal. f_equal.
  change (2 ^ 32) with (2 ^ 16 * 2 ^ 16). rewrite Z.rem_mul_r by lia.
  rewrite (Z.mul_comm (2 ^ 16) (_ mod _)), Z_mod_plus_full. apply Z.mod_mod. lia.
Qed.

Lemma pick_id_none fuel reg c : pick_id fuel reg c = None ->
  forall i, 0 <= i < Z.of_nat fuel -> is_Some (reg !! as_u16 (c + i)).
Proof.
  revert c. induction fuel as [|fuel IH]; intros c Hp i Hi; [lia|]. cbn [pick_id] in Hp.
  destruct (bool_decide _) eqn:E; [|done]. bool_prop.
  destruct (decide (i = 0)) as [->|]; [by rewrite Z.add_0_r|].
  specialize (IH _ Hp (i - 1) ltac:(lia)). rewrite as_u16_as_u32_add in IH.
  by replace (c + 1 + (i - 1)) with (c + i) in IH by lia.
Qed.

(** The loop misses only as many times as there are live streams. *)
Lemma pick_id_attempts fuel reg c : (fuel <= STREAM_IDS)%nat -> pick_id fuel reg c = None ->
  (fuel <= size reg)%nat.
Proof.
  intros Hf Hp. pose proof (pick_id_none _ _ _ Hp) as Hall.
  set (ids := (fun i => as_u16 (c + i)) <$> seqZ 0 (Z.of_nat fuel)).
  assert (NoDup ids) as Hnd.
  { apply NoDup_fmap_2_strong; [|apply NoDup_seqZ]. intros x y Hx%elem_of_seqZ Hy%elem_of_seqZ E.
    unfold STREAM_IDS in Hf. wrap_lia. }
  assert (list_to_set ids ⊆ dom reg) as Hsub.
  { intros id Hid. apply elem_of_list_to_set, list_elem_of_fmap in Hid as (i & -> & Hi%elem_of_seqZ).
    apply elem_of_dom, Hall. lia. }
  apply subseteq_size in Hsub. rewrite size_list_to_set, size_dom in Hsub by done.
  unfold ids in Hsub. rewrite length_fmap, length_seqZ in Hsub. lia.
Qed.

(** ** What reaches the tty *)

(** A stream was opened in a sequence of frames; every frame of the sequence
    opens a stream or belongs to one opened before it. *)
Definition opened (fs : list EgressFrame) (id : Z) : Prop := exists p h, Open id p h ∈ fs.

Definition is_open (f : EgressFrame) : bool := match f with Open _ _ _ => true | _ => false end.

Definition opened_first (fs : list EgressFrame) : Prop :=
  forall i f, fs !! i = Some f -> is_open f = true \/ opened (take i fs) (frame_stream f).

Lemma opened_app fs gs id : opened fs id -> opened (fs ++ gs) id.
Proof. intros (p & h & Hi). exists p, h. apply elem_of_app. by left. Qed.

Lemma opened_first_snoc fs f : opened_first fs -> is_open f = true \/ opened fs (frame_stream f) ->
  opened_first (fs ++ [f]).
Proof.
  intros Hfs Hf i g Hg. destruct (decide (i < length fs)%nat) as [Hi|Hi].
  - rewrite lookup_app_l in Hg by done. rewrite take_app_le by lia. by apply Hfs.
  - rewrite lookup_app_r in Hg by lia. apply list_lookup_singleton_Some in Hg as [Hi' <-].
    rewrite take_app_ge by lia. destruct Hf as [?|?]; [by left|right]. by apply opened_app.
Qed.

Section trace.
Context {W : Type} `{Write W, !WriteLaws W}.

(** While no write failed, the tty holds whole frames only, in an order in
    which streams are opened before they are used; [act] is a set of streams
    known to be open. *)
Definition trace_ok (w : W) (act : Z -> Prop) : Prop :=
  intact w = true -> exists fs, Forall frame_ok fs /\ written w = concat (wire <$> fs)
    /\ opened_first fs /\ (forall id, act id -> opened fs id).

Lemma trace_mono w act act' : trace_ok w act -> (forall id, act' id -> act id) -> trace_ok w act'.
Proof. intros Ht Hi Hw. destruct (Ht Hw) as (fs & ? & ? & ? & Ho). exists fs. split_and!; auto. Qed.

Lemma send_spec f w r w' : frame_ok f -> send f w = (r, w') -> intact w' = true ->
  intact w = true /\ written w' = written w ++ wire f.
Proof.
  intros Hf. unfold send. rewrite encode_wire by done. cbn [app]. unfold mbind, SE_bind.
  destruct (write_all (wire f) w) as [[?|?] w1] eqn:E1.
  - intros E2 Hi. destruct (flush_law w1 r w' E2 Hi) as [Hi1 ->].
    by destruct (write_all_law _ _ _ _ E1 Hi1) as (_ & ? & ?).
  - intros [= <- <-] Hi. by destruct (write_all_law _ _ _ _ E1 Hi) as (? & _).
Qed.

Lemma trace_send f w act : trace_ok w act -> frame_ok f ->
  is_open f = true \/ act (frame_stream f) ->
  trace_ok (send f w).2 (fun id => act id \/ (is_open f = true /\ id = frame_stream f)).
Proof.
  intros Ht Hf Ha Hi. destruct (send f w) as [r w'] eqn:E. cbn [snd] in *.
  destruct (send_spec f w r w' Hf E Hi) as [Hi0 Hw]. destruct (Ht Hi0) as (fs & Hfs & Ew & Ho & Hact).
  exists (fs ++ [f]). split_and!.
  - apply Forall_app. split; [done|]. by apply Forall_singleton.
  - rewrite Hw, Ew, fmap_app, concat_app. cbn [fmap list_fmap concat]. by rewrite app_nil_r.
  - apply opened_first_snoc; [done|]. destruct Ha as [?|?]; [by left|right; by apply Hact].
  - intros id [Hid|[Hop ->]]; [by apply opened_app, Hact|].
    destruct f; try done. eexists _, _. apply elem_of_app. right. by apply list_elem_of_singleton.
Qed.

(** A frame that opens nothing leaves the set alone. *)
Lemma trace_send_on f w (act : Z -> Prop) : trace_ok w act -> frame_ok f -> act (frame_stream f) ->
  trace_ok (send f w).2 act.
Proof. intros Ht Hf Ha. eapply trace_mono; [by apply trace_send; [| |right]|]. intros id Hid. by left. Qed.

Lemma chunks_ok fuel n l : (0 < n)%nat -> (length l <= fuel)%nat ->
  concat (chunks fuel n l) = l /\ Forall (fun c => (0 < length c <= n)%nat) (chunks fuel n l).
Proof.
  intros Hn. revert l. induction fuel as [|fuel IH]; intros l Hl.
  { destruct l; [split; [done|constructor]|simpl in Hl; lia]. }
  destruct l as [|x l]; [split; [done|constructor]|]. cbn [chunks concat].
  destruct (IH (drop n (x :: l))) as [IHc IHl]; [rewrite length_drop; simpl in *; lia|].
  split; [by rewrite IHc, take_drop|]. constructor; [|done]. rewrite length_take. simpl. lia.
Qed.

Lemma trace_send_each id cs w (act : Z -> Prop) : trace_ok w act -> act id -> fits 16 id ->
  Forall (fun c => frame_ok (Data id c)) cs -> trace_ok (send_each id cs w).2 act.
Proof.
  intros Ht Ha Hid Hcs. revert w Ht. induction Hcs as [|c cs Hc _ IH]; intros w Ht; [done|].
  cbn [send_each]. unfold mbind, SE_bind. pose proof (trace_send_on _ w act Ht Hc Ha) as Hs.
  destruct (send (Data id c) w) as [[?|?] w1]; [by apply IH|done].
Qed.

Lemma trace_send_data id bs w (act : Z -> Prop) : trace_ok w act -> act id -> fits 16 id -> bytes_ok bs ->
  trace_ok (send_data id bs w).2 act.
Proof.
  intros Ht Ha Hid Hb. apply trace_send_each; try done.
  destruct (chunks_ok (length bs) (Z.to_nat EGRESS_MAX_PAYLOAD) bs) as [Hc Hl]; [unfold EGRESS_MAX_PAYLOAD; lia|done|].
  assert (Forall bytes_ok (chunks (length bs) (Z.to_nat EGRESS_MAX_PAYLOAD) bs)) as Hbs.
  { apply Forall_concat. by rewrite Hc. }
  revert Hl Hbs. generalize (chunks (length bs) (Z.to_nat EGRESS_MAX_PAYLOAD) bs). intros cs Hl Hbs.
  apply Forall_forall. intros c Hin. split; [done|]. rewrite Forall_forall in Hl, Hbs.
  specialize (Hl c Hin). specialize (Hbs c Hin). cbn beta in Hl. split; [done|]. lia.
Qed.

End trace.

(** ** The invariant of the shared state *)

(** The id a handler has registered, and the id it may emit frames for. *)
Definition holds (p : Pc) : option Z :=
  match p with
  | SendOpen id _ | AwaitVerdict id | Relaying id _ | Joining id | Deregister id => Some id
  | Negotiate | Finished => None
  end.

Definition talking (p : Pc) : option Z :=
  match p with
  | AwaitVerdict id | Relaying id _ | Joining id => Some id
  | _ => None
  end.

Definition inbound_ok (m : Inbound) : Prop :=
  match m with InData bs => bytes_ok bs /\ Z.of_nat (length bs) <= EGRESS_MAX_PAYLOAD | _ => True end.

Record conn_ok {C} (c : Conn C) : Prop := {
  conn_target id t : pc c = SendOpen id t -> target_ok t;
  conn_ungranted id u : pc c = Relaying id u -> 0 <= u < WINDOW_GRANT_THRESHOLD;
  conn_up id : up c = UpRunning id -> (exists u, pc c = Relaying id u) \/ pc c = Joining id;
  conn_rx : Forall inbound_ok (rx c);
}.

Lemma talking_holds p id : talking p = Some id -> holds p = Some id.
Proof. by destruct p. Qed.

Lemma window_frame_ok id n : fits 16 id -> 0 <= n -> frame_ok (Window id (as_u32 n)).
Proof. intros Hid Hn. split; [done|]. apply as_u32_fits. Qed.

Section invariant.
Context {W C : Type} `{Write W, !WriteLaws W, TcpStream C, !ReadLaws C}.
Abbreviation F := (Forwarder W C).

Definition active (s : F) (id : Z) : Prop := exists k c, conns s !! k = Some c /\ talking (pc c) = Some id.

Record FInv (s : F) : Prop := {
  finv_conns : Forall conn_ok (conns s);
  finv_registry id k : registry s !! id = Some k <-> exists c, conns s !! k = Some c /\ holds (pc c) = Some id;
  finv_ids id : is_Some (registry s !! id) -> fits 16 id;
  finv_buf : bytes_ok (demux_buf s);
  finv_trace : trace_ok (tty s) (active s);
}.

Lemma finv_held (s : F) k c id : FInv s -> conns s !! k = Some c -> holds (pc c) = Some id -> fits 16 id.
Proof. intros Hs Hk Hh. apply (finv_ids s Hs). exists k. apply finv_registry; [done|]. by exists c. Qed.

(** An update of one connection that keeps its id. *)
Lemma FInv_update k c c' w s : FInv s -> conns s !! k = Some c -> conn_ok c' -> holds (pc c') = holds (pc c) ->
  trace_ok w (fun id => active s id \/ talking (pc c') = Some id) -> FInv (set_conn k c' s <| tty := w |>).
Proof.
  intros [Hc Hr Hi Hb Ht] Hk Hok Hh Hw. pose proof (lookup_lt_Some _ _ _ Hk) as Hlt.
  split; cbn [conns registry counter tty demux_buf set_conn set_field]; try done.
  - by apply Forall_insert.
  - intros id j. rewrite Hr. destruct (decide (j = k)) as [->|Hj].
    + rewrite list_lookup_insert_eq by done. rewrite Hk. split; intros (x & [= <-] & Hx); eexists; split; try done; congruence.
    + by rewrite list_lookup_insert_ne.
  - eapply trace_mono; [exact Hw|]. intros id (j & x & Hx & Hid). cbn [conns set_field] in Hx.
    apply list_lookup_insert_Some in Hx as [(-> & <- & _)|[_ Hx]]; [by right|left]. by exists j, x.
Qed.

Lemma active_in (s : F) k c id : conns s !! k = Some c -> talking (pc c) = Some id -> active s id.
Proof. intros. by exists k, c. Qed.

Lemma trace_or (w : W) act p : trace_ok w act -> (forall id, talking p = Some id -> act id) ->
  trace_ok w (fun id => act id \/ talking p = Some id).
Proof. intros Ht Hp. eapply trace_mono; [exact Ht|]. intros id [?|?]; [done|by apply Hp]. Qed.

(** An update that touches neither the tty nor the positions. *)
Lemma FInv_local k c c' s : FInv s -> conns s !! k = Some c -> conn_ok c' -> holds (pc c') = holds (pc c) ->
  (forall id, talking (pc c') = Some id -> talking (pc c) = Some id) -> FInv (set_conn k c' s).
Proof.
  intros Hs Hk Hok Hh Htk. destruct s as [cs rg ct w db ex].
  apply (FInv_update k c c' w (Build_Forwarder cs rg ct w db ex)); try done.
  apply trace_or; [apply Hs|]. intros id Hid. eapply active_in; [exact Hk|]. by apply Htk.
Qed.

Lemma relay_down_ok id u m c (w : W) act u' c' w' :
  trace_ok w act -> act id -> fits 16 id -> 0 <= u < WINDOW_GRANT_THRESHOLD ->
  (forall x, m = Some x -> inbound_ok x) -> relay_down_msg id u m c w = (u', c', w') ->
  trace_ok w' act /\ (forall x, u' = Some x -> 0 <= x < WINDOW_GRANT_THRESHOLD).
Proof.
  intros Ht Ha Hid Hu Hm. unfold relay_down_msg.
  destruct m as [[|r|bytes| |]|]; try (intros [= <- <- <-]; split; [done|naive_solver]).
  destruct (write_all bytes c) as [[?|?] c1].
  - destruct (_ <=? _) eqn:E; bool_prop; intros [= <- <- <-].
    + split; [|intros x [= <-]; unfold WINDOW_GRANT_THRESHOLD; lia].
      apply trace_send_on; [done|apply window_frame_ok; [done|lia]|done].
    + split; [done|]. intros x [= <-]. lia.
  - intros [= <- <- <-]. split; [|done]. by apply trace_send_on.
Qed.

Lemma relay_up_ok id c (w : W) act on c' w' :
  trace_ok w act -> act id -> fits 16 id -> relay_up_turn id c w = (on, c', w') -> trace_ok w' act.
Proof.
  intros Ht Ha Hid. unfold relay_up_turn.
  destruct (read (Z.to_nat READ_CHUNK) c) as [[[|b bs]|[]] c1] eqn:E; try (intros [= <- <- <-]; by try apply trace_send_on).
  destruct (send_data id (b :: bs) w) as [r w1] eqn:Es. intros [= <- <- <-].
  apply read_law in E as [_ Hb]. pose proof (trace_send_data id (b :: bs) w act Ht Ha Hid Hb) as Hs.
  by rewrite Es in Hs.
Qed.

Lemma on_verdict_ok id m c (w : W) act p u c' w' :
  trace_ok w act -> act id -> fits 16 id -> on_verdict id m c w = (p, u, c', w') ->
  trace_ok w' act /\ ((p = Deregister id /\ u = UpNone) \/ (p = Relaying id 0 /\ u = UpRunning id)).
Proof.
  intros Ht Ha Hid. pose proof (trace_send_on (Rst id) w act Ht ltac:(done) Ha) as Hr. unfold on_verdict, teardown.
  destruct m as [[|r|bytes| |]|]; try (intros [= <- <- <- <-]; by split; [|left]).
  destruct (socks5_reply SOCKS_OK c) as [[?|?] c1]; [destruct (try_clone c1) as [[?|?] c2]|];
    intros [= <- <- <- <-]; (split; [done|]); [by right|by left|by left].
Qed.

Lemma recv_ok k id q reg m q' : Forall inbound_ok q -> recv k id q reg = Some (m, q') ->
  (forall x, m = Some x -> inbound_ok x) /\ Forall inbound_ok q'.
Proof.
  intros Hq. destruct q as [|x q]; cbn [recv].
  - destruct (bool_decide _); [done|]. intros [= <- <-]. split; [done|constructor].
  - intros [= <- <-]. apply Forall_cons in Hq as [Hx Hq]. split; [by intros ? [= <-]|done].
Qed.


(** Registering a fresh id for a handler that had none. *)
Lemma FInv_register k c c' id n s : FInv s -> conns s !! k = Some c -> conn_ok c' ->
  holds (pc c) = None -> holds (pc c') = Some id -> talking (pc c') = None ->
  registry s !! id = None -> fits 16 id ->
  FInv (set_conn k c' s <| registry := <[id := k]> (registry s) |> <| counter := n |>).
Proof.
  intros [Hc Hr Hi Hb Ht] Hk Hok Hno Hh Htk Hfresh Hfit. pose proof (lookup_lt_Some _ _ _ Hk) as Hlt.
  split; cbn [conns registry counter tty demux_buf set_conn set_field]; try done.
  - by apply Forall_insert.
  - intros i j. rewrite lookup_insert_Some, Hr. destruct (decide (j = k)) as [->|Hj].
    + rewrite list_lookup_insert_eq by done. rewrite Hk. naive_solver.
    + rewrite list_lookup_insert_ne by done. split; [naive_solver|]. intros (x & Hx & Hix). right.
      split; [|by exists x]. intros <-. assert (registry s !! id = Some j) by (apply Hr; by exists x). congruence.
  - intros i [j Hj]. apply lookup_insert_Some in Hj as [[<- _]|[_ Hj]]; [done|]. apply Hi. by exists j.
  - eapply trace_mono; [exact Ht|]. intros i (j & x & Hx & Hid). cbn [conns set_field] in Hx.
    apply list_lookup_insert_Some in Hx as [(-> & <- & _)|[_ Hx]]; [congruence|]. by exists j, x.
Qed.

(** Giving the id back. *)
Lemma FInv_deregister k c c' id s : FInv s -> conns s !! k = Some c -> conn_ok c' ->
  holds (pc c) = Some id -> holds (pc c') = None ->
  FInv (set_conn k c' s <| registry := delete id (registry s) |>).
Proof.
  intros [Hc Hr Hi Hb Ht] Hk Hok Hh Hno. pose proof (lookup_lt_Some _ _ _ Hk) as Hlt.
  assert (Hid : registry s !! id = Some k) by (apply Hr; by exists c).
  split; cbn [conns registry counter tty demux_buf set_conn set_field]; try done.
  - by apply Forall_insert.
  - intros i j. rewrite lookup_delete_Some, Hr. destruct (decide (j = k)) as [->|Hj].
    + rewrite list_lookup_insert_eq by done. rewrite Hk. naive_solver.
    + rewrite list_lookup_insert_ne by done. split; [naive_solver|]. intros (x & Hx & Hix).
      split; [|by exists x]. intros <-. assert (registry s !! id = Some j) by (apply Hr; by exists x). congruence.
  - intros i [j [_ Hj]%lookup_delete_Some]. apply Hi. by exists j.
  - eapply trace_mono; [exact Ht|]. intros i (j & x & Hx & Hix). cbn [conns set_field] in Hx.
    apply list_lookup_insert_Some in Hx as [(-> & <- & _)|[_ Hx]]; [|by exists j, x].
    apply talking_holds in Hix. congruence.
Qed.

Lemma up_excluded (c : Conn C) : conn_ok c -> match pc c with Relaying _ _ | Joining _ => False | _ => True end ->
  forall id, up c <> UpRunning id.
Proof. intros Hc Hp id Hu. by destruct (conn_up _ Hc id Hu) as [[u E]|E]; rewrite E in Hp. Qed.

Ltac conn_fields := cbn [client pc up rx set_field].

Lemma handler_negotiate k c s s' : FInv s -> conns s !! k = Some c -> pc c = Negotiate ->
  handler_step k s = Some s' -> FInv s'.
Proof.
  intros Hs Hk Hp. pose proof (Forall_lookup_1 _ _ _ _ (finv_conns s Hs) Hk) as Hok.
  pose proof (up_excluded c Hok ltac:(by rewrite Hp)) as Hup.
  assert (forall cl p, (p = Finished \/ exists id t, p = SendOpen id t /\ target_ok t) ->
            conn_ok (c <| client := cl |> <| pc := p |>)) as Hfin.
  { intros cl p Hpp. split; conn_fields; [| |intros id Hu; by destruct (Hup id)|apply Hok];
      destruct Hpp as [->|(? & ? & -> & ?)]; naive_solver. }
  unfold handler_step. rewrite Hk. cbn [mbind option_bind]. rewrite Hp.
  destruct (socks5_negotiate (client c)) as [[t|[rep|]] cl] eqn:En.
  - unfold register. destruct (pick_id _ _ _) as [[id n]|] eqn:Ei; [|done]. cbn [mbind option_bind]. intros [= <-].
    destruct (pick_id_fresh _ _ _ _ _ Ei) as (Hfr & Hfit & _).
    eapply FInv_register; conn_fields; try done; [|by rewrite Hp].
    apply Hfin. right. exists id, t. split; [done|]. by eapply negotiate_ok.
  - intros [= <-]. eapply FInv_local; conn_fields; try done; [apply Hfin; by left|by rewrite Hp].
  - intros [= <-]. eapply FInv_local; conn_fields; try done; [apply Hfin; by left|by rewrite Hp].
Qed.

Lemma handler_open k c id t s s' : FInv s -> conns s !! k = Some c -> pc c = SendOpen id t ->
  handler_step k s = Some s' -> FInv s'.
Proof.
  intros Hs Hk Hp. pose proof (Forall_lookup_1 _ _ _ _ (finv_conns s Hs) Hk) as Hok.
  pose proof (up_excluded c Hok ltac:(by rewrite Hp)) as Hup.
  assert (Hid : fits 16 id) by (eapply finv_held; [done|exact Hk|by rewrite Hp]).
  destruct (conn_target _ Hok _ _ Hp) as [Hb Hl _ Hpo].
  assert (Hf : frame_ok (Open id (port t) (host t))).
  { split; [done|]. split; [unfold fits; lia|]. split; [done|lia]. }
  pose proof (trace_send _ _ _ (finv_trace s Hs) Hf ltac:(by left)) as Ht.
  unfold handler_step. rewrite Hk. cbn [mbind option_bind]. rewrite Hp.
  destruct (send _ (tty s)) as [r w] eqn:Es. cbn [snd] in Ht. intros [= <-].
  eapply FInv_update; conn_fields; [done|exact Hk| | |].
  - split; conn_fields; [by destruct (is_Ok r)|by destruct (is_Ok r)|intros i Hu; by destruct (Hup i)|apply Hok].
  - rewrite Hp. by destruct (is_Ok r).
  - eapply trace_mono; [exact Ht|]. cbn [frame_stream is_open]. intros i [?|Hi]; [by left|right].
    destruct (is_Ok r); [|done]. cbn [talking] in Hi. by injection Hi.
Qed.

Lemma handler_verdict k c id s s' : FInv s -> conns s !! k = Some c -> pc c = AwaitVerdict id ->
  handler_step k s = Some s' -> FInv s'.
Proof.
  intros Hs Hk Hp. pose proof (Forall_lookup_1 _ _ _ _ (finv_conns s Hs) Hk) as Hok.
  assert (Hid : fits 16 id) by (eapply finv_held; [done|exact Hk|by rewrite Hp]).
  assert (Ha : active s id) by (eapply active_in; [exact Hk|by rewrite Hp]).
  unfold handler_step. rewrite Hk. cbn [mbind option_bind]. rewrite Hp.
  destruct (recv k id (rx c) (registry s)) as [[m q]|] eqn:Er; [|done]. cbn [mbind option_bind].
  destruct (recv_ok _ _ _ _ _ _ (conn_rx _ Hok) Er) as [_ Hq].
  destruct (on_verdict id m (client c) (tty s)) as [[[p u] cl] w] eqn:Ev. intros [= <-].
  destruct (on_verdict_ok _ _ _ _ _ _ _ _ _ (finv_trace s Hs) Ha Hid Ev) as [Ht Hpu].
  eapply FInv_update; conn_fields; [done|exact Hk| | |].
  - destruct Hpu as [[-> ->]|[-> ->]]; split; conn_fields; try done; [|naive_solver].
    intros ? ? [= <- <-]. unfold WINDOW_GRANT_THRESHOLD. lia.
  - rewrite Hp. by destruct Hpu as [[-> _]|[-> _]].
  - apply trace_or; [done|]. intros i Hi. destruct Hpu as [[-> _]|[-> _]]; [done|]. by injection Hi as <-.
Qed.

Lemma handler_relay k c id u s s' : FInv s -> conns s !! k = Some c -> pc c = Relaying id u ->
  handler_step k s = Some s' -> FInv s'.
Proof.
  intros Hs Hk Hp. pose proof (Forall_lookup_1 _ _ _ _ (finv_conns s Hs) Hk) as Hok.
  assert (Hid : fits 16 id) by (eapply finv_held; [done|exact Hk|by rewrite Hp]).
  assert (Ha : active s id) by (eapply active_in; [exact Hk|by rewrite Hp]).
  unfold handler_step. rewrite Hk. cbn [mbind option_bind]. rewrite Hp.
  destruct (recv k id (rx c) (registry s)) as [[m q]|] eqn:Er; [|done]. cbn [mbind option_bind].
  destruct (recv_ok _ _ _ _ _ _ (conn_rx _ Hok) Er) as [Hm Hq].
  destruct (relay_down_msg id u m (client c) (tty s)) as [[u' cl] w] eqn:Ed.
  destruct (relay_down_ok _ _ _ _ _ _ _ _ _ (finv_trace s Hs) Ha Hid (conn_ungranted _ Hok _ _ Hp) Hm Ed) as [Ht Hu].
  assert (forall i, up c = UpRunning i -> i = id) as Hup.
  { intros i Hi. destruct (conn_up _ Hok i Hi) as [[? E]|E]; congruence. }
  destruct u' as [x|]; intros [= <-]; (eapply FInv_update; conn_fields; [done|exact Hk| | |]); try (by rewrite Hp);
    try (apply trace_or; [done|]; intros i Hi; by injection Hi as <-); split; conn_fields; try done.
  - intros ? ? [= <- <-]. by apply Hu.
  - intros i Hi. left. exists x. by rewrite (Hup i Hi).
  - intros i Hi. right. by rewrite (Hup i Hi).
Qed.

Lemma FInv_handler k s s' : FInv s -> handler_step k s = Some s' -> FInv s'.
Proof.
  intros Hs Hst. destruct (conns s !! k) as [c|] eqn:Hk; [|unfold handler_step in Hst; by rewrite Hk in Hst].
  pose proof (Forall_lookup_1 _ _ _ _ (finv_conns s Hs) Hk) as Hok.
  destruct (pc c) eqn:Hp; [by eapply handler_negotiate|by eapply handler_open|by eapply handler_verdict
    |by eapply handler_relay| | |]; unfold handler_step in Hst; rewrite Hk in Hst; cbn [mbind option_bind] in Hst;
    rewrite Hp in Hst; [| |done].
  - destruct (up c) eqn:Hu; [|done|]; injection Hst as <-; (eapply FInv_local; conn_fields;
      [done|exact Hk| |by rewrite Hp|done]); (split; conn_fields; try done; [by rewrite Hu|apply Hok]).
  - injection Hst as <-. eapply FInv_deregister; conn_fields; [done|exact Hk| |by rewrite Hp|done].
    pose proof (up_excluded c Hok ltac:(by rewrite Hp)) as Hup.
    split; conn_fields; try done; [|apply Hok]. intros i Hi. by destruct (Hup i).
Qed.

Lemma FInv_up k s s' : FInv s -> up_step k s = Some s' -> FInv s'.
Proof.
  intros Hs. unfold up_step. destruct (conns s !! k) as [c|] eqn:Hk; [|done]. cbn [mbind option_bind].
  pose proof (Forall_lookup_1 _ _ _ _ (finv_conns s Hs) Hk) as Hok.
  destruct (up c) as [|id|] eqn:Hu; try done.
  assert (Hp : talking (pc c) = Some id) by (destruct (conn_up _ Hok id Hu) as [[u ->]| ->]; done).
  assert (Ha : active s id) by (by eapply active_in).
  assert (Hid : fits 16 id) by (eapply finv_held; [done|exact Hk|by apply talking_holds]).
  destruct (relay_up_turn id (client c) (tty s)) as [[on cl] w] eqn:Eu. intros [= <-].
  pose proof (relay_up_ok _ _ _ _ _ _ _ (finv_trace s Hs) Ha Hid Eu) as Ht.
  eapply FInv_update; conn_fields; [done|exact Hk| |done|].
  - split; conn_fields; try apply Hok. intros i Hi. apply Hok. destruct on; [|done]. congruence.
  - apply trace_or; [done|]. intros i Hi. congruence.
Qed.

Lemma FInv_buf l s : FInv s -> bytes_ok l -> FInv (s <| demux_buf := l |>).
Proof. intros [] Hl. by split. Qed.

Lemma FInv_exit s : FInv s -> FInv (s <| exited := true |>).
Proof. intros []. by split. Qed.

Lemma inbound_of_ok f id m : frame_ok f -> inbound_of f = Some (id, m) -> inbound_ok m.
Proof. intros [_ Hf]. destruct f; intros [= <- <-]; done. Qed.

Lemma FInv_route f s : FInv s -> frame_ok f -> FInv (route f s).
Proof.
  intros Hs Hf. unfold route. destruct (inbound_of f) as [[id m]|] eqn:Ei; [|done].
  destruct (registry s !! id) as [k|]; [|done]. destruct (conns s !! k) as [c|] eqn:Hk; [|done].
  pose proof (Forall_lookup_1 _ _ _ _ (finv_conns s Hs) Hk) as Hok.
  eapply FInv_local; conn_fields; [done|exact Hk| |done|done].
  split; conn_fields; try apply Hok. apply Forall_app. split; [apply Hok|].
  apply Forall_singleton. by eapply inbound_of_ok.
Qed.

Lemma FInv_demux s s' : FInv s -> demux_frame_step s = Some s' -> FInv s'.
Proof.
  intros Hs. unfold demux_frame_step. destruct (decode (demux_buf s)) as [[d|]|] eqn:Ed; intros [= <-].
  - destruct (decode_sound _ _ (finv_buf s Hs) Ed) as (Hf & _ & _).
    apply FInv_route; [|done]. apply FInv_buf; [done|]. apply Forall_drop, Hs.
  - by apply FInv_exit.
Qed.

Lemma FInv_step s s' : FInv s -> fstep s s' -> FInv s'.
Proof.
  intros Hs Hst. destruct Hst as [cl s _|k s s' _ E|k s s' _ E|s s' _ E|ev s s' _ Hev E|k c cl s _ Hk].
  - destruct Hs as [Hc Hr Hi Hb Ht]. split; cbn [conns registry tty demux_buf accept set_field]; try done.
    + apply Forall_app. split; [done|]. apply Forall_singleton. by split.
    + intros id k. rewrite Hr. split; intros (c & Hk & Hh); exists c; (split; [|done]).
      * by apply lookup_app_l_Some.
      * apply lookup_app_Some in Hk as [?|[_ Hk]]; [done|]. apply list_lookup_singleton_Some in Hk as [_ <-]. done.
    + eapply trace_mono; [exact Ht|]. intros id (k & c & Hk & Hid). exists k, c. split; [|done].
      apply lookup_app_Some in Hk as [?|[_ Hk]]; [done|]. by apply list_lookup_singleton_Some in Hk as [_ <-].
  - by eapply FInv_handler.
  - by eapply FInv_up.
  - by eapply FInv_demux.
  - unfold demux_read_step in E. destruct (decode _) as [[d|]|]; try done. injection E as <-.
    destruct ev as [bs| | |]; [|by apply FInv_exit|done|by apply FInv_exit].
    apply FInv_buf; [done|]. apply Forall_app. split; [apply Hs|apply Hev].
  - pose proof (Forall_lookup_1 _ _ _ _ (finv_conns s Hs) Hk) as [].
    eapply FInv_local; conn_fields; [done|exact Hk| |done|done]. by split.
Qed.

(** The states of a run. *)
Definition freach (w : W) : F -> Prop := rtc fstep (forwarder_init w).

Lemma FInv_init (w : W) : written w = [] -> FInv (forwarder_init w).
Proof.
  intros Hw. split; cbn [conns registry tty demux_buf forwarder_init]; try done.
  - intros id k. rewrite lookup_empty. split; [done|]. by intros (c & ? & _).
  - intros id. rewrite lookup_empty. by intros [? ?].
  - constructor.
  - intros _. exists []. split_and!; try done. intros id (k & c & Hk & _). done.
Qed.

Lemma FInv_reach w s : written w = [] -> freach w s -> FInv s.
Proof.
  intros Hw Hr. pose proof (FInv_init w Hw) as Hi. unfold freach in Hr. clear Hw.
  induction Hr as [s|s s1 s2 Hst _ IH]; [done|]. apply IH. by eapply FInv_step.
Qed.

End invariant.

(** ** Properties *)

(** What a SOCKS5 client sends to reach [h]:[p] by name, offering [methods]. *)
Definition connect_domain (methods h : list Z) (p : Z) : list Z :=
  [5; Z.of_nat (length methods)] ++ methods ++ [5; 1; 0; 3; Z.of_nat (length h)] ++ h ++ [p / 256; p mod 256].

(** Reading a buffer off the front of the socket. *)
Lemma duplex_read_exact n bs rest out : bytes_ok bs -> length bs = n ->
  read_exact n {| feed := bs ++ rest; taken := out |} = (Ok bs, {| feed := rest; taken := out |}).
Proof.
  intros Hb <-. cbn [read_exact Duplex_Read feed taken]. rewrite length_app.
  rewrite (proj2 (Nat.leb_le _ _)) by lia. rewrite take_app_length, drop_app_length. repeat f_equal.
  induction Hb as [|b bs Hb _ IH]; [done|]. rewrite fmap_cons. f_equal; [by apply as_u8_id|done].
Qed.

Lemma io_read_exact {A} n bs rest out (k : list Z -> SE SocksError Duplex A) : bytes_ok bs -> length bs = n ->
  (io (read_exact n) ≫= k) {| feed := bs ++ rest; taken := out |} = k bs {| feed := rest; taken := out |}.
Proof. intros Hb Hn. unfold mbind, SE_bind, io, map_err. by rewrite duplex_read_exact. Qed.

(** A domain CONNECT round-trips: whatever methods a client offers, as
    long as no-auth is among them, and whatever follows, the negotiator
    answers the method choice and returns exactly the name and the port the
    client sent, having consumed exactly the handshake. *)
Theorem socks5_connect_roundtrip methods h p rest out :
  bytes_ok methods -> 0 ∈ methods -> (length methods <= 255)%nat ->
  bytes_ok h -> from_utf8_ok h = true -> (0 < length h <= 255)%nat -> 0 < p < 2 ^ 16 ->
  socks5_negotiate {| feed := connect_domain methods h p ++ rest; taken := out |} =
    (Ok {| host := h; port := p |}, {| feed := rest; taken := out ++ [5; 0] |}).
Proof.
  intros Hm Hin Hml Hh Hu Hhl Hp. unfold connect_domain, socks5_negotiate. rewrite <- !app_assoc.
  rewrite io_read_exact; [|repeat constructor; unfold fits; lia|done].
  change (byte_at [5; Z.of_nat (length methods)] 0) with 5.
  change (byte_at [5; Z.of_nat (length methods)] 1) with (Z.of_nat (length methods)). cbn [Z.eqb negb Pos.eqb].
  rewrite io_read_exact by (done || lia). rewrite bool_decide_eq_true_2 by done. cbn [negb].
  set (k := fun _ : unit => _). unfold mbind at 1, SE_bind at 1.
  change (io (write_all [5; 0]) _) with (Ok tt : result SocksError unit,
    {| feed := [5; 1; 0; 3; Z.of_nat (length h)] ++ h ++ [p / 256; p mod 256] ++ rest; taken := out ++ [5; 0] |}).
  subst k. cbn beta iota.
  change ([5; 1; 0; 3; Z.of_nat (length h)] ++ h ++ [p / 256; p mod 256] ++ rest)
    with ([5; 1; 0; 3] ++ [Z.of_nat (length h)] ++ h ++ [p / 256; p mod 256] ++ rest).
  rewrite io_read_exact; [|repeat constructor; unfold fits; lia|done].
  change (byte_at [5; 1; 0; 3] 0) with 5. change (byte_at [5; 1; 0; 3] 1) with 1. change (byte_at [5; 1; 0; 3] 3) with 3.
  cbn [Z.eqb negb Pos.eqb]. unfold mbind at 1, SE_bind at 1. unfold read_host. cbn [Z.eqb Pos.eqb].
  rewrite io_read_exact; [|repeat constructor; unfold fits; lia|done].
  change (byte_at [Z.of_nat (length h)] 0) with (Z.of_nat (length h)).
  rewrite io_read_exact by (done || lia). rewrite Hu. cbn [mret SE_ret].
  rewrite io_read_exact; [|repeat constructor; wrap_lia|done].
  change (byte_at [p / 256; p mod 256] 0) with (p / 256). change (byte_at [p / 256; p mod 256] 1) with (p mod 256).
  assert (be_u16 (p / 256) (p mod 256) = p) as -> by (unfold be_u16; wrap_lia).
  rewrite (proj2 (Nat.eqb_neq _ 0)) by lia. rewrite (proj2 (Z.eqb_neq p 0)) by lia. done.
Qed.

Lemma socks5_connect_roundtrip_witness :
  socks5_negotiate {| feed := connect_domain [2; 0] [97; 46; 98] 443 ++ [9]; taken := [] |} =
    (Ok {| host := [97; 46; 98]; port := 443 |}, {| feed := [9]; taken := [] ++ [5; 0] |}).
Proof.
  apply (socks5_connect_roundtrip [2; 0] [97; 46; 98] 443 [9] []); try done;
    try (repeat constructor; unfold fits; lia); try (cbn; lia).
Defined.

(** C38: Whatever bytes a client sends over whatever kind of socket, a
    negotiation that succeeds gives a destination that can be opened: a
    non-empty name of at most 255 bytes that the host's text conversion keeps
    as it is, a port from 1 to 65535, and an OPEN frame that encodes. *)
Theorem negotiated_target_encodes {T} `{Read T, Write T, !ReadLaws T} (s s' : T) t id out :
  fits 16 id -> socks5_negotiate s = (Ok t, s') ->
  target_ok t /\ encode (Open id (port t) (host t)) out = Ok (out ++ wire (Open id (port t) (host t))).
Proof.
  intros Hid Hn. pose proof (negotiate_ok s t s' Hn) as Ht. split; [done|]. destruct Ht as [Hb Hl _ Hp].
  apply encode_wire. split; [done|]. split; [unfold fits; lia|]. split; [done|lia].
Qed.

Lemma negotiated_target_encodes_witness :
  encode (Open 7 80 (lit "127.0.0.1")) [] = Ok ([] ++ wire (Open 7 80 (lit "127.0.0.1"))).
Proof.
  apply (negotiated_target_encodes {| feed := [5; 1; 0; 5; 1; 0; 1; 127; 0; 0; 1; 0; 80]; taken := [] |}
    {| feed := []; taken := [5; 0] |} {| host := lit "127.0.0.1"; port := 80 |} 7 []);
    [unfold fits; lia|reflexivity].
Defined.

(** Id allocation ends: while fewer than 65536 streams are live the loop
    of [register] finds an id, after at most one try more than there are live
    streams, and the id is 16 bits wide, was free, and is the only change of
    the registry. *)
Theorem register_terminates reg c k :
  (size reg < STREAM_IDS)%nat ->
  exists id c', pick_id (S (size reg)) reg c = Some (id, c')
  /\ reg !! id = None /\ fits 16 id
  /\ exists c'', register reg c k = Some (id, <[id := k]> reg, c'').
Proof.
  intros Hs. destruct (pick_id (S (size reg)) reg c) as [[id c']|] eqn:E.
  - exists id, c'. split; [done|]. destruct (pick_id_fresh _ _ _ _ _ E) as (Hf & Hid & _).
    split_and!; try done. exists c'. unfold register.
    assert (pick_id STREAM_IDS reg c = Some (id, c')) as ->; [|done].
    revert E. assert (Hle : (S (size reg) <= STREAM_IDS)%nat) by lia.
    revert Hle. generalize (S (size reg)) STREAM_IDS. intros n. revert c.
    induction n as [|n IH]; intros c m Hle; [done|]. destruct m as [|m]; [lia|]. cbn [pick_id].
    destruct (bool_decide _); [|done]. apply IH. lia.
  - apply pick_id_attempts in E; lia.
Qed.

Lemma register_terminates_witness :
  exists id c', pick_id 2 {[1 := 0%nat]} 1 = Some (id, c') /\ ({[1 := 0%nat]} : gmap Z nat) !! id = None.
Proof.
  destruct (register_terminates {[1 := 0%nat]} 1 5) as (id & c' & E & Hf & _); [rewrite map_size_singleton; unfold STREAM_IDS; lia|].
  exists id, c'. split; [exact E|exact Hf].
Defined.

(** Framing by construction: in every run, whatever the threads'
    interleaving and whatever the clients do, as long as no tty write failed
    the bytes written are whole well-formed frames, every frame belongs to a
    stream opened before it, every stream that is relaying has been opened,
    and a reader that has seen any part of those bytes decodes whole frames
    and never loses framing. *)
Theorem forwarder_frames_whole {W C} `{Write W, !WriteLaws W, TcpStream C, !ReadLaws C} (w : W) (s : Forwarder W C) :
  written w = [] -> freach w s -> intact (tty s) = true ->
  exists fs, Forall frame_ok fs /\ written (tty s) = concat (wire <$> fs) /\ opened_first fs
  /\ (forall k c id, conns s !! k = Some c -> talking (pc c) = Some id -> opened fs id)
  /\ forall n, exists m tail, decode_all (S n) (take n (written (tty s))) = Ok (take m fs, tail).
Proof.
  intros Hw Hr Hi. pose proof (FInv_reach w s Hw Hr) as Hinv.
  destruct (finv_trace s Hinv Hi) as (fs & Hfs & Ew & Ho & Ha). exists fs. split_and!; try done.
  - intros k c id Hk Hid. apply Ha. by exists k, c.
  - intros n. rewrite Ew. destruct (decode_all_cut fs (S n) n Hfs ltac:(rewrite length_take; lia)) as (m & tail & E & _).
    by exists m, tail.
Qed.

(** A client that opens a stream and sends two bytes. *)
Definition demo_client : Duplex :=
  {| feed := connect_domain [0] [97] 80; taken := [] |}.

Definition demo_tty : Duplex := {| feed := []; taken := [] |}.

Definition demo_accepted : Forwarder Duplex Duplex := accept demo_client (forwarder_init demo_tty).

(** After the negotiation, and after the OPEN frame. *)
Definition demo_registered : Forwarder Duplex Duplex :=
  Eval vm_compute in default demo_accepted (handler_step 0 demo_accepted).
Definition demo_opened : Forwarder Duplex Duplex :=
  Eval vm_compute in default demo_accepted (handler_step 0 demo_registered).

Lemma demo_registered_reach : freach demo_tty demo_registered.
Proof.
  eapply rtc_l; [by apply (fstep_accept demo_client)|].
  apply rtc_once, (fstep_handler 0); [reflexivity|]. vm_compute. reflexivity.
Qed.

Lemma demo_opened_reach : freach demo_tty demo_opened.
Proof.
  eapply rtc_r; [apply demo_registered_reach|]. apply (fstep_handler 0); [reflexivity|]. vm_compute. reflexivity.
Qed.

Lemma forwarder_frames_whole_witness :
  taken (tty demo_opened) = wire (Open 1 80 [97])
  /\ exists fs, Forall frame_ok fs /\ written (tty demo_opened) = concat (wire <$> fs).
Proof.
  split; [reflexivity|].
  destruct (forwarder_frames_whole demo_tty demo_opened) as (fs & Hf & Hw & _);
    [reflexivity|apply demo_opened_reach|reflexivity|by exists fs].
Defined.

(** C11: Streams never get mixed up: in every run the registry is exactly the
    set of ids held by running handlers, no two handlers hold the same id, an
    up thread works only for the id its handler holds, and routing a host
    frame changes at most the queue of the one handler that holds the frame's
    stream. *)
Theorem forwarder_streams_separate {W C} `{Write W, !WriteLaws W, TcpStream C, !ReadLaws C}
    (w : W) (s : Forwarder W C) :
  written w = [] -> freach w s ->
  (forall id k, registry s !! id = Some k <-> exists c, conns s !! k = Some c /\ holds (pc c) = Some id)
  /\ (forall k k' c c' id, conns s !! k = Some c -> conns s !! k' = Some c' ->
        holds (pc c) = Some id -> holds (pc c') = Some id -> k = k')
  /\ (forall k c id, conns s !! k = Some c -> up c = UpRunning id -> holds (pc c) = Some id)
  /\ (forall f k c, conns s !! k = Some c -> holds (pc c) <> Some (frame_stream f) ->
        conns (route f s) !! k = Some c).
Proof.
  intros Hw Hr. pose proof (FInv_reach w s Hw Hr) as Hinv. pose proof (finv_registry s Hinv) as Hreg.
  split_and!; [done| | |].
  - intros k k' c c' id Hk Hk' Hh Hh'. assert (registry s !! id = Some k) by (apply Hreg; eauto).
    assert (registry s !! id = Some k') by (apply Hreg; eauto). congruence.
  - intros k c id Hk Hu. pose proof (Forall_lookup_1 _ _ _ _ (finv_conns s Hinv) Hk) as Hok.
    by destruct (conn_up _ Hok id Hu) as [[u ->]| ->].
  - intros f k c Hk Hne. unfold route. destruct (inbound_of f) as [[id m]|] eqn:Ei; [|done].
    assert (id = frame_stream f) as -> by (destruct f; naive_solver).
    destruct (registry s !! frame_stream f) as [j|] eqn:Ej; [|done].
    destruct (conns s !! j) as [x|] eqn:Ex; [|done]. cbn [conns set_conn set_field].
    rewrite list_lookup_insert_ne; [done|]. intros ->. apply Hreg in Ej as (y & Hy & ?). congruence.
Qed.

Lemma forwarder_streams_separate_witness :
  registry demo_registered !! 1 = Some 0%nat
  /\ forall id k, registry demo_registered !! id = Some k <->
       exists c, conns demo_registered !! k = Some c /\ holds (pc c) = Some id.
Proof.
  split; [reflexivity|].
  apply (forwarder_streams_separate demo_tty demo_registered); [reflexivity|apply demo_registered_reach].
Defined.
