(* ===== verification/EgressPath.v ===== *)
(** * Guest forwarder and host backend together

    The two ends of the egress mux, [src/tdvmm-agent/src/forwarder.rs] and
    [src/src/egress.rs], against each other: what one end writes, the other
    end reads, in whatever pieces the serial line delivers it, and the window
    credit they exchange is conserved. *)

From Stdlib Require Import ZArith Lia.
From stdpp Require Import base numbers strings gmap sets list.
From S2P Require Import Prelude.
From S2P Require Import Text.
From S2P Require Import EgressCodec.
From S2P Require Import Egress.
From S2P Require Import EgressSpec.
From S2P Require Import Io.
From S2P Require Import Forwarder.

Open Scope Z_scope.

(** ** Guest to host *)

Section guest_to_host.
Context {A C : Type} `{EgressConnector A C, Epoll C}.

(** The backend has been given the first [k] bytes of the stream of [fs] and
    has acted on its first [n] frames. *)
Definition at_cut (fs : list EgressFrame) (k n : nat) (b : EgressBackend C) : Prop :=
  take k (concat (wire <$> fs)) = concat (wire <$> take n fs) ++ rx_parse b
  /\ decode (rx_parse b) = Ok None.

Lemma take_cut fs k k' n (rest : list Z) : (k <= k')%nat ->
  take k (concat (wire <$> fs)) = concat (wire <$> take n fs) ++ rest ->
  exists j, rest ++ slice k k' (concat (wire <$> fs)) = take j (concat (wire <$> drop n fs))
  /\ take k' (concat (wire <$> fs)) = concat (wire <$> take n fs) ++ take j (concat (wire <$> drop n fs)).
Proof.
  intros Hk E. set (pre := concat (wire <$> take n fs)) in *.
  assert (Hs : concat (wire <$> fs) = pre ++ concat (wire <$> drop n fs)).
  { unfold pre. by rewrite <- concat_app, <- fmap_app, take_drop. }
  assert (Ht : take k' (concat (wire <$> fs)) = take k (concat (wire <$> fs)) ++ slice k k' (concat (wire <$> fs))).
  { unfold slice. rewrite <- (take_drop k (take k' _)), take_take, Nat.min_l, skipn_firstn_comm by lia. done. }
  assert (Hl : (length pre <= k')%nat).
  { assert (length (take k (concat (wire <$> fs))) = length (pre ++ rest)) as El by (by rewrite E).
    rewrite length_take, length_app in El. lia. }
  exists (k' - length pre)%nat. rewrite Ht, E in *. rewrite Hs in Ht at 1. rewrite take_app_ge in Ht by done.
  rewrite <- app_assoc in *. apply app_inv_head in Ht. by rewrite Ht.
Qed.

(** Handing over the next piece: exactly the frames it completes are acted
    on. *)
Lemma ingest_cut fs k k' n b : Forall frame_ok fs -> (k <= k')%nat -> at_cut fs k n b ->
  exists m tail, ingest_and_parse (slice k k' (concat (wire <$> fs))) b =
      handle_frames (to_owned <$> take m (drop n fs)) (b <| rx_parse := tail |>)
    /\ at_cut fs k' (n + m) (b <| rx_parse := tail |>).
Proof.
  intros Hfs Hk [E _]. destruct (take_cut fs k k' n _ Hk E) as (j & Ej & Ek).
  unfold ingest_and_parse. cbn [rx_parse set_field]. rewrite Ej.
  destruct (decode_all_cut (drop n fs) (S (length (take j (concat (wire <$> drop n fs))))) j) as (m & tail & Ed & Et & Hn);
    [by apply Forall_drop|lia|].
  rewrite Ed. exists m, tail. split; [done|]. split; [|done]. cbn [rx_parse set_field].
  rewrite Ek, Et, app_assoc. f_equal. rewrite <- concat_app, <- fmap_app. f_equal. f_equal.
  rewrite take_take_drop. done.
Qed.

End guest_to_host.

(** ** Host to guest *)

Section host_to_guest.
Context {W D : Type} `{Write W, TcpStream D}.

(** One turn of the inner demux loop on a cut of the stream of [fs]. *)
Lemma demux_cut fs j (s : Forwarder W D) : Forall frame_ok fs -> demux_buf s = take j (concat (wire <$> fs)) ->
  demux_frame_step s = match fs with
                       | f :: fs' => if (j <? length (wire f))%nat then None
                                     else Some (route f (s <| demux_buf := take (j - length (wire f)) (concat (wire <$> fs')) |>))
                       | [] => None
                       end.
Proof.
  intros Hfs Eb. unfold demux_frame_step. rewrite Eb. destruct Hfs as [|f fs Hf Hfs].
  - cbn [fmap list_fmap concat]. by rewrite take_nil.
  - cbn [fmap list_fmap concat]. fold (wire <$> fs). destruct (Nat.ltb_spec j (length (wire f))) as [Hj|Hj].
    + rewrite take_app_le by lia. by rewrite decode_prefix.
    + rewrite take_app_ge by lia. rewrite decode_wire by done. cbn [decoded_frame consumed].
      by rewrite drop_app_length.
Qed.

(** The inner loop of [demux_loop] without interruption: until the buffer
    holds no whole frame, or the process stops. *)
Fixpoint demux_drain (fuel : nat) (s : Forwarder W D) : Forwarder W D :=
  match fuel with
  | O => s
  | S fuel =>
      match demux_frame_step s with
      | Some s' => if exited s' then s' else demux_drain fuel s'
      | None => s
      end
  end.

Lemma route_exited f (s : Forwarder W D) : exited (route f s) = exited s.
Proof. unfold route, set_conn. by repeat case_match. Qed.

Lemma route_buf f (s : Forwarder W D) l : route f (s <| demux_buf := l |>) = (route f s) <| demux_buf := l |>.
Proof. unfold route. cbn [registry conns set_field]. by repeat case_match. Qed.

Lemma foldl_route_buf fs (s : Forwarder W D) l l' :
  (foldl (fun s f => route f s) (s <| demux_buf := l |>) fs) <| demux_buf := l' |> =
  (foldl (fun s f => route f s) s fs) <| demux_buf := l' |>.
Proof. revert s. induction fs as [|f fs IH]; intros s; [done|]. cbn [foldl]. rewrite route_buf. apply IH. Qed.

Lemma demux_drain_cut fs : forall j fuel (s : Forwarder W D), Forall frame_ok fs -> exited s = false ->
  demux_buf s = take j (concat (wire <$> fs)) -> (length (demux_buf s) < fuel)%nat ->
  exists m tail, demux_drain fuel s = (foldl (fun s f => route f s) s (take m fs)) <| demux_buf := tail |>
    /\ take j (concat (wire <$> fs)) = concat (wire <$> take m fs) ++ tail /\ decode tail = Ok None.
Proof.
  induction fs as [|f fs IH]; intros j fuel s Hfs Hx Eb Hfu; (destruct fuel as [|fuel]; [lia|]);
    cbn [demux_drain]; rewrite (demux_cut _ j s Hfs Eb).
  { exists O, (demux_buf s). rewrite Eb. cbn [fmap list_fmap concat take foldl]. rewrite take_nil in *.
    split; [|done]. rewrite <- Eb. by destruct s. }
  apply Forall_cons in Hfs as [Hf Hfs]. destruct (Nat.ltb_spec j (length (wire f))) as [Hj|Hj].
  - exists O, (demux_buf s). cbn [take foldl fmap list_fmap concat app]. split; [by destruct s|].
    split; [done|]. rewrite Eb. cbn [fmap list_fmap concat]. rewrite take_app_le by lia. by rewrite decode_prefix.
  - cbn [fmap list_fmap concat] in *. fold (wire <$> fs) in *. rewrite take_app_ge in Eb by lia.
    rewrite take_app_ge by lia. set (tl := take (j - length (wire f)) (concat (wire <$> fs))) in *.
    rewrite route_buf. assert (Hx' : exited ((route f s) <| demux_buf := tl |>) = false)
      by (cbn [exited set_field]; by rewrite route_exited).
    rewrite Hx'. assert (Hl : (length (wire f) + length tl < S fuel)%nat) by (by rewrite <- length_app, <- Eb).
    rewrite length_wire in Hl.
    destruct (IH (j - length (wire f))%nat fuel ((route f s) <| demux_buf := tl |>)) as (m & tail & E & Et & Hd);
      [done|done|done|cbn [demux_buf set_field]; lia|].
    exists (S m), tail. rewrite E. cbn [take foldl fmap list_fmap concat]. split; [|split; [|done]].
    + apply foldl_route_buf.
    + fold (wire <$> take m fs). by rewrite <- app_assoc, <- Et.
Qed.

End host_to_guest.

(** ** Window credit *)

Section flow.
Context {C W D : Type} `{Write W, !WriteLaws W, TcpStream D}.
Variable id : Z.

(** One established stream: the host's session and backend, the [DATA]
    payloads and the [WINDOW] credits on their way, and the relay's counter
    with its socket and its tty.  Everything else either side does (socket
    reads and writes, other streams) leaves the stream's credit alone and is
    [flow_other]. *)
Record Flow := {
  fl_session : Session; fl_backend : EgressBackend C; fl_down : list (list Z);
  fl_ungranted : Z; fl_client : D; fl_tty : W; fl_windows : list Z }.

Inductive flow_step : Flow -> Flow -> Prop :=
  | flow_send fuel s b s' b' down ps u c w wins :
      frame_to_guest fuel id (s, b) = (Ok tt, (s', b')) ->
      Forall (fun p => frame_ok (Data id p)) ps ->
      tx_pending b' = tx_pending b ++ concat (wire <$> (Data id <$> ps)) ->
      flow_step (Build_Flow s b down u c w wins) (Build_Flow s' b' (down ++ ps) u c w wins)
  | flow_deliver s b p down u c w u' c' w' wins ns :
      relay_down_msg id u (Some (InData p)) c w = (Some u', c', w') -> intact w' = true ->
      Forall (fun n => fits 32 n) ns -> written w' = written w ++ concat (wire <$> (Window id <$> ns)) ->
      flow_step (Build_Flow s b (p :: down) u c w wins) (Build_Flow s b down u' c' w' (wins ++ ns))
  | flow_credit s b s' down u c w n wins :
      sessions (handle_window id n (b <| sessions := <[id := s]> (sessions b) |>)) !! id = Some s' ->
      flow_step (Build_Flow s b down u c w (n :: wins)) (Build_Flow s' b down u c w wins)
  | flow_other s b s' b' down u c w c' w' wins :
      to_guest_credit s' = to_guest_credit s -> bytes_ok (to_guest s') ->
      flow_step (Build_Flow s b down u c w wins) (Build_Flow s' b' down u c' w' wins).

Definition payload_sum (ps : list (list Z)) : Z := sumZ ((fun p => Z.of_nat (length p)) <$> ps).

(** No credit is lost or made up. *)
Definition conserved (f : Flow) : Prop :=
  to_guest_credit (fl_session f) + payload_sum (fl_down f) + fl_ungranted f + sumZ (fl_windows f) = WINDOW_BYTES
  /\ 0 <= to_guest_credit (fl_session f) /\ 0 <= fl_ungranted f < WINDOW_GRANT_THRESHOLD
  /\ Forall (fun n => 0 <= n) (fl_windows f) /\ bytes_ok (to_guest (fl_session f))
  /\ Forall (fun p => Z.of_nat (length p) <= EGRESS_MAX_PAYLOAD) (fl_down f).

Lemma payload_sum_nonneg ps : 0 <= payload_sum ps.
Proof. unfold payload_sum. apply sumZ_nonneg, Forall_fmap, Forall_true. intros; simpl; lia. Qed.

Lemma payload_sum_app ps qs : payload_sum (ps ++ qs) = payload_sum ps + payload_sum qs.
Proof. unfold payload_sum. by rewrite fmap_app, sumZ_app. Qed.

Lemma payload_sum_cons p ps : payload_sum (p :: ps) = Z.of_nat (length p) + payload_sum ps.
Proof. done. Qed.

Lemma sumZ_cons x l : sumZ (x :: l) = x + sumZ l.
Proof. done. Qed.

Lemma Data_inj_list (ps qs : list (list Z)) : Data id <$> ps = Data id <$> qs -> ps = qs.
Proof. apply list_fmap_eq_inj. congruence. Qed.

(** The frames of one framing pass use up exactly the credit they carry. *)
Lemma frame_to_guest_credit fuel : forall s (b : EgressBackend C) r s' b', fits 16 id -> bytes_ok (to_guest s) ->
  0 <= to_guest_credit s -> frame_to_guest fuel id (s, b) = (r, (s', b')) ->
  exists ps, Forall (fun p => frame_ok (Data id p)) ps
  /\ tx_pending b' = tx_pending b ++ concat (wire <$> (Data id <$> ps))
  /\ to_guest_credit s' + payload_sum ps = to_guest_credit s /\ 0 <= to_guest_credit s' /\ bytes_ok (to_guest s').
Proof.
  induction fuel as [|fuel IH]; intros s b r s' b' Hid Hb Hc; cbn [frame_to_guest].
  { intros [= <- <- <-]. exists []. split_and!; try done; simpl; rewrite ?app_nil_r; unfold payload_sum; simpl; done || lia. }
  destruct (is_empty _ || _) eqn:E.
  { intros [= <- <- <-]. exists []. split_and!; try done; simpl; rewrite ?app_nil_r; unfold payload_sum; simpl; done || lia. }
  set (n := Z.min _ EGRESS_MAX_PAYLOAD). bool_prop.
  assert (Hn : 0 <= n <= to_guest_credit s /\ n <= Z.of_nat (length (to_guest s)) /\ n <= 65535)
    by (unfold n, zlen, EGRESS_MAX_PAYLOAD; lia).
  assert (Hfo : frame_ok (Data id (take (Z.to_nat n) (to_guest s)))).
  { split; [done|]. split; [by apply Forall_take|]. rewrite length_take. unfold EGRESS_MAX_PAYLOAD. lia. }
  rewrite enqueue_ok by done. intros Hrun. apply IH in Hrun as (ps & Hps & Et & Ec & Hc' & Hb'); try done.
  - exists (take (Z.to_nat n) (to_guest s) :: ps). split; [by constructor|].
    cbn [tx_pending to_guest_credit set_stats set_field] in Et, Ec. split_and!; try done.
    + rewrite Et. cbn [fmap list_fmap concat]. by rewrite <- app_assoc.
    + rewrite payload_sum_cons, length_take. lia.
  - cbn [to_guest set_field]. by apply Forall_drop.
  - cbn [to_guest_credit set_field]. lia.
Qed.

Lemma conserved_step f f' : fits 16 id -> conserved f -> flow_step f f' -> conserved f'.
Proof.
  intros Hid (Hsum & Hc & Hu & Hw & Hb & Hd) Hst.
  destruct Hst as [fuel s b s' b' down ps u c w wins Hrun Hps Et
    |s b p down u c w u' c' w' wins ns Hmsg Hi Hns Ew|s b s' down u c w n wins Hs|s b s' b' down u c w c' w' wins Ec Hb'];
    unfold conserved; cbn [fl_session fl_backend fl_down fl_ungranted fl_client fl_tty fl_windows] in *.
  - destruct (frame_to_guest_credit _ _ _ _ _ _ Hid Hb Hc Hrun) as (qs & Hqs & Et' & Ec & Hc' & Hb').
    rewrite Et in Et'. apply app_inv_head, wire_stream_inj, Data_inj_list in Et' as ->;
      [|by apply Forall_fmap..].
    rewrite payload_sum_app. split_and!; try done; try lia. apply Forall_app. split; [done|].
    eapply Forall_impl; [exact Hqs|]. by intros q (_ & _ & ?).
  - apply Forall_cons in Hd as [Hp Hd]. unfold relay_down_msg in Hmsg.
    destruct (write_all p c) as [[?|?] c1]; [|done]. rewrite sumZ_app.
    rewrite payload_sum_cons in Hsum. unfold EGRESS_MAX_PAYLOAD in Hp.
    unfold WINDOW_GRANT_THRESHOLD in *.
    assert (Forall (fun n => 0 <= n) ns) by (eapply Forall_impl; [exact Hns|]; intros ? [? ?]; lia).
    assert (Hwin : Forall frame_ok (Window id <$> ns)).
    { apply Forall_fmap. eapply Forall_impl; [exact Hns|]. by intros. }
    destruct (_ <=? _) eqn:E; bool_prop; injection Hmsg as <- <- <-.
    + destruct (send _ w) as [r w1] eqn:Es. cbn [snd] in *.
      rewrite as_u32_id in Es by (unfold fits; lia).
      assert (Hwo : frame_ok (Window id (u + Z.of_nat (length p)))) by (split; [done|unfold fits; lia]).
      destruct (send_spec _ _ _ _ Hwo Es Hi) as [_ Ew']. rewrite Ew' in Ew. apply app_inv_head in Ew.
      assert (concat (wire <$> [Window id (u + Z.of_nat (length p))]) = concat (wire <$> (Window id <$> ns))) as E2
        by (cbn [fmap list_fmap concat]; by rewrite app_nil_r).
      apply wire_stream_inj in E2; [|by constructor|done].
      destruct ns as [|n [|? ?]]; try done. injection E2 as <-.
      rewrite sumZ_cons. change (sumZ []) with 0. split_and!; try done; try lia. by apply Forall_app.
    + rewrite <- (app_nil_r (written w)) in Ew at 1. apply app_inv_head in Ew.
      change [] with (concat (wire <$> [])) in Ew. apply wire_stream_inj in Ew; [|constructor|done].
      destruct ns; [|done]. rewrite app_nil_r. change (sumZ []) with 0. split_and!; try done; lia.
  - unfold handle_window in Hs. cbn [sessions set_field] in Hs. rewrite lookup_insert_eq in Hs.
    cbn [sessions set_field] in Hs. rewrite lookup_insert_eq in Hs. injection Hs as <-.
    apply Forall_cons in Hw as [Hn Hw]. rewrite sumZ_cons in Hsum.
    pose proof (payload_sum_nonneg down). pose proof (sumZ_nonneg _ Hw). unfold WINDOW_BYTES, USIZE_MAX in *.
    cbn [to_guest_credit to_guest set_field]. split_and!; try done; lia.
  - rewrite Ec. done.
Qed.

End flow.

(** ** Properties *)

(** C9: The host acts on exactly what the forwarder sent: in every run of
    the forwarder without a tty write error there is one sequence of frames
    such that, however the serial line cuts the bytes into pieces, the backend
    never reports lost framing and each piece makes it act on precisely the
    frames that piece completes, in order and once. *)
Theorem host_acts_on_forwarder_frames {A C W D} `{EgressConnector A C, Epoll C}
    `{Write W, !WriteLaws W, TcpStream D, !ReadLaws D} (w : W) (s : Forwarder W D) :
  written w = [] -> freach w s -> intact (tty s) = true ->
  exists fs, written (tty s) = concat (wire <$> fs)
  /\ forall (b : EgressBackend C) k k' n, (k <= k')%nat -> at_cut fs k n b ->
     exists m tail,
       ingest_and_parse (slice k k' (written (tty s))) b =
         handle_frames (to_owned <$> take m (drop n fs)) (b <| rx_parse := tail |>)
       /\ at_cut fs k' (n + m) (b <| rx_parse := tail |>).
Proof.
  intros Hw Hr Hi. destruct (finv_trace s (FInv_reach w s Hw Hr) Hi) as (fs & Hfs & Ew & _).
  exists fs. split; [done|]. intros b k k' n Hk Hc. rewrite Ew. by apply ingest_cut.
Qed.

(** The OPEN frame of the demo run, given to the host in two pieces. *)
Lemma host_acts_on_forwarder_frames_witness :
  exists fs, written (tty demo_opened) = concat (wire <$> fs)
  /\ at_cut fs 0 0 toy_backend
  /\ exists m tail, ingest_and_parse (slice 0 4 (written (tty demo_opened))) toy_backend =
       handle_frames (to_owned <$> take m (drop 0 fs)) (toy_backend <| rx_parse := tail |>).
Proof.
  destruct (host_acts_on_forwarder_frames (C := ToyHost) demo_tty demo_opened) as (fs & E & H);
    [reflexivity|apply demo_opened_reach|reflexivity|].
  exists fs. split; [exact E|]. assert (Hc : at_cut fs 0 0 toy_backend) by (split; reflexivity).
  split; [exact Hc|]. destruct (H toy_backend 0 4 0 ltac:(lia) Hc)%nat as (m & tail & Hm & _). by exists m, tail.
Defined.

(** The forwarder follows the host: whatever the guest sent and whatever
    the sockets answered, what the backend queues for the guest is a sequence
    of frames, and a demux reader given any first part of those bytes routes
    precisely the frames that are whole in it, in order, and does not stop the
    process. *)
Theorem demux_follows_host {A C W D} `{ConnectorLaws A C} `{Write W, TcpStream D}
    (b : EgressBackend C) bs (s : Forwarder W D) j :
  Inv ∅ b -> bytes_ok bs -> tx_pending b = [] -> exited s = false ->
  let queued := tx_pending (backend_pump bs b).2 in
  exists fs m tail, queued = concat (wire <$> fs)
  /\ take j queued = concat (wire <$> take m fs) ++ tail /\ decode tail = Ok None
  /\ demux_drain (S j) (s <| demux_buf := take j queued |>) =
       (foldl (fun s f => route f s) s (take m fs)) <| demux_buf := tail |>.
Proof.
  intros Hb Hbs Htx Hx queued. destruct (keeps_pump bs Hbs b Hb) as [_ (fs & Hfs & E)].
  rewrite Htx in E. cbn [app] in E. fold queued in E.
  destruct (demux_drain_cut fs j (S j) (s <| demux_buf := take j queued |>)) as (m & tail & Ed & Et & Hn);
    [done|done|cbn [demux_buf set_field]; by rewrite E|cbn [demux_buf set_field]; rewrite length_take; lia|].
  exists fs, m, tail. rewrite Ed, foldl_route_buf. rewrite <- E in Et. done.
Qed.

Lemma demux_follows_host_witness :
  let queued := tx_pending (backend_pump toy_bytes toy_backend).2 in
  exists fs m tail, queued = concat (wire <$> fs)
  /\ demux_drain 11 (demo_opened <| demux_buf := take 10 queued |>) =
       (foldl (fun s f => route f s) demo_opened (take m fs)) <| demux_buf := tail |>.
Proof.
  assert (Hok : bytes_ok toy_bytes) by (by apply (bool_decide_unpack _); vm_compute).
  destruct (demux_follows_host toy_backend toy_bytes demo_opened 10 toy_backend_Inv Hok) as (fs & m & tail & E & _ & _ & Ed);
    [reflexivity|reflexivity|]. exists fs, m, tail. split; [exact E|exact Ed].
Defined.

(** C10: The window never stalls: from a new session on, through any mix of
    the host framing data within its credit, the guest delivering it and
    granting credit back, and the host taking the grants, credit is neither
    lost nor created, it stays within the window, and whenever nothing is on
    its way the host may send more than half a window. *)
Theorem window_never_stalls {C W D} `{Write W, !WriteLaws W, TcpStream D} id (f f' : Flow (C := C) (W := W) (D := D)) :
  fits 16 id -> fl_session f = new_resolving -> fl_down f = [] -> fl_windows f = [] -> fl_ungranted f = 0 ->
  rtc (flow_step id) f f' ->
  to_guest_credit (fl_session f') + payload_sum (fl_down f') + fl_ungranted f' + sumZ (fl_windows f') = WINDOW_BYTES
  /\ 0 <= to_guest_credit (fl_session f') <= WINDOW_BYTES
  /\ (fl_down f' = [] -> fl_windows f' = [] -> WINDOW_BYTES < 2 * to_guest_credit (fl_session f')).
Proof.
  intros Hid Hs Hd Hw Hu Hr.
  assert (Hc : conserved f).
  { unfold conserved. rewrite Hs, Hd, Hw, Hu. cbn [to_guest_credit to_guest new_resolving].
    unfold WINDOW_GRANT_THRESHOLD. split_and!; try done; constructor. }
  assert (Hc' : conserved f').
  { clear Hs Hd Hw Hu. induction Hr as [|x y z Hst _ IH]; [done|]. apply IH. by eapply conserved_step. }
  destruct Hc' as (Hsum & Hcr & Hun & Hwn & _ & _). pose proof (payload_sum_nonneg (fl_down f')).
  pose proof (sumZ_nonneg _ Hwn). split; [done|]. split; [lia|]. intros E1 E2. rewrite E1, E2 in Hsum.
  unfold WINDOW_GRANT_THRESHOLD, WINDOW_BYTES, payload_sum in *. cbn [fmap list_fmap sumZ foldr] in Hsum. lia.
Qed.

(** A session with two bytes for the guest, framed and delivered. *)
Definition demo_session (credit : Z) (l : list Z) : Session :=
  new_resolving <| to_guest_credit := credit |> <| to_guest := l |>.

Definition demo_flow (s : Session) (b : EgressBackend ToyHost) (down : list (list Z)) (u : Z) (c : Duplex) : Flow :=
  Build_Flow s b down u c demo_tty [].

Definition demo_framed : EgressBackend ToyHost :=
  Eval vm_compute in (frame_to_guest 2 7 (demo_session WINDOW_BYTES [65; 66], toy_backend)).2.2.

Lemma demo_flow_run :
  rtc (flow_step 7) (demo_flow new_resolving toy_backend [] 0 demo_tty)
    (demo_flow (demo_session (WINDOW_BYTES - 2) []) demo_framed [] 2 {| feed := []; taken := [65; 66] |}).
Proof.
  eapply rtc_l; [apply (flow_other 7 _ _ (demo_session WINDOW_BYTES [65; 66]) toy_backend _ _ _ _ demo_tty demo_tty);
    [reflexivity|repeat constructor; unfold fits; simpl; lia]|].
  eapply rtc_l; [apply (flow_send 7 2 _ _ (demo_session (WINDOW_BYTES - 2) []) demo_framed _ [[65; 66]]);
    [reflexivity| |reflexivity]|].
  { repeat constructor; unfold fits, EGRESS_MAX_PAYLOAD; simpl; lia. }
  apply rtc_once, (flow_deliver 7 _ _ [65; 66] [] 0 demo_tty demo_tty 2 _ demo_tty [] []); try reflexivity. constructor.
Qed.

Lemma window_never_stalls_witness : WINDOW_BYTES < 2 * (WINDOW_BYTES - 2).
Proof.
  apply (window_never_stalls 7 (demo_flow new_resolving toy_backend [] 0 demo_tty)
    (demo_flow (demo_session (WINDOW_BYTES - 2) []) demo_framed [] 2 {| feed := []; taken := [65; 66] |}));
    try reflexivity; [unfold fits; lia|apply demo_flow_run].
Defined.
