(* ===== verification/Agent.v ===== *)
(** * The guest agent's requests ([src/tdvmm-agent/src/agent.rs])

    The dispatch of one request to one reply: [ping], [finish], the census,
    exec, the container life cycle, partitions and log paging.  Subprocesses
    (podman, nft), their pipes and clocks, and the log files are the interface
    [GuestOs]; the JSON of [podman ps] is the interface [PsJson].  Everything
    in between is the code's: how an outcome of a subprocess becomes a reply,
    which container a service name resolves to, the ruleset text, the cursor
    arithmetic.  Text is a [string] of UTF-8 bytes. *)

From Stdlib Require Import ZArith Lia Ascii String.
From stdpp Require Import base numbers strings pretty gmap sorting list.
From S2P Require Import Prelude.
From S2P Require Import Text.
From S2P Require Import Utf8.
From S2P Require Import Proto.

Open Scope Z_scope.

(** ** Text *)

Definition text (bs : list Z) : string := string_of_list_ascii ((fun b => ascii_of_N (Z.to_N b)) <$> bs).

(** [String::from_utf8_lossy(bs).into_owned()]. *)
Definition lossy (bs : list Z) : string := text (from_utf8_lossy bs).

(** The first word of [str::split_whitespace]: the bytes up to the next white
    space after the leading ones. *)
Fixpoint word (fuel : nat) (bs : list Z) : list Z :=
  match fuel, bs with
  | S fuel, b :: bs' => match strip_any white_space bs with Some _ => [] | None => b :: word fuel bs' end
  | _, _ => []
  end.

Definition first_word (bs : list Z) : option (list Z) :=
  let bs := trim_loop (length bs) white_space bs in
  match word (length bs) bs with [] => None | w => Some w end.

(** ** Errors *)

Inductive AgentError :=
  | AgentIo (what source : string)
  | AgentCommand (what : string) (status : option Z) (stderr : string)
  | AgentParse (what source : string)
  | AgentMissing (what : string).

(** [Display]. *)
Definition agent_error_text (e : AgentError) : string :=
  match e with
  | AgentIo what source | AgentParse what source => what ++ ": " ++ source
  | AgentCommand what status stderr =>
      what ++ match status with Some code => " exited with status " ++ pretty code | None => " did not complete" end
           ++ (if bool_decide (stderr = "") then "" else ": " ++ stderr)
  | AgentMissing what => what
  end%string.

(** ** The operating system *)

(** [std::process::Output]; no code when the process was killed. *)
Record Output := { out_code : option Z; out_stdout : list Z; out_stderr : list Z }.

Definition success (code : option Z) : bool := bool_decide (code = Some 0).

Inductive OpenError := NotFound | OpenFailed (source : string).

(** One child process and one open file at a time; an [io::Error] is its
    text.  [os_wait_output] is [wait_with_output], [os_drained] what the
    thread draining the child's stderr collected. *)
Class GuestOs (G : Type) := {
  os_output : list string -> SE string G Output;
  os_spawn : list string -> SE string G unit;
  os_write_stdin : list Z -> SE string G unit;
  os_wait_output : SE string G Output;
  os_try_wait : SE unit G (option (option Z));
  os_kill : G -> G;
  os_wait : G -> option (option Z) * G;
  os_drained : G -> list Z * G;
  os_sleep_ms : Z -> G -> G;
  os_now_ms : G -> Z;
  os_write_file : string -> list Z -> G -> G;
  os_open : string -> SE OpenError G unit;
  os_seek : Z -> SE string G unit;
  os_read : nat -> SE string G (list Z);
}.

(** The fields read off [podman ps --format json]. *)
Record PsEntry := {
  ps_id : string; ps_names : list string; ps_state : string; ps_exit_code : Z;
  ps_labels : gmap string string; ps_status : string }.

(** [serde_json] on that output: the entries or an error text. *)
Class PsJson := parse_ps : list Z -> result string (list PsEntry).

Definition COMPOSE_SERVICE_LABEL : string := "com.docker.compose.service".

Inductive Want := WantRunning | WantStopped.

Definition join_words (args : list string) : string := String.concat " " args.

(** [str::contains]. *)
Definition contains (needle hay : string) : bool :=
  match String.index 0 needle hay with Some _ => true | None => false end.

Section podman.
Context {G : Type} `{GuestOs G, PsJson}.
(** [str::to_lowercase]. *)
Variable to_lowercase : string -> string.

Definition podman_json (args : list string) : SE AgentError G (list PsEntry) :=
  out ← map_err (AgentIo ("running podman " ++ join_words args)) (os_output ("podman" :: args));
  if negb (success (out_code out)) then
    fail (AgentCommand ("podman " ++ join_words args) (out_code out)
            (text (trim (from_utf8_lossy (out_stderr out)))))
  else match parse_ps (out_stdout out) with
       | Ok ps => mret ps
       | Err e => fail (AgentParse ("parsing podman " ++ join_words args ++ " output") e)
       end.

Definition first_name (c : PsEntry) : string := default "" (head (ps_names c)).

Definition health_of (status : string) : string :=
  let s := to_lowercase status in
  if contains "unhealthy" s then "unhealthy"
  else if contains "healthy" s then "healthy"
  else if contains "starting" s then "starting"
  else "".

Definition census_entry (c : PsEntry) : ContainerInfo :=
  {| ci_name := first_name c; ci_service := default "" (ps_labels c !! COMPOSE_SERVICE_LABEL);
     ci_state := to_lowercase (ps_state c); ci_exit_code := ps_exit_code c; ci_health := health_of (ps_status c) |}.

Definition list_containers : SE AgentError G (list ContainerInfo) :=
  raw ← podman_json ["ps"; "-a"; "--format"; "json"]; mret (census_entry <$> raw).

Definition has_label (service : string) (c : PsEntry) : bool :=
  bool_decide (ps_labels c !! COMPOSE_SERVICE_LABEL = Some service).

Definition is_running (c : PsEntry) : bool := bool_decide (ps_state c = "running").

(** The scan of [resolve_running]. *)
Fixpoint find_running (service : string) (cs : list PsEntry) : option (string * string) :=
  match cs with
  | [] => None
  | c :: cs =>
      if negb (is_running c) then find_running service cs
      else if has_label service c then Some (ps_id c, first_name c)
      else if bool_decide (service ∈ ps_names c) then Some (ps_id c, service)
      else find_running service cs
  end.

Definition resolve_running (service : string) : SE AgentError G (option (string * string)) :=
  raw ← podman_json ["ps"; "--format"; "json"]; mret (find_running service raw).

Definition matches (service : string) (c : PsEntry) : bool :=
  has_label service c || bool_decide (service ∈ ps_names c).

Definition wanted (want : Want) (c : PsEntry) : bool :=
  match want with WantRunning => is_running c | WantStopped => negb (is_running c) end.

Fixpoint find_by_service (service : string) (want : Want) (cs : list PsEntry) : option (string * string) :=
  match cs with
  | [] => None
  | c :: cs =>
      if negb (matches service c) then find_by_service service want cs
      else if wanted want c then Some (ps_id c, first_name c)
      else find_by_service service want cs
  end.

Definition resolve_by_service (service : string) (want : Want) : SE AgentError G (option (string * string)) :=
  raw ← podman_json ["ps"; "-a"; "--format"; "json"]; mret (find_by_service service want raw).

Definition container_ip (id : string) : SE AgentError G string :=
  out ← map_err (AgentIo "running podman inspect")
          (os_output ["podman"; "inspect"; "-f"; "{{range .NetworkSettings.Networks}}{{.IPAddress}} {{end}}"; id]);
  if negb (success (out_code out)) then
    fail (AgentCommand "podman inspect (network IP)" (out_code out)
            (text (trim (from_utf8_lossy (out_stderr out)))))
  else match first_word (from_utf8_lossy (out_stdout out)) with
       | Some w => mret (text w)
       | None => fail (AgentMissing ("no bridge IP for " ++ id))
       end.

Definition container_log_path (id : string) : SE AgentError G string :=
  out ← map_err (AgentIo "running podman inspect")
          (os_output ["podman"; "inspect"; "--format"; "{{.HostConfig.LogConfig.Path}}"; id]);
  if negb (success (out_code out)) then
    fail (AgentCommand "podman inspect (log path)" (out_code out)
            (text (trim (from_utf8_lossy (out_stderr out)))))
  else let p := trim (from_utf8_lossy (out_stdout out)) in
       match p with
       | [] => fail (AgentMissing ("empty log path for " ++ id))
       | _ => mret (text p)
       end.

(** The read loop of [read_log_chunk]; every turn that goes on reads at least
    a byte, so [cap] is enough fuel. *)
Fixpoint read_up_to (fuel : nat) (path : string) (cap : nat) (buf : list Z) : SE AgentError G (list Z) :=
  match fuel with
  | O => mret buf
  | S fuel =>
      if (length buf <? cap)%nat then
        bs ← map_err (AgentIo ("reading log " ++ path)) (os_read (cap - length buf));
        match bs with [] => mret buf | _ => read_up_to fuel path cap (buf ++ bs) end
      else mret buf
  end.

Definition read_log_chunk (path : string) (cursor : Z) (cap : nat) : SE AgentError G (list Z * nat * bool) := fun g =>
  match os_open path g with
  | (Err NotFound, g) => (Ok ([], O, true), g)
  | (Err (OpenFailed e), g) => (Err (AgentIo ("opening log " ++ path) e), g)
  | (Ok _, g) =>
      (map_err (AgentIo ("seeking log " ++ path)) (os_seek cursor);;
       buf ← read_up_to (S cap) path cap [];
       mret (from_utf8_lossy buf, length buf, (length buf <? cap)%nat)) g
  end.

Definition enable_bridge_netfilter (g : G) : G :=
  os_write_file "/proc/sys/net/bridge/bridge-nf-call-ip6tables" (lit "1" ++ [10])
    (os_write_file "/proc/sys/net/bridge/bridge-nf-call-iptables" (lit "1" ++ [10]) g).

(** The polling loop of [run_podman]: it ends at the latest at the first poll
    past the deadline. *)
Fixpoint poll_child (fuel : nat) (start timeout_ms : Z) (g : G) : option (option (option Z) * G) :=
  match fuel with
  | O => None
  | S fuel =>
      match os_try_wait g with
      | (Ok (Some st), g) => Some (Some st, g)
      | (Ok None, g) =>
          if timeout_ms <=? os_now_ms g - start then Some (os_wait (os_kill g))
          else poll_child fuel start timeout_ms (os_sleep_ms 25 g)
      | (Err _, g) => Some (None, g)
      end
  end.

Definition POLL_MS : Z := 25.

(** [None]: the loop has not ended within [fuel] polls. *)
Definition run_podman_fuel (fuel : nat) (timeout_s : Z) (args : list string) (g : G) :
    option (result AgentError unit * G) :=
  let timeout_ms := (if timeout_s =? 0 then 60 else timeout_s) * 1000 in
  let label := ("podman " ++ join_words args)%string in
  match os_spawn ("podman" :: args) g with
  | (Err e, g) => Some (Err (AgentIo ("spawning " ++ label) e), g)
  | (Ok _, g) =>
      '(status, g) ← poll_child fuel (os_now_ms g) timeout_ms g;
      let '(stderr, g) := os_drained g in
      Some (match status with
            | Some code => if success code then Ok tt else Err (AgentCommand label code (lossy stderr))
            | None => Err (AgentCommand label None (lossy stderr))
            end, g)
  end.

(** Enough polls: one per [POLL_MS] until the deadline, and one more. *)
Definition polls (timeout_s : Z) : nat :=
  S (Z.to_nat ((if timeout_s =? 0 then 60 else timeout_s) * 1000 / POLL_MS + 1)).

(** A loop that never ends has no result; [run_podman_terminates] shows that
    it does end on a clock that advances. *)
Definition run_podman (timeout_s : Z) (args : list string) : SE AgentError G unit := fun g =>
  default (Err (AgentMissing "no result"), g) (run_podman_fuel (polls timeout_s) timeout_s args g).

End podman.

(** ** Small helpers *)

Definition NUL : string := String (ascii_of_N 0) "".

(** [a > b] on strings is byte order. *)
Definition pair_key (a b : string) : string :=
  if String.ltb b a then (b ++ NUL ++ a)%string else (a ++ NUL ++ b)%string.

Definition nonempty (bytes : list Z) : option string :=
  match bytes with [] => None | _ => Some (lossy bytes) end.

Definition err {V} (id : Z) (op error : string) : Reply V :=
  reply_default <| rep_id := Some id |> <| rep_ok := Some false |> <| rep_op := Some op |>
                <| rep_error := Some error |>.

Definition ok_stdout {V} (id : Z) (op stdout : string) : Reply V :=
  reply_default <| rep_id := Some id |> <| rep_ok := Some true |> <| rep_op := Some op |>
                <| rep_stdout := Some stdout |>.

(** ** The agent *)

Record Agent := { partitions : gmap string (string * string); finished : option Z }.

#[export] Instance eta_Agent : Settable Agent := fun a => Build_Agent (partitions a) (finished a).

Definition agent_new : Agent := {| partitions := ∅; finished := None |}.

(** [BTreeMap::values]: in the order of the keys. *)
Definition key_le (p q : string * (string * string)) : Prop := String.leb p.1 q.1 = true.

#[export] Instance key_le_dec p q : Decision (key_le p q).
Proof. unfold key_le. apply _. Defined.

Definition partition_values (ps : gmap string (string * string)) : list (string * string) :=
  snd <$> merge_sort key_le (map_to_list ps).

Definition LF_str : string := String (ascii_of_N 10) "".

Definition drop_rule (src dst : string) : string :=
  ("add rule inet tdvmm_faults partition ip saddr " ++ src ++ " ip daddr " ++ dst ++ " drop" ++ LF_str)%string.

Definition drop_rules (ps : gmap string (string * string)) : list string :=
  ips ← partition_values ps; [drop_rule ips.1 ips.2; drop_rule ips.2 ips.1].

Definition ruleset (ps : gmap string (string * string)) : string :=
  ("add table inet tdvmm_faults" ++ LF_str ++ "delete table inet tdvmm_faults" ++ LF_str
   ++ "add table inet tdvmm_faults" ++ LF_str
   ++ "add chain inet tdvmm_faults partition { type filter hook forward priority -300 ; policy accept ; }" ++ LF_str
   ++ String.concat "" (drop_rules ps))%string.

(** [CARGO] constants of the binary ([main.rs]): [BUILD] is chosen when it is
    compiled. *)
Definition AGENT_ID : string := "tdvmm-agent/1".

Section agent.
Context {G V : Type} `{GuestOs G, PsJson}.
Variable to_lowercase : string -> string.
Variable BUILD : string.
Abbreviation Rep := (Reply V).

(** [Option::unwrap_or_default] on a text field, and [is_empty]. *)
Definition field (o : option string) : string := default "" o.
Definition empty (s : string) : bool := bool_decide (s = "").

Definition apply_partitions (ps : gmap string (string * string)) : SE AgentError G unit :=
  map_err (AgentIo "spawning nft") (os_spawn ["nft"; "-f"; "-"]);;
  write_result ← attempt (os_write_stdin (lit (ruleset ps)));
  out ← map_err (AgentIo "waiting for nft") os_wait_output;
  if negb (success (out_code out)) then
    fail (AgentCommand "nft -f -" (out_code out) (text (trim (from_utf8_lossy (out_stderr out)))))
  else match write_result with
       | Ok _ => mret tt
       | Err e => fail (AgentIo "writing ruleset to nft stdin" e)
       end.

Definition do_finish (req : Request) (a : Agent) : Rep * Agent :=
  let verdict := default 0 (req_exit req) in
  match finished a with
  | Some first => (err (req_id req) OP_FINISH ("run already finished with exit " ++ pretty first), a)
  | None => (ok_stdout (req_id req) OP_FINISH ("finish " ++ pretty verdict), a <| finished := Some verdict |>)
  end.

Definition accepted_finish (req : Request) (reply : Rep) : bool :=
  bool_decide (req_op req = OP_FINISH) && bool_decide (rep_ok reply = Some true).

Definition do_containers (req : Request) (g : G) : Rep * G :=
  match list_containers to_lowercase g with
  | (Ok l, g) => (reply_default <| rep_id := Some (req_id req) |> <| rep_ok := Some true |>
                    <| rep_op := Some "containers" |> <| rep_containers := Some l |>, g)
  | (Err e, g) => (err (req_id req) "containers" (error_msg PodmanPs (agent_error_text e)), g)
  end.

Definition do_exec (req : Request) (g : G) : Rep * G :=
  let container := field (req_container req) in
  let cmd := default [] (req_cmd req) in
  if empty container || bool_decide (cmd = []) then
    (err (req_id req) "exec" "exec requires `container` and `cmd`", g)
  else
    match resolve_running container g with
    | (Err e, g) => (err (req_id req) "exec" (error_msg PodmanPs (agent_error_text e)), g)
    | (Ok None, g) =>
        (err (req_id req) "exec" (error_msg NoContainer ("no running container for service " ++ container)), g)
    | (Ok (Some (id, _)), g) =>
        let start := os_now_ms g in
        let '(out, g) := os_output ("podman" :: "exec" :: id :: cmd) g in
        let dur := as_u64 (os_now_ms g - start) in
        match out with
        | Ok o => (reply_default <| rep_id := Some (req_id req) |> <| rep_ok := Some true |> <| rep_op := Some "exec" |>
                     <| rep_exit := Some (default (-1) (out_code o)) |> <| rep_stdout := nonempty (out_stdout o) |>
                     <| rep_stderr := nonempty (out_stderr o) |> <| rep_dur_ms := Some dur |>, g)
        | Err e => (reply_default <| rep_id := Some (req_id req) |> <| rep_ok := Some false |> <| rep_op := Some "exec" |>
                      <| rep_error := Some (error_msg PodmanExec e) |> <| rep_dur_ms := Some dur |>, g)
        end
    end.

Definition do_lifecycle (req : Request) (op : string) (g : G) : Rep * G :=
  let container := field (req_container req) in
  if empty container then (err (req_id req) op (op ++ " requires `container`"), g)
  else
    match resolve_by_service container WantRunning g with
    | (Err e, g) => (err (req_id req) op (error_msg PodmanPs (agent_error_text e)), g)
    | (Ok None, g) =>
        (err (req_id req) op (error_msg NoContainer ("no running container for service " ++ container)), g)
    | (Ok (Some (id, name)), g) =>
        match run_podman (default 0 (req_timeout_s req)) [op; id] g with
        | (Err e, g) => (err (req_id req) op ("podman_" ++ op ++ ": " ++ agent_error_text e), g)
        | (Ok _, g) =>
            let '(_, g) := run_podman (default 0 (req_timeout_s req)) ["wait"; id] g in
            (ok_stdout (req_id req) op (op ++ " " ++ container ++ " (" ++ name ++ ")"), g)
        end
    end.

Definition do_start (req : Request) (g : G) : Rep * G :=
  let container := field (req_container req) in
  if empty container then (err (req_id req) "start" "start requires `container`", g)
  else
    match resolve_by_service container WantStopped g with
    | (Err e, g) => (err (req_id req) "start" (error_msg PodmanPs (agent_error_text e)), g)
    | (Ok None, g) =>
        match resolve_by_service container WantRunning g with
        | (Ok (Some _), g) => (ok_stdout (req_id req) "start" ("already running " ++ container), g)
        | (_, g) =>
            (err (req_id req) "start" (error_msg NoContainer ("no stopped container for service " ++ container)), g)
        end
    | (Ok (Some (id, name)), g) =>
        match run_podman (default 0 (req_timeout_s req)) ["start"; id] g with
        | (Err e, g) => (err (req_id req) "start" ("podman_start: " ++ agent_error_text e), g)
        | (Ok _, g) => (ok_stdout (req_id req) "start" ("start " ++ container ++ " (" ++ name ++ ")"), g)
        end
    end.

Definition bool_text (b : bool) : string := if b then "true" else "false".

Definition is_some {A} (o : option A) : bool := match o with Some _ => true | None => false end.

(** The addresses of both services, or the reply that says why not. *)
Definition partition_ips (req : Request) (a b : string) (g : G) : result Rep (string * string) * G :=
  match resolve_by_service a WantRunning g with
  | (Err e, g) => (Err (err (req_id req) "partition" (error_msg PodmanPs (agent_error_text e))), g)
  | (Ok aid, g) =>
      match resolve_by_service b WantRunning g with
      | (Err e, g) => (Err (err (req_id req) "partition" (error_msg PodmanPs (agent_error_text e))), g)
      | (Ok bid, g) =>
          match aid, bid with
          | Some (aid, _), Some (bid, _) =>
              match container_ip aid g with
              | (Err e, g) => (Err (err (req_id req) "partition" ("ip(" ++ a ++ "): " ++ agent_error_text e)), g)
              | (Ok aip, g) =>
                  match container_ip bid g with
                  | (Err e, g) => (Err (err (req_id req) "partition" ("ip(" ++ b ++ "): " ++ agent_error_text e)), g)
                  | (Ok bip, g) => (Ok (aip, bip), g)
                  end
              end
          | aopt, bopt =>
              (Err (err (req_id req) "partition"
                 (error_msg NoContainer ("need both running (" ++ a ++ " running=" ++ bool_text (is_some aopt)
                    ++ ", " ++ b ++ " running=" ++ bool_text (is_some bopt) ++ ")"))), g)
          end
      end
  end.

Definition do_partition (req : Request) (st : Agent) (g : G) : Rep * Agent * G :=
  let a := field (req_container req) in
  let b := field (req_peer req) in
  if empty a || empty b then
    (err (req_id req) "partition" "partition requires two services (`container` and `peer`)", st, g)
  else
    match partition_ips req a b g with
    | (Err r, g) => (r, st, g)
    | (Ok (aip, bip), g) =>
        let g := enable_bridge_netfilter g in
        let key := pair_key a b in
        let st := st <| partitions := <[key := (aip, bip)]> (partitions st) |> in
        match apply_partitions (partitions st) g with
        | (Err e, g) => (err (req_id req) "partition" (error_msg Nft (agent_error_text e)),
                         st <| partitions := delete key (partitions st) |>, g)
        | (Ok _, g) =>
            (ok_stdout (req_id req) "partition" ("partition " ++ a ++ "(" ++ aip ++ ") <-x-> " ++ b ++ "(" ++ bip ++ ")"),
             st, g)
        end
    end.

Definition do_heal (req : Request) (st : Agent) (g : G) : Rep * Agent * G :=
  let a := field (req_container req) in
  let b := field (req_peer req) in
  let healed := match empty a, empty b with
                | true, true => Some ∅
                | false, false => Some (delete (pair_key a b) (partitions st))
                | _, _ => None
                end in
  match healed with
  | None => (err (req_id req) "heal" "heal needs two services (`container` and `peer`) or none (heal all)", st, g)
  | Some ps =>
      let st := st <| partitions := ps |> in
      match apply_partitions (partitions st) g with
      | (Err e, g) => (err (req_id req) "heal" (error_msg Nft (agent_error_text e)), st, g)
      | (Ok _, g) =>
          (ok_stdout (req_id req) "heal" (if negb (empty a) then "heal " ++ a ++ " <-> " ++ b else "heal all"), st, g)
      end
  end.

(** The container whose log is read: a running one, else a stopped one. *)
Definition logs_container (req : Request) (service : string) (g : G) : result Rep string * G :=
  match resolve_by_service service WantRunning g with
  | (Err e, g) => (Err (err (req_id req) "logs" (error_msg PodmanPs (agent_error_text e))), g)
  | (Ok (Some (id, _)), g) => (Ok id, g)
  | (Ok None, g) =>
      match resolve_by_service service WantStopped g with
      | (Err e, g) => (Err (err (req_id req) "logs" (error_msg PodmanPs (agent_error_text e))), g)
      | (Ok (Some (id, _)), g) => (Ok id, g)
      | (Ok None, g) => (Err (err (req_id req) "logs" (error_msg NoContainer ("no container for service " ++ service))), g)
      end
  end.

Definition logs_cap (req : Request) : nat :=
  Z.to_nat (Z.min (default MAX_LOGS_CHUNK_BYTES (req_max_bytes req)) MAX_LOGS_CHUNK_BYTES).

Definition do_logs (req : Request) (g : G) : Rep * G :=
  let service := field (req_container req) in
  if empty service then (err (req_id req) "logs" "logs requires `container`", g)
  else
    let cursor := default 0 (req_cursor req) in
    let cap := logs_cap req in
    match logs_container req service g with
    | (Err r, g) => (r, g)
    | (Ok id, g) =>
        match container_log_path id g with
        | (Err e, g) => (err (req_id req) "logs" (error_msg PodmanPs (agent_error_text e)), g)
        | (Ok log_path, g) =>
            match read_log_chunk log_path cursor cap g with
            | (Err e, g) => (err (req_id req) "logs" (error_msg PodmanOp (agent_error_text e)), g)
            | (Ok (data, n, eof), g) =>
                (reply_default <| rep_id := Some (req_id req) |> <| rep_ok := Some true |> <| rep_op := Some "logs" |>
                   <| rep_data := match data with [] => None | _ => Some (text data) end |>
                   <| rep_next_cursor := Some (saturating_add_u64 cursor (Z.of_nat n)) |> <| rep_eof := Some eof |>, g)
            end
        end
    end.

Definition handle (req : Request) (st : Agent) (g : G) : Rep * Agent * G :=
  let op := req_op req in
  let pure (r : Rep * G) := (r.1, st, r.2) in
  if bool_decide (op = OP_FINISH) then let '(r, st) := do_finish req st in (r, st, g)
  else if bool_decide (op = "ping") then
    (reply_default <| rep_id := Some (req_id req) |> <| rep_ok := Some true |> <| rep_op := Some "ping" |>
       <| rep_agent := Some AGENT_ID |> <| rep_schema := Some SCHEMA |> <| rep_build := Some BUILD |>, st, g)
  else if bool_decide (op = "containers") then pure (do_containers req g)
  else if bool_decide (op = "exec") then pure (do_exec req g)
  else if bool_decide (op = "kill") then pure (do_lifecycle req "kill" g)
  else if bool_decide (op = "stop") then pure (do_lifecycle req "stop" g)
  else if bool_decide (op = "start") then pure (do_start req g)
  else if bool_decide (op = "partition") then do_partition req st g
  else if bool_decide (op = "heal") then do_heal req st g
  else if bool_decide (op = "logs") then pure (do_logs req g)
  else (err (req_id req) op (error_msg UnknownOp op), st, g).

End agent.

(** ** What the operating system promises *)

(** Time advances by at least what a sleep asks for and never goes back. *)
Class ClockLaws (G : Type) `{GuestOs G} := {
  clock_sleep ms g : 0 <= ms -> os_now_ms g + ms <= os_now_ms (os_sleep_ms ms g);
  clock_try_wait g r g' : os_try_wait g = (r, g') -> os_now_ms g <= os_now_ms g';
}.

(** [nft -f -] is one transaction: when it succeeds on all of its input, the
    input is what is loaded. *)
Class NftLaws (G : Type) `{GuestOs G} := {
  nft_loaded : G -> list Z;
  nft_law bs g u g1 v g2 o g3 : os_spawn ["nft"; "-f"; "-"] g = (Ok u, g1) -> os_write_stdin bs g1 = (Ok v, g2) ->
    os_wait_output g2 = (Ok o, g3) -> success (out_code o) = true -> nft_loaded g3 = bs;
}.

(** A log file that does not change while it is read: [log_file] is its
    content, [log_rest] what is still ahead of the read position.  A read
    gives a non-empty prefix of that unless there is nothing. *)
Class LogLaws (G : Type) `{GuestOs G} := {
  log_file : string -> G -> option (list Z);
  log_rest : G -> list Z;
  log_open path g r g' : os_open path g = (r, g') ->
    (forall p, log_file p g' = log_file p g) /\
    match log_file path g with Some bs => r = Ok tt /\ log_rest g' = bs | None => r = Err NotFound end;
  log_seek c g r g' : os_seek c g = (r, g') -> 0 <= c < 2 ^ 63 ->
    r = Ok tt /\ log_rest g' = drop (Z.to_nat c) (log_rest g) /\ (forall p, log_file p g' = log_file p g);
  log_read n g r g' : os_read n g = (r, g') -> (0 < n)%nat ->
    exists k, r = Ok (take k (log_rest g)) /\ log_rest g' = drop k (log_rest g) /\ (k <= n)%nat
    /\ (log_rest g <> [] -> (0 < k)%nat) /\ (forall p, log_file p g' = log_file p g);
}.

(** ** Lemmas *)

(** A reply to [req]: its id and op come back, it carries an outcome, and it
    is not an event. *)
Definition answers {V} (id : Z) (op : string) (r : Reply V) : Prop :=
  rep_id r = Some id /\ rep_op r = Some op /\ rep_event r = None /\ rep_seq r = None
  /\ ((rep_ok r = Some true /\ rep_error r = None) \/ (rep_ok r = Some false /\ is_Some (rep_error r))).

Lemma answers_err {V} id op e : answers id op (err id op e : Reply V).
Proof. split_and!; try done. right. by split; [|eexists]. Qed.

Lemma answers_ok {V} id op e : answers id op (ok_stdout id op e : Reply V).
Proof. split_and!; try done. by left. Qed.

(** Any reply built from the default by setting other fields. *)
Ltac answers := repeat case_match; simplify_eq/=;
  first [apply answers_err | apply answers_ok
        | split_and!; [done|done|done|done|first [left; split; done | right; split; [done|by eexists]]] | done].

Section replies.
Context {G V : Type} `{GuestOs G, PsJson}.
Variable to_lowercase : string -> string.

Lemma do_containers_answers req (g : G) : answers (V := V) (req_id req) "containers" (do_containers to_lowercase req g).1.
Proof. unfold do_containers. answers. Qed.

Lemma do_exec_answers req (g : G) : answers (V := V) (req_id req) "exec" (do_exec req g).1.
Proof. unfold do_exec. answers. Qed.

Lemma do_lifecycle_answers req op (g : G) : answers (V := V) (req_id req) op (do_lifecycle req op g).1.
Proof. unfold do_lifecycle. answers. Qed.

Lemma do_start_answers req (g : G) : answers (V := V) (req_id req) "start" (do_start req g).1.
Proof. unfold do_start. answers. Qed.

Lemma partition_ips_answers req a b (g : G) r g' : partition_ips req a b g = (Err r, g') ->
  answers (V := V) (req_id req) "partition" r.
Proof. unfold partition_ips. intros E. repeat (case_match; simplify_eq/=); apply answers_err. Qed.

Lemma partition_ips_fails req a b (g : G) (r : Reply V) g' : partition_ips req a b g = (Err r, g') ->
  rep_ok r = Some false.
Proof. unfold partition_ips. intros E. by repeat (case_match; simplify_eq/=). Qed.

Lemma do_partition_answers req st (g : G) : answers (V := V) (req_id req) "partition" (do_partition req st g).1.1.
Proof.
  unfold do_partition. destruct (_ || _); [apply answers_err|].
  destruct (partition_ips req _ _ g) as [[[aip bip]|r] g'] eqn:E; [|by eapply partition_ips_answers].
  answers.
Qed.

Lemma do_heal_answers req st (g : G) : answers (V := V) (req_id req) "heal" (do_heal req st g).1.1.
Proof. unfold do_heal. answers. Qed.

Lemma logs_container_answers req s (g : G) r g' : logs_container req s g = (Err r, g') ->
  answers (V := V) (req_id req) "logs" r.
Proof. unfold logs_container. intros E. repeat (case_match; simplify_eq/=); apply answers_err. Qed.

Lemma do_logs_answers req (g : G) : answers (V := V) (req_id req) "logs" (do_logs req g).1.
Proof.
  unfold do_logs. destruct (empty _); [apply answers_err|].
  destruct (logs_container req _ g) as [[id|r] g'] eqn:E; [|by eapply logs_container_answers].
  answers.
Qed.

End replies.

Section agent_facts.
Context {G V : Type} `{GuestOs G, PsJson}.
Variable to_lowercase : string -> string.
Variable BUILD : string.
Abbreviation handle := (handle (V := V) to_lowercase BUILD).

Lemma handle_answers req st (g : G) : answers (req_id req) (req_op req) (handle req st g).1.1.
Proof.
  unfold Agent.handle. repeat (destruct (bool_decide _) eqn:?; bool_prop);
    repeat match goal with E : req_op req = _ |- _ => rewrite E; clear E end; cbn [fst snd];
    first [apply do_containers_answers | apply do_exec_answers | apply do_lifecycle_answers | apply do_start_answers
          | apply do_partition_answers | apply do_heal_answers | apply do_logs_answers | apply answers_err | idtac].
  - unfold do_finish. answers.
  - answers.
Qed.

(** Only an accepted finish changes the recorded verdict. *)
Lemma handle_finished req st (g : G) :
  let '(r, st', _) := handle req st g in
  finished st' = (if bool_decide (req_op req = OP_FINISH) then Some (default (default 0 (req_exit req)) (finished st))
                  else finished st)
  /\ accepted_finish req r = bool_decide (req_op req = OP_FINISH) && bool_decide (finished st = None).
Proof.
  unfold Agent.handle, accepted_finish.
  destruct (bool_decide (req_op req = OP_FINISH)) eqn:E.
  { unfold do_finish. destruct (finished st) as [f|] eqn:Ef; cbn; rewrite ?Ef; done. }
  assert (forall st' g', finished (do_partition (V := V) req st' g' : Reply V * Agent * G).1.2 = finished st') as Hp.
  { intros st' g'. unfold do_partition. repeat (case_match; simplify_eq/=); done. }
  assert (forall st' g', finished (do_heal (V := V) req st' g' : Reply V * Agent * G).1.2 = finished st') as Hh.
  { intros st' g'. unfold do_heal. repeat (case_match; simplify_eq/=); done. }
  cbn [andb]. repeat (destruct (bool_decide (req_op req = _)); [first [done
    | by (specialize (Hp st g); destruct (do_partition req st g) as [[? ?] ?])
    | by (specialize (Hh st g); destruct (do_heal req st g) as [[? ?] ?])]|]). done.
Qed.

End agent_facts.

(** ** Partitions *)

Lemma partition_values_elem ps ips : ips ∈ partition_values ps <-> exists key, ps !! key = Some ips.
Proof.
  unfold partition_values. rewrite list_elem_of_fmap. split.
  - intros ([key v] & -> & Hin). rewrite merge_sort_Permutation in Hin. exists key. by apply elem_of_map_to_list.
  - intros [key Hk]. exists (key, ips). split; [done|]. rewrite merge_sort_Permutation. by apply elem_of_map_to_list.
Qed.

Lemma drop_rules_elem ps rule : rule ∈ drop_rules ps <->
  exists key x y, ps !! key = Some (x, y) /\ (rule = drop_rule x y \/ rule = drop_rule y x).
Proof.
  unfold drop_rules. rewrite list_elem_of_bind. split.
  - intros ([x y] & Hin & [key Hk]%partition_values_elem).
    exists key, x, y. split; [done|]. cbn [fst snd] in Hin. rewrite !elem_of_cons, elem_of_nil in Hin. tauto.
  - intros (key & x & y & Hk & Hr). exists (x, y). cbn [fst snd]. rewrite !elem_of_cons, elem_of_nil.
    split; [tauto|]. apply partition_values_elem. by exists key.
Qed.

Lemma apply_partitions_ok {G} `{GuestOs G, !NftLaws G} ps (g : G) u g' : apply_partitions ps g = (Ok u, g') ->
  nft_loaded g' = lit (ruleset ps).
Proof.
  unfold apply_partitions. intros (u1 & g1 & E1 & E)%SE_bind_ok. apply SE_bind_ok in E as (w & g2 & E2 & E).
  apply SE_bind_ok in E as (o & g3 & E3 & E). unfold map_err in E1, E3. unfold attempt in E2.
  destruct (os_spawn _ g) as [[?|?] ?] eqn:Es; simplify_eq.
  destruct (os_write_stdin _ g1) as [w' ?] eqn:Ew; simplify_eq.
  destruct (os_wait_output g2) as [[?|?] ?] eqn:Eo; simplify_eq.
  destruct (success (out_code o)) eqn:Eok; cbn [negb] in E; [|done].
  destruct w as [v|?]; [|done]. injection E as _ <-. by eapply nft_law.
Qed.

(** ** Service pairs *)

Definition nul_free (s : string) : Prop := ascii_of_N 0 ∉ list_ascii_of_string s.

Lemma list_ascii_app a b : list_ascii_of_string (a ++ b) = list_ascii_of_string a ++ list_ascii_of_string b.
Proof. induction a as [|c a IH]; [done|]. simpl. by rewrite IH. Qed.

Lemma nul_split (a b c d : list ascii) x : x ∉ a -> x ∉ c -> a ++ x :: b = c ++ x :: d -> a = c /\ b = d.
Proof.
  revert c. induction a as [|y a IH]; intros [|z c] Ha Hc E; simplify_eq/=; try done.
  - rewrite elem_of_cons in Hc. tauto.
  - rewrite elem_of_cons in Ha. tauto.
  - destruct (IH c) as [-> ->]; [set_solver|set_solver|done|done].
Qed.

Lemma pair_key_split a b c d : nul_free a -> nul_free c ->
  (a ++ NUL ++ b)%string = (c ++ NUL ++ d)%string -> a = c /\ b = d.
Proof.
  intros Ha Hc E. apply (f_equal list_ascii_of_string) in E. rewrite !list_ascii_app in E.
  apply nul_split in E as [Ea Eb]; [|done|done].
  split; [apply (f_equal string_of_list_ascii) in Ea|apply (f_equal string_of_list_ascii) in Eb];
    by rewrite !string_of_list_ascii_of_string in *.
Qed.

Lemma ltb_asym a b : String.ltb a b = true -> String.ltb b a = false.
Proof.
  unfold String.ltb. rewrite (String.compare_antisym a b). by destruct (String.compare b a).
Qed.

Lemma ltb_total a b : String.ltb a b = false -> String.ltb b a = false -> a = b.
Proof.
  unfold String.ltb. rewrite (String.compare_antisym a b).
  destruct (String.compare b a) eqn:E; try done. intros _ _. symmetry. by apply String.compare_eq_iff.
Qed.

Lemma pair_key_sym a b : pair_key a b = pair_key b a.
Proof.
  unfold pair_key. destruct (String.ltb b a) eqn:E.
  - by rewrite (ltb_asym b a E).
  - destruct (String.ltb a b) eqn:E'; [done|]. by rewrite (ltb_total a b E' E).
Qed.

Lemma pair_key_inj a b c d : nul_free a -> nul_free b -> nul_free c -> nul_free d ->
  pair_key a b = pair_key c d -> (a = c /\ b = d) \/ (a = d /\ b = c).
Proof.
  intros Ha Hb Hc Hd. unfold pair_key. destruct (String.ltb b a), (String.ltb d c);
    intros [-> ->]%pair_key_split; try done; auto.
Qed.

(** ** Loops *)

Section loops.
Context {G : Type} `{GuestOs G}.

Lemma poll_child_ends `{!ClockLaws G} fuel start timeout (g : G) :
  timeout - (os_now_ms g - start) < POLL_MS * Z.of_nat fuel -> is_Some (poll_child (S fuel) start timeout g).
Proof.
  revert g. induction fuel as [|fuel IH]; intros g Hf; cbn [poll_child].
  - destruct (os_try_wait g) as [[[st|]|?] g1] eqn:E; [by eexists| |by eexists].
    apply clock_try_wait in E. destruct (_ <=? _) eqn:El; [by eexists|]. bool_prop. unfold POLL_MS in *. lia.
  - destruct (os_try_wait g) as [[[st|]|?] g1] eqn:E; [by eexists| |by eexists].
    apply clock_try_wait in E. destruct (_ <=? _) eqn:El; [by eexists|]. apply IH. bool_prop.
    pose proof (clock_sleep 25 g1 ltac:(lia)). unfold POLL_MS in *. lia.
Qed.

(** The loop reads what is there, up to the cap. *)
Lemma read_up_to_spec `{!LogLaws G} fuel path cap buf (g : G) :
  (length buf <= cap)%nat -> (cap - length buf < fuel)%nat ->
  exists g', read_up_to fuel path cap buf g = (Ok (buf ++ take (cap - length buf) (log_rest g)), g')
  /\ (forall p, log_file p g' = log_file p g).
Proof.
  revert buf g. induction fuel as [|fuel IH]; intros buf g Hb Hf; [lia|]. cbn [read_up_to].
  destruct (Nat.ltb_spec (length buf) cap) as [Hlt|Hge].
  2: { replace (cap - length buf)%nat with O by lia. exists g. rewrite take_0, app_nil_r. done. }
  unfold mbind, SE_bind, map_err. destruct (os_read (cap - length buf) g) as [r g1] eqn:Er.
  destruct (log_read _ _ _ _ Er ltac:(lia)) as (k & -> & Hrest & Hk & Hpos & Hfile).
  destruct (take k (log_rest g)) as [|x bs] eqn:Et.
  { exists g1. split; [|done]. assert (log_rest g = []) as ->; [|by rewrite take_nil, app_nil_r].
    destruct (log_rest g) as [|y l]; [done|]. specialize (Hpos ltac:(done)). destruct k; [lia|done]. }
  rewrite <- Et. assert (Hl : (0 < length (take k (log_rest g)) <= k)%nat).
  { rewrite Et at 1. rewrite length_take. cbn [length]. lia. }
  destruct (IH (buf ++ take k (log_rest g)) g1) as (g2 & E2 & Hf2); [rewrite length_app; lia|rewrite length_app; lia|].
  exists g2. rewrite E2. split; [|intros p; by rewrite Hf2, Hfile]. rewrite <- app_assoc, Hrest. repeat f_equal.
  set (l := log_rest g) in *. rewrite length_app, length_take. destruct (decide (k <= length l)%nat) as [Hkl|Hkl].
  - rewrite Nat.min_l, take_take_drop by done. f_equal. lia.
  - rewrite (take_ge l k), (drop_ge l k), take_nil, app_nil_r, take_ge by lia. done.
Qed.

Lemma read_log_chunk_spec `{!LogLaws G} path cursor cap (g : G) :
  0 <= cursor < 2 ^ 63 ->
  let chunk := take cap (drop (Z.to_nat cursor) (default [] (log_file path g))) in
  exists g', read_log_chunk path cursor cap g =
      (Ok (from_utf8_lossy chunk, length chunk,
           match log_file path g with Some _ => (length chunk <? cap)%nat | None => true end), g')
  /\ (forall p, log_file p g' = log_file p g).
Proof.
  intros Hc chunk. unfold read_log_chunk. destruct (os_open path g) as [r g1] eqn:Eo.
  destruct (log_open _ _ _ _ Eo) as [Hf1 Hm]. subst chunk. destruct (log_file path g) as [bs|] eqn:Ef.
  - destruct Hm as [-> Hrest]. cbn [default]. unfold mbind, SE_bind, map_err.
    destruct (os_seek cursor g1) as [r2 g2] eqn:Es. destruct (log_seek _ _ _ _ Es Hc) as (-> & Hr2 & Hf2).
    destruct (read_up_to_spec (S cap) path cap [] g2) as (g3 & E3 & Hf3); [simpl; lia|simpl; lia|].
    rewrite E3. cbn [length app]. rewrite Nat.sub_0_r, Hr2, Hrest.
    exists g3. split; [done|]. intros p. by rewrite Hf3, Hf2, Hf1.
  - subst r. cbn [default]. exists g1. rewrite drop_nil, take_nil. done.
Qed.

End loops.

(** ** A concrete guest

    Two running containers, [nft] and [podman] that succeed, one log file. *)

Record ToyOs := { t_now : Z; t_stdin : list Z; t_loaded : list Z; t_file : list Z; t_rest : list Z; t_busy : nat }.

#[export] Instance eta_ToyOs : Settable ToyOs := fun t =>
  Build_ToyOs (t_now t) (t_stdin t) (t_loaded t) (t_file t) (t_rest t) (t_busy t).

Definition toy_output (args : list string) : Output :=
  {| out_code := Some 0;
     out_stdout := if bool_decide ("-f" ∈ args) then lit (String.concat "" ["10.0."; default "" (last args); " "])
                   else if bool_decide ("inspect" ∈ args) then lit "/log" else [];
     out_stderr := [] |}.

#[export] Instance toy_os : GuestOs ToyOs := {
  os_output args t := (Ok (toy_output args), t);
  os_spawn _ t := (Ok tt, t <| t_stdin := [] |>);
  os_write_stdin bs t := (Ok tt, t <| t_stdin := bs |>);
  os_wait_output t := (Ok {| out_code := Some 0; out_stdout := []; out_stderr := [] |}, t <| t_loaded := t_stdin t |>);
  os_try_wait t := match t_busy t with
                   | O => (Ok (Some (Some 0)), t)
                   | S n => (Ok None, t <| t_busy := n |>)
                   end;
  os_kill t := t <| t_busy := O |>;
  os_wait t := (Some None, t);
  os_drained t := ([], t);
  os_sleep_ms ms t := t <| t_now := t_now t + ms |>;
  os_now_ms := t_now;
  os_write_file _ _ t := t;
  os_open path t := if bool_decide (path = "/log") then (Ok tt, t <| t_rest := t_file t |>) else (Err NotFound, t);
  os_seek c t := (Ok tt, t <| t_rest := drop (Z.to_nat c) (t_rest t) |>);
  os_read n t := (Ok (take n (t_rest t)), t <| t_rest := drop n (t_rest t) |>);
}.

#[export] Instance toy_ps : PsJson := fun _ =>
  Ok [Build_PsEntry "1.1" ["web"] "running" 0 ∅ "Up"; Build_PsEntry "1.2" ["db"] "running" 0 ∅ "Up"].

Definition toy_guest : ToyOs := {| t_now := 0; t_stdin := []; t_loaded := []; t_file := lit "hello"; t_rest := []; t_busy := 3 |}.

#[export] Instance toy_clock : ClockLaws ToyOs.
Proof.
  split; cbn [os_now_ms os_sleep_ms os_try_wait toy_os].
  - intros ms g Hms. cbn. lia.
  - intros g r g' E. destruct (t_busy g); simplify_eq; done.
Qed.

#[export] Program Instance toy_nft : NftLaws ToyOs := { nft_loaded := t_loaded }.
Next Obligation. intros bs g u g1 v g2 o g3 Hs Hw Ho _. cbn in *. by simplify_eq. Qed.

#[export] Program Instance toy_log : LogLaws ToyOs := {
  log_file p t := if bool_decide (p = "/log") then Some (t_file t) else None; log_rest := t_rest }.
Next Obligation.
  intros path g r g' E. cbn in E |- *. destruct (bool_decide (path = "/log")); simplify_eq/=; done.
Qed.
Next Obligation. intros c g r g' E Hc. cbn in E. by simplify_eq. Qed.
Next Obligation.
  intros n g r g' E Hn. cbn in E. simplify_eq. exists n. split_and!; try done; lia.
Qed.

Definition req_of (op : string) (a b : option string) : Request := Build_Request 7 op a b None None None None None None.

(** ** Properties *)

(** C35: Every request gets one reply that can be matched to it: the reply
    carries the request's id and op and never an event or an event number; it says either that
    the op worked, with no error, or that it failed, with an error text.  This
    holds whatever podman, nft and the file system do. *)
Theorem handle_answers_request {G V} `{GuestOs G, PsJson} to_lowercase BUILD req st (g : G) :
  let r := (handle (V := V) to_lowercase BUILD req st g).1.1 in
  rep_id r = Some (req_id req) /\ rep_op r = Some (req_op req) /\ rep_event r = None /\ rep_seq r = None
  /\ ((rep_ok r = Some true /\ rep_error r = None) \/ (rep_ok r = Some false /\ is_Some (rep_error r))).
Proof. apply handle_answers. Qed.

(** A podman command cannot hang the agent: on a clock that advances,
    the polling loop of [run_podman] ends within one poll per 25 ms up to the
    timeout (60 s when none is given), whatever the child does, and gives a
    result. *)
Theorem run_podman_terminates {G} `{GuestOs G, !ClockLaws G} timeout_s args (g : G) :
  0 <= timeout_s -> is_Some (run_podman_fuel (polls timeout_s) timeout_s args g).
Proof.
  intros Ht. unfold run_podman_fuel. destruct (os_spawn _ g) as [[?|?] g1]; [|by eexists].
  set (t := (if timeout_s =? 0 then 60 else timeout_s) * 1000).
  destruct (poll_child_ends (Z.to_nat (t / POLL_MS + 1)) (os_now_ms g1) t g1) as [[st g2] E].
  - assert (0 <= t) by (unfold t; destruct (_ =? _); lia). unfold POLL_MS.
    pose proof (Z.mul_succ_div_gt t 25 ltac:(lia)). rewrite Z2Nat.id by (pose proof (Z.div_pos t 25); lia). lia.
  - unfold polls. fold t. rewrite E. cbn [mbind option_bind]. destruct (os_drained g2). by eexists.
Qed.

Lemma run_podman_terminates_witness : is_Some (run_podman_fuel (polls 1) 1 ["kill"; "1.1"] toy_guest).
Proof. apply (run_podman_terminates 1 ["kill"; "1.1"] toy_guest). lia. Defined.

(** Partition and heal are inverse: when a partition of two services and
    a later heal of the same two, named in either order, both report success,
    the rules loaded in the kernel in between drop both directions between
    their addresses and are those of the recorded partitions, and afterwards
    the rules are those of the partitions there were before, without this
    pair; every other pair of services keeps its partition throughout. *)
Theorem partition_heal_roundtrip {G V} `{GuestOs G, PsJson, !NftLaws G} req req' st st1 st2 (g g1 g' g2 : G) (r r' : Reply V) :
  do_partition req st g = (r, st1, g1) -> rep_ok r = Some true ->
  do_heal req' st1 g' = (r', st2, g2) -> rep_ok r' = Some true ->
  pair_key (field (req_container req')) (field (req_peer req')) =
    pair_key (field (req_container req)) (field (req_peer req)) ->
  empty (field (req_container req')) = false ->
  exists aip bip,
    let key := pair_key (field (req_container req)) (field (req_peer req)) in
    partitions st1 = <[key := (aip, bip)]> (partitions st)
    /\ nft_loaded g1 = lit (ruleset (partitions st1))
    /\ drop_rule aip bip ∈ drop_rules (partitions st1) /\ drop_rule bip aip ∈ drop_rules (partitions st1)
    /\ partitions st2 = delete key (partitions st) /\ nft_loaded g2 = lit (ruleset (partitions st2))
    /\ (forall c d, nul_free c -> nul_free d -> nul_free (field (req_container req)) -> nul_free (field (req_peer req)) ->
         ~ (field (req_container req) = c /\ field (req_peer req) = d) ->
         ~ (field (req_container req) = d /\ field (req_peer req) = c) ->
         partitions st1 !! pair_key c d = partitions st !! pair_key c d
         /\ partitions st2 !! pair_key c d = partitions st !! pair_key c d).
Proof.
  intros Hp Hr Hh Hr' Hkey He. unfold do_partition in Hp. destruct (_ || _); [by simplify_eq|].
  destruct (partition_ips req _ _ g) as [[[aip bip]|e] ga] eqn:Ei.
  2: { simplify_eq. apply partition_ips_fails in Ei. congruence. }
  destruct (apply_partitions _ (enable_bridge_netfilter ga)) as [[u|e] gb] eqn:Ea; [|by simplify_eq].
  simplify_eq. cbn [partitions set_field] in *. unfold do_heal in Hh. rewrite He in Hh.
  destruct (empty (field (req_peer req'))); [by simplify_eq|]. cbn [partitions set_field] in Hh.
  rewrite Hkey in Hh. destruct (apply_partitions _ g') as [[v|e] gd] eqn:Eb; [|by simplify_eq].
  simplify_eq. cbn [partitions set_field] in *. apply apply_partitions_ok in Ea, Eb.
  exists aip, bip. cbv zeta. split_and!; [done|done| | | |done|].
  - apply drop_rules_elem. eexists _, _, _. split; [by rewrite lookup_insert_eq|]. by left.
  - apply drop_rules_elem. eexists _, _, _. split; [by rewrite lookup_insert_eq|]. by right.
  - apply delete_insert_eq.
  - intros c d Hc Hd Ha Hb Hn1 Hn2.
    assert (pair_key (field (req_container req)) (field (req_peer req)) <> pair_key c d) as Hne.
    { intros [?|?]%pair_key_inj; tauto. }
    rewrite lookup_delete_ne, !lookup_insert_ne by done. done.
Qed.

Definition toy_partitioned : Reply unit * Agent * ToyOs :=
  Eval vm_compute in do_partition (req_of "partition" (Some "web") (Some "db")) agent_new toy_guest.
Definition toy_healed : Reply unit * Agent * ToyOs :=
  Eval vm_compute in do_heal (req_of "heal" (Some "db") (Some "web")) toy_partitioned.1.2 toy_partitioned.2.

Lemma partition_heal_roundtrip_witness :
  rep_ok toy_partitioned.1.1 = Some true
  /\ nft_loaded toy_partitioned.2 = lit (ruleset (partitions toy_partitioned.1.2))
  /\ partitions toy_healed.1.2 = delete (pair_key "web" "db") ∅.
Proof.
  split; [reflexivity|].
  destruct (partition_heal_roundtrip (V := unit) (req_of "partition" (Some "web") (Some "db")) (req_of "heal" (Some "db") (Some "web"))
    agent_new toy_partitioned.1.2 toy_healed.1.2 toy_guest toy_partitioned.2 toy_partitioned.2 toy_healed.2
    toy_partitioned.1.1 toy_healed.1.1) as (aip & bip & _ & Hl & _ & _ & Hd & _);
    [vm_compute; reflexivity|reflexivity|vm_compute; reflexivity|reflexivity|reflexivity|reflexivity|].
  split; [exact Hl|exact Hd].
Defined.

(** A partition that the kernel refuses also drops the entry an earlier,
    successful partition of the same pair had recorded, although its rules are
    still loaded. *)
Theorem failed_partition_forgets_earlier {G V} `{GuestOs G, PsJson} req st st1 (g g1 : G) (r : Reply V) old e g0 aip bip gi :
  let key := pair_key (field (req_container req)) (field (req_peer req)) in
  partitions st !! key = Some old ->
  empty (field (req_container req)) || empty (field (req_peer req)) = false ->
  partition_ips (V := V) req (field (req_container req)) (field (req_peer req)) g = (Ok (aip, bip), gi) ->
  apply_partitions (<[key := (aip, bip)]> (partitions st)) (enable_bridge_netfilter gi) = (Err e, g0) ->
  do_partition req st g = (r, st1, g1) ->
  rep_ok r = Some false /\ partitions st1 !! key = None.
Proof.
  cbv zeta. intros Ho Hemp Hi Ha. unfold do_partition. rewrite Hemp, Hi. cbn [partitions set_field].
  rewrite Ha. intros [= <- <- <-]. split; [done|]. cbn [partitions set_field]. apply lookup_delete_eq.
Qed.
