(* ===== verification/Bridge.v ===== *)
(** * The guest agent's multiplexer ([src/tdvmm-agent/src/bridge.rs])

    The line reader, the handlers of one line of each source (the host on
    ttyS1, a container on the control socket, the events FIFO) and one turn of
    the poll loop that serves them.  What [poll], [accept] and the reads gave
    is the argument of a turn; the two kinds of writer are behind [Write].
    The properties: no byte is lost and memory is bounded by the reader, and
    the trace on ttyS1, which the host acts on, numbers events without gaps
    and carries at most one verdict, the one the agent accepted. *)

From Stdlib Require Import ZArith Lia.
From stdpp Require Import base numbers strings gmap list.
From S2P Require Import Prelude.
From S2P Require Import Text.
From S2P Require Import Utf8.
From S2P Require Import Lines.
From S2P Require Import Proto.
From S2P Require Import Driver.
From S2P Require Import Io.
From S2P Require Import Agent.

Open Scope Z_scope.

Definition FIFO_EVENT_CAP : nat := Z.to_nat 4096.
Definition RX_LINE_CAP : nat := Z.to_nat (64 * 1024).
Definition MAX_CTL_CONNS : nat := 32.
(** The size of [fill]'s buffer. *)
Definition FILL_BYTES : nat := Z.to_nat (2 ^ 13).

(** ** The line reader *)

(** [LineReader::next] on the frame buffer. *)
Definition next (buf : list Z) : option (list Z * list Z) :=
  match position (fun b => b =? 10) buf with
  | Some i => Some (take (S i) buf, drop (S i) buf)
  | None => if (RX_LINE_CAP <? length buf)%nat then Some (buf, []) else None
  end.

(** Iterating until [None]: every frame takes at least a byte. *)
Fixpoint drain_fuel (fuel : nat) (buf : list Z) : list (list Z) * list Z :=
  match fuel with
  | O => ([], buf)
  | S fuel =>
      match next buf with
      | None => ([], buf)
      | Some (line, buf) => let '(ls, rest) := drain_fuel fuel buf in (line :: ls, rest)
      end
  end.

Definition drain (buf : list Z) : list (list Z) * list Z := drain_fuel (S (length buf)) buf.

(** What one [read()] gave: bytes, the end of the stream, or an error. *)
Inductive Fill := FillBytes (bs : list Z) | FillEof | FillError.

(** ** JSON *)

(** Building a JSON object of string fields, and the text of a parse error. *)
Class JsonText (V : Type) := { json_strings : list (string * string) -> V; json_error : list Z -> string }.

(** What the library makes of replies that carry events: their documents lose
    nothing outside the event's details; a reply nests one level deeper than
    its event; an event with no details, or with the agent's own, is flat. *)
Class EventJson (V : Type) `{Json (Reply V), Json (GuestEvent V), JsonText V} : Prop := {
  event_replies :: ReplyJson V;
  reply_norm (r : Reply V) : json_norm r = r <| rep_event := json_norm <$> rep_event r |>;
  event_norm (ev : GuestEvent V) : json_norm ev =
    Build_GuestEvent (ev_kind ev) (ev_name ev) (ev_ok ev) (ev_exit ev) (ev_details (json_norm ev));
  reply_event_depth sq (ev : GuestEvent V) : json_depth (from_event sq ev) = S (json_depth ev);
  own_event_depth (ev : GuestEvent V) :
    ev_details ev = None \/ (exists fields, ev_details ev = Some (json_strings fields)) -> (json_depth ev <= 2)%nat;
}.

Section bridge.
Context {G V W K : Type} `{GuestOs G, PsJson, Write W, Write K, Json Request, Json (Reply V), Json (GuestEvent V), JsonText V}.
Variable to_lowercase : string -> string.
Variable BUILD : string.
Abbreviation Ev := (GuestEvent V).

Definition write_line {S} `{Write S} (reply : Reply V) : SE unit S unit := fun w =>
  match encode_line reply with
  | None => (Err tt, w)
  | Some bytes => (write_all bytes;; flush) w
  end.

Definition bad_request (detail : string) : Reply V :=
  reply_default <| rep_ok := Some false |> <| rep_op := Some "?" |> <| rep_error := Some (error_msg BadRequest detail) |>.

Definition event_default : Ev := Build_GuestEvent "" "" None None None.

Definition finish_event (req : Request) : Ev :=
  Build_GuestEvent OP_FINISH (default "" (req_message req)) None (Some (default 0 (req_exit req))) None.

Definition mirror_details (req : Request) (reply : Reply V) : list (string * string) :=
  (match req_container req with Some c => [("service", c)] | None => [] end) ++
  (match req_peer req with Some p => [("peer", p)] | None => [] end) ++
  (if bool_decide (rep_ok reply = Some true) then []
   else match rep_error reply with Some e => [("error", e)] | None => [] end).

Definition ctl_mirror (req : Request) (reply : Reply V) : Ev :=
  let details := mirror_details req reply in
  Build_GuestEvent "ctl" (req_op req) (Some (bool_decide (rep_ok reply = Some true))) None
    (match details with [] => None | _ => Some (json_strings details) end).

Definition parse_event (line : list Z) : Ev :=
  let capped := take FIFO_EVENT_CAP (trim_frame line) in
  let raw := lossy (take 256 capped) in
  let invalid details := Build_GuestEvent "invalid" "" None None (Some (json_strings details)) in
  match from_slice (T := Ev) capped with
  | Some ev =>
      if is_reserved_event_kind (ev_kind ev) then
        invalid [("raw", raw); ("rejected", "reserved event kind (agent-originated only)")]
      else if bool_decide (ev_kind ev = "") then invalid [("raw", raw)]
      else ev
  | None => invalid [("raw", raw)]
  end.

(** ** One line *)

(** The agent with the operating system it acts on. *)
Definition AG : Type := Agent * G.

Definition run_handle (req : Request) (ag : AG) : Reply V * AG :=
  let '(r, a, g) := handle to_lowercase BUILD req ag.1 ag.2 in (r, (a, g)).

Definition handle_control_line (line : list Z) (ag : AG) (w : W) : result unit unit * AG * W :=
  if bool_decide (trim_frame line = []) then (Ok tt, ag, w)
  else
    match decode_line (T := Request) line with
    | None => let '(r, w) := write_line (bad_request (json_error line)) w in (r, ag, w)
    | Some req =>
        let '(reply, ag) := run_handle req ag in
        let '(r, w) := write_line reply w in (r, ag, w)
    end.

Record CtlOutcome := { forward : option Ev; conn_alive : bool }.

Definition handle_ctl_line (line : list Z) (ag : AG) (conn : K) : CtlOutcome * AG * K :=
  if bool_decide (trim_frame line = []) then ({| forward := None; conn_alive := true |}, ag, conn)
  else
    match decode_line (T := Request) line with
    | None =>
        let '(r, conn) := write_line (bad_request (json_error line)) conn in
        ({| forward := None; conn_alive := is_Ok r |}, ag, conn)
    | Some req =>
        let '(reply, ag) := run_handle req ag in
        let ev := if accepted_finish req reply then finish_event req else ctl_mirror req reply in
        let '(r, conn) := write_line reply conn in
        ({| forward := Some ev; conn_alive := is_Ok r |}, ag, conn)
    end.

(** ** The poll loop *)

Record CtlConn := { cc_buf : list Z; cc_wr : K }.

(** [br_ctl]: whether there is a listening control socket. *)
Record Bridge := {
  br_ag : AG; br_writer : W; br_seq : Z; br_control : list Z; br_ctl : bool;
  br_conns : list CtlConn; br_events : option (list Z) }.

#[export] Instance eta_Bridge : Settable Bridge := fun b =>
  Build_Bridge (br_ag b) (br_writer b) (br_seq b) (br_control b) (br_ctl b) (br_conns b) (br_events b).

(** What a turn found ready: [None] is not ready.  For the listener, the
    socket accepted, unless [accept] or [try_clone] failed. *)
Record Polled := {
  p_control : option Fill; p_accept : option (option K); p_conns : list (option Fill); p_events : option Fill }.

(** The state the handlers of one turn thread: agent, ttyS1, event counter.
    [None] in place of a result means the loop returns. *)
Definition Out : Type := AG * W * Z.

Fixpoint serve_control (lines : list (list Z)) (o : Out) : bool * Out :=
  match lines with
  | [] => (true, o)
  | line :: lines =>
      let '(ag, w, seq) := o in
      let '(r, ag, w) := handle_control_line line ag w in
      if is_Ok r then serve_control lines (ag, w, seq) else (false, (ag, w, seq))
  end.

Definition send_event (ev : Ev) (o : Out) : bool * Out :=
  let '(ag, w, seq) := o in
  let seq := as_u64 (seq + 1) in
  let '(r, w) := write_line (from_event seq ev) w in
  (is_Ok r, (ag, w, seq)).

(** The lines of one connection: whether the agent goes on, whether the
    connection broke. *)
Fixpoint serve_conn (lines : list (list Z)) (wr : K) (o : Out) : bool * bool * K * Out :=
  match lines with
  | [] => (true, false, wr, o)
  | line :: lines =>
      let '(ag, w, seq) := o in
      let '(outcome, ag, wr) := handle_ctl_line line ag wr in
      let '(on, o) := match forward outcome with
                      | Some ev => send_event ev (ag, w, seq)
                      | None => (true, (ag, w, seq))
                      end in
      if negb on then (false, false, wr, o)
      else if negb (conn_alive outcome) then (true, true, wr, o)
      else serve_conn lines wr o
  end.

(** The connections of the poll set, in order; dead ones are retired.  The
    ones beyond the set ([take(polled_conns)]) are kept as they are. *)
Fixpoint serve_conns (ps : list (option Fill)) (cs : list CtlConn) (o : Out) : bool * list CtlConn * Out :=
  match ps, cs with
  | p :: ps, c :: cs =>
      match p with
      | None => let '(on, cs, o) := serve_conns ps cs o in (on, c :: cs, o)
      | Some (FillBytes bs) =>
          let '(lines, rest) := drain (cc_buf c ++ bs) in
          let '(on, broken, wr, o) := serve_conn lines (cc_wr c) o in
          if negb on then (false, [], o)
          else let '(on, cs, o) := serve_conns ps cs o in
               (on, if broken then cs else {| cc_buf := rest; cc_wr := wr |} :: cs, o)
      | Some _ => serve_conns ps cs o
      end
  | _, cs => (true, cs, o)
  end.

Fixpoint serve_events (lines : list (list Z)) (o : Out) : bool * Out :=
  match lines with
  | [] => (true, o)
  | line :: lines =>
      let '(on, o) := send_event (parse_event line) o in
      if on then serve_events lines o else (false, o)
  end.

(** 1. control. *)
Definition control_phase (p : Polled) (b : Bridge) : bool * Bridge :=
  match p_control p with
  | None => (true, b)
  | Some (FillBytes bs) =>
      let '(lines, rest) := drain (br_control b ++ bs) in
      let '(on, (ag, w, seq)) := serve_control lines (br_ag b, br_writer b, br_seq b) in
      (on, b <| br_ag := ag |> <| br_writer := w |> <| br_seq := seq |> <| br_control := rest |>)
  | Some _ => (false, b)
  end.

(** 2. a new connection, if there is room for it. *)
Definition accept_phase (p : Polled) (b : Bridge) : Bridge :=
  if br_ctl b then
    match p_accept p with
    | Some (Some wr) =>
        if (length (br_conns b) <? MAX_CTL_CONNS)%nat
        then b <| br_conns := br_conns b ++ [{| cc_buf := []; cc_wr := wr |}] |> else b
    | _ => b
    end
  else b.

(** 3. container commands. *)
Definition conns_phase (polled : nat) (p : Polled) (b : Bridge) : bool * Bridge :=
  let '(on, cs, (ag, w, seq)) := serve_conns (take polled (p_conns p)) (br_conns b) (br_ag b, br_writer b, br_seq b) in
  (on, b <| br_ag := ag |> <| br_writer := w |> <| br_seq := seq |> <| br_conns := cs |>).

(** 4. workload events. *)
Definition events_phase (p : Polled) (b : Bridge) : bool * Bridge :=
  match br_events b, p_events p with
  | Some buf, Some (FillBytes bs) =>
      let '(lines, rest) := drain (buf ++ bs) in
      let '(on, (ag, w, seq)) := serve_events lines (br_ag b, br_writer b, br_seq b) in
      (on, b <| br_ag := ag |> <| br_writer := w |> <| br_seq := seq |> <| br_events := Some rest |>)
  | _, _ => (true, b)
  end.

(** One turn of [run_loop] after [poll] returned; false: the loop returns. *)
Definition turn (p : Polled) (b : Bridge) : bool * Bridge :=
  let polled := length (br_conns b) in
  let '(on, b) := control_phase p b in
  if negb on then (false, b)
  else
    let b := accept_phase p b in
    let '(on, b) := conns_phase polled p b in
    if negb on then (false, b) else events_phase p b.

(** [main], from the hello to the poll loop. *)
Definition bridge_init (a : Agent) (g : G) (w : W) (ctl : bool) (events : bool) : Bridge :=
  Build_Bridge (a, g) w 0 [] ctl [] (if events then Some [] else None).

Definition agent_start (g : G) (w : W) (ctl events : bool) : option Bridge :=
  match write_line (reply_hello AGENT_ID BUILD) w with
  | (Ok _, w) => Some (bridge_init agent_new g w ctl events)
  | (Err _, _) => None
  end.

End bridge.

(** ** The reader *)

(** A frame is a line with its newline, or an unterminated run past the cap. *)
Definition frame_shape (l : list Z) : Prop :=
  (exists body, l = body ++ [10] /\ Forall (fun b => b <> 10) body)
  \/ (Forall (fun b => b <> 10) l /\ (RX_LINE_CAP < length l)%nat).

Definition quiet_buf (buf : list Z) : Prop := Forall (fun b => b <> 10) buf /\ (length buf <= RX_LINE_CAP)%nat.

Lemma position_lf_none buf : position (fun b => b =? 10) buf = None -> Forall (fun b => b <> 10) buf.
Proof.
  intros E%position_None. eapply Forall_impl; [exact E|]. intros b Hb. cbn beta in Hb. by apply Z.eqb_neq.
Qed.

Lemma next_spec buf : match next buf with
                      | None => quiet_buf buf
                      | Some (l, rest) => buf = l ++ rest /\ frame_shape l /\ (0 < length l)%nat
                      end.
Proof.
  unfold next. destruct (position _ buf) as [i|] eqn:E.
  - apply position_Some in E as ((x & Hx & Hb) & Hpre). bool_prop. subst x. split; [by rewrite take_drop|].
    pose proof (lookup_lt_Some _ _ _ Hx) as Hlt. split.
    + left. exists (take i buf). split; [by rewrite (take_S_r _ _ 10)|].
      apply Forall_lookup. intros j b Hj. apply lookup_take_Some in Hj as [Hj Hji].
      apply Z.eqb_neq. by eapply Hpre.
    + rewrite length_take. lia.
  - apply position_lf_none in E. destruct (Nat.ltb_spec RX_LINE_CAP (length buf)) as [Hl|Hl]; [|by split].
    split; [by rewrite app_nil_r|]. split; [by right|lia].
Qed.

Lemma drain_fuel_spec fuel buf : (length buf < fuel)%nat ->
  concat (drain_fuel fuel buf).1 ++ (drain_fuel fuel buf).2 = buf
  /\ Forall frame_shape (drain_fuel fuel buf).1 /\ quiet_buf (drain_fuel fuel buf).2.
Proof.
  revert buf. induction fuel as [|fuel IH]; intros buf Hf; [lia|]. cbn [drain_fuel].
  pose proof (next_spec buf) as Hn. destruct (next buf) as [[l rest]|]; [|by split_and!].
  destruct Hn as (-> & Hs & Hl). rewrite length_app in Hf. destruct (IH rest ltac:(lia)) as (Hc & Hfs & Hq).
  destruct (drain_fuel fuel rest) as [ls rest']. cbn [fst snd concat] in *. split_and!; try done; [|by constructor].
  by rewrite <- app_assoc, Hc.
Qed.

Lemma drain_lines_spec buf : concat (drain buf).1 ++ (drain buf).2 = buf
  /\ Forall frame_shape (drain buf).1 /\ quiet_buf (drain buf).2.
Proof. apply drain_fuel_spec. lia. Qed.

(** ** The trace on ttyS1 *)

Section replies.
Context {V : Type} `{Json (Reply V)}.

Definition line_of (r : Reply V) : list Z := default [] (encode_line r).

Definition is_finish (ev : GuestEvent V) : bool := bool_decide (ev_kind ev = OP_FINISH).

(** The verdicts in a sequence of replies. *)
Definition fins (rs : list (Reply V)) : list (GuestEvent V) := filter (fun ev => is_finish ev) (omap rep_event rs).

Lemma fins_app rs rs' : fins (rs ++ rs') = fins rs ++ fins rs'.
Proof. unfold fins. by rewrite omap_app, filter_app. Qed.

Lemma fins_one r : fins [r] = match rep_event r with Some ev => if is_finish ev then [ev] else [] | None => [] end.
Proof.
  unfold fins. change (omap rep_event [r]) with (match rep_event r with Some ev => [ev] | None => [] end).
  destruct (rep_event r) as [ev|]; [|done].
  destruct (is_finish ev) eqn:E; [rewrite filter_cons_True by (rewrite E; simpl; tauto)|rewrite filter_cons_False by (rewrite E; simpl; tauto)]; done.
Qed.

Lemma fins_event sq ev : fins [from_event sq ev] = if is_finish ev then [ev] else [].
Proof. by rewrite fins_one. Qed.

Lemma fins_reply r : rep_event r = None -> fins [r] = [].
Proof. intros E. by rewrite fins_one, E. Qed.

End replies.

Section trace.
Context {G V W K : Type} `{GuestOs G, PsJson, Write W, !WriteLaws W, Write K, Json Request, Json (Reply V),
  Json (GuestEvent V), JsonText V}.
Variable to_lowercase : string -> string.
Variable BUILD : string.
(** The host sent a [finish] of its own on ttyS1. *)
Variable host_fin : Prop.
Abbreviation B := (Bridge (G := G) (W := W) (K := K)).

(** Where an event comes from: the agent made it, or the parser took it from a
    line of the FIFO and its kind is no reserved one. *)
Definition own_event (ev : GuestEvent V) : Prop :=
  ev_details ev = None \/ exists fields, ev_details ev = Some (json_strings fields).
Definition fifo_event (ev : GuestEvent V) : Prop :=
  is_reserved_event_kind (ev_kind ev) = false /\ exists bs, from_slice (T := GuestEvent V) bs = Some ev.

(** What ttyS1 has carried: whole lines, events numbered from 1, and the
    verdict exactly when the agent accepted one from a container. *)
Record told (rs : list (Reply V)) (w : W) (a : Agent) (seq : Z) : Prop := {
  told_lines : written w = concat (line_of <$> rs);
  told_hello : head rs = Some (reply_hello AGENT_ID BUILD);
  told_encode : Forall (fun r => is_Some (encode_line r)) rs;
  told_plain : Forall (fun r => is_Some (rep_event r) -> is_hello r = false) rs;
  told_origin : Forall (fun r => rep_event r = None
    \/ exists sq ev, r = from_event sq ev /\ (own_event ev \/ fifo_event ev)) rs;
  told_seq : exists n, omap rep_seq rs = as_u64 <$> seqZ 1 (Z.of_nat n) /\ seq = as_u64 (Z.of_nat n);
  told_fins : (fins rs = [] /\ (finished a <> None -> host_fin))
    \/ exists ev, fins rs = [ev] /\ finished a = ev_exit ev /\ is_Some (ev_exit ev);
}.

Definition tells (o : Out (G := G) (W := W)) : Prop :=
  intact o.1.2 = true -> exists rs, told rs o.1.2 o.1.1.1 o.2.

Lemma write_line_ok r (w w' : W) : write_line (V := V) r w = (Ok tt, w') -> intact w' = true ->
  intact w = true /\ written w' = written w ++ line_of r /\ is_Some (encode_line r).
Proof.
  unfold write_line, line_of. destruct (encode_line r) as [bs|]; [|done]. cbn [default].
  intros (u & w1 & E1 & E2)%SE_bind_ok Hi. destruct (flush_law _ _ _ E2 Hi) as [Hi1 ->].
  destruct (write_all_law _ _ _ _ E1 Hi1) as (_ & ? & ?). done.
Qed.

(** A line on ttyS1 that is no event. *)
Lemma told_reply rs w w' a a' seq r : told rs w a seq -> write_line r w = (Ok tt, w') -> intact w' = true ->
  rep_event r = None -> rep_seq r = None -> finished a' = finished a \/ ((fins rs = [] -> host_fin) /\
    (finished a <> None -> finished a' = finished a)) -> told (rs ++ [r]) w' a' seq.
Proof.
  intros [Hl Hh He Hp Ho Hs Hf] Hw Hi Hev Hsq Ha. destruct (write_line_ok _ _ _ Hw Hi) as (_ & Ew & Hen). split.
  - rewrite Ew, Hl, fmap_app, concat_app. cbn [fmap list_fmap concat]. by rewrite app_nil_r.
  - by destruct rs.
  - apply Forall_app. split; [done|]. by apply Forall_singleton.
  - apply Forall_app. split; [done|]. apply Forall_singleton. rewrite Hev. by intros [? ?].
  - apply Forall_app. split; [done|]. apply Forall_singleton. by left.
  - destruct Hs as (n & En & Eseq). exists n. rewrite omap_app. cbn. rewrite Hsq. by rewrite app_nil_r.
  - rewrite fins_app, (fins_reply r Hev), app_nil_r.
    destruct Hf as [[Hn Hhf]|(ev & Hev1 & Hfin & Hsome)].
    + left. split; [done|]. destruct Ha as [->|[Hh' _]]; [done|]. intros _. by apply Hh'.
    + right. exists ev. split; [done|]. split; [|done]. destruct Ha as [->|[_ Ha]]; [done|].
      rewrite Ha; [done|]. rewrite Hfin. destruct Hsome as [x ->]. done.
Qed.

(** An event on ttyS1. *)
Lemma told_event rs w w' a a' seq ev : told rs w a seq -> own_event ev \/ fifo_event ev ->
  write_line (from_event (as_u64 (seq + 1)) ev) w = (Ok tt, w') -> intact w' = true ->
  (is_finish ev = false /\ finished a' = finished a)
  \/ (is_finish ev = true /\ finished a = None /\ finished a' = ev_exit ev /\ is_Some (ev_exit ev)) ->
  told (rs ++ [from_event (as_u64 (seq + 1)) ev]) w' a' (as_u64 (seq + 1)).
Proof.
  intros [Hl Hh He Hp Ho Hs Hf] Hor Hw Hi Hcase. destruct (write_line_ok _ _ _ Hw Hi) as (_ & Ew & Hen). split.
  - rewrite Ew, Hl, fmap_app, concat_app. cbn [fmap list_fmap concat]. by rewrite app_nil_r.
  - by destruct rs.
  - apply Forall_app. split; [done|]. by apply Forall_singleton.
  - apply Forall_app. split; [done|]. by apply Forall_singleton.
  - apply Forall_app. split; [done|]. apply Forall_singleton. right. by eexists _, ev.
  - destruct Hs as (n & En & Eseq). exists (S n). rewrite omap_app, En, Eseq, Nat2Z.inj_succ, <- Z.add_1_r.
    rewrite as_u64_add_l. split; [|done]. rewrite seqZ_app by lia. rewrite fmap_app. f_equal. cbn.
    rewrite Z.add_comm. done.
  - rewrite fins_app, fins_event.
    destruct Hcase as [[Ef ->]|(Ef & Hn & Ha & Hsome)]; rewrite Ef.
    + by rewrite app_nil_r.
    + right. exists ev. split; [|done].
      destruct Hf as [[-> _]|(ev' & _ & Hfin & [x Hx])]; [done|]. rewrite Hn, Hx in Hfin. done.
Qed.

Lemma tells_intro (o : Out (G := G) (W := W)) : (intact o.1.2 = true -> exists rs, told rs o.1.2 o.1.1.1 o.2) -> tells o.
Proof. done. Qed.

Lemma write_line_intact r (w w' : W) : write_line (V := V) r w = (Ok tt, w') -> intact w' = true -> intact w = true.
Proof. intros E Hi. by destruct (write_line_ok _ _ _ E Hi). Qed.

Lemma run_handle_spec req (ag : AG (G := G)) r ag' : run_handle to_lowercase BUILD req ag = (r, ag') ->
  rep_event r = None /\ rep_seq r = None
  /\ (if bool_decide (req_op req = OP_FINISH)
      then finished ag'.1 = Some (default (default 0 (req_exit req)) (finished ag.1)) else finished ag'.1 = finished ag.1)
  /\ accepted_finish (V := V) req r = bool_decide (req_op req = OP_FINISH) && bool_decide (finished ag.1 = None).
Proof.
  unfold run_handle. pose proof (handle_answers (V := V) to_lowercase BUILD req ag.1 ag.2) as Ha.
  pose proof (handle_finished (V := V) to_lowercase BUILD req ag.1 ag.2) as Hf.
  destruct (handle to_lowercase BUILD req ag.1 ag.2) as [[r0 a0] g0]. intros [= <- <-]. cbn [fst] in *.
  destruct Hf as [Hf1 Hf2]. destruct Ha as (_ & _ & Hev & Hsq & _). split_and!; try done.
  by destruct (bool_decide _).
Qed.

(** A control line that is a [finish] is the host's own. *)
Definition control_line_ok (line : list Z) : Prop :=
  forall req, decode_line (T := Request) line = Some req -> req_op req = OP_FINISH -> host_fin.

Lemma control_line_tells line ag (w : W) seq ag' w' : control_line_ok line ->
  tells (ag, w, seq) -> handle_control_line to_lowercase BUILD line ag w = (Ok tt, ag', w') -> tells (ag', w', seq).
Proof.
  intros Hline Ht. unfold handle_control_line. destruct (bool_decide _); [by intros [= <- <-]|].
  destruct (decode_line line) as [req|] eqn:Ed.
  - destruct (run_handle to_lowercase BUILD req ag) as [reply ag1] eqn:Er.
    destruct (write_line reply w) as [[[]|] w1] eqn:Ew; [|done]. intros [= <- <-] Hi. cbn [fst snd] in *.
    destruct (Ht (write_line_intact _ _ _ Ew Hi)) as [rs Hrs]. cbn [fst snd] in Hrs. exists (rs ++ [reply]).
    destruct (run_handle_spec req ag reply ag1 Er) as (Hev & Hsq & Hfin & _).
    apply (told_reply rs w w1 ag.1); try done. destruct (bool_decide (req_op req = OP_FINISH)) eqn:Eop; [right|by left].
    bool_prop. split; [intros _; by apply (Hline req)|]. intros Hn. rewrite Hfin. by destruct (finished ag.1).
  - destruct (write_line _ w) as [[[]|] w1] eqn:Ew; [|done]. intros [= <- <-] Hi. cbn [fst snd] in *.
    destruct (Ht (write_line_intact _ _ _ Ew Hi)) as [rs Hrs]. cbn [fst snd] in Hrs. eexists (rs ++ [_]).
    eapply told_reply; [exact Hrs|exact Ew|done|done|done|by left].
Qed.

Lemma serve_control_tells lines : forall o o', Forall control_line_ok lines -> tells o ->
  serve_control to_lowercase BUILD lines o = (true, o') -> tells o'.
Proof.
  induction lines as [|line lines IH]; intros [[ag w] seq] o' Hl Ht; cbn [serve_control]; [by intros [= <-]|].
  apply Forall_cons in Hl as [Hline Hl]. destruct (handle_control_line _ _ line ag w) as [[[[]|] ag1] w1] eqn:E; [|done].
  cbn [is_Ok]. apply IH; [done|]. by eapply control_line_tells.
Qed.

Lemma send_event_tells ev ag ag' (w : W) seq o' : tells (ag, w, seq) -> send_event (G := G) ev (ag', w, seq) = (true, o') ->
  own_event ev \/ fifo_event ev ->
  (is_finish ev = false /\ finished ag'.1 = finished ag.1)
  \/ (is_finish ev = true /\ finished ag.1 = None /\ finished ag'.1 = ev_exit ev /\ is_Some (ev_exit ev)) -> tells o'.
Proof.
  intros Ht. unfold send_event. destruct (write_line _ w) as [[[]|] w1] eqn:Ew; [|done]. cbn [is_Ok]. intros [= <-] Hor Hc Hi.
  cbn [fst snd] in *. destruct (Ht (write_line_intact _ _ _ Ew Hi)) as [rs Hrs]. cbn [fst snd] in Hrs.
  eexists (rs ++ [_]). by eapply told_event.
Qed.

Lemma mirror_not_finish req r : is_finish (ctl_mirror req r) = false.
Proof. done. Qed.

Lemma ctl_event_own req r : own_event (if accepted_finish req r then finish_event req else ctl_mirror req r).
Proof.
  destruct (accepted_finish req r); [by left|]. unfold own_event, ctl_mirror. cbn [ev_details].
  destruct (mirror_details req r); [by left|right; by eexists].
Qed.

(** A workload line gives an event of its own or says it is invalid. *)
Lemma parse_event_origin line : own_event (parse_event (V := V) line) \/ fifo_event (parse_event (V := V) line).
Proof.
  unfold parse_event. cbv zeta. destruct (from_slice _) as [ev|] eqn:E; [|left; right; by eexists].
  destruct (is_reserved_event_kind (ev_kind ev)) eqn:Er; [left; right; by eexists|].
  destruct (bool_decide _); [left; right; by eexists|]. right. split; [done|by eexists].
Qed.

Lemma ctl_line_tells line ag (w : W) seq (k k' : K) oc ag' on o' : tells (ag, w, seq) ->
  handle_ctl_line to_lowercase BUILD line ag k = (oc, ag', k') ->
  match forward oc with Some ev => send_event ev (ag', w, seq) | None => (true, (ag', w, seq)) end = (on, o') ->
  on = true -> tells o'.
Proof.
  intros Ht. unfold handle_ctl_line. destruct (bool_decide _); [by intros [= <- <- <-] [= <- <-]|].
  destruct (decode_line line) as [req|] eqn:Ed.
  - destruct (run_handle to_lowercase BUILD req ag) as [reply ag1] eqn:Er.
    destruct (write_line reply k) as [r k1]. intros [= <- <- <-]. cbn [forward]. intros Hs ->.
    destruct (run_handle_spec req ag reply ag1 Er) as (_ & _ & Hfin & Hacc).
    eapply send_event_tells; [exact Ht|exact Hs|left; apply ctl_event_own|]. rewrite Hacc.
    destruct (bool_decide (req_op req = OP_FINISH)) eqn:Eop; cbn [andb]; [|left; by rewrite Hfin].
    destruct (bool_decide (finished ag.1 = None)) eqn:En; bool_prop.
    + right. rewrite Hfin, En. split_and!; done.
    + left. split; [done|]. rewrite Hfin. by destruct (finished ag.1).
  - destruct (write_line _ k) as [r k1]. intros [= <- <- <-] [= <- <-] _. done.
Qed.

Lemma serve_conn_tells lines : forall (wr : K) o broken wr' o', tells o ->
  serve_conn to_lowercase BUILD lines wr o = (true, broken, wr', o') -> tells o'.
Proof.
  induction lines as [|line lines IH]; intros wr [[ag w] seq] broken wr' o' Ht; cbn [serve_conn]; [by intros [= <- <- <-]|].
  destruct (handle_ctl_line _ _ line ag wr) as [[oc ag1] wr1] eqn:E.
  destruct (match forward oc with Some ev => _ | None => _ end) as [on o1] eqn:Ef.
  destruct on; cbn [negb]; [|done]. pose proof (ctl_line_tells _ _ _ _ _ _ _ _ _ _ Ht E Ef eq_refl) as Ht1.
  destruct (negb _); [by intros [= <- <- <-]|]. by apply IH.
Qed.

Lemma serve_conns_tells ps : forall (cs : list (CtlConn (K := K))) o cs' o', tells o ->
  serve_conns to_lowercase BUILD ps cs o = (true, cs', o') -> tells o'.
Proof.
  induction ps as [|p ps IH]; intros [|c cs] o cs' o' Ht; cbn [serve_conns]; try (by intros [= <- <-]).
  destruct p as [[bs| |]|].
  - destruct (drain _) as [lines rest]. destruct (serve_conn _ _ lines (cc_wr c) o) as [[[on broken] wr] o1] eqn:E.
    destruct on; cbn [negb]; [|done]. apply serve_conn_tells in E; [|done].
    destruct (serve_conns _ _ ps cs o1) as [[on2 cs2] o2] eqn:E2. intros [= -> <- <-]. by eapply IH.
  - by apply IH.
  - by apply IH.
  - destruct (serve_conns _ _ ps cs o) as [[on2 cs2] o2] eqn:E2. intros [= -> <- <-]. by eapply IH.
Qed.

(** A workload line never carries a verdict, and never a reserved kind. *)
Lemma parse_event_kind line : is_reserved_event_kind (ev_kind (parse_event (V := V) line)) = false.
Proof.
  unfold parse_event. cbv zeta. destruct (from_slice _) as [ev|]; [|reflexivity].
  destruct (is_reserved_event_kind (ev_kind ev)) eqn:E; [reflexivity|]. by destruct (bool_decide _).
Qed.

Lemma parse_event_not_finish line : is_finish (parse_event (V := V) line) = false.
Proof.
  pose proof (parse_event_kind line) as Hk. unfold is_finish. apply bool_decide_eq_false. intros E. by rewrite E in Hk.
Qed.

Lemma serve_events_tells lines : forall o o', tells o -> serve_events lines o = (true, o') -> tells o'.
Proof.
  induction lines as [|line lines IH]; intros o o' Ht; cbn [serve_events]; [by intros [= <-]|].
  destruct (send_event (parse_event line) o) as [on o1] eqn:E. destruct on; [|done]. apply IH. destruct o as [[ag w] seq].
  eapply send_event_tells; [exact Ht|exact E|apply parse_event_origin|]. left. split; [apply parse_event_not_finish|done].
Qed.

(** ** The state between turns *)

Record BInv (b : B) : Prop := {
  binv_tells : tells (br_ag b, br_writer b, br_seq b);
  binv_control : quiet_buf (br_control b);
  binv_conns : Forall (fun c => quiet_buf (cc_buf c)) (br_conns b);
  binv_count : (length (br_conns b) <= MAX_CTL_CONNS)%nat;
  binv_events : match br_events b with Some buf => quiet_buf buf | None => True end;
}.

(** The control lines a turn will serve are none of the host's own finishes,
    unless there are such. *)
Definition control_ok (p : Polled (K := K)) (b : B) : Prop :=
  match p_control p with
  | Some (FillBytes bs) => Forall control_line_ok (drain (br_control b ++ bs)).1
  | _ => True
  end.

Lemma control_phase_inv p (b b' : B) : BInv b -> control_ok p b ->
  control_phase to_lowercase BUILD p b = (true, b') -> BInv b' /\ length (br_conns b') = length (br_conns b).
Proof.
  intros [Ht Hc Hcs Hn He] Hok. unfold control_phase, control_ok in *.
  destruct (p_control p) as [[bs| |]|]; [|done|done|intros [= <-]; split; [by split|done]].
  pose proof (drain_lines_spec (br_control b ++ bs)) as (_ & _ & Hq). destruct (drain _) as [lines rest]. cbn [fst snd] in *.
  destruct (serve_control _ _ lines _) as [on [[ag w] seq]] eqn:E. intros [= -> <-]. split; [|done].
  split; try done. by eapply serve_control_tells.
Qed.

Lemma accept_phase_inv p (b : B) : BInv b -> BInv (accept_phase p b).
Proof.
  intros Hb. unfold accept_phase. destruct (br_ctl b); [|done]. destruct (p_accept p) as [[wr|]|]; try done.
  destruct (Nat.ltb_spec (length (br_conns b)) MAX_CTL_CONNS) as [Hl|]; [|done]. destruct Hb as [Ht Hc Hcs Hn He].
  split; cbn [br_ag br_writer br_seq br_control br_conns br_events set_field]; try done.
  - apply Forall_app. split; [done|]. apply Forall_singleton. split; [constructor|cbn; lia].
  - rewrite length_app. cbn. lia.
Qed.

Lemma serve_conns_bufs ps : forall (cs : list (CtlConn (K := K))) o on cs' o',
  Forall (fun c => quiet_buf (cc_buf c)) cs -> serve_conns (W := W) to_lowercase BUILD ps cs o = (on, cs', o') ->
  Forall (fun c => quiet_buf (cc_buf c)) cs' /\ (length cs' <= length cs)%nat.
Proof.
  induction ps as [|p ps IH]; intros cs o on cs' o' Hq; cbn [serve_conns]; [by intros [= <- <- <-]|].
  destruct cs as [|c cs]; [by intros [= <- <- <-]|]. apply Forall_cons in Hq as [Hc Hq].
  destruct p as [[bs| |]|].
  - pose proof (drain_lines_spec (cc_buf c ++ bs)) as (_ & _ & Hr). destruct (drain _) as [lines rest]. cbn [snd] in Hr.
    destruct (serve_conn _ _ lines (cc_wr c) o) as [[[on1 broken] wr] o1].
    destruct on1; cbn [negb]; [|intros [= <- <- <-]; cbn; split; [constructor|lia]].
    destruct (serve_conns _ _ ps cs o1) as [[on2 cs2] o2] eqn:E2. destruct (IH _ _ _ _ _ Hq E2) as [Hf Hl].
    intros [= <- <- <-]. destruct broken; cbn [length]; [split; [done|lia]|]. split; [by constructor|cbn; lia].
  - intros E. destruct (IH _ _ _ _ _ Hq E). cbn [length]. split; [done|lia].
  - intros E. destruct (IH _ _ _ _ _ Hq E). cbn [length]. split; [done|lia].
  - destruct (serve_conns _ _ ps cs o) as [[on2 cs2] o2] eqn:E2. destruct (IH _ _ _ _ _ Hq E2) as [Hf Hl].
    intros [= <- <- <-]. split; [by constructor|cbn; lia].
Qed.

Lemma conns_phase_inv n p (b b' : B) : BInv b -> conns_phase to_lowercase BUILD n p b = (true, b') -> BInv b'.
Proof.
  intros [Ht Hc Hcs Hn He]. unfold conns_phase.
  destruct (serve_conns _ _ _ (br_conns b) _) as [[on cs] [[ag w] seq]] eqn:E. intros [= -> <-].
  destruct (serve_conns_bufs _ _ _ _ _ _ Hcs E) as [Hb Hl].
  split; cbn [br_ag br_writer br_seq br_control br_conns br_events set_field]; try done; [by eapply serve_conns_tells|lia].
Qed.

Lemma events_phase_inv p (b b' : B) : BInv b -> events_phase p b = (true, b') -> BInv b'.
Proof.
  intros Hb. unfold events_phase. destruct (br_events b) as [buf|] eqn:Eb; [|by intros [= <-]].
  destruct (p_events p) as [[bs| |]|]; try (by intros [= <-]).
  pose proof (drain_lines_spec (buf ++ bs)) as (_ & _ & Hq). destruct (drain _) as [lines rest]. cbn [snd] in Hq.
  destruct (serve_events lines _) as [on [[ag w] seq]] eqn:E. intros [= -> <-]. destruct Hb as [Ht Hc Hcs Hn He].
  split; cbn [br_ag br_writer br_seq br_control br_conns br_events set_field]; try done. by eapply serve_events_tells.
Qed.

Lemma turn_inv p (b b' : B) : BInv b -> control_ok p b -> turn to_lowercase BUILD p b = (true, b') -> BInv b'.
Proof.
  intros Hb Hok. unfold turn. destruct (control_phase _ _ p b) as [on b1] eqn:E1. destruct on; cbn [negb]; [|done].
  destruct (control_phase_inv p b b1 Hb Hok E1) as [Hb1 _].
  destruct (conns_phase _ _ _ p (accept_phase p b1)) as [on b2] eqn:E2. destruct on; cbn [negb]; [|done].
  apply events_phase_inv. eapply conns_phase_inv; [|exact E2]. by apply accept_phase_inv.
Qed.

(** The states of a run: after any number of turns that went on. *)
Inductive bruns : B -> B -> Prop :=
  | bruns_refl b : bruns b b
  | bruns_turn b b1 b2 p : bruns b b1 -> control_ok p b1 -> turn to_lowercase BUILD p b1 = (true, b2) -> bruns b b2.

Lemma bruns_inv b b' : BInv b -> bruns b b' -> BInv b'.
Proof. intros Hb Hr. induction Hr as [|b b1 b2 p _ IH Hok Ht]; [done|]. eapply turn_inv; [by apply IH|done|exact Ht]. Qed.

Lemma start_inv (g : G) (w : W) ctl events b : written w = [] -> agent_start BUILD g w ctl events = Some b -> BInv b.
Proof.
  intros Hw. unfold agent_start. destruct (write_line _ w) as [[[]|] w1] eqn:E; [|done]. intros [= <-].
  split; cbn [bridge_init br_ag br_writer br_seq br_control br_conns br_events]; try done.
  - intros Hi. cbn [fst snd] in Hi |- *. exists [reply_hello AGENT_ID BUILD].
    destruct (write_line_ok _ _ _ E Hi) as (_ & Ew & Hen). split.
    + rewrite Ew, Hw. cbn. by rewrite app_nil_r.
    + done.
    + by apply Forall_singleton.
    + apply Forall_singleton. by intros [? ?].
    + apply Forall_singleton. by left.
    + by exists O.
    + by left.
  - split; [constructor|cbn; lia].
  - cbn. lia.
  - destruct events; [|done]. split; [constructor|cbn; lia].
Qed.

End trace.

(** ** What the host reads *)

(** Compact JSON has no raw newline. *)
Class JsonNoLf (T : Type) `{Json T} := json_no_lf v bs : to_vec v = Some bs -> no_lf bs.

Section host.
Context {V : Type} `{Json (Reply V), Json (GuestEvent V), JsonText V, !EventJson V, !JsonNoLf (Reply V)}.

Definition body_of (r : Reply V) : list Z := default [] (to_vec r).

(** Whether the host's parser takes the document of a reply. *)
Definition readable (r : Reply V) : bool := (json_depth r <=? JSON_DEPTH)%nat.

Lemma line_of_body r : is_Some (encode_line r) -> line_of r = body_of r ++ [LF] /\ no_lf (body_of r)
  /\ decode_line (body_of r) = if readable r then Some (json_norm r) else None.
Proof.
  unfold line_of, body_of, encode_line. intros [l Hl]. rewrite Hl.
  apply fmap_Some in Hl as (bs & Ebs & ->). rewrite Ebs.
  change (default [] (Some bs)) with bs. split; [done|]. split; [by eapply json_no_lf|].
  unfold decode_line. destruct (json_compact r bs Ebs) as (x & y & Hx & Hy & Hwx & Hwy).
  pose proof (trim_frame_core [] bs [] x y) as Ht. cbn [app] in Ht. rewrite app_nil_r in Ht.
  rewrite Ht; try done; [by apply json_parse|constructor|constructor].
Qed.

(** The lines of a trace, cut apart, are the replies in order. *)
Lemma split_trace rs : Forall (fun r => is_Some (encode_line r)) rs ->
  split_lines (concat (line_of <$> rs)) = (body_of <$> rs, []).
Proof.
  intros Hrs. assert (concat (line_of <$> rs) = join_lines (body_of <$> rs) []) as ->.
  { unfold join_lines. rewrite app_nil_r. f_equal. rewrite <- list_fmap_compose. apply list_fmap_ext. intros i r Hi.
    rewrite Forall_lookup in Hrs. by apply line_of_body, (Hrs i). }
  apply split_lines_join; [|constructor]. apply Forall_fmap. eapply Forall_impl; [exact Hrs|].
  intros r Hr. by apply line_of_body.
Qed.

(** What the host makes of the trace: the replies it can read, in order. *)
Lemma decoded_trace rs : Forall (fun r => is_Some (encode_line r)) rs ->
  omap (decode_line (T := Reply V)) (body_of <$> rs) = json_norm <$> filter (fun r => readable r = true) rs.
Proof.
  induction 1 as [|r rs Hr _ IH]; [done|]. destruct (line_of_body r Hr) as (_ & _ & Hd).
  change (body_of <$> r :: rs) with (body_of r :: (body_of <$> rs)).
  change (omap decode_line (body_of r :: (body_of <$> rs))) with
    (match decode_line (T := Reply V) (body_of r) with Some y => y :: omap decode_line (body_of <$> rs)
     | None => omap decode_line (body_of <$> rs) end).
  rewrite Hd, IH, filter_cons. destruct (readable r); case_decide; done.
Qed.

(** Reading back changes nothing that the host acts on. *)
Lemma norm_verdict ev : is_finish (json_norm ev) = is_finish ev /\ verdict_of (json_norm ev) = verdict_of ev.
Proof. by rewrite event_norm. Qed.

Lemma norm_reply r : is_hello (json_norm r) = is_hello r /\ rep_event (json_norm r) = json_norm <$> rep_event r
  /\ rep_seq (json_norm r) = rep_seq r.
Proof. by rewrite reply_norm. Qed.

(** The host cannot read a line only if it is a workload event nested as deep
    as the agent's own parser allows. *)
Lemma unreadable_deep r : rep_event r = None \/ (exists sq ev, r = from_event sq ev /\ (own_event ev \/ fifo_event ev)) ->
  readable r = false -> exists sq ev, r = from_event sq ev /\ fifo_event ev /\ json_depth ev = JSON_DEPTH.
Proof.
  unfold readable. intros Hr Hd%Nat.leb_gt. destruct Hr as [Hn|(sq & ev & -> & Hor)].
  { pose proof (reply_exact r Hn) as [? _]. lia. }
  rewrite reply_event_depth in Hd. exists sq, ev. split; [done|]. destruct Hor as [Ho|Hf].
  { apply own_event_depth in Ho. unfold JSON_DEPTH in Hd. lia. }
  split; [done|]. destruct Hf as (_ & bs & Hb). apply json_limit in Hb. lia.
Qed.

Lemma first_finish_trace rs : Forall (fun r => is_Some (encode_line r)) rs ->
  Forall (fun r => is_Some (rep_event r) -> is_hello r = false) rs ->
  Forall (fun r => rep_event r = None \/ exists sq ev, r = from_event sq ev /\ (own_event ev \/ fifo_event ev)) rs ->
  first_finish (V := V) (body_of <$> rs) = verdict_of <$> head (fins rs).
Proof.
  intros He Hp Ho. unfold first_finish. induction rs as [|r rs IH]; [done|].
  apply Forall_cons in He as [Hr He]. apply Forall_cons in Hp as [Hpr Hp]. apply Forall_cons in Ho as [Hor Ho].
  specialize (IH He Hp Ho).
  destruct (line_of_body r Hr) as (_ & _ & Hd). change (r :: rs) with ([r] ++ rs). rewrite fins_app, fmap_app, omap_app.
  assert (omap finish_of (body_of <$> [r]) = verdict_of <$> fins [r]) as ->.
  { rewrite fins_one. change (body_of <$> [r]) with [body_of r].
    change (omap finish_of [body_of r]) with (match finish_of (body_of r) with Some v => [v] | None => [] end).
    unfold finish_of, line_event. rewrite Hd. destruct (readable r) eqn:Erd.
    - destruct (norm_reply r) as (-> & -> & _). destruct (rep_event r) as [ev|]; [|by destruct (is_hello r)].
      rewrite Hpr by (by eexists). cbn [fmap option_fmap option_map]. destruct (norm_verdict ev) as [Hk Hv].
      change (bool_decide (ev_kind (json_norm ev) = OP_FINISH)) with (is_finish (json_norm ev)).
      rewrite Hk, Hv. by destruct (is_finish ev).
    - destruct (unreadable_deep r Hor Erd) as (sq & ev & -> & [Hres _] & _). cbn [rep_event from_event].
      assert (is_finish ev = false) as ->; [|done]. unfold is_finish. apply bool_decide_eq_false. intros E.
      by rewrite E in Hres. }
  destruct (fins [r]); [done|done].
Qed.

Lemma ready_mono lines d : agent_ready d = true -> agent_ready (on_agent_lines (V := V) d lines) = true.
Proof.
  revert d. induction lines as [|l lines IH]; intros d Hd; [done|]. cbn [on_agent_lines foldl]. apply IH.
  unfold on_agent_line, on_event. by repeat (case_match; simplify_eq/=).
Qed.

End host.

(** ** A concrete protocol

    The messages of a table, the [i]-th written as [i] ones in braces. *)

#[export] Instance ContainerInfo_eq_dec : EqDecision ContainerInfo.
Proof. solve_decision. Defined.
#[export] Instance Request_eq_dec : EqDecision Request.
Proof. solve_decision. Defined.
#[export] Instance GuestEvent_eq_dec : EqDecision (GuestEvent nat).
Proof. solve_decision. Defined.
#[export] Instance Reply_eq_dec : EqDecision (Reply nat).
Proof. solve_decision. Defined.

Section table.
Context {T : Type} `{EqDecision T}.
Variable table : list T.

Definition table_to_vec (v : T) : option (list Z) :=
  match position (fun x => bool_decide (x = v)) table with
  | Some i => toy_to_vec i
  | None => None
  end.

(** [depth]: how deep a message nests; a document too deep is not read. *)
Context (depth : T -> nat).

Definition table_from_slice (bs : list Z) : option T :=
  i ← toy_from_slice bs; v ← table !! i; if (depth v <=? JSON_DEPTH)%nat then Some v else None.

#[program] Definition table_json : Json T :=
  {| to_vec := table_to_vec; from_slice := table_from_slice; json_depth := depth; json_norm v := v |}.
Next Obligation.
  intros v bs. unfold table_to_vec, table_from_slice. destruct (position _ table) as [i|] eqn:E; [|done].
  intros Hb. rewrite (toy_json_roundtrip i bs Hb). cbn [mbind option_bind].
  apply position_Some in E as ((x & Hx & Hv) & _). bool_prop. by rewrite Hx, Hv.
Qed.
Next Obligation.
  intros bs v. unfold table_from_slice. destruct (toy_from_slice bs) as [i|]; [|done]. cbn [mbind option_bind].
  destruct (table !! i) as [x|]; [|done]. cbn [mbind option_bind]. destruct (_ <=? _)%nat eqn:E; [|done].
  intros [= <-]. by apply Nat.leb_le.
Qed.
Next Obligation.
  intros v bs. unfold table_to_vec. destruct (position _ table) as [i|]; [|done]. apply toy_json_compact.
Qed.

Lemma table_no_lf : JsonNoLf T (H := table_json).
Proof.
  intros v bs. cbn. unfold table_to_vec. destruct (position _ table) as [i|]; [|done]. intros [= <-].
  unfold no_lf, LF. constructor; [lia|]. apply Forall_app. split; [apply Forall_replicate; lia|].
  constructor; [lia|constructor].
Qed.

End table.

(** The run of the witness: a container sends [finish] with code 3. *)
Definition demo_finish : Request := Build_Request 9 OP_FINISH None None None None None None (Some 3) None.
Definition demo_reply : Reply nat := ok_stdout 9 OP_FINISH "finish 3".
Definition demo_verdict : Reply nat := from_event 1 (finish_event demo_finish).

(** Details nest as deep as their value says. *)
Definition event_depth (ev : GuestEvent nat) : nat := S (default O (ev_details ev)).
Definition reply_depth (r : Reply nat) : nat := match rep_event r with Some ev => S (event_depth ev) | None => 3 end.

(** A workload event nested as deep as the agent's parser goes. *)
Definition demo_deep : GuestEvent nat := Build_GuestEvent "note" "deep" None None (Some 126%nat).
Definition demo_deep_reply : Reply nat := from_event 1 demo_deep.

#[local] Instance demo_request_json : Json Request := table_json [demo_finish] (fun _ => 2%nat).
#[local] Instance demo_reply_json : Json (Reply nat) :=
  table_json [reply_hello AGENT_ID "dev"; demo_reply; demo_verdict; demo_deep_reply] reply_depth.
#[local] Instance demo_event_json : Json (GuestEvent nat) := table_json [demo_deep] event_depth.
#[local] Instance demo_text : JsonText nat := {| json_strings _ := 1%nat; json_error _ := "" |}.
#[local] Instance demo_reply_no_lf : JsonNoLf (Reply nat) := table_no_lf _ _.

#[local] Instance demo_events : EventJson nat.
Proof.
  split.
  - intros r Hr. split; [|done]. cbn. unfold reply_depth. rewrite Hr. unfold JSON_DEPTH. lia.
  - intros r. cbn. destruct r as [? ? ? ? ? ? ? ? ? ? ? ? ? ? ? ev ?]. by destruct ev.
  - by intros [].
  - done.
  - intros ev. cbn. unfold event_depth. intros [->|[? ->]]; cbn; lia.
Qed.

Definition demo_wire : Duplex := {| feed := []; taken := [] |}.

Abbreviation DemoBridge := (Bridge (G := ToyOs) (W := Duplex) (K := Duplex)).

Definition demo_bridge : DemoBridge :=
  Eval vm_compute in default (bridge_init agent_new toy_guest demo_wire true true)
    (agent_start "dev" toy_guest demo_wire true true).

(** A connection comes in; then it sends the line. *)
Definition demo_connect : Polled (K := Duplex) :=
  {| p_control := None; p_accept := Some (Some demo_wire); p_conns := []; p_events := None |}.
Definition demo_send : Polled (K := Duplex) :=
  {| p_control := None; p_accept := None; p_conns := [Some (FillBytes [123; 125; 10])]; p_events := None |}.

Definition demo_connected : DemoBridge := Eval vm_compute in (turn (V := nat) id "dev" demo_connect demo_bridge).2.
Definition demo_finished : DemoBridge := Eval vm_compute in (turn (V := nat) id "dev" demo_send demo_connected).2.

Lemma demo_bruns host_fin : bruns (V := nat) id "dev" host_fin demo_bridge demo_finished.
Proof.
  eapply (bruns_turn _ _ _ _ demo_connected _ demo_send); [|done|vm_compute; reflexivity].
  eapply (bruns_turn _ _ _ _ demo_bridge _ demo_connect); [constructor|done|vm_compute; reflexivity].
Qed.

(** ** Properties *)

(** C8: The verdict the host grades is the one the agent accepted: cut the
    bytes the agent wrote on ttyS1 into lines and give them to the host's
    driver, at any point of any run in which no write failed and the host sent
    no finish of its own; no partial line is left, the agent counts as ready,
    and the driver has a verdict exactly when the agent accepted a finish from
    a container, with the same code.  Workload lines and further finishes
    cannot change it.  The lines are the agent's replies with the events
    numbered 1, 2, 3, ... in order, and the host reads them all, in order and
    with nothing changed but the form of an event's details, but for the
    workload events that nest as deep as the agent's own parser goes: their
    reply is one level deeper than the host's parser, so each of them, and
    nothing else, is a gap in the numbers the host sees. *)
Theorem agent_verdict_reaches_host {G V W K} `{GuestOs G, PsJson, Write W, !WriteLaws W, Write K, Json Request,
    Json (Reply V), !JsonNoLf (Reply V), Json (GuestEvent V), JsonText V, !EventJson V}
    to_lowercase BUILD (g : G) (w : W) ctl events (b b' : Bridge (G := G) (W := W) (K := K)) :
  written w = [] -> agent_start (V := V) BUILD g w ctl events = Some b ->
  bruns (V := V) to_lowercase BUILD False b b' -> intact (br_writer b') = true ->
  let '(lines, rest) := split_lines (written (br_writer b')) in
  let d := on_agent_lines (V := V) driver_default lines in
  rest = [] /\ agent_ready d = true /\ verdict_code <$> verdict d = finished (br_ag b').1
  /\ exists rs : list (Reply V), lines = body_of <$> rs
     /\ (exists n, omap rep_seq rs = as_u64 <$> seqZ 1 (Z.of_nat n))
     /\ omap (decode_line (T := Reply V)) lines = json_norm <$> filter (fun r => readable r = true) rs
     /\ (forall r, r ∈ rs -> readable r = false ->
          exists sq ev, r = from_event sq ev /\ fifo_event ev /\ json_depth ev = JSON_DEPTH).
Proof.
  intros Hw Hs Hr Hi.
  assert (Hb : BInv (V := V) BUILD False b) by (by eapply start_inv).
  assert (Hb' : BInv (V := V) BUILD False b') by (by eapply bruns_inv).
  destruct (binv_tells _ _ _ Hb' Hi) as (rs & [Hl Hh He Hp Ho Hsq Hf]). cbn [fst snd] in *.
  rewrite Hl, (split_trace rs He). cbv zeta. split; [done|]. split; [|split].
  - destruct rs as [|r rs]; [done|]. injection Hh as ->. apply Forall_cons in He as [Hr0 _].
    destruct (line_of_body _ Hr0) as (_ & _ & Hd). change (body_of <$> ?r :: rs) with (body_of r :: (body_of <$> rs)).
    destruct (reply_exact (reply_hello AGENT_ID BUILD) eq_refl) as [Hle Hn].
    unfold readable in Hd. rewrite (proj2 (Nat.leb_le _ _) Hle), Hn in Hd.
    cbn [on_agent_lines foldl]. apply ready_mono. unfold on_agent_line. by rewrite Hd.
  - rewrite on_agent_lines_verdict, (first_finish_trace rs He Hp Ho). cbn [verdict driver_default].
    destruct Hf as [[-> Hn]|(ev & -> & -> & [x Hx])].
    + cbn. destruct (finished (br_ag b').1); [|done]. destruct (Hn ltac:(done)).
    + cbn. unfold verdict_of. by rewrite Hx.
  - destruct Hsq as (n & En & _). exists rs. split; [done|]. split; [by exists n|]. split; [by apply decoded_trace|].
    intros r Hin. apply unreadable_deep. rewrite Forall_forall in Ho. by apply Ho.
Qed.

Lemma agent_verdict_reaches_host_witness :
  let lines := (split_lines (written (br_writer demo_finished))).1 in
  verdict_code <$> verdict (on_agent_lines (V := nat) driver_default lines) = Some 3.
Proof.
  pose proof (agent_verdict_reaches_host (V := nat) id "dev" toy_guest demo_wire true true demo_bridge demo_finished
    eq_refl ltac:(vm_compute; reflexivity) (demo_bruns False) eq_refl) as H.
  destruct (split_lines _) as [lines rest]. destruct H as (_ & _ & H & _). exact H.
Defined.

(** Such an event does get through the agent: the line that reads as
    [demo_deep] goes out as event 1, which the host cannot read, so the next
    event it sees is number 2. *)
Example deep_event_leaves_gap :
  let line := default [] (to_vec demo_deep) in
  let o := (send_event (W := Duplex) (parse_event (V := nat) line) (agent_new, toy_guest, demo_wire, 0)).2 in
  parse_event line = demo_deep /\ o.2 = 1
  /\ split_lines (written o.1.2) = ([body_of demo_deep_reply], [])
  /\ decode_line (T := Reply nat) (body_of demo_deep_reply) = None.
Proof. by vm_compute. Qed.

(** C39: The multiplexer's memory is bounded and it strands no line: between
    any two turns of any run no read buffer holds a complete line (so nothing
    the agent could act on waits for the next byte to arrive) or more than
    64 KiB, and at most 32 control connections are open. *)
Theorem bridge_bounded {G V W K} `{GuestOs G, PsJson, Write W, !WriteLaws W, Write K, Json Request,
    Json (Reply V), Json (GuestEvent V), JsonText V}
    to_lowercase BUILD (g : G) (w : W) ctl events (b b' : Bridge (G := G) (W := W) (K := K)) :
  written w = [] -> agent_start (V := V) BUILD g w ctl events = Some b ->
  bruns (V := V) to_lowercase BUILD True b b' ->
  (forall buf, buf = br_control b' \/ buf ∈ cc_buf <$> br_conns b' \/ br_events b' = Some buf ->
     next buf = None /\ Z.of_nat (length buf) <= 65536)
  /\ (length (br_conns b') <= 32)%nat.
Proof.
  intros Hw Hs Hr. assert (Hb : BInv (V := V) BUILD True b) by (by eapply start_inv).
  assert (Hb' : BInv (V := V) BUILD True b') by (by eapply bruns_inv). destruct Hb' as [_ Hc Hcs Hn He].
  assert (forall buf, quiet_buf buf -> next buf = None /\ Z.of_nat (length buf) <= 65536) as Hq.
  { intros buf [Hlf Hlen]. split; [|unfold RX_LINE_CAP in Hlen; lia]. unfold next.
    rewrite (proj2 (position_None _ buf)); [by rewrite (proj2 (Nat.ltb_ge _ _))|].
    eapply Forall_impl; [exact Hlf|]. intros x Hx. by apply Z.eqb_neq. }
  split; [|done]. intros buf [->|[Hin|Hev]]; apply Hq; [done| |by rewrite Hev in He].
  apply list_elem_of_fmap in Hin as (c & -> & Hin). rewrite Forall_forall in Hcs. by apply Hcs.
Qed.

Lemma bridge_bounded_witness : (length (br_conns demo_finished) <= 32)%nat.
Proof.
  pose proof (bridge_bounded (V := nat) id "dev" toy_guest demo_wire true true demo_bridge demo_finished eq_refl
    ltac:(vm_compute; reflexivity) (demo_bruns True)) as [_ Hn]. exact Hn.
Defined.

(** No byte of a source is lost or reordered by the reader: the frames it
    gives and the rest it keeps are the buffer, each frame is one line with
    its newline or an over-long run, and the rest holds no newline. *)
Theorem line_reader_lossless buf :
  let '(frames, rest) := drain buf in
  concat frames ++ rest = buf /\ Forall frame_shape frames /\ quiet_buf rest.
Proof. pose proof (drain_lines_spec buf). by destruct (drain buf). Qed.
