(* ===== verification/Cpio.v ===== *)
(** * The initramfs writer ([src/src/cpio.rs])

    The newc archive emitter: headers, data and padding, the device-node
    segment, the directory walk and the rootfs segment with its inode
    renumbering and hardlink deferral.  The file system is the interface
    [RootFs].  The properties: an archive reads back as the entries written,
    by the reader of the format; every collected entry is written exactly
    once, with its content on the last link of its group only; and the bytes
    depend on the shape of the tree, not on listing order or inode numbers. *)

From Stdlib Require Import ZArith Lia.
From stdpp Require Import base numbers strings gmap sorting list.
From S2P Require Import Prelude.
From S2P Require Import Text.

Open Scope Z_scope.

Definition BUILD_EPOCH : Z := 1785542400.
Definition S_IFMT : Z := 61440.
Definition S_IFDIR : Z := 16384.
Definition S_IFREG : Z := 32768.
Definition S_IFLNK : Z := 40960.
Definition S_IFCHR : Z := 8192.
Definition S_IFBLK : Z := 24576.

(** An I/O error is an errno with the path it concerns; [Panic] is an index
    out of range. *)
Inductive CpioError :=
  | CpioIo (what : list (list Z)) (source : Z)
  | TooLarge (name : list Z) (size : Z)
  | Panic.

Record NewcHeader := {
  h_ino : Z; h_mode : Z; h_nlink : Z; h_mtime : Z; h_filesize : Z; h_devmajor : Z; h_devminor : Z;
  h_rdevmajor : Z; h_rdevminor : Z; h_name : list Z }.

#[export] Instance NewcHeader_eq_dec : EqDecision NewcHeader.
Proof. solve_decision. Defined.

(** ** Framing: the archive is the output buffer *)

Definition pad_zeros (n : nat) (out : list Z) : list Z := out ++ replicate n 0.

(** [format!("{v:08X}")]. *)
Definition hex8 (v : Z) : list Z := zero_pad 8 (hex_upper v).

Definition header_fields (h : NewcHeader) (namesize : Z) : list Z :=
  [h_ino h; h_mode h; 0; 0; h_nlink h; h_mtime h; h_filesize h; h_devmajor h; h_devminor h;
   h_rdevmajor h; h_rdevminor h; namesize; 0].

(** The padding up to a multiple of [n]. *)
Definition pad_to (n len : nat) : nat := ((n - len mod n) mod n)%nat.

Definition header (h : NewcHeader) (out : list Z) : list Z :=
  let namesize := as_u32 (as_u32 (Z.of_nat (length (h_name h))) + 1) in
  let out := out ++ lit "070701" ++ concat (hex8 <$> header_fields h namesize) ++ h_name h ++ [0] in
  pad_zeros (pad_to 4 (110 + Z.to_nat namesize)) out.

Definition data (d : list Z) (out : list Z) : list Z := pad_zeros (pad_to 4 (length d)) (out ++ d).

Definition trailer_header : NewcHeader :=
  {| h_ino := 0; h_mode := 0; h_nlink := 1; h_mtime := 0; h_filesize := 0; h_devmajor := 0; h_devminor := 0;
     h_rdevmajor := 0; h_rdevminor := 0; h_name := lit "TRAILER!!!" |}.

Definition trailer (out : list Z) : list Z := header trailer_header out.

Definition pad_to_512 (out : list Z) : list Z := pad_zeros (pad_to 512 (length out)) out.

(** ** The device nodes *)

Definition nodes : list (list Z * Z * Z * Z * Z) :=
  [(lit "dev", Z.lor S_IFDIR 493, 2, 0, 0);
   (lit "dev/console", Z.lor S_IFCHR 384, 1, 5, 1);
   (lit "dev/null", Z.lor S_IFCHR 438, 1, 1, 3);
   (lit "dev/ttyS0", Z.lor S_IFCHR 432, 1, 4, 64);
   (lit "dev/ttyS1", Z.lor S_IFCHR 432, 1, 4, 65)].

Definition node_header (n : list Z * Z * Z * Z * Z) : NewcHeader :=
  let '(name, mode, nlink, rmaj, rmin) := n in
  {| h_ino := 0; h_mode := mode; h_nlink := nlink; h_mtime := BUILD_EPOCH; h_filesize := 0; h_devmajor := 3;
     h_devminor := 1; h_rdevmajor := rmaj; h_rdevminor := rmin; h_name := name |}.

Definition write_nodes_segment (out : list Z) : list Z :=
  pad_to_512 (trailer (foldl (fun out n => header (node_header n) out) out nodes)).

Definition nodes_segment : list Z := write_nodes_segment [].

(** ** The directory walk *)

(** What [lstat] gives. *)
Record Meta := { m_dev : Z; m_ino : Z; m_rdev : Z; m_nlink : Z; m_mode : Z }.

(** A path below the root is the list of its components. *)
Definition path : Type := list (list Z).

Fixpoint rel_bytes (p : path) : list Z :=
  match p with
  | [] => []
  | [c] => c
  | c :: p => c ++ 47 :: rel_bytes p
  end.

(** The file system below the root; a listing may fail as a whole or at an
    entry. *)
Class RootFs (F : Type) := {
  read_dir : F -> path -> result Z (list (result Z (list Z)));
  symlink_metadata : F -> path -> result Z Meta;
  fs_read : F -> path -> result Z (list Z);
  fs_read_link : F -> path -> result Z (list Z);
}.

Record Entry := {
  e_name : list Z; e_path : path; e_dev : Z; e_ino : Z; e_rdev : Z; e_nlink : Z; e_mode : Z; e_is_dir : bool }.

Definition e_key (e : Entry) : Z * Z := (e_dev e, e_ino e).

(** The paths the node segment supplies. *)
Definition excluded (rel : list Z) : bool :=
  bool_decide (rel = lit "dev") || bool_decide (take 4 rel = lit "dev/").

Section walk.
Context {F : Type} `{RootFs F}.

Definition entry_of (p : path) (m : Meta) : Entry :=
  {| e_name := rel_bytes p; e_path := p; e_dev := m_dev m; e_ino := m_ino m; e_rdev := m_rdev m;
     e_nlink := as_u32 (m_nlink m); e_mode := m_mode m; e_is_dir := Z.land (m_mode m) S_IFMT =? S_IFDIR |}.

(** The loop over one directory's listing: entries and directories found. *)
Fixpoint scan (fs : F) (dir : path) (l : list (result Z (list Z))) : result CpioError (list Entry * list path) :=
  match l with
  | [] => Ok ([], [])
  | Err e :: _ => Err (CpioIo dir e)
  | Ok name :: l =>
      let p := dir ++ [name] in
      if excluded (rel_bytes p) then scan fs dir l
      else
        match symlink_metadata fs p with
        | Err e => Err (CpioIo p e)
        | Ok m =>
            '(es, ds) ← scan fs dir l;
            let e := entry_of p m in
            Ok (e :: es, if e_is_dir e then p :: ds else ds)
        end
  end.

(** The stack loop; the last directory pushed is popped first. *)
Fixpoint walk (fuel : nat) (fs : F) (stack : list path) (entries : list Entry) : option (result CpioError (list Entry)) :=
  match stack with
  | [] => Some (Ok entries)
  | dir :: stack =>
      match fuel with
      | O => None
      | S fuel =>
          match read_dir fs dir with
          | Err e => Some (Err (CpioIo dir e))
          | Ok l =>
              match scan fs dir l with
              | Err e => Some (Err e)
              | Ok (es, ds) => walk fuel fs (reverse ds ++ stack) (entries ++ es)
              end
          end
      end
  end.

Definition name_le (a b : Entry) : Prop := bytes_leb (e_name a) (e_name b) = true.

#[export] Instance name_le_dec a b : Decision (name_le a b).
Proof. unfold name_le. apply _. Defined.

Definition collect (fuel : nat) (fs : F) : option (result CpioError (list Entry)) :=
  match walk fuel fs [[]] [] with
  | Some (Ok entries) => Some (Ok (merge_sort name_le entries))
  | r => r
  end.

Definition read_payload (fs : F) (e : Entry) : result CpioError (list Z) :=
  let io (r : result Z (list Z)) := match r with Ok d => Ok d | Err x => Err (CpioIo (e_path e) x) end in
  let t := Z.land (e_mode e) S_IFMT in
  if t =? S_IFREG then io (fs_read fs (e_path e))
  else if t =? S_IFLNK then io (fs_read_link fs (e_path e))
  else Ok [].

(** [map(read_payload).collect()]: the payloads in entry order.  The reads run
    in parallel, so which of several errors is reported is not fixed; this is
    the first. *)
Fixpoint read_payloads (fs : F) (es : list Entry) : result CpioError (list (list Z)) :=
  match es with
  | [] => Ok []
  | e :: es => d ← read_payload fs e; ds ← read_payloads fs es; Ok (d :: ds)
  end.

End walk.

(** ** The rootfs segment *)

Definition rdev_of (meta_rdev mode : Z) : Z * Z :=
  let t := Z.land mode S_IFMT in
  if (t =? S_IFCHR) || (t =? S_IFBLK) then
    (as_u32 (Z.land (Z.shiftr meta_rdev 8) 4095),
     Z.lor (as_u32 (Z.land meta_rdev 255)) (as_u32 (Z.land (Z.shiftr meta_rdev 12) (bnot 64 255))))
  else (0, 0).

Definition entry_header (e : Entry) (new_ino filesize : Z) : NewcHeader :=
  let '(rmaj, rmin) := rdev_of (e_rdev e) (e_mode e) in
  {| h_ino := new_ino; h_mode := e_mode e; h_nlink := if e_is_dir e then 2 else e_nlink e; h_mtime := BUILD_EPOCH;
     h_filesize := filesize; h_devmajor := 0; h_devminor := 0; h_rdevmajor := rmaj; h_rdevminor := rmin;
     h_name := e_name e |}.

Definition write_entry (e : Entry) (new_ino : Z) (payload : list Z) (out : list Z) : result CpioError (list Z) :=
  let n := Z.of_nat (length payload) in
  if n <? 2 ^ 32 then
    let out := header (entry_header e new_ino n) out in
    Ok (match payload with [] => out | _ => data payload out end)
  else Err (TooLarge (e_name e) n).

(** Pass 1: inode numbers by first appearance. *)
Definition renumber_step (s : gmap (Z * Z) Z * Z) (e : Entry) : gmap (Z * Z) Z * Z :=
  let '(m, counter) := s in
  match m !! e_key e with
  | Some _ => s
  | None => (<[e_key e := counter]> m, as_u32 (counter + 1))
  end.

Definition renumber (es : list Entry) : gmap (Z * Z) Z := (foldl renumber_step (∅, 0) es).1.

(** Pass 1b: the archived members of each hardlink group. *)
Definition in_group (e : Entry) : bool := negb (e_is_dir e) && (1 <? e_nlink e).

Definition count_step (m : gmap (Z * Z) nat) (e : Entry) : gmap (Z * Z) nat :=
  if in_group e then <[e_key e := S (default O (m !! e_key e))]> m else m.

Definition group_totals (es : list Entry) : gmap (Z * Z) nat := foldl count_step ∅ es.

(** Pass 2. [deferred] and [seen]. *)
Record Pass2 := { deferred : gmap (Z * Z) (list nat); seen : gmap (Z * Z) nat }.

Definition write_at (es : list Entry) (ino : gmap (Z * Z) Z) (key : Z * Z) (idx : nat) (payload : option (list Z))
    (out : list Z) : result CpioError (list Z) :=
  match es !! idx, ino !! key, payload with
  | Some e, Some i, Some payload => write_entry e i payload out
  | _, _, _ => Err Panic
  end.

(** The deferred links, last first, without data. *)
Fixpoint write_deferred (es : list Entry) (ino : gmap (Z * Z) Z) (key : Z * Z) (l : list nat) (out : list Z) :
    result CpioError (list Z) :=
  match l with
  | [] => Ok out
  | di :: l => out ← write_at es ino key di (Some []) out; write_deferred es ino key l out
  end.

Definition emit_step (es : list Entry) (payloads : list (list Z)) (ino : gmap (Z * Z) Z) (totals : gmap (Z * Z) nat)
    (idx : nat) (e : Entry) (p : Pass2) (out : list Z) : result CpioError (Pass2 * list Z) :=
  let key := e_key e in
  if in_group e then
    match totals !! key with
    | None => Err Panic
    | Some total =>
        let s := S (default O (seen p !! key)) in
        let p := {| deferred := deferred p; seen := <[key := s]> (seen p) |} in
        if (s <? total)%nat then
          Ok ({| deferred := <[key := default [] (deferred p !! key) ++ [idx]]> (deferred p); seen := seen p |}, out)
        else
          out ← match deferred p !! key with
                | Some l => write_deferred es ino key (reverse l) out
                | None => Ok out
                end;
          out ← write_at es ino key idx (payloads !! idx) out;
          Ok ({| deferred := delete key (deferred p); seen := seen p |}, out)
    end
  else out ← write_at es ino key idx (payloads !! idx) out; Ok (p, out).

Fixpoint emit (es : list Entry) (payloads : list (list Z)) (ino : gmap (Z * Z) Z) (totals : gmap (Z * Z) nat)
    (idx : nat) (todo : list Entry) (p : Pass2) (out : list Z) : result CpioError (Pass2 * list Z) :=
  match todo with
  | [] => Ok (p, out)
  | e :: todo =>
      '(p, out) ← emit_step es payloads ino totals idx e p out;
      emit es payloads ino totals (S idx) todo p out
  end.

(** The passes on collected entries and their payloads. *)
Definition write_entries (es : list Entry) (payloads : list (list Z)) (out : list Z) : result CpioError (Pass2 * list Z) :=
  emit es payloads (renumber es) (group_totals es) 0 es {| deferred := ∅; seen := ∅ |} out.

Definition write_rootfs_segment {F} `{RootFs F} (fuel : nat) (fs : F) (out : list Z) : option (result CpioError (list Z)) :=
  es ← collect fuel fs;
  Some (es ← es;
        payloads ← read_payloads fs es;
        '(_, out) ← write_entries es payloads out;
        Ok (pad_to_512 (trailer out))).

Definition rootfs_segment {F} `{RootFs F} (fuel : nat) (fs : F) : option (result CpioError (list Z)) :=
  write_rootfs_segment fuel fs [].

(** ** The reader of the format

    What the kernel's unpacker does with an archive: read entries until the
    trailer. *)

Definition unhex8 (s : list Z) : option Z :=
  match from_str_radix 32 16 s with Ok v => Some v | Err _ => None end.

Fixpoint read_fields (n : nat) (s : list Z) : option (list Z * list Z) :=
  match n with
  | O => Some ([], s)
  | S n => v ← unhex8 (take 8 s); '(vs, s) ← read_fields n (drop 8 s); Some (v :: vs, s)
  end.

(** One entry: its header, its data, and what follows. *)
Definition read_entry (s : list Z) : option (NewcHeader * list Z * list Z) :=
  if decide (take 6 s = lit "070701") then
    '(vs, s) ← read_fields 13 (drop 6 s);
    match vs with
    | [ino; mode; _; _; nlink; mtime; filesize; devmajor; devminor; rdevmajor; rdevminor; namesize; _] =>
        let n := Z.to_nat namesize in
        let f := Z.to_nat filesize in
        let h := {| h_ino := ino; h_mode := mode; h_nlink := nlink; h_mtime := mtime; h_filesize := filesize;
                    h_devmajor := devmajor; h_devminor := devminor; h_rdevmajor := rdevmajor;
                    h_rdevminor := rdevminor; h_name := take (n - 1) s |} in
        let s := drop (pad_to 4 (110 + n)) (drop n s) in
        Some (h, take f s, drop (pad_to 4 f) (drop f s))
    | _ => None
    end
  else None.

(** The entries up to the trailer, and the bytes after it. *)
Fixpoint read_archive (fuel : nat) (s : list Z) : option (list (NewcHeader * list Z) * list Z) :=
  match fuel with
  | O => None
  | S fuel =>
      '(h, d, s) ← read_entry s;
      if decide (h_name h = lit "TRAILER!!!") then Some ([], s)
      else '(es, s) ← read_archive fuel s; Some ((h, d) :: es, s)
  end.

(** ** Lemmas on the framing *)

(** The bytes of one entry. *)
Definition header_bytes (h : NewcHeader) : list Z :=
  let namesize := Z.of_nat (length (h_name h)) + 1 in
  lit "070701" ++ concat (hex8 <$> header_fields h namesize) ++ h_name h ++ [0]
  ++ replicate (pad_to 4 (110 + Z.to_nat namesize)) 0.

Definition data_bytes (d : list Z) : list Z := d ++ replicate (pad_to 4 (length d)) 0.

(** Headers the format can carry. *)
Record header_ok (h : NewcHeader) : Prop := {
  ok_fields : Forall (fits 32) [h_ino h; h_mode h; h_nlink h; h_mtime h; h_filesize h; h_devmajor h; h_devminor h;
                                h_rdevmajor h; h_rdevminor h];
  ok_name : Z.of_nat (length (h_name h)) + 1 < 2 ^ 32;
}.

Lemma namesize_ok h : Z.of_nat (length (h_name h)) + 1 < 2 ^ 32 ->
  as_u32 (as_u32 (Z.of_nat (length (h_name h))) + 1) = Z.of_nat (length (h_name h)) + 1.
Proof. intros. rewrite (as_u32_id (Z.of_nat _)) by (unfold fits; lia). apply as_u32_id. unfold fits. lia. Qed.

Lemma header_app h out : Z.of_nat (length (h_name h)) + 1 < 2 ^ 32 -> header h out = out ++ header_bytes h.
Proof.
  intros Hn. unfold header, header_bytes, pad_zeros. rewrite namesize_ok by done. cbv zeta.
  by rewrite <- !app_assoc.
Qed.

Lemma data_app d out : data d out = out ++ data_bytes d.
Proof. unfold data, data_bytes, pad_zeros. by rewrite <- app_assoc. Qed.

Lemma hex8_length v : fits 32 v -> length (hex8 v) = 8%nat.
Proof.
  intros Hv. unfold hex8, hex_upper. rewrite zero_pad_length.
  pose proof (radix_length 65 16 v 8 ltac:(lia)) as Hl. change (16 ^ Z.of_nat 8) with (2 ^ 32) in Hl.
  specialize (Hl Hv ltac:(lia)). lia.
Qed.

Lemma unhex8_hex8 v : fits 32 v -> unhex8 (hex8 v) = Some v.
Proof. intros Hv. unfold unhex8, hex8, hex_upper. rewrite radix_roundtrip; [done|by right|lia|lia|done]. Qed.

Lemma read_fields_written vs rest : Forall (fits 32) vs ->
  read_fields (length vs) (concat (hex8 <$> vs) ++ rest) = Some (vs, rest).
Proof.
  induction 1 as [|v vs Hv _ IH]; [done|]. cbn [length read_fields fmap list_fmap concat]. rewrite <- app_assoc.
  rewrite (take_app_length' (hex8 v)), (drop_app_length' (hex8 v)) by (by rewrite hex8_length).
  rewrite unhex8_hex8 by done. cbn [mbind option_bind]. fold (hex8 <$> vs). by rewrite IH.
Qed.

Lemma fields_length vs : Forall (fits 32) vs -> length (concat (hex8 <$> vs)) = (8 * length vs)%nat.
Proof.
  induction 1 as [|v vs Hv _ IH]; [done|]. cbn [fmap list_fmap concat length]. rewrite length_app, hex8_length by done.
  fold (hex8 <$> vs). lia.
Qed.

Lemma header_fields_ok h : header_ok h -> Forall (fits 32) (header_fields h (Z.of_nat (length (h_name h)) + 1)).
Proof.
  intros [Hf Hn]. rewrite !Forall_cons in Hf. destruct Hf as (? & ? & ? & ? & ? & ? & ? & ? & ? & _).
  unfold header_fields. rewrite !Forall_cons. split_and!; try done; try (unfold fits; lia).
Qed.

Lemma read_entry_written h d rest : header_ok h -> h_filesize h = Z.of_nat (length d) ->
  read_entry (header_bytes h ++ data_bytes d ++ rest) = Some (h, d, rest).
Proof.
  intros Hh Hd. pose proof (header_fields_ok h Hh) as Hf. unfold read_entry, header_bytes. cbv zeta.
  set (n := Z.of_nat (length (h_name h)) + 1). set (vs := header_fields h n) in *.
  rewrite <- !app_assoc. rewrite (take_app_length' (lit "070701")), (drop_app_length' (lit "070701")) by done.
  rewrite decide_True by done. change 13%nat with (length vs). rewrite read_fields_written by done.
  cbn [mbind option_bind]. subst vs. cbn [header_fields].
  assert (Z.to_nat n = length (h_name h ++ [0])) as Hn by (unfold n; rewrite length_app; cbn; lia).
  rewrite Hn. rewrite (app_assoc (h_name h)), (drop_app_length (h_name h ++ [0])).
  rewrite length_app. cbn [length]. rewrite Nat.add_sub. rewrite <- (app_assoc (h_name h)), (take_app_length (h_name h)).
  rewrite drop_app_length' by (by rewrite length_replicate). rewrite Hd, Nat2Z.id. unfold data_bytes.
  rewrite <- app_assoc, take_app_length, drop_app_length, drop_app_length' by (by rewrite length_replicate).
  destruct h. cbn in *. by subst.
Qed.

(** Entries written one after the other. *)
Definition entry_bytes (e : NewcHeader * list Z) : list Z := header_bytes e.1 ++ data_bytes e.2.

Definition entry_ok (e : NewcHeader * list Z) : Prop :=
  header_ok e.1 /\ h_filesize e.1 = Z.of_nat (length e.2).

Lemma trailer_ok : header_ok trailer_header.
Proof. split; [|cbn; lia]. repeat constructor; cbn; lia. Qed.

Lemma read_archive_written es rest fuel : Forall entry_ok es ->
  Forall (fun e => h_name e.1 <> lit "TRAILER!!!") es -> (length es < fuel)%nat ->
  read_archive fuel (concat (entry_bytes <$> es) ++ header_bytes trailer_header ++ rest) = Some (es, rest).
Proof.
  intros Hok Hn. revert fuel. induction Hok as [|[h d] es [Hh Hd] Hok IH]; intros fuel Hf; (destruct fuel as [|fuel]; [lia|]).
  - cbn [fmap list_fmap concat app read_archive].
    pose proof (read_entry_written trailer_header [] rest trailer_ok eq_refl) as Ht. cbn [data_bytes app length] in Ht.
    change (replicate (pad_to 4 0) 0 ++ rest) with rest in Ht. rewrite Ht. reflexivity.
  - apply Forall_cons in Hn as [Hne Hn]. cbn [fmap list_fmap concat read_archive]. fold (entry_bytes <$> es).
    unfold entry_bytes at 1. cbn [fst snd] in *. rewrite <- !app_assoc. rewrite read_entry_written by done.
    cbn [mbind option_bind]. rewrite decide_False by done. rewrite (IH Hn fuel) by (cbn in Hf; lia). done.
Qed.

Lemma pad_to_mod n len : (0 < n)%nat -> ((len + pad_to n len) mod n = 0)%nat.
Proof.
  intros Hn. unfold pad_to. rewrite Nat.Div0.add_mod_idemp_r.
  pose proof (Nat.mod_upper_bound len n ltac:(lia)). rewrite <- Nat.Div0.add_mod_idemp_l.
  replace (len mod n + (n - len mod n))%nat with n by lia. apply Nat.Div0.mod_same.
Qed.

Lemma entry_bytes_aligned e : entry_ok e -> (length (entry_bytes e) mod 4 = 0)%nat.
Proof.
  intros [Hh _]. unfold entry_bytes, header_bytes, data_bytes. cbv zeta.
  rewrite !length_app, !length_replicate, fields_length by (by apply header_fields_ok).
  change (length (lit "070701")) with 6%nat. change (length (header_fields _ _)) with 13%nat. cbn [length].
  set (ns := Z.to_nat (Z.of_nat (length (h_name e.1)) + 1)).
  pose proof (pad_to_mod 4 (110 + ns) ltac:(lia)) as H1. pose proof (pad_to_mod 4 (length e.2) ltac:(lia)) as H2.
  rewrite Nat.Div0.add_mod. rewrite H2, Nat.add_0_r, Nat.Div0.mod_mod.
  replace (6 + (8 * 13 + (length (h_name e.1) + (1 + pad_to 4 (110 + ns)))))%nat with (110 + ns + pad_to 4 (110 + ns))%nat
    by (unfold ns; lia). done.
Qed.

(** ** What GNU cpio does with links

    The reference order: an entry that is in no group is written where it
    stands; a group is written where its last member stands, the other members
    first, last one first, without data. *)

Section plan.
Variable es : list Entry.

(** The group of the [i]-th entry. *)
Definition grp (i : nat) : option (Z * Z) :=
  match es !! i with Some e => if in_group e then Some (e_key e) else None | None => None end.

(** The members of a group among the first [n] entries. *)
Definition members (n : nat) (key : Z * Z) : list nat := filter (fun i => grp i = Some key) (seq 0 n).

Definition group_done (n : nat) (key : Z * Z) : bool := (length (members (length es) key) <=? length (members n key))%nat.

(** What is written when the [i]-th entry is reached: an index and whether its
    data comes with it. *)
Definition due (i : nat) : list (nat * bool) :=
  match grp i with
  | None => [(i, true)]
  | Some key => if group_done (S i) key then ((fun j => (j, false)) <$> reverse (members i key)) ++ [(i, true)] else []
  end.

Fixpoint plan (n : nat) : list (nat * bool) :=
  match n with O => [] | S n => plan n ++ due n end.

Lemma members_S n key : members (S n) key = members n key ++ if decide (grp n = Some key) then [n] else [].
Proof.
  unfold members. by rewrite seq_S, filter_app.
Qed.

Lemma members_mono n m key : (n <= m)%nat -> (length (members n key) <= length (members m key))%nat.
Proof.
  induction 1 as [|m _ IH]; [done|]. rewrite members_S, length_app. lia.
Qed.

Lemma members_grp i n key : i ∈ members n key <-> grp i = Some key /\ (i < n)%nat.
Proof. unfold members. rewrite list_elem_of_filter, elem_of_seq. naive_solver lia. Qed.

Lemma grp_lt i key : grp i = Some key -> (i < length es)%nat.
Proof. unfold grp. destruct (es !! i) eqn:E; [|done]. intros _. by eapply lookup_lt_Some. Qed.

(** The links waiting for the last one of their group. *)
Definition waiting (n i : nat) : bool := match grp i with Some key => negb (group_done n key) | None => false end.
Definition pending (n : nat) : list nat := filter (fun i => waiting n i = true) (seq 0 n).

Lemma filter_split (P Q : nat -> bool) (l : list nat) : (forall i, Q i = true -> P i = true) ->
  filter (fun i => P i = true) l ≡ₚ filter (fun i => Q i = true) l ++ filter (fun i => P i && negb (Q i) = true) l.
Proof.
  intros HQ. induction l as [|x l IH]; [done|]. rewrite !filter_cons. specialize (HQ x).
  destruct (P x), (Q x); cbn [andb negb]; repeat first [rewrite decide_True by done | rewrite decide_False by done].
  - cbn [app]. by apply Permutation_skip.
  - rewrite IH. apply Permutation_middle.
  - specialize (HQ eq_refl). done.
  - done.
Qed.

Lemma filter_ext_in (P Q : nat -> bool) (l : list nat) : (forall i, i ∈ l -> P i = Q i) ->
  filter (fun i => P i = true) l = filter (fun i => Q i = true) l.
Proof.
  intros HPQ. induction l as [|x l IH]; [done|]. rewrite !filter_cons, (HPQ x) by set_solver.
  rewrite IH by set_solver. done.
Qed.

(** A group other than the one of entry [n] does not move at [n]. *)
Lemma group_done_other n key : grp n <> Some key -> group_done (S n) key = group_done n key.
Proof. intros Hn. unfold group_done. rewrite members_S, decide_False, app_nil_r by done. done. Qed.

Lemma group_open_before n key : (n < length es)%nat -> grp n = Some key -> group_done n key = false.
Proof.
  intros Hn Hg. unfold group_done. apply Nat.leb_gt.
  pose proof (members_mono (S n) (length es) key ltac:(lia)) as Hm. rewrite members_S, decide_True, length_app in Hm by done.
  cbn in Hm. lia.
Qed.

(** Nothing is lost and nothing is written twice, at any point. *)
Lemma plan_pending n : (n <= length es)%nat -> (plan n).*1 ++ pending n ≡ₚ seq 0 n.
Proof.
  induction n as [|n IH]; intros Hn; [done|]. specialize (IH ltac:(lia)). cbn [plan]. rewrite fmap_app, seq_S. cbn [Nat.add].
  assert (Hpend : forall b, waiting (S n) n = b ->
            pending (S n) = filter (fun i => waiting (S n) i = true) (seq 0 n) ++ if b then [n] else []).
  { intros b Hb. unfold pending. rewrite seq_S, filter_app. f_equal. cbn [Nat.add]. rewrite filter_cons, Hb.
    by destruct b. }
  unfold due. destruct (grp n) as [key|] eqn:Eg.
  - assert (Hopen : group_done n key = false) by (by apply group_open_before).
    destruct (group_done (S n) key) eqn:Ed.
    + rewrite (Hpend false) by (unfold waiting; by rewrite Eg, Ed). rewrite app_nil_r.
      rewrite fmap_app, <- list_fmap_compose. cbn [fmap list_fmap fst].
      assert (Hm : ((fun x : nat => x) <$> reverse (members n key)) = reverse (members n key)) by apply list_fmap_id.
      change (fst ∘ (fun j : nat => (j, false))) with (fun x : nat => x). rewrite Hm, reverse_Permutation.
      assert (pending n ≡ₚ members n key ++ filter (fun i => waiting (S n) i = true) (seq 0 n)) as Hp.
      { unfold pending. rewrite (filter_split (waiting n) (fun i => bool_decide (grp i = Some key))).
        - apply Permutation_app.
          + unfold members. rewrite (list_filter_iff (fun i => bool_decide (grp i = Some key) = true) (fun i => grp i = Some key)); [done|].
            intros i. by rewrite bool_decide_eq_true.
          + rewrite (filter_ext_in (fun i => waiting n i && negb (bool_decide (grp i = Some key))) (waiting (S n))); [done|].
            intros i _. unfold waiting. destruct (grp i) as [k|] eqn:Ei; [|done].
            destruct (decide (k = key)) as [->|Hne]; [rewrite bool_decide_eq_true_2 by done; by rewrite Ed, andb_false_r|].
            rewrite bool_decide_eq_false_2 by naive_solver. rewrite andb_true_r. f_equal. symmetry.
            apply group_done_other. rewrite Eg. naive_solver.
        - intros i Hi. bool_prop. unfold waiting. by rewrite Hi, Hopen. }
      trans (((plan n).*1 ++ pending n) ++ [n]); [|by rewrite IH]. rewrite Hp, <- !app_assoc. apply Permutation_app_head, Permutation_app_head.
      cbn [app]. apply Permutation_cons_append.
    + rewrite (Hpend true) by (unfold waiting; by rewrite Eg, Ed). cbn [fmap list_fmap]. rewrite app_nil_r.
      trans (((plan n).*1 ++ pending n) ++ [n]); [|by rewrite IH].
      rewrite app_assoc. apply Permutation_app_tail, Permutation_app_head. unfold pending.
      rewrite (filter_ext_in (waiting (S n)) (waiting n)); [done|]. intros i _. unfold waiting.
      destruct (grp i) as [k|] eqn:Ei; [|done]. f_equal. destruct (decide (k = key)) as [->|Hne]; [congruence|].
      apply group_done_other. rewrite Eg. naive_solver.
  - rewrite (Hpend false) by (unfold waiting; by rewrite Eg). cbn [fmap list_fmap fst]. rewrite app_nil_r.
    trans (((plan n).*1 ++ pending n) ++ [n]); [|by rewrite IH].
    rewrite <- !app_assoc. apply Permutation_app_head. cbn [app]. unfold pending.
    rewrite (filter_ext_in (waiting (S n)) (waiting n)); [apply Permutation_cons_append|]. intros i _. unfold waiting.
    destruct (grp i) as [k|] eqn:Ei; [|done]. f_equal. apply group_done_other. by rewrite Eg.
Qed.

Lemma pending_end : pending (length es) = [].
Proof.
  unfold pending. apply list_filter_none. apply Forall_true. intros i. unfold waiting, group_done.
  destruct (grp i); [|done]. by rewrite Nat.leb_refl.
Qed.

Lemma plan_complete : (plan (length es)).*1 ≡ₚ seq 0 (length es).
Proof. rewrite <- (plan_pending (length es)) by done. by rewrite pending_end, app_nil_r. Qed.

End plan.

(** ** The passes follow the reference order *)

Section passes.
Variable es : list Entry.
Variable payloads : list (list Z).
Hypothesis Hlen : length payloads = length es.
Hypothesis Hsmall : Forall (fun d => Z.of_nat (length d) < 2 ^ 32) payloads.
Hypothesis Hnames : Forall (fun e => Z.of_nat (length (e_name e)) + 1 < 2 ^ 32) es.

Abbreviation N := (length es).

(** The header and data of an item of the plan. *)
Definition item (ib : nat * bool) : option (NewcHeader * list Z) :=
  e ← es !! ib.1;
  i ← renumber es !! e_key e;
  d ← (if ib.2 then payloads !! ib.1 else Some []);
  Some (entry_header e i (Z.of_nat (length d)), d).

Definition items (l : list (nat * bool)) : list Z := concat (entry_bytes <$> omap item l).

Fixpoint plan_from (n k : nat) : list (nat * bool) :=
  match k with O => [] | S k => due es n ++ plan_from (S n) k end.

Lemma plan_split k : forall n, plan es (n + k) = plan es n ++ plan_from n k.
Proof.
  induction k as [|k IH]; intros n; cbn [plan_from]; [by rewrite Nat.add_0_r, app_nil_r|].
  replace (n + S k)%nat with (S n + k)%nat by lia. rewrite IH. cbn [plan]. by rewrite <- app_assoc.
Qed.

Lemma items_app l l' : items (l ++ l') = items l ++ items l'.
Proof. unfold items. by rewrite omap_app, fmap_app, concat_app. Qed.

Lemma renumber_step_known s e key : is_Some (s.1 !! key) -> is_Some ((renumber_step s e).1 !! key).
Proof.
  destruct s as [m c]. unfold renumber_step. cbn [fst]. destruct (m !! e_key e) eqn:E; [done|]. cbn [fst].
  rewrite lookup_insert_is_Some'. by right.
Qed.

Lemma renumber_known e : e ∈ es -> is_Some (renumber es !! e_key e).
Proof.
  unfold renumber. assert (forall l s, (e ∈ l \/ is_Some (s.1 !! e_key e)) -> is_Some ((foldl renumber_step s l).1 !! e_key e)) as Hg.
  { induction l as [|x l IH]; intros s Hs; cbn [foldl].
    - destruct Hs as [?%elem_of_nil|?]; done.
    - apply IH. destruct Hs as [Hs|Hs]; [|right; by apply renumber_step_known].
      apply elem_of_cons in Hs as [<-|?]; [right|by left]. destruct s as [m c]. unfold renumber_step. cbn [fst].
      destruct (m !! e_key e) eqn:E; cbn [fst]; [by rewrite E|]. rewrite lookup_insert_eq. by eexists. }
  intros He. apply Hg. by left.
Qed.

(** Counting a prefix. *)
Lemma totals_prefix n key : (n <= N)%nat ->
  foldl count_step ∅ (take n es) !! key = if decide (members es n key = []) then None else Some (length (members es n key)).
Proof.
  induction n as [|n IH]; intros Hn; [by cbn|]. specialize (IH ltac:(lia)).
  destruct (lookup_lt_is_Some_2 es n) as [e He]; [lia|]. rewrite (take_S_r _ _ e) by done. rewrite foldl_app.
  cbn [foldl]. set (m := foldl count_step ∅ (take n es)) in *. unfold count_step. rewrite members_S. unfold grp. rewrite He. destruct (in_group e).
  - destruct (decide (e_key e = key)) as [->|Hne].
    + rewrite lookup_insert_eq, IH. rewrite (decide_True (P := Some key = Some key)) by done.
      rewrite (decide_False (P := _ ++ _ = [])) by (intros [_ ?]%app_nil; done). rewrite length_app. cbn.
      case_decide as Hm; [rewrite Hm|]; cbn; f_equal; lia.
    + rewrite lookup_insert_ne, IH by done. rewrite (decide_False (P := Some _ = Some _)) by congruence. by rewrite app_nil_r.
  - rewrite IH, (decide_False (P := None = Some _)) by done. by rewrite app_nil_r.
Qed.

Lemma totals_spec key : group_totals es !! key = if decide (members es N key = []) then None else Some (length (members es N key)).
Proof. unfold group_totals. rewrite <- totals_prefix by done. by rewrite firstn_all. Qed.

(** The maps after [n] entries. *)
Record PInv (n : nat) (p : Pass2) : Prop := {
  pinv_seen key : default O (seen p !! key) = length (members es n key);
  pinv_deferred key : deferred p !! key =
    if decide (members es n key = [] \/ group_done es n key = true) then None else Some (members es n key);
}.

Lemma write_entry_ok e i d out : Z.of_nat (length d) < 2 ^ 32 -> Z.of_nat (length (e_name e)) + 1 < 2 ^ 32 ->
  write_entry e i d out = Ok (out ++ entry_bytes (entry_header e i (Z.of_nat (length d)), d)).
Proof.
  intros Hd Hn. unfold write_entry, entry_bytes. rewrite (proj2 (Z.ltb_lt _ _)) by done. cbn [fst snd].
  assert (Hh : h_name (entry_header e i (Z.of_nat (length d))) = e_name e) by (unfold entry_header; by destruct (rdev_of _ _)).
  rewrite header_app by (by rewrite Hh). destruct d; [by rewrite app_nil_r|]. rewrite data_app. by rewrite <- app_assoc.
Qed.

Lemma write_at_ok key idx (b : bool) out : grp es idx = Some key \/ (e_key <$> es !! idx = Some key) -> (idx < N)%nat ->
  write_at es (renumber es) key idx (if b then payloads !! idx else Some []) out = Ok (out ++ items [(idx, b)]).
Proof.
  intros Hk Hi. unfold write_at, items. destruct (lookup_lt_is_Some_2 es idx Hi) as [e He].
  assert (e_key e = key) as <-.
  { unfold grp in Hk. rewrite He in Hk. destruct Hk as [Hk|Hk]; [destruct (in_group e)|]; naive_solver. }
  destruct (renumber_known e) as [i Hino]; [by eapply list_elem_of_lookup_2|].
  destruct (lookup_lt_is_Some_2 payloads idx) as [d Hd]; [by rewrite Hlen|].
  assert (Z.of_nat (length (e_name e)) + 1 < 2 ^ 32) by (eapply Forall_lookup_1 in Hnames; done).
  assert (Z.of_nat (length d) < 2 ^ 32) by (eapply Forall_lookup_1 in Hsmall; done).
  assert (omap item [(idx, b)] = match item (idx, b) with Some y => [y] | None => [] end) as -> by done.
  unfold item. cbn [fst snd]. rewrite He. cbn [mbind option_bind]. rewrite Hino. cbn [mbind option_bind].
  destruct b; [rewrite Hd|]; cbn [mbind option_bind fmap list_fmap concat]; rewrite app_nil_r; apply write_entry_ok;
    done || (cbn; lia).
Qed.

Lemma write_deferred_ok key l out : Forall (fun i => grp es i = Some key) l ->
  write_deferred es (renumber es) key l out = Ok (out ++ items ((fun j => (j, false)) <$> l)).
Proof.
  intros Hl. revert out. induction Hl as [|i l Hi _ IH]; intros out; cbn [write_deferred].
  { unfold items. cbn. by rewrite app_nil_r. }
  rewrite (write_at_ok key i false) by (first [by left|by eapply grp_lt]). cbn [mbind result_bind]. rewrite IH.
  change ((fun j => (j, false)) <$> i :: l) with ([(i, false)] ++ ((fun j => (j, false)) <$> l)).
  by rewrite items_app, app_assoc.
Qed.

Lemma emit_step_ok n e p out : es !! n = Some e -> PInv n p ->
  exists p', emit_step es payloads (renumber es) (group_totals es) n e p out = Ok (p', out ++ items (due es n))
  /\ PInv (S n) p'.
Proof.
  intros He [Hs Hd]. pose proof (lookup_lt_Some _ _ _ He) as Hn. unfold emit_step, due.
  destruct (in_group e) eqn:Eg.
  - assert (Hg : grp es n = Some (e_key e)) by (unfold grp; by rewrite He, Eg). rewrite Hg.
    set (key := e_key e) in *.
    assert (HmS : members es (S n) key = members es n key ++ [n]) by (by rewrite members_S, decide_True).
    assert (Hother : forall k, k <> key -> members es (S n) k = members es n k).
    { intros k Hk. rewrite members_S, decide_False, app_nil_r; [done|]. rewrite Hg. congruence. }
    assert (HN : members es N key <> []).
    { intros E. pose proof (members_mono es (S n) N key ltac:(lia)) as Hm. rewrite HmS, E, length_app in Hm. cbn in Hm. lia. }
    rewrite totals_spec, decide_False by done.
    assert (Hsc : S (default O (seen p !! key)) = length (members es (S n) key)) by (rewrite HmS, length_app, Hs; cbn; lia).
    rewrite Hsc. cbn [seen deferred].
    assert (Hopen : group_done es n key = false) by (by apply group_open_before).
    assert (Hseen : forall k, default O (<[key := length (members es (S n) key)]> (seen p) !! k) = length (members es (S n) k)).
    { intros k. destruct (decide (k = key)) as [->|Hk]; [by rewrite lookup_insert_eq|].
      rewrite lookup_insert_ne by congruence. by rewrite Hs, Hother. }
    destruct (Nat.ltb_spec (length (members es (S n) key)) (length (members es N key))) as [Hlt|Hge].
    + assert (Hgd : group_done es (S n) key = false) by (unfold group_done; apply Nat.leb_gt; lia). rewrite Hgd.
      eexists. split; [unfold items; cbn; by rewrite app_nil_r|]. split; [exact Hseen|]. cbn [deferred]. intros k.
      destruct (decide (k = key)) as [->|Hk].
      * rewrite lookup_insert_eq, (decide_False (P := members es (S n) key = [] \/ _))
          by (rewrite HmS, Hgd; intros [[_ ?]%app_nil|?]; done).
        rewrite Hd.
        rewrite HmS. f_equal. f_equal. case_decide as Hc; [|done].
        destruct Hc as [->|?]; [done|congruence].
      * rewrite lookup_insert_ne by congruence. rewrite Hd, Hother by done.
        rewrite group_done_other by (rewrite Hg; congruence). done.
    + assert (Hgd : group_done es (S n) key = true) by (unfold group_done; apply Nat.leb_le; lia). rewrite Hgd.
      assert (match deferred p !! key with
              | Some l => write_deferred es (renumber es) key (reverse l) out | None => Ok out end
              = Ok (out ++ items ((fun j => (j, false)) <$> reverse (members es n key)))) as ->.
      { rewrite Hd. case_decide as Hc.
        - destruct Hc as [->|?]; [|congruence]. unfold items. cbn. by rewrite app_nil_r.
        - apply write_deferred_ok. apply Forall_reverse, Forall_forall. intros i Hi. by apply members_grp in Hi as [? _]. }
      cbn [mbind result_bind]. rewrite (write_at_ok key n true) by (first [by left|done]). cbn [mbind result_bind].
      eexists. split; [by rewrite items_app, app_assoc|]. split; [exact Hseen|]. cbn [deferred]. intros k.
      destruct (decide (k = key)) as [->|Hk].
      * rewrite lookup_delete_eq, decide_True by (by right). done.
      * rewrite lookup_delete_ne by congruence. rewrite Hd, Hother by done.
        rewrite group_done_other by (rewrite Hg; congruence). done.
  - assert (Hg : grp es n = None) by (unfold grp; by rewrite He, Eg). rewrite Hg.
    rewrite (write_at_ok (e_key e) n true) by (first [right; by rewrite He|done]). cbn [mbind result_bind].
    assert (Hm : forall k, members es (S n) k = members es n k).
    { intros k. rewrite members_S, decide_False, app_nil_r; [done|]. by rewrite Hg. }
    exists p. split; [done|]. split; intros k; rewrite Hm; [done|].
    rewrite Hd. rewrite group_done_other by (by rewrite Hg). done.
Qed.

Lemma emit_ok k : forall n p out, (n + k = N)%nat -> PInv n p ->
  exists p', emit es payloads (renumber es) (group_totals es) n (drop n es) p out = Ok (p', out ++ items (plan_from n k))
  /\ PInv N p'.
Proof.
  induction k as [|k IH]; intros n p out Hnk Hp.
  - rewrite drop_ge by lia. cbn [emit plan_from]. exists p. unfold items. cbn. rewrite app_nil_r.
    split; [done|]. by replace N with n by lia.
  - destruct (lookup_lt_is_Some_2 es n) as [e He]; [lia|]. rewrite (drop_S _ _ _ He). cbn [emit plan_from].
    destruct (emit_step_ok n e p out He Hp) as (p1 & -> & Hp1). cbn [mbind result_bind].
    destruct (IH (S n) p1 (out ++ items (due es n)) ltac:(lia) Hp1) as (p2 & -> & Hp2).
    exists p2. split; [|done]. by rewrite items_app, app_assoc.
Qed.

Lemma write_entries_plan out :
  exists p', write_entries es payloads out = Ok (p', out ++ items (plan es N)) /\ deferred p' = ∅.
Proof.
  unfold write_entries. destruct (emit_ok N O {| deferred := ∅; seen := ∅ |} out) as (p' & E & [_ Hd]); [lia| |].
  - split; intros key; cbn [seen deferred]; by rewrite lookup_empty.
  - rewrite drop_0 in E. exists p'. pose proof (plan_split N O) as Hp. cbn [plan app Nat.add] in Hp. rewrite Hp.
    split; [done|]. apply map_eq. intros key. rewrite Hd, lookup_empty, decide_True; [done|].
    right. unfold group_done. apply Nat.leb_refl.
Qed.

End passes.

(** ** Which entries carry their data *)

Lemma plan_flag es n i b : (n <= length es)%nat -> (i, b) ∈ plan es n ->
  b = match grp es i with None => true | Some key => group_done es (S i) key end.
Proof.
  induction n as [|n IH]; intros Hn; cbn [plan]; [by intros ?%elem_of_nil|].
  rewrite elem_of_app. intros [Hi|Hi]; [apply IH; [lia|done]|]. unfold due in Hi.
  destruct (grp es n) as [key|] eqn:Eg; [|apply list_elem_of_singleton in Hi; simplify_eq; by rewrite Eg].
  destruct (group_done es (S n) key) eqn:Ed; [|by apply elem_of_nil in Hi].
  apply elem_of_app in Hi as [Hi|Hi]; [|apply list_elem_of_singleton in Hi; simplify_eq; by rewrite Eg, Ed].
  apply list_elem_of_fmap in Hi as (j & [= -> ->] & Hj). apply elem_of_reverse, members_grp in Hj as [Hg Hlt].
  rewrite Hg. symmetry. unfold group_done. apply Nat.leb_gt.
  pose proof (members_mono es (S j) n key ltac:(lia)). pose proof (members_mono es (S n) (length es) key ltac:(lia)) as Hm.
  rewrite members_S, decide_True, length_app in Hm by done. cbn in Hm. lia.
Qed.

(** ** Headers of entries are well formed *)

Record entry_wf (e : Entry) : Prop := {
  wf_mode : fits 32 (e_mode e);
  wf_nlink : fits 32 (e_nlink e);
  wf_name : Z.of_nat (length (e_name e)) + 1 < 2 ^ 32;
  wf_trailer : e_name e <> lit "TRAILER!!!";
}.

Lemma rdev_of_fits r m : fits 32 (rdev_of r m).1 /\ fits 32 (rdev_of r m).2.
Proof.
  unfold rdev_of. destruct (_ || _); cbn [fst snd]; [|unfold fits; lia].
  split; [apply as_u32_fits|]. apply fits_lor; [lia|apply as_u32_fits|apply as_u32_fits].
Qed.

Lemma renumber_fits es key i : renumber es !! key = Some i -> fits 32 i.
Proof.
  unfold renumber. assert (forall l s, fits 32 s.2 -> map_Forall (fun _ i => fits 32 i) s.1 ->
    map_Forall (fun _ i => fits 32 i) (foldl renumber_step s l).1) as Hg.
  { induction l as [|e l IH]; intros [m c] Hc Hm; cbn [foldl]; [done|]. unfold renumber_step at 2.
    destruct (m !! e_key e) eqn:E; [by apply IH|]. apply IH; cbn [fst snd]; [apply as_u32_fits|].
    by apply map_Forall_insert_2. }
  intros Hk. eapply (Hg es (∅, 0)); [cbn; unfold fits; lia|apply map_Forall_empty|exact Hk].
Qed.

Lemma item_ok es payloads ib x : Forall entry_wf es -> Forall (fun d => Z.of_nat (length d) < 2 ^ 32) payloads ->
  item es payloads ib = Some x -> entry_ok x /\ h_name x.1 <> lit "TRAILER!!!".
Proof.
  intros Hes Hp. unfold item. destruct (es !! ib.1) as [e|] eqn:He; [|done]. cbn [mbind option_bind].
  destruct (renumber es !! e_key e) as [i|] eqn:Hi; [|done]. cbn [mbind option_bind].
  destruct (if ib.2 then payloads !! ib.1 else Some []) as [d|] eqn:Hd; [|done]. cbn [mbind option_bind]. intros [= <-].
  eapply Forall_lookup_1 in Hes as [Hm Hl Hn Ht]; [|exact He]. apply renumber_fits in Hi.
  assert (Z.of_nat (length d) < 2 ^ 32).
  { destruct ib.2; [by eapply Forall_lookup_1 in Hp|]. injection Hd as <-. cbn. lia. }
  pose proof (rdev_of_fits (e_rdev e) (e_mode e)) as [H1 H2]. unfold entry_ok, entry_header. cbn [fst snd].
  destruct (rdev_of (e_rdev e) (e_mode e)) as [rmaj rmin]. cbn [fst snd] in *. split; [|done]. split; [|done].
  split; [|done]. cbn [h_ino h_mode h_nlink h_mtime h_filesize h_devmajor h_devminor h_rdevmajor h_rdevminor].
  rewrite !Forall_cons, Forall_nil. split_and!; try done; try (unfold fits, BUILD_EPOCH; lia).
  destruct (e_is_dir e); [unfold fits; lia|done].
Qed.

Lemma omap_items_ok es payloads l : Forall entry_wf es -> Forall (fun d => Z.of_nat (length d) < 2 ^ 32) payloads ->
  Forall entry_ok (omap (item es payloads) l) /\ Forall (fun x => h_name x.1 <> lit "TRAILER!!!") (omap (item es payloads) l).
Proof.
  intros Hes Hp. split; apply Forall_forall; intros x (ib & _ & Hx)%list_elem_of_omap;
    by destruct (item_ok es payloads ib x Hes Hp Hx).
Qed.

Lemma omap_length_le {A B} (f : A -> option B) l : (length (omap f l) <= length l)%nat.
Proof. induction l as [|x l IH]; [done|]. cbn. destruct (f x); cbn; lia. Qed.

Lemma omap_ext_all {A B} (f g : A -> option B) (l : list A) : (forall x, f x = g x) -> omap f l = omap g l.
Proof. intros Hfg. induction l as [|x l IH]; [done|]. csimpl. by rewrite Hfg, IH. Qed.

Lemma pad_to_512_aligned out : (length (pad_to_512 out) mod 512 = 0)%nat.
Proof. unfold pad_to_512, pad_zeros. rewrite length_app, length_replicate. apply pad_to_mod. lia. Qed.

(** ** Sorting *)

#[export] Instance name_le_total : Total name_le.
Proof. intros a b. apply bytes_leb_total. Qed.
#[export] Instance name_le_trans : Transitive name_le.
Proof. intros a b c. apply bytes_leb_trans. Qed.

(** Sorting forgets the order of a listing with distinct names. *)
Lemma sort_unique l l' : NoDup (e_name <$> l) -> l ≡ₚ l' -> merge_sort name_le l = merge_sort name_le l'.
Proof.
  intros Hnd Hp. apply (StronglySorted_unique_strong name_le).
  - intros x1 x2 Hx1 Hx2 H1 H2. rewrite merge_sort_Permutation in Hx1, Hx2. rewrite <- Hp in Hx2.
    assert (e_name x1 = e_name x2) as E by (by apply bytes_leb_antisym).
    apply list_elem_of_lookup in Hx1 as [i Hi]. apply list_elem_of_lookup in Hx2 as [j Hj].
    assert (i = j) as ->; [|congruence]. eapply (NoDup_lookup (e_name <$> l)); [done| |];
      rewrite list_lookup_fmap; [by rewrite Hi|by rewrite Hj, E].
  - apply (StronglySorted_merge_sort name_le).
  - apply (StronglySorted_merge_sort name_le).
  - by rewrite !merge_sort_Permutation.
Qed.

(** ** Other inode numbers *)

Section relabel.
Variable f : Z * Z -> Z * Z.

(** The same entry on a file system that numbers its inodes differently. *)
Definition relabel (e : Entry) : Entry :=
  {| e_name := e_name e; e_path := e_path e; e_dev := (f (e_key e)).1; e_ino := (f (e_key e)).2; e_rdev := e_rdev e;
     e_nlink := e_nlink e; e_mode := e_mode e; e_is_dir := e_is_dir e |}.

Lemma relabel_key e : e_key (relabel e) = f (e_key e).
Proof. unfold e_key, relabel. cbn. by destruct (f _). Qed.

Variable es : list Entry.
Hypothesis Hinj : forall e1 e2, e1 ∈ es -> e2 ∈ es -> f (e_key e1) = f (e_key e2) -> e_key e1 = e_key e2.

Abbreviation es' := (relabel <$> es).

Lemma grp_relabel i : grp es' i = f <$> grp es i.
Proof.
  unfold grp. rewrite list_lookup_fmap. destruct (es !! i) as [e|]; cbn; [|done].
  change (in_group (relabel e)) with (in_group e). rewrite relabel_key. by destruct (in_group e).
Qed.

(** A key some entry has. *)
Definition known (key : Z * Z) : Prop := exists e, e ∈ es /\ e_key e = key.

Lemma grp_known i key : grp es i = Some key -> known key.
Proof.
  unfold grp. destruct (es !! i) as [e|] eqn:E; [|done]. destruct (in_group e); [|done]. intros [= <-].
  exists e. split; [by eapply list_elem_of_lookup_2|done].
Qed.

Lemma known_inj k k' : known k -> known k' -> f k = f k' -> k = k'.
Proof. intros (e & He & <-) (e' & He' & <-). by apply Hinj. Qed.

Lemma members_relabel n key : known key -> members es' n (f key) = members es n key.
Proof.
  intros Hk. unfold members. apply list_filter_iff. intros i. rewrite grp_relabel.
  destruct (grp es i) as [k|] eqn:E; cbn; [|done]. apply grp_known in E. split; [|by intros [= ->]].
  intros [= Hf]. f_equal. by apply known_inj.
Qed.

Lemma due_relabel i : due es' i = due es i.
Proof.
  unfold due, group_done. rewrite grp_relabel, length_fmap. destruct (grp es i) as [key|] eqn:E; cbn [fmap option_fmap option_map]; [|done].
  apply grp_known in E. by rewrite !members_relabel.
Qed.

Lemma plan_relabel n : plan es' n = plan es n.
Proof. induction n as [|n IH]; [done|]. cbn [plan]. by rewrite IH, due_relabel. Qed.

Lemma renumber_relabel e : e ∈ es -> renumber es' !! f (e_key e) = renumber es !! e_key e.
Proof.
  unfold renumber. assert (forall l m m' c, (forall x, x ∈ l -> x ∈ es) ->
    (forall x, x ∈ es -> m' !! f (e_key x) = m !! e_key x) ->
    forall x, x ∈ es -> (foldl renumber_step (m', c) (relabel <$> l)).1 !! f (e_key x) = (foldl renumber_step (m, c) l).1 !! e_key x) as Hg.
  { induction l as [|y l IH]; intros m m' c Hl Hm; cbn [fmap list_fmap foldl]; [done|].
    assert (Hy : y ∈ es) by (apply Hl; by left). fold (relabel <$> l).
    unfold renumber_step at 2 4. rewrite relabel_key, (Hm y Hy). destruct (m !! e_key y) eqn:E.
    - apply IH; [intros x Hx; apply Hl; by right|done].
    - apply IH; [intros x Hx; apply Hl; by right|]. intros x Hx. destruct (decide (e_key y = e_key x)) as [Ek|Ek].
      + rewrite Ek, !lookup_insert_eq. done.
      + rewrite !lookup_insert_ne by (first [done|intros Hf; by apply Ek, Hinj]). by apply Hm. }
  intros He. apply Hg; [done| |done]. intros x Hx. by rewrite !lookup_empty.
Qed.

Lemma item_relabel payloads ib : item es' payloads ib = item es payloads ib.
Proof.
  unfold item. rewrite list_lookup_fmap. destruct (es !! ib.1) as [e|] eqn:E; cbn [fmap option_fmap option_map mbind option_bind]; [|done].
  rewrite relabel_key, renumber_relabel by (by eapply list_elem_of_lookup_2). done.
Qed.

End relabel.

(** ** The walk ends *)

Section walk_ends.
Context {F : Type} `{RootFs F}.
Variable fs : F.
(** A finite tree: a directory weighs more than the directories in it
    together (the number of directories below it, itself included, does). *)
Variable weight : path -> nat.
Hypothesis Hpos : forall dir, (0 < weight dir)%nat.
Hypothesis Hweight : forall dir l es ds, read_dir fs dir = Ok l -> scan fs dir l = Ok (es, ds) ->
  (sum_list_with weight ds < weight dir)%nat.

Lemma sum_list_perm (l l' : list path) : l ≡ₚ l' -> sum_list_with weight l = sum_list_with weight l'.
Proof. induction 1; cbn [sum_list_with]; lia. Qed.

Lemma walk_ends fuel : forall stack entries, (sum_list_with weight stack <= fuel)%nat ->
  is_Some (walk fuel fs stack entries).
Proof.
  induction fuel as [|fuel IH]; intros [|dir stack] entries Hf; cbn [walk]; try (by eexists).
  - pose proof (Hpos dir). cbn in Hf. lia.
  - destruct (read_dir fs dir) as [l|] eqn:E; [|by eexists].
    destruct (scan fs dir l) as [[es ds]|] eqn:E2; [|by eexists]. apply IH.
    pose proof (Hweight _ _ _ _ E E2). cbn in Hf.
    rewrite (sum_list_perm (reverse ds ++ stack) (ds ++ stack)) by (by rewrite reverse_Permutation).
    rewrite sum_list_with_app. lia.
Qed.

End walk_ends.

(** ** Properties *)

(** C20: A rootfs segment reads back: for any entries and payloads the format
    can carry, writing succeeds with no link left over, the segment is a
    multiple of 512 bytes, and the reader of the format gets, before the
    trailer and zero padding, exactly the entries in the order GNU cpio uses:
    every entry once, the links of a group together, and the data of an entry
    unless it is a link that is not the last of its group. *)
Theorem rootfs_segment_reads_back es payloads :
  Forall entry_wf es -> length payloads = length es ->
  Forall (fun d => Z.of_nat (length d) < 2 ^ 32) payloads ->
  exists p bytes, write_entries es payloads [] = Ok (p, bytes) /\ deferred p = ∅
  /\ let seg := pad_to_512 (trailer bytes) in
     (length seg mod 512 = 0)%nat
     /\ (exists k, read_archive (S (length es)) seg = Some (omap (item es payloads) (plan es (length es)), replicate k 0))
     /\ (plan es (length es)).*1 ≡ₚ seq 0 (length es)
     /\ (forall i b, (i, b) ∈ plan es (length es) ->
           b = match grp es i with None => true | Some key => group_done es (S i) key end).
Proof.
  intros Hes Hlen Hsm.
  assert (Hn : Forall (fun e => Z.of_nat (length (e_name e)) + 1 < 2 ^ 32) es).
  { eapply Forall_impl; [exact Hes|]. by intros e []. }
  destruct (write_entries_plan es payloads Hlen Hsm Hn []) as (p & E & Hd). cbn [app] in E.
  exists p, (items es payloads (plan es (length es))). split; [done|]. split; [done|]. cbv zeta.
  split; [apply pad_to_512_aligned|]. split; [|split; [apply plan_complete|intros i b; by apply plan_flag]].
  destruct (omap_items_ok es payloads (plan es (length es)) Hes Hsm) as [Hok Hnt].
  unfold pad_to_512, pad_zeros, trailer. rewrite header_app by (cbn; lia). unfold items. rewrite <- app_assoc.
  eexists. rewrite read_archive_written; [done|done|done|].
  pose proof (omap_length_le (item es payloads) (plan es (length es))) as Hl.
  pose proof (Permutation_length (plan_complete es)) as Hp. rewrite length_fmap, length_seq in Hp. lia.
Qed.

(** A file with two links and a directory. *)
Definition demo_entries : list Entry :=
  [Build_Entry (lit "a") [lit "a"] 1 77 0 2 (S_IFREG + 420) false;
   Build_Entry (lit "b") [lit "b"] 1 9 0 3 (S_IFDIR + 493) true;
   Build_Entry (lit "c") [lit "c"] 1 77 0 2 (S_IFREG + 420) false].
Definition demo_payloads : list (list Z) := [[104; 105]; []; [104; 105]].

Lemma demo_entries_wf : Forall entry_wf demo_entries.
Proof. repeat constructor; cbn; unfold fits; try lia; by intros. Qed.

Lemma rootfs_segment_reads_back_witness :
  exists p bytes, write_entries demo_entries demo_payloads [] = Ok (p, bytes) /\ deferred p = ∅
  /\ plan demo_entries 3 = [(1%nat, true); (0%nat, false); (2%nat, true)].
Proof.
  destruct (rootfs_segment_reads_back demo_entries demo_payloads demo_entries_wf eq_refl) as (p & bytes & E & Hd & _).
  { repeat constructor; cbn; lia. }
  exists p, bytes. split; [exact E|]. split; [exact Hd|]. vm_compute. reflexivity.
Defined.

(** Identical trees give identical bytes: take the entries a walk
    collected, in any order, and the entries of the same tree on a file system
    that lists it in another order and numbers its devices and inodes
    differently; after sorting, both write exactly the same bytes. *)
Theorem rootfs_segment_reproducible f raw raw' payloads out :
  NoDup (e_name <$> raw) -> raw' ≡ₚ relabel f <$> raw ->
  (forall e1 e2, e1 ∈ raw -> e2 ∈ raw -> f (e_key e1) = f (e_key e2) -> e_key e1 = e_key e2) ->
  length payloads = length raw -> Forall (fun d => Z.of_nat (length d) < 2 ^ 32) payloads ->
  Forall (fun e => Z.of_nat (length (e_name e)) + 1 < 2 ^ 32) raw ->
  exists p p' bytes, write_entries (merge_sort name_le raw) payloads out = Ok (p, bytes)
  /\ write_entries (merge_sort name_le raw') payloads out = Ok (p', bytes).
Proof.
  intros Hnd Hp Hinj Hlen Hsm Hn. set (es := merge_sort name_le raw).
  assert (Hes : es ≡ₚ raw) by apply merge_sort_Permutation.
  assert (Hsort : merge_sort name_le raw' = relabel f <$> es).
  { assert (Hnames : e_name <$> (relabel f <$> es) = e_name <$> es) by (by rewrite <- list_fmap_compose).
    rewrite (sort_unique raw' (relabel f <$> es)).
    - apply (StronglySorted_unique_strong name_le).
      + intros x1 x2 Hx1 Hx2 H1 H2. rewrite merge_sort_Permutation in Hx1.
        assert (E : e_name x1 = e_name x2) by (by apply bytes_leb_antisym).
        apply list_elem_of_lookup in Hx1 as [i Hi]. apply list_elem_of_lookup in Hx2 as [j Hj].
        assert (i = j) as ->; [|congruence]. eapply (NoDup_lookup (e_name <$> (relabel f <$> es)));
          [rewrite Hnames, Hes; done| |]; rewrite (list_lookup_fmap e_name); [by rewrite Hi|by rewrite Hj, E].
      + apply (StronglySorted_merge_sort name_le).
      + pose proof (StronglySorted_merge_sort name_le raw) as Hss. fold es in Hss. clear -Hss.
        induction Hss as [|e l _ IH Hall]; [constructor|]. cbn [fmap list_fmap]. constructor; [done|].
        apply Forall_fmap. eapply Forall_impl; [exact Hall|]. by intros.
      + by rewrite merge_sort_Permutation.
    - rewrite Hp, <- list_fmap_compose. done.
    - by rewrite Hp, Hes. }
  assert (Hinj' : forall e1 e2, e1 ∈ es -> e2 ∈ es -> f (e_key e1) = f (e_key e2) -> e_key e1 = e_key e2).
  { intros e1 e2. rewrite !Hes. apply Hinj. }
  assert (Hlen' : length payloads = length es) by (by rewrite Hes).
  assert (Hn' : Forall (fun e => Z.of_nat (length (e_name e)) + 1 < 2 ^ 32) es) by (by rewrite Hes).
  destruct (write_entries_plan es payloads Hlen' Hsm Hn' out) as (p & E & _).
  destruct (write_entries_plan (relabel f <$> es) payloads) with (out := out) as (p' & E' & _);
    [by rewrite length_fmap|done|by apply Forall_fmap|].
  exists p, p', (out ++ items es payloads (plan es (length es))). split; [done|]. rewrite Hsort, E'.
  assert (items (relabel f <$> es) payloads (plan (relabel f <$> es) (length (relabel f <$> es)))
    = items es payloads (plan es (length es))) as ->; [|done].
  rewrite length_fmap, plan_relabel by done. unfold items. f_equal. f_equal.
  apply omap_ext_all. intros ib. by apply item_relabel.
Qed.

Lemma rootfs_segment_reproducible_witness :
  exists p p' bytes, write_entries (merge_sort name_le demo_entries) demo_payloads [] = Ok (p, bytes)
  /\ write_entries (merge_sort name_le (reverse (relabel (fun k => (5, k.2 + 40)) <$> demo_entries))) demo_payloads [] = Ok (p', bytes).
Proof.
  apply (rootfs_segment_reproducible (fun k => (5, k.2 + 40)) demo_entries); try reflexivity.
  - apply (bool_decide_unpack _). by vm_compute.
  - apply reverse_Permutation.
  - intros e1 e2 H1 H2 [= E]. unfold demo_entries in *. rewrite !elem_of_cons, elem_of_nil in H1, H2.
    destruct H1 as [->|[->|[->|[]]]], H2 as [->|[->|[->|[]]]]; cbn in *; done || lia.
  - repeat constructor; cbn; lia.
  - repeat constructor; cbn; lia.
Defined.

(** The walk ends on a finite tree: as many directory reads as the root
    weighs are enough, whatever the reads give. *)
Theorem collect_terminates {F} `{RootFs F} (fs : F) weight fuel :
  (forall dir, (0 < weight dir)%nat) ->
  (forall dir l es ds, read_dir fs dir = Ok l -> scan fs dir l = Ok (es, ds) -> (sum_list_with weight ds < weight dir)%nat) ->
  (weight [] <= fuel)%nat -> is_Some (collect fuel fs).
Proof.
  intros Hpos Hw Hf. unfold collect. destruct (walk_ends fs weight Hpos Hw fuel [[]] []) as [r Hr]; [cbn; lia|].
  rewrite Hr. destruct r; by eexists.
Qed.
