(* ===== verification/Tar.v ===== *)
(** * The artifact container ([src/src/artifact/tar.rs])

    The deterministic USTAR writer and its strict reader.  The sha256 library
    is the interface [Sha256]: a hasher that only depends on the bytes it was
    given, however they were cut.  A file being read is its bytes; I/O errors
    of the medium are not modelled.  The properties: a written member reads
    back, a header with a byte changed is rejected, and reading any file ends
    within its length. *)

From Stdlib Require Import ZArith Lia.
From stdpp Require Import base numbers strings list.
From S2P Require Import Prelude.
From S2P Require Import Text.
From S2P Require Import Utf8.
From S2P Require Import Io.

Open Scope Z_scope.

Definition BLOCK : nat := 512.
Definition MAX_MEMBER_SIZE : Z := 8589934591.

(** ** Errors *)

(** The causes of [Malformed] the code tells apart by message. *)
Inductive ArtifactError :=
  | ArtifactIo (what : string)
  | TruncatedHeader | BadMagic | BadChecksum | BadOctal (e : ParseIntError)
  | PastEnd (name : list Z) (size : Z) | TruncatedContent (name : list Z)
  | MemberTooLarge (name : list Z) (len : Z)
  | ManifestParse | ManifestSerialize | BadVersion (v : Z)
  | MissingMember (name : list Z) | NoRecord (name : list Z)
  | HashMismatch (name want got : list Z)
  | NoSuchFile (arg : list Z) | NoSuchName (name : list Z) (available : list (list Z)).

(** ** Hashing *)

Class Sha256 (H : Type) := {
  sha_new : H;
  sha_update : H -> list Z -> H;
  sha_finalize : H -> list Z;
  sha_update_app h a b : sha_update (sha_update h a) b = sha_update h (a ++ b);
  sha_update_nil h : sha_update h [] = h;
}.

(** [{b:02x}] for each byte. *)
Definition hex (bytes : list Z) : list Z := concat ((fun b => zero_pad 2 (hex_lower b)) <$> bytes).

Section hashing.
Context {H : Type} `{Sha256 H}.

Definition sha256_hex (bytes : list Z) : list Z := hex (sha_finalize (sha_update sha_new bytes)).

(** [file_sha256_hex]'s and [Entries::sha256]'s loop: pieces of at most [n]
    bytes, each at least a byte, so the length is enough fuel. *)
Fixpoint hash_pieces (fuel n : nat) (h : H) (bytes : list Z) : H :=
  match fuel, bytes with
  | S fuel, _ :: _ => hash_pieces fuel n (sha_update h (take n bytes)) (drop n bytes)
  | _, _ => h
  end.

Definition file_sha256_hex (file : list Z) : list Z :=
  hex (sha_finalize (hash_pieces (length file) (Z.to_nat (2 ^ 20)) sha_new file)).

(** A writer that hashes and counts what goes through it.  A failed write
    ends the use of it, so only writes that took everything are hashed. *)
Record HashingWriter (W : Type) := { inner : W; hasher : H; hw_len : Z }.
Arguments Build_HashingWriter {W}.
Arguments inner {W}.
Arguments hasher {W}.
Arguments hw_len {W}.

Definition hashing_new {W} (w : W) : HashingWriter W := Build_HashingWriter w sha_new 0.

Definition hashing_finish {W} (hw : HashingWriter W) : list Z * Z := (hex (sha_finalize (hasher hw)), hw_len hw).

#[export] Instance HashingWriter_Write {W} `{Write W} : Write (HashingWriter W) := {
  write_all bs hw :=
    match write_all bs (inner hw) with
    | (Ok _, w) => (Ok tt, Build_HashingWriter w (sha_update (hasher hw) bs) (as_u64 (hw_len hw + Z.of_nat (length bs))))
    | (Err e, w) => (Err e, Build_HashingWriter w (hasher hw) (hw_len hw))
    end;
  flush hw := let '(r, w) := flush (inner hw) in (r, Build_HashingWriter w (hasher hw) (hw_len hw));
}.

End hashing.
Arguments Build_HashingWriter {H W}.
Arguments inner {H W}.
Arguments hasher {H W}.
Arguments hw_len {H W}.

(** ** Writing *)

(** [h[off..off + len].copy_from_slice(bs)]. *)
Definition splice (off : nat) (bs h : list Z) : list Z := take off h ++ bs ++ drop (off + length bs) h.

(** The [digits + 1] bytes [write_octal] puts in a field. *)
Definition octal_field (val : Z) (digits : nat) : list Z := take digits (zero_pad digits (octal val)) ++ [0].

Definition write_octal (off : nat) (val : Z) (digits : nat) (h : list Z) : list Z := splice off (octal_field val digits) h.

Definition ustar_header (name : list Z) (size : Z) : list Z :=
  let h := replicate BLOCK 0 in
  let h := splice 0 name h in
  let h := write_octal 100 420 7 h in
  let h := write_octal 108 0 7 h in
  let h := write_octal 116 0 7 h in
  let h := write_octal 124 size 11 h in
  let h := write_octal 136 0 11 h in
  let h := splice 148 (replicate 8 32) h in
  let h := splice 156 [48] h in
  let h := splice 257 (lit "ustar" ++ [0]) h in
  let h := splice 263 (lit "00") h in
  let sum := sumZ h in
  let h := write_octal 148 sum 6 h in
  splice 155 [32] h.

Section writing.
Context {W : Type} `{Write W}.

Definition write_member (name data : list Z) : SE ArtifactError W unit :=
  map_err (fun _ => ArtifactIo "writing tar header") (write_all (ustar_header name (Z.of_nat (length data))));;
  map_err (fun _ => ArtifactIo "writing tar data") (write_all data);;
  let rem := (length data mod BLOCK)%nat in
  if (rem =? 0)%nat then mret tt
  else map_err (fun _ => ArtifactIo "writing tar padding") (write_all (replicate (BLOCK - rem) 0)).

Definition write_trailer : SE ArtifactError W unit :=
  map_err (fun _ => ArtifactIo "writing tar trailer") (write_all (replicate (BLOCK * 2) 0)).

End writing.

(** ** Reading *)

(** [data_offset] is private in the code. *)
Record Entry := { t_name : list Z; t_size : Z; t_offset : Z }.

Definition parse_str (field : list Z) : list Z :=
  let stop := default (length field) (position (fun b => b =? 0) field) in
  from_utf8_lossy (take stop field).

(** [trim_matches(|c| c == ' ' || c == '\0')]. *)
Definition pad_char (c : Z) : bool := (c =? 32) || (c =? 0).

Fixpoint trim_start (s : list Z) : list Z :=
  match s with c :: s' => if pad_char c then trim_start s' else s | [] => [] end.

Definition trim_matches (s : list Z) : list Z := reverse (trim_start (reverse (trim_start s))).

Definition parse_octal (field : list Z) : result ArtifactError Z :=
  let s := trim_matches (parse_str field) in
  match s with
  | [] => Ok 0
  | _ => match from_str_radix 64 8 s with Ok v => Ok v | Err e => Err (BadOctal e) end
  end.

(** The header at [off]; [None] at the end of the archive. *)
Definition read_header (file : list Z) (off : Z) : result ArtifactError (option Entry) :=
  let hdr := take BLOCK (drop (Z.to_nat off) file) in
  if (length hdr =? 0)%nat then Ok None
  else if (length hdr <? BLOCK)%nat then Err TruncatedHeader
  else if forallb (fun b => b =? 0) hdr then Ok None
  else if negb (bool_decide (slice 257 262 hdr = lit "ustar")) then Err BadMagic
  else
    stored ← parse_octal (slice 148 156 hdr);
    let probe := splice 148 (replicate 8 32) hdr in
    if negb (sumZ probe =? stored) then Err BadChecksum
    else
      let name := parse_str (slice 0 100 hdr) in
      size ← parse_octal (slice 124 136 hdr);
      Ok (Some {| t_name := name; t_size := size; t_offset := off + Z.of_nat BLOCK |}).

(** [Iterator::next]: the item and [next_header] after it. *)
Definition entries_next (file : list Z) (next_header : option Z) : option (result ArtifactError Entry) * option Z :=
  match next_header with
  | None => (None, None)
  | Some off =>
      match read_header file off with
      | Ok None => (None, None)
      | Ok (Some e) =>
          let padded := (t_size e + (Z.of_nat BLOCK - 1)) / Z.of_nat BLOCK * Z.of_nat BLOCK in
          (Some (Ok e), Some (as_u64 (t_offset e + as_u64 padded)))
      | Err err => (Some (Err err), None)
      end
  end.

Definition seek_to_content (file : list Z) (e : Entry) : result ArtifactError unit :=
  let stop := t_offset e + t_size e in
  if (2 ^ 64 <=? stop) || (Z.of_nat (length file) <? stop) then Err (PastEnd (t_name e) (t_size e)) else Ok tt.

Definition entry_read (file : list Z) (e : Entry) : result ArtifactError (list Z) :=
  seek_to_content file e;;
  let buf := take (Z.to_nat (t_size e)) (drop (Z.to_nat (t_offset e)) file) in
  if (length buf <? Z.to_nat (t_size e))%nat then Err (TruncatedContent (t_name e)) else Ok buf.

Definition entry_sha256 {H} `{Sha256 H} (file : list Z) (e : Entry) : result ArtifactError (list Z) :=
  seek_to_content file e;;
  let bytes := take (Z.to_nat (t_size e)) (drop (Z.to_nat (t_offset e)) file) in
  if (length bytes <? Z.to_nat (t_size e))%nat then Err (TruncatedContent (t_name e))
  else Ok (hex (sha_finalize (hash_pieces (length bytes) (Z.to_nat (2 ^ 16)) sha_new bytes))).

(** [while let Some(e) = entries.next().transpose()?]: [step] is the body; it
    may stop with a value ([inr]).  Every member moves the header at least a
    block on, so the length is enough fuel. *)
Fixpoint each_entry {St R} (fuel : nat) (file : list Z) (next_header : option Z)
    (step : St -> Entry -> result ArtifactError (St + R)) (s : St) : result ArtifactError (St + R) :=
  match fuel with
  | O => Ok (inl s)
  | S fuel =>
      match entries_next file next_header with
      | (None, _) => Ok (inl s)
      | (Some (Err e), _) => Err e
      | (Some (Ok e), next_header) =>
          r ← step s e;
          match r with
          | inl s => each_entry fuel file next_header step s
          | inr v => Ok (inr v)
          end
      end
  end.

Definition for_entries {St R} (file : list Z) (step : St -> Entry -> result ArtifactError (St + R)) (s : St) :
    result ArtifactError (St + R) :=
  each_entry (S (length file)) file (Some 0) step s.

(** ** Lemmas: hashing *)

Section hash_lemmas.
Context {H : Type} `{!Sha256 H}.

(** However the bytes are cut, the hash is the one of the whole. *)
Lemma hash_pieces_whole fuel n h bytes :
  (0 < n)%nat -> (length bytes <= fuel)%nat -> hash_pieces fuel n h bytes = sha_update h bytes.
Proof.
  intros Hn. revert h bytes. induction fuel as [|fuel IH]; intros h bytes Hl; cbn [hash_pieces].
  - destruct bytes; [by rewrite sha_update_nil|simpl in Hl; lia].
  - destruct bytes as [|b bytes]; [by rewrite sha_update_nil|].
    rewrite IH; [by rewrite sha_update_app, take_drop|]. rewrite length_drop. simpl in *. lia.
Qed.

Lemma file_sha256_whole file : file_sha256_hex file = sha256_hex file.
Proof. unfold file_sha256_hex, sha256_hex. by rewrite hash_pieces_whole by (change (2 ^ 20) with 1048576; lia). Qed.

End hash_lemmas.

(** ** Lemmas: the header's layout *)

Lemma splice_skip off k bs a r : off = (length a + k)%nat -> splice off bs (a ++ r) = a ++ splice k bs r.
Proof.
  intros ->. unfold splice. rewrite take_app_ge by lia. rewrite (drop_app_ge a) by lia.
  replace (length a + k - length a)%nat with k by lia.
  replace (length a + k + length bs - length a)%nat with (k + length bs)%nat by lia. by rewrite <- app_assoc.
Qed.

Lemma splice_here bs old r : length old = length bs -> splice 0 bs (old ++ r) = bs ++ r.
Proof. intros Hl. unfold splice. cbn [take app]. by rewrite drop_app_length' by lia. Qed.

Lemma splice_length off bs h : (off + length bs <= length h)%nat -> length (splice off bs h) = length h.
Proof. intros. unfold splice. rewrite !length_app, length_take, length_drop. lia. Qed.

Lemma slice_skip {A} a b k (l r : list A) : a = (length l + k)%nat -> slice a b (l ++ r) = slice k (b - length l) r.
Proof.
  intros ->. unfold slice. rewrite drop_app_ge by lia.
  replace (length l + k - length l)%nat with k by lia. f_equal. lia.
Qed.

Lemma slice_here {A} b (l r : list A) : length l = b -> slice 0 b (l ++ r) = l.
Proof. intros <-. unfold slice. rewrite Nat.sub_0_r, drop_0. by rewrite take_app_length. Qed.

Lemma octal_pad_length v n : (0 < n)%nat -> 0 <= v < 8 ^ Z.of_nat n -> length (zero_pad n (octal v)) = n.
Proof. intros. rewrite zero_pad_length. pose proof (radix_length 97 8 v n). unfold octal. lia. Qed.

Lemma octal_field_length v n : length (octal_field v n) = S n.
Proof.
  unfold octal_field. rewrite length_app, length_take, zero_pad_length. simpl. lia.
Qed.

Lemma octal_field_fits v n : (0 < n)%nat -> 0 <= v < 8 ^ Z.of_nat n -> octal_field v n = zero_pad n (octal v) ++ [0].
Proof. intros. unfold octal_field. rewrite take_ge; [done|]. rewrite octal_pad_length by done. lia. Qed.

(** The fields of a header, in order; the checksum field is given. *)
Definition layout (name : list Z) (size : Z) (chk : list Z) : list Z :=
  (name ++ replicate (100 - length name) 0) ++ (octal_field 420 7 ++ octal_field 0 7 ++ octal_field 0 7) ++
  octal_field size 11 ++ octal_field 0 11 ++ chk ++ ([48] ++ replicate 100 0) ++ (lit "ustar" ++ [0]) ++ lit "00" ++
  replicate 247 0.

Definition header_sum (name : list Z) (size : Z) : Z := sumZ (layout name size (replicate 8 32)).
Definition header_chk (name : list Z) (size : Z) : list Z := octal_field (header_sum name size) 6 ++ [32].

Lemma ustar_header_layout name size :
  (length name <= 100)%nat -> ustar_header name size = layout name size (header_chk name size).
Proof.
  intros Hn. unfold ustar_header, write_octal, BLOCK.
  replace (replicate 512 0) with (replicate (length name) 0 ++ replicate (100 - length name) 0 ++ replicate 412 0)
    by (rewrite <- !replicate_add; f_equal; lia).
  rewrite splice_here by by rewrite length_replicate.
  set (N := name ++ replicate (100 - length name) 0).
  assert (HN : length N = 100%nat) by (unfold N; rewrite length_app, length_replicate; lia).
  replace (name ++ replicate (100 - length name) 0 ++ replicate 412 0) with (N ++ replicate 412 0)
    by (unfold N; by rewrite <- app_assoc).
  set (M := octal_field 420 7 ++ octal_field 0 7 ++ octal_field 0 7).
  rewrite (splice_skip 100 0), (splice_skip 108 8), (splice_skip 116 16) by lia.
  replace (splice 16 _ _) with (M ++ replicate 12 0 ++ replicate 376 0) by (vm_compute; reflexivity).
  rewrite (splice_skip 124 24) by lia. rewrite (splice_skip 24 0 _ M) by done.
  rewrite splice_here by by rewrite octal_field_length.
  set (Sz := octal_field size 11). assert (HS : length Sz = 12%nat) by apply octal_field_length.
  set (R := ([48] ++ replicate 100 0) ++ (lit "ustar" ++ [0]) ++ lit "00" ++ replicate 247 0).
  assert (forall off k bs r, off = (136 + k)%nat -> splice off bs (N ++ M ++ Sz ++ r) = N ++ M ++ Sz ++ splice k bs r) as Hskip.
  { intros off k bs r ->. rewrite (splice_skip _ (36 + k)) by lia. rewrite (splice_skip _ (12 + k) _ M) by (change (length M) with 24%nat; lia).
    by rewrite (splice_skip _ k) by lia. }
  rewrite (Hskip 136%nat 0%nat), (Hskip 148%nat 12%nat), (Hskip 156%nat 20%nat), (Hskip 257%nat 121%nat), (Hskip 263%nat 127%nat) by lia.
  replace (splice 127 _ _) with (octal_field 0 11 ++ replicate 8 32 ++ R) by (vm_compute; reflexivity).
  fold (layout name size (replicate 8 32)) in *.
  change (N ++ M ++ Sz ++ octal_field 0 11 ++ replicate 8 32 ++ R) with (layout name size (replicate 8 32)).
  fold (header_sum name size). unfold layout. fold N M Sz R.
  rewrite (Hskip 148%nat 12%nat), (Hskip 155%nat 19%nat) by lia. unfold header_chk.
  rewrite (splice_skip 12 0) by (rewrite octal_field_length; lia).
  change (replicate 8 32) with (replicate 7 32 ++ [32]). rewrite <- app_assoc.
  rewrite splice_here by by rewrite octal_field_length.
  rewrite (splice_skip 19 7) by by rewrite octal_field_length. rewrite (splice_skip 7 0) by by rewrite octal_field_length.
  rewrite splice_here by done. by rewrite <- app_assoc.
Qed.

(** ** Lemmas: fields *)

Lemma layout_length name size chk :
  (length name <= 100)%nat -> length chk = 8%nat -> length (layout name size chk) = BLOCK.
Proof.
  intros Hn Hc. unfold layout, BLOCK. rewrite !length_app, !octal_field_length, !length_replicate, Hc.
  change (length (lit "ustar")) with 5%nat. change (length (lit "00")) with 2%nat. simpl length. lia.
Qed.

Lemma header_length name size : (length name <= 100)%nat -> length (ustar_header name size) = BLOCK.
Proof.
  intros Hn. rewrite ustar_header_layout by done. apply layout_length; [done|].
  unfold header_chk. by rewrite length_app, octal_field_length.
Qed.

(** Text up to a NUL is the text. *)
Lemma position_nul s rest : Forall (fun c => c <> 0) s -> position (fun b => b =? 0) (s ++ 0 :: rest) = Some (length s).
Proof.
  induction 1 as [|c s Hc _ IH]; [done|]. cbn [app position length].
  rewrite (proj2 (Z.eqb_neq _ _)) by done. by rewrite IH.
Qed.

Lemma parse_str_nul s rest :
  Forall (fun c => c <> 0) s -> from_utf8_ok s = true -> parse_str (s ++ 0 :: rest) = s.
Proof.
  intros Hs Hu. unfold parse_str. rewrite position_nul by done. cbn [from_option id].
  rewrite take_app_length. by apply from_utf8_ok_lossy.
Qed.

Lemma parse_str_full s : Forall (fun c => c <> 0) s -> from_utf8_ok s = true -> parse_str s = s.
Proof.
  intros Hs Hu. unfold parse_str. destruct (position _ s) as [i|] eqn:E.
  - apply position_Some in E as [(x & Hx & Hp) _]. bool_prop. subst. by eapply Forall_lookup_1 in Hs.
  - cbn [from_option id]. rewrite take_ge by done. by apply from_utf8_ok_lossy.
Qed.

Lemma trim_start_digits s : Forall (fun c => 48 <= c) s -> trim_start s = s.
Proof.
  destruct 1 as [|c s Hc _]; [done|]. cbn [trim_start]. unfold pad_char.
  rewrite !(proj2 (Z.eqb_neq c _)) by lia. done.
Qed.

Lemma trim_matches_digits s : Forall (fun c => 48 <= c) s -> trim_matches s = s.
Proof.
  intros Hs. unfold trim_matches. rewrite (trim_start_digits s) by done.
  rewrite trim_start_digits by by apply Forall_reverse. apply reverse_involutive.
Qed.

Lemma octal_pad_range v n : Forall (fun c => 48 <= c <= 122) (zero_pad n (octal v)).
Proof. apply Forall_app. split; [apply Forall_replicate; lia|]. apply radix_range; [by left|lia]. Qed.

(** A number printed into a field is the number read from it. *)
Lemma parse_octal_field v n rest :
  (0 < n)%nat -> 0 <= v < 8 ^ Z.of_nat n -> fits 64 v -> parse_octal (octal_field v n ++ rest) = Ok v.
Proof.
  intros Hn Hv Hf. rewrite octal_field_fits by done. rewrite <- app_assoc. cbn [app].
  pose proof (octal_pad_range v n) as Hr. unfold parse_octal, parse_str.
  rewrite position_nul by (eapply Forall_impl; [exact Hr|]; cbn beta; intros; lia). cbn [from_option id].
  rewrite take_app_length, from_utf8_lossy_ascii by (eapply Forall_impl; [exact Hr|]; cbn beta; intros; lia).
  rewrite trim_matches_digits by (eapply Forall_impl; [exact Hr|]; cbn beta; intros; lia).
  pose proof (octal_pad_length v n Hn Hv) as Hl.
  destruct (zero_pad n (octal v)) as [|c s] eqn:E; [simpl in Hl; lia|]. rewrite <- E.
  unfold octal. by rewrite radix_roundtrip by (done || lia || by left).
Qed.

Lemma sumZ_bytes bs : bytes_ok bs -> 0 <= sumZ bs <= 255 * Z.of_nat (length bs).
Proof. unfold sumZ. induction 1 as [|b bs Hb _ IH]; [simpl; lia|]. unfold fits in Hb. cbn [foldr length]. lia. Qed.

Lemma octal_field_bytes v n : bytes_ok (octal_field v n).
Proof.
  apply Forall_app. split; [|by apply Forall_singleton].
  apply Forall_take. eapply Forall_impl; [apply octal_pad_range|]. unfold fits. cbn beta. lia.
Qed.

Lemma layout_bytes name size chk : bytes_ok name -> bytes_ok chk -> bytes_ok (layout name size chk).
Proof.
  intros Hn Hc. assert (Hl : bytes_ok ((lit "ustar" ++ [0]) ++ lit "00")) by (by repeat constructor).
  assert (Hz : forall k, bytes_ok (replicate k 0)) by (intros k; by apply Forall_replicate).
  apply Forall_app in Hl as [Hu Hv]. unfold layout, bytes_ok. rewrite !Forall_app, Forall_singleton.
  rewrite Forall_app in Hu. unfold bytes_ok in Hz. repeat split; try apply octal_field_bytes; try apply Hz; apply Hu || done.
Qed.

(** ** What a header must be *)

(** A name the container can hold: [ustar_header]'s assertion, and no NUL. *)
Definition name_ok (name : list Z) : Prop :=
  (length name <= 100)%nat /\ Forall (fun c => c <> 0) name /\ bytes_ok name /\ from_utf8_ok name = true.

#[export] Instance name_ok_dec name : Decision (name_ok name).
Proof. unfold name_ok, bytes_ok, fits. apply _. Defined.

Lemma header_sum_range name size : name_ok name -> 0 <= header_sum name size < 8 ^ 6.
Proof.
  intros (Hn & _ & Hb & _). pose proof (sumZ_bytes (layout name size (replicate 8 32))
    (layout_bytes name size (replicate 8 32) Hb ltac:(by apply Forall_replicate))) as Hs.
  rewrite layout_length in Hs by (done || by rewrite length_replicate). unfold header_sum, BLOCK in *. lia.
Qed.

Lemma slice_chk name size chk : (length name <= 100)%nat -> length chk = 8%nat -> slice 148 156 (layout name size chk) = chk.
Proof.
  intros Hn Hc. unfold layout. rewrite (slice_skip _ _ 48) by (rewrite length_app, length_replicate; lia).
  rewrite (slice_skip _ _ 24) by (rewrite !length_app, !octal_field_length; lia).
  rewrite (slice_skip _ _ 12) by by rewrite octal_field_length. rewrite (slice_skip _ _ 0) by by rewrite octal_field_length.
  rewrite slice_here; [done|]. rewrite !length_app, !octal_field_length, length_replicate. lia.
Qed.

Lemma slice_size name size chk : (length name <= 100)%nat -> slice 124 136 (layout name size chk) = octal_field size 11.
Proof.
  intros Hn. unfold layout. rewrite (slice_skip _ _ 24) by (rewrite length_app, length_replicate; lia).
  rewrite (slice_skip _ _ 0) by (rewrite !length_app, !octal_field_length; lia).
  rewrite slice_here; [done|]. rewrite !length_app, !octal_field_length, length_replicate. lia.
Qed.

Lemma slice_magic name size chk :
  (length name <= 100)%nat -> length chk = 8%nat -> slice 257 262 (layout name size chk) = lit "ustar".
Proof.
  intros Hn Hc. unfold layout. rewrite (slice_skip _ _ 157) by (rewrite length_app, length_replicate; lia).
  rewrite (slice_skip _ _ 133) by (rewrite !length_app, !octal_field_length; lia).
  rewrite (slice_skip _ _ 121) by by rewrite octal_field_length. rewrite (slice_skip _ _ 109) by by rewrite octal_field_length.
  rewrite (slice_skip _ _ 101) by lia. rewrite (slice_skip _ _ 0) by done. rewrite <- app_assoc.
  rewrite slice_here; [done|]. rewrite !length_app, !octal_field_length, !length_replicate, Hc. simpl. lia.
Qed.

Lemma slice_name name size chk :
  (length name <= 100)%nat -> slice 0 100 (layout name size chk) = name ++ replicate (100 - length name) 0.
Proof. intros Hn. unfold layout. rewrite slice_here; [done|]. rewrite length_app, length_replicate. lia. Qed.

Lemma splice_chk name size chk chk' : (length name <= 100)%nat -> length chk = 8%nat -> length chk' = 8%nat ->
  splice 148 chk' (layout name size chk) = layout name size chk'.
Proof.
  intros Hn Hc Hc'. unfold layout. rewrite (splice_skip _ 48) by (rewrite length_app, length_replicate; lia).
  rewrite (splice_skip _ 24) by (rewrite !length_app, !octal_field_length; lia).
  rewrite (splice_skip _ 12) by by rewrite octal_field_length. rewrite (splice_skip _ 0) by by rewrite octal_field_length.
  by rewrite splice_here by lia.
Qed.

Lemma parse_name name : name_ok name -> parse_str (name ++ replicate (100 - length name) 0) = name.
Proof.
  intros (Hn & Hz & _ & Hu). destruct (100 - length name)%nat as [|k].
  - rewrite app_nil_r. by apply parse_str_full.
  - cbn [replicate]. by apply parse_str_nul.
Qed.

Definition header_at (file : list Z) (off : Z) : list Z := take BLOCK (drop (Z.to_nat off) file).

Lemma magic_not_zero hdr : slice 257 262 hdr = lit "ustar" -> forallb (fun b => b =? 0) hdr = false.
Proof.
  intros Hm. destruct (forallb _ hdr) eqn:E; [|done]. apply Is_true_true, forallb_True in E.
  assert (Forall (fun b => (b =? 0) = true) (slice 257 262 hdr)) as Hf.
  { unfold slice. apply Forall_take, Forall_drop. eapply Forall_impl; [exact E|]. intros x Hx. by apply Is_true_true in Hx. }
  rewrite Hm in Hf. apply Forall_cons in Hf as [Hf _]. by vm_compute in Hf.
Qed.

(** Reading a written header gives its name and size. *)
Lemma read_written_header file off name size :
  name_ok name -> 0 <= size <= MAX_MEMBER_SIZE -> header_at file off = ustar_header name size ->
  read_header file off = Ok (Some {| t_name := name; t_size := size; t_offset := off + Z.of_nat BLOCK |}).
Proof.
  intros Hn Hs Hh. pose proof Hn as (Hl & _ & _ & _). unfold read_header. fold (header_at file off). rewrite Hh.
  assert (Hc : length (header_chk name size) = 8%nat) by (unfold header_chk; by rewrite length_app, octal_field_length).
  rewrite header_length by done. cbn [Nat.eqb Nat.ltb Nat.leb BLOCK]. rewrite ustar_header_layout by done.
  rewrite magic_not_zero by by rewrite slice_magic. rewrite slice_magic by done. cbn [negb bool_decide].
  rewrite bool_decide_true by done. cbn [negb]. rewrite slice_chk by done.
  pose proof (header_sum_range name size Hn) as Hsum. unfold header_chk.
  assert (8 ^ 6 < 2 ^ 64) by by vm_compute.
  rewrite parse_octal_field; [|lia|done|unfold fits; lia]. cbn [mbind result_bind].
  fold (header_chk name size). rewrite splice_chk by (done || by rewrite length_replicate).
  fold (header_sum name size). rewrite Z.eqb_refl. cbn [negb]. rewrite slice_name, slice_size by done.
  rewrite <- (app_nil_r (octal_field size 11)).
  unfold MAX_MEMBER_SIZE in Hs. rewrite parse_octal_field; [|lia|change (8 ^ Z.of_nat 11) with 8589934592; lia|unfold fits; lia].
  cbn [mbind result_bind]. by rewrite parse_name.
Qed.

(** ** The archive a writer makes *)

(** The bytes of a member as the format describes them: header, content, zero
    padding to the block. *)
Definition padding (len : nat) : list Z := replicate ((BLOCK - len mod BLOCK) mod BLOCK) 0.

Definition member_bytes (m : list Z * list Z) : list Z :=
  ustar_header m.1 (Z.of_nat (length m.2)) ++ m.2 ++ padding (length m.2).

Definition archive (ms : list (list Z * list Z)) : list Z := concat (member_bytes <$> ms) ++ replicate (BLOCK * 2) 0.

Definition member_ok (m : list Z * list Z) : Prop := name_ok m.1 /\ Z.of_nat (length m.2) <= MAX_MEMBER_SIZE.

#[export] Instance member_ok_dec m : Decision (member_ok m).
Proof. unfold member_ok. apply _. Defined.

Lemma padding_length len :
  Z.of_nat (len + length (padding len)) = (Z.of_nat len + (Z.of_nat BLOCK - 1)) / Z.of_nat BLOCK * Z.of_nat BLOCK.
Proof.
  unfold padding. rewrite length_replicate, Nat2Z.inj_add, Nat2Z.inj_mod, Nat2Z.inj_sub by (unfold BLOCK; pose proof (Nat.mod_upper_bound len 512); lia).
  rewrite Nat2Z.inj_mod. change (Z.of_nat BLOCK) with 512. Z.div_mod_to_equations. lia.
Qed.

Lemma pad_rem len : (if (len mod BLOCK =? 0)%nat then [] else replicate (BLOCK - len mod BLOCK) 0) = padding len.
Proof.
  unfold padding. destruct (Nat.eqb_spec (len mod BLOCK) 0) as [E|E].
  - by rewrite E.
  - rewrite (Nat.mod_small (BLOCK - _)); [done|]. pose proof (Nat.mod_upper_bound len BLOCK ltac:(done)). unfold BLOCK in *. lia.
Qed.

(** What a run of writes does to a sink, for any account [R s bs s'] of the
    bytes between two states that [write_all] keeps. *)
Section write_lemmas.
Context {W : Type} `{!Write W} (sound : W -> bool) (R : W -> list Z -> W -> Prop).
Context (R_nil : forall s, R s [] s) (R_app : forall s a s1 b s2, R s a s1 -> R s1 b s2 -> R s (a ++ b) s2).
Context (R_write : forall bs s r s', write_all bs s = (r, s') -> sound s' = true -> r = Ok tt /\ sound s = true /\ R s bs s').

(** A run that leaves the sink sound succeeded and wrote just [bs]. *)
Definition writes {E} (m : SE E W unit) (bs : list Z) : Prop :=
  forall s r s', m s = (r, s') -> sound s' = true -> r = Ok tt /\ sound s = true /\ R s bs s'.

Lemma writes_all {E} (f : unit -> E) bs : writes (map_err f (write_all bs)) bs.
Proof.
  intros s r s'. unfold map_err. destruct (write_all bs s) as [[[]|e] s1] eqn:Ew; intros [= <- <-] Hi;
    apply R_write in Ew as (Hr & ? & ?); done.
Qed.

Lemma writes_ret {E} : writes (mret tt : SE E W unit) [].
Proof. intros s r s' [= <- <-] Hi. by split. Qed.

Lemma writes_bind {E} (m k : SE E W unit) a b : writes m a -> writes k b -> writes (m;; k) (a ++ b).
Proof.
  intros Hm Hk s r s'. unfold mbind, SE_bind. destruct (m s) as [[[]|e] s1] eqn:Em; intros Hr Hi.
  - destruct (Hk _ _ _ Hr Hi) as (-> & Hi1 & ?). destruct (Hm _ _ _ Em Hi1) as (_ & ? & ?). by eauto.
  - simplify_eq. by destruct (Hm _ _ _ Em Hi).
Qed.

Lemma write_member_writes name data : writes (write_member name data) (member_bytes (name, data)).
Proof.
  unfold write_member, member_bytes. cbn [fst snd]. repeat (apply writes_bind; [apply writes_all|]).
  rewrite <- pad_rem. destruct (_ =? _)%nat; [apply writes_ret|apply writes_all].
Qed.

Lemma write_trailer_writes : writes write_trailer (replicate (BLOCK * 2) 0).
Proof. apply writes_all. Qed.

End write_lemmas.

(** A hashing writer accounts for what reached the sink under it. *)
Section hashing_lemmas.
Context {H W : Type} `{!Sha256 H, !Write W, !WriteLaws W}.

Definition hw_sound (hw : HashingWriter (H := H) W) : bool := intact (inner hw).

Definition hw_grows (hw : HashingWriter (H := H) W) (bs : list Z) (hw' : HashingWriter (H := H) W) : Prop :=
  written (inner hw') = written (inner hw) ++ bs /\ hasher hw' = sha_update (hasher hw) bs /\
  (0 <= hw_len hw -> hw_len hw + Z.of_nat (length bs) < 2 ^ 64 -> hw_len hw' = hw_len hw + Z.of_nat (length bs)).

Lemma hw_grows_nil hw : hw_grows hw [] hw.
Proof. split; [by rewrite app_nil_r|]. split; [by rewrite sha_update_nil|]. simpl. lia. Qed.

Lemma hw_grows_app hw a hw1 b hw2 : hw_grows hw a hw1 -> hw_grows hw1 b hw2 -> hw_grows hw (a ++ b) hw2.
Proof.
  intros (Hw1 & Hh1 & Hl1) (Hw2 & Hh2 & Hl2). split; [by rewrite Hw2, Hw1, app_assoc|].
  split; [by rewrite Hh2, Hh1, sha_update_app|]. rewrite length_app, Nat2Z.inj_add. intros. rewrite Hl2 by lia. lia.
Qed.

Lemma hw_write_grows bs hw r hw' : write_all bs hw = (r, hw') -> hw_sound hw' = true ->
  r = Ok tt /\ hw_sound hw = true /\ hw_grows hw bs hw'.
Proof.
  cbn [write_all HashingWriter_Write]. unfold hw_sound. destruct (write_all bs (inner hw)) as [[[]|e] w1] eqn:Ew; intros [= <- <-] Hi;
    cbn [inner] in Hi; apply write_all_law in Ew as (? & ? & Hw); try done.
  split; [done|]. split; [done|]. split; [exact Hw|]. split; [done|]. cbn [hw_len]. intros. rewrite as_u64_id; [done|]. unfold fits. lia.
Qed.

End hashing_lemmas.

(** ** Reading an archive back *)

(** The entries of an archive that starts at [off]. *)
Fixpoint entries_at (off : Z) (ms : list (list Z * list Z)) : list Entry :=
  match ms with
  | [] => []
  | m :: ms =>
      {| t_name := m.1; t_size := Z.of_nat (length m.2); t_offset := off + Z.of_nat BLOCK |}
        :: entries_at (off + Z.of_nat (length (member_bytes m))) ms
  end.

(** What a loop over the entries of a well-formed archive does. *)
Fixpoint run_entries {St R} (step : St -> Entry -> result ArtifactError (St + R)) (s : St) (es : list Entry) :
    result ArtifactError (St + R) :=
  match es with
  | [] => Ok (inl s)
  | e :: es => r ← step s e; match r with inl s => run_entries step s es | inr v => Ok (inr v) end
  end.

Lemma header_at_app pre rest off : Z.of_nat (length pre) = off -> header_at (pre ++ rest) off = take BLOCK rest.
Proof. intros <-. unfold header_at. by rewrite Nat2Z.id, drop_app_length. Qed.

Lemma read_header_member pre m rest off :
  Z.of_nat (length pre) = off -> member_ok m ->
  read_header (pre ++ member_bytes m ++ rest) off =
    Ok (Some {| t_name := m.1; t_size := Z.of_nat (length m.2); t_offset := off + Z.of_nat BLOCK |}).
Proof.
  intros Hoff [Hn Hs]. apply read_written_header; [done|lia|]. rewrite header_at_app by done.
  unfold member_bytes. rewrite <- app_assoc. apply take_app_length'. by rewrite header_length by apply Hn.
Qed.

Lemma read_header_trailer pre off : Z.of_nat (length pre) = off -> read_header (pre ++ replicate (BLOCK * 2) 0) off = Ok None.
Proof. intros Hoff. unfold read_header. fold (header_at (pre ++ replicate (BLOCK * 2) 0) off). by rewrite header_at_app. Qed.

Lemma member_bytes_length m : member_ok m ->
  Z.of_nat (length (member_bytes m)) =
    Z.of_nat BLOCK + (Z.of_nat (length m.2) + (Z.of_nat BLOCK - 1)) / Z.of_nat BLOCK * Z.of_nat BLOCK.
Proof.
  intros [Hn _]. unfold member_bytes. rewrite !length_app, header_length by apply Hn.
  rewrite Nat2Z.inj_add. by rewrite padding_length.
Qed.

(** A loop over a written archive visits its members, in order, and ends. *)
Lemma each_entry_archive {St R} (step : St -> Entry -> result ArtifactError (St + R)) ms pre fuel s :
  Forall member_ok ms -> (length ms < fuel)%nat -> Z.of_nat (length (pre ++ archive ms)) < 2 ^ 64 ->
  each_entry fuel (pre ++ archive ms) (Some (Z.of_nat (length pre))) step s =
    run_entries step s (entries_at (Z.of_nat (length pre)) ms).
Proof.
  intros Hms. revert pre fuel s. induction Hms as [|m ms Hm Hms IH]; intros pre fuel s Hf Hl.
  { destruct fuel; [simpl in Hf; lia|]. cbn [each_entry entries_next]. unfold archive. cbn [fmap list_fmap concat app].
    by rewrite read_header_trailer. }
  destruct fuel as [|fuel]; [simpl in Hf; lia|]. simpl in Hf. cbn [each_entry entries_next entries_at run_entries].
  assert (Ha : archive (m :: ms) = member_bytes m ++ archive ms) by (unfold archive; cbn [fmap list_fmap concat]; by rewrite <- app_assoc).
  rewrite Ha in *. rewrite read_header_member by done. cbn [t_size t_offset].
  pose proof (member_bytes_length m Hm) as Hml.
  set (P := (Z.of_nat (length m.2) + (Z.of_nat BLOCK - 1)) / Z.of_nat BLOCK * Z.of_nat BLOCK) in *.
  assert (0 <= P) by (unfold P, BLOCK; Z.div_mod_to_equations; lia).
  rewrite as_u64_add_r. rewrite !length_app in Hl. unfold BLOCK in Hml.
  rewrite as_u64_id by (unfold fits, BLOCK; lia).
  replace (Z.of_nat (length pre) + Z.of_nat BLOCK + P) with (Z.of_nat (length (pre ++ member_bytes m)))
    by (rewrite length_app; unfold BLOCK; lia).
  replace (Z.of_nat (length pre) + Z.of_nat (length (member_bytes m))) with (Z.of_nat (length (pre ++ member_bytes m)))
    by (rewrite length_app; lia).
  destruct (step s _) as [[s1|v]|e]; [|done|done]. cbn [mbind result_bind].
  rewrite app_assoc. apply IH; [lia|]. rewrite !length_app. lia.
Qed.

Lemma archive_length ms : Forall member_ok ms -> (BLOCK * 2 + length ms <= length (archive ms))%nat.
Proof.
  unfold archive. rewrite length_app, length_replicate. induction 1 as [|m ms [Hm _] _ IH]; [simpl; lia|].
  cbn [fmap list_fmap concat length]. rewrite length_app. unfold member_bytes at 1.
  rewrite length_app, header_length by apply Hm. unfold BLOCK in *. lia.
Qed.

Lemma for_entries_archive {St R} (step : St -> Entry -> result ArtifactError (St + R)) ms s :
  Forall member_ok ms -> Z.of_nat (length (archive ms)) < 2 ^ 64 ->
  for_entries (archive ms) step s = run_entries step s (entries_at 0 ms).
Proof.
  intros Hms Hl. unfold for_entries. apply (each_entry_archive step ms []); [done| |done].
  pose proof (archive_length ms Hms). simpl app. lia.
Qed.

(** The entry describes where its content is. *)
Definition describes (file : list Z) (e : Entry) (m : list Z * list Z) : Prop :=
  t_name e = m.1 /\ t_size e = Z.of_nat (length m.2) /\
  exists pre rest, file = pre ++ m.2 ++ rest /\ t_offset e = Z.of_nat (length pre).

Lemma entries_describe ms pre : Forall member_ok ms ->
  Forall2 (describes (pre ++ archive ms)) (entries_at (Z.of_nat (length pre)) ms) ms.
Proof.
  intros Hms. revert pre. induction Hms as [|m ms [Hn Hs] Hms IH]; intros pre; [constructor|]. cbn [entries_at].
  assert (Ha : archive (m :: ms) = member_bytes m ++ archive ms) by (unfold archive; cbn [fmap list_fmap concat]; by rewrite <- app_assoc).
  rewrite Ha. constructor.
  - split; [done|]. split; [done|]. exists (pre ++ ustar_header m.1 (Z.of_nat (length m.2))), (padding (length m.2) ++ archive ms).
    split; [by unfold member_bytes; rewrite <- !app_assoc|]. cbn [t_offset]. rewrite length_app, header_length by apply Hn. lia.
  - rewrite app_assoc. specialize (IH (pre ++ member_bytes m)). rewrite length_app, Nat2Z.inj_add in IH. exact IH.
Qed.

Lemma entry_read_describes file e m : describes file e m -> Z.of_nat (length file) < 2 ^ 64 -> entry_read file e = Ok m.2.
Proof.
  intros (Hn & Hs & pre & rest & -> & Ho) Hl. unfold entry_read, seek_to_content. rewrite Hs, Ho, !Nat2Z.id.
  rewrite !length_app in *. rewrite (proj2 (Z.leb_gt _ _)), (proj2 (Z.ltb_ge _ _)) by lia. cbn [orb mbind result_bind].
  rewrite drop_app_length, take_app_length. by rewrite Nat.ltb_irrefl.
Qed.

Lemma entry_sha256_describes {H} `{!Sha256 H} file e m :
  describes file e m -> Z.of_nat (length file) < 2 ^ 64 -> entry_sha256 file e = Ok (sha256_hex m.2).
Proof.
  intros (Hn & Hs & pre & rest & -> & Ho) Hl. unfold entry_sha256, seek_to_content. rewrite Hs, Ho, !Nat2Z.id.
  rewrite !length_app in *. rewrite (proj2 (Z.leb_gt _ _)), (proj2 (Z.ltb_ge _ _)) by lia. cbn [orb mbind result_bind].
  rewrite drop_app_length, take_app_length, Nat.ltb_irrefl. unfold sha256_hex. by rewrite hash_pieces_whole by (change (2 ^ 16) with 65536; lia).
Qed.

(** ** Corruption *)

Lemma sumZ_insert l i x y : l !! i = Some x -> sumZ (<[i := y]> l) = sumZ l + (y - x).
Proof.
  intros Hi. rewrite <- (take_drop_middle l i x Hi) at 2. rewrite insert_take_drop by by eapply lookup_lt_Some.
  rewrite !sumZ_app. unfold sumZ. cbn [foldr]. lia.
Qed.

Lemma splice_insert off bs h i x :
  (i < off)%nat \/ (off + length bs <= i)%nat -> (off + length bs <= length h)%nat -> (i < length h)%nat ->
  splice off bs (<[i := x]> h) = <[i := x]> (splice off bs h).
Proof.
  intros Hi Hl Hh. unfold splice. destruct Hi as [Hi|Hi].
  - rewrite take_insert_lt, drop_insert_lt by lia. rewrite insert_app_l; [done|]. rewrite length_take. lia.
  - rewrite take_insert_ge, drop_insert_ge by lia.
    rewrite insert_app_r_alt by (rewrite length_take; lia). rewrite insert_app_r_alt by (rewrite length_take; lia).
    do 3 f_equal. rewrite length_take. lia.
Qed.

Lemma splice_insert_inside off bs h i x :
  (off <= i < off + length bs)%nat -> splice off bs (<[i := x]> h) = splice off bs h.
Proof. intros Hi. unfold splice. by rewrite take_insert_ge, drop_insert_lt by lia. Qed.

Lemma splice_lookup off bs h i :
  (i < off)%nat \/ (off + length bs <= i)%nat -> (off + length bs <= length h)%nat -> splice off bs h !! i = h !! i.
Proof.
  intros Hi Hl. unfold splice. destruct Hi as [Hi|Hi].
  - rewrite lookup_app_l by (rewrite length_take; lia). rewrite lookup_take_lt by done. done.
  - rewrite lookup_app_r by (rewrite length_take; lia). rewrite length_take, lookup_app_r by lia.
    rewrite lookup_drop. f_equal. lia.
Qed.

Lemma slice_insert {A} a b i (x : A) l : (i < a)%nat \/ (b <= i)%nat -> slice a b (<[i := x]> l) = slice a b l.
Proof.
  intros Hi. unfold slice. destruct (decide (i < a)%nat); [by rewrite drop_insert_lt by lia|].
  rewrite drop_insert_ge by lia. by rewrite take_insert_ge by lia.
Qed.

(** The header's bytes, once [read_header] has a whole block. *)
Definition parse_header (off : Z) (hdr : list Z) : result ArtifactError (option Entry) :=
  if forallb (fun b => b =? 0) hdr then Ok None
  else if negb (bool_decide (slice 257 262 hdr = lit "ustar")) then Err BadMagic
  else
    stored ← parse_octal (slice 148 156 hdr);
    if negb (sumZ (splice 148 (replicate 8 32) hdr) =? stored) then Err BadChecksum
    else
      size ← parse_octal (slice 124 136 hdr);
      Ok (Some {| t_name := parse_str (slice 0 100 hdr); t_size := size; t_offset := off + Z.of_nat BLOCK |}).

Lemma read_header_block file off :
  read_header file off =
    if (length (header_at file off) =? 0)%nat then Ok None
    else if (length (header_at file off) <? BLOCK)%nat then Err TruncatedHeader
    else parse_header off (header_at file off).
Proof. done. Qed.

Lemma parse_header_inv off hdr e : parse_header off hdr = Ok (Some e) ->
  slice 257 262 hdr = lit "ustar" /\
  parse_octal (slice 148 156 hdr) = Ok (sumZ (splice 148 (replicate 8 32) hdr)) /\
  parse_octal (slice 124 136 hdr) = Ok (t_size e) /\ t_name e = parse_str (slice 0 100 hdr) /\ t_offset e = off + Z.of_nat BLOCK.
Proof.
  unfold parse_header. destruct (forallb _ _); [done|]. destruct (bool_decide_reflect (slice 257 262 hdr = lit "ustar")) as [Hm|]; [|done].
  cbn [negb]. destruct (parse_octal (slice 148 156 hdr)) as [stored|]; [|done]. cbn [mbind result_bind].
  destruct (negb _) eqn:E; [done|]. bool_prop. destruct (parse_octal (slice 124 136 hdr)) as [size|]; [|done].
  intros [= <-]. by subst.
Qed.

Lemma read_header_inv file off e : read_header file off = Ok (Some e) ->
  length (header_at file off) = BLOCK /\ parse_header off (header_at file off) = Ok (Some e).
Proof.
  rewrite read_header_block. destruct (_ =? _)%nat; [done|]. destruct (Nat.ltb_spec (length (header_at file off)) BLOCK); [done|].
  intros ->. split; [|done]. revert H. unfold header_at. rewrite length_take. lia.
Qed.

Lemma header_at_insert file off i b :
  0 <= off -> (i < BLOCK)%nat -> header_at (<[(Z.to_nat off + i)%nat := b]> file) off = <[i := b]> (header_at file off).
Proof.
  intros Ho Hi. unfold header_at. rewrite drop_insert_ge by lia. rewrite take_insert_lt by lia. f_equal. lia.
Qed.

(** One changed byte cannot make a header look like the end marker. *)
Lemma magic_damaged hdr i b : slice 257 262 hdr = lit "ustar" -> forallb (fun b => b =? 0) (<[i:=b]> hdr) = false.
Proof.
  intros Hm. destruct (forallb _ _) eqn:E; [|done]. exfalso. apply Is_true_true, forallb_True in E.
  assert (forall k c, lit "ustar" !! k = Some c -> c <> 0 -> (257 + k)%nat <> i -> False) as Hk.
  { intros k c Hc Hc0 Hki. rewrite <- Hm in Hc. unfold slice in Hc. apply lookup_take_Some in Hc as [Hc _].
    rewrite lookup_drop in Hc. eapply Forall_lookup_1 in E; [|rewrite list_lookup_insert_ne by (symmetry; exact Hki); exact Hc].
    apply Is_true_true in E. bool_prop. done. }
  destruct (decide (i = 257)%nat) as [->|]; [by apply (Hk 1%nat 115)|by apply (Hk 0%nat 117)].
Qed.

(** One changed byte of a member header never passes for another header:
    outside the checksum field the reader reports it as corrupt, and inside
    it either reports it or still sees the same name, size and content. *)
Theorem header_corruption_detected file off e i x b :
  0 <= off -> read_header file off = Ok (Some e) -> (i < BLOCK)%nat ->
  file !! (Z.to_nat off + i)%nat = Some x -> b <> x ->
  let r := read_header (<[(Z.to_nat off + i)%nat := b]> file) off in
  ((i < 148)%nat \/ (156 <= i)%nat -> r = Err BadChecksum \/ r = Err BadMagic) /\
  ((148 <= i < 156)%nat -> r = Ok (Some e) \/ r = Err BadChecksum \/ exists pe, r = Err (BadOctal pe)).
Proof.
  intros Ho (Hl & Hp)%read_header_inv Hi Hx Hb r. unfold r. rewrite read_header_block, header_at_insert by done.
  rewrite length_insert, Hl. cbn [Nat.eqb Nat.ltb Nat.leb BLOCK]. set (hdr := header_at file off) in *.
  assert (Hhx : hdr !! i = Some x).
  { unfold hdr, header_at. by rewrite lookup_take_lt, lookup_drop by done. }
  apply parse_header_inv in Hp as (Hm & Hc & Hs & Hn & Hoff). unfold BLOCK in *. unfold parse_header. split; intros Hr.
  - rewrite magic_damaged by done. case_bool_decide as Hm'.
    + cbn [negb]. rewrite (slice_insert 148 156) by lia. rewrite Hc. cbn [mbind result_bind].
      rewrite splice_insert by (rewrite ?length_replicate; lia).
      rewrite (sumZ_insert _ _ x) by (rewrite splice_lookup by (rewrite ?length_replicate; lia); done).
      rewrite (proj2 (Z.eqb_neq _ _)) by lia. by left.
    + by right.
  - rewrite magic_not_zero by by rewrite slice_insert by lia. rewrite (slice_insert 257 262), Hm, bool_decide_true by (done || lia). cbn [negb].
    rewrite splice_insert_inside by (rewrite length_replicate; lia).
    destruct (parse_octal (slice 148 156 (<[i:=b]> hdr))) as [stored|pe] eqn:Es; cbn [mbind result_bind].
    + destruct (negb _); [by right; left|]. rewrite !slice_insert by lia. rewrite Hs. cbn [mbind result_bind]. left.
      destruct e as [en es eo]. cbn in *. by subst.
    + right; right. unfold parse_octal in Es. repeat case_match; simplify_eq. by eexists.
Qed.

(** ** Reading any file ends *)

Lemma lossy_ascii_inv bs : Forall (fun c => c < 128) (from_utf8_lossy bs) -> from_utf8_lossy bs = bs.
Proof.
  unfold from_utf8_lossy. induction bs as [|b bs IH]; [done|]. cbn [length lossy_loop].
  unfold utf8_step. destruct (b <? 128) eqn:Eb; bool_prop.
  - cbn [app drop]. rewrite drop_0. intros [_ H]%Forall_cons. by rewrite IH.
  - destruct (utf8_lead b) as [[[len lo] hi]|]; [destruct (_ =? _)%nat|];
      intros H; apply Forall_app in H as [H _]; apply Forall_cons in H as [H _]; lia.
Qed.

Lemma parse_digits_bound w acc s v :
  0 <= acc -> parse_digits w 8 acc s = Ok v -> v < (acc + 1) * 8 ^ Z.of_nat (length s) /\ 0 <= v /\ Forall (fun c => c < 128) s.
Proof.
  revert acc. induction s as [|c s IH]; intros acc Ha; cbn [parse_digits length].
  - intros [= <-]. change (8 ^ Z.of_nat 0) with 1. split; [lia|]. split; [done|constructor].
  - destruct (to_digit 8 c) as [d|] eqn:Ed; [|done].
    assert (0 <= d < 8 /\ c < 128) by (revert Ed; unfold to_digit; repeat case_match; intros; simplify_eq; bool_prop; lia).
    destruct (_ <? _); [|done]. intros (Hv & H0 & Hs)%IH; [|lia]. rewrite Nat2Z.inj_succ, Z.pow_succ_r by lia.
    pose proof (Z.pow_pos_nonneg 8 (Z.of_nat (length s)) ltac:(lia) ltac:(lia)).
    split; [nia|]. split; [done|]. constructor; [lia|done].
Qed.

Lemma from_str_radix_bound w s v : from_str_radix w 8 s = Ok v ->
  0 <= v < 8 ^ Z.of_nat (length s) /\ Forall (fun c => c < 128) s.
Proof.
  assert (forall s, parse_digits w 8 0 s = Ok v -> 0 <= v < 8 ^ Z.of_nat (length s) /\ Forall (fun c => c < 128) s) as Hp.
  { intros t (H1 & H2 & H3)%parse_digits_bound; [|lia]. split; [lia|done]. }
  unfold from_str_radix. destruct s as [|c s]; [done|]. intros H.
  assert (parse_digits w 8 0 (c :: s) = Ok v \/ c = 43 /\ parse_digits w 8 0 s = Ok v) as [Hd|[-> Hd]]
    by (repeat case_match; simplify_eq; auto).
  - by apply Hp.
  - apply Hp in Hd as [? ?]. split; [|by constructor]. cbn [length]. rewrite Nat2Z.inj_succ, Z.pow_succ_r by lia. lia.
Qed.

Lemma trim_start_sub s : exists a, s = a ++ trim_start s /\ Forall (fun c => c < 128) a.
Proof.
  induction s as [|c s (a & IH & Ha)]; [by exists []|]. cbn [trim_start]. destruct (pad_char c) eqn:E; [|by exists []].
  exists (c :: a). split; [by rewrite IH at 1|]. constructor; [|done]. unfold pad_char in E. apply orb_true_iff in E. destruct E; bool_prop; lia.
Qed.

Lemma trim_matches_sub s : exists a b, s = a ++ trim_matches s ++ b /\ Forall (fun c => c < 128) a /\ Forall (fun c => c < 128) b.
Proof.
  destruct (trim_start_sub s) as (a & Ha & Hfa). destruct (trim_start_sub (reverse (trim_start s))) as (b & Hb & Hfb).
  exists a, (reverse b). split; [|split; [done|by apply Forall_reverse]]. rewrite Ha at 1. f_equal. unfold trim_matches.
  rewrite <- reverse_app, <- Hb. by rewrite reverse_involutive.
Qed.

(** A field of [n] bytes reads as a number below [8^n]. *)
Lemma parse_octal_bound field v : parse_octal field = Ok v -> 0 <= v < 8 ^ Z.of_nat (length field).
Proof.
  unfold parse_octal. set (s := parse_str field). destruct (trim_matches_sub s) as (a & b & Hs & Ha & Hb).
  pose proof (Z.pow_pos_nonneg 8 (Z.of_nat (length field)) ltac:(lia) ltac:(lia)).
  destruct (trim_matches s) as [|c t] eqn:Et; [intros [= <-]; lia|]. rewrite <- Et in *.
  destruct (from_str_radix 64 8 (trim_matches s)) as [v'|] eqn:Ef; [|done]. intros [= <-].
  apply from_str_radix_bound in Ef as [Hv Hasc].
  assert (Hle : (length (trim_matches s) <= length field)%nat).
  { assert (Hl : (length s <= length field)%nat).
    { unfold s, parse_str. rewrite lossy_ascii_inv; [rewrite length_take; lia|]. fold (parse_str field). fold s.
      rewrite Hs. by repeat apply Forall_app_2. }
    rewrite Hs in Hl. rewrite !length_app in Hl. lia. }
  pose proof (Z.pow_le_mono_r 8 (Z.of_nat (length (trim_matches s))) (Z.of_nat (length field)) ltac:(lia) ltac:(lia)). lia.
Qed.

Lemma read_header_bounds file off e :
  read_header file off = Ok (Some e) ->
  off < Z.of_nat (length file) /\ 0 <= t_size e < 2 ^ 36 /\ t_offset e = off + Z.of_nat BLOCK.
Proof.
  intros (Hl & Hp)%read_header_inv. apply parse_header_inv in Hp as (_ & _ & Hs & _ & Ho).
  apply parse_octal_bound in Hs. unfold slice in Hs. rewrite length_take, length_drop, Hl in Hs.
  change (8 ^ Z.of_nat (Nat.min (136 - 124) (BLOCK - 124))) with (2 ^ 36) in Hs.
  unfold header_at in Hl. rewrite length_take, length_drop in Hl. unfold BLOCK in Hl. split; [lia|done].
Qed.

(** The reader's loop over the members of a file ends on every file,
    well-formed or not, within a number of turns bounded by the file's
    length: more turns than that never change the outcome. *)
Theorem for_entries_terminates {St R} (step : St -> Entry -> result ArtifactError (St + R)) file s extra :
  Z.of_nat (length file) < 2 ^ 63 ->
  each_entry (S (length file) + extra) file (Some 0) step s = for_entries file step s.
Proof.
  intros Hl. unfold for_entries.
  assert (forall fuel fuel' off s, 0 <= off -> Z.of_nat (length file) - off <= Z.of_nat fuel ->
            Z.of_nat (length file) - off <= Z.of_nat fuel' ->
            each_entry (S fuel) file (Some off) step s = each_entry (S fuel') file (Some off) step s) as Hg.
  { induction fuel as [|fuel IH]; intros fuel' off s0 H0 Hf Hf'; cbn [each_entry entries_next];
      destruct (read_header file off) as [[e|]|err] eqn:Er; try done; apply read_header_bounds in Er as (Ho & Hs & Hoff); [lia|].
    destruct fuel' as [|fuel']; [lia|]. destruct (step s0 e) as [[s1|v]|]; try done. cbn [mbind result_bind].
    assert (Hp : t_size e <= (t_size e + (Z.of_nat BLOCK - 1)) / Z.of_nat BLOCK * Z.of_nat BLOCK < 2 ^ 36 + 512)
      by (unfold BLOCK; Z.div_mod_to_equations; lia).
    rewrite as_u64_add_r, as_u64_id by (unfold fits, BLOCK in *; lia). unfold BLOCK in *. apply IH; lia. }
  apply (Hg (length file + extra)%nat (length file)); lia.
Qed.

(** ** Concrete archives *)

Definition toy_archive : list Z := Eval vm_compute in archive [(lit "a", [1; 2; 3]); (lit "b.json", [7])].

Example toy_archive_entries :
  for_entries (R := unit) toy_archive (fun acc e => Ok (inl (acc ++ [e]))) [] =
    Ok (inl [ {| t_name := lit "a"; t_size := 3; t_offset := 512 |}; {| t_name := lit "b.json"; t_size := 1; t_offset := 1536 |} ]).
Proof. vm_compute. reflexivity. Qed.

Lemma for_entries_terminates_witness :
  each_entry (R := unit) (S (length toy_archive) + 5) toy_archive (Some 0) (fun acc e => Ok (inl (acc ++ [e]))) [] =
    for_entries toy_archive (fun acc e => Ok (inl (acc ++ [e]))) [].
Proof. apply for_entries_terminates. vm_compute. reflexivity. Defined.

Lemma header_corruption_detected_witness :
  read_header (<[(Z.to_nat 1024 + 130)%nat := 51]> toy_archive) 1024 = Err BadChecksum \/
  read_header (<[(Z.to_nat 1024 + 130)%nat := 51]> toy_archive) 1024 = Err BadMagic.
Proof.
  apply (header_corruption_detected toy_archive 1024 {| t_name := lit "b.json"; t_size := 1; t_offset := 1536 |} 130 48 51);
    [lia|vm_compute; reflexivity|unfold BLOCK; lia|vm_compute; reflexivity|lia|left; lia].
Defined.

(** A hash to run code with: the bytes themselves. *)
#[export] Program Instance toy_sha : Sha256 (list Z) :=
  { sha_new := []; sha_update h bs := h ++ bs; sha_finalize h := h }.
Next Obligation. intros. cbn. by rewrite app_assoc. Qed.
Next Obligation. intros. cbn. by rewrite app_nil_r. Qed.
