(* ===== verification/Artifact.v ===== *)
(** * The [.tdvmm] artifact ([src/src/artifact/{manifest,builder,read}.rs])

    The manifest and its canonical bytes, the builder that seals payloads into
    an artifact, and the three readers: [read_manifest], [read_for_run] with
    [verify_members], and [verify].  serde_json is the interface [ManifestJson]
    and sha256 the one of [Tar.v]; a file is its bytes, so errors of opening
    and seeking are not modelled.  The theorems: a sealed artifact reads back
    and verifies, its identity is the hash of its bytes, and replaced payloads
    are noticed exactly when their hashes differ. *)

From Stdlib Require Import ZArith Lia.
From stdpp Require Import base numbers strings list.
From S2P Require Import Prelude.
From S2P Require Import Text.
From S2P Require Import Utf8.
From S2P Require Import Io.
From S2P Require Import Tar.

Open Scope Z_scope.

Definition MEMBER_MANIFEST : list Z := lit "manifest.json".
Definition MEMBER_COMPOSE_LOCK : list Z := lit "compose.lock.yml".
Definition MEMBER_KERNEL : list Z := lit "kernel".
Definition MEMBER_INITRAMFS : list Z := lit "initramfs".
Definition FORMAT_VERSION : Z := 1.

(** ** The manifest *)

Record Member := { m_name : list Z; m_size : Z; m_sha256 : list Z }.
Record ComposeEngine := { ce_version : list Z; ce_sha256 : list Z }.
Record ImagePin := { upstream : list Z; pinned : list Z; policy : list Z; content_id : list Z; size_mib : Z }.
Record Toolchain := { builders : list (list Z); alpine : list Z; tc_compose : list Z }.
Record Anchors := {
  cpuid_sha256 : list Z; cpuid_profile : list Z; compose_engine : ComposeEngine; images : list ImagePin;
  toolchain : Toolchain; ram_estimate_mib : Z; agent_sha256 : list Z; agent_build_hash : list Z;
}.
Record RunDefaults := { mem_mib : Z; cmdline : list Z; fast_forward : bool; max_virtual_time : option (list Z) }.
Record Manifest := {
  format_version : Z; stack : list Z; project : list Z; members : list Member; anchors : Anchors; run_defaults : RunDefaults;
}.

(** serde_json's [to_vec_pretty] and [from_slice]: what was printed reads back,
    with trailing white space. *)
Class ManifestJson := {
  to_vec_pretty : Manifest -> option (list Z);
  manifest_from_slice : list Z -> option Manifest;
  manifest_roundtrip m v : to_vec_pretty m = Some v -> manifest_from_slice (v ++ [10]) = Some m;
}.

Section artifact.
Context {MJ : ManifestJson} {H : Type} {SH : Sha256 H}.

Definition from_bytes (bytes : list Z) : result ArtifactError Manifest :=
  match manifest_from_slice bytes with
  | None => Err ManifestParse
  | Some m => if negb (format_version m =? FORMAT_VERSION) then Err (BadVersion (format_version m)) else Ok m
  end.

Definition to_canonical_json (m : Manifest) : result ArtifactError (list Z) :=
  match to_vec_pretty m with
  | None => Err ManifestSerialize
  | Some v => Ok (v ++ [10])
  end.

(** [Iterator::find]. *)
Fixpoint find_first {A} (p : A -> bool) (l : list A) : option A :=
  match l with [] => None | x :: l => if p x then Some x else find_first p l end.

Definition member (m : Manifest) (name : list Z) : option Member :=
  find_first (fun r => bool_decide (m_name r = name)) (members m).

(** ** The builder *)

Record ArtifactBuilder := { ab_stack : list Z; ab_project : list Z; ab_anchors : Anchors; ab_run_defaults : RunDefaults }.
Record NeedsKernel := { nk_ids : ArtifactBuilder; nk_compose_lock : list Z }.
Record NeedsInitramfs := { ni_ids : ArtifactBuilder; ni_compose_lock : list Z; ni_kernel : list Z }.
Record SealedArtifact := { manifest_json : list Z; sa_compose_lock : list Z; sa_kernel : list Z; sa_initramfs : list Z }.

Definition builder_new (stack project : list Z) (a : Anchors) (rd : RunDefaults) : ArtifactBuilder :=
  {| ab_stack := stack; ab_project := project; ab_anchors := a; ab_run_defaults := rd |}.
Definition add_compose_lock (b : ArtifactBuilder) (bytes : list Z) : NeedsKernel := {| nk_ids := b; nk_compose_lock := bytes |}.
Definition add_kernel (b : NeedsKernel) (bytes : list Z) : NeedsInitramfs :=
  {| ni_ids := nk_ids b; ni_compose_lock := nk_compose_lock b; ni_kernel := bytes |}.

Definition cap_member (name : list Z) (len : Z) : result ArtifactError Z :=
  if MAX_MEMBER_SIZE <? len then Err (MemberTooLarge name len) else Ok len.

(** The records of the payloads, in order; the first that is too large stops. *)
Fixpoint seal_records (ms : list (list Z * list Z)) : result ArtifactError (list Member) :=
  match ms with
  | [] => Ok []
  | (name, data) :: ms =>
      size ← cap_member name (Z.of_nat (length data));
      rs ← seal_records ms;
      Ok ({| m_name := name; m_size := size; m_sha256 := sha256_hex data |} :: rs)
  end.

(** [NeedsInitramfs::initramfs]: the seal. *)
Definition initramfs (b : NeedsInitramfs) (bytes : list Z) : result ArtifactError SealedArtifact :=
  let payloads := [(MEMBER_COMPOSE_LOCK, ni_compose_lock b); (MEMBER_KERNEL, ni_kernel b); (MEMBER_INITRAMFS, bytes)] in
  records ← seal_records payloads;
  let manifest := {| format_version := FORMAT_VERSION; stack := ab_stack (ni_ids b); project := ab_project (ni_ids b);
                     members := records; anchors := ab_anchors (ni_ids b); run_defaults := ab_run_defaults (ni_ids b) |} in
  json ← to_canonical_json manifest;
  cap_member MEMBER_MANIFEST (Z.of_nat (length json));;
  Ok {| manifest_json := json; sa_compose_lock := ni_compose_lock b; sa_kernel := ni_kernel b; sa_initramfs := bytes |}.

Record Written := { w_sha256_hex : list Z; w_len : Z }.

(** [write_to]: what is returned, and the sink after it. *)
Definition write_to {W} `{!Write W} (a : SealedArtifact) (w : W) : result ArtifactError Written * W :=
  let '(r, hw) :=
    (write_member MEMBER_MANIFEST (manifest_json a);;
     write_member MEMBER_COMPOSE_LOCK (sa_compose_lock a);;
     write_member MEMBER_KERNEL (sa_kernel a);;
     write_member MEMBER_INITRAMFS (sa_initramfs a);;
     write_trailer;;
     map_err (fun _ => ArtifactIo "flushing artifact") flush) (hashing_new (H := H) w) in
  match r with
  | Ok _ => let '(sha, len) := hashing_finish hw in (Ok {| w_sha256_hex := sha; w_len := len |}, inner hw)
  | Err e => (Err e, inner hw)
  end.

(** ** The readers *)

Definition read_manifest (file : list Z) : result ArtifactError Manifest :=
  r ← for_entries file (fun (_ : unit) e =>
        if bool_decide (t_name e = MEMBER_MANIFEST)
        then bytes ← entry_read file e; m ← from_bytes bytes; Ok (inr m)
        else Ok (inl tt)) tt;
  match r with inr m => Ok m | inl _ => Err (MissingMember MEMBER_MANIFEST) end.

Record RunPayload := { rp_manifest : Manifest; rp_kernel : list Z; rp_initramfs : list Z; rp_compose_lock : list Z }.

(** The [for] of [verify_members]: the first mismatch is the error. *)
Fixpoint check_members (m : Manifest) (ms : list (list Z * list Z)) : result ArtifactError unit :=
  match ms with
  | [] => Ok tt
  | (name, data) :: ms =>
      want ← match member m name with Some r => Ok r | None => Err (NoRecord name) end;
      let got := sha256_hex data in
      if negb (bool_decide (got = m_sha256 want)) then Err (HashMismatch name (m_sha256 want) got) else check_members m ms
  end.

Definition verify_members (p : RunPayload) : result ArtifactError unit :=
  check_members (rp_manifest p) [(MEMBER_KERNEL, rp_kernel p); (MEMBER_INITRAMFS, rp_initramfs p); (MEMBER_COMPOSE_LOCK, rp_compose_lock p)].

(** The four slots [read_for_run] fills. *)
Record Slots := { s_manifest : option Manifest; s_kernel : option (list Z); s_initramfs : option (list Z); s_lock : option (list Z) }.

Definition fill_slot (file : list Z) (s : Slots) (e : Entry) : result ArtifactError (Slots + Empty_set) :=
  let '(Build_Slots m k i l) := s in
  if bool_decide (t_name e = MEMBER_MANIFEST) then
    bytes ← entry_read file e; m ← from_bytes bytes; Ok (inl (Build_Slots (Some m) k i l))
  else if bool_decide (t_name e = MEMBER_KERNEL) then bytes ← entry_read file e; Ok (inl (Build_Slots m (Some bytes) i l))
  else if bool_decide (t_name e = MEMBER_INITRAMFS) then bytes ← entry_read file e; Ok (inl (Build_Slots m k (Some bytes) l))
  else if bool_decide (t_name e = MEMBER_COMPOSE_LOCK) then bytes ← entry_read file e; Ok (inl (Build_Slots m k i (Some bytes)))
  else Ok (inl s).

Definition need {A} (o : option A) (name : list Z) : result ArtifactError A :=
  match o with Some a => Ok a | None => Err (MissingMember name) end.

Definition read_for_run (file : list Z) : result ArtifactError RunPayload :=
  r ← for_entries file (fill_slot file) (Build_Slots None None None None);
  match r with
  | inr v => Empty_set_rect _ v
  | inl s =>
      m ← need (s_manifest s) MEMBER_MANIFEST;
      k ← need (s_kernel s) MEMBER_KERNEL;
      i ← need (s_initramfs s) MEMBER_INITRAMFS;
      l ← need (s_lock s) MEMBER_COMPOSE_LOCK;
      Ok {| rp_manifest := m; rp_kernel := k; rp_initramfs := i; rp_compose_lock := l |}
  end.

Record MemberCheck := { c_name : list Z; expected : list Z; actual : list Z; c_ok : bool }.
Record VerifyReport := { file_sha256 : list Z; checks : list MemberCheck; missing : list (list Z) }.

Definition all_ok (r : VerifyReport) : bool := (length (missing r) =? 0)%nat && forallb c_ok (checks r).

Definition verify_step (file : list Z) (s : option Manifest * list (list Z * list Z)) (e : Entry) :
    result ArtifactError ((option Manifest * list (list Z * list Z)) + Empty_set) :=
  let '(manifest, actual) := s in
  if bool_decide (t_name e = MEMBER_MANIFEST) then
    bytes ← entry_read file e; m ← from_bytes bytes; Ok (inl (Some m, actual))
  else
    sha ← entry_sha256 file e; Ok (inl (manifest, actual ++ [(t_name e, sha)])).

(** The records checked against what the archive holds. *)
Definition check_records (actual : list (list Z * list Z)) (ms : list Member) : list MemberCheck * list (list Z) :=
  fold_left (fun acc m =>
    match find_first (fun p => bool_decide (p.1 = m_name m)) actual with
    | Some (_, act) =>
        (acc.1 ++ [ {| c_name := m_name m; expected := m_sha256 m; actual := act; c_ok := bool_decide (act = m_sha256 m) |} ], acc.2)
    | None => (acc.1, acc.2 ++ [m_name m])
    end) ms ([], []).

Definition verify (file : list Z) : result ArtifactError VerifyReport :=
  let sha := file_sha256_hex file in
  r ← for_entries file (verify_step file) (None, []);
  match r with
  | inr v => Empty_set_rect _ v
  | inl (manifest, actual) =>
      m ← need manifest MEMBER_MANIFEST;
      let '(checks, missing) := check_records actual (members m) in
      Ok {| file_sha256 := sha; checks := checks; missing := missing |}
  end.

(** ** Lemmas: reading a four-member archive *)

Definition tdvmm (json lock kernel initrd : list Z) : list (list Z * list Z) :=
  [(MEMBER_MANIFEST, json); (MEMBER_COMPOSE_LOCK, lock); (MEMBER_KERNEL, kernel); (MEMBER_INITRAMFS, initrd)].

Lemma canonical_names_ok : name_ok MEMBER_MANIFEST /\ name_ok MEMBER_COMPOSE_LOCK /\ name_ok MEMBER_KERNEL /\ name_ok MEMBER_INITRAMFS.
Proof. repeat split; try (vm_compute; lia); repeat constructor; done. Qed.

(** Each member's size fits the size field. *)
Definition capped (data : list Z) : Prop := Z.of_nat (length data) <= MAX_MEMBER_SIZE.

Lemma tdvmm_ok json lock kernel initrd :
  capped json -> capped lock -> capped kernel -> capped initrd -> Forall member_ok (tdvmm json lock kernel initrd).
Proof. destruct canonical_names_ok as (? & ? & ? & ?). intros. by repeat constructor. Qed.

Section reading.
Context (json lock kernel initrd : list Z).
Let ms := tdvmm json lock kernel initrd.
Let file := archive ms.
Context (Hok : Forall member_ok ms) (Hlen : Z.of_nat (length file) < 2 ^ 64).

(** The entries the readers see. *)
Lemma tdvmm_entries : exists e1 e2 e3 e4, entries_at 0 ms = [e1; e2; e3; e4] /\
  describes file e1 (MEMBER_MANIFEST, json) /\ describes file e2 (MEMBER_COMPOSE_LOCK, lock) /\
  describes file e3 (MEMBER_KERNEL, kernel) /\ describes file e4 (MEMBER_INITRAMFS, initrd).
Proof.
  pose proof (entries_describe ms [] Hok) as Hd. cbn [length app] in Hd. change (Z.of_nat 0) with 0 in Hd. fold file in Hd.
  unfold ms, tdvmm in *. cbn [entries_at] in Hd |- *.
  apply Forall2_cons in Hd as [H1 Hd]. apply Forall2_cons in Hd as [H2 Hd]. apply Forall2_cons in Hd as [H3 Hd].
  apply Forall2_cons in Hd as [H4 _]. do 4 eexists. split; [reflexivity|]. by split_and!.
Qed.

Lemma entry_name_dec e name data other : describes file e (name, data) -> bool_decide (t_name e = other) = bool_decide (name = other).
Proof. by intros [-> _]. Qed.

Context (m : Manifest) (Hm : from_bytes json = Ok m).

Lemma read_manifest_tdvmm : read_manifest file = Ok m.
Proof.
  destruct tdvmm_entries as (e1 & e2 & e3 & e4 & He & D1 & D2 & D3 & D4).
  unfold read_manifest, file. rewrite for_entries_archive, He by done. fold file. cbn [run_entries].
  rewrite (entry_name_dec _ _ _ _ D1). change (bool_decide (MEMBER_MANIFEST = MEMBER_MANIFEST)) with true. cbn iota.
  rewrite (entry_read_describes _ _ _ D1) by done. cbn [mbind result_bind snd]. by rewrite Hm.
Qed.

Lemma read_for_run_tdvmm :
  read_for_run file = Ok {| rp_manifest := m; rp_kernel := kernel; rp_initramfs := initrd; rp_compose_lock := lock |}.
Proof.
  destruct tdvmm_entries as (e1 & e2 & e3 & e4 & He & D1 & D2 & D3 & D4).
  unfold read_for_run, file. rewrite for_entries_archive, He by done. fold file. cbn [run_entries]. unfold fill_slot.
  rewrite !(entry_name_dec _ _ _ _ D1), !(entry_name_dec _ _ _ _ D2), !(entry_name_dec _ _ _ _ D3), !(entry_name_dec _ _ _ _ D4).
  rewrite (entry_read_describes _ _ _ D1), (entry_read_describes _ _ _ D2), (entry_read_describes _ _ _ D3), (entry_read_describes _ _ _ D4) by done.
  cbn [snd]. change (bool_decide (MEMBER_MANIFEST = MEMBER_MANIFEST)) with true. cbn [mbind result_bind]. rewrite Hm. reflexivity.
Qed.

Lemma verify_tdvmm :
  verify file = Ok (let '(cs, ms) := check_records [(MEMBER_COMPOSE_LOCK, sha256_hex lock); (MEMBER_KERNEL, sha256_hex kernel);
                                               (MEMBER_INITRAMFS, sha256_hex initrd)] (members m) in
               {| file_sha256 := sha256_hex file; checks := cs; missing := ms |}).
Proof.
  destruct tdvmm_entries as (e1 & e2 & e3 & e4 & He & D1 & D2 & D3 & D4).
  unfold verify. rewrite file_sha256_whole. unfold file at 2. rewrite for_entries_archive, He by done. cbn [run_entries]. unfold verify_step.
  rewrite !(entry_name_dec _ _ _ _ D1), !(entry_name_dec _ _ _ _ D2), !(entry_name_dec _ _ _ _ D3), !(entry_name_dec _ _ _ _ D4).
  rewrite (entry_read_describes _ _ _ D1), (entry_sha256_describes _ _ _ D2), (entry_sha256_describes _ _ _ D3), (entry_sha256_describes _ _ _ D4) by done.
  cbn [snd]. change (bool_decide (MEMBER_MANIFEST = MEMBER_MANIFEST)) with true. cbn [mbind result_bind]. rewrite Hm. cbn [mbind result_bind].
  change (bool_decide (MEMBER_COMPOSE_LOCK = MEMBER_MANIFEST)) with false. change (bool_decide (MEMBER_KERNEL = MEMBER_MANIFEST)) with false.
  change (bool_decide (MEMBER_INITRAMFS = MEMBER_MANIFEST)) with false. cbn iota. cbn [need mbind result_bind app].
  destruct D2 as [-> _], D3 as [-> _], D4 as [-> _]. cbn [fst]. by destruct (check_records _ _).
Qed.

End reading.

(** ** Lemmas: sealing *)

Lemma cap_member_inv name len n : cap_member name len = Ok n -> n = len /\ len <= MAX_MEMBER_SIZE.
Proof. unfold cap_member. destruct (Z.ltb_spec MAX_MEMBER_SIZE len); [done|]. intros [= <-]. by split. Qed.

Definition record_of (p : list Z * list Z) : Member :=
  {| m_name := p.1; m_size := Z.of_nat (length p.2); m_sha256 := sha256_hex p.2 |}.

Lemma seal_records_inv ms rs : seal_records ms = Ok rs -> rs = record_of <$> ms /\ Forall (fun p => capped p.2) ms.
Proof.
  revert rs. induction ms as [|[name data] ms IH]; intros rs; cbn [seal_records]; [intros [= <-]; by split|].
  destruct (cap_member _ _) as [size|] eqn:Ec; [|done]. cbn [mbind result_bind]. apply cap_member_inv in Ec as [-> Hc].
  destruct (seal_records ms) as [rs'|]; [|done]. intros [= <-]. destruct (IH rs' eq_refl) as [-> Hf]. split; [done|]. by constructor.
Qed.

(** The manifest a seal freezes. *)
Definition sealed_manifest (ids : ArtifactBuilder) (lock kernel initrd : list Z) : Manifest :=
  {| format_version := FORMAT_VERSION; stack := ab_stack ids; project := ab_project ids;
     members := record_of <$> [(MEMBER_COMPOSE_LOCK, lock); (MEMBER_KERNEL, kernel); (MEMBER_INITRAMFS, initrd)];
     anchors := ab_anchors ids; run_defaults := ab_run_defaults ids |}.

Lemma seal_inv ids lock kernel initrd a :
  initramfs {| ni_ids := ids; ni_compose_lock := lock; ni_kernel := kernel |} initrd = Ok a ->
  from_bytes (manifest_json a) = Ok (sealed_manifest ids lock kernel initrd) /\
  capped (manifest_json a) /\ capped lock /\ capped kernel /\ capped initrd /\
  sa_compose_lock a = lock /\ sa_kernel a = kernel /\ sa_initramfs a = initrd.
Proof.
  unfold initramfs. cbn [ni_ids ni_compose_lock ni_kernel].
  destruct (seal_records _) as [rs|] eqn:Er; [|done]. cbn [mbind result_bind]. apply seal_records_inv in Er as [-> Hf].
  apply Forall_cons in Hf as [Hl Hf]. apply Forall_cons in Hf as [Hk Hf]. apply Forall_cons in Hf as [Hi _].
  fold (sealed_manifest ids lock kernel initrd). unfold to_canonical_json.
  destruct (to_vec_pretty _) as [v|] eqn:Ev; [|done]. cbn [mbind result_bind].
  destruct (cap_member _ _) as [n|] eqn:Ec; [|done]. apply cap_member_inv in Ec as [_ Hc]. intros [= <-]. cbn.
  unfold from_bytes. rewrite (manifest_roundtrip _ _ Ev). by split_and!.
Qed.

End artifact.

(** ** What [write_to] leaves *)

Section writing.
Context {MJ : ManifestJson} {H : Type} {SH : Sha256 H} {W : Type} `{!Write W, !WriteLaws W}.

Definition artifact_bytes (a : SealedArtifact) : list Z :=
  archive (tdvmm (manifest_json a) (sa_compose_lock a) (sa_kernel a) (sa_initramfs a)).

Lemma write_members_writes (a : SealedArtifact) :
  writes (hw_sound (H := H) (W := W)) hw_grows
    (write_member MEMBER_MANIFEST (manifest_json a);; write_member MEMBER_COMPOSE_LOCK (sa_compose_lock a);;
     write_member MEMBER_KERNEL (sa_kernel a);; write_member MEMBER_INITRAMFS (sa_initramfs a);; write_trailer)
    (artifact_bytes a).
Proof.
  unfold artifact_bytes, archive, tdvmm. cbn [fmap list_fmap concat]. rewrite app_nil_r, <- !app_assoc.
  repeat (apply writes_bind; [apply hw_grows_app|by apply write_member_writes; [apply hw_grows_nil|apply hw_grows_app|apply hw_write_grows]|]).
  apply write_trailer_writes, hw_write_grows.
Qed.

Lemma SE_bind_assoc {E S A B C} (m : SE E S A) (k : A -> SE E S B) (g : B -> SE E S C) s :
  ((m ≫= k) ≫= g) s = (m ≫= (fun x => k x ≫= g)) s.
Proof. unfold mbind, SE_bind. by destruct (m s) as [[x|e] s1]. Qed.

Lemma write_to_written a w wr w' :
  write_to (H := H) a w = (Ok wr, w') -> intact w' = true -> Z.of_nat (length (artifact_bytes a)) < 2 ^ 64 ->
  written w' = written w ++ artifact_bytes a /\
  wr = {| w_sha256_hex := sha256_hex (artifact_bytes a); w_len := Z.of_nat (length (artifact_bytes a)) |}.
Proof.
  unfold write_to. set (hw0 := hashing_new w). intros Hr Hi Hl.
  assert (exists hw1 hw2, (write_member MEMBER_MANIFEST (manifest_json a);; write_member MEMBER_COMPOSE_LOCK (sa_compose_lock a);;
     write_member MEMBER_KERNEL (sa_kernel a);; write_member MEMBER_INITRAMFS (sa_initramfs a);; write_trailer) hw0 = (Ok tt, hw1) /\
     map_err (fun _ => ArtifactIo "flushing artifact") flush hw1 = (Ok tt, hw2) /\ w' = inner hw2 /\
     wr = {| w_sha256_hex := hex (sha_finalize (hasher hw2)); w_len := hw_len hw2 |}) as (hw1 & hw2 & E1 & E2 & -> & ->).
  { match type of Hr with (let '(_, _) := ?t in _) = _ => destruct t as [[[]|e] hw2] eqn:E end; [|done]. injection Hr as <- <-.
    apply SE_bind_ok in E as ([] & s1 & E1 & E). apply SE_bind_ok in E as ([] & s2 & E2 & E). apply SE_bind_ok in E as ([] & s3 & E3 & E).
    apply SE_bind_ok in E as ([] & s4 & E4 & E). apply SE_bind_ok in E as ([] & s5 & E5 & E). exists s5, hw2. split; [|done].
    unfold mbind, SE_bind. by rewrite E1, E2, E3, E4. }
  unfold map_err in E2. cbn [flush HashingWriter_Write] in E2. destruct (flush (inner hw1)) as [[[]|e] w2] eqn:Ef; [|done].
  injection E2 as <-. cbn [inner hasher hw_len] in *. apply flush_law in Ef as [Hi1 Hw]; [|done].
  destruct (write_members_writes a _ _ _ E1 Hi1) as (_ & _ & Hg & Hh & Hn). split; [by rewrite Hw, Hg|].
  rewrite Hh, Hn by (cbn [hw_len hw0 hashing_new]; lia). cbn [hw_len hasher hw0 hashing_new]. by rewrite Z.add_0_l.
Qed.

End writing.

(** ** The checks against a sealed manifest *)

Section checks.
Context {MJ : ManifestJson} {H : Type} {SH : Sha256 H}.
Context (ids : ArtifactBuilder) (lock kernel initrd lock' kernel' initrd' : list Z).
Let m := sealed_manifest ids lock kernel initrd.

(** The payloads found have the hashes of the ones sealed. *)
Definition same_hashes : Prop :=
  sha256_hex lock' = sha256_hex lock /\ sha256_hex kernel' = sha256_hex kernel /\ sha256_hex initrd' = sha256_hex initrd.

Lemma sealed_record name data : (name, data) ∈ [(MEMBER_COMPOSE_LOCK, lock); (MEMBER_KERNEL, kernel); (MEMBER_INITRAMFS, initrd)] ->
  member m name = Some (record_of (name, data)).
Proof. rewrite !elem_of_cons, elem_of_nil. by intros [[= -> ->]|[[= -> ->]|[[= -> ->]|[]]]]. Qed.

Lemma verify_members_iff :
  verify_members {| rp_manifest := m; rp_kernel := kernel'; rp_initramfs := initrd'; rp_compose_lock := lock' |} = Ok tt <-> same_hashes.
Proof.
  unfold verify_members, same_hashes. cbn [rp_manifest rp_kernel rp_initramfs rp_compose_lock check_members].
  rewrite (sealed_record MEMBER_KERNEL kernel), (sealed_record MEMBER_INITRAMFS initrd), (sealed_record MEMBER_COMPOSE_LOCK lock) by (rewrite !elem_of_cons; auto).
  cbn [mbind result_bind record_of m_sha256 snd]. repeat (case_bool_decide; cbn [negb]); intuition congruence.
Qed.

Lemma check_records_iff :
  let '(cs, ms) := check_records [(MEMBER_COMPOSE_LOCK, sha256_hex lock'); (MEMBER_KERNEL, sha256_hex kernel'); (MEMBER_INITRAMFS, sha256_hex initrd')] (members m) in
  ms = [] /\ (forallb c_ok cs = true <-> same_hashes).
Proof.
  unfold check_records, same_hashes.
  replace (fold_left _ _ _) with
    ([ {| c_name := MEMBER_COMPOSE_LOCK; expected := sha256_hex lock; actual := sha256_hex lock'; c_ok := bool_decide (sha256_hex lock' = sha256_hex lock) |};
       {| c_name := MEMBER_KERNEL; expected := sha256_hex kernel; actual := sha256_hex kernel'; c_ok := bool_decide (sha256_hex kernel' = sha256_hex kernel) |};
       {| c_name := MEMBER_INITRAMFS; expected := sha256_hex initrd; actual := sha256_hex initrd'; c_ok := bool_decide (sha256_hex initrd' = sha256_hex initrd) |} ],
     @nil (list Z)) by reflexivity.
  split; [done|]. cbn [forallb c_ok]. rewrite !andb_true_iff, !bool_decide_eq_true. tauto.
Qed.

End checks.

(** ** The theorems *)

Section theorems.
Context {MJ : ManifestJson} {H : Type} {SH : Sha256 H} {W : Type} `{!Write W, !WriteLaws W}.

(** What the readers make of the bytes written. *)
Lemma written_reads ids lock kernel initrd a w wr w' :
  initramfs (add_kernel (add_compose_lock ids lock) kernel) initrd = Ok a ->
  write_to a w = (Ok wr, w') -> intact w' = true -> written w = [] -> Z.of_nat (length (artifact_bytes a)) < 2 ^ 64 ->
  let m := sealed_manifest ids lock kernel initrd in
  written w' = artifact_bytes a /\ read_manifest (written w') = Ok m /\
  read_for_run (written w') = Ok {| rp_manifest := m; rp_kernel := kernel; rp_initramfs := initrd; rp_compose_lock := lock |} /\
  exists r, verify (written w') = Ok r /\ all_ok r = true /\ file_sha256 r = sha256_hex (written w').
Proof.
  intros (Hj & Cj & Cl & Ck & Ci & El & Ek & Ei)%seal_inv Hw Hi Hw0 Hl m.
  apply write_to_written in Hw as [Hw ->]; [|done|done]. rewrite Hw0 in Hw. cbn [app] in Hw. rewrite Hw. split; [done|].
  unfold artifact_bytes in *. rewrite El, Ek, Ei in *. pose proof (tdvmm_ok _ _ _ _ Cj Cl Ck Ci) as Hok.
  split; [by apply read_manifest_tdvmm|]. split; [by apply read_for_run_tdvmm|].
  rewrite (verify_tdvmm _ _ _ _ Hok Hl _ Hj). pose proof (check_records_iff ids lock kernel initrd lock kernel initrd) as Hc.
  destruct (check_records _ _) as [cs missing]. destruct Hc as [-> Hc]. eexists. split; [reflexivity|]. split; [|done].
  unfold all_ok. cbn. by apply Hc.
Qed.

(** A sealed artifact reads back: after [write_to] succeeds, every reader
    of the bytes written gets what was sealed, the payloads pass the check on
    load, [verify] reports them all good, and the identity and length
    [write_to] returned are those of the bytes. *)
Theorem sealed_artifact_reads_back ids lock kernel initrd a w wr w' :
  initramfs (add_kernel (add_compose_lock ids lock) kernel) initrd = Ok a ->
  write_to a w = (Ok wr, w') -> intact w' = true -> written w = [] -> Z.of_nat (length (artifact_bytes a)) < 2 ^ 64 ->
  let file := written w' in
  let m := sealed_manifest ids lock kernel initrd in
  let p := {| rp_manifest := m; rp_kernel := kernel; rp_initramfs := initrd; rp_compose_lock := lock |} in
  w_sha256_hex wr = sha256_hex file /\ w_len wr = Z.of_nat (length file) /\
  read_manifest file = Ok m /\ read_for_run file = Ok p /\ verify_members p = Ok tt /\
  exists r, verify file = Ok r /\ all_ok r = true /\ file_sha256 r = w_sha256_hex wr.
Proof.
  intros Hs Hw Hi Hw0 Hl file m p. destruct (written_reads _ _ _ _ _ _ _ _ Hs Hw Hi Hw0 Hl) as (Hf & Hm & Hr & r & Hv & Hok & Hsha).
  apply write_to_written in Hw as [_ ->]; [|done|done]. cbn [w_sha256_hex w_len]. unfold file. rewrite Hf in *.
  do 4 (split; [done|]). split; [by apply verify_members_iff|]. by exists r.
Qed.

(** C37: Replaced payloads are noticed: when an archive carries a sealed
    manifest with other payloads, the check on load and [verify] both accept
    it exactly when each payload has the hash of the one sealed. *)
Theorem replaced_payload_detected ids lock kernel initrd a lock' kernel' initrd' :
  initramfs (add_kernel (add_compose_lock ids lock) kernel) initrd = Ok a ->
  capped lock' -> capped kernel' -> capped initrd' ->
  let file := archive (tdvmm (manifest_json a) lock' kernel' initrd') in
  Z.of_nat (length file) < 2 ^ 64 ->
  exists p r, read_for_run file = Ok p /\ verify file = Ok r /\
    (verify_members p = Ok tt <-> same_hashes lock kernel initrd lock' kernel' initrd') /\
    (all_ok r = true <-> same_hashes lock kernel initrd lock' kernel' initrd').
Proof.
  intros (Hj & Cj & _)%seal_inv Cl Ck Ci file Hl. pose proof (tdvmm_ok _ _ _ _ Cj Cl Ck Ci) as Hok.
  unfold file. rewrite (read_for_run_tdvmm _ _ _ _ Hok Hl _ Hj), (verify_tdvmm _ _ _ _ Hok Hl _ Hj).
  do 2 eexists. split; [reflexivity|]. split; [reflexivity|]. split; [apply verify_members_iff|].
  pose proof (check_records_iff ids lock kernel initrd lock' kernel' initrd') as Hc.
  destruct (check_records _ _) as [cs missing]. destruct Hc as [-> Hc]. unfold all_ok. cbn [missing checks length Nat.eqb andb]. exact Hc.
Qed.

End theorems.

(** ** A concrete artifact *)

#[export] Instance Member_eq_dec : EqDecision Member. Proof. solve_decision. Defined.
#[export] Instance ComposeEngine_eq_dec : EqDecision ComposeEngine. Proof. solve_decision. Defined.
#[export] Instance ImagePin_eq_dec : EqDecision ImagePin. Proof. solve_decision. Defined.
#[export] Instance Toolchain_eq_dec : EqDecision Toolchain. Proof. solve_decision. Defined.
#[export] Instance Anchors_eq_dec : EqDecision Anchors. Proof. solve_decision. Defined.
#[export] Instance RunDefaults_eq_dec : EqDecision RunDefaults. Proof. solve_decision. Defined.
#[export] Instance Manifest_eq_dec : EqDecision Manifest. Proof. solve_decision. Defined.

Definition toy_ids : ArtifactBuilder :=
  builder_new (lit "dogfood") (lit "tdvmm_dogfood")
    {| cpuid_sha256 := lit "abc"; cpuid_profile := lit "0x1"; compose_engine := {| ce_version := lit "v5.3.1"; ce_sha256 := lit "dead" |};
       images := []; toolchain := {| builders := []; alpine := []; tc_compose := [] |}; ram_estimate_mib := 1742;
       agent_sha256 := []; agent_build_hash := [] |}
    {| mem_mib := 3072; cmdline := lit "console=ttyS0"; fast_forward := true; max_virtual_time := None |}.

Definition toy_manifest : Manifest := sealed_manifest (H := list Z) toy_ids [1] [2; 3] [4].

(** A serializer that knows one manifest. *)
#[export] Program Instance toy_manifest_json : ManifestJson := {
  to_vec_pretty m := if bool_decide (m = toy_manifest) then Some (lit "{}") else None;
  manifest_from_slice bs := if bool_decide (bs = lit "{}" ++ [10]) then Some toy_manifest else None;
}.
Next Obligation.
  intros m v. cbn beta. case_bool_decide as E; [|done]. intros [= <-]. by rewrite E, bool_decide_true.
Qed.

Definition toy_sealed : SealedArtifact :=
  {| manifest_json := lit "{}" ++ [10]; sa_compose_lock := [1]; sa_kernel := [2; 3]; sa_initramfs := [4] |}.
Definition toy_sink : Duplex := {| feed := []; taken := [] |}.
Definition toy_written : Duplex := Eval vm_compute in {| feed := []; taken := artifact_bytes toy_sealed |}.

Lemma sealed_artifact_reads_back_witness :
  exists r, verify (H := list Z) (written toy_written) = Ok r /\ all_ok r = true /\
    file_sha256 r = sha256_hex (H := list Z) (written toy_written).
Proof.
  destruct (sealed_artifact_reads_back (H := list Z) toy_ids [1] [2; 3] [4] toy_sealed toy_sink
    {| w_sha256_hex := sha256_hex (H := list Z) (written toy_written); w_len := 5120 |} toy_written)
    as (_ & _ & _ & _ & _ & Hv); [vm_compute; reflexivity|vm_compute; reflexivity|done|done|vm_compute; reflexivity|exact Hv].
Defined.

Lemma replaced_payload_detected_witness :
  exists p r, read_for_run (archive (tdvmm (lit "{}" ++ [10]) [1] [2; 9] [4])) = Ok p /\
    verify (H := list Z) (archive (tdvmm (lit "{}" ++ [10]) [1] [2; 9] [4])) = Ok r /\
    (verify_members (H := list Z) p = Ok tt <-> same_hashes (H := list Z) [1] [2; 3] [4] [1] [2; 9] [4]) /\
    (all_ok r = true <-> same_hashes (H := list Z) [1] [2; 3] [4] [1] [2; 9] [4]).
Proof.
  apply (replaced_payload_detected (H := list Z) toy_ids [1] [2; 3] [4] toy_sealed [1] [2; 9] [4]);
    unfold capped; vm_compute; done.
Defined.
