(* ===== verification/Store.v ===== *)
(** * The artifact store ([src/src/artifact/store.rs])

    Where named artifacts live and how an argument is turned into a path.  The
    file system and the environment are interfaces; a path is its bytes.  The
    theorem: every name the listing shows resolves back to the listed file,
    unless the name itself ends in [.tdvmm] (and then it does not). *)

From Stdlib Require Import ZArith Lia.
From stdpp Require Import base numbers strings sorting list.
From S2P Require Import Prelude.
From S2P Require Import Text.
From S2P Require Import Utf8.
From S2P Require Import Tar.

Open Scope Z_scope.

(** A directory entry: its name and what [metadata] says, if it answers. *)
Record Metadata := { md_is_file : bool; md_len : Z; md_modified : option Z }.
Record DirEntry := { de_name : list Z; de_metadata : option Metadata }.

Inductive DirError := DirNotFound | DirOther.

Class StoreFs (F : Type) := {
  is_file : F -> list Z -> bool;
  store_read_dir : F -> list Z -> result DirError (list (result unit DirEntry));
}.

Record StoreEntry := { se_name : list Z; se_path : list Z; se_size : Z; se_modified : Z }.

Definition SUFFIX : list Z := lit ".tdvmm".

(** [str::strip_suffix]. *)
Definition strip_suffix (suffix s : list Z) : option (list Z) :=
  let k := (length s - length suffix)%nat in
  if bool_decide (drop k s = suffix) then Some (take k s) else None.

(** [Path::join] with a relative component. *)
Definition join_path (dir name : list Z) : list Z :=
  match last dir with
  | None => name
  | Some c => if c =? 47 then dir ++ name else dir ++ [47] ++ name
  end.

(** [store_dir]; [env] is [std::env::var] with errors as [None]. *)
Definition store_dir (env : list Z -> option (list Z)) : list Z :=
  let cache :=
    match env (lit "TDVMM_CACHE_DIR") with
    | Some (c :: d) => c :: d
    | _ => join_path (default (lit ".") (env (lit "HOME"))) (lit ".tdvmm")
    end in
  join_path cache (lit "artifacts").

Definition se_le (a b : StoreEntry) : Prop := bytes_leb (se_name a) (se_name b) = true.

#[export] Instance se_le_dec a b : Decision (se_le a b).
Proof. unfold se_le. apply _. Defined.
#[export] Instance se_le_total : Total se_le.
Proof. intros a b. apply bytes_leb_total. Qed.
#[export] Instance se_le_trans : Transitive se_le.
Proof. intros a b c. apply bytes_leb_trans. Qed.

Section store.
Context {F : Type} `{!StoreFs F} (fs : F).

(** The loop of [list_in]: an entry of another name or kind is passed over. *)
Fixpoint store_scan (store : list Z) (rd : list (result unit DirEntry)) : result ArtifactError (list StoreEntry) :=
  match rd with
  | [] => Ok []
  | Err _ :: _ => Err (ArtifactIo "reading store entry")
  | Ok de :: rd =>
      let name := if from_utf8_ok (de_name de) then strip_suffix SUFFIX (de_name de) else None in
      match name, de_metadata de with
      | Some name, Some md =>
          if md_is_file md then
            rest ← store_scan store rd;
            Ok ({| se_name := name; se_path := join_path store (de_name de); se_size := md_len md;
                   se_modified := default 0 (md_modified md) |} :: rest)
          else store_scan store rd
      | _, _ => store_scan store rd
      end
  end.

Definition list_in (store : list Z) : result ArtifactError (list StoreEntry) :=
  match store_read_dir fs store with
  | Err DirNotFound => Ok []
  | Err DirOther => Err (ArtifactIo "reading store")
  | Ok rd => out ← store_scan store rd; Ok (merge_sort se_le out)
  end.

Definition resolve_in (store arg : list Z) : result ArtifactError (list Z) :=
  if bool_decide (47 ∈ arg) then
    if is_file fs arg then Ok arg else Err (NoSuchFile arg)
  else
    let name := default arg (strip_suffix SUFFIX arg) in
    let candidate := join_path store (name ++ SUFFIX) in
    if is_file fs candidate then Ok candidate
    else
      avail ← list_in store;
      Err (NoSuchName name (se_name <$> avail)).

(** What the file system promises: an entry whose metadata is a file's is a
    file at its path, and names hold no slash. *)
Class StoreFsLaws := {
  listed_is_file store rd de md : store_read_dir fs store = Ok rd -> Ok de ∈ rd ->
    de_metadata de = Some md -> md_is_file md = true -> is_file fs (join_path store (de_name de)) = true;
  listed_no_slash store rd de : store_read_dir fs store = Ok rd -> Ok de ∈ rd -> 47 ∉ de_name de;
}.

End store.

(** ** Lemmas *)

Lemma strip_suffix_Some suffix s r : strip_suffix suffix s = Some r -> s = r ++ suffix.
Proof.
  unfold strip_suffix. case_bool_decide as E; [|done]. intros [= <-]. rewrite <- E at 2. by rewrite take_drop.
Qed.

Lemma strip_suffix_app suffix r : strip_suffix suffix (r ++ suffix) = Some r.
Proof.
  unfold strip_suffix. rewrite length_app. replace (length r + length suffix - length suffix)%nat with (length r) by lia.
  rewrite drop_app_length, take_app_length. by rewrite bool_decide_true.
Qed.

Lemma suffix_no_slash : 47 ∉ SUFFIX.
Proof. by apply (bool_decide_unpack _); vm_compute. Qed.

Section lemmas.
Context {F : Type} `{!StoreFs F} (fs : F).

(** An entry listed comes from a directory entry that is a file. *)
Lemma store_scan_elem store rd out e : store_scan store rd = Ok out -> e ∈ out ->
  exists de md, Ok de ∈ rd /\ de_metadata de = Some md /\ md_is_file md = true /\
    de_name de = se_name e ++ SUFFIX /\ se_path e = join_path store (de_name de).
Proof.
  revert out. induction rd as [|[de|[]] rd IH]; intros out; cbn [store_scan]; [intros [= <-] []%not_elem_of_nil| |done].
  assert (forall out, store_scan store rd = Ok out -> e ∈ out -> exists de0 md, Ok de0 ∈ Ok (E := unit) de :: rd /\ de_metadata de0 = Some md /\
    md_is_file md = true /\ de_name de0 = se_name e ++ SUFFIX /\ se_path e = join_path store (de_name de0)) as Hrest.
  { intros o Ho He. destruct (IH o Ho He) as (de0 & md & Hin & Hr). exists de0, md. split; [by right|done]. }
  destruct (if from_utf8_ok _ then _ else _) as [name|] eqn:En; [|apply Hrest].
  destruct (de_metadata de) as [md|] eqn:Em; [|apply Hrest]. destruct (md_is_file md) eqn:Ef; [|apply Hrest].
  destruct (store_scan store rd) as [rest|] eqn:Er; [|done]. intros [= <-] He. apply elem_of_cons in He as [->|He]; [|by eapply Hrest].
  destruct (from_utf8_ok _); [|done]. apply strip_suffix_Some in En. exists de, md. split; [by left|]. by split_and!.
Qed.

Lemma list_in_elem `{!StoreFsLaws fs} store l e : list_in fs store = Ok l -> e ∈ l ->
  (47 ∉ se_name e) /\ se_path e = join_path store (se_name e ++ SUFFIX) /\ is_file fs (se_path e) = true.
Proof.
  unfold list_in. destruct (store_read_dir fs store) as [rd|[]] eqn:Erd; [|intros [= <-] []%not_elem_of_nil|done].
  destruct (store_scan store rd) as [out|] eqn:Es; [|done]. intros [= <-] He. rewrite merge_sort_Permutation in He.
  destruct (store_scan_elem _ _ _ _ Es He) as (de & md & Hin & Hmd & Hf & Hn & Hp).
  pose proof (listed_no_slash _ _ _ _ Erd Hin) as Hs. rewrite Hn, elem_of_app in Hs. split; [tauto|].
  split; [by rewrite Hp, Hn|]. rewrite Hp. by eapply listed_is_file.
Qed.

(** The listing and the lookup agree: every artifact [list_in] shows is
    found under its name at the listed path (a name that itself ends in the
    suffix aside), with or without the suffix written out; the listing is
    sorted; and a lookup that fails reports the whole listing. *)
Theorem listed_artifacts_resolve `{!StoreFsLaws fs} store l :
  list_in fs store = Ok l ->
  (forall e, e ∈ l -> strip_suffix SUFFIX (se_name e) = None -> resolve_in fs store (se_name e) = Ok (se_path e)) /\
  (forall e, e ∈ l -> resolve_in fs store (se_name e ++ SUFFIX) = Ok (se_path e)) /\
  StronglySorted se_le l /\
  (forall arg, (47 ∉ arg) -> is_file fs (join_path store (default arg (strip_suffix SUFFIX arg) ++ SUFFIX)) = false ->
    resolve_in fs store arg = Err (NoSuchName (default arg (strip_suffix SUFFIX arg)) (se_name <$> l))).
Proof.
  intros Hl. split_and!.
  - intros e He Hn. destruct (list_in_elem _ _ _ Hl He) as (Hs & Hp & Hf). unfold resolve_in.
    rewrite bool_decide_false by done. rewrite Hn. cbn [from_option]. unfold id. by rewrite <- Hp, Hf.
  - intros e He. destruct (list_in_elem _ _ _ Hl He) as (Hs & Hp & Hf). unfold resolve_in.
    rewrite bool_decide_false by (rewrite elem_of_app; intros [?|Hx]; [done|by apply suffix_no_slash in Hx]).
    rewrite strip_suffix_app. cbn [from_option]. unfold id. by rewrite <- Hp, Hf.
  - unfold list_in in Hl. destruct (store_read_dir fs store) as [rd|[]]; [|injection Hl as <-; constructor|done].
    destruct (store_scan store rd); [|done]. injection Hl as <-. apply (StronglySorted_merge_sort se_le).
  - intros arg Ha Hf. unfold resolve_in. rewrite bool_decide_false by done. rewrite Hf, Hl. done.
Qed.

End lemmas.

(** ** A concrete store *)

(** A file system with one directory of plain files. *)
Definition OneDir : Type := list Z * list (list Z).

#[export] Instance OneDir_fs : StoreFs OneDir := {
  is_file fs p := existsb (fun n => bool_decide (p = join_path fs.1 n)) fs.2;
  store_read_dir fs p :=
    if bool_decide (p = fs.1)
    then Ok ((fun n => Ok {| de_name := n; de_metadata := Some {| md_is_file := true; md_len := 1; md_modified := None |} |}) <$> fs.2)
    else Err DirNotFound;
}.

Definition toy_store : OneDir := (lit "/s", [lit "zeta.tdvmm"; lit "notes.txt"; lit "alpha.tdvmm.tdvmm"; lit "alpha.tdvmm"]).

#[export] Instance toy_store_laws : StoreFsLaws toy_store.
Proof.
  split; intros store rd de; cbn [store_read_dir OneDir_fs]; (case_bool_decide as E; [|done]).
  - intros md [= <-] Hin Hmd Hf. subst store. change (fst toy_store) with (lit "/s") in *.
    cbn [fmap list_fmap snd toy_store] in Hin. repeat (apply elem_of_cons in Hin as [[= ->]|Hin]; [by vm_compute|]). by apply not_elem_of_nil in Hin.
  - intros [= <-] Hin. cbn [fmap list_fmap snd toy_store] in Hin.
    repeat (apply elem_of_cons in Hin as [[= ->]|Hin]; [by apply (bool_decide_unpack _); vm_compute|]). by apply not_elem_of_nil in Hin.
Qed.

Definition toy_list : list StoreEntry :=
  (fun n => {| se_name := n; se_path := lit "/s/" ++ n ++ SUFFIX; se_size := 1; se_modified := 0 |}) <$> [lit "alpha"; lit "alpha.tdvmm"; lit "zeta"].

(** A file named [alpha.tdvmm.tdvmm] is listed as [alpha.tdvmm], and looking
    that name up gives another file. *)
Example double_suffix_shadowed :
  list_in toy_store (lit "/s") = Ok toy_list /\ lit "alpha.tdvmm" ∈ se_name <$> toy_list /\
  resolve_in toy_store (lit "/s") (lit "alpha.tdvmm") = Ok (lit "/s/alpha.tdvmm").
Proof. split; [vm_compute; reflexivity|]. split; [right; left|]. vm_compute. reflexivity. Qed.

Lemma listed_artifacts_resolve_witness : resolve_in toy_store (lit "/s") (lit "zeta") = Ok (lit "/s/zeta.tdvmm").
Proof.
  destruct (listed_artifacts_resolve toy_store (lit "/s") toy_list) as [Hr _]; [vm_compute; reflexivity|].
  apply (Hr {| se_name := lit "zeta"; se_path := lit "/s/zeta.tdvmm"; se_size := 1; se_modified := 0 |}); [right; right; left|reflexivity].
Defined.
