(* ===== verification/Doorbell.v ===== *)
(** * The tick doorbell ([src/src/doorbell.rs])

    A per-thread host timer that breaks an exit-free KVM_RUN when a guest
    deadline passes.  The arming code is translated as written; the signal
    handler can run between any two of its atomic steps, so the correctness
    statement is about a step relation over the loop's program counter, the
    two shared bytes and the kernel's timer. *)

From Stdlib Require Import ZArith Lia.
From stdpp Require Import base numbers gmap relations list.
From S2P Require Import Prelude.
From S2P Require Import Arch.
From S2P Require Import Vtsc.

Open Scope Z_scope.

Record Doorbell := { db_enabled : bool; last_armed : option Z }.

Definition doorbell_off : Doorbell := {| db_enabled := false; last_armed := None |}.
Definition doorbell_on : Doorbell := {| db_enabled := true; last_armed := None |}.

Definition zero_itimerspec : itimerspec :=
  {| it_interval := {| tv_sec := 0; tv_nsec := 0 |}; it_value := {| tv_sec := 0; tv_nsec := 0 |} |}.

(** The timer value for a deadline, at host sample [h]. *)
Definition doorbell_spec (σ : cells) (c : VirtualClock) (h : Z) (deadline : option Z) : itimerspec :=
  match deadline with
  | Some dl =>
      let now := vtsc_from_host σ c h in
      let ns := if now <? dl then Z.max (cycles_to_ns (clock_freq c) (dl - now)) 1 else 1 in
      one_shot_itimerspec ns
  | None => zero_itimerspec
  end.

(** [arm]: the new doorbell, the FIRED flag, and the timer program if one is
    made. *)
Definition arm (d : Doorbell) (fired : bool) (deadline : option Z) (spec : itimerspec)
    : Doorbell * bool * option itimerspec :=
  if negb (db_enabled d) then (d, fired, None)
  else if bool_decide (deadline = last_armed d) && negb fired then (d, false, None)
  else ({| db_enabled := db_enabled d; last_armed := deadline |}, false, Some spec).

(** [clear] and the handler [on_doorbell] on the immediate_exit byte; [ptr] is
    whether the handler has the byte's address. *)
Definition clear_ie (d : Doorbell) (ie : bool) : bool := if db_enabled d then false else ie.
Definition on_doorbell (ptr ie : bool) : bool * bool := (ptr || ie, true).

(** [timer_settime] (POSIX): a zero value disarms. *)
Definition settime (spec : itimerspec) : option itimerspec :=
  if (tv_sec (it_value spec) =? 0) && (tv_nsec (it_value spec) =? 0) then None else Some spec.

(** ** The loop and the signal *)

(** Where the vCPU thread is: before the clear, between clear and arm, inside
    arm after the FIRED swap (with the decision to program), and from the end
    of arm to the return of KVM_RUN. *)
Inductive pc :=
  | Boundary
  | Serviced
  | Programming (deadline : option Z)
  | Entering (deadline : option Z).

Record Bell := {
  at_pc : pc; ie : bool; FIRED : bool; db : Doorbell; timer : option itimerspec }.

Inductive bell_step (c : VirtualClock) : Bell -> Bell -> Prop :=
  | do_clear i f d t :
      bell_step c {| at_pc := Boundary; ie := i; FIRED := f; db := d; timer := t |}
        {| at_pc := Serviced; ie := clear_ie d i; FIRED := f; db := d; timer := t |}
  | do_swap_cached i f d t dl spec d' :
      arm d f dl spec = (d', false, None) ->
      bell_step c {| at_pc := Serviced; ie := i; FIRED := f; db := d; timer := t |}
        {| at_pc := Entering dl; ie := i; FIRED := false; db := d'; timer := t |}
  | do_swap_program i f d t dl σ h d' :
      arm d f dl (doorbell_spec σ c h dl) = (d', false, Some (doorbell_spec σ c h dl)) ->
      bell_step c {| at_pc := Serviced; ie := i; FIRED := f; db := d; timer := t |}
        {| at_pc := Programming dl; ie := i; FIRED := false; db := d; timer := t |}
  | do_settime i f d t dl σ h :
      bell_step c {| at_pc := Programming dl; ie := i; FIRED := f; db := d; timer := t |}
        {| at_pc := Entering dl; ie := i; FIRED := f;
           db := {| db_enabled := db_enabled d; last_armed := dl |};
           timer := settime (doorbell_spec σ c h dl) |}
  | do_return i f d t dl :
      bell_step c {| at_pc := Entering dl; ie := i; FIRED := f; db := d; timer := t |}
        {| at_pc := Boundary; ie := i; FIRED := f; db := d; timer := t |}
  | expire p i f d spec :
      (* the timer runs out: it is spent and its signal is handled *)
      bell_step c {| at_pc := p; ie := i; FIRED := f; db := d; timer := Some spec |}
        {| at_pc := p; ie := fst (on_doorbell true i); FIRED := snd (on_doorbell true i); db := d; timer := None |}
  | late_signal p i f d t :
      (* a signal queued before the timer was programmed again *)
      bell_step c {| at_pc := p; ie := i; FIRED := f; db := d; timer := t |}
        {| at_pc := p; ie := fst (on_doorbell true i); FIRED := snd (on_doorbell true i); db := d; timer := t |}.

Definition bell_init : Bell :=
  {| at_pc := Boundary; ie := false; FIRED := false; db := doorbell_on; timer := None |}.

(** The timer is programmed for [d]: disarmed for no deadline, and for a
    deadline with a value computed from it. *)
Definition programmed (c : VirtualClock) (t : option itimerspec) (d : option Z) : Prop :=
  match d with
  | None => t = None
  | Some dl => exists σ h, t = Some (doorbell_spec σ c h (Some dl))
  end.

(** ** Lemmas *)

(** A deadline never disarms the timer, however close it is. *)
Lemma settime_deadline σ c h dl :
  settime (doorbell_spec σ c h (Some dl)) = Some (doorbell_spec σ c h (Some dl)).
Proof.
  unfold settime. cbn [doorbell_spec]. set (ns := if _ <? dl then _ else 1).
  assert (1 <= ns) by (unfold ns; case_match; lia).
  pose proof (one_shot_itimerspec_total ns) as [Ht _].
  destruct (_ && _) eqn:E; [|done]. bool_prop. rewrite H0, H1 in Ht. lia.
Qed.

Lemma settime_programmed σ c h d : programmed c (settime (doorbell_spec σ c h d)) d.
Proof. destruct d as [dl|]; [|done]. exists σ, h. apply settime_deadline. Qed.

Record bell_inv (c : VirtualClock) (s : Bell) : Prop := {
  bi_enabled : db_enabled (db s) = true;
  bi_cache : match at_pc s with Programming _ => True | _ =>
               FIRED s = false -> programmed c (timer s) (last_armed (db s)) end;
  bi_enter : match at_pc s with
             | Entering d => ie s = true \/ programmed c (timer s) d
             | _ => True
             end;
}.

Lemma bell_inv_step c s s' : bell_step c s s' -> bell_inv c s -> bell_inv c s'.
Proof.
  destruct 1 as [i f d t|i f d t dl spec d' Ha|i f d t dl σ h d' Ha|i f d t dl σ h|i f d t dl|p i f d spec|p i f d t];
    intros [He Hc Hn]; cbn [at_pc ie FIRED db timer] in *.
  - by split.
  - unfold arm in Ha. rewrite He in Ha. cbn [negb] in Ha.
    destruct (bool_decide _ && _) eqn:E; [|done]. bool_prop. simplify_eq. split; cbn; [done| |].
    + auto.
    + right. auto.
  - by split.
  - split; cbn; [done| |]; intros; [|right]; apply settime_programmed.
  - by split.
  - split; cbn; [done| |]; by destruct p; try (by left).
  - split; cbn; [done| |]; by destruct p; try (by left).
Qed.

(** ** Properties *)

(** C33: No wakeup is lost: whatever the interleaving of the timer's signal
    with the loop, whenever the thread is about to enter KVM_RUN with a
    pending deadline, either immediate_exit is set, so KVM_RUN returns at
    once, or the host timer is armed with a non-zero value computed from that
    very deadline. *)
Theorem doorbell_no_lost_wakeup c s dl :
  rtc (bell_step c) bell_init s -> at_pc s = Entering (Some dl) ->
  ie s = true \/ exists σ h, timer s = Some (doorbell_spec σ c h (Some dl))
                /\ settime (doorbell_spec σ c h (Some dl)) <> None.
Proof.
  intros Hr Hpc. assert (Hi : bell_inv c s).
  { revert Hr. apply (rtc_ind_r (bell_inv c)); [by split|]. intros y z _ Hs Hy. by eapply bell_inv_step. }
  destruct Hi as [_ _ Hn]. rewrite Hpc in Hn. destruct Hn as [Hn|(σ & h & Ht)]; [by left|right].
  exists σ, h. split; [done|]. by rewrite settime_deadline.
Qed.

Lemma doorbell_no_lost_wakeup_witness :
  let s := {| at_pc := Entering (Some 500); ie := false; FIRED := false;
              db := {| db_enabled := true; last_armed := Some 500 |};
              timer := settime (doorbell_spec ∅ toy_clock 100 (Some 500)) |} in
  ie s = true \/ exists σ h, timer s = Some (doorbell_spec σ toy_clock h (Some 500))
                /\ settime (doorbell_spec σ toy_clock h (Some 500)) <> None.
Proof.
  cbv zeta. apply (doorbell_no_lost_wakeup toy_clock); [|reflexivity].
  eapply rtc_l; [apply do_clear|]. eapply rtc_l; [eapply (do_swap_program _ _ _ _ _ (Some 500) ∅ 100); reflexivity|].
  eapply rtc_l; [apply (do_settime _ _ _ _ _ _ ∅ 100)|]. apply rtc_refl.
Defined.

(** Arming is idempotent and disarms exactly when nothing is pending:
    with the doorbell on, arming for the deadline it is already armed for,
    when it has not fired, programs nothing; otherwise it records the deadline
    and programs a timer that is running if and only if there is a deadline,
    at least one nanosecond and no later than the deadline's distance in
    whole nanoseconds, or one nanosecond when it is already past. *)
Theorem doorbell_arm_outcomes d fired deadline σ c h :
  db_enabled d = true ->
  let spec := doorbell_spec σ c h deadline in
  (deadline = last_armed d /\ fired = false -> arm d fired deadline spec = (d, false, None))
  /\ (deadline <> last_armed d \/ fired = true ->
      arm d fired deadline spec = ({| db_enabled := true; last_armed := deadline |}, false, Some spec)
      /\ (settime spec = None <-> deadline = None)
      /\ forall dl, deadline = Some dl ->
         let ns := tv_sec (it_value spec) * 1000000000 + tv_nsec (it_value spec) in
         ns = Z.max 1 (if vtsc_from_host σ c h <? dl
                       then cycles_to_ns (clock_freq c) (dl - vtsc_from_host σ c h) else 0)).
Proof.
  intros He. cbv zeta. unfold arm. rewrite He. cbn [negb]. split.
  { intros [-> ->]. by rewrite bool_decide_eq_true_2. }
  intros Hne. split; [|split].
  - destruct (bool_decide _ && _) eqn:E; [|done]. bool_prop. by destruct Hne as [Hne| ->].
  - destruct deadline as [dl|]; [rewrite settime_deadline|]; split; done.
  - intros dl ->. cbn [doorbell_spec]. rewrite (proj1 (one_shot_itimerspec_total _)).
    destruct (_ <? dl); lia.
Qed.

Lemma doorbell_arm_outcomes_witness :
  arm doorbell_on false (Some 500) (doorbell_spec ∅ toy_clock 100 (Some 500))
  = ({| db_enabled := true; last_armed := Some 500 |}, false, Some (doorbell_spec ∅ toy_clock 100 (Some 500))).
Proof. apply (doorbell_arm_outcomes doorbell_on false (Some 500) ∅ toy_clock 100); [reflexivity|]. by left. Defined.
