(* ===== verification/Park.v ===== *)
(** * The idle park ([src/src/park.rs])

    How a halted guest waits: which descriptors are polled, for how long, and
    how the poll result is read back.  The poll itself is a parameter (the
    answer per descriptor); what the parker programs its timer with is a
    result. *)

From Stdlib Require Import ZArith Lia.
From stdpp Require Import base numbers list.
From S2P Require Import Prelude.
From S2P Require Import Arch.

Open Scope Z_scope.

Definition POLLIN : Z := 1.
Definition POLLERR : Z := 8.
Definition POLLHUP : Z := 16.
Definition EINTR : Z := 4.

Record Wakes := { w_input : bool; w_timer : bool; w_egress : bool }.
Definition wakes_default : Wakes := {| w_input := false; w_timer := false; w_egress := false |}.

Record Parker := { timer_fd : Z; stdin_fd : Z; stdin_open : bool }.

Definition parker_new (fd : Z) : Parker := {| timer_fd := fd; stdin_fd := 0; stdin_open := true |}.

Definition close_stdin (p : Parker) : Parker :=
  {| timer_fd := timer_fd p; stdin_fd := stdin_fd p; stdin_open := false |}.

Definition has_event (revents mask : Z) : bool := negb (Z.land revents mask =? 0).

(** [stdin_ready]: [poll] is the revents of a zero-timeout poll on a
    descriptor, or an errno. *)
Definition stdin_ready (p : Parker) (poll : Z -> result Z Z) : result Z bool :=
  if negb (stdin_open p) then Ok false
  else match poll (stdin_fd p) with
       | Ok revents => Ok (has_event revents (Z.lor POLLIN POLLHUP))
       | Err e => if e =? EINTR then Ok false else Err e
       end.

(** The packed descriptors, and the slots of stdin and of the egress fd. *)
Definition pack (p : Parker) (egress_fd : option Z) : list Z * option nat * option nat :=
  let fds := [timer_fd p] in
  let '(fds, stdin_slot) :=
    if stdin_open p then (fds ++ [stdin_fd p], Some (length fds)) else (fds, None) in
  match egress_fd with
  | Some fd => (fds ++ [fd], stdin_slot, Some (length fds))
  | None => (fds, stdin_slot, None)
  end.

(** [park]: the timer program ([None] disarms), and the result.  [ppoll] gives
    the revents of the packed descriptors, in order, or an errno. *)
Definition park (p : Parker) (timeout_ns : option Z) (egress_fd : option Z)
    (ppoll : list Z -> result Z (list Z)) : option itimerspec * result Z Wakes :=
  match timeout_ns with
  | Some 0 => (None, Ok {| w_input := false; w_timer := true; w_egress := false |})
  | _ =>
      let spec := one_shot_itimerspec <$> timeout_ns in
      let '(fds, stdin_slot, egress_slot) := pack p egress_fd in
      (spec,
       match ppoll fds with
       | Err e => if e =? EINTR then Ok wakes_default else Err e
       | Ok revents =>
           let at_slot i mask := has_event (default 0 (revents !! i)) mask in
           Ok {| w_input := match stdin_slot with
                            | Some i => at_slot i (Z.lor POLLIN POLLHUP)
                            | None => false
                            end;
                 w_timer := at_slot 0%nat POLLIN;
                 w_egress := match egress_slot with
                             | Some i => at_slot i (Z.lor (Z.lor POLLIN POLLHUP) POLLERR)
                             | None => false
                             end |}
       end)
  end.

(** ** Properties *)

(** A park reads back exactly the sources it polled, whichever of them
    are present: input is reported when stdin is open and its own descriptor
    is readable or hung up, never for a closed stdin; the egress flag only
    from the egress descriptor; the timer flag from the timer; a zero timeout
    does not poll at all; an interrupted poll reports nothing; and the timer
    is programmed with the whole timeout. *)
Theorem park_reads_its_sources p timeout_ns egress_fd (ready : Z -> Z) :
  let ppoll fds := Ok (ready <$> fds) in
  let '(spec, r) := park p timeout_ns egress_fd ppoll in
  match timeout_ns with
  | Some 0 => spec = None /\ r = Ok {| w_input := false; w_timer := true; w_egress := false |}
  | _ =>
      r = Ok {| w_input := stdin_open p && has_event (ready (stdin_fd p)) (Z.lor POLLIN POLLHUP);
                w_timer := has_event (ready (timer_fd p)) POLLIN;
                w_egress := match egress_fd with
                            | Some fd => has_event (ready fd) (Z.lor (Z.lor POLLIN POLLHUP) POLLERR)
                            | None => false
                            end |}
      /\ match timeout_ns with
         | None => spec = None
         | Some ns => exists s, spec = Some s /\ tv_sec (it_value s) * 1000000000 + tv_nsec (it_value s) = ns
         end
  end
  /\ (forall e, park p timeout_ns egress_fd (fun _ => Err e)
      = match timeout_ns with
        | Some 0 => (None, Ok {| w_input := false; w_timer := true; w_egress := false |})
        | _ => (one_shot_itimerspec <$> timeout_ns, if e =? EINTR then Ok wakes_default else Err e)
        end).
Proof.
  cbv zeta. assert (Hspec : forall ns, exists s, one_shot_itimerspec <$> Some ns = Some s
    /\ tv_sec (it_value s) * 1000000000 + tv_nsec (it_value s) = ns).
  { intros ns. eexists. split; [done|]. apply one_shot_itimerspec_total. }
  unfold park, pack.
  destruct timeout_ns as [[|ns|ns]|], (stdin_open p), egress_fd; cbn; (split; [|done]); eauto.
Qed.
