(* ===== verification/Telemetry.v ===== *)
(** * Fast-forward telemetry ([src/src/telemetry.rs])

    The two histograms, the per-jump accounting and the rate-limited warning.
    Floating-point results (the quantile estimate, the rates and the report
    texts) are not modelled; the comparison of the measured jump rate with its
    threshold is a parameter. *)

From Stdlib Require Import ZArith Lia Ascii String.
From stdpp Require Import base numbers strings pretty list.
From S2P Require Import Prelude.

Open Scope Z_scope.

Definition HIST_EDGES_NS : list Z :=
  [1000; 10000; 100000; 1000000; 10000000; 100000000; 1000000000; 10000000000].

Definition COST_EDGES_NS : list Z :=
  [50; 100; 200; 500; 1000; 2000; 5000; 10000; 20000; 50000; 100000; 200000; 500000;
   1000000; 2000000; 5000000; 10000000].

(** [group_digits], on the decimal text. *)
Definition group (b : list ascii) : list ascii :=
  concat (imap (fun i c => if (0 <? i)%nat && ((length b - i) mod 3 =? 0)%nat then [","%char; c] else [c]) b).

Definition group_digits (n : Z) : string := string_of_list_ascii (group (list_ascii_of_string (pretty n))).

(** The bucket of a value: the loop that skips the edges it has reached. *)
Fixpoint bucket (edges : list Z) (ns : Z) : nat :=
  match edges with
  | [] => O
  | e :: edges => if e <=? ns then S (bucket edges ns) else O
  end.

(** [buckets[i] += 1] ([u64]). *)
Definition bump_bucket (buckets : list Z) (i : nat) : list Z := alter (fun c => as_u64 (c + 1)) i buckets.

Record DeltaHistogram := { h_buckets : list Z }.
Definition delta_hist_new : DeltaHistogram := {| h_buckets := replicate 9 0 |}.
Definition delta_record_ns (h : DeltaHistogram) (delta_ns : Z) : DeltaHistogram :=
  {| h_buckets := bump_bucket (h_buckets h) (bucket HIST_EDGES_NS delta_ns) |}.

Record CostHistogram := { c_buckets : list Z; c_total : Z }.
Definition cost_hist_new : CostHistogram := {| c_buckets := replicate 18 0; c_total := 0 |}.
Definition cost_record_ns (h : CostHistogram) (ns : Z) : CostHistogram :=
  {| c_buckets := bump_bucket (c_buckets h) (bucket COST_EDGES_NS ns); c_total := as_u64 (c_total h + 1) |}.

Definition JUMP_RATE_WARN_SUSTAIN : Z := 5 * 1000000000.
Definition JUMP_RATE_WARN_COOLDOWN : Z := 30 * 1000000000.
Definition JUMP_RATE_WIN : Z := 1000000000.

(** [max_jump_secs] is only printed. *)
Record FfState := {
  tsc_hz : Z;
  max_jump_cycles : Z;
  jumps : Z;
  max_delta_cycles : Z;
  sum_delta_cycles : Z;
  hop_ns_sum : Z;
  hop_ns_max : Z;
  hist : DeltaHistogram;
  cost_hist : CostHistogram;
  rate_win_start : Z;
  rate_win_jumps : Z;
  high_since : option Z;
  last_warn : option Z;
}.

#[export] Instance eta_FfState : Settable FfState := fun r =>
  Build_FfState (tsc_hz r) (max_jump_cycles r) (jumps r) (max_delta_cycles r) (sum_delta_cycles r)
    (hop_ns_sum r) (hop_ns_max r) (hist r) (cost_hist r) (rate_win_start r) (rate_win_jumps r)
    (high_since r) (last_warn r).

(** [bound] is [(max_jump_secs * tsc_hz as f64) as u64]; [now] the instant. *)
Definition ff_new (hz bound now : Z) : FfState :=
  {| tsc_hz := hz; max_jump_cycles := bound; jumps := 0; max_delta_cycles := 0; sum_delta_cycles := 0;
     hop_ns_sum := 0; hop_ns_max := 0; hist := delta_hist_new; cost_hist := cost_hist_new;
     rate_win_start := now; rate_win_jumps := 0; high_since := None; last_warn := None |}.

(** [record_hop]: [hop] is the cost in nanoseconds ([u128] before clamping). *)
Definition record_hop (ff : FfState) (delta hop : Z) : FfState :=
  let delta_ns := as_u64 (delta * 1000000000 / tsc_hz ff) in
  let ns := Z.min hop U64_MAX in
  {| tsc_hz := tsc_hz ff; max_jump_cycles := max_jump_cycles ff;
     jumps := as_u64 (jumps ff + 1);
     sum_delta_cycles := wrap 128 (sum_delta_cycles ff + delta);
     max_delta_cycles := if max_delta_cycles ff <? delta then delta else max_delta_cycles ff;
     hist := delta_record_ns (hist ff) delta_ns;
     hop_ns_sum := wrap 128 (hop_ns_sum ff + ns);
     hop_ns_max := if hop_ns_max ff <? ns then ns else hop_ns_max ff;
     cost_hist := cost_record_ns (cost_hist ff) ns;
     rate_win_start := rate_win_start ff; rate_win_jumps := rate_win_jumps ff;
     high_since := high_since ff; last_warn := last_warn ff |}.

Definition mean_hop_ns (ff : FfState) : Z :=
  if jumps ff =? 0 then 0 else as_u64 (hop_ns_sum ff / jumps ff).

(** [jump_rate_warn_at]: [above n win] is whether [n] jumps in [win]
    nanoseconds exceed the threshold.  The result says whether a warning is
    emitted. *)
Definition jump_rate_warn_at (above : Z -> Z -> bool) (ff : FfState) (now : Z) : bool * FfState :=
  let win := saturating_sub now (rate_win_start ff) in
  if win <? JUMP_RATE_WIN then (false, ff)
  else
    let '(msg, ff) :=
      if above (jumps ff - rate_win_jumps ff) win then
        let since := default (rate_win_start ff) (high_since ff) in
        let ff := ff <| high_since := Some since |> in
        let sustained := saturating_sub now since in
        let cooled := match last_warn ff with
                      | None => true
                      | Some t => JUMP_RATE_WARN_COOLDOWN <=? saturating_sub now t
                      end in
        if (JUMP_RATE_WARN_SUSTAIN <=? sustained) && cooled
        then (true, ff <| last_warn := Some now |> <| high_since := Some now |>)
        else (false, ff)
      else (false, ff <| high_since := None |>) in
    (msg, ff <| rate_win_start := now |> <| rate_win_jumps := jumps ff |>).

(** ** Specification *)

(** The jumps recorded so far: their deltas in cycles and costs in ns. *)
Definition record_hops (ff : FfState) (hops : list (Z * Z)) : FfState :=
  foldl (fun ff h => record_hop ff h.1 h.2) ff hops.

Definition maxZ (l : list Z) : Z := foldr Z.max 0 l.

(** How many values of [l] fall in bucket [i]. *)
Definition count_in (edges : list Z) (i : nat) (l : list Z) : Z :=
  Z.of_nat (length (filter (fun v => bucket edges v = i) l)).

(** ** Lemmas *)

Lemma bucket_le edges ns : (bucket edges ns <= length edges)%nat.
Proof. induction edges as [|e edges IH]; simpl; [lia|]. case_match; simpl; lia. Qed.

(** The bucket of a value is delimited by its edges: it is at or above every
    edge before it and below the edge at it. *)
Lemma bucket_spec edges ns i :
  bucket edges ns = i ->
  (forall j e, (j < i)%nat -> edges !! j = Some e -> e <= ns) /\ (forall e, edges !! i = Some e -> ns < e).
Proof.
  revert i. induction edges as [|e edges IH]; intros i; simpl.
  { intros <-. split; [intros; lia|done]. }
  destruct (e <=? ns) eqn:E; bool_prop; intros <-.
  - destruct (IH _ eq_refl) as [Hlo Hhi]. split; [|done]. intros [|j] e' Hj; simpl.
    + by intros [= <-].
    + apply Hlo. lia.
  - split; [intros; lia|]. simpl. by intros e' [= <-].
Qed.

Lemma bump_bucket_lookup bs i j c : bs !! j = Some c ->
  bump_bucket bs i !! j = Some (if decide (i = j) then as_u64 (c + 1) else c).
Proof.
  intros Hc. unfold bump_bucket. case_decide as E; [subst|].
  - by rewrite list_lookup_alter_eq, Hc.
  - by rewrite list_lookup_alter_ne.
Qed.

(** One histogram, after any list of values fewer than 2^64. *)
Definition fill (edges : list Z) (bs : list Z) (l : list Z) : list Z :=
  foldl (fun bs v => bump_bucket bs (bucket edges v)) bs l.

Lemma fill_lookup edges l : forall bs i c,
  bs !! i = Some c -> 0 <= c -> c + Z.of_nat (length l) < 2 ^ 64 ->
  fill edges bs l !! i = Some (c + count_in edges i l).
Proof.
  unfold count_in. induction l as [|v l IH]; intros bs i c Hc H0 Hlt; cbn [length] in Hlt.
  { simpl. rewrite Hc. f_equal. lia. }
  change (fill edges bs (v :: l)) with (fill edges (bump_bucket bs (bucket edges v)) l).
  erewrite IH; [|by apply bump_bucket_lookup|..]; case_decide as E;
    rewrite ?as_u64_id by (unfold fits; lia); try lia.
  - rewrite filter_cons_True by done. cbn [length]. f_equal. lia.
  - rewrite filter_cons_False by done. done.
Qed.

(** The accounting fields after one jump. *)
Lemma record_hop_fields ff delta hop :
  0 <= jumps ff -> jumps ff + 1 < 2 ^ 64 -> 0 <= sum_delta_cycles ff -> 0 <= delta ->
  sum_delta_cycles ff + delta < 2 ^ 128 ->
  let ff' := record_hop ff delta hop in
  jumps ff' = jumps ff + 1 /\ sum_delta_cycles ff' = sum_delta_cycles ff + delta
  /\ max_delta_cycles ff' = Z.max (max_delta_cycles ff) delta
  /\ hop_ns_max ff' = Z.max (hop_ns_max ff) (Z.min hop U64_MAX)
  /\ hist ff' = delta_record_ns (hist ff) (as_u64 (delta * 1000000000 / tsc_hz ff))
  /\ cost_hist ff' = cost_record_ns (cost_hist ff) (Z.min hop U64_MAX)
  /\ tsc_hz ff' = tsc_hz ff /\ max_jump_cycles ff' = max_jump_cycles ff.
Proof.
  intros H1 H2 H3 H4 H5. cbv zeta. unfold record_hop. cbv zeta.
  assert (as_u64 (jumps ff + 1) = jumps ff + 1) as Hj by (apply as_u64_id; unfold fits; lia).
  assert (wrap 128 (sum_delta_cycles ff + delta) = sum_delta_cycles ff + delta) as Hs
    by (apply wrap_id; unfold fits; lia).
  cbn [jumps sum_delta_cycles max_delta_cycles hop_ns_max hist cost_hist tsc_hz max_jump_cycles].
  rewrite Hj, Hs. split_and!; try done; destruct (_ <? _) eqn:E; bool_prop; lia.
Qed.

Lemma record_hops_accounts hops : forall ff,
  Forall (fun h => 0 <= h.1 /\ 0 <= h.2) hops ->
  0 <= jumps ff -> jumps ff + Z.of_nat (length hops) < 2 ^ 64 ->
  0 <= sum_delta_cycles ff -> sum_delta_cycles ff + sumZ hops.*1 < 2 ^ 128 ->
  0 <= max_delta_cycles ff ->
  let ff' := record_hops ff hops in
  jumps ff' = jumps ff + Z.of_nat (length hops)
  /\ sum_delta_cycles ff' = sum_delta_cycles ff + sumZ hops.*1
  /\ max_delta_cycles ff' = Z.max (max_delta_cycles ff) (maxZ hops.*1)
  /\ h_buckets (hist ff') = fill HIST_EDGES_NS (h_buckets (hist ff))
       ((fun h => as_u64 (h.1 * 1000000000 / tsc_hz ff)) <$> hops)
  /\ c_buckets (cost_hist ff') = fill COST_EDGES_NS (c_buckets (cost_hist ff))
       ((fun h => Z.min h.2 U64_MAX) <$> hops).
Proof.
  induction hops as [|[d t] hops IH]; intros ff Hok Hj Hlt Hs Hsum Hm; cbv zeta.
  { unfold sumZ, maxZ. simpl. split_and!; (done || lia). }
  apply Forall_cons in Hok as [[Hd Ht] Hok]. cbn [fst snd length fmap list_fmap] in *.
  assert (0 <= sumZ hops.*1).
  { apply sumZ_nonneg, Forall_fmap. eapply Forall_impl; [exact Hok|]. by intros ? [? _]. }
  change (sumZ (d :: hops.*1)) with (d + sumZ hops.*1) in *.
  destruct (record_hop_fields ff d t) as (E1 & E2 & E3 & _ & E5 & E6 & E7 & _); try lia.
  change (record_hops ff ((d, t) :: hops)) with (record_hops (record_hop ff d t) hops).
  destruct (IH (record_hop ff d t)) as (I1 & I2 & I3 & I4 & I5); try done; try lia.
  change (maxZ (d :: hops.*1)) with (Z.max d (maxZ hops.*1)).
  rewrite I1, I2, I3, I4, I5, E1, E2, E3, E5, E6, E7. split_and!; (done || lia).
Qed.

Lemma maxZ_nonneg l : 0 <= maxZ l.
Proof. unfold maxZ. induction l; simpl; lia. Qed.

Lemma group_no_commas b : Forall (fun c => c <> ","%char) b ->
  filter (fun c => c <> ","%char) (group b) = b.
Proof.
  intros Hb. unfold group. generalize (length b) as n. intros n.
  set (f := fun i c => _).
  assert (Hg : forall f : nat -> ascii -> list ascii,
    (forall i c, c <> ","%char -> filter (fun c => c <> ","%char) (f i c) = [c]) ->
    filter (fun c => c <> ","%char) (concat (imap f b)) = b).
  { induction Hb as [|c b Hc _ IH]; intros g Hgf; [done|].
    rewrite imap_cons. cbn [concat]. rewrite filter_app, Hgf by done.
    rewrite (IH (g ∘ S)); [done|]. intros. by apply Hgf. }
  apply Hg. intros i c Hc. unfold f. destruct (_ && _).
  - rewrite filter_cons_False by (by intros []). by rewrite filter_cons_True, filter_nil by done.
  - by rewrite filter_cons_True, filter_nil by done.
Qed.

(** ** Properties *)

(** The telemetry accounts for every jump: after any sequence of jumps
    the count, the total advance and the largest advance are exactly those of
    the sequence, and bucket [i] of the advance histogram (and of the cost
    histogram) holds exactly the number of jumps that fall in it, where a
    value falls in the bucket whose lower edge it has reached and whose upper
    edge it has not. *)
Theorem telemetry_accounts hz0 bound now hops i :
  Forall (fun h => 0 <= h.1 /\ 0 <= h.2) hops ->
  Z.of_nat (length hops) < 2 ^ 64 -> sumZ hops.*1 < 2 ^ 128 ->
  let ff := record_hops (ff_new hz0 bound now) hops in
  let advances := (fun h => as_u64 (h.1 * 1000000000 / hz0)) <$> hops in
  let costs := (fun h => Z.min h.2 U64_MAX) <$> hops in
  jumps ff = Z.of_nat (length hops) /\ sum_delta_cycles ff = sumZ hops.*1
  /\ max_delta_cycles ff = maxZ hops.*1
  /\ ((i < 9)%nat -> h_buckets (hist ff) !! i = Some (count_in HIST_EDGES_NS i advances))
  /\ ((i < 18)%nat -> c_buckets (cost_hist ff) !! i = Some (count_in COST_EDGES_NS i costs))
  /\ (forall v edges, bucket edges v = i ->
        (forall j e, (j < i)%nat -> edges !! j = Some e -> e <= v) /\ (forall e, edges !! i = Some e -> v < e)).
Proof.
  intros Hok Hlen Hsum. cbv zeta.
  destruct (record_hops_accounts hops (ff_new hz0 bound now)) as (E1 & E2 & E3 & E4 & E5);
    try done; cbn [ff_new jumps sum_delta_cycles max_delta_cycles]; try lia.
  cbn [ff_new jumps sum_delta_cycles max_delta_cycles hist cost_hist tsc_hz] in *.
  pose proof (maxZ_nonneg hops.*1).
  split; [done|]. split; [done|]. split; [lia|]. split; [|split; [|intros v edges; apply bucket_spec]].
  - intros Hi. rewrite E4. rewrite (fill_lookup _ _ _ i 0); [done|by apply lookup_replicate_2|lia|].
    rewrite length_fmap. lia.
  - intros Hi. rewrite E5. rewrite (fill_lookup _ _ _ i 0); [done|by apply lookup_replicate_2|lia|].
    rewrite length_fmap. lia.
Qed.

(** Three jumps at 1 GHz: 500 ns, 2 ms, 2 ms. *)
Lemma telemetry_accounts_witness :
  let ff := record_hops (ff_new 1000000000 0 0) [(500, 80); (2000000, 90); (2000000, 700)] in
  jumps ff = 3 /\ h_buckets (hist ff) !! 4%nat = Some 2.
Proof.
  destruct (telemetry_accounts 1000000000 0 0 [(500, 80); (2000000, 90); (2000000, 700)] 4)
    as (Hj & _ & _ & Hb & _).
  - repeat constructor; simpl; lia.
  - simpl. lia.
  - unfold sumZ. simpl. lia.
  - split; [exact Hj|]. apply Hb. lia.
Defined.
