(* ===== verification/Dispatch.v ===== *)
(** * Exit dispatch and interrupt injection ([src/src/main.rs], [run_user_backend], [drive_until_reply])

    Steps 2, 3 and 5 of the vCPU loop: the task-priority sync and injection
    protocol before KVM_RUN, and the routing of port and MMIO exits to the
    devices.  The log-capture loop repeats the same code without the COM4
    arm: [com4] tells the two apart. *)

From Stdlib Require Import ZArith Lia.
From stdpp Require Import base numbers strings gmap list.
From S2P Require Import Prelude.
From S2P Require Import Arch.
From S2P Require Import Vtsc.
From S2P Require Import Pic.
From S2P Require Import Pit.
From S2P Require Import Ioapic.
From S2P Require Import Lapic.
From S2P Require Import Timers.
From S2P Require Import Control.
From S2P Require Import Egress.
From S2P Require Import EgressSpec.
From S2P Require Import EgressChannel.

Open Scope Z_scope.

(** ** Devices *)

Record Devices (U C : Type) := {
  dv_lapic : Lapic; dv_ioapic : Ioapic; dv_pit : PitStub; dv_pic : PicStub;
  dv_serial : U; dv_console : ConsoleOut; dv_com2 : ControlChannel U;
  dv_egress : option (EgressChannel U C);
}.
Arguments Build_Devices {U C}.
Arguments dv_lapic {U C}.
Arguments dv_ioapic {U C}.
Arguments dv_pit {U C}.
Arguments dv_pic {U C}.
Arguments dv_serial {U C}.
Arguments dv_console {U C}.
Arguments dv_com2 {U C}.
Arguments dv_egress {U C}.

#[export] Instance eta_Devices U C : Settable (Devices U C) := fun d =>
  Build_Devices (dv_lapic d) (dv_ioapic d) (dv_pit d) (dv_pic d) (dv_serial d) (dv_console d)
    (dv_com2 d) (dv_egress d).

(** Which device a port belongs to, in the order of the [if] chain; [eg] is
    whether the egress channel exists. *)
Inductive PortOwner := OwnCom1 | OwnCom2 | OwnCom4 | OwnPit | OwnPic | OwnNone.

#[export] Instance PortOwner_eq_dec : EqDecision PortOwner.
Proof. solve_decision. Defined.

Definition port_owner (com4 eg : bool) (port : Z) : PortOwner :=
  if is_serial port then OwnCom1
  else if control_handles port then OwnCom2
  else if com4 && eg && egress_handles port then OwnCom4
  else if pit_handles port then OwnPit
  else if pic_handles port then OwnPic
  else OwnNone.

Section dispatch.
Context {A C U : Type} `{EgressConnector A C, Epoll C, Uart U}.
Abbreviation D := (Devices U C).

(** The environment: the offset cells, the host TSC at the [i]-th sample, and
    how many bytes fd 1 takes of a write ([None] an error). *)
Context (σ : cells) (tsc : nat -> Z) (fd1 : list Z -> option nat).

(** After a COM1 access: the serial interrupt, if the UART asserted it. *)
Definition after_com1 (d : D) : D :=
  let '(pending, u) := drain_irq (dv_serial d) in
  let d := d <| dv_serial := u |> in
  if pending then d <| dv_lapic := raise_irq (dv_lapic d) (dv_ioapic d) SERIAL_IRQ |> else d.

Definition com1_write (d : D) (port byte : Z) : D :=
  let '(out, u) := uart_write (dv_serial d) (as_u8 (port - SERIAL_PORT_BASE)) byte in
  let d := d <| dv_serial := u |> in
  match out with
  | [] => d
  | _ => d <| dv_console := snd (console_write (dv_console d) out (fd1 out)) |>
  end.

Definition com1_read (d : D) (port : Z) : Z * D :=
  let '(v, u) := uart_read (dv_serial d) (as_u8 (port - SERIAL_PORT_BASE)) in (v, d <| dv_serial := u |>).

Definition com2_write (d : D) (port byte : Z) : D :=
  let '(c, l) := pio_write (dv_com2 d) port byte (dv_lapic d) (dv_ioapic d) in
  d <| dv_com2 := c |> <| dv_lapic := l |>.

Definition com2_read (d : D) (port : Z) : Z * D :=
  let '(v, (c, l)) := pio_read (dv_com2 d) port (dv_lapic d) (dv_ioapic d) in
  (v, d <| dv_com2 := c |> <| dv_lapic := l |>).

Definition com4_write (d : D) (port byte : Z) : D :=
  match dv_egress d with
  | Some eg =>
      let '(eg, l) := eg_pio_write eg port byte (dv_lapic d) (dv_ioapic d) in
      d <| dv_egress := Some eg |> <| dv_lapic := l |>
  | None => d
  end.

Definition com4_read (d : D) (port : Z) : Z * D :=
  match dv_egress d with
  | Some eg =>
      let '(v, (eg, l)) := eg_pio_read eg port (dv_lapic d) (dv_ioapic d) in
      (v, d <| dv_egress := Some eg |> <| dv_lapic := l |>)
  | None => (0xff, d)
  end.

(** [for &b in data { f(b) }], [i] counting the bytes. *)
Fixpoint for_out (f : nat -> Z -> D -> option D) (i : nat) (data : list Z) (d : D) : option D :=
  match data with
  | [] => Some d
  | b :: data => d ← f i b d; for_out f (S i) data d
  end.

(** [for b in data.iter_mut() { *b = f() }]. *)
Fixpoint for_in (f : nat -> D -> option (Z * D)) (i n : nat) (d : D) : option (list Z * D) :=
  match n with
  | O => Some ([], d)
  | S n => '(b, d) ← f i d; '(bs, d) ← for_in f (S i) n d; Some (b :: bs, d)
  end.

(** [None] is a panic in a device. *)
Definition io_out (com4 : bool) (port : Z) (data : list Z) (d : D) : option D :=
  match port_owner com4 (bool_decide (is_Some (dv_egress d))) port with
  | OwnCom1 => after_com1 <$> for_out (fun _ b d => Some (com1_write d port b)) 0 data d
  | OwnCom2 => for_out (fun _ b d => Some (com2_write d port b)) 0 data d
  | OwnCom4 => for_out (fun _ b d => Some (com4_write d port b)) 0 data d
  | OwnPit => for_out (fun i b d => p ← pit_write σ (dv_pit d) port b (tsc i); Some (d <| dv_pit := p |>)) 0 data d
  | OwnPic => for_out (fun _ b d => Some (d <| dv_pic := pic_write (dv_pic d) port b |>)) 0 data d
  | OwnNone => Some d
  end.

Definition io_in (com4 : bool) (port : Z) (n : nat) (d : D) : option (list Z * D) :=
  match port_owner com4 (bool_decide (is_Some (dv_egress d))) port with
  | OwnCom1 => '(bs, d) ← for_in (fun _ d => Some (com1_read d port)) 0 n d; Some (bs, after_com1 d)
  | OwnCom2 => for_in (fun _ d => Some (com2_read d port)) 0 n d
  | OwnCom4 => for_in (fun _ d => Some (com4_read d port)) 0 n d
  | OwnPit => for_in (fun i d => '(b, p) ← pit_read σ (dv_pit d) port (tsc i); Some (b, d <| dv_pit := p |>)) 0 n d
  | OwnPic => for_in (fun _ d => Some (pic_read (dv_pic d) port, d)) 0 n d
  | OwnNone => Some (replicate n 0xff, d)
  end.

Definition mmio_read (addr : Z) (data : list Z) (d : D) : option (list Z) :=
  val ← (if in_lapic addr then lapic_mmio_read σ (tsc 0) (dv_lapic d) (as_u32 (addr - XAPIC_BASE))
         else if ioapic_handles addr then ioapic_mmio_read (dv_ioapic d) addr
         else Some 0);
  Some (write_u32_le data val).

Definition mmio_write (addr : Z) (data : list Z) (d : D) : option D :=
  let val := read_u32_le data in
  if in_lapic addr then
    l ← lapic_mmio_write σ (tsc 0) (dv_lapic d) (as_u32 (addr - XAPIC_BASE)) val;
    Some (d <| dv_lapic := l |>)
  else if ioapic_handles addr then
    io ← ioapic_mmio_write (dv_ioapic d) addr val; Some (d <| dv_ioapic := io |>)
  else Some d.

(** ** Injection *)

(** The fields of the shared kvm_run page the loop reads and writes. *)
Record KvmRun := { kr_cr8 : Z; kr_ready : Z; kr_if_flag : Z; kr_request_window : Z }.

(** Steps 2 and 3: [inject] is the KVM_INTERRUPT ioctl (an errno on failure).
    The result says which vector was handed to KVM. *)
Definition inject_step (inject : Z -> result Z unit) (l : Lapic) (r : KvmRun)
    : result Z (option Z * Lapic * KvmRun) :=
  let l := sync_tpr_from_cr8 l (kr_cr8 r) in
  let deliverable := deliverable_vector l in
  let finish injected l :=
    (injected, l,
     {| kr_cr8 := Z.shiftr (tpr l) 4; kr_ready := kr_ready r; kr_if_flag := kr_if_flag r;
        kr_request_window :=
          if bool_decide (is_Some deliverable) && bool_decide (injected = None) then 1 else 0 |}) in
  match deliverable with
  | Some vec =>
      if negb (kr_ready r =? 0) && negb (kr_if_flag r =? 0) then
        match inject vec with
        | Ok _ => Ok (finish (Some vec) (ack_injected l vec))
        | Err e => Err e
        end
      else Ok (finish None l)
  | None => Ok (finish None l)
  end.
End dispatch.

(** ** Well-formed devices *)

Definition pic_ok (p : PicStub) : Prop := fits 8 (imr (master p)) /\ fits 8 (imr (slave p)).

Record devices_wf {U C} (d : Devices U C) : Prop := {
  dwf_lapic : lapic_wf (dv_lapic d);
  dwf_ioapic : ioapic_wf (dv_ioapic d);
  dwf_pit : pit_wf (dv_pit d);
  dwf_pic : pic_ok (dv_pic d);
}.

(** Field accesses of updated devices. *)
Ltac dfields := cbn [dv_lapic dv_ioapic dv_pit dv_pic dv_serial dv_console dv_com2 dv_egress set_field].

Section safety.
Context {A C U : Type} `{EgressConnector A C, Epoll C, Uart U}.
Context (σ : cells) (tsc : nat -> Z) (fd1 : list Z -> option nat).
Abbreviation D := (Devices U C).

Lemma raise_irq_wf l io irq : lapic_wf l -> ioapic_wf io -> lapic_wf (raise_irq l io irq).
Proof.
  intros Hl Hi. unfold raise_irq. destruct (edge_vector io _) as [v|] eqn:E; [|done].
  apply edge_vector_iff in E as (_ & _ & _ & ->). apply raise_wf; [done|].
  apply (wrap_fits 8). lia.
Qed.

Lemma after_uart_io_wf (u : U) l io irq u' l' :
  lapic_wf l -> ioapic_wf io -> after_uart_io u l io irq = (u', l') -> lapic_wf l'.
Proof.
  intros Hl Hi. unfold after_uart_io. destruct (drain_irq u) as [[] ?]; intros [= <- <-]; [|done].
  by apply raise_irq_wf.
Qed.

Lemma with_lapic_wf (d d' : D) : devices_wf d -> lapic_wf (dv_lapic d') -> dv_ioapic d' = dv_ioapic d ->
  dv_pit d' = dv_pit d -> dv_pic d' = dv_pic d -> devices_wf d'.
Proof. intros [] Hl E1 E2 E3. split; rewrite ?E1, ?E2, ?E3; exact_hyp. Qed.

Lemma after_com1_wf (d : D) : devices_wf d -> devices_wf (after_com1 d).
Proof.
  intros Hd. unfold after_com1. destruct (drain_irq (dv_serial d)) as [[] u]; cbv zeta.
  - apply (with_lapic_wf d); try done. dfields. destruct Hd. by apply raise_irq_wf.
  - by destruct Hd.
Qed.

Lemma com1_wf (d : D) port b : devices_wf d ->
  devices_wf (com1_write fd1 d port b) /\ devices_wf (com1_read d port).2.
Proof.
  intros []. unfold com1_write, com1_read. destruct (uart_write _ _ _) as [[|] u], (uart_read _ _); done.
Qed.

Lemma com2_wf (d : D) port b : devices_wf d ->
  devices_wf (com2_write d port b) /\ devices_wf (com2_read d port).2.
Proof.
  intros Hd. destruct Hd as [Hl Hi Hp Hc] eqn:?. unfold com2_write, com2_read, pio_write, pio_read.
  destruct (uart_write _ _ _) as [out u], (uart_read _ _) as [v u'].
  destruct (after_uart_io u _ _ _) as [u1 l1] eqn:E1, (after_uart_io u' _ _ _) as [u2 l2] eqn:E2.
  apply after_uart_io_wf in E1, E2; try done.
Qed.

Lemma com4_wf (d : D) port b : devices_wf d ->
  devices_wf (com4_write d port b) /\ devices_wf (com4_read d port).2.
Proof.
  intros Hd. destruct Hd as [Hl Hi Hp Hc] eqn:?. unfold com4_write, com4_read, eg_pio_write, eg_pio_read.
  destruct (dv_egress d) as [eg|]; [|done].
  destruct (uart_write _ _ _) as [out u], (uart_read _ _) as [v u'].
  destruct (after_uart_io u _ _ _) as [u1 l1] eqn:E1, (after_uart_io u' _ _ _) as [u2 l2] eqn:E2.
  apply after_uart_io_wf in E1, E2; try done.
Qed.

Lemma pic_write_ok p port b : pic_ok p -> fits 8 b -> pic_ok (pic_write p port b).
Proof.
  intros [] Hb. assert (fits 8 0xff) by (unfold fits; lia).
  unfold pic_write, pic_ok, write_cmd, write_data. repeat (case_match; cbn); done.
Qed.

Lemma for_out_wf (f : nat -> Z -> D -> option D) data :
  (forall i b d, fits 8 b -> devices_wf d -> exists d', f i b d = Some d' /\ devices_wf d') ->
  bytes_ok data -> forall i d, devices_wf d -> exists d', for_out f i data d = Some d' /\ devices_wf d'.
Proof.
  intros Hf. induction 1 as [|b data Hb _ IH]; intros i d Hd; cbn [for_out]; [by exists d|].
  destruct (Hf i b d Hb Hd) as (d1 & -> & Hd1). cbn [mbind option_bind]. by apply IH.
Qed.

Lemma for_in_wf (f : nat -> D -> option (Z * D)) n :
  (forall i d, devices_wf d -> exists b d', f i d = Some (b, d') /\ devices_wf d') ->
  forall i d, devices_wf d -> exists bs d', for_in f i n d = Some (bs, d') /\ length bs = n /\ devices_wf d'.
Proof.
  intros Hf. induction n as [|n IH]; intros i d Hd; cbn [for_in]; [by exists [], d|].
  destruct (Hf i d Hd) as (b & d1 & -> & Hd1). cbn [mbind option_bind].
  destruct (IH (S i) d1 Hd1) as (bs & d2 & -> & Hl & Hd2). cbn [mbind option_bind].
  exists (b :: bs), d2. split; [done|]. split; [simpl; lia|done].
Qed.

(** A read-like operation as an [option]-valued one. *)
Lemma some_pair (r : Z * D) : devices_wf r.2 -> exists b d', Some r = Some (b, d') /\ devices_wf d'.
Proof. destruct r as [b d]. eauto. Qed.

Lemma io_out_wf com4 port data (d : D) : devices_wf d -> bytes_ok data ->
  exists d', io_out σ tsc fd1 com4 port data d = Some d' /\ devices_wf d'.
Proof.
  intros Hd Hok. unfold io_out. destruct (port_owner _ _ _).
  - destruct (for_out_wf (fun _ b d => Some (com1_write fd1 d port b)) data) with (i := 0%nat) (d := d)
      as (d1 & -> & Hd1); try done.
    + intros i b d0 _ Hd0. eexists. split; [done|]. by apply com1_wf.
    + exists (after_com1 d1). split; [done|]. by apply after_com1_wf.
  - apply for_out_wf; try done. intros i b d0 _ Hd0. eexists. split; [done|]. by apply com2_wf.
  - apply for_out_wf; try done. intros i b d0 _ Hd0. eexists. split; [done|]. by apply com4_wf.
  - apply for_out_wf; try done. intros i b d0 Hb [Hl Hi Hp Hc].
    destruct (pit_total σ (dv_pit d0) port b (tsc i) Hp Hb) as [_ (p' & -> & Hp')].
    eexists. split; [done|]. by split.
  - apply for_out_wf; try done. intros i b d0 Hb [Hl Hi Hp Hc]. eexists. split; [done|].
    split; try done. by apply pic_write_ok.
  - by exists d.
Qed.

Lemma io_in_wf com4 port n (d : D) : devices_wf d ->
  exists bs d', io_in σ tsc com4 port n d = Some (bs, d') /\ length bs = n /\ devices_wf d'.
Proof.
  intros Hd. unfold io_in. destruct (port_owner _ _ _).
  - destruct (for_in_wf (fun _ d => Some (com1_read d port)) n) with (i := 0%nat) (d := d)
      as (bs & d1 & -> & Hl & Hd1); try done.
    + intros i d0 Hd0. apply some_pair. by apply (com1_wf d0 port 0).
    + exists bs, (after_com1 d1). split; [done|]. split; [done|]. by apply after_com1_wf.
  - apply for_in_wf; try done. intros i d0 Hd0. apply some_pair. by apply (com2_wf d0 port 0).
  - apply for_in_wf; try done. intros i d0 Hd0. apply some_pair. by apply (com4_wf d0 port 0).
  - apply for_in_wf; try done. intros i d0 [Hl Hi Hp Hc].
    destruct (pit_total σ (dv_pit d0) port 0 (tsc i) Hp ltac:(done)) as [(b & p' & -> & _ & Hp') _].
    eexists _, _. split; [done|]. by split.
  - apply for_in_wf; try done. intros i d0 Hd0. by apply some_pair.
  - eexists _, d. split; [done|]. split; [apply length_replicate|done].
Qed.

Lemma read_u32_le_fits data : bytes_ok data -> fits 32 (read_u32_le data).
Proof.
  intros Hok. unfold read_u32_le. set (bs := _ <$> _).
  assert (Hb : bytes_ok bs).
  { apply Forall_fmap, Forall_forall. intros i _. cbn. destruct (data !! i) eqn:E; [|done].
    by eapply Forall_lookup_1 in Hok. }
  pose proof (le_bytes_of_le_bytes bs 4 ltac:(done) Hb) as Hle.
  pose proof (of_le_bytes_le_bytes 4 (of_le_bytes bs) ltac:(lia)) as Hv. rewrite Hle in Hv.
  rewrite Hv. apply (wrap_fits 32). lia.
Qed.

Lemma mmio_read_total addr data (d : D) : devices_wf d ->
  exists bs, mmio_read σ tsc addr data d = Some bs /\ length bs = length data.
Proof.
  intros [Hl Hi _ _]. unfold mmio_read.
  assert (Hv : is_Some (if in_lapic addr then lapic_mmio_read σ (tsc 0) (dv_lapic d) (as_u32 (addr - XAPIC_BASE))
         else if ioapic_handles addr then ioapic_mmio_read (dv_ioapic d) addr else Some 0)).
  { repeat case_match; [by apply lapic_mmio_read_total|by apply ioapic_mmio_read_total|by eexists]. }
  destruct Hv as [v ->]. eexists. split; [reflexivity|apply write_u32_le_length].
Qed.

Lemma mmio_write_wf addr data (d : D) : devices_wf d -> bytes_ok data ->
  exists d', mmio_write σ tsc addr data d = Some d' /\ devices_wf d'.
Proof.
  intros [Hl Hi Hp Hc] Hok. unfold mmio_write. pose proof (read_u32_le_fits data Hok) as Hv.
  destruct (in_lapic addr); [|destruct (ioapic_handles addr); [|by eexists]].
  - destruct (lapic_mmio_write_wf σ (tsc 0) _ (as_u32 (addr - XAPIC_BASE)) _ Hl Hv) as (l & -> & Hl').
    eexists. split; [reflexivity|]. by split.
  - destruct (ioapic_mmio_write_wf _ addr _ Hi Hv) as (io & -> & Hi').
    eexists. split; [reflexivity|]. by split.
Qed.
End safety.

Definition toy_devices : Devices ToyUart ToyHost :=
  {| dv_lapic := toy_lapic; dv_ioapic := ioapic_new 2; dv_pit := pit_new toy_clock; dv_pic := pic_new;
     dv_serial := {| toy_rx := [65]; toy_room := 63; toy_irq := false |};
     dv_console := {| tee := None; overflowed := false |}; dv_com2 := toy_channel;
     dv_egress := Some (toy_egress <| eg_serial := {| toy_rx := [66]; toy_room := 63; toy_irq := false |} |>) |}.

Lemma toy_devices_wf : devices_wf toy_devices.
Proof.
  split.
  - apply toy_lapic_wf.
  - by apply ioapic_new_wf.
  - split; [done|]. split; [apply Forall_replicate, channel_default_wf|done].
  - done.
Qed.

(** ** Properties *)

(** C40: The guest cannot crash the VMM through its devices: any port write
    or read of any length at any port, in the run loop or the capture loop,
    and any MMIO read or write at any address, the APIC windows with every
    register they select included, is served without a panic (an index out of
    range of the redirection table or of a vector bitmap, a division by zero in
    the timer's conversions), gives back exactly as many bytes as were asked
    for, and leaves every device well formed. *)
Theorem guest_access_safe `{EgressConnector A C, Epoll C, Uart U} σ tsc fd1 com4 port data n addr
    (d : Devices U C) :
  devices_wf d -> bytes_ok data ->
  (exists d', io_out σ tsc fd1 com4 port data d = Some d' /\ devices_wf d')
  /\ (exists bs d', io_in σ tsc com4 port n d = Some (bs, d') /\ length bs = n /\ devices_wf d')
  /\ (exists bs, mmio_read σ tsc addr data d = Some bs /\ length bs = length data)
  /\ (exists d', mmio_write σ tsc addr data d = Some d' /\ devices_wf d').
Proof.
  intros Hd Hok. split; [by apply io_out_wf|]. split; [by apply io_in_wf|].
  split; [by apply mmio_read_total|by apply mmio_write_wf].
Qed.

(** A serial write, and the last redirection register through the window. *)
Lemma guest_access_safe_witness :
  (exists d', io_out ∅ (fun _ => 7) (fun b => Some (length b)) true SERIAL_PORT_BASE [72; 105] toy_devices = Some d'
    /\ devices_wf d')
  /\ exists d', mmio_write ∅ (fun _ => 7) (IOAPIC_BASE + IOWIN) [1; 2; 3; 4]
      (toy_devices <| dv_ioapic := with_ioregsel (ioapic_new 2) 63 |>) = Some d' /\ devices_wf d'.
Proof.
  split.
  - assert (Hok : bytes_ok [72; 105]) by (by apply (bool_decide_unpack _); vm_compute).
    exact (proj1 (guest_access_safe ∅ (fun _ => 7) (fun b => Some (length b)) true SERIAL_PORT_BASE [72; 105] 1 0
      toy_devices toy_devices_wf Hok)).
  - assert (Hok : bytes_ok [1; 2; 3; 4]) by (by apply (bool_decide_unpack _); vm_compute).
    apply (guest_access_safe ∅ (fun _ => 7) (fun b => Some (length b)) true 0 [1; 2; 3; 4] 1 (IOAPIC_BASE + IOWIN)
      (toy_devices <| dv_ioapic := with_ioregsel (ioapic_new 2) 63 |>)); [|exact Hok].
    destruct toy_devices_wf as [Hl Hi Hp Hc]. split; [exact Hl| |exact Hp|exact Hc].
    by destruct Hi.
Defined.

(** The order of the dispatch chain does not matter: no port belongs to
    two devices, and no address to both the LAPIC and the IOAPIC; the POST
    port belongs to none. *)
Theorem dispatch_unambiguous port addr :
  (length (filter (fun b : bool => b = true)
     [is_serial port; control_handles port; egress_handles port; pit_handles port; pic_handles port]) <= 1)%nat
  /\ in_lapic addr && ioapic_handles addr = false
  /\ port_owner true true POST_PORT = OwnNone.
Proof.
  split; [|split; [|done]].
  - unfold is_serial, control_handles, egress_handles, pit_handles, pic_handles, in_range,
      SERIAL_PORT_BASE, SERIAL2_PORT_BASE, SERIAL4_PORT_BASE, PIT_CH0, PIT_CH1, PIT_CH2, PIT_CTRL,
      ELCR_MASTER, ELCR_SLAVE, PIC1_CMD, PIC1_DATA, PIC2_CMD, PIC2_DATA in *.
    assert (Hc : forall b1 b2 b3 b4 b5 : bool,
      (b1 = true -> b2 || b3 || b4 || b5 = false) -> (b2 = true -> b3 || b4 || b5 = false) ->
      (b3 = true -> b4 || b5 = false) -> (b4 = true -> b5 = false) ->
      (length (filter (fun b : bool => b = true) [b1; b2; b3; b4; b5]) <= 1)%nat).
    { intros [] [] [] [] [] H1 H2 H3 H4; try (apply Nat.leb_le; reflexivity);
        (discriminate (H1 eq_refl) || discriminate (H2 eq_refl) || discriminate (H3 eq_refl) || discriminate (H4 eq_refl)). }
    apply Hc; lia.
  - unfold in_lapic, ioapic_handles, in_range, XAPIC_BASE, XAPIC_LEN, IOAPIC_BASE, IOAPIC_LEN. lia.
Qed.

(** The injection protocol: a vector is handed to KVM exactly when the
    LAPIC (with the guest's task priority) has a deliverable one, the guest
    can take it and its interrupts are on; it is then acknowledged, so it is
    in service and no longer pending; otherwise nothing of the LAPIC changes
    and the pending vector waits with an interrupt window requested, which is
    never requested when nothing is pending; the guest's CR8 gets the current
    priority; and the LAPIC stays well formed. *)
Theorem injection_protocol inject l r injected l' r' :
  lapic_wf l -> inject_step inject l r = Ok (injected, l', r') ->
  let l1 := sync_tpr_from_cr8 l (kr_cr8 r) in
  (forall v, injected = Some v <->
     deliverable_vector l1 = Some v /\ kr_ready r <> 0 /\ kr_if_flag r <> 0)
  /\ (forall v, injected = Some v -> abs_deliverable (abs l1) v /\ v ∈ set_of (isr l') /\ v ∉ set_of (irr l'))
  /\ (injected = None -> l' = l1)
  /\ (kr_request_window r' = 1 <-> injected = None /\ is_Some (deliverable_vector l1))
  /\ kr_cr8 r' = Z.shiftr (tpr l') 4
  /\ lapic_wf l'.
Proof.
  intros Hl. unfold inject_step. pose proof (sync_tpr_wf l (kr_cr8 r) Hl) as Hl1.
  set (l1 := sync_tpr_from_cr8 l (kr_cr8 r)) in *. cbv zeta.
  destruct (deliverable_vector l1) as [v|] eqn:Ed.
  - pose proof (deliverable_range l1 v Hl1 Ed) as Hr.
    destruct (negb _ && negb _) eqn:E.
    + destruct (inject v) as [_|]; [|done]. intros [= <- <- <-]. bool_prop. cbn [kr_cr8 kr_request_window].
      split; [intros u; split; [by intros [= <-]|by intros ([= <-] & _)]|].
      split.
      { intros u [= <-]. split; [by apply deliverable_iff|]. cbn [ack_injected isr irr set_field].
        rewrite set_of_set, set_of_clear by (done || by destruct Hl1). set_solver. }
      split; [done|]. split; [|split; [done|by apply ack_wf]]. by split; [|intros [? _]].
    + intros [= <- <- <-]. cbn [kr_cr8 kr_request_window]. split; [|split; [done|]].
      { intros u. split; [done|]. intros (_ & Hr1 & Hr2). apply Z.eqb_neq in Hr1, Hr2. by rewrite Hr1, Hr2 in E. }
      split; [done|]. split; [|done]. split; [by split; [|eexists]|done].
  - intros [= <- <- <-]. cbn [kr_cr8 kr_request_window]. split; [|split; [done|]].
    { intros u. split; [done|]. by intros (? & _). }
    split; [done|]. split; [|done]. split; [done|]. intros [_ [? ?]]. done.
Qed.

Lemma injection_protocol_witness :
  let r := {| kr_cr8 := 0; kr_ready := 1; kr_if_flag := 1; kr_request_window := 0 |} in
  exists l', inject_step (fun _ => Ok tt) toy_pending r = Ok (Some 0xec, l', r) /\ 0xec ∈ set_of (isr l').
Proof.
  cbv zeta. eexists. split; [reflexivity|].
  eapply (injection_protocol (fun _ => Ok tt) toy_pending
    {| kr_cr8 := 0; kr_ready := 1; kr_if_flag := 1; kr_request_window := 0 |} (Some 0xec));
    [apply toy_pending_wf|reflexivity|reflexivity].
Defined.

(** The capture loop does not serve COM4: with the egress channel open,
    a guest read of its ports there gives all ones and leaves the receive
    FIFO as it is, and a guest write is dropped, although the same accesses
    in the run loop reach the UART. *)
Theorem capture_ignores_com4 `{EgressConnector A C, Epoll C, Uart U} σ tsc fd1 port data n
    (d : Devices U C) eg :
  dv_egress d = Some eg -> egress_handles port = true ->
  io_in σ tsc false port n d = Some (replicate n 0xff, d)
  /\ io_out σ tsc fd1 false port data d = Some d
  /\ port_owner true true port = OwnCom4.
Proof.
  intros He Hp. unfold io_in, io_out, port_owner.
  assert (is_serial port = false /\ control_handles port = false
    /\ pit_handles port = false /\ pic_handles port = false) as (-> & -> & -> & ->).
  { unfold is_serial, control_handles, egress_handles, pit_handles, pic_handles, in_range,
      SERIAL_PORT_BASE, SERIAL2_PORT_BASE, SERIAL4_PORT_BASE, PIT_CH0, PIT_CH1, PIT_CH2, PIT_CTRL,
      ELCR_MASTER, ELCR_SLAVE, PIC1_CMD, PIC1_DATA, PIC2_CMD, PIC2_DATA in *. split_and!; lia. }
  by rewrite Hp.
Qed.

Lemma capture_ignores_com4_witness :
  io_in ∅ (fun _ => 7) false SERIAL4_PORT_BASE 1 toy_devices = Some ([0xff], toy_devices)
  /\ fst <$> io_in ∅ (fun _ => 7) true SERIAL4_PORT_BASE 1 toy_devices = Some [66].
Proof.
  split; [|by vm_compute].
  eapply (capture_ignores_com4 ∅ (fun _ => 7) (fun _ => None) SERIAL4_PORT_BASE [] 1 toy_devices);
    [reflexivity|reflexivity].
Defined.
