(* ===== verification/Vmm.v ===== *)
(** * The idle park and the fast-forward jump ([src/src/main.rs])

    The two park loops, [real_wait_until_deliverable] and
    [fast_forward_until_deliverable], a turn at a time over the whole state
    they touch, with what the host answers during a turn in [TurnEnv].  The
    properties are about the jump (when it happens, where it lands) and about
    whole parks (what they keep, why they return, that they do). *)

From Stdlib Require Import ZArith Lia.
From stdpp Require Import base numbers strings gmap list.
From S2P Require Import Prelude.
From S2P Require Import Arch.
From S2P Require Import Vtsc.
From S2P Require Import Events.
From S2P Require Import Ioapic.
From S2P Require Import Lapic.
From S2P Require Import Timers.
From S2P Require Import Proto.
From S2P Require Import Driver.
From S2P Require Import Control.
From S2P Require Import EgressCodec.
From S2P Require Import Egress.
From S2P Require Import EgressSpec.
From S2P Require Import EgressChannel.
From S2P Require Import Park.
From S2P Require Import Telemetry.

Open Scope Z_scope.

(** ** Console input *)

(** What [read(0, buf, 64)] gave: bytes, end of file, or an error. *)
Inductive ConsoleRead := ReadBytes (b : Z) (bs : list Z) | ReadEof | ReadError.

Section console.
Context `{Uart U}.

(** [Some n] bytes read, [None] at end of file; a full FIFO is ignored. *)
Definition read_console_input (u : U) (r : ConsoleRead) : option nat * U :=
  match r with
  | ReadBytes b bs =>
      let data := take 64 (b :: bs) in
      (Some (length data), match enqueue_raw_bytes u data with Some (_, u') => u' | None => u end)
  | ReadEof => (None, u)
  | ReadError => (Some 0%nat, u)
  end.

Definition service_console_input (p : Parker) (u : U) (l : Lapic) (io : Ioapic) (r : ConsoleRead)
    : Parker * U * Lapic :=
  match read_console_input u r with
  | (Some n, u) =>
      if (0 <? n)%nat then
        let '(pending, u) := drain_irq u in
        (p, u, if pending then raise_irq l io SERIAL_IRQ else l)
      else (p, u, l)
  | (None, u) => (close_stdin p, u, l)
  end.
End console.

(** ** State of a park *)

Record Vm (U C V : Type) := {
  vm_lapic : Lapic; vm_events : EventQueue (T := TimerKind); vm_serial : U; vm_parker : Parker;
  vm_com2 : ControlChannel U; vm_egress : option (EgressChannel U C); vm_driver : DriverRun;
  vm_cells : cells; vm_vcpu : V; vm_ff : FfState;
}.
Arguments Build_Vm {U C V}.
Arguments vm_lapic {U C V}.
Arguments vm_events {U C V}.
Arguments vm_serial {U C V}.
Arguments vm_parker {U C V}.
Arguments vm_com2 {U C V}.
Arguments vm_egress {U C V}.
Arguments vm_driver {U C V}.
Arguments vm_cells {U C V}.
Arguments vm_vcpu {U C V}.
Arguments vm_ff {U C V}.

#[export] Instance eta_Vm U C V : Settable (Vm U C V) := fun s =>
  Build_Vm (vm_lapic s) (vm_events s) (vm_serial s) (vm_parker s) (vm_com2 s) (vm_egress s)
    (vm_driver s) (vm_cells s) (vm_vcpu s) (vm_ff s).

Inductive ParkOutcome := Deliverable | ParkHorizon | ParkDriverFinish.

Inductive ParkError :=
  | ErrPoll (errno : Z)
  | ErrEgress (e : EgressError)
  | ErrJumpBound (delta bound : Z)
  | ErrVtsc (e : VtscError).

(** What a turn of a park loop comes to. *)
Inductive turn (S : Type) :=
  | Again (s : S)
  | Done (o : ParkOutcome) (s : S)
  | Stop (e : ParkError) (s : S)
  | Panic.
Arguments Again {S} s.
Arguments Done {S} o s.
Arguments Stop {S} e s.
Arguments Panic {S}.

(** The host during one turn: the stdin probe, what a read gives, the TSC
    samples in the order they are taken, the blocking poll, the egress epoll
    fd, the time the park or the jump took and the instant after it. *)
Record TurnEnv := {
  e_probe : Z -> result Z Z; e_read : ConsoleRead; e_now : Z; e_now2 : Z; e_host : Z;
  e_ppoll : list Z -> result Z (list Z); e_epoll_fd : Z; e_elapsed : Z; e_instant : Z;
}.

#[export] Instance eta_TurnEnv : Settable TurnEnv := fun e =>
  Build_TurnEnv (e_probe e) (e_read e) (e_now e) (e_now2 e) (e_host e) (e_ppoll e) (e_epoll_fd e)
    (e_elapsed e) (e_instant e).

Section park.
Context {A C U V J : Type} `{EgressConnector A C, Epoll C, Uart U, KvmTsc V, Json (Reply J)}.
Abbreviation S := (Vm U C V).

(** The loop's constants: the IOAPIC routing, the clock, the horizon, the
    fuel of the timer re-arm loop, and the jump-rate comparison. *)
Context (io : Ioapic) (clock : VirtualClock) (horizon : option Z) (fuel : nat) (above : Z -> Z -> bool).

Definition console_service (e : TurnEnv) (s : S) : S :=
  let '(p, u, l) := service_console_input (vm_parker s) (vm_serial s) (vm_lapic s) io (e_read e) in
  s <| vm_parker := p |> <| vm_serial := u |> <| vm_lapic := l |>.

(** The non-blocking probe at the top of a fast-forward turn. *)
Definition console_probe (e : TurnEnv) (s : S) : result Z S :=
  if stdin_open (vm_parker s) then
    ready ← stdin_ready (vm_parker s) (e_probe e);
    Ok (if (ready : bool) then console_service e s else s)
  else Ok s.

(** [service_timers] at the turn's first sample: [None] is a panic or a
    diverging re-arm. *)
Definition timers_service (e : TurnEnv) (s : S) : option (bool * S) :=
  match service_timers fuel (vm_lapic s) (vm_events s) horizon (vtsc_from_host (vm_cells s) clock (e_now e)) with
  | None => None
  | Some (l, q, f) => Some (fired_horizon f, s <| vm_lapic := l |> <| vm_events := q |>)
  end.

(** [park_drain_agent]: lines until one finishes the run.  Each line takes at
    least its LF off the buffer. *)
Fixpoint drain_lines (n : nat) (c : ControlChannel U) (d : DriverRun) : bool * ControlChannel U * DriverRun :=
  match n with
  | O => (false, c, d)
  | Datatypes.S n =>
      match poll_line c with
      | (None, c) => (false, c, d)
      | (Some line, c) =>
          match on_agent_line (V := J) d line with
          | (true, d) => (true, c, d)
          | (false, d) => drain_lines n c d
          end
      end
  end.

Definition park_drain_agent (s : S) : bool * S :=
  let '(fin, c, d) := drain_lines (Datatypes.S (length (ch_tx (vm_com2 s)))) (vm_com2 s) (vm_driver s) in
  (fin, s <| vm_com2 := c |> <| vm_driver := d |>).

Definition pump_egress (s : S) : result EgressError unit * S :=
  match vm_egress s with
  | None => (Ok tt, s)
  | Some eg =>
      let '(r, (eg, l)) := channel_pump eg (vm_lapic s) io in
      (r, s <| vm_egress := Some eg |> <| vm_lapic := l |>)
  end.

(** Real nanoseconds to the next deadline, at the turn's second sample. *)
Definition timeout_ns (e : TurnEnv) (s : S) : option Z :=
  (fun dl => let now2 := vtsc_from_host (vm_cells s) clock (e_now2 e) in
             if dl <=? now2 then 0 else cycles_to_ns (clock_freq clock) (dl - now2))
  <$> peek_deadline (vm_events s).

(** Block, then read the console if it woke us. *)
Definition park_and_read (e : TurnEnv) (timeout egress_fd : option Z) (s : S) : result Z S :=
  match snd (park (vm_parker s) timeout egress_fd (e_ppoll e)) with
  | Err err => Err err
  | Ok w => Ok (if w_input w then console_service e s else s)
  end.

Definition egress_fd (e : TurnEnv) (s : S) : option Z := (fun _ => e_epoll_fd e) <$> vm_egress s.

(** The steps both loops share, up to the deliverable check: [inl] ends the
    turn. *)
Definition boundary (e : TurnEnv) (s : S) : turn S + S :=
  match timers_service e s with
  | None => inl Panic
  | Some (true, s) => inl (Done ParkHorizon s)
  | Some (false, s) =>
      match park_drain_agent s with
      | (true, s) => inl (Done ParkDriverFinish s)
      | (false, s) =>
          match pump_egress s with
          | (Err err, s) => inl (Stop (ErrEgress err) s)
          | (Ok _, s) =>
              if bool_decide (is_Some (deliverable_vector (vm_lapic s))) then inl (Done Deliverable s)
              else inr s
          end
      end
  end.

(** One turn with fast-forward off. *)
Definition real_wait_turn (e : TurnEnv) (s : S) : turn S :=
  match boundary e s with
  | inl t => t
  | inr s =>
      match park_and_read e (timeout_ns e s) (egress_fd e s) s with
      | Err err => Stop (ErrPoll err) s
      | Ok s => Again s
      end
  end.

(** The phase gate: a real-rate park while egress is active. *)
Definition gate_park (e : TurnEnv) (eg : EgressChannel U C) (s : S) : turn S :=
  match park_and_read e (timeout_ns e s) (Some (e_epoll_fd e)) s with
  | Err err => Stop (ErrPoll err) s
  | Ok s =>
      let eg := ch_note_gated eg (Z.min (e_elapsed e) U64_MAX) (e_instant e) in
      let '(_, eg) := maybe_warn_long_gate eg (e_instant e) in
      Again (s <| vm_egress := Some eg |>)
  end.

(** The jump to [next], at the single host sample [e_host]. *)
Definition jump (e : TurnEnv) (next : Z) (s : S) : turn S :=
  let now_h := vtsc_from_host (vm_cells s) clock (e_host e) in
  if next <=? now_h then Again s
  else
    let delta := next - now_h in
    let jumping_to_horizon := bool_decide (horizon = Some next) in
    if negb jumping_to_horizon && (max_jump_cycles (vm_ff s) <? delta) then
      Stop (ErrJumpBound delta (max_jump_cycles (vm_ff s))) s
    else
      match assert_ff_jump_legal (eg_backend <$> vm_egress s) with
      | None => Panic
      | Some _ =>
          match bump_offset (vm_cells s) clock (vm_vcpu s) (as_i64 delta) with
          | Err (NegativeBump _) => Panic
          | Err err => Stop (ErrVtsc err) s
          | Ok (σ, v) =>
              if vtsc_from_host σ clock (e_host e) =? next then
                let ff := record_hop (vm_ff s) delta (e_elapsed e) in
                let ff := snd (jump_rate_warn_at above ff (e_instant e)) in
                Again (s <| vm_cells := σ |> <| vm_vcpu := v |> <| vm_ff := ff |>)
              else Panic
          end
      end.

(** One turn with fast-forward on. *)
Definition fast_forward_turn (e : TurnEnv) (s : S) : turn S :=
  match console_probe e s with
  | Err err => Stop (ErrPoll err) s
  | Ok s =>
      match boundary e s with
      | inl t => t
      | inr s =>
          let gated := match vm_egress s with
                       | Some eg => if negb (unsafe_jumps eg) && negb (ch_quiescent eg) then Some eg else None
                       | None => None
                       end in
          match gated with
          | Some eg => gate_park e eg s
          | None =>
              match peek_deadline (vm_events s) with
              | None =>
                  match park_and_read e None (egress_fd e s) s with
                  | Err err => Stop (ErrPoll err) s
                  | Ok s => Again s
                  end
              | Some next => jump e next s
              end
          end
      end
  end.

(** A loop over the turns the host plays: [Again] means it is still parked. *)
Fixpoint park_loop (body : TurnEnv -> S -> turn S) (es : list TurnEnv) (s : S) : turn S :=
  match es with
  | [] => Again s
  | e :: es => match body e s with Again s => park_loop body es s | t => t end
  end.

(** [ff] is whether the run has a fast-forward state. *)
Definition park_until_deliverable (ff : bool) (es : list TurnEnv) (s : S) : turn S :=
  park_loop (if ff then fast_forward_turn else real_wait_turn) es s.
End park.

(** ** Lemmas *)

(** Field accesses of an updated state. *)
Ltac vfields := cbn [vm_lapic vm_events vm_serial vm_parker vm_com2 vm_egress vm_driver vm_cells vm_vcpu vm_ff set_field].

(** The clock, the vCPU and the jump accounting are untouched. *)
Definition same_time {U C V} (s s' : Vm U C V) : Prop :=
  vm_cells s' = vm_cells s /\ vm_vcpu s' = vm_vcpu s /\ vm_ff s' = vm_ff s.

(** The timer part of two LAPICs agrees. *)
Definition same_timer (l l' : Lapic) : Prop :=
  timer_deadline l' = timer_deadline l /\ timer_period l' = timer_period l.

(** The re-arm loop of a due periodic timer ends within [fuel]. *)
Definition rearm_ends (fuel : nat) (l : Lapic) (now : Z) : Prop :=
  forall dl, timer_deadline l = Some dl -> dl <= now -> 0 < timer_period l ->
  0 <= dl /\ dl + ((now - dl) / timer_period l + 1) * timer_period l < 2 ^ 64
  /\ (now - dl) / timer_period l + 1 < Z.of_nat fuel.

Lemma raise_irq_timer l io irq : same_timer l (raise_irq l io irq).
Proof. unfold raise_irq. by case_match. Qed.

Lemma fire_ends fuel l now : rearm_ends fuel l now -> exists r, fire_timer_if_due fuel l now = Some r.
Proof.
  intros Hr. unfold fire_timer_if_due. destruct (timer_deadline l) as [dl|] eqn:Hd; [|by eexists].
  destruct (dl <=? now) eqn:E; bool_prop; [|by eexists].
  destruct (0 <? timer_period l) eqn:Ep; bool_prop; [|by eexists].
  destruct (Hr dl Hd E Ep) as (H0 & H64 & Hf). rewrite advance_total by lia. by eexists.
Qed.

Section park_proofs.
Context {A C U V J : Type} `{EgressConnector A C, Epoll C, Uart U, KvmTsc V, Json (Reply J)}.
Context (io : Ioapic) (clock : VirtualClock) (horizon : option Z) (fuel : nat) (above : Z -> Z -> bool).
Abbreviation VM := (Vm U C V).

Lemma console_service_same e (s : VM) :
  same_time s (console_service io e s) /\ same_timer (vm_lapic s) (vm_lapic (console_service io e s))
  /\ vm_egress (console_service io e s) = vm_egress s /\ vm_events (console_service io e s) = vm_events s.
Proof.
  unfold console_service, service_console_input. destruct (read_console_input _ _) as [[n|] u]; [|done].
  destruct (0 <? n)%nat; [|done]. destruct (drain_irq u) as [[] u']; [|done].
  split; [done|]. split; [apply raise_irq_timer|done].
Qed.

Lemma console_probe_same e (s s' : VM) : console_probe io e s = Ok s' ->
  same_time s s' /\ same_timer (vm_lapic s) (vm_lapic s')
  /\ vm_egress s' = vm_egress s /\ vm_events s' = vm_events s.
Proof.
  unfold console_probe. destruct (stdin_open _); [|by intros [= <-]].
  destruct (stdin_ready _ _) as [[]|]; cbn [mbind result_bind]; [|by intros [= <-]|done].
  intros [= <-]. apply console_service_same.
Qed.

Lemma park_and_read_same e t fd (s s' : VM) : park_and_read io e t fd s = Ok s' ->
  same_time s s' /\ vm_egress s' = vm_egress s /\ vm_events s' = vm_events s.
Proof.
  unfold park_and_read. destruct (snd _) as [w|]; [|done]. intros [= <-].
  destruct (w_input w); [|done]. destruct (console_service_same e s) as (? & _ & ? & ?). done.
Qed.

Lemma timers_service_same e (s : VM) (b : bool) (s' : VM) : timers_service clock horizon fuel e s = Some (b, s') ->
  let now := vtsc_from_host (vm_cells s) clock (e_now e) in
  same_time s s' /\ vm_egress s' = vm_egress s
  /\ b = due now horizon
  /\ peek_deadline (vm_events s') = min_deadline (ahead now (timer_deadline (vm_lapic s))) (ahead now horizon).
Proof.
  unfold timers_service. cbv zeta.
  destruct (service_timers_eq fuel (vm_lapic s) (vm_events s) horizon (vtsc_from_host (vm_cells s) clock (e_now e)))
    as (q' & -> & Hp).
  destruct (fire_timer_if_due _ _ _) as [r|]; [|done]. intros [= <- <-]. done.
Qed.

Lemma drain_agent_same (s : VM) (b : bool) (s' : VM) : park_drain_agent (J := J) s = (b, s') ->
  same_time s s' /\ vm_egress s' = vm_egress s /\ vm_events s' = vm_events s /\ vm_lapic s' = vm_lapic s.
Proof. unfold park_drain_agent. destruct (drain_lines _ _ _) as [[f c] d]. by intros [= <- <-]. Qed.

Lemma pump_egress_same (s : VM) r (s' : VM) : pump_egress io s = (r, s') ->
  same_time s s' /\ vm_events s' = vm_events s
  /\ (forall eg', vm_egress s' = Some eg' -> exists eg, vm_egress s = Some eg /\ unsafe_jumps eg' = unsafe_jumps eg).
Proof.
  unfold pump_egress. destruct (vm_egress s) as [eg|] eqn:Eg.
  - destruct (channel_pump eg (vm_lapic s) io) as [r1 [eg1 l1]] eqn:E. intros [= <- <-].
    split; [done|]. split; [done|]. intros eg' [= <-]. exists eg. split; [done|].
    unfold channel_pump in E. destruct (backend_pump _ _) as [[]]; [|by simplify_eq].
    destruct (feed_guest _ _ _ _) as [[? ?] [|]]; [destruct (after_uart_io _ _ _ _)|];
      destruct (is_quiescent _); by simplify_eq.
  - intros [= <- <-]. split; [done|]. split; [done|]. intros eg'. by rewrite Eg.
Qed.

Lemma drain_lines_verdict n : forall (c : ControlChannel U) d c' d',
  drain_lines (J := J) n c d = (true, c', d') -> is_Some (verdict d').
Proof.
  induction n as [|n IH]; intros c d c' d'; cbn [drain_lines]; [done|].
  destruct (poll_line c) as [[line|] c1]; [|done].
  destruct (on_agent_line d line) as [[] d1] eqn:E; [|apply IH].
  intros [= <- <-]. by eapply on_agent_line_stops.
Qed.

(** What holds when the boundary lets the turn go on. *)
Lemma boundary_go e (s s' : VM) : boundary (J := J) io clock horizon fuel e s = inr s' ->
  let now := vtsc_from_host (vm_cells s) clock (e_now e) in
  same_time s s' /\ due now horizon = false
  /\ peek_deadline (vm_events s') = min_deadline (ahead now (timer_deadline (vm_lapic s))) (ahead now horizon)
  /\ deliverable_vector (vm_lapic s') = None
  /\ (forall eg', vm_egress s' = Some eg' -> exists eg, vm_egress s = Some eg /\ unsafe_jumps eg' = unsafe_jumps eg).
Proof.
  unfold boundary. cbv zeta. destruct (timers_service _ _ _ _ _) as [[[] s1]|] eqn:E1; [done| |done].
  apply timers_service_same in E1 as (T1 & G1 & B1 & P1).
  destruct (park_drain_agent s1) as [[] s2] eqn:E2; [done|].
  apply drain_agent_same in E2 as (T2 & G2 & V2 & L2).
  destruct (pump_egress io s2) as [[]] eqn:E3; [|done].
  apply pump_egress_same in E3 as (T3 & V3 & G3).
  destruct (bool_decide _) eqn:Ed; [done|]. intros [= <-]. bool_prop.
  destruct T1 as (? & ? & ?), T2 as (? & ? & ?), T3 as (? & ? & ?).
  split; [unfold same_time; split_and!; congruence|]. split; [done|].
  split; [by rewrite V3, V2|]. split; [by apply eq_None_not_Some|].
  intros eg' Hg. apply G3 in Hg as (eg & Hg & Hu). exists eg. split; [congruence|done].
Qed.

(** A turn that the boundary ends has not moved time. *)
Lemma boundary_stop e (s : VM) (t : turn VM) : boundary (J := J) io clock horizon fuel e s = inl t ->
  match t with Again s' | Done _ s' | Stop _ s' => same_time s s' | Panic => True end.
Proof.
  unfold boundary. destruct (timers_service _ _ _ _ _) as [[[] s1]|] eqn:E1; [| |by intros [= <-]].
  { intros [= <-]. by apply timers_service_same in E1 as (? & _). }
  apply timers_service_same in E1 as ((? & ? & ?) & _).
  destruct (park_drain_agent s1) as [[] s2] eqn:E2; apply drain_agent_same in E2 as ((? & ? & ?) & _).
  { intros [= <-]. unfold same_time. split_and!; congruence. }
  destruct (pump_egress io s2) as [[] s3] eqn:E3; apply pump_egress_same in E3 as ((? & ? & ?) & _).
  - destruct (bool_decide _); [|done]. intros [= <-]. unfold same_time. split_and!; congruence.
  - intros [= <-]. unfold same_time. split_and!; congruence.
Qed.

(** What an outcome of the boundary stands for. *)
Lemma boundary_done e (s : VM) o (s' : VM) : boundary (J := J) io clock horizon fuel e s = inl (Done o s') ->
  match o with
  | Deliverable => is_Some (deliverable_vector (vm_lapic s'))
  | ParkHorizon => exists h, horizon = Some h /\ h <= vtsc_from_host (vm_cells s) clock (e_now e)
  | ParkDriverFinish => is_Some (verdict (vm_driver s'))
  end.
Proof.
  unfold boundary. destruct (timers_service _ _ _ _ _) as [[[] s1]|] eqn:E1; [| |done].
  { intros [= <- <-]. apply timers_service_same in E1 as (_ & _ & Hd & _). unfold due in Hd.
    destruct horizon as [h|]; [|done]. exists h. split; [done|]. symmetry in Hd. by bool_prop. }
  destruct (park_drain_agent s1) as [[] s2] eqn:E2.
  { intros [= <- <-]. unfold park_drain_agent in E2. destruct (drain_lines _ _ _) as [[f c] d] eqn:Ed.
    injection E2 as -> <-. vfields. by eapply drain_lines_verdict. }
  destruct (pump_egress io s2) as [[] s3]; [|done]. destruct (bool_decide _) eqn:Ed; [|done].
  intros [= <- <-]. by bool_prop.
Qed.

(** A jump that moved the clock. *)
Lemma jump_moves e next (s s' : VM) : jump clock horizon above e next s = Again s' ->
  s' = s \/
  (let now := vtsc_from_host (vm_cells s) clock (e_host e) in
   now < next /\ vtsc_from_host (vm_cells s') clock (e_host e) = next
   /\ (next - now <= max_jump_cycles (vm_ff s) \/ horizon = Some next)
   /\ (forall eg, vm_egress s = Some eg -> is_quiescent (eg_backend eg) = true)
   /\ coherent (vm_cells s') clock (vm_vcpu s')
   /\ vm_lapic s' = vm_lapic s /\ vm_events s' = vm_events s /\ vm_egress s' = vm_egress s
   /\ jumps (vm_ff s') = as_u64 (jumps (vm_ff s) + 1)
   /\ tsc_offset (vm_cells s) clock <= tsc_offset (vm_cells s') clock).
Proof.
  unfold jump. destruct (next <=? _) eqn:E; [by intros [= <-]; left|]. bool_prop.
  destruct (negb _ && _) eqn:Eb; [done|].
  destruct (assert_ff_jump_legal _) eqn:Ea; [|done].
  destruct (bump_offset _ _ _ _) as [[σ v]|[]] eqn:Ebump; try done.
  destruct (_ =? next) eqn:El; [|done]. bool_prop. intros [= <-]. right. cbv zeta. vfields.
  split; [done|]. split; [done|]. split.
  { destruct Eb as [Eb|Eb]; [right|left]; bool_prop; done. }
  split.
  { intros eg Heg. unfold assert_ff_jump_legal in Ea. rewrite Heg in Ea. cbn in Ea. by destruct (is_quiescent _). }
  split; [by eapply bump_offset_coherent|]. split_and!; try done.
  - unfold jump_rate_warn_at. destruct (_ <? JUMP_RATE_WIN); [done|].
    destruct (above _ _); [|done]. by destruct (_ && _).
  - rewrite (bump_offset_tsc_offset _ _ _ _ _ _ Ebump). apply bump_offset_inv in Ebump as (? & _). lia.
Qed.

Lemma jump_not_done e next (s : VM) o s' : jump clock horizon above e next s <> Done o s'.
Proof. unfold jump. by repeat case_match. Qed.

Lemma jump_stop e next (s : VM) err s' : jump clock horizon above e next s = Stop err s' -> s' = s.
Proof. unfold jump. repeat case_match; by intros; simplify_eq. Qed.

(** A jump of less than 2^63 cycles, with the gate satisfied, does not panic. *)
Lemma jump_no_panic e next (s : VM) :
  0 <= next < 2 ^ 63 ->
  (forall eg, vm_egress s = Some eg -> is_quiescent (eg_backend eg) = true) ->
  jump clock horizon above e next s <> Panic.
Proof.
  intros Hn Hq. unfold jump. destruct (next <=? _) eqn:E; [done|]. bool_prop.
  destruct (negb _ && _); [done|].
  assert (assert_ff_jump_legal (eg_backend <$> vm_egress s) = Some tt) as ->.
  { unfold assert_ff_jump_legal. destruct (vm_egress s) as [eg|]; [|done]. cbn. by rewrite (Hq eg eq_refl). }
  pose proof (vtsc_from_host_fits (vm_cells s) clock (e_host e)) as [Hn0 _].
  set (now := vtsc_from_host _ _ _) in *.
  rewrite as_i64_id by (unfold fits_i64, I64_MIN, I64_MAX; lia).
  destruct (bump_offset _ _ _ _) as [[σ v]|err] eqn:Ebump.
  - rewrite (bump_offset_shift _ _ _ _ _ _ clock _ Ebump eq_refl). fold now.
    rewrite as_u64_id by (unfold fits; lia). by rewrite (proj2 (Z.eqb_eq _ _)) by lia.
  - destruct err; try done. unfold bump_offset in Ebump.
    destruct (next - now <? 0) eqn:En; bool_prop; [lia|].
    destruct (checked_add_i64 _ _); [|done]. unfold write_tsc_offset in Ebump.
    by destruct (kvm_set_tsc_offset _ _).
Qed.

Lemma gate_park_same e eg (s : VM) :
  match gate_park io clock e eg s with
  | Again s' | Done _ s' | Stop _ s' => same_time s s'
  | Panic => False
  end.
Proof.
  unfold gate_park. destruct (park_and_read _ _ _ _ _) as [s1|] eqn:E; [|done].
  apply park_and_read_same in E as (? & _). by destruct (maybe_warn_long_gate _ _).
Qed.

Lemma same_time_trans (s1 s2 s3 : VM) : same_time s1 s2 -> same_time s2 s3 -> same_time s1 s3.
Proof. intros (? & ? & ?) (? & ? & ?). unfold same_time. split_and!; congruence. Qed.

Lemma real_wait_time e (s : VM) :
  match real_wait_turn (J := J) io clock horizon fuel e s with
  | Again s' | Done _ s' | Stop _ s' => same_time s s'
  | Panic => True
  end.
Proof.
  unfold real_wait_turn. destruct (boundary _ _ _ _ e s) as [t|s1] eqn:E; [by apply boundary_stop in E|].
  apply boundary_go in E as (T & _). destruct (park_and_read _ _ _ _ _) as [s2|] eqn:E2; [|done].
  apply park_and_read_same in E2 as (T2 & _). by eapply same_time_trans.
Qed.

(** The clock moved forward and still is the guest's. *)
Definition moved (s s' : VM) : Prop :=
  coherent (vm_cells s') clock (vm_vcpu s')
  /\ tsc_offset (vm_cells s) clock <= tsc_offset (vm_cells s') clock.

Lemma ff_turn_time e (s : VM) :
  match fast_forward_turn (J := J) io clock horizon fuel above e s with
  | Again s' => same_time s s' \/ moved s s'
  | Done _ s' | Stop _ s' => same_time s s'
  | Panic => True
  end.
Proof.
  unfold fast_forward_turn. destruct (console_probe io e s) as [s1|] eqn:E1; [|done].
  apply console_probe_same in E1 as (T1 & _).
  destruct (boundary _ _ _ _ e s1) as [t|s2] eqn:E2.
  { apply boundary_stop in E2. destruct t; eauto using same_time_trans. }
  apply boundary_go in E2 as (T2 & _). pose proof (same_time_trans _ _ _ T1 T2) as T. cbv zeta.
  destruct (match vm_egress s2 with Some _ => _ | None => _ end) as [eg|].
  { pose proof (gate_park_same e eg s2) as Hg. destruct (gate_park _ _ _ _ _); eauto using same_time_trans. }
  destruct (peek_deadline _) as [next|].
  - destruct (jump _ _ _ _ _ _) as [s3| |err s3|] eqn:Ej; [|by apply jump_not_done in Ej| |done].
    + apply jump_moves in Ej as [->|(_ & _ & _ & _ & Hco & _ & _ & _ & _ & Hle)]; [by left|].
      right. split; [done|]. by destruct T as (<- & _).
    + by apply jump_stop in Ej as ->.
  - destruct (park_and_read _ _ _ _ _) as [s3|] eqn:E3; [|done].
    apply park_and_read_same in E3 as (T3 & _). left. by eapply same_time_trans.
Qed.

(** What a turn does to the clock, in the form the loop composes. *)
Definition time_kept (ff : bool) (s s' : VM) : Prop :=
  coherent (vm_cells s') clock (vm_vcpu s')
  /\ tsc_offset (vm_cells s) clock <= tsc_offset (vm_cells s') clock
  /\ (ff = false -> same_time s s').

Lemma same_time_kept ff (s s' : VM) :
  coherent (vm_cells s) clock (vm_vcpu s) -> same_time s s' -> time_kept ff s s'.
Proof. intros Hc (Ec & Ev & Ef). unfold time_kept, coherent, same_time in *. rewrite Ec, Ev, Ef. done. Qed.

Lemma moved_kept (s s' : VM) : moved s s' -> time_kept true s s'.
Proof. by intros []. Qed.

(** The outcomes of a whole turn are those of its boundary. *)
Lemma turn_done (ff : bool) e (s : VM) o (s' : VM) :
  (if ff then fast_forward_turn (J := J) io clock horizon fuel above
   else real_wait_turn (J := J) io clock horizon fuel) e s = Done o s' ->
  exists s1, same_time s s1 /\ boundary (J := J) io clock horizon fuel e s1 = inl (Done o s').
Proof.
  destruct ff.
  - unfold fast_forward_turn. destruct (console_probe io e s) as [s1|] eqn:E1; [|done].
    apply console_probe_same in E1 as (T1 & _). destruct (boundary _ _ _ _ e s1) as [t|s2] eqn:E2; cbv zeta.
    { intros ->. eauto. }
    destruct (match vm_egress s2 with Some _ => _ | None => _ end) as [eg|].
    { unfold gate_park. destruct (park_and_read _ _ _ _ _); [|done]. by destruct (maybe_warn_long_gate _ _). }
    destruct (peek_deadline _); [by intros ?%jump_not_done|]. by destruct (park_and_read _ _ _ _ _).
  - unfold real_wait_turn. destruct (boundary _ _ _ _ e s) as [t|s2] eqn:E2; [|by destruct (park_and_read _ _ _ _ _)].
    intros ->. by exists s.
Qed.

(** ** An idle guest *)

(** Nothing but the clock can wake the guest: a closed console, no reply of
    the agent, no egress channel; a one-shot timer, unmasked, whose vector
    the guest would take. *)
Record idle (s : VM) : Prop := {
  idle_console : stdin_open (vm_parker s) = false;
  idle_agent : ch_tx (vm_com2 s) = [];
  idle_egress : vm_egress s = None;
  idle_oneshot : timer_period (vm_lapic s) = 0;
  idle_unmasked : timer_masked (vm_lapic s) = false;
  idle_tick : is_Some (deliverable_vector (raise (vm_lapic s) (timer_vector (vm_lapic s))));
}.

Lemma drain_agent_idle (s : VM) : ch_tx (vm_com2 s) = [] -> park_drain_agent (J := J) s = (false, s).
Proof.
  intros Ha. unfold park_drain_agent. rewrite Ha. cbn [length drain_lines]. unfold poll_line. rewrite Ha.
  cbn. by destruct s.
Qed.

Lemma pump_egress_idle (s : VM) : vm_egress s = None -> pump_egress io s = (Ok tt, s).
Proof. intros Hg. unfold pump_egress. by rewrite Hg. Qed.

(** A turn of an idle guest: it wakes if a deadline is due, or jumps. *)
Lemma idle_turn e (s : VM) : idle s ->
  let now := vtsc_from_host (vm_cells s) clock (e_now e) in
  let t := fast_forward_turn (J := J) io clock horizon fuel above e s in
  if due now horizon then exists s', t = Done ParkHorizon s'
  else (exists s', t = Done Deliverable s') \/
       due now (timer_deadline (vm_lapic s)) = false
       /\ forall next, min_deadline (timer_deadline (vm_lapic s)) horizon = Some next ->
          exists q, t = jump clock horizon above e next (s <| vm_events := q |>).
Proof.
  intros [Hc Ha Hg Ho Hm Ht]. cbv zeta. set (now := vtsc_from_host _ _ _).
  unfold fast_forward_turn, console_probe. rewrite Hc. unfold boundary, timers_service. fold now.
  destruct (service_timers_eq fuel (vm_lapic s) (vm_events s) horizon now) as (q & -> & Hp).
  assert (exists l', fire_timer_if_due fuel (vm_lapic s) now = Some (due now (timer_deadline (vm_lapic s)), l')
    /\ if due now (timer_deadline (vm_lapic s)) then is_Some (deliverable_vector l') else l' = vm_lapic s)
    as (l' & -> & Hl').
  { destruct (due now _) eqn:Ed; [|by rewrite fire_not_due' by done; eauto].
    unfold fire_timer_if_due. destruct (timer_deadline (vm_lapic s)) as [dl|] eqn:Edl; [|done]. cbn in Ed.
    rewrite Ed, Ho. cbn [Z.ltb Z.compare mbind option_bind].
    change (timer_masked _) with (timer_masked (vm_lapic s)). rewrite Hm. by eexists. }
  cbn [mbind option_bind fired_horizon snd].
  destruct (due now horizon) eqn:Eh; [by eexists|].
  rewrite drain_agent_idle by done. rewrite pump_egress_idle by done. vfields.
  destruct (due now (timer_deadline (vm_lapic s))) eqn:Ed.
  { left. rewrite bool_decide_eq_true_2 by done. by eexists. }
  subst l'. destruct (bool_decide _); [left; by eexists|]. right. split; [done|].
  intros next Hn. vfields. rewrite Hg.
  assert (forall d, due now d = false -> ahead now d = d) as Hah.
  { intros [d|]; [|done]. cbn. by intros ->. }
  rewrite Hp, !Hah, Hn by done. by exists q.
Qed.

(** A jump that KVM accepts: from its sample on, the clock has passed [next]. *)
Lemma jump_reaches e next (s : VM) :
  let off := tsc_offset (vm_cells s) clock in
  vm_egress s = None -> 0 <= next < 2 ^ 63 -> 0 <= e_host e < 2 ^ 63 -> 0 <= e_host e + off -> fits_i64 off ->
  (forall o, fits_i64 o -> is_Some (kvm_set_tsc_offset (vm_vcpu s) o)) ->
  next - vtsc_from_host (vm_cells s) clock (e_host e) <= max_jump_cycles (vm_ff s) \/ horizon = Some next ->
  exists σ v ff, jump clock horizon above e next s = Again (s <| vm_cells := σ |> <| vm_vcpu := v |> <| vm_ff := ff |>)
  /\ forall x, e_host e <= x < 2 ^ 63 -> next <= vtsc_from_host σ clock x.
Proof.
  cbv zeta. intros Hg Hn Hh Hho Hoff Hk Hb.
  pose proof (jump_no_panic e next s Hn ltac:(intros eg; by rewrite Hg)) as Hnp. revert Hnp. unfold jump.
  assert (forall x, e_host e <= x < 2 ^ 63 ->
    vtsc_from_host (vm_cells s) clock x = x + tsc_offset (vm_cells s) clock) as Hv.
  { intros x Hx. unfold vtsc_from_host. unfold fits_i64, I64_MIN, I64_MAX in Hoff. apply as_u64_id. unfold fits. lia. }
  destruct (Z.leb_spec next (vtsc_from_host (vm_cells s) clock (e_host e))) as [Hle|Hlt].
  { intros _. exists (vm_cells s), (vm_vcpu s), (vm_ff s). split; [by destruct s|]. intros x Hx.
    rewrite Hv in * by lia. lia. }
  assert (negb (bool_decide (horizon = Some next)) &&
    (max_jump_cycles (vm_ff s) <? next - vtsc_from_host (vm_cells s) clock (e_host e)) = false) as ->.
  { destruct Hb as [Hb| ->]; [|by rewrite bool_decide_eq_true_2]. apply andb_false_intro2. apply Z.ltb_ge. lia. }
  rewrite Hg. cbn. set (now := vtsc_from_host _ _ _) in *.
  assert (0 <= now) by apply vtsc_from_host_fits.
  rewrite as_i64_id by (unfold fits_i64, I64_MIN, I64_MAX; lia).
  assert (now = e_host e + tsc_offset (vm_cells s) clock) as En by (apply Hv; lia).
  assert (fits_i64 (tsc_offset (vm_cells s) clock + (next - now))) as Hf
    by (unfold fits_i64, I64_MIN, I64_MAX in *; lia).
  destruct (Hk _ Hf) as [v' Hv'].
  rewrite (bump_offset_ok _ clock _ _ v') by (done || lia). cbn.
  destruct (_ =? next); [|done]. intros _. do 3 eexists. split; [done|]. intros x Hx.
  unfold vtsc_from_host. rewrite tsc_offset_insert, as_u64_id by (unfold fits; lia). lia.
Qed.
End park_proofs.

Section park_theorems.
Context {A C U V J : Type} `{EgressConnector A C, Epoll C, Uart U, KvmTsc V, Json (Reply J)}.
Context (io : Ioapic) (clock : VirtualClock) (horizon : option Z) (fuel : nat) (above : Z -> Z -> bool).
Abbreviation VM := (Vm U C V).
Abbreviation ff_turn := (fast_forward_turn (J := J) io clock horizon fuel above).

(** ** Properties *)

(** C1: When virtual time moves: a fast-forward turn that changes the clock
    jumps forward to the next queued deadline and lands on it exactly, as read
    by every clone of the clock at the same host sample and by the guest's own
    TSC; it is within the single-jump bound unless it goes to the horizon, and
    never past the horizon; no interrupt was deliverable; and if there is an
    egress channel it was quiescent, so no external connection saw the jump. *)
Theorem ff_jump_sound e (s s' : VM) :
  ff_turn e s = Again s' -> vm_cells s' <> vm_cells s ->
  exists next, peek_deadline (vm_events s') = Some next
  /\ vtsc_from_host (vm_cells s) clock (e_host e) < next
  /\ (forall c', tsc_offset_cell c' = tsc_offset_cell clock -> vtsc_from_host (vm_cells s') c' (e_host e) = next)
  /\ guest_rdtsc (vm_vcpu s') (e_host e) = next
  /\ (next - vtsc_from_host (vm_cells s) clock (e_host e) <= max_jump_cycles (vm_ff s) \/ horizon = Some next)
  /\ (forall h, horizon = Some h -> next <= h)
  /\ deliverable_vector (vm_lapic s') = None
  /\ (forall eg, vm_egress s' = Some eg -> is_quiescent (eg_backend eg) = true)
  /\ jumps (vm_ff s') = as_u64 (jumps (vm_ff s) + 1).
Proof.
  unfold fast_forward_turn. destruct (console_probe io e s) as [s1|] eqn:E1; [|done].
  apply console_probe_same in E1 as ((Tc & Tv & Tf) & (Td & _) & Eg1 & _).
  destruct (boundary _ _ _ _ e s1) as [t|s2] eqn:E2.
  { apply boundary_stop in E2. destruct t; try done. intros [= <-]. destruct E2 as (? & _). congruence. }
  apply boundary_go in E2 as ((Tc2 & Tv2 & Tf2) & Hdue & Hpk & Hdel & _). cbv zeta.
  destruct (match vm_egress s2 with Some _ => _ | None => _ end) as [eg|].
  { pose proof (gate_park_same io clock e eg s2) as Hg. destruct (gate_park _ _ _ _ _); try done.
    intros [= <-]. destruct Hg as (? & _). congruence. }
  destruct (peek_deadline (vm_events s2)) as [next|] eqn:Ep.
  2: { destruct (park_and_read _ _ _ _ _) as [s3|] eqn:E3; [|done]. intros [= <-].
       apply park_and_read_same in E3 as ((? & _) & _). congruence. }
  intros Hj Hne. apply jump_moves in Hj as [->|(Hlt & Hland & Hb & Hq & Hco & El & Ev & Ee & Ejs & _)]; [congruence|].
  rewrite Tc2, Tc, Tf2, Tf in *. exists next. rewrite El, Ev, Ee. split; [done|]. split; [done|].
  split. { intros c' Hc. rewrite <- Hland. unfold vtsc_from_host, tsc_offset. by rewrite Hc. }
  split. { rewrite <- Hland. unfold guest_rdtsc, vtsc_from_host. by rewrite Hco. }
  split; [done|]. split; [|done]. intros h Hh. revert Hpk. rewrite Hh in Hdue |- *. cbn in Hdue |- *.
  rewrite Hdue. destruct (ahead _ _) as [d|]; cbn; intros [= ->]; lia.
Qed.

(** C27: A park keeps the clock whole and returns only for its reasons:
    however many turns it takes and whatever the host answers in them, a
    clock that was the guest's own TSC still is, and its offset never went
    back (without fast-forward nothing of it changed at all); the park wakes
    the guest only with a deliverable interrupt, ends at the horizon only
    when the clock has reached it, and ends for a driver only with a verdict
    recorded. *)
Theorem park_run_sound (ff : bool) es (s : VM) :
  coherent (vm_cells s) clock (vm_vcpu s) ->
  match park_until_deliverable (J := J) io clock horizon fuel above ff es s with
  | Panic => True
  | Again s' | Done _ s' | Stop _ s' =>
      coherent (vm_cells s') clock (vm_vcpu s')
      /\ tsc_offset (vm_cells s) clock <= tsc_offset (vm_cells s') clock
      /\ (ff = false -> same_time s s')
  end
  /\ forall o s', park_until_deliverable (J := J) io clock horizon fuel above ff es s = Done o s' ->
     match o with
     | Deliverable => is_Some (deliverable_vector (vm_lapic s'))
     | ParkHorizon => exists e h, e ∈ es /\ horizon = Some h /\ h <= vtsc_from_host (vm_cells s') clock (e_now e)
     | ParkDriverFinish => is_Some (verdict (vm_driver s'))
     end.
Proof.
  unfold park_until_deliverable. revert s. induction es as [|e es IH]; intros s Hco; cbn [park_loop].
  { split; [|done]. split_and!; done. }
  assert (Htime : match (if ff then ff_turn else real_wait_turn (J := J) io clock horizon fuel) e s with
    | Panic => True
    | Again s' | Done _ s' | Stop _ s' => time_kept clock ff s s'
    end).
  { destruct ff; [pose proof (ff_turn_time (J := J) io clock horizon fuel above e s) as Ht
                 |pose proof (real_wait_time (J := J) io clock horizon fuel e s) as Ht];
      case_match; try done; try (destruct Ht as [Ht|Ht]; [|by apply moved_kept]); by apply same_time_kept. }
  pose proof (turn_done (J := J) io clock horizon fuel above ff e s) as Hdone.
  destruct ((if ff then ff_turn else _) e s) as [s1|o s1|err s1|] eqn:E; [| | |done].
  - destruct Htime as (Hc1 & Hle & Hs1). destruct (IH s1 Hc1) as [IH1 IH2]. split.
    + revert IH1. destruct (park_loop _ es s1); try done;
        (intros (? & ? & ?); split_and!; [done|lia|eauto using same_time_trans]).
    + intros o s' Ho. specialize (IH2 o s' Ho). destruct o; [done| |done].
      destruct IH2 as (e' & h & ? & ?). exists e', h. split; [by right|done].
  - split; [done|]. intros o' s' [= <- <-]. destruct (Hdone o s1 eq_refl) as (s0 & (T0 & _) & Hb).
    pose proof (boundary_stop _ _ _ _ _ _ _ Hb) as (T1 & _). apply boundary_done in Hb.
    destruct o; [done| |done]. destruct Hb as (h & -> & Hh). exists e, h. split; [left|]. split; [done|].
    by rewrite T1.
  - by split.
Qed.

(** C2: The always-on asserts never fire in normal operation: with unsafe
    jumps off, deadlines and horizon below 2^63 and enough fuel for the timer
    re-arm, a fast-forward turn does not panic: not on the queue discipline,
    not on the egress gate, not on the landing check and not on a negative
    bump. *)
Theorem ff_turn_never_panics e (s : VM) :
  lapic_wf (vm_lapic s) ->
  rearm_ends fuel (vm_lapic s) (vtsc_from_host (vm_cells s) clock (e_now e)) ->
  (forall dl, timer_deadline (vm_lapic s) = Some dl -> dl < 2 ^ 63) ->
  (forall h, horizon = Some h -> 0 <= h < 2 ^ 63) ->
  (forall eg, vm_egress s = Some eg -> unsafe_jumps eg = false) ->
  ff_turn e s <> Panic.
Proof.
  intros Hl Hr Hd Hh Hu. unfold fast_forward_turn. destruct (console_probe io e s) as [s1|] eqn:E1; [|done].
  apply console_probe_same in E1 as ((Tc & Tv & Tf) & (Td & Tp) & Eg1 & _).
  destruct (boundary _ _ _ _ e s1) as [t|s2] eqn:E2.
  { intros ->. unfold boundary, timers_service in E2. rewrite Tc in E2.
    destruct (service_timers_eq fuel (vm_lapic s1) (vm_events s1) horizon (vtsc_from_host (vm_cells s) clock (e_now e)))
      as (q' & Hs & _). rewrite Hs in E2.
    destruct (fire_ends fuel (vm_lapic s1) (vtsc_from_host (vm_cells s) clock (e_now e))) as [r Hf].
    { intros dl. rewrite Td, Tp. apply Hr. }
    rewrite Hf in E2. cbn in E2. destruct (due _ _); [done|].
    destruct (park_drain_agent _) as [[] ?]; [done|]. destruct (pump_egress _ _) as [[] ?]; [|done].
    by destruct (bool_decide _). }
  apply boundary_go in E2 as ((Tc2 & Tv2 & Tf2) & Hdue & Hpk & Hdel & Hun). cbv zeta.
  destruct (match vm_egress s2 with Some _ => _ | None => _ end) as [eg|] eqn:Egate.
  { pose proof (gate_park_same io clock e eg s2) as Hg. by destruct (gate_park _ _ _ _ _). }
  destruct (peek_deadline (vm_events s2)) as [next|] eqn:Ep; [|by destruct (park_and_read _ _ _ _ _)].
  apply jump_no_panic.
  - pose proof (lwf_deadline _ Hl) as Hf. symmetry in Hpk. unfold ahead, min_deadline in Hpk. rewrite Td in Hpk.
    destruct (timer_deadline (vm_lapic s)) as [dl|]; [specialize (Hd dl eq_refl); specialize (Hf dl eq_refl) as [? _]|];
      (destruct horizon as [h|]; [specialize (Hh h eq_refl)|]);
      repeat (destruct (_ <=? _)); simplify_eq; lia.
  - intros eg Heg. rewrite Heg in Egate. destruct (Hun eg Heg) as (eg0 & Heg0 & Hsafe).
    rewrite Eg1 in Heg0. rewrite (Hu eg0 Heg0) in Hsafe. rewrite Hsafe in Egate. cbn in Egate.
    unfold ch_quiescent in Egate. by destruct (is_quiescent _).
Qed.

(** C28: An idle guest does not hang: if only the clock can wake it and a
    one-shot timer or the horizon is pending within the jump bound, then with
    a host TSC that does not run backwards and a KVM that accepts offsets, two
    turns of the fast-forward park end it, with a deliverable interrupt or at
    the horizon. *)
Theorem idle_guest_makes_progress e1 e2 (s : VM) next :
  idle s -> min_deadline (timer_deadline (vm_lapic s)) horizon = Some next -> 0 <= next < 2 ^ 63 ->
  next - vtsc_from_host (vm_cells s) clock (e_host e1) <= max_jump_cycles (vm_ff s) \/ horizon = Some next ->
  0 <= e_host e1 <= e_now e2 -> e_now e2 < 2 ^ 63 ->
  0 <= e_host e1 + tsc_offset (vm_cells s) clock -> fits_i64 (tsc_offset (vm_cells s) clock) ->
  (forall o, fits_i64 o -> is_Some (kvm_set_tsc_offset (vm_vcpu s) o)) ->
  exists o s', park_until_deliverable (J := J) io clock horizon fuel above true [e1; e2] s = Done o s'
  /\ (o = Deliverable \/ o = ParkHorizon).
Proof.
  intros Hi Hn Hr Hb Hh He2 Hho Hoff Hk. unfold park_until_deliverable. cbn [park_loop].
  pose proof (idle_turn (J := J) io clock horizon fuel above e1 s Hi) as Ht1. cbv zeta in Ht1.
  destruct (due _ horizon); [destruct Ht1 as [s' ->]; eauto|].
  destruct Ht1 as [[s' ->]|[_ Ht1]]; [eauto|]. destruct (Ht1 next Hn) as [q ->].
  destruct (jump_reaches clock horizon above e1 next (s <| vm_events := q |>)) as (σ & v & f & -> & Hx);
    [apply Hi|done|lia|done|done|done|done|].
  pose proof (idle_turn (J := J) io clock horizon fuel above e2
    (s <| vm_events := q |> <| vm_cells := σ |> <| vm_vcpu := v |> <| vm_ff := f |>)) as Ht2.
  cbv zeta in Ht2. revert Ht2. vfields. intros Ht2. specialize (Ht2 ltac:(destruct Hi; by constructor)).
  specialize (Hx (e_now e2) ltac:(lia)).
  destruct (due _ horizon) eqn:Eh; [destruct Ht2 as [s' ->]; eauto|].
  destruct Ht2 as [[s' ->]|[Ed _]]; [eauto|]. exfalso. unfold due, min_deadline in *.
  destruct (timer_deadline (vm_lapic s)), horizon; bool_prop; simplify_eq; lia.
Qed.
End park_theorems.

(** ** Concrete parks *)

Definition toy_env : TurnEnv :=
  {| e_probe := fun _ => Ok 0; e_read := ReadEof; e_now := 50; e_now2 := 55; e_host := 60;
     e_ppoll := fun fds => Ok ((fun _ => 0) <$> fds); e_epoll_fd := 9; e_elapsed := 700; e_instant := 1000 |}.

(** An enabled LAPIC, its timer armed for vtsc 100, no egress channel. *)
Definition toy_vm (l : Lapic) : Vm ToyUart ToyHost ToyVcpu :=
  {| vm_lapic := l; vm_events := queue_new; vm_serial := {| toy_rx := []; toy_room := 16; toy_irq := false |};
     vm_parker := parker_new 5;
     vm_com2 := {| ch_serial := {| toy_rx := []; toy_room := 16; toy_irq := false |}; ch_tx := []; pending_rx := [] |};
     vm_egress := Some (toy_egress <| eg_tx := [] |>); vm_driver := driver_default;
     vm_cells := {[0%nat := 0]}; vm_vcpu := {| toy_offset := 0; toy_accepts := true |};
     vm_ff := ff_new 3072000000 1000 0 |}.

Definition toy_turn (l : Lapic) (horizon : option Z) : turn (Vm ToyUart ToyHost ToyVcpu) :=
  fast_forward_turn (J := unit) (ioapic_new 2) toy_clock horizon 10 (fun _ _ => false) toy_env (toy_vm l).

Definition end_state {S} (t : turn S) (s : S) : S :=
  match t with Again s' | Done _ s' | Stop _ s' => s' | Panic => s end.

(** The clock reads 60 at the jump's sample; the timer is due at 100. *)
Lemma ff_jump_sound_witness :
  guest_rdtsc (vm_vcpu (end_state (toy_turn toy_periodic (Some 5000)) (toy_vm toy_periodic))) 60 = 100.
Proof.
  destruct (ff_jump_sound (J := unit) (ioapic_new 2) toy_clock (Some 5000) 10 (fun _ _ => false) toy_env
    (toy_vm toy_periodic) (end_state (toy_turn toy_periodic (Some 5000)) (toy_vm toy_periodic)))
    as (next & Hn & _ & _ & Hg & _).
  - by vm_compute.
  - by vm_compute.
  - assert (peek_deadline (vm_events (end_state (toy_turn toy_periodic (Some 5000)) (toy_vm toy_periodic))) = Some 100)
      as E by by vm_compute.
    rewrite E in Hn. injection Hn as <-. exact Hg.
Defined.

Lemma ff_turn_never_panics_witness : toy_turn toy_periodic (Some 5000) <> Panic.
Proof.
  apply (ff_turn_never_panics (J := unit) (ioapic_new 2) toy_clock (Some 5000) 10 (fun _ _ => false) toy_env
    (toy_vm toy_periodic)).
  - apply toy_periodic_wf.
  - intros dl [= <-] Hle. exfalso. revert Hle. by vm_compute.
  - intros dl [= <-]. lia.
  - intros h [= <-]. lia.
  - intros eg [= <-]. reflexivity.
Defined.

Lemma park_run_sound_witness :
  let s' := end_state (park_until_deliverable (J := unit) (ioapic_new 2) toy_clock (Some 5000) 10 (fun _ _ => false)
              true [toy_env; toy_env] (toy_vm toy_periodic)) (toy_vm toy_periodic) in
  tsc_offset (vm_cells s') toy_clock = 40 /\ coherent (vm_cells s') toy_clock (vm_vcpu s').
Proof.
  destruct (park_run_sound (J := unit) (ioapic_new 2) toy_clock (Some 5000) 10 (fun _ _ => false)
    true [toy_env; toy_env] (toy_vm toy_periodic)) as [Ht _]; [reflexivity|].
  revert Ht. destruct (park_until_deliverable _ _ _ _ _ _ _ _) as [s'|o s'|err s'|] eqn:E;
    [| |exfalso; revert E; by vm_compute|exfalso; revert E; by vm_compute]; intros (Hc & _ & _); cbn [end_state];
    (split; [|exact Hc]); revert E; vm_compute; intros [= <-]; reflexivity.
Defined.

(** An idle guest: a one-shot timer for 100, nothing else. *)
Definition idle_vm : Vm ToyUart ToyHost ToyVcpu :=
  (toy_vm (toy_lapic <| svr := 0x1ff |> <| lvt_timer := 0xec |> <| timer_deadline := Some 100 |>))
    <| vm_egress := None |> <| vm_parker := close_stdin (parker_new 5) |>.

Lemma idle_guest_makes_progress_witness :
  exists o s', park_until_deliverable (J := unit) (ioapic_new 2) toy_clock (Some 5000) 10 (fun _ _ => false)
    true [toy_env; toy_env <| e_now := 70 |>] idle_vm = Done o s' /\ (o = Deliverable \/ o = ParkHorizon).
Proof.
  apply (idle_guest_makes_progress (J := unit) (ioapic_new 2) toy_clock (Some 5000) 10 (fun _ _ => false)
    toy_env (toy_env <| e_now := 70 |>) idle_vm 100).
  - constructor; vm_compute; try reflexivity. by eexists.
  - reflexivity.
  - lia.
  - left. apply Z.leb_le. by vm_compute.
  - cbn. lia.
  - cbn. lia.
  - apply Z.leb_le. by vm_compute.
  - by apply (bool_decide_eq_true_1 _); vm_compute.
  - intros o _. by eexists.
Defined.

(** A masked periodic timer, due at 40 with period 40. *)
Definition masked_periodic : Lapic :=
  toy_lapic <| lvt_timer := 0x300ec |> <| timer_deadline := Some 40 |> <| timer_period := 40 |>.

(** The jump can pass the timer's own next deadline: with a masked
    periodic timer (due at 40, period 40) serviced at 50 and a horizon at
    1000, the tick is re-armed for 80 but only the horizon is queued, so the
    turn jumps to 1000, past the armed deadline. *)
Theorem jump_passes_rearmed_tick :
  exists s', toy_turn masked_periodic (Some 1000) = Again s'
  /\ timer_deadline (vm_lapic s') = Some 80 /\ vtsc_from_host (vm_cells s') toy_clock 60 = 1000.
Proof.
  exists (end_state (toy_turn masked_periodic (Some 1000)) (toy_vm masked_periodic)).
  split_and!; by vm_compute.
Qed.
