(* ===== verification/Run.v ===== *)
(** * The run: the vCPU loop and its end ([src/src/main.rs], [run_user_backend], [drive_until_reply])

    The loop body as a function of the whole machine and of what the host and
    the guest answer during the turn ([RunEnv]), composed of the steps of
    [Timers], [Control], [EgressChannel], [Driver], [Conscan], [Dispatch],
    [Doorbell] and [Vmm]; the loop, the run's outcome, and the capture loop
    that drives the still-alive guest until a reply arrives.  The diagnostics
    watchdog and the reports are output and not modelled; the protocol of the
    immediate_exit byte with the signal is [Doorbell]'s.  The theorem: a run
    keeps the machine sound on any guest, and ends only for the reason it
    gives. *)

From Stdlib Require Import ZArith Lia.
From stdpp Require Import base numbers strings gmap list.
From S2P Require Import Prelude.
From S2P Require Import Arch.
From S2P Require Import Vtsc.
From S2P Require Import Events.
From S2P Require Import Pic.
From S2P Require Import Pit.
From S2P Require Import Ioapic.
From S2P Require Import Lapic.
From S2P Require Import Timers.
From S2P Require Import Proto.
From S2P Require Import Driver.
From S2P Require Import Control.
From S2P Require Import Conscan.
From S2P Require Import EgressCodec.
From S2P Require Import Egress.
From S2P Require Import EgressSpec.
From S2P Require Import EgressChannel.
From S2P Require Import Doorbell.
From S2P Require Import Park.
From S2P Require Import Telemetry.
From S2P Require Import Dispatch.
From S2P Require Import Vmm.

Open Scope Z_scope.

Definition EAGAIN : Z := 11.

(** ** The machine *)

(** Why KVM_RUN returned; an [IoIn] and an [MmioRead] wait for data. *)
Inductive VcpuExit :=
  | IoOut (port : Z) (data : list Z) | IoIn (port : Z) (n : nat)
  | MmioRead (addr : Z) (data : list Z) | MmioWrite (addr : Z) (data : list Z)
  | IrqWindowOpen | HltExit | ShutdownExit | SystemEvent (type_ : Z)
  | FailEntry (reason cpu : Z) | InternalError | OtherExit.

(** The devices, the rest of what the park touches, the doorbell with the host
    timer it programs, the shared kvm_run page and the data last given back
    to the guest, the console scanner (its tee buffer is the one of the
    console writer) and the HLT count. *)
Record Machine (U C V : Type) := {
  mc_dev : Devices U C; mc_events : EventQueue (T := TimerKind); mc_parker : Parker; mc_driver : DriverRun;
  mc_cells : cells; mc_vcpu : V; mc_ff : FfState; mc_bell : Doorbell; mc_ie : bool; mc_timer : option itimerspec;
  mc_page : KvmRun; mc_data : list Z; mc_scan : option ConsoleScan; mc_hlts : Z;
}.
Arguments Build_Machine {U C V}.
Arguments mc_dev {U C V}.
Arguments mc_events {U C V}.
Arguments mc_parker {U C V}.
Arguments mc_driver {U C V}.
Arguments mc_cells {U C V}.
Arguments mc_vcpu {U C V}.
Arguments mc_ff {U C V}.
Arguments mc_bell {U C V}.
Arguments mc_ie {U C V}.
Arguments mc_timer {U C V}.
Arguments mc_page {U C V}.
Arguments mc_data {U C V}.
Arguments mc_scan {U C V}.
Arguments mc_hlts {U C V}.

#[export] Instance eta_Machine U C V : Settable (Machine U C V) := fun m =>
  Build_Machine (mc_dev m) (mc_events m) (mc_parker m) (mc_driver m) (mc_cells m) (mc_vcpu m) (mc_ff m) (mc_bell m)
    (mc_ie m) (mc_timer m) (mc_page m) (mc_data m) (mc_scan m) (mc_hlts m).

(** The host and the guest during a turn: the TSC samples, the injection
    ioctl, whether the doorbell rang before it is armed, what KVM_RUN gave and
    the page it left, the device samples, fd 1, whether the signal handler ran,
    the turns of a park, and whether the capture's wall deadline has passed. *)
Record RunEnv := {
  r_now : Z; r_scan_now : Z; r_inject : Z -> result Z unit; r_arm : Z; r_fired : bool;
  r_run : result Z VcpuExit; r_page : KvmRun; r_tsc : nat -> Z; r_fd1 : list Z -> option nat;
  r_hlt_now : Z; r_rang : bool; r_park : list TurnEnv; r_wall : bool;
}.

Inductive RunError :=
  | ErrRunEgress (e : EgressError) | ErrInject (errno : Z) | ErrKvmRun (errno : Z)
  | ErrPark (e : ParkError) | ErrFailEntry (reason cpu : Z) | ErrInternal.

(** Where a panic would be. *)
Inductive CrashAt := InTimers | InDevice | InPark.

Inductive run_step (M : Type) :=
  | Next (m : M)
  | Ended (why : StopReason) (m : M)
  | Failed (e : RunError) (m : M)
  | Crashed (at_ : CrashAt) (m : M)
  | Parked (m : M).  (** the turns given for the park are over, it still waits *)
Arguments Next {M} m.
Arguments Ended {M} why m.
Arguments Failed {M} e m.
Arguments Crashed {M} at_ m.
Arguments Parked {M} m.

Section run.
Context {A C U V J : Type} `{EgressConnector A C, Epoll C, Uart U, KvmTsc V, Json (Reply J)}.
Abbreviation M := (Machine U C V).

Context (clock : VirtualClock) (fuel : nat) (above : Z -> Z -> bool) (ff : bool).
Context (fixed3 : Z -> Z -> bytes) (open_ok : bytes -> bool) (write_ok : bytes -> bytes -> bool).

(** The part of the machine the park works on. *)
Definition vm_of (m : M) : Vm U C V :=
  let d := mc_dev m in
  Build_Vm (dv_lapic d) (mc_events m) (dv_serial d) (mc_parker m) (dv_com2 d) (dv_egress d) (mc_driver m) (mc_cells m)
    (mc_vcpu m) (mc_ff m).

Definition dev_of (d : Devices U C) (s : Vm U C V) : Devices U C :=
  d <| dv_lapic := vm_lapic s |> <| dv_serial := vm_serial s |> <| dv_com2 := vm_com2 s |> <| dv_egress := vm_egress s |>.

Definition with_dev (m : M) (d : Devices U C) : M := m <| mc_dev := d |>.

Definition with_vm (m : M) (s : Vm U C V) : M :=
  (with_dev m (dev_of (mc_dev m) s))
    <| mc_events := vm_events s |> <| mc_parker := vm_parker s |> <| mc_driver := vm_driver s |>
    <| mc_cells := vm_cells s |> <| mc_vcpu := vm_vcpu s |> <| mc_ff := vm_ff s |>.

Definition pump_com2 (m : M) : M :=
  let d := mc_dev m in
  let '(c, l) := control_pump (dv_com2 d) (dv_lapic d) (dv_ioapic d) in
  with_dev m (d <| dv_com2 := c |> <| dv_lapic := l |>).

(** [conscan.drain]: the scanner takes the tee buffer. *)
Definition scan_console (now : Z) (m : M) : M :=
  match mc_scan m with
  | None => m
  | Some sc =>
      let con := dv_console (mc_dev m) in
      let sc := conscan_drain fixed3 open_ok write_ok (sc <| cs_tee := default [] (tee con) |>) now in
      let con := {| tee := (fun _ => []) <$> tee con; overflowed := overflowed con |} in
      let d := mc_dev m in
      (with_dev m (d <| dv_console := con |>)) <| mc_scan := Some sc |>
  end.

(** Steps 2 to 4 up to KVM_RUN: sync and inject, then arm the doorbell. *)
Definition enter (e : RunEnv) (m : M) : result Z M :=
  '(_, l, page) ← inject_step (r_inject e) (dv_lapic (mc_dev m)) (mc_page m);
  let deadline := min_deadline (peek_deadline (mc_events m)) (timer_deadline l) in
  let '(bell, _, program) := arm (mc_bell m) (r_fired e) deadline (doorbell_spec (mc_cells m) clock (r_arm e) deadline) in
  let d := mc_dev m in
  Ok ((with_dev m (d <| dv_lapic := l |>)) <| mc_page := page |> <| mc_bell := bell |>
        <| mc_timer := match program with Some spec => settime spec | None => mc_timer m end |>).

(** The exits that only touch a device; [None] for the others. *)
Definition device_exit (com4 : bool) (e : RunEnv) (exit : VcpuExit) (m : M) : option (run_step M) :=
  let d := mc_dev m in
  match exit with
  | IoOut port data =>
      Some match io_out (mc_cells m) (r_tsc e) (r_fd1 e) com4 port data d with
           | Some d => Next (with_dev m d) | None => Crashed InDevice m end
  | IoIn port n =>
      Some match io_in (mc_cells m) (r_tsc e) com4 port n d with
           | Some (bs, d) => Next ((with_dev m d) <| mc_data := bs |>) | None => Crashed InDevice m end
  | MmioRead addr data =>
      Some match mmio_read (mc_cells m) (r_tsc e) addr data d with
           | Some bs => Next (m <| mc_data := bs |>) | None => Crashed InDevice m end
  | MmioWrite addr data =>
      Some match mmio_write (mc_cells m) (r_tsc e) addr data d with
           | Some d => Next (with_dev m d) | None => Crashed InDevice m end
  | IrqWindowOpen | OtherExit => Some (Next m)
  | _ => None
  end.

(** The top of a turn: the immediate_exit byte, timers and horizon, the command
    pump.  [inr] says whether the horizon was reached. *)
Definition turn_top (horizon : option Z) (e : RunEnv) (m : M) : run_step M + (bool * M) :=
  let m := m <| mc_ie := clear_ie (mc_bell m) (mc_ie m) |> in
  let d := mc_dev m in
  match service_timers fuel (dv_lapic d) (mc_events m) horizon (vtsc_from_host (mc_cells m) clock (r_now e)) with
  | None => inl (Crashed InTimers m)
  | Some (l, q, f) => inr (fired_horizon f, (with_dev m (d <| dv_lapic := l |>)) <| mc_events := q |>)
  end.

Definition pump_egress_run (m : M) : result EgressError unit * M :=
  let '(r, s) := pump_egress (dv_ioapic (mc_dev m)) (vm_of m) in (r, with_vm m s).

(** A HLT of the run loop. *)
Definition run_hlt (horizon : option Z) (e : RunEnv) (m : M) : run_step M :=
  let m := scan_console (vtsc_from_host (mc_cells m) clock (r_hlt_now e)) m in
  if kr_if_flag (mc_page m) =? 0 then Ended GuestHalt m
  else
    let m := m <| mc_hlts := as_u64 (mc_hlts m + 1) |> in
    match park_until_deliverable (J := J) (dv_ioapic (mc_dev m)) clock horizon fuel above ff (r_park e) (vm_of m) with
    | Again s => Parked (with_vm m s)
    | Done Deliverable s => Next (with_vm m s)
    | Done ParkHorizon s => Ended Horizon (with_vm m s)
    | Done ParkDriverFinish s => Ended DriverFinish (with_vm m s)
    | Stop err s => Failed (ErrPark err) (with_vm m s)
    | Panic => Crashed InPark m
    end.

(** KVM_RUN and its exit. *)
Definition run_exit (horizon : option Z) (e : RunEnv) (m : M) : run_step M :=
  let m := m <| mc_page := r_page e |> <| mc_ie := mc_ie m || r_rang e |> in
  match r_run e with
  | Err errno => if (errno =? EINTR) || (errno =? EAGAIN) then Next m else Failed (ErrKvmRun errno) m
  | Ok exit =>
      match device_exit true e exit m with
      | Some s => s
      | None =>
          match exit with
          | HltExit => run_hlt horizon e m
          | ShutdownExit => Ended GuestShutdown m
          | SystemEvent _ => Ended GuestSystemEvent m
          | FailEntry reason cpu => Failed (ErrFailEntry reason cpu) m
          | _ => Failed ErrInternal m
          end
      end
  end.

(** One turn of the loop of [run_user_backend]. *)
Definition run_turn (horizon : option Z) (e : RunEnv) (m : M) : run_step M :=
  match turn_top horizon e m with
  | inl s => s
  | inr (true, m) => Ended Horizon m
  | inr (false, m) =>
      match pump_egress_run (pump_com2 m) with
      | (Err err, m) => Failed (ErrRunEgress err) m
      | (Ok _, m) =>
          let '(finished, s) := park_drain_agent (J := J) (vm_of m) in
          let m := with_vm m s in
          if finished then Ended DriverFinish m
          else
            match enter e (scan_console (vtsc_from_host (mc_cells m) clock (r_scan_now e)) m) with
            | Err errno => Failed (ErrInject errno) m
            | Ok m => run_exit horizon e m
            end
      end
  end.

Fixpoint run_loop (horizon : option Z) (es : list RunEnv) (m : M) : run_step M :=
  match es with
  | [] => Next m
  | e :: es => match run_turn horizon e m with Next m => run_loop horizon es m | s => s end
  end.

(** The end of [run_user_backend] when no logs are captured: the scanner is
    flushed and the verdict, if any, decides the exit code. *)
Definition run_end (why : StopReason) (now : Z) (m : M) : RunOutcome * M :=
  let d := mc_dev m in
  let con := dv_console d in
  let m := match mc_scan m with
           | None => m
           | Some sc =>
               let sc := conscan_finish fixed3 open_ok write_ok (sc <| cs_tee := default [] (tee con) |>) now in
               (with_dev m (d <| dv_console := {| tee := (fun _ => []) <$> tee con; overflowed := overflowed con |} |>))
                 <| mc_scan := Some sc |>
           end in
  (run_outcome (mc_driver m) why, m).

(** ** Driving the guest for a reply ([drive_until_reply]) *)

Inductive drive_step (R : Type) :=
  | Answered (r : R) (m : M)   (** [Ok(Some(rep))] *)
  | GaveUp (m : M)             (** [Ok(None)] *)
  | Aborted (m : M)            (** [Err(())] *)
  | Driving (m : M)
  | DriveCrashed
  | DriveParked (m : M).
Arguments Answered {R} r m.
Arguments GaveUp {R} m.
Arguments Aborted {R} m.
Arguments Driving {R} m.
Arguments DriveCrashed {R}.
Arguments DriveParked {R} m.
Abbreviation DS := (drive_step (Reply J)).

(** [while let Some(line) = com2.poll_line()]: the reply with the wanted id;
    every line takes a byte off the buffer, so its length is enough fuel. *)
Fixpoint find_reply (n : nat) (want : Z) (m : M) : option (Reply J) * M :=
  match n with
  | O => (None, m)
  | Datatypes.S n =>
      let d := mc_dev m in
      let '(line, c) := poll_line (dv_com2 d) in
      let m := with_dev m (d <| dv_com2 := c |>) in
      match line with
      | None => (None, m)
      | Some line =>
          match decode_line (T := Reply J) line with
          | Some rep => if bool_decide (rep_id rep = Some want) then (Some rep, m) else find_reply n want (pump_com2 m)
          | None => find_reply n want (pump_com2 m)
          end
      end
  end.

Definition drive_hlt (horizon : Z) (e : RunEnv) (m : M) : DS :=
  if kr_if_flag (mc_page m) =? 0 then Aborted m
  else
    let s := vm_of m in
    let back s := (with_vm m s) <| mc_driver := mc_driver m |> in
    match park_until_deliverable (J := J) (dv_ioapic (mc_dev m)) clock (Some horizon) fuel above ff (r_park e)
            (s <| vm_driver := driver_default |>) with
    | Again s => DriveParked (back s)
    | Done Deliverable s | Done ParkDriverFinish s => Driving (back s)
    | Done ParkHorizon s => GaveUp (back s)
    | Stop _ s => Aborted (back s)
    | Panic => DriveCrashed
    end.

Definition drive_exit (horizon : Z) (e : RunEnv) (m : M) : DS :=
  let m := m <| mc_page := r_page e |> <| mc_ie := mc_ie m || r_rang e |> in
  match r_run e with
  | Err errno => if (errno =? EINTR) || (errno =? EAGAIN) then Driving m else Aborted m
  | Ok exit =>
      match device_exit false e exit m with
      | Some (Next m) => Driving m
      | Some _ => DriveCrashed
      | None => match exit with HltExit => drive_hlt horizon e m | _ => Aborted m end
      end
  end.

Definition drive_turn (want horizon : Z) (e : RunEnv) (m : M) : DS :=
  let m := m <| mc_ie := clear_ie (mc_bell m) (mc_ie m) |> in
  if r_wall e then GaveUp m
  else
    match turn_top (Some horizon) e m with
    | inl _ => DriveCrashed
    | inr (true, m) => GaveUp m
    | inr (false, m) =>
        let m := pump_com2 m in
        match find_reply (Datatypes.S (length (ch_tx (dv_com2 (mc_dev m))))) want m with
        | (Some rep, m) => Answered rep m
        | (None, m) =>
            match pump_egress_run m with
            | (Err _, m) => Aborted m
            | (Ok _, m) => match enter e m with Err _ => Aborted m | Ok m => drive_exit horizon e m end
            end
        end
    end.

Fixpoint drive_loop (want horizon : Z) (es : list RunEnv) (m : M) : DS * list RunEnv :=
  match es with
  | [] => (Driving m, [])
  | e :: es => match drive_turn want horizon e m with Driving m => drive_loop want horizon es m | s => (s, es) end
  end.

Definition drive_until_reply (framed : list Z) (want horizon : Z) (es : list RunEnv) (m : M) : DS * list RunEnv :=
  let d := mc_dev m in
  let '(_, c) := poll_lines (Datatypes.S (length (ch_tx (dv_com2 d)))) (dv_com2 d) in
  drive_loop want horizon es (pump_com2 (with_dev m (d <| dv_com2 := send_frame c framed |>))).

End run.
Arguments Answered {C U V R} r m.
Arguments GaveUp {C U V R} m.
Arguments Aborted {C U V R} m.
Arguments Driving {C U V R} m.
Arguments DriveCrashed {C U V R}.
Arguments DriveParked {C U V R} m.

(** ** Lemmas: what a park does to the LAPIC and the driver *)

(** [P] holds of the state a turn ends in. *)
Definition turn_all {S} (P : S -> Prop) (t : turn S) : Prop :=
  match t with Again s | Done _ s | Stop _ s => P s | Panic => True end.

Lemma turn_all_impl {S} (P Q : S -> Prop) t : (forall s, P s -> Q s) -> turn_all P t -> turn_all Q t.
Proof. intros Hpq. destruct t; cbn; auto. Qed.

Section park_lapic.
Context {A C U V J : Type} `{EgressConnector A C, Epoll C, Uart U, KvmTsc V, Json (Reply J)}.
Context (io : Ioapic) (clock : VirtualClock) (horizon : option Z) (fuel : nat) (above : Z -> Z -> bool).
Context (Hio : ioapic_wf io).
Abbreviation VM := (Vm U C V).

(** A well-formed LAPIC and no verdict yet. *)
Definition undecided (s : VM) : Prop := lapic_wf (vm_lapic s) /\ verdict (vm_driver s) = None.

(** Only an end by the driver leaves a verdict. *)
Definition turn_ok (t : turn VM) : Prop :=
  match t with
  | Done ParkDriverFinish s => lapic_wf (vm_lapic s) /\ is_Some (verdict (vm_driver s))
  | Again s | Done _ s | Stop _ s => undecided s
  | Panic => True
  end.

Lemma console_service_ok e (s : VM) : undecided s -> undecided (console_service io e s).
Proof.
  intros [Hl Hv]. unfold console_service, service_console_input. destruct (read_console_input _ _) as [[n|] u]; [|done].
  destruct (0 <? n)%nat; [|done]. destruct (drain_irq u) as [[] u']; split; vfields; try done. by apply raise_irq_wf.
Qed.

Lemma park_and_read_ok e t fd (s s' : VM) : undecided s -> park_and_read io e t fd s = Ok s' -> undecided s'.
Proof.
  intros Hl. unfold park_and_read. destruct (snd _) as [w|]; [|done]. intros [= <-].
  destruct (w_input w); [by apply console_service_ok|done].
Qed.

Lemma pump_egress_ok (s : VM) r (s' : VM) : lapic_wf (vm_lapic s) -> pump_egress io s = (r, s') ->
  lapic_wf (vm_lapic s') /\ vm_driver s' = vm_driver s.
Proof.
  intros Hl. unfold pump_egress. destruct (vm_egress s) as [eg|]; [|by intros [= _ <-]].
  unfold channel_pump. destruct (backend_pump _ _) as [[[]|err] b]; [|by intros [= _ <-]].
  destruct (feed_guest _ _ _ _) as [[u b'] []]; [|intros Heq; injection Heq as _ <-; by split].
  destruct (after_uart_io u (vm_lapic s) io SERIAL4_IRQ) as [u' l'] eqn:Ea. intros [= _ <-]. split; [|done].
  vfields. eapply after_uart_io_wf; [exact Hl|exact Hio|exact Ea].
Qed.

Lemma timers_ok (l : Lapic) q h now l' q' f : lapic_wf l -> service_timers fuel l q h now = Some (l', q', f) -> lapic_wf l'.
Proof.
  intros Hl. destruct (service_timers_eq fuel l q h now) as (q0 & -> & _).
  destruct (fire_timer_if_due fuel l now) as [[b l0]|] eqn:Ef; [|done]. intros [= <- _ _]. by eapply fire_wf.
Qed.

(** Lines that do not stop the loop leave no verdict. *)
Lemma on_agent_line_goes_on (d d' : DriverRun) line :
  on_agent_line (V := J) d line = (false, d') -> verdict d = None -> verdict d' = None.
Proof.
  unfold on_agent_line. destruct (decode_line line) as [rep|]; [|by intros [= <-]].
  destruct (is_hello rep); [by intros [= <-]|]. destruct (rep_event rep) as [ev|]; [|by intros [= <-]].
  unfold on_event. destruct (bool_decide (ev_kind ev = OP_FINISH)); [by destruct (verdict d)|].
  destruct (bool_decide _); [|by intros [= <-]]. destruct (negb _); intros [= <-]; done.
Qed.

Lemma drain_lines_goes_on n : forall (c c' : ControlChannel U) d d',
  drain_lines (J := J) n c d = (false, c', d') -> verdict d = None -> verdict d' = None.
Proof.
  induction n as [|n IH]; intros c c' d d'; cbn [drain_lines]; [by intros [= _ <-]|].
  destruct (poll_line c) as [[line|] c1]; [|by intros [= _ <-]].
  destruct (on_agent_line d line) as [[] d1] eqn:E; [done|]. intros Hd Hv. eapply IH; [exact Hd|]. by eapply on_agent_line_goes_on.
Qed.

Lemma drain_agent_ok (s : VM) fin (s' : VM) : undecided s -> park_drain_agent (J := J) s = (fin, s') ->
  lapic_wf (vm_lapic s') /\ if fin then is_Some (verdict (vm_driver s')) else verdict (vm_driver s') = None.
Proof.
  intros [Hl Hv]. unfold park_drain_agent. destruct (drain_lines _ _ _) as [[f c] d] eqn:Ed. intros [= <- <-].
  split; [done|]. vfields. destruct f; [by eapply drain_lines_verdict|by eapply drain_lines_goes_on].
Qed.

Lemma boundary_ok e (s : VM) : undecided s ->
  match boundary (J := J) io clock horizon fuel e s with inl t => turn_ok t | inr s' => undecided s' end.
Proof.
  intros [Hl Hv]. unfold boundary, timers_service.
  destruct (service_timers _ _ _ _ _) as [[[l q] f]|] eqn:E1; [|done]. apply timers_ok in E1; [|done].
  destruct (fired_horizon f); [done|]. destruct (park_drain_agent _) as [fin s2] eqn:E2.
  apply drain_agent_ok in E2 as [Hl2 Hv2]; [|done]. destruct fin; [done|].
  destruct (pump_egress io s2) as [r s3] eqn:E3. apply pump_egress_ok in E3 as [Hl3 Ed3]; [|done]. rewrite <- Ed3 in Hv2.
  destruct r; [|done]. by destruct (bool_decide _).
Qed.

Lemma jump_ok e next (s : VM) : undecided s -> turn_ok (jump clock horizon above e next s).
Proof.
  intros Hs. unfold jump. destruct (next <=? _); [done|]. destruct (negb _ && _); [done|].
  destruct (assert_ff_jump_legal _); [|done]. destruct (bump_offset _ _ _ _) as [[σ v]|[]]; try done.
  by destruct (_ =? next).
Qed.

Lemma park_turn_ok (ff : bool) e (s : VM) : undecided s ->
  turn_ok ((if ff then fast_forward_turn (J := J) io clock horizon fuel above else real_wait_turn (J := J) io clock horizon fuel) e s).
Proof.
  intros Hl. destruct ff.
  - unfold fast_forward_turn. assert (Hp : forall s1, console_probe io e s = Ok s1 -> undecided s1).
    { intros s1. unfold console_probe. destruct (stdin_open _); [|by intros [= <-]].
      destruct (stdin_ready _ _) as [[]|]; cbn [mbind result_bind]; [|by intros [= <-]|done].
      intros [= <-]. by apply console_service_ok. }
    destruct (console_probe io e s) as [s1|]; [|done]. specialize (Hp s1 eq_refl).
    pose proof (boundary_ok e s1 Hp) as Hb. destruct (boundary _ _ _ _ e s1) as [t|s2]; [done|]. cbv zeta.
    destruct (match vm_egress s2 with Some _ => _ | None => _ end) as [eg|].
    { unfold gate_park. destruct (park_and_read _ _ _ _ _) as [s3|] eqn:E3; [|done].
      apply park_and_read_ok in E3; [|done]. by destruct (maybe_warn_long_gate _ _). }
    destruct (peek_deadline _) as [next|]; [by apply jump_ok|].
    destruct (park_and_read _ _ _ _ _) as [s3|] eqn:E3; [|done]. by apply park_and_read_ok in E3.
  - unfold real_wait_turn. pose proof (boundary_ok e s Hl) as Hb. destruct (boundary _ _ _ _ e s) as [t|s2]; [done|].
    destruct (park_and_read _ _ _ _ _) as [s3|] eqn:E3; [|done]. by apply park_and_read_ok in E3.
Qed.

Lemma park_ok (ff : bool) es (s : VM) : undecided s ->
  turn_ok (park_until_deliverable (J := J) io clock horizon fuel above ff es s).
Proof.
  unfold park_until_deliverable. revert s. induction es as [|e es IH]; intros s Hl; cbn [park_loop]; [done|].
  pose proof (park_turn_ok ff e s Hl) as Ht. destruct (_ e s); try done. by apply IH.
Qed.

Lemma time_kept_trans ff (s1 s2 s3 : VM) : time_kept clock ff s1 s2 -> time_kept clock ff s2 s3 -> time_kept clock ff s1 s3.
Proof.
  intros (? & ? & H12) (? & ? & H23). split; [done|]. split; [lia|].
  intros Hf. exact (same_time_trans _ _ _ (H12 Hf) (H23 Hf)).
Qed.

(** A whole park and the clock; what an end of it stands for. *)
Lemma park_kept (ff : bool) es (s : VM) : coherent (vm_cells s) clock (vm_vcpu s) ->
  turn_all (time_kept clock ff s) (park_until_deliverable (J := J) io clock horizon fuel above ff es s)
  /\ forall o s', park_until_deliverable (J := J) io clock horizon fuel above ff es s = Done o s' ->
     match o with
     | Deliverable => is_Some (deliverable_vector (vm_lapic s'))
     | ParkHorizon => exists h e, e ∈ es /\ horizon = Some h /\ h <= vtsc_from_host (vm_cells s') clock (e_now e)
     | ParkDriverFinish => is_Some (verdict (vm_driver s'))
     end.
Proof.
  unfold park_until_deliverable. revert s. induction es as [|e es IH]; intros s Hco; cbn [park_loop].
  { split; [|done]. by apply same_time_kept. }
  assert (Htime : turn_all (time_kept clock ff s) ((if ff then fast_forward_turn (J := J) io clock horizon fuel above
      else real_wait_turn (J := J) io clock horizon fuel) e s)).
  { unfold turn_all. destruct ff; [pose proof (ff_turn_time (J := J) io clock horizon fuel above e s) as Ht
                 |pose proof (real_wait_time (J := J) io clock horizon fuel e s) as Ht];
      case_match; try done; try (destruct Ht as [Ht|Ht]; [|by apply moved_kept]); by apply same_time_kept. }
  pose proof (turn_done (J := J) io clock horizon fuel above ff e s) as Hdone. unfold turn_all in Htime.
  destruct (_ e s) as [s1|o s1|err s1|] eqn:Et; [| | |by split].
  - destruct (IH s1 (proj1 Htime)) as [Hk Hd]. split.
    + eapply turn_all_impl; [|exact Hk]. intros s2 Hk2. by eapply time_kept_trans.
    + intros o s2 Ho. specialize (Hd o s2 Ho). destruct o; [done| |done].
      destruct Hd as (h & e' & He & Hh). exists h, e'. split; [by right|done].
  - split; [done|]. intros o' s' [= <- <-]. destruct (Hdone o s1 eq_refl) as (s0 & (Ec & Ev & Ef) & Hb).
    pose proof (boundary_stop (J := J) io clock horizon fuel e s0 _ Hb) as Hst. cbn in Hst. destruct Hst as (Ec2 & _).
    apply boundary_done in Hb. destruct o; [done| |done]. destruct Hb as (h & Hh & Hle). exists h, e. split; [by left|]. split; [done|].
    by rewrite Ec2.
  - split; [done|]. done.
Qed.

End park_lapic.

(** ** The machine's invariant *)

Section run_proofs.
Context {A C U V J : Type} `{EgressConnector A C, Epoll C, Uart U, KvmTsc V, Json (Reply J)}.
Abbreviation M := (Machine U C V).
Context (clock : VirtualClock) (fuel : nat) (above : Z -> Z -> bool) (ff : bool).
Context (fixed3 : Z -> Z -> bytes) (open_ok : bytes -> bool) (write_ok : bytes -> bytes -> bool).
Context (horizon : option Z).

(** Well-formed devices, and a clock that is the guest's own TSC. *)
Definition sound (m : M) : Prop := devices_wf (mc_dev m) /\ coherent (mc_cells m) clock (mc_vcpu m).

(** The clock only moves forward, and without fast-forward not at all. *)
Definition forward (m m' : M) : Prop :=
  tsc_offset (mc_cells m) clock <= tsc_offset (mc_cells m') clock /\
  (ff = false -> mc_cells m' = mc_cells m /\ mc_vcpu m' = mc_vcpu m).

(** [D] holds of the driver throughout. *)
Definition going_with (D : DriverRun -> Prop) (m m' : M) : Prop := sound m' /\ forward m m' /\ D (mc_driver m').

Definition no_verdict (d : DriverRun) : Prop := verdict d = None.

Abbreviation going := (going_with no_verdict).

(** The host TSC samples taken to service timers. *)
Definition samples (es : list RunEnv) : list Z := es ≫= (fun e => r_now e :: (e_now <$> r_park e)).

(** What a stop reason stands for. *)
Definition reason_holds (es : list RunEnv) (why : StopReason) (m : M) : Prop :=
  match why with
  | DriverFinish => is_Some (verdict (mc_driver m))
  | Horizon => exists h x, horizon = Some h /\ x ∈ samples es /\ h <= vtsc_from_host (mc_cells m) clock x
  | GuestHalt => exists e, e ∈ es /\ r_run e = Ok HltExit /\ kr_if_flag (r_page e) = 0
  | GuestShutdown => exists e, e ∈ es /\ r_run e = Ok ShutdownExit
  | GuestSystemEvent => exists e t, e ∈ es /\ r_run e = Ok (SystemEvent t)
  end.

Definition step_ok (es : list RunEnv) (m : M) (s : run_step M) : Prop :=
  match s with
  | Next m' | Parked m' | Failed _ m' => going m m'
  | Ended why m' =>
      sound m' /\ forward m m' /\ reason_holds es why m' /\ (is_Some (verdict (mc_driver m')) <-> why = DriverFinish)
  | Crashed InDevice _ => False
  | Crashed _ _ => True
  end.

(** The guest writes bytes. *)
Definition exit_ok (e : RunEnv) : Prop :=
  match r_run e with Ok (IoOut _ data) | Ok (MmioWrite _ data) => bytes_ok data | _ => True end.

Lemma forward_refl m m' : mc_cells m' = mc_cells m -> mc_vcpu m' = mc_vcpu m -> forward m m'.
Proof. intros Ec Ev. unfold forward. rewrite Ec, Ev. split; [lia|done]. Qed.

Lemma forward_trans m1 m2 m3 : forward m1 m2 -> forward m2 m3 -> forward m1 m3.
Proof.
  intros [? H12] [? H23]. split; [lia|]. intros Hf. destruct (H12 Hf), (H23 Hf). split; congruence.
Qed.

(** A change of the devices, the queue and the like. *)
Lemma going_same D m m1 m' : going_with D m m1 -> devices_wf (mc_dev m') ->
  mc_cells m' = mc_cells m1 -> mc_vcpu m' = mc_vcpu m1 -> mc_driver m' = mc_driver m1 -> going_with D m m'.
Proof.
  intros ((Hd & Hc) & Hf & Hv) Hd' Ec Ev Edr. split; [split; [done|by rewrite Ec, Ev]|].
  split; [|by rewrite Edr]. eapply forward_trans; [done|by apply forward_refl].
Qed.

Lemma lapic_change (d : Devices U C) l : devices_wf d -> lapic_wf l -> devices_wf (d <| dv_lapic := l |>).
Proof. intros [] Hl. by split. Qed.

Lemma dev_of_wf (d : Devices U C) (s : Vm U C V) : devices_wf d -> lapic_wf (vm_lapic s) -> devices_wf (dev_of d s).
Proof. intros [] Hl. by split. Qed.

Lemma pump_com2_going D m m1 : going_with D m m1 -> going_with D m (pump_com2 m1).
Proof.
  intros Hg. pose proof Hg as (([Hl Hi Hp Hc] & _) & _ & _). unfold pump_com2, control_pump.
  destruct (pending_rx (dv_com2 (mc_dev m1))); [by eapply going_same|].
  destruct (pump_loop _ _ _ _) as [[u p] sent]. destruct sent; [|by eapply going_same].
  destruct (after_uart_io u (dv_lapic (mc_dev m1)) (dv_ioapic (mc_dev m1)) SERIAL2_IRQ) as [u' l'] eqn:Ea.
  eapply going_same; [done| |done..]. split; try done. eapply after_uart_io_wf; [exact Hl|exact Hi|exact Ea].
Qed.

Lemma scan_console_going D now m m1 : going_with D m m1 -> going_with D m (scan_console fixed3 open_ok write_ok now m1).
Proof.
  intros Hg. pose proof Hg as (([Hl Hi Hp Hc] & _) & _ & _). unfold scan_console. destruct (mc_scan m1); [|done].
  by eapply going_same.
Qed.

Lemma inject_step_wf inject l page v l' page' :
  lapic_wf l -> inject_step inject l page = Ok (v, l', page') -> lapic_wf l'.
Proof.
  intros Hl. unfold inject_step. pose proof (sync_tpr_wf l (kr_cr8 page) Hl) as Hs.
  destruct (deliverable_vector _) as [vec|] eqn:Ed; [|by intros [= _ <- _]].
  destruct (_ && _); [|by intros [= _ <- _]]. destruct (inject vec); [|done]. intros [= _ <- _].
  apply ack_wf; [done|by eapply deliverable_range].
Qed.

Lemma enter_going D e m m1 m2 : going_with D m m1 -> enter clock e m1 = Ok m2 -> going_with D m m2.
Proof.
  intros Hg. pose proof Hg as ((Hd & _) & _ & _). unfold enter.
  destruct (inject_step _ _ _) as [[[v l] page]|] eqn:Ei; [|done]. apply inject_step_wf in Ei; [|by destruct Hd].
  cbn [mbind result_bind]. destruct (arm _ _ _ _) as [[bell f] program]. intros [= <-].
  eapply going_same; [done| |done..]. by apply lapic_change.
Qed.

Lemma device_exit_going D com4 e m m1 exit s : going_with D m m1 -> r_run e = Ok exit -> exit_ok e ->
  device_exit com4 e exit m1 = Some s -> exists m2, s = Next m2 /\ going_with D m m2.
Proof.
  intros Hg Hr Hok. pose proof Hg as ((Hd & _) & _ & _). unfold exit_ok in Hok. rewrite Hr in Hok.
  destruct exit; cbn [device_exit]; intros [= <-]; try (eexists; split; [done|]; by eapply going_same).
  - destruct (io_out_wf (mc_cells m1) (r_tsc e) (r_fd1 e) com4 port data (mc_dev m1) Hd Hok) as (d' & -> & Hd').
    eexists. split; [done|]. by eapply going_same.
  - destruct (io_in_wf (mc_cells m1) (r_tsc e) (r_fd1 e) com4 port n (mc_dev m1) Hd) as (bs & d' & -> & _ & Hd').
    eexists. split; [done|]. by eapply going_same.
  - destruct (mmio_read_total (mc_cells m1) (r_tsc e) addr data (mc_dev m1) Hd) as (bs & -> & _).
    eexists. split; [done|]. by eapply going_same.
  - destruct (mmio_write_wf (mc_cells m1) (r_tsc e) addr data (mc_dev m1) Hd Hok) as (d' & -> & Hd').
    eexists. split; [done|]. by eapply going_same.
Qed.

Lemma going_refl (D : DriverRun -> Prop) m : sound m -> D (mc_driver m) -> going_with D m m.
Proof. intros Hs Hv. split; [done|]. split; [by apply forward_refl|done]. Qed.

Lemma ie_going D m m1 b : going_with D m m1 -> going_with D m (m1 <| mc_ie := b |>).
Proof. intros Hg. eapply going_same; [done|apply Hg|done..]. Qed.

Lemma turn_top_ok (D : DriverRun -> Prop) h e m : sound m -> D (mc_driver m) ->
  match turn_top clock fuel h e m with
  | inl s => exists m', s = Crashed InTimers m'
  | inr (b, m') => going_with D m m' /\ mc_cells m' = mc_cells m /\ b = due (vtsc_from_host (mc_cells m) clock (r_now e)) h
  end.
Proof.
  intros Hs Hv. pose proof (going_refl D m Hs Hv) as Hg. destruct Hs as (Hd & _). unfold turn_top. cbv zeta.
  cbn [mc_dev mc_cells mc_events set_field].
  destruct (service_timers _ _ _ _ _) as [[[l q] f]|] eqn:E; [|by eexists].
  destruct (service_timers_eq fuel (dv_lapic (mc_dev m)) (mc_events m) h (vtsc_from_host (mc_cells m) clock (r_now e)))
    as (q' & Heq & _). pose proof E as E'. rewrite Heq in E'.
  destruct (fire_timer_if_due _ _ _) as [[b0 l0]|]; [|done]. injection E' as _ _ <-.
  apply timers_ok in E; [|by destruct Hd]. split; [|done].
  eapply going_same; [done| |done..]. by apply lapic_change.
Qed.

Lemma pump_egress_run_going D m m1 r m2 : going_with D m m1 -> pump_egress_run m1 = (r, m2) -> going_with D m m2 /\ mc_cells m2 = mc_cells m1.
Proof.
  intros Hg. pose proof Hg as ((Hd & _) & _ & _). unfold pump_egress_run.
  destruct (pump_egress _ _) as [r' s] eqn:E. intros [= _ <-].
  pose proof E as E1. apply pump_egress_same in E1 as ((Ec & Ev & _) & _).
  apply pump_egress_ok in E as [Hl Edr]; [|by destruct Hd|by destruct Hd].
  split; [|done]. eapply going_same; [done|by apply dev_of_wf|done..].
Qed.

(** What a park leaves, seen from the machine. *)
Lemma park_machine D m m1 s : going_with D m m1 -> lapic_wf (vm_lapic s) -> time_kept clock ff (vm_of m1) s ->
  sound (with_vm m1 s) /\ forward m (with_vm m1 s).
Proof.
  intros ((Hd & Hc) & Hf & Hv) Hl (Hco & Hle & Hst). split; [split; [by apply dev_of_wf|done]|].
  eapply forward_trans; [done|]. split; [done|]. intros Hff. by destruct (Hst Hff) as (? & ? & _).
Qed.

Lemma run_hlt_ok es e m m1 : going m m1 -> e ∈ es -> r_run e = Ok HltExit -> mc_page m1 = r_page e ->
  step_ok es m (run_hlt (J := J) clock fuel above ff fixed3 open_ok write_ok horizon e m1).
Proof.
  intros Hg He Hx Hp. unfold run_hlt.
  pose proof (scan_console_going _ (vtsc_from_host (mc_cells m1) clock (r_hlt_now e)) m m1 Hg) as Hg2.
  assert (Hp2 : mc_page (scan_console fixed3 open_ok write_ok (vtsc_from_host (mc_cells m1) clock (r_hlt_now e)) m1) = r_page e)
    by (unfold scan_console; by destruct (mc_scan m1)).
  set (m2 := scan_console _ _ _ _ m1) in *. rewrite Hp2. destruct (kr_if_flag (r_page e) =? 0) eqn:Ei.
  { bool_prop. destruct Hg2 as (? & ? & Hv). split; [done|]. split; [done|]. split; [by exists e|].
    rewrite Hv. split; [by intros []|done]. }
  set (m3 := m2 <| mc_hlts := as_u64 (mc_hlts m2 + 1) |>).
  assert (Hg3 : going m m3) by (eapply going_same; [done|apply Hg2|done..]). pose proof Hg3 as ((Hd & Hc) & Hf & Hv).
  pose proof (park_ok (J := J) (dv_ioapic (mc_dev m3)) clock horizon fuel above ltac:(by destruct Hd) ff (r_park e) (vm_of m3)
    ltac:(split; [by destruct Hd|done])) as Hpk.
  destruct (park_kept (J := J) (dv_ioapic (mc_dev m3)) clock horizon fuel above ff (r_park e) (vm_of m3) Hc) as [Hk Hdone].
  change (mc_dev m2) with (mc_dev m3).
  destruct (park_until_deliverable _ _ _ _ _ _ _ _) as [s|o s|err s|] eqn:Epk; [| | |done]; cbn in Hk.
  - destruct Hpk as [Hl Hvs]. by destruct (park_machine _ _ _ _ Hg3 Hl Hk).
  - specialize (Hdone o s eq_refl). destruct o; cbn in Hpk; destruct Hpk as [Hl Hvs];
      destruct (park_machine _ _ _ _ Hg3 Hl Hk) as [Hso Hfo]; [done| |].
    + split; [done|]. split; [done|]. split.
      * destruct Hdone as (h & e' & He' & Hh & Hle). exists h, (e_now e'). split; [done|]. split; [|done].
        apply list_elem_of_bind. exists e. split; [|done]. right. by apply list_elem_of_fmap_2.
      * cbn [mc_driver with_vm set_field]. rewrite Hvs. split; [by intros []|done].
    + split; [done|]. split; [done|]. split; [done|]. by split.
  - destruct Hpk as [Hl Hvs]. by destruct (park_machine _ _ _ _ Hg3 Hl Hk).
Qed.

Lemma run_turn_ok es e m : sound m -> verdict (mc_driver m) = None -> e ∈ es -> exit_ok e ->
  step_ok es m (run_turn (J := J) clock fuel above ff fixed3 open_ok write_ok horizon e m).
Proof.
  intros Hs Hv He Hok. unfold run_turn. pose proof (turn_top_ok no_verdict horizon e m Hs Hv) as Ht.
  destruct (turn_top _ _ _ _ _) as [s|[b m1]]; [by destruct Ht as [m' ->]|]. destruct Ht as (Hg1 & Ec1 & Hb).
  destruct b.
  { destruct Hg1 as (? & ? & Hv1). split; [done|]. split; [done|]. split; [|rewrite Hv1; split; [by intros []|done]].
    unfold due in Hb. destruct horizon as [h|] eqn:Eh; [|done]. symmetry in Hb. bool_prop. exists h, (r_now e).
    split; [done|]. rewrite Ec1. split; [|done]. apply list_elem_of_bind. exists e. split; [by left|done]. }
  apply pump_com2_going in Hg1. destruct (pump_egress_run (pump_com2 m1)) as [r m2] eqn:Ep.
  eapply pump_egress_run_going in Ep as [Hg2 _]; [|exact Hg1]. destruct r as [[]|err]; [|done].
  destruct (park_drain_agent (vm_of m2)) as [fin s] eqn:Ed. pose proof Hg2 as ((Hd2 & Hc2) & Hf2 & Hv2).
  pose proof Ed as Ed1. apply drain_agent_same in Ed1 as ((Ec & Ev & Ef) & Eeg & Eev & El).
  apply drain_agent_ok in Ed as [Hl Hvs]; [|split; [by destruct Hd2|done]].
  assert (Hk : time_kept clock ff (vm_of m2) s) by (apply same_time_kept; [done|by split_and!]).
  destruct (park_machine _ _ _ _ Hg2 Hl Hk) as [Hso Hfo]. destruct fin; [by split_and!|].
  assert (Hg3 : going m (with_vm m2 s)) by done.
  eapply scan_console_going in Hg3. destruct (enter _ _ _) as [m4|errno] eqn:Ee; [|by split_and!].
  eapply enter_going in Ee; [|exact Hg3]. unfold run_exit.
  set (m5 := m4 <| mc_page := r_page e |> <| mc_ie := _ |>).
  assert (Hg5 : going m m5) by (eapply going_same; [done|apply Ee|done..]).
  destruct (r_run e) as [exit|errno] eqn:Er; [|by destruct (errno =? EINTR), (errno =? EAGAIN)].
  destruct (device_exit _ _ _ _) as [st|] eqn:Ex.
  { eapply device_exit_going in Ex as (m6 & -> & ?); done. }
  destruct Hg5 as (Hso5 & Hfo5 & Hv5) eqn:Hg5e. clear Hg5e.
  destruct exit; cbn [step_ok]; try done.
  - by apply run_hlt_ok.
  - split; [done|]. split; [done|]. split; [by exists e|]. rewrite Hv5. split; [by intros []|done].
  - split; [done|]. split; [done|]. split; [by exists e, type_|]. rewrite Hv5. split; [by intros []|done].
Qed.

Lemma reason_mono es es' why m : es ⊆ es' -> reason_holds es why m -> reason_holds es' why m.
Proof.
  intros Hsub. destruct why; cbn [reason_holds]; [naive_solver..| |done].
  intros (h & x & Hh & Hx & Hle). exists h, x. split; [done|]. split; [|done].
  apply list_elem_of_bind in Hx as (e & Hx & He). apply list_elem_of_bind. eauto.
Qed.

(** A step of a later turn is a step of the run so far. *)
Lemma step_ok_later es es' m m1 s : going m m1 -> es ⊆ es' -> step_ok es m1 s -> step_ok es' m s.
Proof.
  intros (_ & Hf & _) Hsub. assert (Hgo : forall m2, going m1 m2 -> going m m2).
  { intros m2 (? & ? & ?). split; [done|]. split; [by eapply forward_trans|done]. }
  destruct s as [m2|why m2|err m2|[] m2|m2]; cbn [step_ok]; eauto.
  intros (Hs & Hf2 & Hr & Hw). split; [done|]. split; [by eapply forward_trans|]. split; [by eapply reason_mono|done].
Qed.

Lemma run_loop_ok es m : sound m -> verdict (mc_driver m) = None -> Forall exit_ok es ->
  step_ok es m (run_loop (J := J) clock fuel above ff fixed3 open_ok write_ok horizon es m).
Proof.
  intros Hs Hv Hok. revert m Hs Hv. induction Hok as [|e es He Hok IH]; intros m Hs Hv; cbn [run_loop].
  { by apply going_refl. }
  pose proof (run_turn_ok (e :: es) e m Hs Hv ltac:(by left) He) as Ht.
  destruct (run_turn _ _ _ _ _ _ _ _ e m) as [m1|why m1|err m1|at_ m1|m1]; try done.
  cbn [step_ok] in Ht. pose proof Ht as (Hs1 & _ & Hv1).
  eapply step_ok_later; [exact Ht| |by apply IH]. set_solver.
Qed.

(** ** Property *)

(** C4: A run ends only for the reason it gives.  Whatever guest, host and
    samples the loop meets, it keeps the devices well formed and the clock the
    guest's own TSC; the clock never goes back, and without fast-forward its
    offset never changes; no guest access panics.  "Driver finish" means that
    a verdict was reached, and only then is there one; "horizon" that the clock
    had reached the bound at one of the samples; "halt" that the guest executed
    HLT with interrupts off; the other two that KVM said so.  The exit code is
    the verdict's, 3 at the horizon and 0 for a stop of the guest. *)
Theorem run_ends_for_its_reason es m now :
  sound m -> verdict (mc_driver m) = None -> Forall exit_ok es ->
  match run_loop (J := J) clock fuel above ff fixed3 open_ok write_ok horizon es m with
  | Ended why m' =>
      sound m' /\ forward m m' /\ reason_holds es why m' /\ (is_Some (verdict (mc_driver m')) <-> why = DriverFinish)
      /\ let o := (run_end fixed3 open_ok write_ok why now m').1 in
         outcome_stop o = why /\ outcome_exit_code o
         = match verdict (mc_driver m') with
           | Some v => if decide (verdict_code v = 0) then 0 else 1
           | None => if decide (why = Horizon) then 3 else 0
           end
  | Next m' | Parked m' | Failed _ m' => sound m' /\ forward m m' /\ verdict (mc_driver m') = None
  | Crashed at_ _ => at_ <> InDevice
  end.
Proof.
  intros Hs Hv Hok. pose proof (run_loop_ok es m Hs Hv Hok) as Hl.
  destruct (run_loop _ _ _ _ _ _ _ _ es m) as [m'|why m'|err m'|[] m'|m']; try done.
  destruct Hl as (? & ? & ? & ?). do 4 (split; [done|]). cbv zeta. unfold run_end, run_outcome. split.
  { by destruct (mc_scan m'). }
  assert (Ed : forall m2 : M, mc_driver m2 = mc_driver m' -> outcome_exit_code (run_outcome (mc_driver m2) why)
    = match verdict (mc_driver m') with
      | Some v => if decide (verdict_code v = 0) then 0 else 1
      | None => if decide (why = Horizon) then 3 else 0
      end).
  { intros m2 E. unfold run_outcome, verdict_exit_code. rewrite E. cbn [outcome_exit_code].
    destruct (verdict (mc_driver m')) as [v|]; [|by destruct why].
    destruct (verdict_code v =? 0) eqn:Ez; bool_prop; by case_decide. }
  destruct (mc_scan m'); by apply Ed.
Qed.

End run_proofs.

(** ** A concrete run *)

Definition run_env (x : VcpuExit) : RunEnv :=
  {| r_now := 50; r_scan_now := 51; r_inject := fun _ => Ok tt; r_arm := 52; r_fired := false; r_run := Ok x;
     r_page := {| kr_cr8 := 0; kr_ready := 1; kr_if_flag := 1; kr_request_window := 0 |}; r_tsc := fun _ => 53;
     r_fd1 := fun b => Some (length b); r_hlt_now := 54; r_rang := false; r_park := [toy_env; toy_env <| e_now := 70 |>]; r_wall := false |}.

(** The timer of the LAPIC is due at vtsc 100. *)
Definition toy_machine : Machine ToyUart ToyHost ToyVcpu :=
  let s := idle_vm in
  {| mc_dev := dev_of toy_devices s; mc_events := vm_events s; mc_parker := vm_parker s; mc_driver := driver_default;
     mc_cells := vm_cells s; mc_vcpu := vm_vcpu s; mc_ff := vm_ff s; mc_bell := doorbell_on; mc_ie := false;
     mc_timer := None; mc_page := {| kr_cr8 := 0; kr_ready := 1; kr_if_flag := 1; kr_request_window := 0 |};
     mc_data := []; mc_scan := None; mc_hlts := 0 |}.

Definition toy_run (es : list RunEnv) : run_step (Machine ToyUart ToyHost ToyVcpu) :=
  run_loop (J := unit) toy_clock 10 (fun _ _ => false) true (fun _ _ => []) (fun _ => true) (fun _ _ => true)
    (Some 5000) es toy_machine.

(** Two bytes on the console, a halt whose park jumps to the timer, and a halt
    with nothing left to wait for, whose park jumps to the horizon. *)
Definition toy_story : list RunEnv :=
  [run_env (IoOut SERIAL_PORT_BASE [72; 105]); run_env HltExit; run_env IrqWindowOpen; run_env HltExit].

Lemma toy_machine_sound : sound toy_clock toy_machine.
Proof.
  split; [|reflexivity]. apply dev_of_wf; [apply toy_devices_wf|].
  destruct toy_lapic_wf. constructor; try assumption; try (unfold fits; cbn; lia).
  intros dl [= <-]. unfold fits. lia.
Qed.

Lemma run_ends_for_its_reason_witness :
  exists m, toy_run toy_story = Ended Horizon m /\ sound toy_clock m /\ mc_hlts m = 2
  /\ outcome_exit_code (run_end (fun _ _ => []) (fun _ => true) (fun _ _ => true) Horizon 0 m).1 = 3.
Proof.
  assert (Hok : Forall exit_ok toy_story).
  { apply Forall_forall. intros e He. apply list_elem_of_In in He. cbn in He.
    destruct He as [<-|[<-|[<-|[<-|[]]]]]; [|exact I..]. apply (bool_decide_unpack _). vm_compute. exact I. }
  pose proof (run_ends_for_its_reason (J := unit) toy_clock 10 (fun _ _ => false) true (fun _ _ => []) (fun _ => true)
    (fun _ _ => true) (Some 5000) toy_story toy_machine 0 toy_machine_sound eq_refl Hok) as Hrun.
  change (run_loop _ _ _ _ _ _ _ _ toy_story toy_machine) with (toy_run toy_story) in Hrun.
  destruct (toy_run toy_story) as [m|why m|err m|at_ m|m] eqn:E; try (vm_compute in E; discriminate).
  assert (Hw : why = Horizon /\ mc_hlts m = 2 /\ verdict (mc_driver m) = None)
    by (revert E; vm_compute; intros [= <- <-]; auto).
  destruct Hw as (-> & Hh & Hv). exists m. destruct Hrun as (Hs & _ & _ & _ & _ & Hc).
  rewrite Hv in Hc. repeat (split; [assumption || reflexivity|]). exact Hc.
Defined.
