(* ===== verification/Capture.v ===== *)
(** * Log capture ([src/src/main.rs], [capture_logs] and [format_k8s_logs])

    After a run, the host pages every service's log out of the still-alive guest
    and writes it to the log directory.  The paging is written over one
    request and its answer ([asked]); [ask_machine] is the machine of [Run]
    driven until the reply arrives, [ask_agent] the guest agent of [Agent]
    answering directly and [ask_link] the agent behind a guest that takes its
    time, against the two budgets of the capture.  The directory is a map from names to contents; the
    warnings are output. *)

From Stdlib Require Import ZArith Lia Ascii String.
From stdpp Require Import base numbers strings gmap list.
From S2P Require Import Prelude.
From S2P Require Import Text.
From S2P Require Import Lines.
From S2P Require Import Utf8.
From S2P Require Import Vtsc.
From S2P Require Import Timers.
From S2P Require Import Proto.
From S2P Require Import Control.
From S2P Require Import Driver.
From S2P Require Import Conscan.
From S2P Require Import Egress.
From S2P Require Import EgressSpec.
From S2P Require Import Ioapic.
From S2P Require Import Lapic.
From S2P Require Import Dispatch.
From S2P Require Import Vmm.
From S2P Require Import Run.
From S2P Require Import Agent.

Open Scope Z_scope.

(** ** The text of a log *)

(** [str::lines]. *)
Definition str_lines (s : list Z) : list (list Z) :=
  let '(ls, rest) := split_lines s in (strip_cr <$> ls) ++ (if bool_decide (rest = []) then [] else [rest]).

(** The text before the next space, and what follows it ([splitn]). *)
Fixpoint next_field (s : list Z) : list Z * option (list Z) :=
  match s with
  | [] => ([], None)
  | b :: s' => if b =? 32 then ([], Some s') else let '(f, rest) := next_field s' in (b :: f, rest)
  end.

(** [it.next().unwrap_or("")]. *)
Definition take_field (s : option (list Z)) : list Z * option (list Z) :=
  match s with Some s => next_field s | None => ([], None) end.

Definition format_line (line : list Z) : list Z :=
  if bool_decide (line = []) then []
  else
    let '(ts, s) := next_field line in
    let '(stream, s) := take_field s in
    let '(pf, s) := take_field s in
    let msg := default [] s in
    if (bool_decide (stream = lit "stdout") || bool_decide (stream = lit "stderr"))
       && (bool_decide (pf = lit "F") || bool_decide (pf = lit "P"))
    then ts ++ [32] ++ stream ++ [32] ++ msg ++ [LF]
    else line ++ [LF].

Definition format_k8s_logs (raw : list Z) : list Z := concat (format_line <$> str_lines raw).

(** ** One request and its answer *)

Inductive asked (R S : Type) :=
  | Replied (r : R) (s : S)       (** [Ok(Some(rep))] *)
  | NoReply (s : S)               (** [Ok(None)] *)
  | Unresponsive (s : S)          (** [Err(())] *)
  | Waiting (s : S)               (** the turns given are over *)
  | Broken.                       (** a panic *)
Arguments Replied {R S} r s.
Arguments NoReply {R S} s.
Arguments Unresponsive {R S} s.
Arguments Waiting {R S} s.
Arguments Broken {R S}.

(** What a pull or the whole capture ends in: [Ended_] with a value, or one of
    the two ways of not ending. *)
Inductive outcome (X S : Type) :=
  | Got (x : X) (s : S)
  | StillWaiting (s : S)
  | Panicked.
Arguments Got {X S} x s.
Arguments StillWaiting {X S} s.
Arguments Panicked {X S}.

Definition request (id : Z) (op : string) : Request := Build_Request id op None None None None None None None None.

Definition logs_request (id : Z) (service : string) (cursor : Z) : Request :=
  Build_Request id "logs" (Some service) None None None (Some cursor) (Some MAX_LOGS_CHUNK_BYTES) None None.

Section capture.
Context {J S : Type} `{Json Request}.
Abbreviation Rep := (Reply J).
(** Send a frame and wait for the reply with an id. *)
Context (ask : list Z -> Z -> S -> asked Rep S).

(** What one pull gave: the text, the next id, and whether to stop. *)
Record Pulled := { p_raw : list Z; p_next_id : Z; p_aborted : bool }.

(** The inner loop.  Each turn but the last is answered; fuel is a bound on
    the answers. *)
Fixpoint pull (fuel : nat) (service : string) (id cursor : Z) (raw : list Z) (s : S) : outcome Pulled S :=
  match fuel with
  | O => StillWaiting s
  | Datatypes.S fuel =>
      match encode_line (logs_request id service cursor) with
      | None => Panicked
      | Some framed =>
          match ask framed id s with
          | Replied rep s =>
              if negb (bool_decide (rep_ok rep = Some true)) then Got (Build_Pulled raw (id + 1) false) s
              else
                let raw := raw ++ match rep_data rep with Some d => lit d | None => [] end in
                let next := default cursor (rep_next_cursor rep) in
                if bool_decide (rep_eof rep = Some true) || (next <=? cursor) then Got (Build_Pulled raw (id + 1) false) s
                else pull fuel service (id + 1) next raw s
          | NoReply s => Got (Build_Pulled raw (id + 1) false) s
          | Unresponsive s => Got (Build_Pulled raw (id + 1) true) s
          | Waiting s => StillWaiting s
          | Broken => Panicked
          end
      end
  end.

(** [write_ok]: whether [fs::write] of the file succeeds; a failure leaves the
    directory as it was. *)
Context (write_ok : list Z -> bool).
Abbreviation Dir := (gmap (list Z) (list Z)).

Definition log_name (fname : list Z) : list Z := fname ++ lit ".log".

Definition write_log (dir : Dir) (fname raw : list Z) : Dir :=
  if write_ok (log_name fname) then <[log_name fname := format_k8s_logs raw]> dir else dir.

(** The loop over the services. *)
Fixpoint capture_services (fuel : nat) (services : list string) (id : Z) (dir : Dir) (s : S) : outcome Dir S :=
  match services with
  | [] => Got dir s
  | service :: services =>
      match sanitize_service_filename (lit service) with
      | None => capture_services fuel services id dir s
      | Some fname =>
          match pull fuel service id 0 [] s with
          | Got p s =>
              let dir := write_log dir fname (p_raw p) in
              if p_aborted p then Got dir s else capture_services fuel services (p_next_id p) dir s
          | StillWaiting s => StillWaiting s
          | Panicked => Panicked
          end
      end
  end.

(** A ping first: an agent with a schema below 2 has no [logs]. *)
Definition capture_logs (fuel : nat) (services : list string) (dir : Dir) (s : S) : outcome Dir S :=
  match encode_line (request 1 "ping") with
  | None => Panicked
  | Some framed =>
      match ask framed 1 s with
      | Replied rep s =>
          if match rep_schema rep with Some v => 2 <=? v | None => false end
          then capture_services fuel services 2 dir s
          else Got dir s
      | NoReply s | Unresponsive s => Got dir s
      | Waiting s => StillWaiting s
      | Broken => Panicked
      end
  end.

End capture.

(** ** The two ways of asking *)

Section machine.
Context {A C U V J : Type} `{EgressConnector A C, Epoll C, Uart U, KvmTsc V, Json (Reply J)}.
Context (clock : VirtualClock) (fuel : nat) (above : Z -> Z -> bool) (ff : bool) (horizon : Z).

(** The machine, with the turns it is still given. *)
Definition ask_machine (framed : list Z) (want : Z) (s : Machine U C V * list RunEnv)
    : asked (Reply J) (Machine U C V * list RunEnv) :=
  let '(m, es) := s in
  match drive_until_reply (J := J) clock fuel above ff framed want horizon es m with
  | (Answered r m, es) => Replied r (m, es)
  | (GaveUp m, es) => NoReply (m, es)
  | (Aborted m, es) => Unresponsive (m, es)
  | (Driving m, es) | (DriveParked m, es) => Waiting (m, es)
  | (DriveCrashed, _) => Broken
  end.
End machine.

Section agent.
Context {G J : Type} `{GuestOs G, PsJson, Json Request, Json (Reply J)}.
Context (to_lowercase : string -> string) (BUILD : string).

(** The frame reaches the agent and its reply comes back. *)
Definition ask_agent (framed : list Z) (want : Z) (s : Agent * G) : asked (Reply J) (Agent * G) :=
  match decode_line (T := Request) framed with
  | None => NoReply s
  | Some req =>
      let '(r, st, g) := handle to_lowercase BUILD req s.1 s.2 in
      match encode_line r with
      | None => NoReply (st, g)
      | Some line =>
          match decode_line (T := Reply J) line with
          | Some rep => if bool_decide (rep_id rep = Some want) then Replied rep (st, g) else NoReply (st, g)
          | None => NoReply (st, g)
          end
      end
  end.
End agent.

(** *** The budgets

    Both are set once, for the whole capture; a turn of [drive_until_reply]
    tests them before it looks for the reply. *)
Definition CAPTURE_WALL_BUDGET_S : Z := 30.
Definition CAPTURE_VTSC_BUDGET_S : Z := 120.

(** [Instant::now() + Duration::from_secs(..)], in nanoseconds, and the guest
    time of the horizon. *)
Definition wall_deadline (now : Z) : Z := now + CAPTURE_WALL_BUDGET_S * 1000000000.
Definition capture_horizon (now hz : Z) : Z := wrapping_add_u64 now (CAPTURE_VTSC_BUDGET_S * hz).

(** One exchange with the guest: the real and the guest time until the turn
    that finds the reply, or the guest dies. *)
Inductive Exchange := Takes (wall vtsc : Z) | Dies.

(** The agent, the two clocks and the exchanges to come. *)
Record Link (G : Type) := { ln_agent : Agent * G; ln_wall : Z; ln_vtsc : Z; ln_next : list Exchange }.
Arguments Build_Link {G}.
Arguments ln_agent {G}.
Arguments ln_wall {G}.
Arguments ln_vtsc {G}.
Arguments ln_next {G}.

Section link.
Context {G J : Type} `{GuestOs G, PsJson, Json Request, Json (Reply J)}.
Context (to_lowercase : string -> string) (BUILD : string) (deadline horizon : Z).

Definition ask_link (framed : list Z) (want : Z) (s : Link G) : asked (Reply J) (Link G) :=
  match ln_next s with
  | [] => Waiting s
  | Dies :: xs => Unresponsive {| ln_agent := ln_agent s; ln_wall := ln_wall s; ln_vtsc := ln_vtsc s; ln_next := xs |}
  | Takes dw dv :: xs =>
      let later ag := {| ln_agent := ag; ln_wall := ln_wall s + dw; ln_vtsc := ln_vtsc s + dv; ln_next := xs |} in
      match ask_agent to_lowercase BUILD framed want (ln_agent s) with
      | Replied rep ag =>
          if (deadline <=? ln_wall s + dw) || (horizon <=? ln_vtsc s + dv) then NoReply (later ag)
          else Replied rep (later ag)
      | NoReply ag => NoReply (later ag)
      | Unresponsive ag => Unresponsive (later ag)
      | Waiting ag => Waiting (later ag)
      | Broken => Broken
      end
  end.
End link.

(** The next [n] exchanges are over before either budget is. *)
Fixpoint on_time (deadline horizon wall vtsc : Z) (n : nat) (xs : list Exchange) : Prop :=
  match n, xs with
  | O, _ => True
  | S n, Takes dw dv :: xs =>
      wall + dw < deadline /\ vtsc + dv < horizon /\ on_time deadline horizon (wall + dw) (vtsc + dv) n xs
  | S _, _ => False
  end.

(** ** Lemmas: driving the machine for a reply *)

Section driving.
Context {A C U V J : Type} `{EgressConnector A C, Epoll C, Uart U, KvmTsc V, Json (Reply J)}.
Abbreviation M := (Machine U C V).
Context (clock : VirtualClock) (fuel : nat) (above : Z -> Z -> bool) (ff : bool) (horizon : Z).

(** The machine stays sound, the clock goes forward and the driver is the one
    the capture began with. *)
Abbreviation kept m m' := (going_with (U := U) (C := C) (V := V) clock ff (eq (mc_driver m)) m m').

Lemma drive_kept_refl m : sound clock m -> kept m m.
Proof. intros Hs. by apply going_refl. Qed.

Lemma drive_kept_trans m1 m2 m3 : kept m1 m2 -> kept m2 m3 -> kept m1 m3.
Proof.
  intros (? & Hf & Hd) (? & Hf' & Hd'). split; [done|]. split; [by eapply forward_trans|]. congruence.
Qed.

Lemma find_reply_kept n want m m1 r m2 : kept m m1 -> find_reply (J := J) n want m1 = (r, m2) -> kept m m2.
Proof.
  revert m1. induction n as [|n IH]; intros m1 Hk; cbn [find_reply]; [by intros [= _ <-]|].
  destruct (poll_line (dv_com2 (mc_dev m1))) as [line c].
  assert (Hk1 : kept m (with_dev m1 ((mc_dev m1) <| dv_com2 := c |>))).
  { eapply going_same; [exact Hk| |done..]. destruct Hk as (([] & _) & _). by split. }
  destruct line as [line|]; [|by intros [= _ <-]]. pose proof (pump_com2_going _ _ _ _ _ Hk1) as Hk2.
  destruct (decode_line line) as [rep|]; [case_bool_decide; [by intros [= _ <-]|]|]; by apply IH.
Qed.

Lemma find_reply_id n want : forall (m1 : M) rep m2, find_reply (J := J) n want m1 = (Some rep, m2) -> rep_id rep = Some want.
Proof.
  induction n as [|n IH]; intros m1 rep m2; cbn [find_reply]; [done|].
  destruct (poll_line _) as [[line|] c]; [|done]. destruct (decode_line line) as [rep'|]; [|by apply IH].
  case_bool_decide; [by intros [= <- _]|by apply IH].
Qed.

Lemma drive_hlt_kept e m m1 : kept m m1 ->
  match drive_hlt (J := J) clock fuel above ff horizon e m1 with
  | GaveUp m2 | Aborted m2 | Driving m2 | DriveParked m2 => kept m m2
  | Answered _ _ => False
  | DriveCrashed => True
  end.
Proof.
  intros Hk. unfold drive_hlt. destruct (kr_if_flag (mc_page m1) =? 0); [done|].
  pose proof Hk as ((Hd & Hc) & _). set (s0 := (vm_of m1) <| vm_driver := driver_default |>).
  pose proof (park_ok (J := J) (dv_ioapic (mc_dev m1)) clock (Some horizon) fuel above ltac:(by destruct Hd) ff (r_park e) s0
    ltac:(split; [by destruct Hd|done])) as Hpk.
  destruct (park_kept (J := J) (dv_ioapic (mc_dev m1)) clock (Some horizon) fuel above ff (r_park e) s0 Hc) as [Ht _].
  assert (Hback : forall s, lapic_wf (vm_lapic s) -> time_kept clock ff s0 s ->
    kept m ((with_vm m1 s) <| mc_driver := mc_driver m1 |>)).
  { intros s Hl Hs. assert (Hs' : time_kept clock ff (vm_of m1) s) by exact Hs.
    destruct (park_machine clock ff _ m m1 s Hk Hl Hs') as [Hso Hfo]. split; [exact Hso|]. split; [exact Hfo|]. apply Hk. }
  destruct (park_until_deliverable _ _ _ _ _ _ _ _) as [s|o s|err s|]; cbn in Hpk, Ht; [| | |done].
  - apply Hback; [apply Hpk|done].
  - destruct o; apply Hback; done || apply Hpk.
  - apply Hback; [apply Hpk|done].
Qed.

Lemma drive_turn_kept want e m : sound clock m -> exit_ok e ->
  match drive_turn (J := J) clock fuel above ff want horizon e m with
  | Answered _ m2 | GaveUp m2 | Aborted m2 | Driving m2 | DriveParked m2 => kept m m2
  | DriveCrashed => True
  end.
Proof.
  intros Hs Hok. unfold drive_turn. set (m0 := m <| mc_ie := _ |>).
  assert (Hs0 : sound clock m0) by exact Hs. assert (Hk0 : kept m m0) by by apply (ie_going _ _ _ m m), drive_kept_refl.
  destruct (r_wall e); [done|]. pose proof (turn_top_ok clock fuel ff (eq (mc_driver m)) (Some horizon) e m0 Hs0 eq_refl) as Ht.
  destruct (turn_top _ _ _ _ m0) as [s|[b m1]]; [done|]. destruct Ht as (Hk1 & _ & _).
  assert (Hk1' : kept m m1) by exact Hk1. destruct b; [done|]. pose proof (pump_com2_going _ _ _ _ _ Hk1') as Hk2.
  destruct (find_reply _ want (pump_com2 m1)) as [r m3] eqn:Ef. apply (find_reply_kept _ _ m) in Ef; [|done].
  destruct r as [rep|]; [done|]. destruct (pump_egress_run m3) as [r m4] eqn:Ep.
  eapply pump_egress_run_going in Ep as [Hk4 _]; [|exact Ef]. destruct r; [|done].
  destruct (enter clock e m4) as [m5|] eqn:Ee; [|done]. eapply enter_going in Ee; [|exact Hk4].
  unfold drive_exit. set (m6 := m5 <| mc_page := r_page e |> <| mc_ie := _ |>).
  assert (Hk6 : kept m m6) by (eapply going_same; [exact Ee|apply Ee|done..]).
  destruct (r_run e) as [exit|errno] eqn:Er; [|by destruct ((errno =? Park.EINTR) || (errno =? EAGAIN))].
  destruct (device_exit _ _ _ _) as [st|] eqn:Ex.
  { eapply device_exit_going in Ex as (m7 & -> & Hk7); done. }
  pose proof (drive_hlt_kept e m m6 Hk6) as Hh. destruct exit; try done.
  by destruct (drive_hlt _ _ _ _ _ e m6).
Qed.

(** Driving keeps the machine; an answer takes at least a turn. *)
Lemma drive_loop_kept want es : forall m, sound clock m -> Forall exit_ok es ->
  match drive_loop (J := J) clock fuel above ff want horizon es m with
  | (Answered _ m2, es2) => kept m m2 /\ exists e, es2 `suffix_of` es /\ (length es2 < length es)%nat /\ e ∈ es
  | (GaveUp m2, es2) | (Aborted m2, es2) | (Driving m2, es2) | (DriveParked m2, es2) => kept m m2 /\ es2 `suffix_of` es
  | (DriveCrashed, _) => True
  end.
Proof.
  induction es as [|e es IH]; intros m Hs Hok; cbn [drive_loop]; [by split; [apply drive_kept_refl|]|].
  apply Forall_cons in Hok as [He Hok]. pose proof (drive_turn_kept want e m Hs He) as Ht.
  assert (Hsuf : es `suffix_of` e :: es) by by exists [e].
  destruct (drive_turn _ _ _ _ want horizon e m) as [r m1|m1|m1|m1| |m1]; try done.
  - split; [done|]. exists e. split; [done|]. split; [simpl; lia|by left].
  - pose proof Ht as (Hs1 & _). specialize (IH m1 Hs1 Hok).
    destruct (drive_loop _ _ _ _ want horizon es m1) as [[r m2|m2|m2|m2| |m2] es2]; try done;
      destruct IH as [Hk IH]; (split; [by eapply drive_kept_trans|]); [|by etrans..].
    destruct IH as (e' & ? & ? & ?). exists e'. split; [by etrans|]. split; [simpl; lia|by right].
Qed.

(** The machine takes a reply only in a turn that begins within both budgets,
    and only the one it waits for; it gives up only in a turn that begins past
    one of them, or parked until the horizon. *)
Lemma drive_turn_in_time want e m : sound clock m ->
  match drive_turn (J := J) clock fuel above ff want horizon e m with
  | Answered rep _ => r_wall e = false /\ vtsc_from_host (mc_cells m) clock (r_now e) < horizon /\ rep_id rep = Some want
  | GaveUp _ => r_wall e = true \/ horizon <= vtsc_from_host (mc_cells m) clock (r_now e) \/ r_run e = Ok HltExit
  | _ => True
  end.
Proof.
  intros Hs. unfold drive_turn. set (m0 := m <| mc_ie := _ |>).
  destruct (r_wall e) eqn:Ew; [by left|].
  pose proof (turn_top_ok clock fuel ff (eq (mc_driver m)) (Some horizon) e m0 Hs eq_refl) as Ht.
  destruct (turn_top _ _ _ _ m0) as [s|[b m1]]; [done|]. destruct Ht as (_ & _ & Hb).
  change (mc_cells m0) with (mc_cells m) in Hb. cbn [due] in Hb.
  destruct b; [right; left; symmetry in Hb; by apply Z.leb_le|]. symmetry in Hb. apply Z.leb_gt in Hb.
  destruct (find_reply _ want (pump_com2 m1)) as [r m3] eqn:Ef. destruct r as [rep|].
  { split_and!; [done|done|]. by eapply find_reply_id. }
  destruct (pump_egress_run m3) as [[?|] m4]; [|done]. destruct (enter clock e m4) as [m5|]; [|done].
  unfold drive_exit. destruct (r_run e) as [exit|errno]; [|by destruct (_ || _)].
  destruct (device_exit _ _ _ _) as [[]|]; try done. destruct exit; try done.
  destruct (drive_hlt _ _ _ _ _ _ _) eqn:Eh; try done; [|by right; right].
  by unfold drive_hlt in Eh; repeat (case_match; try done).
Qed.

(** What asking the machine leaves. *)
Lemma ask_machine_kept framed want m es : sound clock m -> Forall exit_ok es ->
  match ask_machine (J := J) clock fuel above ff horizon framed want (m, es) with
  | Replied _ (m2, es2) => kept m m2 /\ es2 `suffix_of` es /\ (length es2 < length es)%nat
  | NoReply (m2, es2) | Unresponsive (m2, es2) | Waiting (m2, es2) => kept m m2 /\ es2 `suffix_of` es
  | Broken => True
  end.
Proof.
  intros Hs Hok. unfold ask_machine, drive_until_reply. destruct (poll_lines _ _) as [ls c].
  set (m1 := pump_com2 _). assert (Hk : kept m m1).
  { apply pump_com2_going. eapply going_same; [by apply drive_kept_refl| |done..]. destruct Hs as ([] & _). by split. }
  pose proof Hk as (Hs1 & _). pose proof (drive_loop_kept want es m1 Hs1 Hok) as Hl.
  destruct (drive_loop _ _ _ _ want horizon es m1) as [[r m2|m2|m2|m2| |m2] es2]; try done;
    destruct Hl as [Hk2 Hl]; (split; [by eapply drive_kept_trans|]); [|done..].
  by destruct Hl as (e & ? & ? & _).
Qed.

End driving.

(** ** Lemmas: the capture over any way of asking *)

Section generic.
Context {J S : Type} `{Json Request} (ask : list Z -> Z -> S -> asked (Reply J) S) (write_ok : list Z -> bool).
(** What asking keeps, and what an answer uses up. *)
Context (P : S -> Prop) (left_ : S -> nat).
Context (Hask : forall framed want s, P s ->
  match ask framed want s with
  | Replied _ s2 => P s2 /\ (left_ s2 < left_ s)%nat
  | NoReply s2 | Unresponsive s2 | Waiting s2 => P s2 /\ (left_ s2 <= left_ s)%nat
  | Broken => True
  end).

Lemma pull_keeps fuel service : forall id cursor raw s, P s ->
  match pull ask fuel service id cursor raw s with
  | Got _ s2 | StillWaiting s2 => P s2 /\ (left_ s2 <= left_ s)%nat
  | Panicked => True
  end.
Proof.
  induction fuel as [|fuel IH]; intros id cursor raw s Hs; cbn [pull]; [done|]. destruct (encode_line _) as [framed|]; [|done].
  specialize (Hask framed id s Hs). destruct (ask framed id s) as [rep s2|s2|s2|s2|]; try done. destruct Hask as [Hs2 Hl].
  destruct (negb _); [split; [done|lia]|]. destruct (_ || _); [split; [done|lia]|].
  specialize (IH (id + 1) (default cursor (rep_next_cursor rep)) (raw ++ match rep_data rep with Some d => lit d | None => [] end) s2 Hs2).
  destruct (pull _ fuel _ _ _ _ _) as [p s3|s3|]; [split; [by apply IH|]; destruct IH; lia..|done].
Qed.

(** More fuel than there can be answers changes nothing. *)
Lemma pull_fuel service : forall f1 f2 id cursor raw s, P s -> (left_ s < f1)%nat -> (left_ s < f2)%nat ->
  pull ask f1 service id cursor raw s = pull ask f2 service id cursor raw s.
Proof.
  induction f1 as [|f1 IH]; intros f2 id cursor raw s Hs H1 H2; [lia|]. destruct f2 as [|f2]; [lia|]. cbn [pull].
  destruct (encode_line _) as [framed|]; [|done]. specialize (Hask framed id s Hs).
  destruct (ask framed id s) as [rep s2|s2|s2|s2|]; try done. destruct Hask as [Hs2 Hl].
  destruct (negb _); [done|]. destruct (_ || _); [done|]. apply IH; [done|lia..].
Qed.

(** A name that is not a log of a requested service is left alone. *)
Definition others_kept (services : list string) (dir dir' : gmap (list Z) (list Z)) : Prop :=
  forall name, dir' !! name <> dir !! name ->
  exists service, service ∈ services /\ is_safe_path_component (lit service) = true /\ name = log_name (lit service).

Lemma others_kept_refl services dir : others_kept services dir dir.
Proof. by intros name. Qed.

Lemma write_log_others services service fname dir raw : service ∈ services -> sanitize_service_filename (lit service) = Some fname ->
  others_kept services dir (write_log write_ok dir fname raw).
Proof.
  unfold sanitize_service_filename. destruct (is_safe_path_component _) eqn:E; [|done]. intros Hin [= <-] name. unfold write_log.
  destruct (write_ok _); [|done]. destruct (decide (name = log_name (lit service))) as [->|Hne]; [by exists service|].
  by rewrite lookup_insert_ne.
Qed.

Lemma others_kept_trans services dir dir' dir'' : others_kept services dir dir' -> others_kept services dir' dir'' ->
  others_kept services dir dir''.
Proof.
  intros H1 H2 name Hn. destruct (decide (dir' !! name = dir !! name)) as [E|Hne]; [|by apply H1]. apply H2. congruence.
Qed.

Lemma capture_services_keeps all fuel services : services ⊆ all -> forall id dir s, P s ->
  match capture_services ask write_ok fuel services id dir s with
  | Got dir' s2 => P s2 /\ others_kept all dir dir'
  | StillWaiting s2 => P s2
  | Panicked => True
  end.
Proof.
  induction services as [|service services IH]; intros Hsub id dir s Hs; cbn [capture_services]; [by split; [|apply others_kept_refl]|].
  assert (Hsub' : services ⊆ all) by set_solver. assert (Hin : service ∈ all) by set_solver. specialize (IH Hsub').
  destruct (sanitize_service_filename _) as [fname|] eqn:Ef; [|by apply IH].
  pose proof (pull_keeps fuel service id 0 [] s Hs) as Hp. destruct (pull _ _ _ _ _ _ _) as [p s2|s2|]; [|by apply Hp|done].
  destruct Hp as [Hs2 _]. pose proof (write_log_others all service fname dir (p_raw p) Hin Ef) as Hw.
  destruct (p_aborted p); [done|]. specialize (IH (p_next_id p) (write_log write_ok dir fname (p_raw p)) s2 Hs2).
  destruct (capture_services _ _ _ _ _ _ _) as [dir' s3|s3|]; try done. destruct IH as [? Ho]. split; [done|].
  by eapply others_kept_trans.
Qed.

Lemma capture_services_fuel services : forall f1 f2 id dir s, P s -> (left_ s < f1)%nat -> (left_ s < f2)%nat ->
  capture_services ask write_ok f1 services id dir s = capture_services ask write_ok f2 services id dir s.
Proof.
  induction services as [|service services IH]; intros f1 f2 id dir s Hs H1 H2; cbn [capture_services]; [done|].
  destruct (sanitize_service_filename _) as [fname|]; [|by apply IH]. rewrite (pull_fuel service f1 f2) by done.
  pose proof (pull_keeps f2 service id 0 [] s Hs) as Hp. destruct (pull _ _ _ _ _ _ _) as [p s2|s2|]; [|done|done].
  destruct Hp. destruct (p_aborted p); [done|]. apply IH; [done|lia..].
Qed.

Lemma capture_logs_keeps fuel services dir s : P s ->
  match capture_logs ask write_ok fuel services dir s with
  | Got dir' s2 => P s2 /\ others_kept services dir dir'
  | StillWaiting s2 => P s2
  | Panicked => True
  end.
Proof.
  intros Hs. unfold capture_logs. destruct (encode_line _) as [framed|]; [|done]. pose proof (Hask framed 1 s Hs) as Ha.
  destruct (ask framed 1 s) as [rep s2|s2|s2|s2|]; try done; destruct Ha as [Hs2 _]; [|by (split; [|apply others_kept_refl])..|done].
  destruct (match rep_schema rep with Some v => _ | None => _ end); [by apply capture_services_keeps|]. by split; [|apply others_kept_refl].
Qed.

Lemma capture_logs_fuel f1 f2 services dir s : P s -> (left_ s < f1)%nat -> (left_ s < f2)%nat ->
  capture_logs ask write_ok f1 services dir s = capture_logs ask write_ok f2 services dir s.
Proof.
  intros Hs H1 H2. unfold capture_logs. destruct (encode_line _) as [framed|]; [|done]. pose proof (Hask framed 1 s Hs) as Ha.
  destruct (ask framed 1 s) as [rep s2|s2|s2|s2|]; try done. destruct Ha as [Hs2 ?].
  destruct (match rep_schema rep with Some v => _ | None => _ end); [|done]. apply capture_services_fuel; [done|lia..].
Qed.

End generic.

(** ** Lemmas: the text of a log *)

(** An entry as podman writes it, and as it is shown. *)
Record LogEntry := { le_ts : list Z; le_err : bool; le_full : bool; le_msg : list Z }.

Definition stream_of (e : LogEntry) : list Z := lit (if le_err e then "stderr" else "stdout").

Definition entry_line (e : LogEntry) : list Z :=
  le_ts e ++ [32] ++ stream_of e ++ [32] ++ lit (if le_full e then "F" else "P") ++ [32] ++ le_msg e.

Definition shown (e : LogEntry) : list Z := le_ts e ++ [32] ++ stream_of e ++ [32] ++ le_msg e ++ [LF].

(** The time stamp is one word of one line, the message ends neither the line
    nor with a CR. *)
Definition entry_plain (e : LogEntry) : Prop :=
  Forall (fun b => b <> 32 /\ b <> LF) (le_ts e) /\ no_lf (le_msg e) /\ last (le_msg e) <> Some CR.

Lemma next_field_app f s : Forall (fun b => b <> 32) f -> next_field (f ++ 32 :: s) = (f, Some s).
Proof.
  induction 1 as [|b f Hb _ IH]; [done|]. cbn [app next_field]. rewrite IH. by rewrite (proj2 (Z.eqb_neq b 32)) by done.
Qed.

Lemma format_entry e : entry_plain e -> format_line (entry_line e) = shown e.
Proof.
  intros (Hts & _ & _). unfold format_line, entry_line.
  rewrite bool_decide_eq_false_2 by (intros E; apply (f_equal length) in E; rewrite !length_app in E; simpl in E; lia).
  assert (Hf : forall f s, Forall (fun b => b <> 32) f -> take_field (Some (f ++ [32] ++ s)) = (f, Some s))
    by (intros f s Hf; by apply next_field_app).
  change (next_field ?s) with (take_field (Some s)). rewrite Hf by (eapply Forall_impl; [exact Hts|]; naive_solver).
  assert (Hs : Forall (fun b => b <> 32) (stream_of e)) by (unfold stream_of; destruct (le_err e); apply (bool_decide_unpack _); by vm_compute).
  rewrite Hf by done. rewrite Hf by (destruct (le_full e); apply (bool_decide_unpack _); by vm_compute).
  assert (bool_decide (stream_of e = lit "stdout") || bool_decide (stream_of e = lit "stderr") = true) as ->
    by (unfold stream_of; by destruct (le_err e)).
  assert (bool_decide (lit (if le_full e then "F" else "P") = lit "F") || bool_decide (lit (if le_full e then "F" else "P") = lit "P") = true) as ->
    by (by destruct (le_full e)).
  done.
Qed.

Lemma entry_line_ok e : entry_plain e -> no_lf (entry_line e) /\ strip_cr (entry_line e) = entry_line e.
Proof.
  intros (Hts & Hm & Hcr). assert (Hlf : forall s, bool_decide (Forall (fun b => b <> LF) (lit s)) = true -> no_lf (lit s))
    by (intros s; apply bool_decide_eq_true_1).
  split.
  - unfold no_lf, entry_line, stream_of. rewrite !Forall_app, !Forall_singleton. split_and!; try done.
    + eapply Forall_impl; [exact Hts|]. naive_solver.
    + by destruct (le_err e); apply Hlf.
    + by destruct (le_full e); apply Hlf.
  - unfold strip_cr. rewrite bool_decide_eq_false_2; [done|]. unfold entry_line. rewrite !last_app. cbn [last].
    destruct (last (le_msg e)) as [b|]; [done|]. by destruct (le_full e).
Qed.

(** The log of a container, entry by entry. *)
Lemma format_entries es : Forall entry_plain es ->
  format_k8s_logs (concat ((fun e => entry_line e ++ [LF]) <$> es)) = concat (shown <$> es).
Proof.
  intros Hes. unfold format_k8s_logs, str_lines.
  assert (Hl : Forall no_lf (entry_line <$> es)) by (apply Forall_fmap; eapply Forall_impl; [exact Hes|]; intros e He; by apply entry_line_ok).
  assert ((fun e => entry_line e ++ [LF]) <$> es = (fun l => l ++ [LF]) <$> (entry_line <$> es)) as -> by by rewrite <- list_fmap_compose.
  pose proof (split_lines_join (entry_line <$> es) [] Hl ltac:(constructor)) as Hs. unfold join_lines in Hs.
  rewrite app_nil_r in Hs. rewrite Hs, bool_decide_eq_true_2, app_nil_r by done. clear Hs Hl.
  induction Hes as [|e es He _ IH]; [done|]. cbn. rewrite IH. destruct (entry_line_ok e He) as [_ ->]. by rewrite format_entry.
Qed.

(** ** Lemmas: text and bytes *)

Lemma lit_text bs : bytes_ok bs -> lit (text bs) = bs.
Proof.
  intros Hb. unfold lit, text. rewrite list_ascii_of_string_of_list_ascii, <- list_fmap_compose.
  induction Hb as [|b bs Hb _ IH]; [done|]. cbn. rewrite IH. f_equal. unfold byte_of_ascii, fits in *.
  rewrite N_ascii_embedding by lia. lia.
Qed.

Lemma lossy_bytes_ok bs : bytes_ok bs -> bytes_ok (from_utf8_lossy bs).
Proof.
  assert (Hr : bytes_ok REPLACEMENT) by (apply (bool_decide_unpack _); by vm_compute).
  unfold from_utf8_lossy. generalize (length bs). intros n. revert bs. induction n as [|n IH]; intros bs Hb; [constructor|].
  destruct bs as [|b bs]; [constructor|]. cbn [lossy_loop]. apply Forall_cons in Hb as [Hb Hbs].
  destruct (utf8_step b bs) as [o k] eqn:E. apply Forall_app. split.
  - unfold utf8_step in E. destruct (b <? 128); [injection E as <- _; by apply Forall_singleton|].
    destruct (utf8_lead b) as [[[len lo] hi]|]; [|by injection E as <- _].
    destruct (_ =? _)%nat; injection E as <- _; [constructor; [done|by apply Forall_take]|done].
  - apply IH. apply Forall_drop. by constructor.
Qed.

Lemma framed_decodes {T} `{Json T} (v : T) line : json_exact v -> encode_line v = Some line -> decode_line line = Some v.
Proof.
  intros Hx (bs & Hbs & ->)%fmap_Some. destruct (json_compact v bs Hbs) as (a & b & Ha & Hb & Hwa & Hwb). unfold decode_line.
  rewrite <- (app_nil_l (bs ++ [10])), (trim_frame_core [] bs [10] a b); [by apply json_roundtrip|constructor|by constructor|done..].
Qed.

(** ** Lemmas: pulling from the agent *)

(** A file read in chunks of [cap]; a short chunk is the last. *)
Fixpoint pages (n cap : nat) (rest : list Z) : list (list Z) :=
  match n with
  | O => [rest]
  | Datatypes.S n => if (length rest <? cap)%nat then [rest] else take cap rest :: pages n cap (drop cap rest)
  end.

Definition CHUNK : nat := Z.to_nat MAX_LOGS_CHUNK_BYTES.

Lemma CHUNK_pos : (0 < CHUNK)%nat.
Proof. unfold CHUNK. change 0%nat with (Z.to_nat 0). by apply Z2Nat.inj_lt. Qed.

Lemma CHUNK_large : (4096 < CHUNK)%nat.
Proof. unfold CHUNK, MAX_LOGS_CHUNK_BYTES. lia. Qed.

Lemma logs_cap_chunk id service cursor : logs_cap (logs_request id service cursor) = CHUNK.
Proof.
  unfold logs_cap, CHUNK. change (default MAX_LOGS_CHUNK_BYTES (req_max_bytes (logs_request id service cursor))) with MAX_LOGS_CHUNK_BYTES.
  rewrite Z.min_id. reflexivity.
Qed.

#[local] Opaque CHUNK.

Definition pages_of (bs : list Z) : list (list Z) := pages (length bs) CHUNK bs.

Lemma pages_pos n cap rest : (0 < length (pages n cap rest))%nat.
Proof. destruct n; cbn [pages]; [|destruct (_ <? _)%nat]; cbn; lia. Qed.

Lemma concat_pages n cap : forall rest, concat (pages n cap rest) = rest.
Proof.
  induction n as [|n IH]; intros rest; cbn [pages]; [apply app_nil_r|]. destruct (_ <? _)%nat; [apply app_nil_r|].
  cbn [concat]. by rewrite IH, take_drop.
Qed.

(** Chunk by chunk, an ASCII file is the file. *)
Lemma pages_ascii bs : Forall (fun b => b < 128) bs -> concat (from_utf8_lossy <$> pages_of bs) = bs.
Proof.
  intros Hb. rewrite <- (concat_pages (length bs) CHUNK bs) at 2. f_equal. fold (pages_of bs).
  assert (Hp : Forall (Forall (fun b => b < 128)) (pages_of bs)).
  { apply Forall_concat. unfold pages_of. by rewrite concat_pages. }
  induction Hp as [|p ps Hp _ IH]; [done|]. cbn. by rewrite IH, from_utf8_lossy_ascii.
Qed.

Section honest.
Context {G J : Type} `{GuestOs G, PsJson, Json Request, Json (Reply J), !RequestJson, !ReplyJson J, !LogLaws G}.
Context (to_lowercase : string -> string) (BUILD : string).
(** Every message can be written ([serde_json] fails on none of these types). *)
Context (Hreq : forall r : Request, is_Some (to_vec r)) (Hrep : forall r : Reply J, is_Some (to_vec r)).
Context (g0 : G).

Abbreviation ask := (ask_agent (J := J) to_lowercase BUILD).

(** The files are those the capture began with. *)
Definition same_files (g : G) : Prop := forall p, log_file p g = log_file p g0.

(** The log of a service can be found, now and later, and is [bs]. *)
Definition serves (service : string) (bs : list Z) : Prop :=
  exists path, log_file path g0 = Some bs /\ forall req g, same_files g -> req_container req = Some service ->
  exists id g1 g2, logs_container (V := J) req service g = (Ok id, g1) /\ container_log_path id g1 = (Ok path, g2) /\ same_files g2.

Lemma framed_total {T} `{Json T} (v : T) : is_Some (to_vec v) -> exists line, encode_line v = Some line.
Proof. intros [bs Hb]. exists (bs ++ [10]). unfold encode_line. by rewrite Hb. Qed.

(** A frame reaches the agent, and the reply that comes back is its own. *)
Lemma ask_agent_eq req framed s : encode_line req = Some framed ->
  ask framed (req_id req) s = Replied (handle to_lowercase BUILD req s.1 s.2).1.1
    ((handle (V := J) to_lowercase BUILD req s.1 s.2).1.2, (handle (V := J) to_lowercase BUILD req s.1 s.2).2).
Proof.
  intros He. unfold ask_agent. rewrite (framed_decodes _ _ (request_exact req) He).
  pose proof (handle_answers (V := J) to_lowercase BUILD req s.1 s.2) as (Hid & _ & Hev & _).
  destruct (handle to_lowercase BUILD req s.1 s.2) as [[r st] g]. cbn [fst snd] in *.
  destruct (framed_total r (Hrep r)) as [line Hl]. rewrite Hl, (framed_decodes _ _ (reply_exact r Hev) Hl), bool_decide_eq_true_2 by done. done.
Qed.

(** The agent's answer to one page. *)
Lemma logs_page service bs id cursor st g : serves service bs -> bytes_ok bs -> empty service = false -> same_files g ->
  0 <= cursor -> Z.of_nat (length bs) < 2 ^ 63 -> cursor <= Z.of_nat (length bs) ->
  let chunk := take CHUNK (drop (Z.to_nat cursor) bs) in
  exists g', same_files g' /\ handle (V := J) to_lowercase BUILD (logs_request id service cursor) st g
  = (reply_default <| rep_id := Some id |> <| rep_ok := Some true |> <| rep_op := Some "logs" |>
       <| rep_data := match from_utf8_lossy chunk with [] => None | _ => Some (text (from_utf8_lossy chunk)) end |>
       <| rep_next_cursor := Some (cursor + Z.of_nat (length chunk)) |> <| rep_eof := Some (length chunk <? CHUNK)%nat |>, st, g').
Proof.
  intros (path & Hfile & Hfind) Hb He Hg Hc Hlen Hcl chunk.
  destruct (Hfind (logs_request id service cursor) g Hg eq_refl) as (cid & g1 & g2 & E1 & E2 & Hg2).
  destruct (read_log_chunk_spec path cursor CHUNK g2 ltac:(lia)) as (g3 & E3 & Hf3).
  rewrite (Hg2 path), Hfile in E3. cbn [from_option] in E3. change (Datatypes.id bs) with bs in E3. fold chunk in E3. exists g3. split.
  { intros p. by rewrite Hf3, Hg2. }
  assert (Hsat : saturating_add_u64 cursor (Z.of_nat (length chunk)) = cursor + Z.of_nat (length chunk)).
  { assert (length chunk <= length bs)%nat by (subst chunk; rewrite length_take, length_drop; lia).
    unfold saturating_add_u64. apply Z.min_r. unfold U64_MAX. lia. }
  change (handle (V := J) to_lowercase BUILD (logs_request id service cursor) st g)
    with ((do_logs (V := J) (logs_request id service cursor) g).1, st, (do_logs (V := J) (logs_request id service cursor) g).2).
  unfold do_logs. change (field (req_container (logs_request id service cursor))) with service.
  change (default 0 (req_cursor (logs_request id service cursor))) with cursor.
  rewrite He, logs_cap_chunk, E1, E2, E3. cbn [fst snd]. by rewrite Hsat.
Qed.

Context (deadline horizon : Z).
Abbreviation ask_in := (ask_link (J := J) to_lowercase BUILD deadline horizon).
Abbreviation in_time s := (on_time deadline horizon (ln_wall s) (ln_vtsc s)).

(** What the next exchange does with a request. *)
Lemma ask_link_eq req framed (s : Link G) : encode_line req = Some framed ->
  let h := handle (V := J) to_lowercase BUILD req (ln_agent s).1 (ln_agent s).2 in
  ask_in framed (req_id req) s =
    match ln_next s with
    | [] => Waiting s
    | Dies :: xs => Unresponsive (Build_Link (ln_agent s) (ln_wall s) (ln_vtsc s) xs)
    | Takes dw dv :: xs =>
        let s' := Build_Link (h.1.2, h.2) (ln_wall s + dw) (ln_vtsc s + dv) xs in
        if (deadline <=? ln_wall s + dw) || (horizon <=? ln_vtsc s + dv) then NoReply s' else Replied h.1.1 s'
    end.
Proof. intros He. unfold ask_link. by rewrite (ask_agent_eq req framed (ln_agent s) He). Qed.

Lemma on_time_not_late n w v dw dv xs : on_time deadline horizon w v (S n) (Takes dw dv :: xs) ->
  (deadline <=? w + dw) || (horizon <=? v + dv) = false.
Proof. cbn [on_time]. intros (? & ? & _). apply orb_false_iff. split; apply Z.leb_gt; lia. Qed.

(** Of what is left of a log, the pull gets some pages from the front, and all
    of them when the exchanges it takes are in time. *)
Definition pulled_from (ps : list (list Z)) (raw : list Z) (s : Link G) (o : outcome Pulled (Link G)) : Prop :=
  exists k id' ab s', same_files (ln_agent s').2
  /\ o = Got (Build_Pulled (raw ++ concat (from_utf8_lossy <$> take k ps)) id' ab) s'
  /\ (length (ln_next s) <= length ps + length (ln_next s'))%nat
  /\ forall m, in_time s (length ps + m) (ln_next s) -> k = length ps /\ ab = false /\ in_time s' m (ln_next s').

(** No answer to a request: the pull stops with what it has. *)
Lemma pull_cut fuel service id cursor raw p ps (s : Link G) framed : same_files (ln_agent s).2 ->
  encode_line (logs_request id service cursor) = Some framed -> ln_next s <> [] ->
  (forall dw dv xs, ln_next s = Takes dw dv :: xs -> same_files (handle (V := J) to_lowercase BUILD
     (logs_request id service cursor) (ln_agent s).1 (ln_agent s).2).2) ->
  (forall dw dv xs, ln_next s = Takes dw dv :: xs ->
     (deadline <=? ln_wall s + dw) || (horizon <=? ln_vtsc s + dv) = true) ->
  pulled_from (p :: ps) raw s (pull ask_in (S fuel) service id cursor raw s).
Proof.
  intros Hg Hfr Hne Hh Hlate. cbn [pull]. rewrite Hfr.
  change (ask_in framed id s) with (ask_in framed (req_id (logs_request id service cursor)) s). rewrite (ask_link_eq _ framed s Hfr).
  destruct (ln_next s) as [|[dw dv|] xs] eqn:En; [done| |]; cbn [length].
  - cbv zeta. rewrite (Hlate dw dv xs eq_refl). eexists O, _, _, _. split; [|split; [by rewrite app_nil_r|]].
    + exact (Hh dw dv xs eq_refl).
    + split; [rewrite En; cbn; lia|]. intros m Ht. rewrite En in Ht. cbn [Nat.add length] in Ht.
      apply on_time_not_late in Ht. by rewrite (Hlate dw dv xs eq_refl) in Ht.
  - eexists O, _, _, _. split; [|split; [by rewrite app_nil_r|]]; [exact Hg|]. split; [rewrite En; cbn; lia|].
    intros m Ht. by rewrite En in Ht.
Qed.

(** An answer in time: a page more, and on unless it was a short one. *)
Lemma pull_page fuel service bs id cursor raw (s : Link G) dw dv xs :
  serves service bs -> bytes_ok bs -> empty service = false -> Z.of_nat (length bs) < 2 ^ 63 ->
  same_files (ln_agent s).2 -> 0 <= cursor <= Z.of_nat (length bs) -> ln_next s = Takes dw dv :: xs ->
  (deadline <=? ln_wall s + dw) || (horizon <=? ln_vtsc s + dv) = false ->
  let chunk := take CHUNK (drop (Z.to_nat cursor) bs) in
  exists g', same_files g'
  /\ let s' := Build_Link ((ln_agent s).1, g') (ln_wall s + dw) (ln_vtsc s + dv) xs in
  pull ask_in (S fuel) service id cursor raw s =
    if (length chunk <? CHUNK)%nat then Got (Build_Pulled (raw ++ from_utf8_lossy chunk) (id + 1) false) s'
    else pull ask_in fuel service (id + 1) (cursor + Z.of_nat CHUNK) (raw ++ from_utf8_lossy chunk) s'.
Proof.
  intros Hs Hb He Hlen Hg Hc En Hin chunk. pose proof CHUNK_pos as Hcap.
  destruct (framed_total _ (Hreq (logs_request id service cursor))) as [framed Hfr].
  destruct (logs_page service bs id cursor (ln_agent s).1 (ln_agent s).2 Hs Hb He Hg ltac:(lia) Hlen ltac:(lia)) as (g' & Hg' & Hpage).
  exists g'. split; [done|]. cbv zeta. cbn [pull]. rewrite Hfr.
  change (ask_in framed id s) with (ask_in framed (req_id (logs_request id service cursor)) s).
  rewrite (ask_link_eq _ framed s Hfr), En. cbv zeta. rewrite Hin, Hpage.
  cbn [fst snd rep_ok rep_data rep_next_cursor rep_eof set_field]. rewrite bool_decide_eq_true_2 by done. cbn [negb default].
  fold chunk.
  assert (Hd : match match from_utf8_lossy chunk with [] => None | _ => Some (text (from_utf8_lossy chunk)) end with
               | Some d => lit d | None => [] end = from_utf8_lossy chunk).
  { pose proof (lit_text (from_utf8_lossy chunk) ltac:(by apply lossy_bytes_ok, Forall_take, Forall_drop)) as Hlt.
    by destruct (from_utf8_lossy chunk). }
  rewrite Hd. destruct (length chunk <? CHUNK)%nat eqn:El; [done|]. apply Nat.ltb_ge in El.
  assert (Hl : length chunk = CHUNK) by (subst chunk; rewrite length_take, length_drop in *; lia). rewrite Hl.
  change (Datatypes.id ?z) with z.
  assert (bool_decide (Some false = Some true) || (cursor + Z.of_nat CHUNK <=? cursor) = false) as ->
    by (rewrite bool_decide_eq_false_2 by done; cbn [orb]; lia).
  done.
Qed.

Lemma pages_step n cap rest : (0 < cap)%nat -> (length rest <= n)%nat ->
  pages n cap rest = if (length rest <? cap)%nat then [rest] else take cap rest :: pages (pred n) cap (drop cap rest).
Proof.
  intros Hc Hl. destruct n as [|n]; cbn [pages]; [|done]. by rewrite (proj2 (Nat.ltb_lt _ _)) by lia.
Qed.

(** Whether the next exchange is over in time. *)
Definition answered (s : Link G) : bool :=
  match ln_next s with
  | Takes dw dv :: _ => negb ((deadline <=? ln_wall s + dw) || (horizon <=? ln_vtsc s + dv))
  | _ => false
  end.

Lemma pull_agent service bs : serves service bs -> bytes_ok bs -> empty service = false -> Z.of_nat (length bs) < 2 ^ 63 ->
  forall n fuel id cursor raw (s : Link G), same_files (ln_agent s).2 -> 0 <= cursor <= Z.of_nat (length bs) ->
  (length bs - Z.to_nat cursor <= n)%nat -> (n < fuel)%nat ->
  (length (pages n CHUNK (drop (Z.to_nat cursor) bs)) <= length (ln_next s))%nat ->
  pulled_from (pages n CHUNK (drop (Z.to_nat cursor) bs)) raw s (pull ask_in fuel service id cursor raw s).
Proof.
  intros Hs Hb He Hlen. pose proof CHUNK_pos as Hcap.
  induction n as [n IH] using lt_wf_ind; intros fuel id cursor raw s Hg Hc Hn Hf Hx. destruct fuel as [|fuel]; [lia|].
  assert (Hne : ln_next s <> []).
  { intros E. rewrite E in Hx. eapply Nat.lt_irrefl, Nat.lt_le_trans; [apply pages_pos|exact Hx]. }
  rewrite pages_step in * by (try done; rewrite length_drop; lia).
  destruct (answered s) eqn:Eok; unfold answered in Eok.
  - destruct (ln_next s) as [|[dw dv|] xs] eqn:En; try done. apply negb_true_iff in Eok.
    destruct (pull_page fuel service bs id cursor raw s dw dv xs Hs Hb He Hlen Hg Hc En Eok) as (g' & Hg' & ->).
    rewrite length_take, length_drop in *. destruct (length bs - Z.to_nat cursor <? CHUNK)%nat eqn:El.
    + apply Nat.ltb_lt in El. rewrite (proj2 (Nat.ltb_lt _ _)) by lia. eexists 1%nat, _, _, _.
      split; [|split; [cbn [take fmap list_fmap concat]; rewrite app_nil_r, take_ge by (rewrite length_drop; lia); reflexivity|]]; [exact Hg'|].
      rewrite En. split; [cbn; lia|]. intros m (_ & _ & Ht). by split_and!.
    + apply Nat.ltb_ge in El. rewrite (proj2 (Nat.ltb_ge _ _)) by lia. cbn [length] in Hx.
      assert (Hcur : Z.to_nat (cursor + Z.of_nat CHUNK) = (Z.to_nat cursor + CHUNK)%nat) by lia.
      rewrite drop_drop, <- Hcur in *.
      destruct (IH (pred n) ltac:(lia) fuel (id + 1) (cursor + Z.of_nat CHUNK) (raw ++ from_utf8_lossy (take CHUNK (drop (Z.to_nat cursor) bs)))
        (Build_Link ((ln_agent s).1, g') (ln_wall s + dw) (ln_vtsc s + dv) xs))
        as (k & id' & ab & s' & Hg2 & -> & Hlx & Ht'); [exact Hg'|lia|lia|lia|cbn [ln_next]; lia|].
      exists (S k), id', ab, s'. split; [exact Hg2|]. split; [cbn [take fmap list_fmap concat]; by rewrite <- app_assoc|].
      cbn [ln_next] in Hlx. rewrite En. cbn [length]. split; [lia|].
      intros m (_ & _ & Ht). destruct (Ht' m Ht) as (-> & ? & ?). by split_and!.
  - destruct (framed_total _ (Hreq (logs_request id service cursor))) as [framed Hfr].
    destruct (logs_page service bs id cursor (ln_agent s).1 (ln_agent s).2 Hs Hb He Hg ltac:(lia) Hlen ltac:(lia)) as (g' & Hg' & Hpage).
    destruct (_ <? _)%nat; (apply (pull_cut fuel service id cursor raw _ _ s framed Hg Hfr Hne);
      [intros; by rewrite Hpage|intros dw dv xs E; rewrite E in Eok; by apply negb_false_iff]).
Qed.

(** The log file of a container with the entries [es]. *)
Definition log_of (es : list LogEntry) : list Z := concat ((fun e => entry_line e ++ [LF]) <$> es).

(** A service whose log can be captured: it is found, its entries are plain
    ASCII, its name makes a file name and the file can be written. *)
Record capturable (write_ok : list Z -> bool) (service : string) (es : list LogEntry) : Prop := {
  ca_serves : serves service (log_of es);
  ca_plain : Forall entry_plain es;
  ca_ascii : Forall (fun b => 0 <= b < 128) (log_of es);
  ca_length : Z.of_nat (length (log_of es)) < 2 ^ 63;
  ca_name : is_safe_path_component (lit service) = true;
  ca_write : write_ok (log_name (lit service)) = true;
}.

Definition with_log (dir : gmap (list Z) (list Z)) (se : string * list LogEntry) : gmap (list Z) (list Z) :=
  <[log_name (lit se.1) := concat (shown <$> se.2)]> dir.

(** The exchanges a log takes. *)
Definition log_pages (es : list LogEntry) : nat := length (pages_of (log_of es)).

(** The front [n] bytes of a log, as they are shown. *)
Definition with_part (dir : gmap (list Z) (list Z)) (sen : (string * list LogEntry) * nat) : gmap (list Z) (list Z) :=
  <[log_name (lit sen.1.1) := format_k8s_logs (take sen.2 (log_of sen.1.2))]> dir.

Lemma concat_take_prefix {T} (ls : list (list T)) k : concat (take k ls) = take (length (concat (take k ls))) (concat ls).
Proof. rewrite <- (take_drop k ls) at 3. by rewrite concat_app, take_app_length. Qed.

Lemma pull_captures write_ok service es fuel id (s : Link G) : capturable write_ok service es -> same_files (ln_agent s).2 ->
  (length (log_of es) < fuel)%nat -> (log_pages es <= length (ln_next s))%nat ->
  exists n id' ab s', same_files (ln_agent s').2
  /\ pull ask_in fuel service id 0 [] s = Got (Build_Pulled (take n (log_of es)) id' ab) s'
  /\ (length (ln_next s) <= log_pages es + length (ln_next s'))%nat
  /\ forall m, in_time s (log_pages es + m) (ln_next s) ->
       (length (log_of es) <= n)%nat /\ ab = false /\ in_time s' m (ln_next s').
Proof.
  intros [Hs _ Ha Hl Hn _] Hg Hf Hx.
  assert (He : empty service = false) by (unfold empty; apply bool_decide_eq_false_2; by intros ->).
  assert (Hb : bytes_ok (log_of es)) by (eapply Forall_impl; [exact Ha|]; intros b [? ?]; unfold fits; lia).
  destruct (pull_agent service (log_of es) Hs Hb He Hl (length (log_of es)) fuel id 0 [] s Hg ltac:(lia) ltac:(lia) Hf Hx)
    as (k & id' & ab & s' & Hg' & -> & Hlx & Ht). rewrite drop_0 in *. fold (pages_of (log_of es)) in *.
  assert (Hp : concat (from_utf8_lossy <$> take k (pages_of (log_of es))) = concat (take k (pages_of (log_of es)))).
  { f_equal. assert (Hps : Forall (Forall (fun b => b < 128)) (take k (pages_of (log_of es)))).
    { apply Forall_take, Forall_concat. unfold pages_of. rewrite concat_pages. eapply Forall_impl; [exact Ha|]. by intros b [? ?]. }
    induction Hps as [|p ps Hp _ IH]; [done|]. cbn. by rewrite IH, from_utf8_lossy_ascii. }
  assert (Hc : concat (pages_of (log_of es)) = log_of es) by apply concat_pages.
  exists (length (concat (take k (pages_of (log_of es))))), id', ab, s'. split; [done|]. split.
  { rewrite Hp, concat_take_prefix, Hc at 1. done. }
  split; [done|]. intros m Hm. destruct (Ht m Hm) as (-> & ? & ?). split_and!; try done. by rewrite firstn_all, Hc.
Qed.

(** The exchanges all the logs take. *)
Definition all_pages (services : list (string * list LogEntry)) : nat := sum_list ((fun se => log_pages se.2) <$> services).

Lemma all_pages_cons service es services : all_pages ((service, es) :: services) = (log_pages es + all_pages services)%nat.
Proof. done. Qed.

Lemma capture_services_agent write_ok fuel services : forall id dir (s : Link G), same_files (ln_agent s).2 ->
  Forall (fun se => capturable write_ok se.1 se.2 /\ (length (log_of se.2) < fuel)%nat) services ->
  (all_pages services <= length (ln_next s))%nat ->
  exists ns s', (length ns <= length services)%nat
  /\ capture_services ask_in write_ok fuel (fst <$> services) id dir s = Got (fold_left with_part (zip services ns) dir) s'
  /\ (in_time s (all_pages services) (ln_next s) -> fold_left with_part (zip services ns) dir = fold_left with_log services dir).
Proof.
  induction services as [|[service es] services IH]; intros id dir s Hg Hall Hx; cbn [capture_services fmap list_fmap fst]; [by exists [], s|].
  apply Forall_cons in Hall as [[Hc Hf] Hall]. cbn [fst snd] in Hc, Hf. unfold sanitize_service_filename. rewrite (ca_name _ _ _ Hc).
  rewrite all_pages_cons in *.
  destruct (pull_captures write_ok service es fuel id s Hc Hg Hf ltac:(lia)) as (n & id' & ab & s' & Hg' & -> & Hlx & Ht).
  cbn [p_raw p_aborted p_next_id]. unfold write_log. rewrite (ca_write _ _ _ Hc).
  assert (Hwhole : (length (log_of es) <= n)%nat -> with_part dir ((service, es), n) = with_log dir (service, es)).
  { intros Hn. unfold with_part, with_log. cbn [fst snd]. rewrite take_ge by done. unfold log_of. rewrite format_entries by apply Hc. done. }
  destruct ab.
  - exists [n], s'. split; [cbn; lia|]. split; [by destruct services|]. intros Hin. by destruct (Ht _ Hin) as (_ & ? & _).
  - destruct (IH id' (with_part dir ((service, es), n)) s' Hg' Hall ltac:(lia)) as (ns & s2 & Hl & He & Hw).
    exists (n :: ns), s2. split; [cbn; lia|]. split; [exact He|]. intros Hin. destruct (Ht _ Hin) as (Hn & _ & Hin2).
    cbn [zip zip_with fold_left]. rewrite (Hw Hin2), Hwhole by done. done.
Qed.

End honest.

(** ** The capture of an agent that answers in its own time *)

Section whole.
Context {G J : Type} `{GuestOs G, PsJson, Json Request, Json (Reply J), !RequestJson, !ReplyJson J, !LogLaws G}.
Context (to_lowercase : string -> string) (BUILD : string).
Context (Hreq : forall r : Request, is_Some (to_vec r)) (Hrep : forall r : Reply J, is_Some (to_vec r)).
Context (g0 : G).


End whole.

(** ** Properties of the machine under capture *)

Section claims.
Context {A C U V J : Type} `{EgressConnector A C, Epoll C, Uart U, KvmTsc V, Json Request, Json (Reply J)}.
Context (clock : VirtualClock) (fuel : nat) (above : Z -> Z -> bool) (ff : bool) (horizon : Z).

(** Capturing logs never changes the run it follows, whatever the guest
    does meanwhile.  The devices stay well formed, the clock stays the guest's
    own TSC and does not go back, and the driver, hence the verdict and the
    exit code, is untouched; only files named after a requested service with
    a safe name are written; and the number of pages pulled is bounded by the
    turns of the vCPU loop, so no limit on pages is missing. *)
Theorem capture_leaves_run_alone write_ok services dir (m : Machine U C V) es :
  sound clock m -> Forall exit_ok es ->
  let run n := capture_logs (ask_machine (J := J) clock fuel above ff horizon) write_ok n services dir (m, es) in
  (forall n1 n2, (length es < n1)%nat -> (length es < n2)%nat -> run n1 = run n2) /\
  forall n, match run n with
  | Got dir' (m', es') =>
      sound clock m' /\ forward clock ff m m' /\ mc_driver m' = mc_driver m /\ es' `suffix_of` es /\ others_kept services dir dir'
  | StillWaiting (m', es') => sound clock m' /\ forward clock ff m m' /\ mc_driver m' = mc_driver m /\ es' `suffix_of` es
  | Panicked => True
  end.
Proof.
  intros Hs Hok. cbv zeta.
  set (P := fun s : Machine U C V * list RunEnv => going_with clock ff (eq (mc_driver m)) m s.1 /\ s.2 `suffix_of` es).
  assert (HP : P (m, es)) by (split; [by apply drive_kept_refl|done]).
  assert (Hask : forall framed want s, P s -> match ask_machine (J := J) clock fuel above ff horizon framed want s with
    | Replied _ s2 => P s2 /\ (length s2.2 < length s.2)%nat
    | NoReply s2 | Unresponsive s2 | Waiting s2 => P s2 /\ (length s2.2 <= length s.2)%nat
    | Broken => True end).
  { intros framed want [m1 es1] [Hk Hsuf]. cbn [fst snd] in *. pose proof Hk as (Hs1 & _ & Hd).
    assert (Hok1 : Forall exit_ok es1) by (destruct Hsuf as [pre ->]; by apply Forall_app in Hok as [_ Hok]).
    pose proof (ask_machine_kept (J := J) clock fuel above ff horizon framed want m1 es1 Hs1 Hok1) as Ha.
    destruct (ask_machine _ _ _ _ _ framed want (m1, es1)) as [r [m2 es2]|[m2 es2]|[m2 es2]|[m2 es2]|]; [| | | |done];
      destruct Ha as [Hk2 Ha]; (split; [split; [by eapply drive_kept_trans|]|]); cbn [fst snd];
      try (etrans; [|exact Hsuf]); try apply Ha; by apply suffix_length. }
  split.
  - intros n1 n2 H1' H2'. by apply (capture_logs_fuel _ write_ok P (fun s => length s.2) Hask).
  - intros n. pose proof (capture_logs_keeps _ write_ok P (fun s => length s.2) Hask n services dir (m, es) HP) as Hc.
    destruct (capture_logs _ _ n services dir (m, es)) as [dir' [m' es']|[m' es']|]; [| |done].
    + destruct Hc as [[(? & ? & Hd) ?] ?]. by split_and!.
    + destruct Hc as [(? & ? & Hd) ?]. by split_and!.
Qed.

End claims.

(** ** What the capture gets wrong *)

(** A character cut by the end of a page is lost: each page is decoded on its
    own, so its two parts become two replacement characters. *)
Lemma page_cut_loses_character :
  let bs := replicate (CHUNK - 1) 97 ++ [195; 169] in
  from_utf8_lossy bs = bs /\ concat (from_utf8_lossy <$> pages_of bs) = replicate (CHUNK - 1) 97 ++ REPLACEMENT ++ REPLACEMENT.
Proof.
  pose proof CHUNK_pos as Hc. cbv zeta.
  assert (Ha : forall n t, from_utf8_lossy (replicate n 97 ++ t) = replicate n 97 ++ from_utf8_lossy t).
  { unfold from_utf8_lossy. induction n as [|n IH]; intros t; [done|]. cbn [replicate app length lossy_loop]. unfold utf8_step.
    change (97 <? 128) with true. cbv iota. cbn [drop app]. rewrite drop_0. by rewrite IH. }
  split; [by rewrite Ha|]. unfold pages_of.
  assert (Hl : length (replicate (CHUNK - 1) 97 ++ [195; 169]) = Datatypes.S CHUNK) by (rewrite length_app, length_replicate; simpl; lia).
  rewrite Hl. cbn [pages]. rewrite Hl. rewrite (proj2 (Nat.ltb_ge _ _)) by lia.
  assert (Htk : take CHUNK (replicate (CHUNK - 1) 97 ++ [195; 169]) = replicate (CHUNK - 1) 97 ++ [195]).
  { rewrite take_app, take_ge by (rewrite length_replicate; lia). rewrite length_replicate. by replace (CHUNK - (CHUNK - 1))%nat with 1%nat by lia. }
  assert (Hdr : drop CHUNK (replicate (CHUNK - 1) 97 ++ [195; 169]) = [169]).
  { rewrite drop_app, drop_ge by (rewrite length_replicate; lia). rewrite length_replicate. by replace (CHUNK - (CHUNK - 1))%nat with 1%nat by lia. }
  rewrite Htk, Hdr. cbn [fmap list_fmap concat]. rewrite Ha. assert (Hp : concat (from_utf8_lossy <$> pages CHUNK CHUNK [169]) = REPLACEMENT).
  { destruct CHUNK as [|n] eqn:E; [lia|]. cbn [pages length]. destruct (1 <? Datatypes.S n)%nat eqn:El; [done|].
    apply Nat.ltb_ge in El. assert (n = O) by lia. subst n. by vm_compute. }
  rewrite Hp, <- app_assoc. change (from_utf8_lossy [195]) with REPLACEMENT. exact eq_refl.
Qed.

(** A service that cannot be read has the file of its console lines emptied. *)
Lemma failed_pull_empties_log {J S} `{Json Request} (ask : list Z -> Z -> S -> asked (Reply J) S) fuel service framed id dir s rep s2 :
  is_safe_path_component (lit service) = true -> encode_line (logs_request id service 0) = Some framed ->
  ask framed id s = Replied rep s2 -> rep_ok rep = Some false ->
  capture_services ask (fun _ => true) (Datatypes.S fuel) [service] id dir s = Got (<[log_name (lit service) := []]> dir) s2.
Proof.
  intros Hn Hf Ha Hr. cbn [capture_services]. unfold sanitize_service_filename. rewrite Hn. cbn [pull]. rewrite Hf, Ha, Hr. done.
Qed.

(** ** A capture *)

(** A codec for any countable type: the number of a value, in bits. *)
Fixpoint pos_bits (p : positive) : list Z :=
  match p with xH => [] | xO p => 48 :: pos_bits p | xI p => 49 :: pos_bits p end.

Fixpoint bits_pos (l : list Z) : option positive :=
  match l with [] => Some xH | b :: l => (if b =? 48 then xO else xI) <$> bits_pos l end.

Lemma bits_pos_bits p : bits_pos (pos_bits p) = Some p.
Proof. induction p as [p IH|p IH|]; cbn [pos_bits bits_pos]; [by rewrite IH..|done]. Qed.

Section codec.
Context {T : Type} `{Countable T}.

Definition count_to_vec (v : T) : option (list Z) := Some (123 :: pos_bits (encode v) ++ [125]).

Definition count_from_slice (bs : list Z) : option T :=
  match bs with 123 :: bs => p ← bits_pos (removelast bs); decode p | _ => None end.

#[program] Definition count_json : Json T :=
  {| to_vec := count_to_vec; from_slice := count_from_slice; json_depth _ := 1%nat; json_norm v := v |}.
Next Obligation.
  intros v bs [= <-]. cbn [count_from_slice]. rewrite removelast_last, bits_pos_bits. cbn [mbind option_bind]. apply decode_encode.
Qed.
Next Obligation. intros. exact toy_depth_ok. Qed.
Next Obligation.
  intros v bs [= <-]. exists 123, 125. split; [done|]. split; [|done].
  change (123 :: pos_bits (encode v) ++ [125]) with ((123 :: pos_bits (encode v)) ++ [125]). by rewrite last_snoc.
Qed.

Lemma count_exact (v : T) : json_exact (H := count_json) v.
Proof. split; [exact toy_depth_ok|done]. Qed.

Lemma count_total (v : T) : is_Some (to_vec (Json := count_json) v).
Proof. by eexists. Qed.
End codec.

#[local] Instance request_eq_dec : EqDecision Request.
Proof. solve_decision. Defined.
#[local] Instance container_eq_dec : EqDecision ContainerInfo.
Proof. solve_decision. Defined.
#[local] Instance event_eq_dec : EqDecision (GuestEvent unit).
Proof. solve_decision. Defined.
#[local] Instance reply_eq_dec : EqDecision (Reply unit).
Proof. solve_decision. Defined.

#[local] Instance Request_count : Countable Request.
Proof.
  refine (inj_countable' (fun r => (req_id r, req_op r, req_container r, req_peer r, req_cmd r, req_timeout_s r, req_cursor r,
    req_max_bytes r, req_exit r, req_message r))
    (fun '(a, b, c, d, e, f, g, h, i, j) => Build_Request a b c d e f g h i j) _). by intros [].
Defined.

#[local] Instance ContainerInfo_count : Countable ContainerInfo.
Proof.
  refine (inj_countable' (fun c => (ci_name c, ci_service c, ci_state c, ci_exit_code c, ci_health c))
    (fun '(a, b, c, d, e) => Build_ContainerInfo a b c d e) _). by intros [].
Defined.

#[local] Instance GuestEvent_count : Countable (GuestEvent unit).
Proof.
  refine (inj_countable' (fun e => (ev_kind e, ev_name e, ev_ok e, ev_exit e, ev_details e))
    (fun '(a, b, c, d, e) => Build_GuestEvent a b c d e) _). by intros [].
Defined.

#[local] Instance Reply_count : Countable (Reply unit).
Proof.
  refine (inj_countable' (fun r => (rep_id r, rep_ok r, rep_op r, rep_exit r, rep_stdout r, rep_stderr r, rep_error r, rep_dur_ms r,
    rep_containers r, rep_agent r, rep_schema r, rep_build r, rep_data r, rep_next_cursor r, rep_eof r, rep_event r, rep_seq r))
    (fun '(a, b, c, d, e, f, g, h, i, j, k, l, m, n, o, p, q) => Build_Reply a b c d e f g h i j k l m n o p q) _). by intros [].
Defined.

#[local] Instance request_json : Json Request := count_json.
#[local] Instance reply_json : Json (Reply unit) := count_json.
#[local] Instance request_faithful : RequestJson := count_exact.
#[local] Instance reply_faithful : ReplyJson unit := fun r _ => count_exact r.

(** Two lines of a container, on either stream. *)
Definition web_entries : list LogEntry :=
  [{| le_ts := lit "t1"; le_err := false; le_full := true; le_msg := lit "up and running" |};
   {| le_ts := lit "t2"; le_err := true; le_full := false; le_msg := lit "oops" |}].

Definition web_guest : ToyOs := toy_guest <| t_file := log_of web_entries |>.

Lemma web_capturable : capturable (J := unit) web_guest (fun _ => true) "web" web_entries.
Proof.
  split; [| | | | |done].
  - exists "/log". split; [reflexivity|]. intros req g Hg _. exists "1.1", g, g. by split_and!.
  - assert (Hlf : forall s, bool_decide (Forall (fun b => b <> 32 /\ b <> LF) s) = true -> Forall (fun b => b <> 32 /\ b <> LF) s)
      by (intros s; apply bool_decide_eq_true_1).
    assert (Hm : forall s, bool_decide (Forall (fun b => b <> LF) s) = true -> no_lf s) by (intros s; apply bool_decide_eq_true_1).
    repeat constructor; first [by apply Hlf|by apply Hm|done].
  - apply (bool_decide_unpack _). by vm_compute.
  - by vm_compute.
  - by vm_compute.
Qed.

(** A ping and one page, a second of real and one of guest time each; and a
    page that takes longer than the capture may. *)
Definition quick : list Exchange := [Takes 1000000000 2000; Takes 1000000000 2000].
Definition slow : list Exchange := [Takes 1000000000 2000; Takes 1000000000 900000].

Definition web_capture (xs : list Exchange) :=
  capture_logs (ask_link (J := unit) id "dev" (wall_deadline 0) (capture_horizon 0 2000)) (fun _ => true) 100 ["web"] ∅
    (Build_Link (agent_new, web_guest) 0 0 xs).

Lemma web_ok : Forall (fun se => capturable (J := unit) web_guest (fun _ => true) se.1 se.2
  /\ (length (log_of se.2) < 100)%nat) [("web", web_entries)].
Proof. constructor; [|constructor]. split; [exact web_capturable|]. apply (bool_decide_unpack _). vm_compute. exact I. Qed.

Lemma web_pages : all_pages [("web", web_entries)] = 1%nat.
Proof.
  unfold all_pages, log_pages, pages_of. cbn [fmap list_fmap snd]. rewrite pages_step by (apply CHUNK_pos || done).
  rewrite (proj2 (Nat.ltb_lt _ _)); [done|]. eapply Nat.lt_trans; [|exact CHUNK_large].
  apply Nat.ltb_lt. by vm_compute.
Qed.


(** The guest answers nothing; it halts until the horizon is reached. *)
Lemma capture_leaves_run_alone_witness :
  match capture_logs (ask_machine (J := unit) Vtsc.toy_clock 10 (fun _ _ => false) true 5000) (fun _ => true) 10 ["web"] ∅
          (toy_machine, toy_story) with
  | Got dir (m, _) => sound Vtsc.toy_clock m /\ mc_driver m = mc_driver toy_machine /\ others_kept ["web"] ∅ dir
  | StillWaiting _ | Panicked => False
  end.
Proof.
  assert (Hok : Forall exit_ok toy_story).
  { apply Forall_forall. intros e He. apply list_elem_of_In in He. cbn in He.
    destruct He as [<-|[<-|[<-|[<-|[]]]]]; [|exact I..]. apply (bool_decide_unpack _). vm_compute. exact I. }
  destruct (capture_leaves_run_alone (J := unit) Vtsc.toy_clock 10 (fun _ _ => false) true 5000 (fun _ => true) ["web"] ∅
    toy_machine toy_story toy_machine_sound Hok) as [_ Hrun]. specialize (Hrun 10%nat).
  destruct (capture_logs _ _ 10 _ _ _) as [dir [m es]|[m es]|] eqn:E.
  - destruct Hrun as (Hs & _ & Hd & _ & Ho). by split_and!.
  - exfalso. revert E. vm_compute. discriminate.
  - exfalso. revert E. vm_compute. discriminate.
Defined.
