(* ===== verification/Yaml.v ===== *)
(** * The YAML emitter ([src/src/compose/yaml_emitter.rs])

    The document type of serde_yaml, the implicit resolver, the scalar
    analysis and the emitter, translated function by function.  A string is
    the list of its characters (Unicode scalar values); the bytes written are
    UTF-8.  An f64 is a [spec_float] of the Standard Library; how one prints
    ([Display]) is a parameter.  A panic (an index out of range, an empty
    stack) is [None].  [YamlSpec] has the reference reader and the proofs that
    it reads back what is written here. *)

From Stdlib Require Import ZArith Lia String Floats.SpecFloat.
From stdpp Require Import base numbers strings list.
From S2P Require Import Prelude.
From S2P Require Import Text.

Open Scope Z_scope.

Definition BEST_INDENT : Z := 2.
Definition BEST_WIDTH : Z := 80.

(** ** Strings *)

(** [char::encode_utf8]. *)
Definition utf8_char (c : Z) : list Z :=
  let cont k := 0x80 + Z.shiftr c k mod 64 in
  if c <? 0x80 then [c]
  else if c <? 0x800 then [0xc0 + Z.shiftr c 6; cont 0]
  else if c <? 0x10000 then [0xe0 + Z.shiftr c 12; cont 6; cont 0]
  else [0xf0 + Z.shiftr c 18; cont 12; cont 6; cont 0].

(** [str::as_bytes]. *)
Definition as_bytes (s : list Z) : list Z := s ≫= utf8_char.

Definition is_digit (b : Z) : bool := (48 <=? b) && (b <=? 57).
Definition is_hexdigit (b : Z) : bool := is_digit b || ((65 <=? b) && (b <=? 70)) || ((97 <=? b) && (b <=? 102)).
Definition chr (s : string) : Z := match lit s with [c] => c | _ => 0 end.
Definition one_of (s : string) (c : Z) : bool := existsb (Z.eqb c) (lit s).

(** [str::strip_prefix] of a literal, and of one of two characters. *)
Fixpoint strip_prefix (p s : list Z) : option (list Z) :=
  match p, s with
  | [], _ => Some s
  | c :: p, b :: s => if c =? b then strip_prefix p s else None
  | _ :: _, [] => None
  end.

Definition strip_one_of (cs : string) (s : list Z) : option (list Z) :=
  match s with b :: r => if one_of cs b then Some r else None | [] => None end.

Definition starts_with (p : string) (s : list Z) : bool := bool_decide (is_Some (strip_prefix (lit p) s)).

(** [str::split_once] at the first character that satisfies [p]. *)
Fixpoint split_once (p : Z -> bool) (s : list Z) : option (list Z * list Z) :=
  match s with
  | [] => None
  | b :: s => if p b then Some ([], s) else (fun '(l, r) => (b :: l, r)) <$> split_once p s
  end.

(** ** The document ([serde_yaml::Value]) *)

(** An integer is an i64 or a u64, anything else a float. *)
Inductive Num := NInt (z : Z) | NFloat (f : spec_float).

(** A mapping keeps the order of insertion and has no key twice. *)
Inductive Value :=
  | VNull
  | VBool (b : bool)
  | VNumber (n : Num)
  | VString (s : list Z)
  | VSequence (items : list Value)
  | VMapping (entries : list (Value * Value))
  | VTagged (tag : list Z) (v : Value).

(** ** The implicit resolver *)

Inductive Tag := TStr | TInt | TFloat | TBool | TNull | TOther.

#[export] Instance Tag_eq_dec : EqDecision Tag.
Proof. solve_decision. Defined.

(** [int_re]; [None] where the first sexagesimal part is empty and its first
    byte is indexed. *)
Definition int_re (s : list Z) : option bool :=
  let t := default s (strip_one_of "-+" s) in
  match t with
  | [] => Some false
  | t0 :: trest =>
      match strip_prefix (lit "0b") t with
      | Some r => Some (negb (bool_decide (r = [])) && forallb (one_of "01_") r)
      | None =>
      match strip_prefix (lit "0x") t with
      | Some r => Some (negb (bool_decide (r = [])) && forallb (fun c => is_hexdigit c || (c =? 95)) r)
      | None =>
      if existsb (Z.eqb 58) t then
        let '(first, parts) := split_char 58 t in
        match first with
        | [] => None
        | b :: _ =>
            if is_digit b && negb (b =? 48) && forallb (fun c => is_digit c || (c =? 95)) first then
              Some (negb (bool_decide (parts = [])) && forallb (fun p =>
                match p with
                | [a] => is_digit a
                | [a; b] => is_digit a && is_digit b && ((48 <=? a) && (a <=? 53))
                | _ => false
                end) parts)
            else Some false
        end
      else if (t0 =? 48) && negb (bool_decide (trest = [])) then
        Some (forallb (fun c => ((48 <=? c) && (c <=? 55)) || (c =? 95)) trest)
      else if bool_decide (t = [48]) then Some true
      else Some (((49 <=? t0) && (t0 <=? 57)) && forallb (fun c => is_digit c || (c =? 95)) t)
      end end
  end.

Definition float_re (s : list Z) : bool :=
  let t := default s (strip_one_of "-+" s) in
  if existsb (fun l => bool_decide (t = lit l)) [".inf"; ".Inf"; ".INF"]%string then true
  else if existsb (fun l => bool_decide (s = lit l)) [".nan"; ".NaN"; ".NAN"]%string then true
  else if negb (existsb (Z.eqb 46) t) then false
  else
    let '(mantissa, exp_ok) :=
      match split_once (one_of "eE") t with
      | Some (m, e) => let e := default [] (strip_one_of "-+" e) in (m, negb (bool_decide (e = [])) && forallb is_digit e)
      | None => (t, true)
      end in
    if negb exp_ok then false
    else
      match split_once (Z.eqb 46) mantissa with
      | None => false
      | Some (intp, frac) =>
          let under c := is_digit c || (c =? 95) in
          let int_ok := match intp with b :: _ => is_digit b | [] => false end && forallb under intp in
          let lead_dot_ok := bool_decide (intp = []) && match frac with b :: _ => is_digit b | [] => false end in
          (int_ok && forallb under frac) || lead_dot_ok
      end.

Definition timestamp_re (b : list Z) : bool :=
  (8 <=? length b)%nat && match b with
  | b0 :: b1 :: b2 :: b3 :: b4 :: _ => is_digit b0 && is_digit b1 && is_digit b2 && is_digit b3 && (b4 =? 45)
  | _ => false
  end.

Definition NULL_WORDS : list string := ["~"; "null"; "Null"; "NULL"]%string.
Definition BOOL_WORDS : list string :=
  ["yes"; "Yes"; "YES"; "no"; "No"; "NO"; "true"; "True"; "TRUE"; "false"; "False"; "FALSE";
   "on"; "On"; "ON"; "off"; "Off"; "OFF"]%string.

Definition resolve_plain (value : list Z) : option Tag :=
  match value with
  | [] => Some TNull
  | b0 :: _ =>
      if existsb (fun w => bool_decide (value = lit w)) NULL_WORDS then Some TNull
      else if existsb (fun w => bool_decide (value = lit w)) BOOL_WORDS then Some TBool
      else if is_digit b0 || one_of "-+." b0 then
        int ← int_re value;
        Some (if int : bool then TInt else if float_re value then TFloat else if timestamp_re value then TOther else TStr)
      else Some TStr
  end.

(** ** Which styles a string may take ([analyze_scalar]) *)

Record Analysis := {
  empty : bool; multiline : bool; allow_flow_plain : bool; allow_block_plain : bool;
  allow_single_quoted : bool; allow_double_quoted : bool; allow_block : bool;
}.

Definition is_break (c : Z) : bool := (c =? 10) || (c =? 0x85) || (c =? 0x2028) || (c =? 0x2029).
Definition is_ws (c : Z) : bool := (c =? 0) || (c =? 32) || (c =? 9) || (c =? 13) || is_break c.
Definition printable (c : Z) : bool := (0x20 <=? c) && (c <=? 0x7e).

(** The local variables of the loop. *)
Record Scan := {
  block_indicators : bool; flow_indicators : bool; line_breaks : bool; special_characters : bool;
  leading_space : bool; leading_break : bool; trailing_space : bool; trailing_break : bool;
  break_space : bool; space_break : bool;
  preceded_by_whitespace : bool; previous_space : bool; previous_break : bool;
}.

#[export] Instance eta_Scan : Settable Scan := fun s => Build_Scan
  (block_indicators s) (flow_indicators s) (line_breaks s) (special_characters s) (leading_space s)
  (leading_break s) (trailing_space s) (trailing_break s) (break_space s) (space_break s)
  (preceded_by_whitespace s) (previous_space s) (previous_break s).

(** What a character means as an indicator: (flow, block). *)
Definition indicators (first preceded followed : bool) (c : Z) : bool * bool :=
  if first then
    let any := one_of "#,[]{}&*!|>'%@`" c || (c =? 34) in
    let ask := one_of "?:" c in
    let dash := (c =? 45) && followed in
    (any || ask || dash, any || (ask && followed) || dash)
  else
    let colon := c =? 58 in
    let hash := (c =? 35) && preceded in
    (one_of ",?[]{}" c || colon || hash, (colon && followed) || hash).

Definition scan_char (first last followed : bool) (c : Z) (s : Scan) : Scan :=
  let '(flow, block) := indicators first (preceded_by_whitespace s) followed c in
  let space := c =? 32 in
  let break := negb space && is_break c in
  {| block_indicators := block_indicators s || block;
     flow_indicators := flow_indicators s || flow;
     line_breaks := line_breaks s || is_break c;
     special_characters := special_characters s || negb ((c =? 10) || printable c);
     leading_space := leading_space s || (space && first);
     leading_break := leading_break s || (break && first);
     trailing_space := trailing_space s || (space && last);
     trailing_break := trailing_break s || (break && last);
     break_space := break_space s || (space && previous_break s);
     space_break := space_break s || (break && previous_space s);
     preceded_by_whitespace := is_ws c;
     previous_space := space;
     previous_break := break |}.

(** The loop from [index] on; [first] says that the index is 0. *)
Fixpoint scan_chars (first : bool) (chars : list Z) (s : Scan) : Scan :=
  match chars with
  | [] => s
  | c :: rest =>
      let followed := match rest with [] => true | d :: _ => is_ws d end in
      scan_chars false rest (scan_char first (bool_decide (rest = [])) followed c s)
  end.

Definition scan_start (scalar : list Z) : Scan :=
  let marker := starts_with "---" scalar || starts_with "..." scalar in
  {| block_indicators := marker; flow_indicators := marker; line_breaks := false; special_characters := false;
     leading_space := false; leading_break := false; trailing_space := false; trailing_break := false;
     break_space := false; space_break := false;
     preceded_by_whitespace := true; previous_space := false; previous_break := false |}.

Definition analyze_scalar (scalar : list Z) : Analysis :=
  if bool_decide (scalar = []) then
    {| empty := true; multiline := false; allow_flow_plain := false; allow_block_plain := true;
       allow_single_quoted := true; allow_double_quoted := true; allow_block := false |}
  else
    let s := scan_chars true scalar (scan_start scalar) in
    let ends := leading_space s || leading_break s || trailing_space s || trailing_break s in
    let odd := space_break s || special_characters s in
    {| empty := false;
       multiline := line_breaks s;
       allow_flow_plain := negb (ends || break_space s || odd || line_breaks s || flow_indicators s);
       allow_block_plain := negb (ends || break_space s || odd || line_breaks s || block_indicators s);
       allow_single_quoted := negb (break_space s || odd);
       allow_double_quoted := true;
       allow_block := negb (trailing_space s || odd) |}.

(** ** The emitter *)

Definition ESCAPE_REPLACEMENTS : list (Z * Z) :=
  [(0, chr "0"); (0x07, chr "a"); (0x08, chr "b"); (9, chr "t"); (10, chr "n"); (0x0b, chr "v"); (0x0c, chr "f");
   (13, chr "r"); (0x1b, chr "e"); (34, 34); (92, 92); (0x85, chr "N"); (0xa0, chr "_"); (0x2028, chr "L");
   (0x2029, chr "P")].

Record Emitter := {
  out : list Z; column : Z; indent : option Z; indents : list (option Z); whitespace : bool; indention : bool }.

#[export] Instance eta_Emitter : Settable Emitter := fun e =>
  Build_Emitter (out e) (column e) (indent e) (indents e) (whitespace e) (indention e).

Definition emitter_new : Emitter :=
  {| out := []; column := 0; indent := None; indents := []; whitespace := true; indention := true |}.

Definition write (e : Emitter) (s : list Z) : Emitter := e <| out := out e ++ as_bytes s |>.

Definition write_line_break (e : Emitter) : Emitter :=
  e <| whitespace := true |> <| indention := true |> <| column := 0 |> <| out := out e ++ [10] |>.

Definition write_indent (e : Emitter) : Emitter :=
  let ind := default 0 (indent e) in
  let e := if negb (indention e) || (ind <? column e) || ((column e =? ind) && negb (whitespace e))
           then write_line_break e else e in
  if column e <? ind then
    e <| whitespace := true |> <| out := out e ++ replicate (Z.to_nat (ind - column e)) 32 |> <| column := ind |>
  else e.

Definition write_indicator (e : Emitter) (indicator : list Z) (need_whitespace ws ind : bool) : Emitter :=
  let data := if whitespace e || negb need_whitespace then indicator else 32 :: indicator in
  write (e <| whitespace := ws |> <| indention := indention e && ind |>
           <| column := column e + Z.of_nat (length data) |>) data.

Definition increase_indent (e : Emitter) (flow indentless : bool) : Emitter :=
  e <| indents := indent e :: indents e |>
    <| indent := match indent e with
                 | None => Some (if flow then BEST_INDENT else 0)
                 | Some i => Some (if negb indentless then i + BEST_INDENT else i)
                 end |>.

(** [self.indent = self.indents.pop().unwrap()] *)
Definition pop_indent (e : Emitter) : option Emitter :=
  match indents e with
  | i :: rest => Some (e <| indent := i |> <| indents := rest |>)
  | [] => None
  end.

Definition not_started (e : Emitter) : Emitter := e <| whitespace := false |> <| indention := false |>.

(** The locals of the three writers: [start] and [end] index the characters. *)
Record Cursor := { start : nat; end_ : nat; spaces : bool; breaks : bool }.

Definition cursor_new : Cursor := {| start := 0; end_ := 0; spaces := false; breaks := false |}.

(** The end of a turn: [spaces] and [breaks] from the character, [end += 1]. *)
Definition advance (k : Cursor) (start' : nat) (ch : option Z) : Cursor :=
  {| start := start'; end_ := S (end_ k);
     spaces := match ch with Some c => c =? 32 | None => spaces k end;
     breaks := match ch with Some c => is_break c | None => breaks k end |}.

(** Write [chars[start..end]] and count its columns. *)
Definition write_span (e : Emitter) (chars : list Z) (k : Cursor) : Emitter :=
  write (e <| column := column e + Z.of_nat (end_ k - start k) |>) (slice (start k) (end_ k) chars).

(** The line breaks of a span of breaks: one more when it starts with LF. *)
Definition write_breaks (e : Emitter) (chars : list Z) (k : Cursor) : Emitter :=
  let e := if bool_decide (chars !! start k = Some 10) then write_line_break e else e in
  write_indent (Nat.iter (end_ k - start k) write_line_break e).

(** A turn of the loop of [write_plain]. *)
Definition plain_turn (chars : list Z) (split : bool) (st : Emitter * Cursor) (ch : option Z) : Emitter * Cursor :=
  let '(e, k) := st in
  if spaces k then
    if bool_decide (ch <> Some 32) then
      let e := if bool_decide (start k + 1 = end_ k)%nat && (BEST_WIDTH <? column e) && split
               then not_started (write_indent e) else write_span e chars k in
      (e, advance k (end_ k) ch)
    else (e, advance k (start k) ch)
  else if breaks k then
    if match ch with Some c => negb (is_break c) | None => true end then
      (not_started (write_breaks e chars k), advance k (end_ k) ch)
    else (e, advance k (start k) ch)
  else if match ch with Some c => (c =? 32) || is_break c | None => true end then
    (write_span e chars k, advance k (end_ k) ch)
  else (e, advance k (start k) ch).

(** [end] runs to the length of the text, where there is no character. *)
Definition with_end (chars : list Z) : list (option Z) := (Some <$> chars) ++ [None].

Definition write_plain (e : Emitter) (text : list Z) (split : bool) : Emitter :=
  if bool_decide (text = []) then e
  else
    let e := if negb (whitespace e) then e <| column := column e + 1 |> <| out := out e ++ [32] |> else e in
    (fold_left (plain_turn text split) (with_end text) (not_started e, cursor_new)).1.

(** A turn of the loop of [write_single_quoted]. *)
Definition single_turn (chars : list Z) (split : bool) (st : Emitter * Cursor) (ch : option Z) : Emitter * Cursor :=
  let '(e, k) := st in
  let '(e, start') :=
    if spaces k then
      if bool_decide (ch <> Some 32) then
        (if bool_decide (start k + 1 = end_ k)%nat && (BEST_WIDTH <? column e) && split
             && negb (bool_decide (start k = 0%nat)) && negb (bool_decide (end_ k = length chars))
         then write_indent e else write_span e chars k, end_ k)
      else (e, start k)
    else if breaks k then
      if match ch with Some c => negb (is_break c) | None => true end then (write_breaks e chars k, end_ k)
      else (e, start k)
    else if match ch with Some c => (c =? 32) || is_break c || (c =? 39) | None => true end
            && bool_decide (start k < end_ k)%nat then (write_span e chars k, end_ k)
    else (e, start k) in
  let '(e, start') :=
    if bool_decide (ch = Some 39) then (write (e <| column := column e + 2 |>) [39; 39], S (end_ k)) else (e, start') in
  (e, advance k start' ch).

Definition write_single_quoted (e : Emitter) (text : list Z) (split : bool) : Emitter :=
  let e := write_indicator e [39] true false false in
  let e := (fold_left (single_turn text split) (with_end text) (e, cursor_new)).1 in
  write_indicator e [39] false false false.

Definition needs_escape (c : Z) : bool :=
  (c =? 34) || (c =? 92) || (c =? 0x85) || (c =? 0x2028) || (c =? 0x2029) || (c =? 0xfeff) || negb (printable c).

(** The escape sequence of a character. *)
Definition escape (c : Z) : list Z :=
  match find (fun kv => kv.1 =? c) ESCAPE_REPLACEMENTS with
  | Some (_, r) => [92; r]
  | None =>
      if c <=? 0xff then 92 :: chr "x" :: zero_pad 2 (hex_upper c)
      else if c <=? 0xffff then 92 :: chr "u" :: zero_pad 4 (hex_upper c)
      else 92 :: chr "U" :: zero_pad 8 (hex_upper c)
  end.

(** A turn of the loop of [write_double_quoted]. *)
Definition double_turn (chars : list Z) (split : bool) (st : Emitter * Cursor) (ch : option Z) : Emitter * Cursor :=
  let '(e, k) := st in
  let '(e, start') :=
    if match ch with Some c => needs_escape c | None => true end then
      let '(e, start') := if bool_decide (start k < end_ k)%nat then (write_span e chars k, end_ k) else (e, start k) in
      match ch with
      | Some c =>
          let data := escape c in
          (write (e <| column := column e + Z.of_nat (length data) |>) data, S (end_ k))
      | None => (e, start')
      end
    else (e, start k) in
  let k := {| start := start'; end_ := end_ k; spaces := spaces k; breaks := breaks k |} in
  if bool_decide (0 < end_ k)%nat && bool_decide (end_ k < length chars - 1)%nat
     && (bool_decide (ch = Some 32) || bool_decide (end_ k <= start k)%nat)
     && (BEST_WIDTH <? column e + (Z.of_nat (end_ k) - Z.of_nat (start k))) && split
  then
    let data := slice (start k) (end_ k) chars ++ [92] in
    let start' := if bool_decide (start k < end_ k)%nat then end_ k else start k in
    let e := not_started (write_indent (write (e <| column := column e + Z.of_nat (length data) |>) data)) in
    let e := if bool_decide (chars !! start' = Some 32) then write (e <| column := column e + 1 |>) [92] else e in
    (e, advance k start' ch)
  else (e, advance k (start k) ch).

Definition write_double_quoted (e : Emitter) (text : list Z) (split : bool) : Emitter :=
  let e := write_indicator e [34] true false false in
  let e := (fold_left (double_turn text split) (with_end text) (e, cursor_new)).1 in
  write_indicator e [34] false false false.

Inductive ScalarStyle := Plain | Single | Double.

Definition choose_style (a : Analysis) (implicit0 simple_key : bool) : ScalarStyle :=
  if implicit0 && negb (simple_key && (empty a || multiline a)) && allow_block_plain a then Plain
  else if allow_single_quoted a && negb (simple_key && multiline a) then Single
  else Double.

Definition emit_scalar (e : Emitter) (text : list Z) (tag : Tag) (simple_key : bool) : option Emitter :=
  resolved ← resolve_plain (as_bytes text);
  let style := choose_style (analyze_scalar text) (bool_decide (resolved = tag)) simple_key in
  let e := increase_indent e true false in
  let split := negb simple_key in
  pop_indent match style with
             | Plain => write_plain e text split
             | Single => write_single_quoted e text split
             | Double => write_double_quoted e text split
             end.

(** ** Rendering a document *)

(** [i64::to_string]. *)
Definition to_string (z : Z) : list Z := if z <? 0 then 45 :: dec (- z) else dec z.

(** 1e-4 and 1e16 as f64. *)
Definition F_1E_4 : spec_float := S754_finite false 7378697629483821 (-66).
Definition F_1E16 : spec_float := S754_finite false 5000000000000000 1.

Definition is_finite (f : spec_float) : bool :=
  match f with S754_zero _ | S754_finite _ _ _ => true | _ => false end.

Definition float_is_representable (f : spec_float) : bool :=
  if negb (is_finite f) then true
  else
    let a := SFabs f in
    SFeqb a (S754_zero false) || (SFleb F_1E_4 a && SFltb a F_1E16).

Fixpoint foldM {E A} (f : E -> A -> option E) (l : list A) (e : E) : option E :=
  match l with
  | [] => Some e
  | x :: l => e ← f e x; foldM f l e
  end.

(** A stable sort by key, in the order of the bytes. *)
Section sort_by.
Context {A : Type}.

Fixpoint insert_by (x : list Z * A) (l : list (list Z * A)) : list (list Z * A) :=
  match l with
  | [] => [x]
  | y :: l' => if bytes_leb (as_bytes x.1) (as_bytes y.1) then x :: l else y :: insert_by x l'
  end.

Definition sort_by_key (l : list (list Z * A)) : list (list Z * A) := foldr insert_by [] l.
End sort_by.

Section emitter.
Context (display : spec_float -> list Z).

(** [display] is [Display] of f64 on finite values. *)
Definition format_float (f : spec_float) : list Z :=
  match f with
  | S754_nan => lit ".nan"
  | S754_infinity neg => if neg then lit "-.inf" else lit ".inf"
  | _ =>
      let s := display f in
      if negb (existsb (one_of ".eE") s) then s ++ lit ".0" else s
  end.

Definition scalar_repr (v : Value) : option (list Z * Tag) :=
  match v with
  | VNull => Some (lit "null", TNull)
  | VBool b => Some (if b then lit "true" else lit "false", TBool)
  | VNumber (NInt z) => Some (to_string z, TInt)
  | VNumber (NFloat f) => Some (format_float f, TFloat)
  | VString s => Some (s, TStr)
  | _ => None
  end.

Definition sorted_keys {A} (m : list (Value * A)) : list (list Z * A) :=
  sort_by_key (map (fun '(k, v) =>
    (match k with VString s => s | other => default [] (fst <$> scalar_repr other) end, v)) m).

Definition emit_scalar_value (e : Emitter) (v : Value) : option Emitter :=
  match scalar_repr v with
  | Some (text, tag) => emit_scalar e text tag false
  | None => Some e
  end.

(** The values of a mapping and of a sequence come as the functions that emit
    them. *)
Definition emit_block_mapping (e : Emitter) (m : list (Value * (Emitter -> option Emitter))) : option Emitter :=
  e ← foldM (fun e '(k, emit_value) =>
               e ← emit_scalar (write_indent e) k TStr true;
               emit_value (write_indicator e [58] false false false))
            (sorted_keys m) (increase_indent e false false);
  pop_indent e.

Definition emit_block_sequence (e : Emitter) (s : list (Emitter -> option Emitter)) (mapping_context : bool) : option Emitter :=
  let indentless := mapping_context && negb (indention e) in
  e ← foldM (fun e emit_item => emit_item (write_indicator (write_indent e) [45] true false true))
            s (increase_indent e false indentless);
  pop_indent e.

Fixpoint emit_node (v : Value) (mapping : bool) (e : Emitter) {struct v} : option Emitter :=
  match v with
  | VMapping [] => Some (write_indicator (write_indicator e [123] true true false) [125] false false false)
  | VMapping m => emit_block_mapping e (map (fun '(k, v) => (k, emit_node v true)) m)
  | VSequence [] => Some (write_indicator (write_indicator e [91] true true false) [93] false false false)
  | VSequence s => emit_block_sequence e (map (fun v => emit_node v false) s) mapping
  | VTagged _ v => emit_node v mapping e
  | scalar => emit_scalar_value e scalar
  end.

Definition emit_yaml (v : Value) : option (list Z) :=
  e ← emit_node v false emitter_new;
  Some (out (write_indent e)).
End emitter.

(** A panic on input that passes validation: the sexagesimal test indexes the
    first byte of an empty part. *)
Lemma int_re_panics display : emit_yaml display (VMapping [(VString (lit "command"), VString (lit "-:x"))]) = None.
Proof. reflexivity. Qed.

(** A sexagesimal float stays plain, although the resolver reads it as a number. *)
Lemma sexagesimal_float_stays_plain display :
  emit_yaml display (VMapping [(VString (lit "t"), VString (lit "1:30.5"))]) = Some (lit "t: 1:30.5" ++ [10]).
Proof. reflexivity. Qed.
