(* ===== verification/YamlPlain.v ===== *)
(** * Plain scalars, as a reader of YAML sees them

    What may stand unquoted in a block (YAML 1.1, plain scalars of printable
    ASCII) and what it then resolves to (the implicit types of the YAML 1.1
    repository, by the regular expressions PyYAML uses), written without
    reference to the emitter: the regular expressions are data, matched by
    derivatives.  [Yaml]'s resolver and scalar analysis are compared with
    them: what [analyze_scalar] lets stand plain is a plain scalar, and what
    [resolve_plain] takes for a string resolves to a string unless it is one of
    the texts ([misread]) that the resolver does not look for. *)

From Stdlib Require Import ZArith Lia String.
From stdpp Require Import base numbers strings list.
From S2P Require Import Prelude.
From S2P Require Import Text.
From S2P Require Import Yaml.

Open Scope Z_scope.

(** ** Regular expressions *)

Inductive re :=
  | Void
  | Eps
  | Class (p : Z -> bool)
  | Cat (r1 r2 : re)
  | Alt (r1 r2 : re)
  | Star (r : re).

Inductive matches : re -> list Z -> Prop :=
  | m_eps : matches Eps []
  | m_class (p : Z -> bool) c : p c = true -> matches (Class p) [c]
  | m_cat r1 r2 s1 s2 : matches r1 s1 -> matches r2 s2 -> matches (Cat r1 r2) (s1 ++ s2)
  | m_left r1 r2 s : matches r1 s -> matches (Alt r1 r2) s
  | m_right r1 r2 s : matches r2 s -> matches (Alt r1 r2) s
  | m_stop r : matches (Star r) []
  | m_more r s1 s2 : matches r s1 -> matches (Star r) s2 -> matches (Star r) (s1 ++ s2).

Fixpoint nullable (r : re) : bool :=
  match r with
  | Void | Class _ => false
  | Eps | Star _ => true
  | Cat r1 r2 => nullable r1 && nullable r2
  | Alt r1 r2 => nullable r1 || nullable r2
  end.

Fixpoint deriv (c : Z) (r : re) : re :=
  match r with
  | Void | Eps => Void
  | Class p => if p c then Eps else Void
  | Cat r1 r2 => if nullable r1 then Alt (Cat (deriv c r1) r2) (deriv c r2) else Cat (deriv c r1) r2
  | Alt r1 r2 => Alt (deriv c r1) (deriv c r2)
  | Star r => Cat (deriv c r) (Star r)
  end.

Fixpoint is_match (r : re) (s : list Z) : bool :=
  match s with [] => nullable r | c :: s => is_match (deriv c r) s end.

(** A character of a set, an optional part, at least one, a choice of words. *)
Definition one (cs : string) : re := Class (fun c => existsb (Z.eqb c) (lit cs)).
Definition range (a b : Z) : re := Class (fun c => (a <=? c) && (c <=? b)).
Definition opt (r : re) : re := Alt Eps r.
Definition plus (r : re) : re := Cat r (Star r).
Definition word_of (w : string) : re := foldr (fun c => Cat (Class (Z.eqb c))) Eps (lit w).
Definition choice (l : list re) : re := foldr Alt Void l.
Definition seq (l : list re) : re := foldr Cat Eps l.

(** ** The implicit types *)

Definition d09 : re := range 48 57.
(** [[0-9_]] *)
Definition d09_ : re := Class (fun c => ((48 <=? c) && (c <=? 57)) || (c =? 95)).
(** [[0-9a-fA-F_]] *)
Definition hex_ : re := Class (fun c => ((48 <=? c) && (c <=? 57)) || ((97 <=? c) && (c <=? 102)) || ((65 <=? c) && (c <=? 70)) || (c =? 95)).
Definition sign : re := opt (one "-+").
(** Sixtieths: a colon and one or two digits, at least once. *)
Definition sixty : re := plus (seq [one ":"; opt (one "012345"); d09]).

(** An integer: binary, octal, decimal, hexadecimal or sexagesimal, signed. *)
Definition INT : re := Cat sign (choice
  [Cat (word_of "0b") (plus (one "01_"));
   Cat (one "0") (plus (one "01234567_"));
   one "0";
   Cat (range 49 57) (Star d09_);
   Cat (word_of "0x") (plus hex_);
   seq [range 49 57; Star d09_; sixty]]).

(** An exponent has a sign. *)
Definition exponent : re := opt (seq [one "eE"; one "-+"; plus d09]).

(** A float: with digits before the point, without, infinite, not a number. *)
Definition FLOAT : re := choice
  [seq [sign; d09; Star d09_; one "."; Star d09_; exponent];
   seq [one "."; d09; Star d09_; exponent];
   Cat sign (choice (word_of <$> [".inf"; ".Inf"; ".INF"]%string));
   choice (word_of <$> [".nan"; ".NaN"; ".NAN"]%string)].

(** A sexagesimal float: [1:30.5]. *)
Definition SEXAGESIMAL_FLOAT : re := seq [sign; d09; Star d09_; sixty; one "."; Star d09_].

(** [timestamp]: a date, or a date with a time. *)
Definition TIMESTAMP : re := Cat (seq [d09; d09; d09; d09; one "-"]) (choice
  [seq [d09; d09; one "-"; d09; d09];
   seq [d09; opt d09; one "-"; d09; opt d09; Alt (one "Tt") (plus (Class (fun c => (c =? 32) || (c =? 9))));
        d09; opt d09; one ":"; d09; d09; one ":"; d09; d09; opt (Cat (one ".") (Star d09));
        opt (Cat (Star (Class (fun c => (c =? 32) || (c =? 9))))
               (Alt (one "Z") (seq [one "-+"; d09; opt d09; opt (seq [one ":"; d09; d09])])))]]).

Definition NULL : list string := ["~"; "null"; "Null"; "NULL"]%string.
Definition BOOL : list string :=
  ["yes"; "Yes"; "YES"; "true"; "True"; "TRUE"; "on"; "On"; "ON";
   "no"; "No"; "NO"; "false"; "False"; "FALSE"; "off"; "Off"; "OFF"]%string.

Definition among (ws : list string) (t : list Z) : bool := existsb (fun w => bool_decide (t = lit w)) ws.

(** The type of a plain scalar; merge ([<<]) and value ([=]) are types too. *)
Definition resolve (t : list Z) : Tag :=
  if bool_decide (t = []) || among NULL t then TNull
  else if among BOOL t then TBool
  else if is_match INT t then TInt
  else if is_match FLOAT t || is_match SEXAGESIMAL_FLOAT t then TFloat
  else if is_match TIMESTAMP t || among ["<<"; "="]%string t then TOther
  else TStr.

(** The texts that are not strings when plain and that the emitter's resolver
    takes for strings: sexagesimal floats, merge and value. *)
Definition misread (t : list Z) : bool := is_match SEXAGESIMAL_FLOAT t || among ["<<"; "="]%string t.

(** ** What may stand plain *)

(** The indicators, and the three of them that may start a plain scalar when
    something other than a space follows. *)
Definition indicator (c : Z) : bool := existsb (Z.eqb c) (34 :: lit "-?:,[]{}#&*!|>'%@`").
Definition soft_indicator (c : Z) : bool := existsb (Z.eqb c) (lit "-?:").

(** A space or the end of the scalar comes next. *)
Definition gap (rest : list Z) : bool := match rest with [] => true | c :: _ => c =? 32 end.

(** No [: ], no [:] at the end, no [ #]; printable ASCII on one line, no space
    at the end. *)
Fixpoint plain_rest (prev : Z) (t : list Z) : bool :=
  match t with
  | [] => negb (prev =? 32)
  | c :: rest => (32 <=? c) && (c <=? 126) && negb ((c =? 58) && gap rest) && negb ((c =? 35) && (prev =? 32))
                 && plain_rest c rest
  end.

(** A document marker. *)
Definition marker (t : list Z) : bool :=
  (bool_decide (take 3 t = lit "---") || bool_decide (take 3 t = lit "...")) && gap (drop 3 t).

Definition plain_scalar (t : list Z) : bool :=
  match t with
  | [] => false
  | c :: rest => negb (c =? 32) && (negb (indicator c) || (soft_indicator c && negb (gap rest)))
                 && plain_rest 32 t && negb (marker t)
  end.

(** ** Lemmas: derivatives *)

Lemma nullable_spec r : nullable r = true <-> matches r [].
Proof.
  split.
  - induction r as [| |p|r1 IH1 r2 IH2|r1 IH1 r2 IH2|r IH]; cbn; intros H; bool_prop; try done; try (by constructor).
    + apply (m_cat r1 r2 [] []); auto.
    + destruct H; [apply m_left|apply m_right]; auto.
  - intros H. remember [] as s eqn:E. induction H as [|p c H|r1 r2 s1 s2 _ IH1 _ IH2|r1 r2 s _ IH|r1 r2 s _ IH| |]; cbn; try done.
    + apply app_eq_nil in E as [-> ->]. by rewrite IH1, IH2.
    + by rewrite IH.
    + by rewrite IH, orb_true_r.
Qed.

Lemma matches_cat r1 r2 s : matches (Cat r1 r2) s <-> exists s1 s2, s = s1 ++ s2 /\ matches r1 s1 /\ matches r2 s2.
Proof. split; [inversion 1; subst; eauto|]. intros (s1 & s2 & -> & H1 & H2). by constructor. Qed.

Lemma matches_alt r1 r2 s : matches (Alt r1 r2) s <-> matches r1 s \/ matches r2 s.
Proof. split; [inversion 1; subst; eauto|]. intros [H|H]; [by apply m_left|by apply m_right]. Qed.

Lemma matches_eps s : matches Eps s <-> s = [].
Proof. split; [by inversion 1|]. intros ->. constructor. Qed.

Lemma matches_class p s : matches (Class p) s <-> exists c, s = [c] /\ p c = true.
Proof. split; [inversion 1; subst; eauto|]. intros (c & -> & H). by constructor. Qed.

Lemma matches_void s : matches Void s <-> False.
Proof. split; [inversion 1|done]. Qed.

Lemma matches_star_cons r c s : matches (Star r) (c :: s) -> exists s1 s2, s = s1 ++ s2 /\ matches r (c :: s1) /\ matches (Star r) s2.
Proof.
  remember (Star r) as r' eqn:Er. remember (c :: s) as t eqn:Et. intros H. revert Er Et.
  induction H as [| | | | | |r0 s1 s2 H1 _ H2 IH]; intros [=]; subst; try discriminate. intros Et.
  destruct s1 as [|b s1]; [by apply IH|]. injection Et as -> <-. by exists s1, s2.
Qed.

Lemma deriv_spec c r : forall s, matches (deriv c r) s <-> matches r (c :: s).
Proof.
  induction r as [| |p|r1 IH1 r2 IH2|r1 IH1 r2 IH2|r IH]; intros s; cbn [deriv].
  - split; inversion 1.
  - split; inversion 1.
  - rewrite matches_class. destruct (p c) eqn:E.
    + rewrite matches_eps. split; [intros ->; by exists c|]. by intros (? & [= <- ->] & _).
    + rewrite matches_void. split; [done|]. intros (? & [= <- ->] & ?). congruence.
  - assert (Hl : matches (Cat (deriv c r1) r2) s <-> exists s1 s2, s = s1 ++ s2 /\ matches r1 (c :: s1) /\ matches r2 s2).
    { rewrite matches_cat. by setoid_rewrite IH1. }
    rewrite (matches_cat r1). split.
    + intros H. assert (Hc : matches (Cat (deriv c r1) r2) s \/ (nullable r1 = true /\ matches r2 (c :: s))).
      { destruct (nullable r1); [apply matches_alt in H as [H|H]; [by left|right; by rewrite <- IH2]|by left]. }
      destruct Hc as [(s1 & s2 & -> & ? & ?)%Hl|[?%nullable_spec ?]]; [by exists (c :: s1), s2|by exists [], (c :: s)].
    + intros (s1 & s2 & E & H1 & H2). destruct s1 as [|b s1].
      * cbn in E. subst s2. apply nullable_spec in H1 as ->. apply m_right. by apply IH2.
      * injection E as <- ->. assert (matches (Cat (deriv c r1) r2) (s1 ++ s2)) by (apply Hl; eauto).
        destruct (nullable r1); [by apply m_left|done].
  - by rewrite !matches_alt, IH1, IH2.
  - rewrite matches_cat. split.
    + intros (s1 & s2 & -> & H1 & H2). apply (m_more r (c :: s1) s2); [by apply IH|done].
    + intros (s1 & s2 & -> & H1 & H2)%matches_star_cons. exists s1, s2. by rewrite IH.
Qed.

Lemma is_match_matches r s : is_match r s = true <-> matches r s.
Proof.
  revert r. induction s as [|c s IH]; intros r; cbn [is_match]; [apply nullable_spec|]. by rewrite IH, deriv_spec.
Qed.

Lemma matches_star_class p s : matches (Star (Class p)) s <-> forallb p s = true.
Proof.
  split.
  - remember (Star (Class p)) as r eqn:Er. intros H. revert Er. induction H as [| | | | | |r s1 s2 H1 _ H2 IH]; intros [=]; [done|].
    subst. apply matches_class in H1 as (c & -> & Hc). cbn. by rewrite Hc, IH.
  - induction s as [|c s IH]; [constructor|]. cbn. intros [Hc Hs]%andb_true_iff. apply (m_more _ [c]); [by constructor|by apply IH].
Qed.

Lemma matches_star r s : matches (Star r) s -> exists ss, s = concat ss /\ Forall (matches r) ss.
Proof.
  remember (Star r) as r' eqn:Er. intros H. revert Er. induction H as [| | | | | |r0 s1 s2 H1 _ H2 IH]; intros [=]; subst.
  - by exists [].
  - destruct (IH eq_refl) as (ss & -> & Hss). exists (s1 :: ss). split; [done|by constructor].
Qed.

(** Membership of a character in a set, as equations and inequalities. *)
Ltac codes :=
  repeat match goal with
  | H : ?b = true |- _ =>
      lazymatch b with forallb _ _ => fail | _ => idtac end;
      progress (repeat match type of H with context [lit ?s] => let l := eval vm_compute in (lit s) in change (lit s) with l in H end;
                cbn [existsb] in H; rewrite ?orb_false_r, ?orb_true_iff, ?andb_true_iff, ?Z.eqb_eq, ?Z.leb_le in H)
  end.

(** Take a match apart: the concatenations, the choices, the classes. *)
Ltac re_inv :=
  repeat match goal with
  | H : matches (Cat _ _) _ |- _ => apply matches_cat in H as (? & ? & -> & ? & ?)
  | H : matches (Alt _ _) _ |- _ => apply matches_alt in H; destruct H as [H|H]
  | H : matches Eps _ |- _ => apply matches_eps in H; subst
  | H : matches (Class (Z.eqb _)) _ |- _ => apply matches_class in H as (? & -> & <-%Z.eqb_eq)
  | H : matches (Class _) _ |- _ => apply matches_class in H as (? & -> & ?); cbv beta in *
  | H : matches Void _ |- _ => by apply matches_void in H
  | H : matches (Star (Class _)) _ |- _ => apply matches_star_class in H
  end.

(** ** Lemmas: what the patterns match, the resolver finds *)

Lemma matches_sign s : matches sign s -> s = [] \/ s = [45] \/ s = [43].
Proof.
  unfold sign, opt, one. intros H. re_inv; [by left|right].
  codes. destruct H as [-> | ->]; [by left|by right].
Qed.

Lemma strip_signed sg c t : sg = [] \/ sg = [45] \/ sg = [43] -> 48 <= c <= 57 \/ c = 46 ->
  default (sg ++ c :: t) (strip_one_of "-+" (sg ++ c :: t)) = c :: t.
Proof.
  intros Hs Hc. destruct Hs as [-> |[-> | ->]]; [|done..]. cbn [app strip_one_of]. unfold one_of.
  change (lit "-+") with [45; 43]. cbn [existsb]. rewrite (proj2 (Z.eqb_neq c 45)), (proj2 (Z.eqb_neq c 43)) by lia. done.
Qed.

Lemma split_char_parts f ps : 58 ∉ f -> Forall (fun p => 58 ∉ p) ps ->
  split_char 58 (f ++ concat (map (cons 58) ps)) = (f, ps).
Proof.
  intros Hf Hps. revert f Hf. induction Hps as [|p ps Hp _ IH]; intros f Hf.
  - cbn. induction f as [|b f IHf]; [done|]. apply not_elem_of_cons in Hf as [Hb Hf]. cbn [app split_char].
    by rewrite (IHf Hf), (proj2 (Z.eqb_neq b 58)) by congruence.
  - induction f as [|b f IHf].
    + cbn [map concat app split_char]. by rewrite (IH p Hp).
    + apply not_elem_of_cons in Hf as [Hb Hf]. cbn [app split_char].
      by rewrite (IHf Hf), (proj2 (Z.eqb_neq b 58)) by congruence.
Qed.

(** The parts of [int_re] after a colon. *)
Definition sixtieth (p : list Z) : bool :=
  match p with
  | [a] => is_digit a
  | [a; b] => is_digit a && is_digit b && ((48 <=? a) && (a <=? 53))
  | _ => false
  end.

Lemma is_digit_range c : is_digit c = true <-> 48 <= c <= 57.
Proof. unfold is_digit. by rewrite andb_true_iff, !Z.leb_le. Qed.

Lemma matches_sixty s : matches sixty s ->
  exists ps, s = concat (map (cons 58) ps) /\ ps <> [] /\ Forall (fun p => 58 ∉ p) ps /\ forallb sixtieth ps = true.
Proof.
  unfold sixty, plus. set (piece := seq _). intros (s1 & s2 & -> & H1 & (ss & -> & Hss)%matches_star)%matches_cat.
  assert (Hp : forall x, matches piece x -> exists p, x = 58 :: p /\ (58 ∉ p) /\ sixtieth p = true).
  { unfold piece, seq, opt, one, d09, range. cbn [foldr]. intros x Hx. re_inv; cbn [app] in *;
      codes; subst; eexists;
      (split; [reflexivity|]); cbn [app sixtieth]; rewrite ?not_elem_of_cons; unfold is_digit.
    - split; [split; [lia|apply not_elem_of_nil]|lia].
    - split; [|lia]. split; [lia|]. split; [lia|apply not_elem_of_nil]. }
  apply (Forall_cons_2 _ s1) in Hss; [|exact H1]. change (s1 ++ concat ss) with (concat (s1 :: ss)).
  assert (Hne : s1 :: ss <> []) by done. generalize dependent (s1 :: ss). clear H1. intros l Hl Hne.
  assert (Hps : exists ps, l = map (cons 58) ps /\ Forall (fun p => 58 ∉ p) ps /\ forallb sixtieth ps = true).
  { clear Hne. induction Hl as [|x l Hx _ (ps & -> & Hps & Hok)]; [by exists []|].
    destruct (Hp x Hx) as (p & -> & ? & Hs). exists (p :: ps). cbn. rewrite Hs. split_and!; [done|by constructor|done]. }
  destruct Hps as (ps & -> & Hps & Hok). exists ps. split_and!; [done| |done..]. by intros ->.
Qed.


(** [int_re] after the sign, where it does not panic. *)
Lemma int_re_signed sg c t : sg = [] \/ sg = [45] \/ sg = [43] -> 48 <= c <= 57 ->
  int_re (sg ++ c :: t) = int_re (c :: t).
Proof.
  intros Hs Hc. unfold int_re. pose proof (strip_signed [] c t ltac:(by left) ltac:(by left)) as E. cbn [app] in E.
  by rewrite strip_signed, E by auto.
Qed.

Lemma int_re_digit c t : 48 <= c <= 57 -> default (c :: t) (strip_one_of "-+" (c :: t)) = c :: t.
Proof. intros Hc. apply (strip_signed [] c t); auto. Qed.

Lemma forallb_no_colon p s : forallb p s = true -> p 58 = false -> existsb (Z.eqb 58) s = false.
Proof.
  intros Hs Hp. apply not_true_iff_false. intros (c & Hin & Hc)%existsb_exists. bool_prop. subst c.
  rewrite forallb_forall in Hs. specialize (Hs _ Hin). congruence.
Qed.

Lemma int_re_octal w : w <> [] -> forallb (fun c => existsb (Z.eqb c) (lit "01234567_")) w = true -> int_re (48 :: w) = Some true.
Proof.
  intros Hne Hw. unfold int_re. rewrite int_re_digit by lia. change (lit "0b") with [48; 98]. change (lit "0x") with [48; 120].
  destruct w as [|b w]; [done|]. pose proof Hw as Hb. cbn [forallb] in Hb. apply andb_true_iff in Hb as [Hb _].
  assert (Hb' : 48 <= b <= 55 \/ b = 95) by (codes; lia). cbn [strip_prefix].
  change (48 =? 48) with true. cbv iota. rewrite (proj2 (Z.eqb_neq 98 b)), (proj2 (Z.eqb_neq 120 b)) by lia.
  change (existsb (Z.eqb 58) (48 :: b :: w)) with (existsb (Z.eqb 58) (b :: w)). rewrite (forallb_no_colon _ _ Hw) by done.
  rewrite bool_decide_eq_false_2 by done. cbn [negb andb]. f_equal.
  rewrite forallb_forall in *. intros c Hc. specialize (Hw c Hc). apply orb_true_iff.
  assert (48 <= c <= 55 \/ c = 95) as [?|?] by (clear Hb Hb'; codes; lia); [left|right]; [|by apply Z.eqb_eq].
  apply andb_true_iff. by rewrite !Z.leb_le.
Qed.

Lemma int_re_plain c t : 49 <= c <= 57 -> existsb (Z.eqb 58) (c :: t) = false ->
  forallb (fun c => ((48 <=? c) && (c <=? 57)) || (c =? 95)) t = true -> int_re (c :: t) = Some true.
Proof.
  intros Hc Hn Ht. unfold int_re. rewrite int_re_digit by lia. change (lit "0b") with [48; 98]. change (lit "0x") with [48; 120].
  cbn [strip_prefix]. rewrite (proj2 (Z.eqb_neq 48 c)) by lia. rewrite Hn, (proj2 (Z.eqb_neq c 48)) by lia. cbn [andb].
  rewrite bool_decide_eq_false_2 by (intros [=]; lia). f_equal. rewrite (proj2 (Z.leb_le 49 c)), (proj2 (Z.leb_le c 57)) by lia.
  cbn [andb forallb]. unfold is_digit at 1. rewrite (proj2 (Z.leb_le 48 c)), (proj2 (Z.leb_le c 57)) by lia. exact Ht.
Qed.

Lemma int_re_sexagesimal c t s : 49 <= c <= 57 -> forallb (fun c => ((48 <=? c) && (c <=? 57)) || (c =? 95)) t = true ->
  matches sixty s -> int_re (c :: t ++ s) = Some true.
Proof.
  intros Hc Ht (ps & -> & Hne & Hps & Hok)%matches_sixty. unfold int_re. rewrite int_re_digit by lia.
  change (lit "0b") with [48; 98]. change (lit "0x") with [48; 120].
  cbn [strip_prefix]. rewrite (proj2 (Z.eqb_neq 48 c)) by lia.
  assert (existsb (Z.eqb 58) (c :: t ++ concat (map (cons 58) ps)) = true) as ->.
  { apply existsb_exists. exists 58. split; [|done]. right. apply in_app_iff. right. destruct ps; [done|]. by left. }
  change (c :: t ++ ?x) with ((c :: t) ++ x). rewrite split_char_parts; [|..|done].
  - unfold is_digit at 1. rewrite (proj2 (Z.leb_le 48 c)), (proj2 (Z.leb_le c 57)), (proj2 (Z.eqb_neq c 48)) by lia.
    cbn [andb negb forallb]. unfold is_digit at 1. rewrite (proj2 (Z.leb_le 48 c)), (proj2 (Z.leb_le c 57)) by lia.
    cbn [andb orb]. replace (forallb _ t) with true by (symmetry; exact Ht). rewrite bool_decide_eq_false_2 by done. f_equal. exact Hok.
  - apply not_elem_of_cons. split; [lia|]. intros Hin%list_elem_of_In. rewrite forallb_forall in Ht. specialize (Ht _ Hin). done.
Qed.

Lemma int_re_binary b w : forallb (fun c => existsb (Z.eqb c) (lit "01_")) (b :: w) = true -> int_re (48 :: 98 :: b :: w) = Some true.
Proof. intros Hw. unfold int_re. rewrite int_re_digit by lia. change (Some (true && forallb (one_of "01_") (b :: w)) = Some true). by f_equal. Qed.

Lemma int_re_hex b w : forallb (fun c => ((48 <=? c) && (c <=? 57)) || ((97 <=? c) && (c <=? 102)) || ((65 <=? c) && (c <=? 70)) || (c =? 95)) (b :: w) = true ->
  int_re (48 :: 120 :: b :: w) = Some true.
Proof.
  intros Hw. unfold int_re. rewrite int_re_digit by lia.
  change (Some (true && forallb (fun c => is_hexdigit c || (c =? 95)) (b :: w)) = Some true). cbn [andb]. f_equal.
  rewrite forallb_forall in *. intros c Hc. specialize (Hw c Hc). unfold is_hexdigit, is_digit.
  destruct ((48 <=? c) && _), ((97 <=? c) && _), ((65 <=? c) && _); done.
Qed.

Lemma matches_INT s : matches INT s -> int_re s = Some true.
Proof.
  unfold INT. intros (sg & t & -> & Hs%matches_sign & Ht)%matches_cat.
  assert (Hgo : (exists c t', t = c :: t' /\ 48 <= c <= 57) /\ int_re t = Some true);
    [|destruct Hgo as [(c & t' & -> & Hc) Hr]; by rewrite int_re_signed].
  unfold choice, plus, seq, word_of, one, d09_, hex_, range in Ht. cbn [foldr] in Ht.
  change (lit "0b") with [48; 98] in Ht. change (lit "0x") with [48; 120] in Ht. cbn [foldr] in Ht.
  assert (H0 : forall c, existsb (Z.eqb c) (lit "0") = true -> c = 48) by (intros; codes; lia).
  repeat (apply matches_alt in Ht as [Ht|Ht]).
  - re_inv. split; [eexists _, _; split; [done|lia]|]. apply int_re_binary.
    cbn [app forallb]. apply andb_true_iff. by split.
  - re_inv. apply H0 in H as ->. split; [eexists _, _; split; [done|lia]|].
    apply int_re_octal; [done|]. cbn [app forallb]. apply andb_true_iff. by split.
  - re_inv. codes. subst. split; [eexists _, _; split; [done|lia]|]. done.
  - re_inv. codes. split; [eexists _, _; split; [done|lia]|].
    apply int_re_plain; [lia| |done]. cbn [app existsb]. rewrite (proj2 (Z.eqb_neq 58 _)) by lia.
    by eapply forallb_no_colon.
  - re_inv. split; [eexists _, _; split; [done|lia]|]. cbn [app]. apply int_re_hex.
    cbn [app forallb]. apply andb_true_iff. by split.
  - apply matches_cat in Ht as (s1 & s2 & -> & H1 & Ht). apply matches_cat in Ht as (s3 & s4 & -> & H3 & Ht).
    apply matches_cat in Ht as (s5 & s6 & -> & H5 & ->%matches_eps). rewrite app_nil_r. re_inv. codes.
    split; [eexists _, _; split; [done|lia]|]. cbn [app]. apply int_re_sexagesimal; [lia|done..].
  - by apply matches_void in Ht.
Qed.

Lemma split_once_none p ds : Forall (fun c => p c = false) ds -> split_once p ds = None.
Proof. induction 1 as [|c ds Hc _ IH]; [done|]. cbn. by rewrite Hc, IH. Qed.

Lemma split_once_at p ds c rest : Forall (fun c => p c = false) ds -> p c = true -> split_once p (ds ++ c :: rest) = Some (ds, rest).
Proof. intros Hds Hc. induction Hds as [|b ds Hb _ IH]; cbn; [by rewrite Hc|]. by rewrite Hb, IH. Qed.

(** A character of a number is no exponent mark and no point. *)
Lemma under_plain c : ((48 <=? c) && (c <=? 57)) || (c =? 95) = true -> one_of "eE" c = false /\ (46 =? c) = false.
Proof.
  intros Hc. codes. unfold one_of. change (lit "eE") with [101; 69]. cbn [existsb].
  rewrite orb_false_r, orb_false_iff, !Z.eqb_neq. lia.
Qed.

Definition unders (s : list Z) : Prop := forallb (fun c => ((48 <=? c) && (c <=? 57)) || (c =? 95)) s = true.

Lemma unders_Forall s (P : Z -> Prop) : unders s -> (forall c, ((48 <=? c) && (c <=? 57)) || (c =? 95) = true -> P c) -> Forall P s.
Proof. unfold unders. rewrite forallb_forall. intros Hs Hp. apply List.Forall_forall. auto. Qed.

Lemma matches_exponent e : matches exponent e -> e = [] \/ exists m g ds, e = m :: g :: ds
  /\ one_of "eE" m = true /\ one_of "-+" g = true /\ ds <> [] /\ forallb is_digit ds = true.
Proof.
  unfold exponent, opt, seq, plus, one, d09, range. cbn [foldr]. intros H. re_inv; [by left|right].
  eexists _, _, _. split; [reflexivity|]. do 2 (split; [done|]). split; [done|]. cbn. apply andb_true_iff. split; [done|].
  rewrite app_nil_r. done.
Qed.

(** [float_re] on digits, a point, digits and an exponent. *)
Lemma float_re_decimal sg i f e : sg = [] \/ sg = [45] \/ sg = [43] -> unders i -> unders f -> matches exponent e ->
  match i with c :: _ => is_digit c = true | [] => match f with c :: _ => is_digit c = true | [] => False end end ->
  float_re (sg ++ i ++ 46 :: f ++ e) = true.
Proof.
  intros Hs Hi Hf He Hh. unfold float_re.
  assert (default (sg ++ i ++ 46 :: f ++ e) (strip_one_of "-+" (sg ++ i ++ 46 :: f ++ e)) = i ++ 46 :: f ++ e) as ->.
  { destruct i as [|c i]; [by apply strip_signed; [|right]|]. apply strip_signed; [done|]. left. by apply is_digit_range. }
  destruct (existsb _ _); [done|]. destruct (existsb _ _); [done|].
  assert (existsb (Z.eqb 46) (i ++ 46 :: f ++ e) = true) as ->.
  { apply existsb_exists. exists 46. split; [|done]. apply in_app_iff. right. by left. }
  cbn [negb]. assert (Hm : Forall (fun c => one_of "eE" c = false) (i ++ 46 :: f)).
  { apply Forall_app. split; [by apply (unders_Forall i); [|apply under_plain]|].
    constructor; [done|]. by apply (unders_Forall f); [|apply under_plain]. }
  assert (Hsp : split_once (Z.eqb 46) (i ++ 46 :: f) = Some (i, f)).
  { apply split_once_at; [|done]. apply (unders_Forall i); [done|]. apply under_plain. }
  assert (Hlast : match i with b :: _ => is_digit b | [] => false end && forallb (fun c => is_digit c || (c =? 95)) i
     && forallb (fun c => is_digit c || (c =? 95)) f
     || bool_decide (i = []) && match f with b :: _ => is_digit b | [] => false end = true).
  { unfold unders in Hi, Hf. unfold is_digit at 2 3. rewrite Hi, Hf. destruct i as [|c i]; [|by rewrite Hh].
    destruct f as [|c f]; [done|]. by rewrite Hh. }
  destruct (matches_exponent e He) as [->|(m & g & ds & -> & Em & Eg & Hds & Hd)].
  - rewrite app_nil_r, split_once_none by done. cbn [negb]. by rewrite Hsp.
  - replace (i ++ 46 :: f ++ m :: g :: ds) with ((i ++ 46 :: f) ++ m :: g :: ds) by (by rewrite <- app_assoc).
    rewrite split_once_at by done. cbn [strip_one_of]. rewrite Eg. cbn [from_option]. unfold id.
    rewrite bool_decide_eq_false_2, Hd by done. cbn [negb andb]. by rewrite Hsp.
Qed.

Lemma matches_word w s : matches (word_of w) s -> s = lit w.
Proof.
  unfold word_of. generalize (lit w). intros l. revert s. induction l as [|c l IH]; intros s; cbn [foldr]; intros H; [by apply matches_eps|].
  apply matches_cat in H as (s1 & s2 & -> & (? & -> & <-%Z.eqb_eq)%matches_class & H2). by rewrite (IH _ H2).
Qed.

(** The parts of a number: digits, runs of digits, marks, an exponent. *)
Ltac parts_inv H :=
  unfold d09, d09_, range, one in H;
  repeat match goal with
  | H : matches (Cat (Class _) _) _ |- _ => apply matches_cat in H as (? & ? & -> & (? & -> & ?)%matches_class & ?)
  | H : matches (Cat (Star _) _) _ |- _ => apply matches_cat in H as (? & ? & -> & ?%matches_star_class & ?)
  | H : matches (Cat exponent _) _ |- _ => apply matches_cat in H as (? & ? & -> & ? & ->%matches_eps)
  end; rewrite ?app_nil_r; cbv beta in *; codes; subst.

Lemma matches_FLOAT s : matches FLOAT s -> float_re s = true.
Proof.
  assert (Hu : forall c w, 48 <= c <= 57 -> unders w -> unders (c :: w)).
  { intros c w Hc Hw. unfold unders. cbn [forallb]. apply andb_true_iff. split; [|exact Hw].
    by rewrite (proj2 (Z.leb_le 48 c)), (proj2 (Z.leb_le c 57)) by lia. }
  unfold FLOAT. cbn [choice foldr seq fmap list_fmap]. intros H. repeat (apply matches_alt in H as [H|H]).
  - apply matches_cat in H as (sg & t & -> & Hs%matches_sign & H). parts_inv H.
    match goal with _ : forallb _ ?f = true, _ : matches exponent ?e |- _ => apply (float_re_decimal sg (_ :: _) f e) end;
    [done|by apply Hu|assumption..|by apply is_digit_range].
  - parts_inv H.
    match goal with _ : forallb _ ?f = true, _ : matches exponent ?e |- _ => apply (float_re_decimal [] [] (_ :: f) e) end;
    [by left|done|by apply Hu|assumption|by apply is_digit_range].
  - apply matches_cat in H as (sg & t & -> & Hs%matches_sign & H).
    repeat (apply matches_alt in H as [H|H]); [apply matches_word in H as ->..|by apply matches_void in H];
      destruct Hs as [-> |[-> | ->]]; reflexivity.
  - apply matches_word in H as ->. reflexivity.
  - apply matches_word in H as ->. reflexivity.
  - apply matches_word in H as ->. reflexivity.
  - by apply matches_void in H.
  - by apply matches_void in H.
Qed.

(** The length of what is matched. *)
Fixpoint min_length (r : re) : nat :=
  match r with
  | Class _ => 1
  | Cat r1 r2 => min_length r1 + min_length r2
  | Alt r1 r2 => min (min_length r1) (min_length r2)
  | _ => 0
  end.

Lemma matches_length r s : matches r s -> (min_length r <= length s)%nat.
Proof. induction 1; cbn [min_length length]; rewrite ?length_app; lia. Qed.

Lemma matches_TIMESTAMP s : matches TIMESTAMP s -> timestamp_re s = true.
Proof.
  unfold TIMESTAMP. intros (s1 & s2 & -> & H1 & H2)%matches_cat. unfold timestamp_re.
  apply matches_alt in H2 as H2'. assert (Hlen : (3 <= length s2)%nat).
  { destruct H2' as [H'|H']; [|apply matches_alt in H' as [H'|H']; [|by apply matches_void in H']];
      apply matches_length in H'; [assert (3 <= 5)%nat by lia|]; etransitivity; [|exact H'| |exact H']; cbn; lia. }
  clear H2 H2'. cbn [seq foldr] in H1. parts_inv H1. re_inv.
  cbn [app length]. rewrite (proj2 (Nat.leb_le 8 _)) by lia. rewrite !(proj2 (is_digit_range _)) by done. done.
Qed.

(** ** What the resolver takes for a string *)

Lemma among_spec ws t : among ws t = true <-> exists w, w ∈ ws /\ t = lit w.
Proof.
  unfold among. rewrite existsb_exists. setoid_rewrite bool_decide_eq_true. setoid_rewrite list_elem_of_In. done.
Qed.

Lemma among_incl ws ws' t : Forall (fun w => w ∈ ws') ws -> among ws t = true -> among ws' t = true.
Proof. rewrite Forall_forall, !among_spec. intros Hi (w & Hw & ->). eauto. Qed.

(** The characters a match may start with. *)
Fixpoint may_start (r : re) (c : Z) : bool :=
  match r with
  | Void | Eps => false
  | Class p => p c
  | Cat r1 r2 => may_start r1 c || (nullable r1 && may_start r2 c)
  | Alt r1 r2 => may_start r1 c || may_start r2 c
  | Star r => may_start r c
  end.

Lemma matches_start r s c t : matches r s -> s = c :: t -> may_start r c = true.
Proof.
  intros H. revert t. induction H as [|p b Hb|r1 r2 s1 s2 H1 IH1 _ IH2|r1 r2 s _ IH|r1 r2 s _ IH| |r s1 s2 _ IH1 _ IH2];
    intros t E; cbn [may_start]; try discriminate.
  - by injection E as <- _.
  - destruct s1 as [|b s1]; cbn [app] in E.
    + rewrite (proj2 (nullable_spec _) H1), (IH2 _ E). apply orb_true_r.
    + injection E as -> _. by rewrite (IH1 _ eq_refl).
  - by rewrite (IH _ E).
  - rewrite (IH _ E). apply orb_true_r.
  - destruct s1 as [|b s1]; [by eapply IH2|]. injection E as -> _. by eapply IH1.
Qed.

Lemma number_lead b t : is_match INT (b :: t) || is_match FLOAT (b :: t) || is_match TIMESTAMP (b :: t) = true ->
  is_digit b || one_of "-+." b = true.
Proof.
  intros H. assert (Hs : may_start INT b || may_start FLOAT b || may_start TIMESTAMP b = true).
  { rewrite !orb_true_iff, !is_match_matches in *. destruct H as [[H|H]|H]; apply (matches_start _ _ b t) in H; auto. }
  clear H. assert (Hb : 48 <= b <= 57 \/ b = 45 \/ b = 43 \/ b = 46).
  { cbv -[Z.leb Z.eqb andb orb Z.le] in Hs. codes. lia. }
  unfold is_digit, one_of. change (lit "-+.") with [45; 43; 46]. cbn [existsb].
  rewrite !orb_true_iff, andb_true_iff, !Z.eqb_eq, !Z.leb_le. lia.
Qed.

Lemma resolver_string t : resolve_plain t = Some TStr -> misread t = false -> resolve t = TStr.
Proof.
  unfold resolve_plain, misread, resolve. destruct t as [|b t]; [done|]. set (s := b :: t).
  change (existsb (fun w => bool_decide (s = lit w)) NULL_WORDS) with (among NULL_WORDS s).
  change (existsb (fun w => bool_decide (s = lit w)) BOOL_WORDS) with (among BOOL_WORDS s).
  destruct (among NULL_WORDS s) eqn:En; [done|]. destruct (among BOOL_WORDS s) eqn:Eb; [done|].
  intros Hr [Hsx Hmv]%orb_false_iff.
  assert (among NULL s = false) as ->.
  { apply not_true_iff_false. intros Hw. apply (among_incl _ NULL_WORDS) in Hw; [congruence|]. by apply (bool_decide_unpack _). }
  assert (among BOOL s = false) as ->.
  { apply not_true_iff_false. intros Hw. apply (among_incl _ BOOL_WORDS) in Hw; [congruence|]. by apply (bool_decide_unpack _). }
  rewrite bool_decide_eq_false_2 by done. cbn [orb]. rewrite Hsx, Hmv, orb_false_r, orb_false_r.
  destruct (is_digit b || one_of "-+." b) eqn:El.
  - destruct (int_re s) as [int|] eqn:Ei; cbn in Hr; [|done]. injection Hr as Hr.
    destruct (is_match INT s) eqn:E1; [apply is_match_matches, matches_INT in E1; rewrite E1 in Ei; injection Ei as <-; done|].
    destruct (is_match FLOAT s) eqn:E2; [apply is_match_matches, matches_FLOAT in E2; rewrite E2 in Hr; by destruct int|].
    destruct (is_match TIMESTAMP s) eqn:E3; [apply is_match_matches, matches_TIMESTAMP in E3; rewrite E3 in Hr; by destruct int, (float_re s)|].
    done.
  - destruct (is_match INT s || is_match FLOAT s || is_match TIMESTAMP s) eqn:E; [apply number_lead in E; congruence|].
    apply orb_false_iff in E as [[-> ->]%orb_false_iff ->]. done.
Qed.

(** ** What is not a string *)

Lemma among_lead ws c t : forallb (fun w => match lit w with b :: _ => 57 <? b | [] => false end) ws = true -> c <= 57 -> among ws (c :: t) = false.
Proof.
  intros Hws Hc. apply not_true_iff_false. intros (w & Hw%list_elem_of_In & E)%among_spec. rewrite forallb_forall in Hws.
  specialize (Hws w Hw). rewrite <- E in Hws. bool_prop. lia.
Qed.

(** No class of the expression has the character. *)
Fixpoint avoids (r : re) (c : Z) : bool :=
  match r with
  | Void | Eps => true
  | Class p => negb (p c)
  | Cat r1 r2 | Alt r1 r2 => avoids r1 c && avoids r2 c
  | Star r => avoids r c
  end.

Lemma matches_avoids r s c : matches r s -> avoids r c = true -> c ∉ s.
Proof.
  induction 1; cbn [avoids]; intros; bool_prop; rewrite ?not_elem_of_app, ?list_elem_of_singleton;
    try (intros ->; congruence); try split; auto using not_elem_of_nil.
Qed.

Lemma matches_sign_minus sg : sg = [] \/ sg = [45] -> matches sign sg.
Proof. intros [-> | ->]; [apply m_left; constructor|apply m_right; by constructor]. Qed.

Lemma range_intro a b c : a <= c <= b -> matches (range a b) [c].
Proof. intros [? ?]. constructor. apply andb_true_iff. by rewrite !Z.leb_le. Qed.

Lemma digits_intro ds : Forall (fun c => 48 <= c <= 57) ds -> matches (Star d09_) ds.
Proof.
  intros Hds. apply matches_star_class. apply forallb_forall. intros c Hc. rewrite List.Forall_forall in Hds. specialize (Hds c Hc).
  by rewrite (proj2 (Z.leb_le 48 c)), (proj2 (Z.leb_le c 57)) by lia.
Qed.

Lemma number_words sg d t : sg = [] \/ sg = [45] -> 48 <= d <= 57 ->
  bool_decide (sg ++ d :: t = []) || among NULL (sg ++ d :: t) = false /\ among BOOL (sg ++ d :: t) = false.
Proof.
  intros Hs Hd. rewrite bool_decide_eq_false_2 by (by destruct sg). cbn [orb].
  destruct Hs as [-> | ->]; cbn [app]; split; by apply among_lead; [|lia].
Qed.

Lemma resolve_integer sg d ds : sg = [] \/ sg = [45] -> 48 <= d <= 57 -> Forall (fun c => 48 <= c <= 57) ds -> (d = 48 -> ds = []) ->
  resolve (sg ++ d :: ds) = TInt.
Proof.
  intros Hs Hd Hds H0. unfold resolve. destruct (number_words sg d ds Hs Hd) as [-> ->].
  assert (matches INT (sg ++ d :: ds)) as Hm; [|apply is_match_matches in Hm; by rewrite Hm].
  apply m_cat; [by apply matches_sign_minus|]. do 2 apply m_right. destruct (decide (d = 48)) as [->|Hne].
  - rewrite H0 by done. apply m_left. by constructor.
  - apply m_right, m_left. apply (m_cat _ _ [d]); [apply range_intro; lia|by apply digits_intro].
Qed.

Lemma resolve_fixed sg d ds fs : sg = [] \/ sg = [45] -> 48 <= d <= 57 -> Forall (fun c => 48 <= c <= 57) ds ->
  Forall (fun c => 48 <= c <= 57) fs -> resolve (sg ++ d :: ds ++ 46 :: fs) = TFloat.
Proof.
  intros Hs Hd Hds Hfs. unfold resolve. destruct (number_words sg d (ds ++ 46 :: fs) Hs Hd) as [-> ->].
  assert (is_match INT (sg ++ d :: ds ++ 46 :: fs) = false) as ->.
  { apply not_true_iff_false. intros Hm%is_match_matches. apply (matches_avoids _ _ 46) in Hm; [|reflexivity].
    apply Hm. apply elem_of_app. right. apply elem_of_cons. right. apply elem_of_app. right. by left. }
  assert (matches FLOAT (sg ++ d :: ds ++ 46 :: fs)) as Hm; [|apply is_match_matches in Hm; by rewrite Hm].
  apply m_left. apply m_cat; [by apply matches_sign_minus|]. apply (m_cat _ _ [d]); [by apply range_intro|].
  apply m_cat; [by apply digits_intro|]. apply (m_cat _ _ [46]); [by constructor|].
  rewrite <- (app_nil_r fs). apply m_cat; [by apply digits_intro|]. apply (m_cat _ _ [] []); [apply m_left|]; constructor.
Qed.

(** ** What the analysis lets stand plain *)

Definition on_line (c : Z) : Prop := 32 <= c <= 126.

Lemma is_ws_line c : on_line c -> is_ws c = (c =? 32).
Proof.
  unfold on_line, is_ws, is_break. intros Hc. destruct (Z.eqb_spec c 32) as [->|Hn]; [done|]. rewrite !orb_false_iff, !Z.eqb_neq. lia.
Qed.

Lemma gap_followed rest : Forall on_line rest -> match rest with [] => true | d :: _ => is_ws d end = gap rest.
Proof. destruct 1 as [|d rest Hd _]; [done|]. by apply is_ws_line. Qed.

(** A turn of the loop marks the indicator it sees. *)
Lemma scan_char_block first last followed c s : block_indicators (scan_char first last followed c s) = false ->
  block_indicators s = false /\ (indicators first (preceded_by_whitespace s) followed c).2 = false.
Proof. unfold scan_char. destruct (indicators _ _ _ _). cbn. by intros ?%orb_false_iff. Qed.

Lemma scan_char_preceded first last followed c s : preceded_by_whitespace (scan_char first last followed c s) = is_ws c.
Proof. unfold scan_char. by destruct (indicators _ _ _ _). Qed.

Lemma scan_chars_rest cs : forall prev s, Forall on_line cs -> preceded_by_whitespace s = (prev =? 32) ->
  prev <> 32 \/ cs <> [] -> last cs <> Some 32 -> block_indicators (scan_chars false cs s) = false ->
  block_indicators s = false /\ plain_rest prev cs = true.
Proof.
  induction cs as [|c cs IH]; intros prev s Hcs Hp Hne Hl Hb.
  { split; [done|]. destruct Hne as [Hne|]; [|done]. cbn. by apply negb_true_iff, Z.eqb_neq. }
  apply Forall_cons in Hcs as [Hc Hcs]. cbn [scan_chars] in Hb. rewrite gap_followed in Hb by done.
  apply (IH c) in Hb as [Hb Hr]; [|done|rewrite scan_char_preceded; by apply is_ws_line|..].
  - apply scan_char_block in Hb as [Hb Hi]. split; [done|]. unfold indicators in Hi. cbn [snd] in Hi.
    apply orb_false_iff in Hi as [H1 H2]. rewrite Hp in H2. cbn [plain_rest]. unfold on_line in Hc.
    rewrite (proj2 (Z.leb_le 32 c)), (proj2 (Z.leb_le c 126)), H1, H2, Hr by lia. done.
  - destruct cs; [left|by right]. intros ->. by apply Hl.
  - by destruct cs.
Qed.

Lemma starts_with_marker t : starts_with "---" t || starts_with "..." t = false -> marker t = false.
Proof.
  assert (Hp : forall p r, strip_prefix p (p ++ r) = Some r).
  { induction p as [|c p IH]; intros r; [done|]. cbn. by rewrite Z.eqb_refl. }
  assert (Hw : forall w, starts_with w t = false -> length (lit w) = 3%nat -> bool_decide (take 3 t = lit w) = false).
  { intros w Hs Hl. apply bool_decide_eq_false. intros E. unfold starts_with in Hs. apply bool_decide_eq_false in Hs. apply Hs.
    exists (drop 3 t). rewrite <- (take_drop 3 t) at 1. by rewrite E. }
  intros [H1 H2]%orb_false_iff. unfold marker. by rewrite (Hw "---"%string), (Hw "..."%string).
Qed.

(** The first character is no indicator that opens something. *)
Lemma indicators_first followed c : (indicators true true followed c).2 = false ->
  (indicator c = false \/ (soft_indicator c = true /\ followed = false)) /\ (c =? 35) = false /\ (c =? 58) && followed = false.
Proof.
  unfold indicators, indicator, soft_indicator, one_of. cbn [snd].
  change (lit "#,[]{}&*!|>'%@`") with [35; 44; 91; 93; 123; 125; 38; 42; 33; 124; 62; 39; 37; 64; 96].
  change (lit "?:") with [63; 58]. change (lit "-?:") with [45; 63; 58].
  change (lit "-?:,[]{}#&*!|>'%@`") with [45; 63; 58; 44; 91; 93; 123; 125; 35; 38; 42; 33; 124; 62; 39; 37; 64; 96].
  cbn [existsb]. destruct followed; rewrite ?andb_true_r, ?andb_false_r, ?orb_false_r; intros H; rewrite ?orb_false_iff in *;
    [split; [left|]; tauto|]. split; [|tauto].
  destruct (c =? 45), (c =? 63), (c =? 58); cbn [orb]; try (right; by split); left; rewrite ?orb_false_iff; tauto.
Qed.

Lemma scan_plain t : t <> [] -> Forall on_line t -> head t <> Some 32 -> last t <> Some 32 ->
  block_indicators (scan_chars true t (scan_start t)) = false -> plain_scalar t = true.
Proof.
  destruct t as [|c rest]; [done|]. intros _ Ht Hh Hl Hb. pose proof Ht as [Hc Hrest]%Forall_cons. cbn [scan_chars] in Hb.
  rewrite gap_followed in Hb by done. assert (Hc32 : c <> 32) by (intros ->; by apply Hh).
  apply (scan_chars_rest rest c) in Hb as [Hb Hr]; [|done|rewrite scan_char_preceded; by apply is_ws_line|by left|by destruct rest].
  apply scan_char_block in Hb as [Hm (Hi & H35 & H58)%indicators_first]. apply starts_with_marker in Hm.
  unfold plain_scalar. rewrite Hm, (proj2 (Z.eqb_neq c 32)) by done. cbn [negb plain_rest].
  unfold on_line in Hc. rewrite (proj2 (Z.leb_le 32 c)), (proj2 (Z.leb_le c 126)), H35, H58, Hr by lia.
  destruct Hi as [-> | [-> ->]]; [done|]. by rewrite orb_true_r.
Qed.

(** The merge and the value indicators stay plain, although neither is a string
    to a reader: PyYAML quotes both. *)
Lemma misread_stays_plain display :
  emit_yaml display (VMapping [(VString (lit "m"), VString (lit "<<")); (VString (lit "v"), VString (lit "="))])
  = Some (lit "m: <<" ++ [10] ++ lit "v: =" ++ [10])
  /\ resolve (lit "<<") = TOther /\ resolve (lit "=") = TOther /\ resolve (lit "1:30.5") = TFloat.
Proof. split_and!; reflexivity. Qed.
