(* ===== verification/YamlSpec.v ===== *)
(** * What the YAML emitter writes is what was meant

    A reference reader of YAML scalars (line folding, quote doubling, YAML's own
    escape sequences, plain scalars by the grammar of [YamlPlain]) and the proof that it gives back every scalar [Yaml] writes, in
    whichever style it was written and wherever its lines were folded; that a
    document does not depend on the order of its keys; that it is printable
    ASCII. *)

From Stdlib Require Import ZArith Lia String Floats.SpecFloat.
From stdpp Require Import base numbers strings list.
From S2P Require Import Prelude.
From S2P Require Import Text.
From S2P Require Import Yaml.
From S2P Require Import YamlPlain.

Open Scope Z_scope.

(** ** Reading a folded text *)

(** The reader's state: spaces seen on this line, line breaks since the last
    character.  A single break reads as a space, [n + 1] of them as [n]; the
    spaces around a break do not count. *)
Definition held (st : nat * nat) : list Z :=
  replicate st.1 32 ++ match st.2 with O => [] | 1%nat => [32] | S n => replicate n 10 end.

Definition fold_turn (st : nat * nat) (c : Z) : nat * nat * list Z :=
  if c =? 10 then (0%nat, S st.2, [])
  else if c =? 32 then (match st.2 with O => (S st.1, 0%nat) | S n => (0%nat, S n) end, [])
  else (0%nat, 0%nat, held st ++ [c]).

Fixpoint fold_run (st : nat * nat) (s : list Z) : nat * nat * list Z :=
  match s with
  | [] => (st, [])
  | c :: s => let '(st, o) := fold_turn st c in let '(st, o') := fold_run st s in (st, o ++ o')
  end.

Definition unfold_lines (s : list Z) : list Z := let '(st, o) := fold_run (0%nat, 0%nat) s in o ++ held st.

(** A quote inside single quotes is doubled. *)
Definition double_quotes (s : list Z) : list Z := s ≫= (fun c => if c =? 39 then [39; 39] else [c]).

(** A single quote that is not doubled ends the scalar: it may not occur. *)
Fixpoint undouble (s : list Z) : option (list Z) :=
  match s with
  | 39 :: s => match s with 39 :: s' => cons 39 <$> undouble s' | _ => None end
  | c :: s => cons c <$> undouble s
  | [] => Some []
  end.

(** ** Reading a double-quoted text *)

Inductive DMode := DNormal | DEsc | DFold | DHex (n : nat) (acc : Z).

(** Escapes of one character (YAML 1.1, 5.6): the code after the backslash
    and what it stands for. *)
Definition ESCAPES : list (Z * Z) :=
  [(48, 0x00); (97, 0x07); (98, 0x08); (116, 0x09); (110, 0x0a); (118, 0x0b); (102, 0x0c); (114, 0x0d); (101, 0x1b);
   (32, 0x20); (34, 0x22); (92, 0x5c); (78, 0x85); (95, 0xa0); (76, 0x2028); (80, 0x2029)].

Definition unescape (c : Z) : option Z := snd <$> find (fun kv => kv.1 =? c) ESCAPES.

Definition dq_normal (c : Z) : option (DMode * list Z) :=
  if c =? 92 then Some (DEsc, []) else if (c =? 34) || (c =? 10) then None else Some (DNormal, [c]).

Definition dq_turn (m : DMode) (c : Z) : option (DMode * list Z) :=
  match m with
  | DNormal => dq_normal c
  | DFold => if c =? 32 then Some (DFold, []) else dq_normal c
  | DEsc =>
      if c =? 10 then Some (DFold, [])
      else if c =? chr "x" then Some (DHex 2 0, [])
      else if c =? chr "u" then Some (DHex 4 0, [])
      else if c =? chr "U" then Some (DHex 8 0, [])
      else (fun k => (DNormal, [k])) <$> unescape c
  | DHex n acc =>
      d ← to_digit 16 c;
      Some (if (n <=? 1)%nat then (DNormal, [acc * 16 + d]) else (DHex (n - 1) (acc * 16 + d), []))
  end.

Fixpoint dq_run (m : DMode) (s : list Z) : option (DMode * list Z) :=
  match s with
  | [] => Some (m, [])
  | c :: s => '(m, o) ← dq_turn m c; '(m, o') ← dq_run m s; Some (m, o ++ o')
  end.

Definition dq_read (s : list Z) : option (list Z) :=
  match dq_run DNormal s with Some (DNormal, o) | Some (DFold, o) => Some o | _ => None end.

(** ** Reading a scalar *)

(** The text between two quotes, if there are. *)
Definition between_quotes (q : Z) (s : list Z) : option (list Z) :=
  match s with
  | c :: s => if (c =? q) && bool_decide (last s = Some q) then Some (take (length s - 1) s) else None
  | [] => None
  end.

(** A quoted scalar is a string; anything else must be a plain scalar, and is
    what it resolves to. *)
Definition read_scalar (s : list Z) : option (list Z * Tag) :=
  match s with
  | 39 :: _ => b ← between_quotes 39 s; (fun t => (t, TStr)) <$> undouble (unfold_lines b)
  | 34 :: _ => b ← between_quotes 34 s; (fun t => (t, TStr)) <$> dq_read b
  | _ => let t := unfold_lines s in if plain_scalar t then Some (t, resolve t) else None
  end.

(** ** Lemmas: strings *)

Lemma as_bytes_app s t : as_bytes (s ++ t) = as_bytes s ++ as_bytes t.
Proof. unfold as_bytes. apply bind_app. Qed.

Definition ascii (c : Z) : Prop := c = 10 \/ printable c = true.

Lemma ascii_range c : ascii c <-> c = 10 \/ 32 <= c <= 126.
Proof. unfold ascii, printable. rewrite andb_true_iff, !Z.leb_le. done. Qed.

Lemma as_bytes_ascii s : Forall ascii s -> as_bytes s = s.
Proof.
  induction 1 as [|c s Hc _ IH]; [done|]. unfold as_bytes in *. cbn [mbind list_bind]. rewrite IH.
  apply ascii_range in Hc. unfold utf8_char. destruct (c <? 0x80) eqn:E; [done|]. bool_prop. lia.
Qed.

(** ** Lemmas: folding *)

Lemma fold_run_app s t st : fold_run st (s ++ t)
  = let '(st1, o1) := fold_run st s in let '(st2, o2) := fold_run st1 t in (st2, o1 ++ o2).
Proof.
  revert st. induction s as [|c s IH]; intros st; cbn [app fold_run].
  - by destruct (fold_run st t).
  - destruct (fold_turn st c) as [st1 o]. rewrite IH. destruct (fold_run st1 s) as [st2 o2].
    destruct (fold_run st2 t) as [st3 o3]. by rewrite app_assoc.
Qed.

(** [folded B st d]: the text [B] reads as [d] and leaves the reader in [st]. *)
Definition folded (B : list Z) (st : nat * nat) (d : list Z) : Prop :=
  exists o, fold_run (0%nat, 0%nat) B = (st, o) /\ o ++ held st = d.

Lemma folded_unfold B st d : folded B st d -> unfold_lines B = d.
Proof. intros (o & E & <-). unfold unfold_lines. by rewrite E. Qed.

Definition word (c : Z) : Prop := c <> 10 /\ c <> 32.

Lemma fold_turn_word st c : word c -> fold_turn st c = ((0, 0)%nat, held st ++ [c]).
Proof. intros [H1%Z.eqb_neq H2%Z.eqb_neq]. unfold fold_turn. by rewrite H1, H2. Qed.

Lemma fold_run_word st c w : Forall word (c :: w) -> fold_run st (c :: w) = ((0, 0)%nat, held st ++ c :: w).
Proof.
  revert st c. induction w as [|c' w IH]; intros st c [Hc Hw]%Forall_cons; cbn [fold_run]; rewrite fold_turn_word by done.
  - by rewrite app_nil_r.
  - pose proof (IH (0, 0)%nat c' Hw) as E. cbn [fold_run] in E. rewrite E. cbn [held replicate app fst snd].
    by rewrite <- app_assoc.
Qed.

Lemma folded_word B st d w : folded B st d -> Forall word w -> w <> [] -> folded (B ++ w) (0, 0)%nat (d ++ w).
Proof.
  intros (o & E & <-) Hw Hne. destruct w as [|c w]; [done|]. exists (o ++ held st ++ c :: w).
  rewrite fold_run_app, E, fold_run_word by done. split; [done|]. cbn. by rewrite app_nil_r, <- app_assoc.
Qed.

Lemma fold_run_spaces m n : fold_run (n, 0%nat) (replicate m 32) = ((m + n)%nat, 0%nat, []).
Proof.
  revert n. induction m as [|m IH]; intros n; [done|]. cbn [replicate fold_run]. unfold fold_turn. cbn.
  rewrite IH. f_equal. f_equal. lia.
Qed.

Lemma fold_run_padding m n : fold_run (0%nat, S n) (replicate m 32) = (0%nat, S n, []).
Proof. induction m as [|m IH]; [done|]. cbn [replicate fold_run]. unfold fold_turn. cbn. by rewrite IH. Qed.

Lemma fold_run_breaks m n : fold_run (0%nat, n) (replicate m 10) = (0%nat, (m + n)%nat, []).
Proof.
  revert n. induction m as [|m IH]; intros n; [done|]. cbn [replicate fold_run]. unfold fold_turn. cbn.
  rewrite IH. f_equal. f_equal. lia.
Qed.

Lemma folded_spaces B d m : folded B (0, 0)%nat d -> folded (B ++ replicate m 32) (m, 0%nat) (d ++ replicate m 32).
Proof.
  intros (o & E & <-). exists o. rewrite fold_run_app, E, fold_run_spaces, app_nil_r, Nat.add_0_r. split; [done|].
  unfold held. cbn. by rewrite !app_nil_r.
Qed.

Lemma folded_fold B d i : folded B (0, 0)%nat d -> folded (B ++ 10 :: replicate i 32) (0, 1)%nat (d ++ [32]).
Proof.
  intros (o & E & <-). exists o. rewrite fold_run_app, E. cbn [fold_run]. unfold fold_turn at 1. cbn.
  rewrite fold_run_padding, !app_nil_r. done.
Qed.

Lemma folded_breaks B d m i : folded B (0, 0)%nat d -> (0 < m)%nat ->
  folded (B ++ replicate (S m) 10 ++ replicate i 32) (0%nat, S m) (d ++ replicate m 10).
Proof.
  intros (o & E & <-) Hm. exists o. rewrite fold_run_app, E, fold_run_app, fold_run_breaks, Nat.add_0_r.
  rewrite fold_run_padding, !app_nil_r. split; [done|]. unfold held. cbn. by destruct m as [|[|m]]; [lia|..].
Qed.

Lemma double_quotes_app s t : double_quotes (s ++ t) = double_quotes s ++ double_quotes t.
Proof. apply bind_app. Qed.

Lemma double_quotes_id s : Forall (fun c => c <> 39) s -> double_quotes s = s.
Proof.
  induction 1 as [|c s Hc _ IH]; [done|]. unfold double_quotes in *. cbn [mbind list_bind].
  rewrite (proj2 (Z.eqb_neq _ _) Hc), IH. done.
Qed.

Lemma undouble_quotes s : undouble (double_quotes s) = Some s.
Proof.
  induction s as [|c s IH]; [done|]. unfold double_quotes in *. cbn [mbind list_bind].
  destruct (c =? 39) eqn:E; bool_prop; [subst; cbn; by rewrite IH|]. cbn [app].
  assert (Hu : forall l, undouble (c :: l) = cons c <$> undouble l).
  { intros l. cbn. by repeat (case_match; try lia; try done). }
  rewrite Hu. by rewrite IH.
Qed.

(** ** Lemmas: what the analysis means *)

(** No space next to a line break. *)
Fixpoint spaced (prev : option Z) (s : list Z) : Prop :=
  match s with
  | [] => True
  | c :: s => (c = 32 -> prev <> Some 10) /\ (c = 10 -> prev <> Some 32) /\ spaced (Some c) s
  end.

Definition ends_in (c : Z) (s : list Z) : Prop := last s = Some c.

Lemma is_break_ascii c : ascii c -> is_break c = (c =? 10).
Proof.
  intros Hc%ascii_range. unfold is_break.
  rewrite (proj2 (Z.eqb_neq c 0x85)), (proj2 (Z.eqb_neq c 0x2028)), (proj2 (Z.eqb_neq c 0x2029)) by lia.
  by rewrite !orb_false_r.
Qed.

(** The flags only grow. *)
Lemma scan_chars_facts cs : forall first s,
  let s' := scan_chars first cs s in
  (special_characters s' = false -> special_characters s = false /\ Forall ascii cs)
  /\ (line_breaks s' = false -> line_breaks s = false /\ Forall (fun c => is_break c = false) cs)
  /\ (trailing_space s' = false -> trailing_space s = false /\ ~ ends_in 32 cs)
  /\ (leading_space s' = false -> leading_space s = false /\ (first = true -> head cs <> Some 32)).
Proof.
  induction cs as [|c cs IH]; intros first s; cbv zeta.
  { cbn [scan_chars]. repeat match goal with |- _ /\ _ => split | |- _ = false -> _ => intros ? end; done. }
  cbn [scan_chars]. set (s1 := scan_char _ _ _ _ _). destruct (IH false s1) as (H1 & H2 & H3 & H4).
  unfold s1, scan_char in *. destruct (indicators _ _ _ _) as [fl bl] eqn:Ei. cbn in *. split_and!; intros Hs.
  - destruct (H1 Hs) as [E Hf]. bool_prop. split; [done|]. constructor; [|done]. unfold ascii.
    rewrite <- Z.eqb_eq. done.
  - destruct (H2 Hs) as [E Hf]. bool_prop. by split; [|constructor].
  - destruct (H3 Hs) as [E Hf]. bool_prop. split; [done|]. unfold ends_in in *. destruct cs as [|c' cs]; [|done].
    cbn. intros [= ->]. cbn in *. naive_solver.
  - destruct (H4 Hs) as [E _]. bool_prop. split; [done|]. intros -> [= ->]. naive_solver.
Qed.

Lemma eqb_Some c k : bool_decide (Some c = Some k) = (c =? k).
Proof. destruct (Z.eqb_spec c k) as [->|Hne]; [by apply bool_decide_eq_true_2|]. apply bool_decide_eq_false_2. congruence. Qed.

Lemma scan_chars_spaced cs : forall first s prev,
  let s' := scan_chars first cs s in
  (previous_space s = bool_decide (prev = Some 32)) -> (previous_break s = bool_decide (prev = Some 10)) ->
  Forall ascii cs -> break_space s' = false -> space_break s' = false ->
  break_space s = false /\ space_break s = false /\ spaced prev cs.
Proof.
  induction cs as [|c cs IH]; intros first s prev; cbv zeta; intros Hs Hb Ha H1 H2; [done|].
  apply Forall_cons in Ha as [Hc Ha]. cbn [scan_chars] in *. set (s1 := scan_char _ _ _ _ _) in *.
  destruct (IH false s1 (Some c)) as (E1 & E2 & Hsp); [| |done..|].
  - unfold s1, scan_char. destruct (indicators _ _ _ _). cbn [previous_space].
    by rewrite eqb_Some.
  - unfold s1, scan_char. destruct (indicators _ _ _ _). cbn [previous_break]. rewrite is_break_ascii by done.
    rewrite eqb_Some. destruct (Z.eqb_spec c 32) as [->|]; done.
  - unfold s1, scan_char in E1, E2. destruct (indicators _ _ _ _). cbn [break_space space_break] in E1, E2.
    bool_prop. split; [done|]. split; [done|]. cbn [spaced]. rewrite is_break_ascii in * by done.
    rewrite Hs, Hb in *. split; [|split; [|done]]; intros -> ->; cbn in *; naive_solver.
Qed.

(** A text that may stand plain, and one that may stand in single quotes. *)
Record plain_ok (t : list Z) : Prop := {
  po_ascii : Forall ascii t; po_lines : Forall (fun c => c <> 10) t; po_end : ~ ends_in 32 t;
  po_plain : t <> [] -> plain_scalar t = true;
}.

Record single_ok (t : list Z) : Prop := { so_ascii : Forall ascii t; so_spaced : spaced None t }.

Lemma analyze_plain t : allow_block_plain (analyze_scalar t) = true -> plain_ok t.
Proof.
  unfold analyze_scalar. case_bool_decide as Ht; [subst; intros _; split; done|]. cbn [allow_block_plain]. intros Hp.
  apply negb_true_iff in Hp. bool_prop. destruct (scan_chars_facts t true (scan_start t)) as (F1 & F2 & F3 & F4).
  destruct F1 as [_ Ha]; [done|]. destruct F2 as [_ Hl]; [done|]. destruct F3 as [_ He]; [done|].
  destruct F4 as [_ Hh]; [done|]. specialize (Hh eq_refl).
  assert (Hn : Forall (fun c => c <> 10) t) by (rewrite Forall_forall in *; intros c Hc ->; by specialize (Hl _ Hc)).
  split; [done..|]. intros _. apply scan_plain; [done| |done..].
  rewrite Forall_forall in *. intros c Hc. specialize (Ha c Hc). specialize (Hn c Hc). apply ascii_range in Ha.
  unfold on_line. lia.
Qed.

Lemma analyze_single t : allow_single_quoted (analyze_scalar t) = true -> single_ok t.
Proof.
  unfold analyze_scalar. case_bool_decide as Ht; [subst; intros _; split; done|]. cbn [allow_single_quoted]. intros Hp.
  apply negb_true_iff in Hp. bool_prop. destruct (scan_chars_facts t true (scan_start t)) as (F1 & _).
  destruct F1 as [_ Ha]; [done|]. split; [done|].
  by apply (scan_chars_spaced t true (scan_start t) None).
Qed.

(** ** Lemmas: positions in the text *)

Lemma spaced_app prev s t : spaced prev (s ++ t) -> exists p, spaced p t /\ (s <> [] -> p = last s).
Proof.
  revert prev. induction s as [|c s IH]; intros prev; cbn [app spaced]; [by exists prev|].
  intros (_ & _ & Hs). destruct (IH _ Hs) as (p & Hp & Hl). destruct s as [|c' s].
  - exists (Some c). by split.
  - exists p. split; [done|]. intros _. by rewrite Hl.
Qed.

Lemma slice_middle {A} (d p s : list A) : slice (length d) (length (d ++ p)) (d ++ p ++ s) = p.
Proof.
  unfold slice. rewrite drop_app_length, length_app. replace (_ + _ - _)%nat with (length p) by lia. apply take_app_length.
Qed.

Lemma lookup_middle {A} (d s : list A) : (d ++ s) !! length d = head s.
Proof. rewrite lookup_app_r, Nat.sub_diag by lia. by destruct s. Qed.

(** ** Lemmas: the emitter's small steps *)

(** The indentation, which writing a scalar leaves alone. *)
Definition kept (e e' : Emitter) : Prop := indent e' = indent e /\ indents e' = indents e.

Lemma kept_refl e : kept e e.
Proof. done. Qed.

Lemma kept_trans e1 e2 e3 : kept e1 e2 -> kept e2 e3 -> kept e1 e3.
Proof. intros [? ?] [? ?]. split; congruence. Qed.

Lemma write_kept e s : kept e (write e s).
Proof. done. Qed.

Lemma write_indent_kept e : kept e (write_indent e).
Proof. unfold write_indent. by repeat case_goal. Qed.

Lemma iter_line_break_out n e : out (Nat.iter n write_line_break e) = out e ++ replicate n 10
  /\ kept e (Nat.iter n write_line_break e)
  /\ ((0 < n)%nat -> column (Nat.iter n write_line_break e) = 0 /\ indention (Nat.iter n write_line_break e) = true
       /\ whitespace (Nat.iter n write_line_break e) = true).
Proof.
  induction n as [|n (IH1 & IH2 & _)]; cbn [Nat.iter nat_rect replicate]; [rewrite app_nil_r; by split_and!; [..|lia]|].
  unfold Nat.iter in *. cbn [out write_line_break set_field]. rewrite IH1, <- app_assoc, <- replicate_S_end. done.
Qed.

(** Going to a fresh line indented by [i]. *)
Lemma write_indent_pad e i : default 0 (indent e) = i -> 0 <= i -> column e = 0 -> indention e = true ->
  whitespace e = true ->
  out (write_indent e) = out e ++ replicate (Z.to_nat i) 32 /\ column (write_indent e) = i.
Proof.
  intros Hi H0 Hc Hn Hw. unfold write_indent. rewrite Hi, Hc, Hn, Hw. cbn [negb orb].
  rewrite (proj2 (Z.ltb_ge i 0)), andb_false_r by lia. cbn [orb]. rewrite Hc.
  destruct (0 <? i) eqn:E; bool_prop; cbn [out column set_field]; [by rewrite Z.sub_0_r|].
  assert (i = 0) as -> by lia. by rewrite app_nil_r.
Qed.

Lemma write_indent_fold e i : default 0 (indent e) = i -> 0 <= i -> indention e = false \/ i < column e ->
  out (write_indent e) = out e ++ 10 :: replicate (Z.to_nat i) 32 /\ column (write_indent e) = i.
Proof.
  intros Hi H0 Hc. destruct (write_indent_pad (write_line_break e) i) as [Ho Hcol]; [done..|].
  assert (write_indent e = write_indent (write_line_break e)) as ->.
  { unfold write_indent at 1. rewrite Hi. assert (negb (indention e) || (i <? column e) = true) as ->.
    { destruct Hc as [-> | Hc]; [done|]. rewrite (proj2 (Z.ltb_lt _ _)) by done. apply orb_true_r. }
    unfold write_indent. cbn [indent write_line_break set_field indention whitespace column orb negb].
    rewrite Hi. destruct (i <? 0) eqn:E; bool_prop; [lia|]. by rewrite andb_false_r. }
  split; [|done]. rewrite Ho. cbn [out write_line_break set_field]. by rewrite <- app_assoc.
Qed.

(** ** Lemmas: the loops of the plain and the single-quoted writer *)

Section folding.
Context (tr : list Z -> list Z) (quote : Z -> bool).
Context (tr_app : forall a b, tr (a ++ b) = tr a ++ tr b).
Context (tr_id : forall p, Forall (fun c => quote c = false) p -> tr p = p).
Context (quote_blank : quote 32 = false /\ quote 10 = false).
Context (e0 : Emitter) (i : Z) (Hind : default 0 (indent e0) = i) (Hi : 0 <= i <= BEST_WIDTH).

Definition wordly (c : Z) : Prop := word c /\ quote c = false.

(** The characters read but not yet written. *)
Inductive pending (st : nat * nat) (next : option Z) : list Z -> bool -> bool -> Prop :=
  | PSpaces m : st = (0, 0)%nat -> pending st next (replicate (S m) 32) true false
  | PBreaks m : st = (0, 0)%nat -> pending st next (replicate (S m) 10) false true
  | PWord w : Forall wordly w -> (st = (0, 0)%nat \/ forall c, next = Some c -> word c) -> pending st next w false false.

Lemma pending_cases st next p sp br : pending st next p sp br ->
  (sp = true /\ br = false /\ st = (0, 0)%nat /\ exists m, p = replicate (S m) 32)
  \/ (sp = false /\ br = true /\ st = (0, 0)%nat /\ exists m, p = replicate (S m) 10)
  \/ (sp = false /\ br = false /\ Forall wordly p /\ (st = (0, 0)%nat \/ forall c, next = Some c -> word c)).
Proof. destruct 1; [left|right; left|right; right]; repeat split; eauto. Qed.

(** What has been written reads as the characters before [start]. *)
Definition written_so_far (e : Emitter) (st : nat * nat) (d : list Z) : Prop :=
  exists B, out e = out e0 ++ B /\ folded B st (tr d) /\ kept e0 e.

Definition inv (pre suf : list Z) (s : Emitter * Cursor) : Prop :=
  exists d p st, pre = d ++ p /\ start s.2 = length d /\ end_ s.2 = length pre
  /\ written_so_far s.1 st d /\ pending st (head (p ++ suf)) p (spaces s.2) (breaks s.2).

Lemma span_written e k d p suf st st' :
  start k = length d -> end_ k = length (d ++ p) -> written_so_far e st d -> Forall ascii p ->
  Forall (fun c => quote c = false) p ->
  (forall B, folded B st (tr d) -> folded (B ++ p) st' (tr d ++ p)) ->
  written_so_far (write_span e (d ++ p ++ suf) k) st' (d ++ p).
Proof.
  intros Hs He (B & Ho & HB & Hk) Ha Hq Hf. exists (B ++ p). unfold write_span. cbn [out write set_field].
  rewrite Hs, He, slice_middle, as_bytes_ascii, Ho, <- app_assoc by done. split; [done|].
  rewrite tr_app, (tr_id p Hq). split; [by apply Hf|]. done.
Qed.

Lemma quote_replicate n c : quote c = false -> Forall (fun c => quote c = false) (replicate n c).
Proof. intros. by apply Forall_replicate. Qed.

Lemma ascii_replicate n c : c = 32 \/ c = 10 -> Forall ascii (replicate n c).
Proof. intros H. apply Forall_replicate. destruct H as [-> | ->]; [right|left]; done. Qed.

Lemma spaces_written e k d m suf :
  start k = length d -> end_ k = length (d ++ replicate m 32) -> written_so_far e (0, 0)%nat d ->
  written_so_far (write_span e (d ++ replicate m 32 ++ suf) k) (m, 0%nat) (d ++ replicate m 32).
Proof.
  intros Hs He Hw. eapply span_written; [done..| |apply quote_replicate, quote_blank|intros B; apply folded_spaces].
  apply ascii_replicate. by left.
Qed.

Lemma fold_written e d : written_so_far e (0, 0)%nat d -> BEST_WIDTH < column e ->
  written_so_far (write_indent e) (0, 1)%nat (d ++ [32]).
Proof.
  intros (B & Ho & HB & Hk) Hc. exists (B ++ 10 :: replicate (Z.to_nat i) 32).
  destruct (write_indent_fold e i) as [Hout _]; [by rewrite (proj1 Hk)|lia|right; lia|].
  rewrite Hout, Ho, <- app_assoc. split; [done|]. rewrite tr_app, (tr_id [32]) by (repeat constructor; apply quote_blank).
  split; [by apply folded_fold|]. eapply kept_trans; [done|apply write_indent_kept].
Qed.

Lemma breaks_written e k d m suf :
  start k = length d -> end_ k = length (d ++ replicate (S m) 10) -> written_so_far e (0, 0)%nat d ->
  written_so_far (write_breaks e (d ++ replicate (S m) 10 ++ suf) k) (0%nat, S (S m)) (d ++ replicate (S m) 10).
Proof.
  intros Hs He (B & Ho & HB & Hk). unfold write_breaks. rewrite Hs, He, lookup_middle.
  replace (length (d ++ replicate (S m) 10%Z) - length d)%nat with (S m) by (rewrite length_app, length_replicate; lia).
  cbn [replicate app head]. rewrite bool_decide_eq_true_2 by done. set (e1 := write_line_break e).
  destruct (iter_line_break_out (S m) e1) as (Ho1 & Hk1 & Hst). destruct Hst as (Hc1 & Hn1 & Hw1); [lia|].
  set (e2 := Nat.iter (S m) write_line_break e1) in *.
  assert (Hk2 : kept e0 e2) by (eapply kept_trans; [exact Hk|exact Hk1]).
  destruct (write_indent_pad e2 i) as [Hp _]; [by rewrite (proj1 Hk2)|lia|done..|].
  exists (B ++ replicate (S (S m)) 10 ++ replicate (Z.to_nat i) 32). split.
  { rewrite Hp, Ho1. cbn [out e1 write_line_break set_field]. rewrite Ho. cbn [replicate]. by rewrite <- !app_assoc. }
  split; [|eapply kept_trans; [exact Hk2|apply write_indent_kept]].
  change (10 :: replicate m 10) with (replicate (S m) 10).
  rewrite tr_app, (tr_id (replicate (S m) 10)) by (apply quote_replicate, quote_blank).
  apply folded_breaks; [done|lia].
Qed.

(** The pending word, before a blank or a quote. *)
Lemma word_written e k d w suf st :
  start k = length d -> end_ k = length (d ++ w) -> written_so_far e st d -> Forall wordly w -> Forall ascii w ->
  w <> [] -> written_so_far (write_span e (d ++ w ++ suf) k) (0, 0)%nat (d ++ w).
Proof.
  intros Hs He Hw Hword Ha Hne. eapply span_written; [done..| |].
  - eapply Forall_impl; [exact Hword|]. by intros c [].
  - intros B HB. eapply folded_word; [done| |done]. eapply Forall_impl; [exact Hword|]. by intros c [].
Qed.

(** The next character after everything has been written. *)
Lemma pending_next st c suf : ascii c -> quote c = false -> word c \/ st = (0, 0)%nat ->
  pending st (head ([c] ++ suf)) [c] (c =? 32) (is_break c).
Proof.
  intros Ha Hq Hc. rewrite is_break_ascii by done. destruct (Z.eqb_spec c 32) as [->|H32].
  { apply (PSpaces _ _ 0). by destruct Hc as [[]|]. }
  destruct (Z.eqb_spec c 10) as [->|H10].
  { apply (PBreaks _ _ 0). by destruct Hc as [[]|]. }
  apply PWord; [by repeat constructor|]. right. by intros c' [= <-].
Qed.

Lemma span_nil e chars k : start k = end_ k -> out (write_span e chars k) = out e /\ kept e (write_span e chars k).
Proof.
  intros H. unfold write_span. cbn [out write set_field]. rewrite H. unfold slice. rewrite Nat.sub_diag, take_0.
  split; [apply app_nil_r|done].
Qed.

(** Before a blank nothing is left pending, written or not. *)
Lemma word_flushed e k d w c suf st :
  start k = length d -> end_ k = length (d ++ w) -> written_so_far e st d -> Forall ascii w -> ~ word c ->
  Forall wordly w -> (st = (0, 0)%nat \/ forall c', head (w ++ c :: suf) = Some c' -> word c') ->
  written_so_far (write_span e (d ++ w ++ c :: suf) k) (0, 0)%nat (d ++ w)
  /\ (w = [] -> written_so_far e (0, 0)%nat d).
Proof.
  intros Hs He Hw Ha Hc Hword Hst. destruct w as [|c0 w].
  - assert (st = (0, 0)%nat) as -> by (destruct Hst as [|Hn]; [done|destruct Hc; by apply Hn]).
    rewrite app_nil_r in *. split; [|done].
    destruct (span_nil e (d ++ [] ++ c :: suf) k) as [Eo Ek]; [congruence|]. destruct Hw as (B & Ho & HB & Hk).
    exists B. rewrite Eo. split; [done|]. split; [done|]. by eapply kept_trans.
  - split; [|done]. by eapply word_written.
Qed.

Lemma inv_flushed pre suf e k st c :
  written_so_far e st pre -> end_ k = length pre -> ascii c -> quote c = false -> word c \/ st = (0, 0)%nat ->
  inv (pre ++ [c]) suf (e, advance k (end_ k) (Some c)).
Proof.
  intros Hw He Ha Hq Hc. exists pre, [c], st. split; [done|]. split; [done|]. split.
  { cbn. rewrite He, length_app. cbn. lia. }
  split; [done|]. by apply pending_next.
Qed.

Lemma inv_kept pre suf e k d p st c :
  pre = d ++ p -> start k = length d -> end_ k = length pre -> written_so_far e st d ->
  pending st (head ((p ++ [c]) ++ suf)) (p ++ [c]) (c =? 32) (is_break c) ->
  inv (pre ++ [c]) suf (e, advance k (start k) (Some c)).
Proof.
  intros -> Hs He Hw Hp. exists d, (p ++ [c]), st. rewrite app_assoc. split; [done|]. split; [done|]. split.
  { cbn. rewrite He, !length_app. cbn. lia. }
  done.
Qed.

(** A character of the kind that is pending already. *)
Lemma pending_more st p c suf sp br : ascii c -> quote c = false ->
  pending st (head (p ++ c :: suf)) p sp br ->
  sp = (c =? 32) -> br = (c =? 10) -> pending st (head ((p ++ [c]) ++ suf)) (p ++ [c]) (c =? 32) (is_break c).
Proof.
  intros Ha Hq Hp -> ->. rewrite is_break_ascii, <- app_assoc by done. cbn [app]. revert Hp.
  generalize (head (p ++ c :: suf)). intros next. destruct (Z.eqb_spec c 32) as [->|H32].
  - cbn. inversion 1; subst. rewrite <- replicate_S_end. by apply PSpaces.
  - destruct (Z.eqb_spec c 10) as [->|H10].
    + inversion 1; subst. rewrite <- replicate_S_end. by apply PBreaks.
    + inversion 1; subst. apply PWord; [|done]. apply Forall_app. split; [done|]. by repeat constructor.
Qed.

(** A blank is never followed by one of the other kind. *)
Lemma spaced_next d n b c suf :
  spaced None (d ++ replicate (S n) b ++ c :: suf) -> (b = 32 -> c <> 10) /\ (b = 10 -> c <> 32).
Proof.
  rewrite app_assoc. intros (q & (H1 & H2 & _) & Hl)%spaced_app.
  assert (q = Some b) as ->.
  { rewrite Hl by (by destruct d). by rewrite replicate_S_end, app_assoc, last_snoc. }
  split; intros -> ->; naive_solver.
Qed.

Lemma fold_or_span e k d m suf b :
  start k = length d -> end_ k = length (d ++ replicate (S m) 32) -> written_so_far e (0, 0)%nat d ->
  exists st, written_so_far
    (if bool_decide (start k + 1 = end_ k)%nat && (BEST_WIDTH <? column e) && b then write_indent e
     else write_span e (d ++ replicate (S m) 32 ++ suf) k) st (d ++ replicate (S m) 32).
Proof.
  intros Hs He Hw. case_bool_decide as H1; cbn [andb]; [|eexists; by apply spaces_written].
  assert (m = 0%nat) as -> by (rewrite length_app, length_replicate in He; lia).
  destruct (BEST_WIDTH <? column e) eqn:Hc; cbn [andb]; [|eexists; by apply spaces_written]. bool_prop.
  destruct b; [|eexists; by apply spaces_written]. eexists. by apply fold_written.
Qed.

Lemma plain_turn_inv pre c suf split s : (forall c, quote c = false) ->
  Forall ascii (pre ++ c :: suf) -> spaced None (pre ++ c :: suf) -> inv pre (c :: suf) s ->
  inv (pre ++ [c]) suf (plain_turn (pre ++ c :: suf) split s (Some c)).
Proof.
  intros Hq Ha Hsp (d & p & st & Hpre & Hs & He & Hw & Hp). destruct s as [e k]. cbn [fst snd] in *.
  apply Forall_app in Ha as [Hap [Hac _]%Forall_cons]. assert (Hc : is_break c = (c =? 10)) by by apply is_break_ascii.
  subst pre. assert (Et : (d ++ p) ++ c :: suf = d ++ p ++ c :: suf) by by rewrite <- app_assoc.
  rewrite Et in *. clear Et. unfold plain_turn. pose proof Hp as Hp'.
  destruct (pending_cases _ _ _ _ _ Hp) as [(Es & Ek & -> & m & ->)|[(Es & Ek & -> & m & ->)|(Es & Ek & Hword & Hst)]];
    rewrite Es; [|rewrite Ek..].
  - destruct (Z.eqb_spec c 32) as [->|H32].
    + rewrite bool_decide_eq_false_2 by (intros H; by apply H). eapply inv_kept; [done..|]. by apply (pending_more _ _ _ _ _ _ Hac (Hq _) Hp').
    + rewrite bool_decide_eq_true_2 by congruence. destruct (spaced_next _ _ _ _ _ Hsp) as [Hn _].
      destruct (fold_or_span e k d m (c :: suf) split Hs He Hw) as [st Hw'].
      set (e1 := if _ && _ then _ else _) in *.
      assert (written_so_far (if bool_decide (start k + 1 = end_ k)%nat && (BEST_WIDTH <? column e) && split
        then not_started (write_indent e) else write_span e (d ++ replicate (S m) 32 ++ c :: suf) k) st
        (d ++ replicate (S m) 32)) as Hw2 by (subst e1; by destruct (_ && _)).
      eapply inv_flushed; [exact Hw2|done..|]. left. split; [by apply Hn|done].
  - rewrite Hc. destruct (Z.eqb_spec c 10) as [->|H10]; cbn [negb].
    + eapply inv_kept; [done..|]. by apply (pending_more _ _ _ _ _ _ Hac (Hq _) Hp').
    + destruct (spaced_next _ _ _ _ _ Hsp) as [_ Hn]. eapply inv_flushed; [|done..|].
      * destruct (breaks_written e k d m (c :: suf) Hs He Hw) as (B & HB). by exists B.
      * left. split; [done|by apply Hn].
  - rewrite Hc. destruct ((c =? 32) || (c =? 10)) eqn:Eb.
    + assert (Hnw : ~ word c) by (intros [? ?]; bool_prop; destruct Eb as [Eb|Eb]; bool_prop; lia).
      destruct (word_flushed e k d p c suf st Hs He Hw) as [Hw' _]; [by apply Forall_app in Hap as []|done..|].
      eapply inv_flushed; [done..|by right].
    + bool_prop. eapply inv_kept; [done..|]. apply (pending_more _ _ _ _ _ _ Hac (Hq c) Hp'); [rewrite Es|rewrite Ek]; symmetry; by apply Z.eqb_neq.
Qed.

Lemma plain_turn_end t split s : ~ ends_in 32 t -> Forall ascii t -> inv t [] s ->
  exists st, written_so_far (plain_turn t split s None).1 st t.
Proof.
  intros Hend Ha (d & p & st & -> & Hs & He & Hw & Hp). destruct s as [e k]. cbn [fst snd] in *. unfold plain_turn.
  apply Forall_app in Ha as [_ Ha]. destruct (pending_cases _ _ _ _ _ Hp) as [(Es & Ek & -> & m & ->)|[(Es & Ek & -> & m & ->)|(Es & Ek & Hword & Hst)]];
    rewrite Es; [|rewrite Ek..].
  - destruct Hend. unfold ends_in. by rewrite replicate_S_end, app_assoc, last_snoc.
  - eexists. destruct (breaks_written e k d m [] Hs He Hw) as (B & HB). rewrite app_nil_r in HB. by exists B.
  - destruct p as [|c p].
    + exists st. rewrite app_nil_r in *. cbn [fst]. destruct (span_nil e d k) as [Eo Hk']; [congruence|].
      destruct Hw as (B & Ho & HB & Hk). exists B. rewrite Eo. split; [done|]. split; [done|]. by eapply kept_trans.
    + eexists. cbn [fst]. pose proof (word_written e k d (c :: p) [] st Hs He Hw Hword Ha ltac:(done)) as H.
      rewrite app_nil_r in H. exact H.
Qed.

Lemma single_turn_inv pre c suf split s : (forall c, quote c = (c =? 39)) -> (forall d, tr (d ++ [39]) = tr d ++ [39; 39]) ->
  Forall ascii (pre ++ c :: suf) -> spaced None (pre ++ c :: suf) -> inv pre (c :: suf) s ->
  inv (pre ++ [c]) suf (single_turn (pre ++ c :: suf) split s (Some c)).
Proof.
  intros Hq Htr Ha Hsp (d & p & st & Hpre & Hs & He & Hw & Hp). destruct s as [e k]. cbn [fst snd] in *.
  apply Forall_app in Ha as [Hap [Hac _]%Forall_cons]. assert (Hc : is_break c = (c =? 10)) by by apply is_break_ascii.
  subst pre. assert (Et : (d ++ p) ++ c :: suf = d ++ p ++ c :: suf) by by rewrite <- app_assoc.
  rewrite Et in *. clear Et. pose proof Hp as Hp'.
  (* the quote itself, once the text before it is written *)
  assert (Hquote : forall e1 st1, c = 39 -> written_so_far e1 st1 (d ++ p) ->
    inv ((d ++ p) ++ [c]) suf (write (e1 <| column := column e1 + 2 |>) [39; 39], advance k (S (end_ k)) (Some c))).
  { intros e1 st1 -> (B & Ho & HB & Hk). exists ((d ++ p) ++ [39]), [], (0, 0)%nat. rewrite app_nil_r. split; [done|].
    assert (Hl : length ((d ++ p) ++ [39]) = S (end_ k)) by (rewrite (length_app (d ++ p)), He; cbn; lia).
    cbn [snd fst start end_ advance]. split; [done|]. split; [done|]. split.
    - exists (B ++ [39; 39]). cbn [out write set_field]. rewrite Ho, <- app_assoc. split; [done|]. rewrite Htr.
      split; [|done]. eapply folded_word; [done| |done]. by repeat constructor.
    - apply PWord; [done|by left]. }
  unfold single_turn. destruct (pending_cases _ _ _ _ _ Hp) as [(Es & Ek & -> & m & ->)|[(Es & Ek & -> & m & ->)|(Es & Ek & Hword & Hst)]];
    rewrite Es; [|rewrite Ek..].
  - destruct (Z.eqb_spec c 32) as [->|H32].
    + rewrite bool_decide_eq_false_2 by (intros H; by apply H). rewrite bool_decide_eq_false_2 by done.
      eapply inv_kept; [done..|]. by apply (pending_more _ _ _ _ _ _ Hac (Hq _) Hp').
    + rewrite bool_decide_eq_true_2 by congruence. destruct (spaced_next _ _ _ _ _ Hsp) as [Hn _].
      destruct (fold_or_span e k d m (c :: suf) (split && negb (bool_decide (start k = 0%nat))
        && negb (bool_decide (end_ k = length (d ++ replicate (S m) 32 ++ c :: suf)))) Hs He Hw) as [st Hw'].
      rewrite !andb_assoc in Hw'. set (e1 := if _ && _ then _ else _) in *.
      case_bool_decide as H39; [apply Hquote with st; [congruence|done]|].
      eapply inv_flushed; [exact Hw'|done..| |left; split; [by apply Hn|done]]. rewrite Hq. apply Z.eqb_neq. congruence.
  - rewrite Hc. destruct (Z.eqb_spec c 10) as [->|H10]; cbn [negb].
    + rewrite bool_decide_eq_false_2 by done. eapply inv_kept; [done..|]. by apply (pending_more _ _ _ _ _ _ Hac (Hq _) Hp').
    + destruct (spaced_next _ _ _ _ _ Hsp) as [_ Hn].
      pose proof (breaks_written e k d m (c :: suf) Hs He Hw) as Hb.
      case_bool_decide as H39; [eapply Hquote; [congruence|done]|].
      eapply inv_flushed; [exact Hb|done..| |left; split; [done|by apply Hn]]. rewrite Hq. apply Z.eqb_neq. congruence.
  - rewrite Hc. destruct ((c =? 32) || (c =? 10)) eqn:Eb.
    + assert (Hnw : ~ word c) by (intros [? ?]; bool_prop; destruct Eb as [Eb|Eb]; bool_prop; lia).
      assert (H39 : c <> 39) by (bool_prop; destruct Eb as [Eb|Eb]; bool_prop; lia).
      assert (Hqc : quote c = false) by (rewrite Hq; by apply Z.eqb_neq).
      rewrite (bool_decide_eq_false_2 (Some c = Some 39)) by congruence. cbn [orb andb].
      destruct (word_flushed e k d p c suf st Hs He Hw) as [Hw1 Hw2]; [by apply Forall_app in Hap as []|done..|].
      case_bool_decide as Hlt; [eapply inv_flushed; [done..|by right]|].
      assert (p = []) as -> by (destruct p; [done|rewrite length_app in He; cbn in He; lia]).
      replace (start k) with (end_ k) by (rewrite app_nil_r in He; lia).
      eapply inv_flushed; [rewrite app_nil_r; by apply Hw2|done..|by right].
    + bool_prop. destruct (Z.eqb_spec c 39) as [->|H39]; cbn [orb andb].
      * rewrite (bool_decide_eq_true_2 (Some 39 = Some 39)) by done. destruct p as [|c0 p].
        { rewrite bool_decide_eq_false_2 by (rewrite app_nil_r in He; lia). apply Hquote with st; [done|]. by rewrite app_nil_r. }
        rewrite bool_decide_eq_true_2 by (rewrite length_app in He; cbn in He; lia).
        apply Hquote with (0, 0)%nat; [done|]. eapply word_written; try done. by apply Forall_app in Hap as [].
      * rewrite (bool_decide_eq_false_2 (Some c = Some 39)) by congruence. eapply inv_kept; [done..|].
        assert (Hqc : quote c = false) by (rewrite Hq; by apply Z.eqb_neq).
        apply (pending_more _ _ _ _ _ _ Hac Hqc Hp'); [rewrite Es|rewrite Ek]; symmetry; by apply Z.eqb_neq.
Qed.

Lemma single_turn_end t split s : Forall ascii t -> inv t [] s ->
  exists st, written_so_far (single_turn t split s None).1 st t.
Proof.
  intros Ha (d & p & st & -> & Hs & He & Hw & Hp). destruct s as [e k]. cbn [fst snd] in *. unfold single_turn.
  apply Forall_app in Ha as [_ Ha]. rewrite (bool_decide_eq_false_2 (None = Some 39)) by done.
  destruct (pending_cases _ _ _ _ _ Hp) as [(Es & Ek & -> & m & ->)|[(Es & Ek & -> & m & ->)|(Es & Ek & Hword & Hst)]];
    rewrite Es; [|rewrite Ek..].
  - rewrite (bool_decide_eq_true_2 (None <> Some 32)), (bool_decide_eq_true_2 (end_ k = _)), !andb_false_r by done.
    eexists. pose proof (spaces_written e k d (S m) [] Hs He Hw) as H. rewrite app_nil_r in H. exact H.
  - eexists. pose proof (breaks_written e k d m [] Hs He Hw) as H. rewrite app_nil_r in H. exact H.
  - cbn [andb]. destruct p as [|c p].
    + rewrite app_nil_r in *. rewrite bool_decide_eq_false_2 by lia. eauto.
    + rewrite bool_decide_eq_true_2 by (rewrite length_app in He; cbn in He; lia). eexists.
      pose proof (word_written e k d (c :: p) [] st Hs He Hw Hword Ha ltac:(done)) as H.
      rewrite app_nil_r in H. exact H.
Qed.

Lemma inv_start t e : out e = out e0 -> kept e0 e -> inv [] t (e, cursor_new).
Proof.
  intros Ho Hk. exists [], [], (0, 0)%nat. do 3 (split; [done|]). split; [|apply PWord; [done|by left]].
  exists []. rewrite app_nil_r. split; [done|]. split; [|done]. exists []. split; [done|]. by rewrite tr_id.
Qed.

Lemma inv_loop (turn : Emitter * Cursor -> option Z -> Emitter * Cursor) t :
  (forall pre c suf s, t = pre ++ c :: suf -> inv pre (c :: suf) s -> inv (pre ++ [c]) suf (turn s (Some c))) ->
  forall suf pre s, t = pre ++ suf -> inv pre suf s -> inv t [] (fold_left turn (Some <$> suf) s).
Proof.
  intros Hturn suf. induction suf as [|c suf IH]; intros pre s Ht Hinv; cbn [fmap list_fmap fold_left].
  - by rewrite Ht, app_nil_r.
  - apply (IH (pre ++ [c])); [by rewrite Ht, <- app_assoc|]. by apply Hturn.
Qed.

End folding.

(** ** Lemmas: plain and single-quoted scalars read back *)

Lemma no_lf_spaced t prev : Forall (fun c => c <> 10) t -> prev <> Some 10 -> spaced prev t.
Proof.
  intros Ht. revert prev. induction Ht as [|c t Hc _ IH]; intros prev Hp; [done|]. cbn.
  split; [done|]. split; [done|]. apply IH. congruence.
Qed.

Lemma write_plain_reads e text split i : default 0 (indent e) = i -> 0 <= i <= BEST_WIDTH -> plain_ok text -> text <> [] ->
  exists B, out (write_plain e text split) = out e ++ (if whitespace e then [] else [32]) ++ B
  /\ unfold_lines B = text /\ kept e (write_plain e text split).
Proof.
  intros Hi Hb [Ha Hl He _] Hne. unfold write_plain. rewrite bool_decide_eq_false_2 by done.
  set (e1 := if negb (whitespace e) then _ else e).
  assert (He1 : out e1 = out e ++ (if whitespace e then [] else [32]) /\ kept e e1).
  { subst e1. destruct (whitespace e); cbn [negb]; [by rewrite app_nil_r|done]. }
  destruct He1 as [Ho1 Hk1]. unfold with_end. rewrite fold_left_app. cbn [fold_left].
  assert (Hi1 : default 0 (indent e1) = i) by (destruct Hk1 as [-> _]; done).
  pose proof (inv_loop id (fun _ => false) e1 (plain_turn text split) text) as Hloop.
  assert (Hsp : spaced None text) by by apply no_lf_spaced.
  specialize (Hloop ltac:(intros pre c suf s ->; by eapply plain_turn_inv)).
  specialize (Hloop text [] (not_started e1, cursor_new) eq_refl ltac:(by apply inv_start)).
  destruct (plain_turn_end id (fun _ => false) ltac:(done) ltac:(done) ltac:(done) e1 i Hi1 Hb text split _ He Ha Hloop)
    as (st & B & HoB & HB & Hk).
  exists B. rewrite HoB, Ho1, <- app_assoc. split; [done|]. split; [by eapply folded_unfold|]. by eapply kept_trans.
Qed.

Lemma write_single_reads e text split i : default 0 (indent e) = i -> 0 <= i <= BEST_WIDTH -> single_ok text ->
  exists B, out (write_single_quoted e text split) = out e ++ (if whitespace e then [] else [32]) ++ 39 :: B ++ [39]
  /\ undouble (unfold_lines B) = Some text /\ kept e (write_single_quoted e text split).
Proof.
  intros Hi Hb [Ha Hsp]. unfold write_single_quoted. set (e1 := write_indicator e [39] true false false).
  assert (He1 : out e1 = out e ++ (if whitespace e then [] else [32]) ++ [39] /\ kept e e1).
  { subst e1. unfold write_indicator. cbn [negb]. rewrite orb_false_r. by destruct (whitespace e). }
  destruct He1 as [Ho1 Hk1]. unfold with_end. rewrite fold_left_app. cbn [fold_left].
  assert (Hi1 : default 0 (indent e1) = i) by (destruct Hk1 as [-> _]; done).
  pose proof (inv_loop double_quotes (fun c => c =? 39) e1 (single_turn text split) text) as Hloop.
  assert (Htr : forall p, Forall (fun c => (c =? 39) = false) p -> double_quotes p = p).
  { intros p Hp. apply double_quotes_id. eapply Forall_impl; [exact Hp|]. intros c Hc. by apply Z.eqb_neq. }
  specialize (Hloop ltac:(intros pre c suf s ->; eapply single_turn_inv; try done; [apply double_quotes_app|intros d; apply double_quotes_app])).
  specialize (Hloop text [] (e1, cursor_new) eq_refl ltac:(by apply inv_start)).
  destruct (single_turn_end double_quotes (fun c => c =? 39) ltac:(apply double_quotes_app) Htr ltac:(done) e1 i Hi1 Hb text split _ Ha Hloop)
    as (st & B & HoB & HB & Hk).
  exists B. set (e2 := (single_turn _ _ _ _).1) in *. unfold write_indicator.
  assert (whitespace e2 || negb false = true) as -> by apply orb_true_r. cbn [out write set_field].
  rewrite HoB, Ho1, <- !app_assoc. split; [done|]. rewrite (folded_unfold _ _ _ HB). split; [apply undouble_quotes|].
  by eapply kept_trans.
Qed.

(** ** Lemmas: double-quoted scalars read back *)

Lemma dq_run_app s t m : dq_run m (s ++ t) = '(m1, o1) ← dq_run m s; '(m2, o2) ← dq_run m1 t; Some (m2, o1 ++ o2).
Proof.
  revert m. induction s as [|c s IH]; intros m; cbn [app dq_run].
  - cbn. by destruct (dq_run m t) as [[m2 o2]|].
  - destruct (dq_turn m c) as [[m1 o1]|]; [|done]. cbn. rewrite IH. destruct (dq_run m1 s) as [[m2 o2]|]; [|done]. cbn.
    destruct (dq_run m2 t) as [[m3 o3]|]; [|done]. cbn. by rewrite app_assoc.
Qed.

(** The reader is where the character [next] can stand as it is. *)
Definition ready (m : DMode) (next : option Z) : Prop :=
  m = DNormal \/ (m = DFold /\ next <> Some 32) \/ (m = DEsc /\ next = Some 32).

Definition bare (c : Z) : Prop := needs_escape c = false.

Lemma bare_range c : bare c -> 32 <= c <= 126 /\ c <> 34 /\ c <> 92.
Proof. unfold bare, needs_escape, printable. intros H. bool_prop. repeat split; lia. Qed.

Lemma bare_ascii p : Forall bare p -> Forall ascii p.
Proof.
  intros Hp. eapply Forall_impl; [exact Hp|]. intros c Hc. apply ascii_range. right. by apply bare_range.
Qed.

Lemma dq_run_bare_normal p : Forall bare p -> dq_run DNormal p = Some (DNormal, p).
Proof.
  induction 1 as [|c p Hc _ IH]; [done|]. apply bare_range in Hc as (Hr & H34 & H92). cbn [dq_run dq_turn]. unfold dq_normal.
  rewrite (proj2 (Z.eqb_neq c 92)), (proj2 (Z.eqb_neq c 34)), (proj2 (Z.eqb_neq c 10)) by lia. cbn. by rewrite IH.
Qed.

Lemma dq_run_bare m p : Forall bare p -> p <> [] -> ready m (head p) -> dq_run m p = Some (DNormal, p).
Proof.
  intros Hp Hne Hm. destruct p as [|c p]; [done|]. pose proof (dq_run_bare_normal _ Hp) as Hn.
  destruct Hm as [->|[[-> Hh]|[-> [= ->]]]]; [done| |].
  - rewrite <- Hn. cbn [dq_run dq_turn head] in *. rewrite (proj2 (Z.eqb_neq c 32)) by congruence. done.
  - apply Forall_cons in Hp as [_ Hp]. pose proof (dq_run_bare_normal _ Hp) as Hn'. cbn [dq_run].
    change (dq_turn DEsc 32) with (Some (DNormal, [32])). cbn [mbind option_bind]. by rewrite Hn'.
Qed.

Lemma dq_run_hex n ds acc : length ds = S n -> Forall (fun d => 0 <= d < 16) ds ->
  dq_run (DHex (S n) acc) (digit_char 65 <$> ds) = Some (DNormal, [fold_left (fun acc d => acc * 16 + d) ds acc]).
Proof.
  revert n acc. induction ds as [|d ds IH]; intros n acc Hl Hd; [done|]. apply Forall_cons in Hd as [Hd Hds].
  cbn [fmap list_fmap dq_run dq_turn]. rewrite to_digit_char by (auto; lia). cbn [mbind option_bind].
  destruct n as [|n].
  - destruct ds; [done|discriminate].
  - cbn [Nat.leb Nat.sub]. rewrite ?Nat.sub_0_r. injection Hl as Hl. rewrite (IH n _ Hl Hds). done.
Qed.

Lemma hex_padded k c : 0 <= c < 16 ^ Z.of_nat k -> (0 < k <= 16)%nat ->
  exists ds, zero_pad k (hex_upper c) = digit_char 65 <$> ds /\ length ds = k /\ Forall (fun d => 0 <= d < 16) ds
  /\ fold_left (fun acc d => acc * 16 + d) ds 0 = c.
Proof.
  intros Hc Hk. set (ds := digits 64 16 c).
  assert (Hl : (length ds <= k)%nat) by (apply digits_length; lia).
  exists (replicate (k - length ds) 0 ++ ds). split.
  { unfold zero_pad, hex_upper, radix. fold ds. rewrite length_fmap, fmap_app, fmap_replicate. done. }
  split; [rewrite length_app, length_replicate; lia|]. split.
  { apply Forall_app. split; [apply Forall_replicate; lia|]. apply digits_range. lia. }
  rewrite fold_left_app. assert (H0 : forall n, fold_left (fun acc d => acc * 16 + d) (replicate n 0) 0 = 0).
  { intros n. induction n as [|n IH]; [done|exact IH]. }
  rewrite H0. apply (digits_value 64 16 c); [lia|]. change (Z.of_nat 64) with 64.
  assert (16 ^ Z.of_nat k <= 16 ^ 64) by (apply Z.pow_le_mono_r; lia). lia.
Qed.

Definition scalar_value (c : Z) : Prop := 0 <= c < 0x110000.

Lemma escape_table : Forall (fun kv => dq_turn DEsc kv.2 = Some (DNormal, [kv.1]) /\ ascii kv.2) ESCAPE_REPLACEMENTS.
Proof. repeat (apply Forall_cons; split; [split; [reflexivity|by right]|]). constructor. Qed.

Lemma hex_ascii k c : Forall ascii (zero_pad k (hex_upper c)).
Proof.
  apply Forall_app. split; [by apply Forall_replicate; right|].
  eapply Forall_impl; [apply (radix_range 65 16 c); [by right|lia]|]. intros x Hx. cbn beta in Hx. apply ascii_range. lia.
Qed.

Lemma escape_reads c m : scalar_value c -> m = DNormal \/ m = DFold ->
  dq_run m (escape c) = Some (DNormal, [c]) /\ Forall ascii (escape c).
Proof.
  intros Hc Hm.
  assert (Hesc : forall s o, dq_run DEsc s = Some (DNormal, o) -> dq_run m (92 :: s) = Some (DNormal, o)).
  { intros s o Hs. cbn [dq_run]. assert (dq_turn m 92 = Some (DEsc, [])) as -> by by destruct Hm as [-> | ->].
    cbn. by rewrite Hs. }
  assert (Hhex : forall k, (0 < k <= 16)%nat -> c < 16 ^ Z.of_nat k -> forall x, dq_turn DEsc x = Some (DHex k 0, []) ->
    dq_run m (92 :: x :: zero_pad k (hex_upper c)) = Some (DNormal, [c])).
  { intros k Hk Hck x Hx. apply Hesc. cbn [dq_run]. rewrite Hx. cbn [mbind option_bind].
    unfold scalar_value in Hc. destruct (hex_padded k c) as (ds & -> & Hl & Hds & Hv); [lia|done|].
    destruct k as [|k]; [lia|]. rewrite dq_run_hex by done. cbn. by rewrite Hv. }
  unfold escape. destruct (find _ _) as [[k r]|] eqn:E.
  - apply find_some in E as [Hin Hk]. cbn in Hk. bool_prop. subst k. pose proof escape_table as Ht.
    rewrite List.Forall_forall in Ht. destruct (Ht _ Hin) as [Hr Ha]. split; [|apply Forall_cons; split; [by right|by apply Forall_singleton]].
    apply Hesc. cbn [dq_run snd fst] in *. by rewrite Hr.
  - assert (Ha : forall x k, ascii x -> Forall ascii (92 :: x :: zero_pad k (hex_upper c))).
    { intros x k Hx. constructor; [by right|]. constructor; [done|apply hex_ascii]. }
    unfold scalar_value in Hc. destruct (c <=? 0xff) eqn:E1; [|destruct (c <=? 0xffff) eqn:E2]; bool_prop;
      (split; [apply Hhex; [lia|lia|reflexivity]|apply Ha; by right]).
Qed.

Lemma dq_run_fold m n : m = DNormal \/ m = DFold -> dq_run m (92 :: 10 :: replicate n 32) = Some (DFold, []).
Proof.
  intros Hm. cbn [dq_run]. assert (dq_turn m 92 = Some (DEsc, [])) as -> by by destruct Hm as [-> | ->].
  cbn [mbind option_bind]. change (dq_turn DEsc 10) with (Some (DFold, @nil Z)). cbn [mbind option_bind].
  assert (dq_run DFold (replicate n 32) = Some (DFold, [])) as ->; [|done].
  induction n as [|n IH]; [done|]. cbn [replicate dq_run dq_turn]. cbn. by rewrite IH.
Qed.

Section double.
Context (e0 : Emitter) (i : Z) (Hind : default 0 (indent e0) = i) (Hi : 0 <= i < BEST_WIDTH).

(** What has been written reads as [d] and leaves the reader in mode [m]. *)
Definition dq_written (e : Emitter) (m : DMode) (d : list Z) : Prop :=
  exists B, out e = out e0 ++ B /\ dq_run DNormal B = Some (m, d) /\ kept e0 e /\ indention e = false.

(** A break right after a space escaped at the start of a line would take its
    backslash: there is room on the line. *)
Definition dinv (pre suf : list Z) (s : Emitter * Cursor) : Prop :=
  exists d p m, pre = d ++ p /\ start s.2 = length d /\ end_ s.2 = length pre
  /\ dq_written s.1 m d /\ Forall bare p /\ ready m (head (p ++ suf))
  /\ (m = DEsc -> p = [] -> column s.1 <= BEST_WIDTH).

Lemma dq_append e m d s m' o e' : dq_written e m d -> dq_run m s = Some (m', o) -> out e' = out e ++ s ->
  kept e e' -> indention e' = false -> dq_written e' m' (d ++ o).
Proof.
  intros (B & Ho & HB & Hk & _) Hs Ho' Hk' Hn. exists (B ++ s). rewrite Ho', Ho, <- app_assoc. split; [done|].
  rewrite dq_run_app, HB. cbn. rewrite Hs. cbn. split; [done|]. split; [by eapply kept_trans|done].
Qed.

Lemma dq_span e m k d p suf : start k = length d -> end_ k = length (d ++ p) -> dq_written e m d -> Forall bare p ->
  p <> [] -> ready m (head (p ++ suf)) -> dq_written (write_span e (d ++ p ++ suf) k) DNormal (d ++ p).
Proof.
  intros Hs He Hw Hp Hne Hm. eapply dq_append; [exact Hw| | | |].
  - apply dq_run_bare; [done|done|]. by destruct p.
  - unfold write_span. cbn [out write set_field]. rewrite Hs, He, slice_middle, as_bytes_ascii; [done|]. by apply bare_ascii.
  - done.
  - by destruct Hw as (B & _ & _ & _ & Hn).
Qed.

Lemma dq_escape e m c d x : dq_written e m d -> scalar_value c -> m = DNormal \/ m = DFold ->
  dq_written (write (e <| column := x |>) (escape c)) DNormal (d ++ [c]).
Proof.
  intros Hw Hc Hm. destruct (escape_reads c m Hc Hm) as [Hr Ha]. eapply dq_append; [exact Hw|exact Hr| | |].
  - cbn [out write set_field]. by rewrite as_bytes_ascii.
  - done.
  - by destruct Hw as (B & _ & _ & _ & Hn).
Qed.

(** The fold: a backslash, a new line, and a backslash again before a space. *)
Definition fold_line (e : Emitter) (data : list Z) (space : bool) : Emitter :=
  let e := not_started (write_indent (write (e <| column := column e + Z.of_nat (length data) |>) data)) in
  if space then write (e <| column := column e + 1 |>) [92] else e.

Lemma dq_fold e m d p next : dq_written e m d -> Forall bare p -> ready m (head (p ++ [92])) ->
  let e' := fold_line e (p ++ [92]) (bool_decide (next = Some 32)) in
  exists m', dq_written e' m' (d ++ p) /\ ready m' next /\ (m' = DEsc -> column e' <= BEST_WIDTH).
Proof.
  intros Hw Hp Hm. cbv zeta. pose proof Hw as (B & Ho & HB & Hk & Hn).
  set (e1 := write (e <| column := column e + Z.of_nat (length (p ++ [92])) |>) (p ++ [92])).
  assert (Ha : Forall ascii (p ++ [92])).
  { apply Forall_app. split; [by apply bare_ascii|]. apply Forall_singleton. by right. }
  assert (Ho1 : out e1 = out e ++ p ++ [92]) by (cbn [e1 out write set_field]; by rewrite as_bytes_ascii).
  destruct (write_indent_fold e1 i) as [Hout Hcol]; [rewrite <- Hind; f_equal; exact (proj1 Hk)|lia|by left|].
  set (e2 := not_started (write_indent e1)).
  assert (Hw2 : dq_written e2 DFold (d ++ p)).
  { eapply (dq_append _ _ _ (p ++ 92 :: 10 :: replicate (Z.to_nat i) 32)); [exact Hw| | | |done].
    - destruct p as [|c p].
      + cbn [app]. apply dq_run_fold. destruct Hm as [->|[[-> _]|[_ Hh]]]; auto; discriminate.
      + rewrite dq_run_app, dq_run_bare by done. cbn [mbind option_bind]. rewrite dq_run_fold by auto. cbn. by rewrite app_nil_r.
    - cbn [e2 not_started out set_field]. rewrite Hout, Ho1. by rewrite <- !app_assoc.
    - eapply (kept_trans _ e1); [done|]. apply write_indent_kept. }
  unfold fold_line. fold e1 e2. case_bool_decide as H32.
  - exists DEsc. split; [|split; [by right; right|]].
    + rewrite <- (app_nil_r (d ++ p)). eapply (dq_append e2 _ _ [92]); [exact Hw2|done..].
    + intros _. change (column e2 + 1 <= BEST_WIDTH). change (column (write_indent e1) + 1 <= BEST_WIDTH). lia.
  - exists DFold. split; [done|]. split; [by right; left|done].
Qed.

Lemma double_turn_inv pre c suf split s : scalar_value c -> dinv pre (c :: suf) s ->
  dinv (pre ++ [c]) suf (double_turn (pre ++ c :: suf) split s (Some c)).
Proof.
  intros Hc (d & p & m & -> & Hs & He & Hw & Hp & Hm & Hcol). destruct s as [e k]. cbn [fst snd] in *.
  assert (Et : (d ++ p) ++ c :: suf = d ++ p ++ c :: suf) by by rewrite <- app_assoc.
  assert (Hend : length ((d ++ p) ++ [c]) = S (end_ k)) by (rewrite (length_app (d ++ p)), He; cbn; lia).
  rewrite Et. unfold double_turn. destruct (needs_escape c) eqn:Ec.
  - (* the text before, then the escape *)
    set (e1 := if bool_decide (start k < end_ k)%nat then write_span e (d ++ p ++ c :: suf) k else e).
    assert (H1 : exists m1, dq_written e1 m1 (d ++ p) /\ (m1 = DNormal \/ m1 = DFold)).
    { subst e1. destruct p as [|c0 p].
      - rewrite app_nil_r in *. rewrite bool_decide_eq_false_2 by lia. exists m. split; [done|].
        destruct Hm as [->|[[-> _]|[-> [= ->]]]]; auto. discriminate.
      - rewrite bool_decide_eq_true_2 by (rewrite length_app in He; cbn in He; lia). exists DNormal. split; [|by left].
        by eapply dq_span. }
    destruct H1 as (m1 & Hw1 & Hm1).
    assert ((if bool_decide (start k < end_ k)%nat then (write_span e (d ++ p ++ c :: suf) k, end_ k) else (e, start k))
      = (e1, if bool_decide (start k < end_ k)%nat then end_ k else start k)) as ->
      by (subst e1; by destruct (bool_decide _)).
    set (e2 := write (e1 <| column := _ |>) (escape c)).
    assert (Hw2 : dq_written e2 DNormal ((d ++ p) ++ [c])) by by eapply dq_escape.
    cbn [start end_]. rewrite (bool_decide_eq_false_2 (S (end_ k) < end_ k)%nat) by lia.
    assert (slice (S (end_ k)) (end_ k) (d ++ p ++ c :: suf) = []) as ->
      by (unfold slice; by replace (end_ k - S (end_ k))%nat with 0%nat by lia).
    assert (Hnext : (d ++ p ++ c :: suf) !! S (end_ k) = head suf).
    { replace (d ++ p ++ c :: suf) with (((d ++ p) ++ [c]) ++ suf) by by rewrite <- !app_assoc.
      rewrite <- Hend. apply lookup_middle. }
    rewrite Hnext. destruct (_ && split).
    + destruct (dq_fold e2 DNormal ((d ++ p) ++ [c]) [] (head suf) Hw2) as (m' & Hw' & Hr & Hx); [done|by left|].
      rewrite app_nil_r in Hw'. exists ((d ++ p) ++ [c]), [], m'. rewrite app_nil_r.
      cbn [fst snd start end_ advance]. rewrite <- Hend. do 3 (split; [done|]).
      split; [exact Hw'|]. split; [done|]. split; [exact Hr|]. intros Hm' _. exact (Hx Hm').
    + exists ((d ++ p) ++ [c]), [], DNormal. rewrite app_nil_r.
      cbn [fst snd start end_ advance]. rewrite <- Hend. do 5 (split; [done|]). split; [by left|done].
  - (* a character that stands for itself *)
    cbn [start end_]. assert (Hpc : Forall bare (p ++ [c])) by (apply Forall_app; split; [done|by apply Forall_singleton]).
    assert (Hsl : slice (start k) (end_ k) (d ++ p ++ c :: suf) = p) by (rewrite Hs, He; apply slice_middle).
    rewrite Hsl. assert (Hnext : (d ++ p ++ c :: suf) !! end_ k = Some c).
    { rewrite <- Et, He. apply (lookup_middle (d ++ p) (c :: suf)). }
    assert (Hstart : (if bool_decide (start k < end_ k)%nat then end_ k else start k) = end_ k).
    { case_bool_decide; [done|]. rewrite length_app in He. lia. }
    rewrite Hstart, Hnext. destruct (_ && split) eqn:Ef.
    + rewrite !andb_true_iff, Z.ltb_lt in Ef. destruct Ef as [[_ Hwide] _].
      assert (Hready : ready m (head (p ++ [92]))).
      { destruct p as [|c0 p]; [|done]. rewrite app_nil_r in *. cbn [app head] in *.
        destruct Hm as [->|[[-> _]|[-> _]]]; [by left|right; left; by split|]. exfalso.
        specialize (Hcol eq_refl eq_refl). lia. }
      destruct (dq_fold e m d p (Some c) Hw Hp Hready) as (m' & Hw' & Hr & _).
      exists (d ++ p), [c], m'. cbn [fst snd start end_ advance]. rewrite Hend. split; [done|]. split; [done|].
      split; [done|]. split; [exact Hw'|]. split; [by apply Forall_singleton|]. by split.
    + exists d, (p ++ [c]), m. rewrite app_assoc. do 4 (split; [done|]). split; [done|]. split.
      * rewrite <- app_assoc. exact Hm.
      * intros _ Hnil. by destruct p.
Qed.

Lemma double_turn_end t split s : dinv t [] s ->
  exists m, dq_written (double_turn t split s None).1 m t /\ (m = DNormal \/ m = DFold).
Proof.
  intros (d & p & m & -> & Hs & He & Hw & Hp & Hm & _). destruct s as [e k]. cbn [fst snd] in *. unfold double_turn.
  cbn [start end_ snd]. rewrite (bool_decide_eq_false_2 (end_ k < length (d ++ p) - 1)%nat), !andb_false_r by lia.
  cbn [andb]. rewrite app_nil_r in Hm. destruct p as [|c p].
  - rewrite app_nil_r in *. rewrite (bool_decide_eq_false_2 (start k < end_ k)%nat) by lia. cbn [fst].
    rewrite ?andb_false_r. exists m. split; [done|]. destruct Hm as [->|[[-> _]|[_ [=]]]]; auto.
  - rewrite (bool_decide_eq_true_2 (start k < end_ k)%nat) by (rewrite length_app in He; cbn in He; lia). cbn [fst].
    exists DNormal. split; [|by left]. pose proof (dq_span e m k d (c :: p) [] Hs He Hw Hp ltac:(done)) as H.
    rewrite !app_nil_r in H. by apply H.
Qed.

End double.

Lemma write_double_reads e text split i : default 0 (indent e) = i -> 0 <= i < BEST_WIDTH -> Forall scalar_value text ->
  exists B, out (write_double_quoted e text split) = out e ++ (if whitespace e then [] else [32]) ++ 34 :: B ++ [34]
  /\ dq_read B = Some text /\ kept e (write_double_quoted e text split).
Proof.
  intros Hi Hb Ht. unfold write_double_quoted. set (e1 := write_indicator e [34] true false false).
  assert (He1 : out e1 = out e ++ (if whitespace e then [] else [32]) ++ [34] /\ kept e e1 /\ indention e1 = false).
  { subst e1. unfold write_indicator. cbn [negb]. rewrite orb_false_r.
    cbn [out write set_field indention]. rewrite andb_false_r. by destruct (whitespace e). }
  destruct He1 as (Ho1 & Hk1 & Hn1). unfold with_end. rewrite fold_left_app. cbn [fold_left].
  assert (Hi1 : default 0 (indent e1) = i) by (destruct Hk1 as [-> _]; done).
  assert (Hloop : forall suf pre s, text = pre ++ suf -> dinv e1 pre suf s ->
    dinv e1 text [] (fold_left (double_turn text split) (Some <$> suf) s)).
  { induction suf as [|c suf IH]; intros pre s Hts Hinv; cbn [fmap list_fmap fold_left]; [by rewrite Hts, app_nil_r|].
    apply (IH (pre ++ [c])); [by rewrite Hts, <- app_assoc|]. subst text.
    apply Forall_app in Ht as [_ [Hc _]%Forall_cons]. by eapply double_turn_inv. }
  specialize (Hloop text [] (e1, cursor_new) eq_refl). destruct (double_turn_end e1 text split _ (Hloop ltac:(
    exists [], [], DNormal; do 3 (split; [done|]); split; [exists []; rewrite app_nil_r; done|];
    split; [done|]; split; [by left|done]))) as (m & (B & HoB & HB & Hk & _) & Hm).
  exists B. set (e2 := (double_turn _ _ _ _).1) in *. unfold write_indicator.
  assert (whitespace e2 || negb false = true) as -> by apply orb_true_r. cbn [out write set_field].
  rewrite HoB, Ho1, <- !app_assoc. split; [done|]. split; [|by eapply kept_trans].
  unfold dq_read. rewrite HB. by destruct Hm as [-> | ->].
Qed.

(** ** Lemmas: every scalar reads back *)

Lemma between_quotes_body q B : between_quotes q (q :: B ++ [q]) = Some B.
Proof.
  unfold between_quotes. rewrite Z.eqb_refl, last_snoc, bool_decide_eq_true_2 by done. cbn [andb].
  rewrite length_app, Nat.add_sub, take_app_length. done.
Qed.

Lemma unfold_head c B : word c -> head (unfold_lines (c :: B)) = Some c.
Proof.
  intros Hc. unfold unfold_lines. cbn [fold_run]. rewrite fold_turn_word by done.
  by destruct (fold_run (0, 0)%nat B) as [st o].
Qed.

(** Room for the indentation: about forty levels. *)
Definition indent_ok (e : Emitter) : Prop := match indent e with None => True | Some j => 0 <= j < BEST_WIDTH - BEST_INDENT end.

Lemma emit_scalar_reads e text tag simple_key e' : emit_scalar e text tag simple_key = Some e' -> indent_ok e ->
  Forall scalar_value text -> (text = [] -> tag <> TNull) ->
  (resolve_plain text = Some tag -> allow_block_plain (analyze_scalar text) = true -> resolve text = tag) ->
  exists body style, out e' = out e ++ (if whitespace e then [] else [32]) ++ body /\ kept e e'
  /\ style = choose_style (analyze_scalar text) (bool_decide (resolve_plain (as_bytes text) = Some tag)) simple_key
  /\ read_scalar body = Some (text, match style with Plain => tag | _ => TStr end).
Proof.
  unfold emit_scalar. destruct (resolve_plain (as_bytes text)) as [resolved|] eqn:Er; [|done].
  cbn [mbind option_bind]. intros He Hi Ht Hne Hres.
  set (e1 := increase_indent e true false) in *.
  assert (Hi1 : 0 <= default 0 (indent e1) < BEST_WIDTH).
  { subst e1. unfold indent_ok in Hi. cbn [increase_indent indent set_field]. unfold BEST_WIDTH, BEST_INDENT in *.
    destruct (indent e); cbn; lia. }
  assert (Hpop : forall e2 e', pop_indent e2 = Some e' -> kept e1 e2 -> out e' = out e2 /\ kept e e').
  { intros e2 e2' Hp [_ Hk]. unfold pop_indent in Hp. rewrite Hk in Hp. injection Hp as <-. done. }
  assert (Hd : bool_decide (Some resolved = Some tag) = bool_decide (resolved = tag))
    by (apply bool_decide_ext; split; congruence).
  rewrite Hd. set (style := choose_style _ _ _) in *.
  assert (Hw : whitespace e1 = whitespace e /\ out e1 = out e) by done. destruct Hw as [Ew Eo].
  destruct style eqn:Es; subst style; unfold choose_style in Es.
  - destruct (bool_decide (resolved = tag)) eqn:Eb; cbn [andb] in Es; [|by destruct (_ && _)]. bool_prop. subst tag.
    assert (Hal : allow_block_plain (analyze_scalar text) = true)
      by (destruct (allow_block_plain _); [done|]; rewrite andb_false_r in Es; by destruct (_ && _)).
    pose proof (analyze_plain _ Hal) as Hp.
    assert (Hn : text <> []) by (intros ->; cbn in Er; injection Er as <-; by apply Hne).
    destruct (write_plain_reads e1 text (negb simple_key) _ eq_refl ltac:(lia) Hp Hn) as (B & Ho & HB & Hk).
    destruct (Hpop _ _ He Hk) as [Ho' Hk']. exists B, Plain. rewrite Ho', Ho, Ew, Eo. split; [done|]. split; [done|].
    split; [done|]. destruct Hp as [Ha _ _ Hpl]. specialize (Hpl Hn). rewrite as_bytes_ascii in Er by done.
    specialize (Hres Er Hal). destruct B as [|c B]; [by rewrite <- HB in Hn|].
    assert (c <> 39 /\ c <> 34) as [Hc1 Hc2].
    { split; intros ->; [pose proof (unfold_head 39 B ltac:(by split)) as Eh|pose proof (unfold_head 34 B ltac:(by split)) as Eh];
        rewrite HB in Eh; (destruct text as [|t0 text]; [done|injection Eh as ->; discriminate Hpl]). }
    unfold read_scalar. rewrite HB, Hpl, Hres. repeat (case_match; try done; try lia).
  - assert (Hs : single_ok text) by (apply analyze_single; by destruct (_ && _ && _), (allow_single_quoted _)).
    destruct (write_single_reads e1 text (negb simple_key) _ eq_refl ltac:(lia) Hs) as (B & Ho & HB & Hk).
    destruct (Hpop _ _ He Hk) as [Ho' Hk']. exists (39 :: B ++ [39]), Single. rewrite Ho', Ho, Ew, Eo. split; [done|].
    split; [done|]. split; [done|]. unfold read_scalar. rewrite between_quotes_body. cbn [mbind option_bind]. by rewrite HB.
  - destruct (write_double_reads e1 text (negb simple_key) _ eq_refl Hi1 Ht) as (B & Ho & HB & Hk).
    destruct (Hpop _ _ He Hk) as [Ho' Hk']. exists (34 :: B ++ [34]), Double. rewrite Ho', Ho, Ew, Eo. split; [done|].
    split; [done|]. split; [done|]. unfold read_scalar. rewrite between_quotes_body. cbn [mbind option_bind]. by rewrite HB.
Qed.

(** ** Lemmas: numbers are written plain and resolve to themselves *)

Definition numeric (c : Z) : Prop := 48 <= c <= 57 \/ c = 45 \/ c = 46.

Lemma numeric_scan c first last followed s : numeric c -> first = false \/ 48 <= c <= 57 \/ (c = 45 /\ followed = false) ->
  let s' := scan_char first last followed c s in
  block_indicators s' = block_indicators s /\ line_breaks s' = line_breaks s
  /\ special_characters s' = special_characters s /\ leading_space s' = leading_space s
  /\ leading_break s' = leading_break s /\ trailing_space s' = trailing_space s /\ trailing_break s' = trailing_break s
  /\ break_space s' = break_space s /\ space_break s' = space_break s.
Proof.
  intros Hc Hf. assert (Hs : (c =? 32) = false /\ is_break c = false /\ (c =? 10) || printable c = true).
  { unfold is_break, printable. unfold numeric in Hc.
    rewrite !orb_true_iff, !orb_false_iff, andb_true_iff, !Z.eqb_neq, !Z.leb_le. lia. }
  destruct Hs as (Hs & Hb & Hp). assert (Hi : (indicators first (preceded_by_whitespace s) followed c).2 = false).
  { assert (Hin : c = 45 \/ c = 46 \/ c = 48 \/ c = 49 \/ c = 50 \/ c = 51 \/ c = 52 \/ c = 53 \/ c = 54 \/ c = 55 \/ c = 56 \/ c = 57)
      by (unfold numeric in Hc; lia).
    repeat (destruct Hin as [->|Hin]; [|]); try subst c;
      (destruct first; [destruct Hf as [|[|[_ ->]]]; try done; try lia|]; try by destruct followed). }
  unfold scan_char. destruct (indicators _ _ _ _) as [fl bl]. cbn in Hi. subst bl. cbn. rewrite Hs, Hb, Hp. cbn.
  by rewrite !orb_false_r.
Qed.

Lemma numeric_scan_chars cs s : Forall numeric cs ->
  let s' := scan_chars false cs s in
  block_indicators s' = block_indicators s /\ line_breaks s' = line_breaks s
  /\ special_characters s' = special_characters s /\ leading_space s' = leading_space s
  /\ leading_break s' = leading_break s /\ trailing_space s' = trailing_space s /\ trailing_break s' = trailing_break s
  /\ break_space s' = break_space s /\ space_break s' = space_break s.
Proof.
  intros Hcs. revert s. induction Hcs as [|c cs Hc _ IH]; intros s; cbv zeta; [done|]. cbn [scan_chars].
  set (s1 := scan_char _ _ _ _ _). specialize (IH s1). cbv zeta in IH.
  pose proof (numeric_scan c false (bool_decide (cs = [])) (match cs with [] => true | d :: _ => is_ws d end) s Hc
    ltac:(by left)) as H1. fold s1 in H1. cbv zeta in H1. naive_solver congruence.
Qed.

(** An optional minus sign, a digit, and more of the kind. *)
Definition number_text (t : list Z) : Prop :=
  exists sign d ds, t = sign ++ d :: ds /\ (sign = [] \/ sign = [45]) /\ 48 <= d <= 57 /\ Forall numeric ds.

Lemma number_allow_plain t : number_text t -> allow_block_plain (analyze_scalar t) = true.
Proof.
  intros (sign & d & ds & -> & Hsign & Hd & Hds). unfold analyze_scalar.
  rewrite bool_decide_eq_false_2 by (by destruct sign). cbn [allow_block_plain]. apply negb_true_iff.
  assert (Hstart : block_indicators (scan_start (sign ++ d :: ds)) = false).
  { cbn [scan_start block_indicators]. unfold starts_with. change (lit "---") with [45; 45; 45].
    change (lit "...") with [46; 46; 46]. destruct Hsign as [-> | ->]; cbn [app strip_prefix].
    - rewrite (proj2 (Z.eqb_neq 45 d)), (proj2 (Z.eqb_neq 46 d)) by lia. done.
    - change (45 =? 45) with true. change (46 =? 45) with false. cbv iota. rewrite (proj2 (Z.eqb_neq 45 d)) by lia. done. }
  assert (Hdn : numeric d) by (by left).
  destruct Hsign as [-> | ->]; cbn [app scan_chars].
  - set (s1 := scan_char _ _ _ _ _). pose proof (numeric_scan_chars ds s1 Hds) as Hr. cbv zeta in Hr.
    pose proof (numeric_scan d true (bool_decide (ds = [])) (match ds with [] => true | d0 :: _ => is_ws d0 end)
      (scan_start (d :: ds)) Hdn ltac:(auto)) as H1. fold s1 in H1. cbv zeta in H1. cbn [app] in Hstart.
    destruct Hr as (-> & -> & -> & -> & -> & -> & -> & -> & ->), H1 as (-> & -> & -> & -> & -> & -> & -> & -> & ->).
    by rewrite Hstart.
  - set (s1 := scan_char true _ _ 45 _). set (s2 := scan_char false _ _ d s1).
    pose proof (numeric_scan_chars ds s2 Hds) as Hr. cbv zeta in Hr.
    pose proof (numeric_scan d false (bool_decide (ds = [])) (match ds with [] => true | d0 :: _ => is_ws d0 end)
      s1 Hdn ltac:(auto)) as H2. fold s2 in H2. cbv zeta in H2.
    assert (Hws : is_ws d = false).
    { unfold is_ws, is_break. rewrite !orb_false_iff, !Z.eqb_neq. lia. }
    pose proof (numeric_scan 45 true (bool_decide (d :: ds = [])) (is_ws d)
      (scan_start (45 :: d :: ds)) ltac:(right; by left) ltac:(auto)) as H1. fold s1 in H1. cbv zeta in H1. cbn [app] in Hstart.
    destruct Hr as (-> & -> & -> & -> & -> & -> & -> & -> & ->), H2 as (-> & -> & -> & -> & -> & -> & -> & -> & ->),
      H1 as (-> & -> & -> & -> & -> & -> & -> & -> & ->). by rewrite Hstart.
Qed.

(** No number is one of the words. *)
Lemma number_not_word t : number_text t ->
  existsb (fun w => bool_decide (t = lit w)) NULL_WORDS = false
  /\ existsb (fun w => bool_decide (t = lit w)) BOOL_WORDS = false.
Proof.
  intros (sign & d & ds & -> & Hsign & Hd & _).
  assert (Hw : forall w, match lit w with c :: _ => (57 <? c) = true | [] => False end -> sign ++ d :: ds <> lit w).
  { intros w Hw E. rewrite <- E in Hw. destruct Hsign as [-> | ->]; cbn in Hw; bool_prop; lia. }
  split; cbn [existsb NULL_WORDS BOOL_WORDS]; repeat rewrite bool_decide_eq_false_2 by (apply Hw; reflexivity); done.
Qed.

Lemma number_resolve t int : number_text t -> int_re t = Some int ->
  resolve_plain t = Some (if int then TInt else if float_re t then TFloat else if timestamp_re t then TOther else TStr).
Proof.
  intros Ht Hint. destruct (number_not_word t Ht) as [Hn Hb]. destruct Ht as (sign & d & ds & -> & Hsign & Hd & _).
  assert (Hlead : exists b0 r, sign ++ d :: ds = b0 :: r /\ is_digit b0 || one_of "-+." b0 = true).
  { destruct Hsign as [-> | ->]; eexists _, _; (split; [reflexivity|]); [|done].
    unfold is_digit. rewrite (proj2 (Z.leb_le 48 d)), (proj2 (Z.leb_le d 57)) by lia. done. }
  destruct Hlead as (b0 & r & E & Hl). unfold resolve_plain. rewrite E in *. rewrite Hn, Hb, Hl, Hint. done.
Qed.

Lemma strip_sign sign d ds : (sign = [] \/ sign = [45]) -> 48 <= d <= 57 ->
  default (sign ++ d :: ds) (strip_one_of "-+" (sign ++ d :: ds)) = d :: ds.
Proof.
  intros Hs Hd. destruct Hs as [-> | ->]; [|done]. cbn [app strip_one_of]. unfold one_of.
  change (lit "-+") with [45; 43]. cbn [existsb]. rewrite (proj2 (Z.eqb_neq d 45)), (proj2 (Z.eqb_neq d 43)) by lia. done.
Qed.

Definition digit (c : Z) : Prop := 48 <= c <= 57.

Lemma digit_is_digit c : digit c -> is_digit c = true.
Proof. intros [? ?]. unfold is_digit. by rewrite (proj2 (Z.leb_le 48 c)), (proj2 (Z.leb_le c 57)) by lia. Qed.

Lemma forallb_digits p ds : (forall c, digit c -> p c = true) -> Forall digit ds -> forallb p ds = true.
Proof. intros Hp Hds. induction Hds as [|c ds Hc _ IH]; [done|]. cbn. by rewrite Hp, IH. Qed.

(** The prefixes and the colon that the tests for special forms look for. *)
Lemma int_re_decimal sign d ds : (sign = [] \/ sign = [45]) -> digit d -> Forall numeric ds ->
  int_re (sign ++ d :: ds)
  = Some (if (d =? 48) && negb (bool_decide (ds = [])) then forallb (fun c => ((48 <=? c) && (c <=? 55)) || (c =? 95)) ds
          else if bool_decide (d :: ds = [48]) then true
          else ((49 <=? d) && (d <=? 57)) && forallb (fun c => is_digit c || (c =? 95)) (d :: ds)).
Proof.
  intros Hs Hd Hds. unfold int_re. rewrite strip_sign by done. change (lit "0b") with [48; 98]. change (lit "0x") with [48; 120].
  assert (Hp : forall x, x = 98 \/ x = 120 -> strip_prefix [48; x] (d :: ds) = None).
  { intros x Hx. cbn [strip_prefix]. destruct (48 =? d); [|done]. destruct Hds as [|c ds Hc _]; [done|].
    rewrite (proj2 (Z.eqb_neq x c)); [done|]. unfold numeric in Hc. lia. }
  rewrite !Hp by auto. assert (existsb (Z.eqb 58) (d :: ds) = false) as ->.
  { apply not_true_iff_false. intros (c & Hin & Hc)%existsb_exists. bool_prop. subst c.
    destruct Hin as [->|Hin]; [unfold digit in Hd; lia|]. rewrite List.Forall_forall in Hds.
    specialize (Hds _ Hin). unfold numeric in Hds. lia. }
  by destruct ((d =? 48) && _); [|destruct (bool_decide _)].
Qed.

Lemma digit_numeric ds : Forall digit ds -> Forall numeric ds.
Proof. intros H. eapply Forall_impl; [exact H|]. intros c Hc. by left. Qed.

(** Integers. *)
Lemma integer_resolves sign d ds : (sign = [] \/ sign = [45]) -> digit d -> Forall digit ds -> (d = 48 -> ds = []) ->
  resolve_plain (sign ++ d :: ds) = Some TInt.
Proof.
  intros Hs Hd Hds H0. rewrite (number_resolve _ true); [done| |].
  - exists sign, d, ds. by repeat (split; [done|]); apply digit_numeric.
  - rewrite int_re_decimal by (done || by apply digit_numeric). f_equal. destruct (Z.eqb_spec d 48) as [->|Hn].
    + by rewrite H0.
    + cbn [andb]. rewrite bool_decide_eq_false_2 by congruence. unfold digit in Hd.
      rewrite (proj2 (Z.leb_le 49 d)), (proj2 (Z.leb_le d 57)) by lia. cbn [andb].
      apply forallb_digits; [|by constructor]. intros c Hc. by rewrite digit_is_digit.
Qed.

Lemma numeric_no_e c : numeric c -> one_of "eE" c = false.
Proof.
  intros Hc. unfold one_of. change (lit "eE") with [101; 69]. cbn [existsb].
  rewrite orb_false_r, orb_false_iff, !Z.eqb_neq. unfold numeric in Hc. lia.
Qed.

(** Floats in fixed notation. *)
Lemma fixed_resolves sign d ds fs : (sign = [] \/ sign = [45]) -> digit d -> Forall digit ds -> Forall digit fs ->
  resolve_plain (sign ++ d :: ds ++ 46 :: fs) = Some TFloat.
Proof.
  intros Hs Hd Hds Hfs. assert (Hn : Forall numeric (ds ++ 46 :: fs)).
  { apply Forall_app. split; [by apply digit_numeric|]. constructor; [by right; right|by apply digit_numeric]. }
  assert (Hdot : forall p, p 46 = false -> forallb p (ds ++ 46 :: fs) = false).
  { intros p Hp. rewrite forallb_app. cbn. by rewrite Hp, andb_false_r. }
  rewrite (number_resolve _ false); [|by exists sign, d, (ds ++ 46 :: fs)|].
  - assert (float_re (sign ++ d :: ds ++ 46 :: fs) = true) as ->; [|done]. unfold float_re. rewrite strip_sign by done.
    destruct (existsb _ _); [done|]. destruct (existsb _ _); [done|].
    assert (existsb (Z.eqb 46) (d :: ds ++ 46 :: fs) = true) as ->.
    { apply existsb_exists. exists 46. split; [|done]. right. apply in_app_iff. right. by left. }
    cbn [negb]. rewrite split_once_none.
    2:{ constructor; [by apply numeric_no_e; left|]. eapply Forall_impl; [exact Hn|]. apply numeric_no_e. }
    cbn [negb]. change (d :: ds ++ 46 :: fs) with ((d :: ds) ++ 46 :: fs). rewrite split_once_at; [|..|done].
    + rewrite digit_is_digit by done. rewrite !forallb_digits; [done| |done| |by constructor];
        intros c Hc; by rewrite digit_is_digit.
    + constructor; [|eapply Forall_impl; [exact Hds|]; intros c Hc]; apply Z.eqb_neq; unfold digit in *; lia.
  - rewrite int_re_decimal by done. f_equal. rewrite (bool_decide_eq_false_2 (ds ++ _ = [])) by (by destruct ds).
    cbn [negb]. rewrite andb_true_r. destruct (d =? 48); [by apply Hdot|].
    rewrite bool_decide_eq_false_2 by (by destruct ds). cbn [forallb]. rewrite (Hdot (fun c => is_digit c || (c =? 95))) by done.
    by rewrite !andb_false_r.
Qed.

(** ** Lemmas: printed numbers *)

Lemma dec_digits n : 0 <= n < 10 ^ 64 ->
  exists d ds, dec n = d :: ds /\ digit d /\ Forall digit ds /\ (d = 48 -> ds = []).
Proof.
  intros Hn. assert (Hd : forall fuel k, Forall digit (digit_char 97 <$> digits fuel 10 k)).
  { intros fuel k. apply Forall_fmap. eapply Forall_impl; [apply (digits_range fuel 10 k); lia|].
    intros x Hx. cbn beta in Hx. unfold compose, digit, digit_char. rewrite (proj2 (Z.ltb_lt x 10)) by lia. lia. }
  assert (Hlead : forall fuel k, 0 < k < 10 ^ Z.of_nat fuel -> exists x xs, digits fuel 10 k = x :: xs /\ 0 < x < 10).
  { induction fuel as [|fuel IH]; intros k Hk; [simpl in Hk; lia|]. cbn [digits].
    rewrite Nat2Z.inj_succ, Z.pow_succ_r in Hk by lia. pose proof (Z.div_mod k 10 ltac:(lia)).
    pose proof (Z.mod_pos_bound k 10 ltac:(lia)). destruct (k / 10 =? 0) eqn:E; bool_prop.
    - exists (k mod 10), []. split; [done|lia].
    - destruct (IH (k / 10)) as (x & xs & -> & Hx); [split; [|apply Z.div_lt_upper_bound; lia]|by exists x, (xs ++ [k mod 10])].
      assert (0 <= k / 10) by (apply Z.div_pos; lia). lia. }
  unfold dec, radix. specialize (Hd 64%nat n). destruct (decide (n = 0)) as [->|Hne].
  { exists 48, []. split; [reflexivity|]. split; [unfold digit; lia|]. by split. }
  destruct (Hlead 64%nat n) as (x & xs & E & Hx); [change (Z.of_nat 64) with 64; lia|]. rewrite E in *.
  apply Forall_cons in Hd as [Hd1 Hd2]. exists (digit_char 97 x), (digit_char 97 <$> xs). do 3 (split; [done|]).
  unfold digit_char. rewrite (proj2 (Z.ltb_lt x 10)) by lia. lia.
Qed.

Lemma to_string_number z : - 2 ^ 63 <= z < 2 ^ 64 ->
  exists sign d ds, to_string z = sign ++ d :: ds /\ (sign = [] \/ sign = [45]) /\ digit d /\ Forall digit ds /\ (d = 48 -> ds = []).
Proof.
  intros Hz. unfold to_string. destruct (z <? 0) eqn:E; bool_prop.
  - destruct (dec_digits (- z)) as (d & ds & -> & H); [lia|]. exists [45], d, ds. split; [done|]. split; [by right|done].
  - destruct (dec_digits z) as (d & ds & -> & H); [lia|]. exists [], d, ds. split; [done|]. split; [by left|done].
Qed.

(** ** The documents *)

(** Integers in range and strings of characters: what a [Value] can hold; and
    no string that the resolver takes for one but a reader does not. *)
Definition scalar_ok (v : Value) : Prop :=
  match v with
  | VNumber (NInt z) => - 2 ^ 63 <= z < 2 ^ 64
  | VString s => Forall scalar_value s /\ misread s = false
  | _ => True
  end.

(** [Display] of a finite f64: an optional sign, digits, and a fraction when
    there is one; never an exponent. *)
Class DisplayF64 (display : spec_float -> list Z) := display_decimal f : is_finite f = true ->
  exists sign d ds frac, display f = sign ++ d :: ds ++ frac /\ (sign = [] \/ sign = [45]) /\ digit d /\ Forall digit ds
  /\ (frac = [] \/ exists fs, frac = 46 :: fs /\ Forall digit fs).

Section documents.
Context (display : spec_float -> list Z) `{DisplayF64 display}.

Lemma format_float_number f : is_finite f = true ->
  exists sign d ds fs, format_float display f = sign ++ d :: ds ++ 46 :: fs /\ (sign = [] \/ sign = [45])
  /\ digit d /\ Forall digit ds /\ Forall digit fs.
Proof.
  intros Hf. destruct (display_decimal f Hf) as (sign & d & ds & frac & E & Hs & Hd & Hds & Hfr).
  assert (Hff : format_float display f
    = if negb (existsb (one_of ".eE") (display f)) then display f ++ lit ".0" else display f) by by destruct f.
  rewrite Hff. destruct Hfr as [->|(fs & -> & Hfs)].
  - rewrite app_nil_r in E. assert (existsb (one_of ".eE") (display f) = false) as ->.
    { apply not_true_iff_false. intros (c & Hin & Hc)%existsb_exists. unfold one_of in Hc.
      change (lit ".eE") with [46; 101; 69] in Hc. cbn in Hc. rewrite orb_false_r, !orb_true_iff, !Z.eqb_eq in Hc.
      rewrite E in Hin. apply in_app_iff in Hin as [Hin|[->|Hin]]; [|unfold digit in Hd; lia|].
      - destruct Hs as [-> | ->]; [done|]. destruct Hin as [<-|[]]. lia.
      - rewrite List.Forall_forall in Hds. specialize (Hds _ Hin). unfold digit in Hds. lia. }
    cbn [negb]. rewrite E. exists sign, d, ds, [48]. rewrite <- app_assoc. split; [done|]. do 3 (split; [done|]).
    by apply Forall_singleton.
  - assert (existsb (one_of ".eE") (display f) = true) as ->.
    { apply existsb_exists. exists 46. split; [|done]. rewrite E. apply in_app_iff. right. right. apply in_app_iff. right. by left. }
    cbn [negb]. rewrite E. by exists sign, d, ds, fs.
Qed.

(** What is not a string is written plain. *)
Lemma scalar_plain v text tag : scalar_repr display v = Some (text, tag) -> scalar_ok v -> tag <> TStr ->
  allow_block_plain (analyze_scalar text) = true /\ resolve_plain (as_bytes text) = Some tag /\ resolve text = tag
  /\ Forall scalar_value text /\ text <> [].
Proof.
  assert (Hb : forall t, Forall ascii t -> as_bytes t = t /\ Forall scalar_value t).
  { intros t Ht. split; [by apply as_bytes_ascii|]. eapply Forall_impl; [exact Ht|].
    intros c Hc%ascii_range. unfold scalar_value. lia. }
  assert (Hlit : forall t, bool_decide (Forall (fun c => 0 <= c < 0x110000) t) = true -> Forall scalar_value t)
    by (intros t; apply bool_decide_eq_true_1).
  assert (Hn : forall sign d ds, (sign = [] \/ sign = [45]) -> digit d -> Forall numeric ds -> Forall ascii (sign ++ d :: ds)).
  { intros sign d ds Hs Hd Hds. apply Forall_app. split; [destruct Hs as [-> | ->]; [done|apply Forall_singleton; by right]|].
    constructor; [apply ascii_range; unfold digit in Hd; lia|]. eapply Forall_impl; [exact Hds|].
    intros c Hc. apply ascii_range. unfold numeric in Hc. lia. }
  destruct v as [|[]|[z|f]|s|l|l|t v]; cbn [scalar_repr]; intros E; try discriminate; injection E as <- <-; intros Hok Htag; try done.
  - by split; [|split; [|split; [|split; [apply Hlit|]]]].
  - by split; [|split; [|split; [|split; [apply Hlit|]]]].
  - by split; [|split; [|split; [|split; [apply Hlit|]]]].
  - destruct (to_string_number z Hok) as (sign & d & ds & -> & Hs & Hd & Hds & H0).
    pose proof (Hn _ _ _ Hs Hd (digit_numeric _ Hds)) as Ha. destruct (Hb _ Ha) as [-> Hsv].
    split; [|split; [by apply integer_resolves|split; [by apply resolve_integer|split; [done|by destruct sign]]]].
    apply number_allow_plain. exists sign, d, ds. do 3 (split; [done|]). by apply digit_numeric.
  - destruct (is_finite f) eqn:Ef.
    + destruct (format_float_number f Ef) as (sign & d & ds & fs & -> & Hs & Hd & Hds & Hfs).
      assert (Hnum : Forall numeric (ds ++ 46 :: fs)).
      { apply Forall_app. split; [by apply digit_numeric|]. constructor; [by right; right|by apply digit_numeric]. }
      pose proof (Hn _ _ _ Hs Hd Hnum) as Ha. destruct (Hb _ Ha) as [-> Hsv].
      split; [|split; [by apply fixed_resolves|split; [by apply resolve_fixed|split; [done|by destruct sign]]]].
      apply number_allow_plain. by exists sign, d, (ds ++ 46 :: fs).
    + destruct f as [| [] | |]; try discriminate Ef; by split; [|split; [|split; [|split; [apply Hlit|]]]].
Qed.

(** The writer of a scalar and the reader agree on text and tag. *)
Lemma emit_value_reads v text tag e e' : scalar_repr display v = Some (text, tag) -> scalar_ok v -> indent_ok e ->
  emit_scalar e text tag false = Some e' ->
  exists body, out e' = out e ++ (if whitespace e then [] else [32]) ++ body /\ kept e e'
  /\ read_scalar body = Some (text, tag).
Proof.
  intros Hr Hok Hi He. destruct (decide (tag = TStr)) as [->|Ht].
  - assert (Hs : Forall scalar_value text /\ misread text = false) by (destruct v as [|[]|[]|s|l|l|]; try discriminate Hr; by injection Hr as ->).
    destruct Hs as [Hs Hm]. destruct (emit_scalar_reads _ _ _ _ _ He Hi Hs) as (body & style & Ho & Hk & _ & Hrd);
      [done|intros Hp _; by apply resolver_string|].
    exists body. split; [done|]. split; [done|]. by destruct style.
  - destruct (scalar_plain v text tag Hr Hok Ht) as (Hp & Hres & Hrd' & Hs & Hne).
    destruct (emit_scalar_reads _ _ _ _ _ He Hi Hs) as (body & style & Ho & Hk & Hst & Hrd); [done..|].
    exists body. split; [done|]. split; [done|]. rewrite bool_decide_eq_true_2 in Hst by done.
    unfold choose_style in Hst. rewrite Hp in Hst. cbn in Hst. by subst style.
Qed.

End documents.

(** ** Lemmas: the emitter leaves the indentation as it found it *)

Lemma write_span_kept e chars k : kept e (write_span e chars k).
Proof. done. Qed.

Lemma write_breaks_kept e chars k : kept e (write_breaks e chars k).
Proof.
  unfold write_breaks. eapply kept_trans; [|apply write_indent_kept].
  eapply kept_trans; [|apply iter_line_break_out]. by case_goal.
Qed.

Lemma fold_turns_kept {A} (turn : Emitter * Cursor -> A -> Emitter * Cursor) l s :
  (forall s a, kept s.1 (turn s a).1) -> kept s.1 (fold_left turn l s).1.
Proof.
  intros Ht. revert s. induction l as [|a l IH]; intros s; [done|]. cbn [fold_left]. eapply kept_trans; [apply Ht|apply IH].
Qed.

Lemma plain_turn_kept chars split s ch : kept s.1 (plain_turn chars split s ch).1.
Proof.
  destruct s as [e k]. unfold plain_turn. repeat case_goal; cbn [fst]; try done;
    first [apply (write_breaks_kept e chars k)|apply (write_indent_kept e)].
Qed.

Lemma single_turn_kept chars split s ch : kept s.1 (single_turn chars split s ch).1.
Proof.
  destruct s as [e k]. unfold single_turn.
  assert (H1 : forall e1 (n1 : nat) b, kept e e1 ->
    kept e ((let '(e2, st) := if b : bool then (write (e1 <| column := column e1 + 2 |>) [39; 39], S (end_ k)) else (e1, n1) in
             (e2, advance k st ch)).1)) by (intros e1 n1 []; done).
  destruct (if spaces k then _ else _) as [e1 n1] eqn:E. apply H1. revert E.
  repeat case_goal; intros [= <- _]; try done; try apply write_indent_kept; apply write_breaks_kept.
Qed.

Lemma fold_line_kept e data space : kept e (fold_line e data space).
Proof.
  set (e1 := write (e <| column := column e + Z.of_nat (length data) |>) data).
  assert (H1 : kept e (not_started (write_indent e1))) by exact (write_indent_kept e1).
  unfold fold_line. fold e1. by destruct space.
Qed.

Lemma double_turn_kept chars split s ch : kept s.1 (double_turn chars split s ch).1.
Proof.
  destruct s as [e k]. unfold double_turn. destruct (if match ch with Some c => needs_escape c | None => true end then _ else _) as [e1 n1] eqn:E.
  assert (H1 : kept e e1).
  { revert E. destruct (match ch with Some c => needs_escape c | None => true end); [|by intros [= <- _]].
    destruct (bool_decide _), ch; by intros [= <- _]. }
  cbn [start end_]. destruct (_ && split); [|done]. cbn [fst]. eapply kept_trans; [exact H1|]. apply (fold_line_kept e1 _ _).
Qed.

Lemma emit_scalar_kept e text tag simple_key :
  match emit_scalar e text tag simple_key with
  | Some e' => kept e e' /\ is_Some (resolve_plain (as_bytes text))
  | None => resolve_plain (as_bytes text) = None
  end.
Proof.
  unfold emit_scalar. destruct (resolve_plain _) as [r|]; [|done]. cbn [mbind option_bind].
  set (e1 := increase_indent e true false).
  assert (Hk : forall e2, kept e1 e2 -> match pop_indent e2 with Some e' => kept e e' /\ is_Some (Some r) | None => False end).
  { intros e2 [_ Hk]. unfold pop_indent. by rewrite Hk. }
  set (e2 := match choose_style _ _ _ with Plain => _ | _ => _ end). assert (H2 : kept e1 e2).
  { subst e2. destruct (choose_style _ _ _).
    - unfold write_plain. destruct (bool_decide _); [done|]. set (e3 := if negb _ then _ else e1).
      eapply kept_trans; [|apply fold_turns_kept; intros s a; apply plain_turn_kept]. subst e3. by case_goal.
    - unfold write_single_quoted. set (e3 := (fold_left _ _ _).1). apply (kept_trans _ e3); [|done]. subst e3.
      eapply kept_trans; [|apply fold_turns_kept; intros s a; apply single_turn_kept]. done.
    - unfold write_double_quoted. set (e3 := (fold_left _ _ _).1). apply (kept_trans _ e3); [|done]. subst e3.
      eapply kept_trans; [|apply fold_turns_kept; intros s a; apply double_turn_kept]. done. }
  specialize (Hk e2 H2). by destruct (pop_indent e2).
Qed.
