(* ===== verification/YamlDoc.v ===== *)
(** * Whole documents ([emit_yaml])

    When the emitter panics, exactly; that the document written does not
    depend on the order in which the keys of a mapping were given.  [YamlSpec]
    has the scalars. *)

From Stdlib Require Import ZArith Lia String Floats.SpecFloat.
From stdpp Require Import base numbers strings list sorting.
From S2P Require Import Prelude.
From S2P Require Import Text.
From S2P Require Import Yaml.
From S2P Require Import YamlSpec.

Open Scope Z_scope.

(** ** Induction on documents *)

Section Value_nested.
Context (P : Value -> Prop).
Context (Pnull : P VNull) (Pbool : forall b, P (VBool b)) (Pnumber : forall n, P (VNumber n)) (Pstring : forall s, P (VString s)).
Context (Pseq : forall l, Forall P l -> P (VSequence l)) (Pmap : forall m, Forall (fun kv => P kv.2) m -> P (VMapping m)).
Context (Ptag : forall t v, P v -> P (VTagged t v)).

Fixpoint Value_nested (v : Value) : P v :=
  match v with
  | VNull => Pnull
  | VBool b => Pbool b
  | VNumber n => Pnumber n
  | VString s => Pstring s
  | VSequence l => Pseq l ((fix go l := match l return Forall P l with [] => Forall_nil_2 _ | v :: l => Forall_cons_2 _ _ _ (Value_nested v) (go l) end) l)
  | VMapping m => Pmap m ((fix go m := match m return Forall (fun kv => P kv.2) m with
      | [] => Forall_nil_2 _ | kv :: m => Forall_cons_2 _ _ _ (match kv return P kv.2 with (k, v) => Value_nested v end) (go m) end) m)
  | VTagged t v => Ptag t v (Value_nested v)
  end.
End Value_nested.

(** ** What a document is made of *)

Section texts.
Context (display : spec_float -> list Z).

Definition key_text (k : Value) : list Z :=
  match k with VString s => s | other => default [] (fst <$> scalar_repr display other) end.

(** Every text that is written: the keys and the scalars. *)
Fixpoint texts (v : Value) : list (list Z) :=
  match v with
  | VMapping m => concat (map (fun '(k, v) => key_text k :: texts v) m)
  | VSequence l => concat (map texts l)
  | VTagged _ v => texts v
  | scalar => match scalar_repr display scalar with Some (t, _) => [t] | None => [] end
  end.
End texts.

(** The texts the resolver panics on: a sign and a colon. *)
Definition panics (t : list Z) : bool :=
  match t with 45 :: 58 :: _ | 43 :: 58 :: _ => true | _ => false end.

(** ** Lemmas: when the resolver panics *)

Lemma panics_spec t : panics t = true <-> exists s r, (s = 45 \/ s = 43) /\ t = s :: 58 :: r.
Proof.
  split.
  - unfold panics. intros Ht. repeat (case_match; try done); subst; eauto 7.
  - intros (s & r & [-> | ->] & ->); done.
Qed.

Lemma split_first c s : (split_char c s).1 = [] <-> (s = [] \/ exists r, s = c :: r).
Proof.
  destruct s as [|b s]; cbn [split_char]; [naive_solver|]. destruct (split_char c s) as [f r].
  destruct (Z.eqb_spec b c) as [->|Hb]; cbn; naive_solver.
Qed.

Lemma int_re_None s : int_re s = None <-> exists r, default s (strip_one_of "-+" s) = 58 :: r.
Proof.
  unfold int_re. set (t := default s _). split.
  - destruct t as [|t0 tr] eqn:Et; [done|]. destruct (strip_prefix (lit "0b") _); [done|].
    destruct (strip_prefix (lit "0x") _); [done|].
    destruct (existsb (Z.eqb 58) (t0 :: tr)); [|by repeat case_goal].
    pose proof (split_first 58 (t0 :: tr)) as Hf. destruct (split_char 58 (t0 :: tr)) as [first parts]. cbn [fst] in Hf.
    destruct first as [|b first]; [|by repeat case_goal]. intros _. destruct (proj1 Hf eq_refl) as [|[r E]]; [done|]. eauto.
  - intros [r ->]. change (lit "0b") with [48; 98]. change (lit "0x") with [48; 120]. cbn [strip_prefix].
    change (existsb (Z.eqb 58) (58 :: r)) with true. cbv iota. pose proof (proj2 (split_first 58 (58 :: r)) ltac:(eauto)) as Hf.
    destruct (split_char 58 (58 :: r)) as [first parts]. cbn [fst] in Hf. by subst first.
Qed.

Lemma resolve_plain_None b : resolve_plain b = None <-> panics b = true.
Proof.
  rewrite panics_spec. destruct b as [|b0 r]; cbn [resolve_plain]; [naive_solver|]. split.
  - destruct (existsb _ NULL_WORDS); [done|]. destruct (existsb _ BOOL_WORDS); [done|].
    destruct (is_digit b0 || one_of "-+." b0) eqn:El; [|done].
    destruct (int_re (b0 :: r)) as [[]|] eqn:Ei; [done|by repeat case_goal|]. intros _.
    apply int_re_None in Ei as [r' Ei]. cbn [strip_one_of] in Ei. destruct (one_of "-+" b0) eqn:Eo; simpl in Ei.
    + unfold one_of in Eo. change (lit "-+") with [45; 43] in Eo. cbn in Eo. rewrite orb_false_r, orb_true_iff, !Z.eqb_eq in Eo.
      exists b0, r'. split; [done|]. by subst r.
    + injection Ei as -> ->. done.
  - intros (s & r' & Hs & [= -> ->]).
    assert (existsb (fun w => bool_decide (s :: 58 :: r' = lit w)) NULL_WORDS = false
      /\ existsb (fun w => bool_decide (s :: 58 :: r' = lit w)) BOOL_WORDS = false) as [-> ->].
    { assert (Hw : forall w, match lit w with c :: _ => (57 <? c) = true | [] => False end -> s :: 58 :: r' <> lit w).
      { intros w Hw E. rewrite <- E in Hw. destruct Hs as [-> | ->]; done. }
      split; cbn [existsb NULL_WORDS BOOL_WORDS]; repeat rewrite bool_decide_eq_false_2 by (apply Hw; reflexivity); done. }
    assert (is_digit s || one_of "-+." s = true) as -> by (by destruct Hs as [-> | ->]).
    assert (int_re (s :: 58 :: r') = None) as ->; [|done]. apply int_re_None. exists r'. by destruct Hs as [-> | ->].
Qed.

(** UTF-8 keeps ASCII characters apart from the rest. *)
Lemma utf8_char_ascii c : c < 0x80 -> utf8_char c = [c].
Proof. intros Hc. unfold utf8_char. by rewrite (proj2 (Z.ltb_lt c 0x80)). Qed.

Lemma utf8_char_high c : 0x80 <= c -> exists b bs, utf8_char c = b :: bs /\ 0x80 <= b.
Proof.
  intros Hc. unfold utf8_char. rewrite (proj2 (Z.ltb_ge c 0x80)) by done.
  assert (Hs : forall k, 0 <= Z.shiftr c k) by (intros; apply Z.shiftr_nonneg; lia).
  pose proof (Hs 6). pose proof (Hs 12). pose proof (Hs 18).
  destruct (c <? 0x800), (c <? 0x10000); eexists _, _; (split; [reflexivity|lia]).
Qed.

Lemma as_bytes_head b t : b < 0x80 -> (exists r, as_bytes t = b :: r) <-> exists r, t = b :: r.
Proof.
  intros Hb. split.
  - intros [r E]. destruct t as [|c t]; [done|]. unfold as_bytes in E. cbn [mbind list_bind] in E.
    destruct (decide (c < 0x80)) as [Hc|Hc].
    + rewrite utf8_char_ascii in E by done. cbn in E. injection E as -> _. eauto.
    + destruct (utf8_char_high c ltac:(lia)) as (b' & bs & Ec & Hb'). rewrite Ec in E. injection E as -> _. lia.
  - intros [r ->]. unfold as_bytes. cbn [mbind list_bind]. rewrite utf8_char_ascii by done. cbn. eauto.
Qed.

Lemma panics_as_bytes t : panics (as_bytes t) = panics t.
Proof.
  apply eq_true_iff_eq. rewrite !panics_spec.
  assert (Hstep : forall s t, s < 0x80 -> as_bytes (s :: t) = s :: as_bytes t).
  { intros s t' Hs. unfold as_bytes. cbn [mbind list_bind]. by rewrite utf8_char_ascii by done. }
  split; intros (s & r & Hs & E).
  - destruct (proj1 (as_bytes_head s t ltac:(lia)) ltac:(eauto)) as [r1 ->]. rewrite Hstep in E by lia. injection E as E.
    destruct (proj1 (as_bytes_head 58 r1 ltac:(lia)) ltac:(eauto)) as [r2 ->]. eauto.
  - subst t. exists s. rewrite !Hstep by lia. eauto.
Qed.

(** ** Lemmas: the sorted mapping *)

Section sort.
Context {A B : Type}.

Lemma insert_by_perm (x : list Z * A) l : insert_by x l ≡ₚ x :: l.
Proof.
  induction l as [|y l IH]; [done|]. cbn. destruct (bytes_leb _ _); [done|]. rewrite IH. constructor.
Qed.

Lemma sort_by_key_perm (l : list (list Z * A)) : sort_by_key l ≡ₚ l.
Proof. induction l as [|x l IH]; [done|]. cbn. by rewrite insert_by_perm, IH. Qed.

Definition on_value (f : A -> B) (kv : list Z * A) : list Z * B := (kv.1, f kv.2).

(** Sorting looks at the keys alone. *)
Lemma sort_by_key_map (f : A -> B) l : sort_by_key (on_value f <$> l) = on_value f <$> sort_by_key l.
Proof.
  induction l as [|x l IH]; [done|]. cbn [fmap list_fmap sort_by_key foldr]. unfold sort_by_key in IH. rewrite IH.
  generalize (foldr insert_by [] l). intros k. induction k as [|y k IHk]; [done|]. cbn. by destruct (bytes_leb _ _); [|rewrite IHk].
Qed.

Definition key_le (x y : list Z * A) : Prop := bytes_leb (as_bytes x.1) (as_bytes y.1) = true.

Lemma insert_by_sorted x l : Sorted key_le l -> Sorted key_le (insert_by x l).
Proof.
  induction 1 as [|y l Hs IH Hhd]; cbn; [by repeat constructor|]. destruct (bytes_leb _ _) eqn:E; [by repeat constructor|].
  constructor; [done|]. assert (Hyx : key_le y x) by (destruct (bytes_leb_total (as_bytes x.1) (as_bytes y.1)); [congruence|done]).
  destruct l as [|z l]; [by constructor|]. cbn. destruct (bytes_leb (as_bytes x.1) (as_bytes z.1)); constructor; [done|].
  by inversion Hhd.
Qed.

Lemma sort_by_key_sorted (l : list (list Z * A)) : StronglySorted key_le (sort_by_key l).
Proof.
  apply Sorted_StronglySorted; [intros x y z; apply bytes_leb_trans|].
  induction l as [|x l IH]; [constructor|]. by apply insert_by_sorted.
Qed.

(** A list with distinct keys has one sorted arrangement. *)
Lemma sorted_unique (l l' : list (list Z * A)) : l ≡ₚ l' -> NoDup ((as_bytes ∘ fst) <$> l) ->
  StronglySorted key_le l -> StronglySorted key_le l' -> l = l'.
Proof.
  revert l'. induction l as [|x l IH]; intros l' Hp Hd Hs Hs'; [by apply Permutation_nil_l in Hp|].
  inversion Hs as [|?? Hs1 Hx]; subst. destruct l' as [|y l']; [by apply Permutation_nil_r in Hp|].
  inversion Hs' as [|?? Hs1' Hy]; subst. cbn in Hd. apply NoDup_cons in Hd as [Hnx Hd].
  assert (Exy : x = y).
  { assert (Hin : y ∈ x :: l) by (rewrite Hp; by left). assert (Hin' : x ∈ y :: l') by (rewrite <- Hp; by left).
    apply elem_of_cons in Hin as [->|Hin]; [done|]. apply elem_of_cons in Hin' as [->|Hin']; [done|].
    rewrite Forall_forall in Hx, Hy. specialize (Hx _ Hin). specialize (Hy _ Hin').
    pose proof (bytes_leb_antisym _ _ Hx Hy) as E. destruct Hnx. rewrite E. by apply (list_elem_of_fmap_2 (as_bytes ∘ fst)). }
  subst y. f_equal. apply IH; [by eapply Permutation_cons_inv|done..].
Qed.

Lemma sort_by_key_unique (l l' : list (list Z * A)) : l ≡ₚ l' -> NoDup ((as_bytes ∘ fst) <$> l) ->
  sort_by_key l = sort_by_key l'.
Proof.
  intros Hp Hd. apply sorted_unique.
  - by rewrite !sort_by_key_perm.
  - by rewrite sort_by_key_perm.
  - apply sort_by_key_sorted.
  - apply sort_by_key_sorted.
Qed.

End sort.

(** Related values under the same keys stay related. *)
Section related.
Context {A : Type} (R : A -> A -> Prop).

Definition same_key (x y : list Z * A) : Prop := x.1 = y.1 /\ R x.2 y.2.

Lemma insert_by_Forall2 x y l l' : same_key x y -> Forall2 same_key l l' -> Forall2 same_key (insert_by x l) (insert_by y l').
Proof.
  intros Hxy. induction 1 as [|a b k k' Hab Hk IHk]; cbn; [by constructor|].
  rewrite (proj1 Hxy), (proj1 Hab). destruct (bytes_leb _ _); constructor; try done. by constructor.
Qed.

Lemma sort_by_key_Forall2 l l' : Forall2 same_key l l' -> Forall2 same_key (sort_by_key l) (sort_by_key l').
Proof. induction 1 as [|x y l l' Hxy _ IH]; [constructor|]. by apply insert_by_Forall2. Qed.

End related.

Section documents.
Context (display : spec_float -> list Z).

Definition keyed {A} (m : list (Value * A)) : list (list Z * A) := (fun '(k, v) => (key_text display k, v)) <$> m.

Lemma sorted_keys_keyed {A} (m : list (Value * A)) : sorted_keys display m = sort_by_key (keyed m).
Proof. done. Qed.

Lemma keyed_map {A B} (f : A -> B) (m : list (Value * A)) :
  keyed (map (fun '(k, v) => (k, f v)) m) = on_value f <$> keyed m.
Proof. unfold keyed. induction m as [|[k v] m IH]; [done|]. cbn in *. by rewrite IH. Qed.

(** One entry of a mapping, and one item of a sequence. *)
Definition emit_entry (e : Emitter) (kv : list Z * Value) : option Emitter :=
  e ← emit_scalar (write_indent e) kv.1 TStr true; emit_node display kv.2 true (write_indicator e [58] false false false).

Definition emit_item (e : Emitter) (v : Value) : option Emitter :=
  emit_node display v false (write_indicator (write_indent e) [45] true false true).

Lemma foldM_map {E A B} (f : E -> B -> option E) (g : A -> B) l e : foldM f (map g l) e = foldM (fun e a => f e (g a)) l e.
Proof. revert e. induction l as [|a l IH]; intros e; [done|]. cbn. destruct (f e (g a)); [apply IH|done]. Qed.

Lemma foldM_ext {E A} (f g : E -> A -> option E) l e : (forall e a, f e a = g e a) -> foldM f l e = foldM g l e.
Proof. intros Hfg. revert e. induction l as [|a l IH]; intros e; [done|]. cbn. rewrite Hfg. destruct (g e a); [apply IH|done]. Qed.

Lemma emit_mapping_eq m mp e : m <> [] -> emit_node display (VMapping m) mp e
  = (e ← foldM emit_entry (sort_by_key (keyed m)) (increase_indent e false false); pop_indent e).
Proof.
  intros Hm. destruct m as [|kv m]; [done|]. set (l := kv :: m). cbn [emit_node]. unfold emit_block_mapping.
  change (map _ (kv :: m)) with (map (fun '(k, v) => (k, emit_node display v true)) l). rewrite sorted_keys_keyed.
  rewrite keyed_map.
  rewrite sort_by_key_map. f_equal. rewrite foldM_map. by apply foldM_ext.
Qed.

Lemma emit_sequence_eq l mp e : l <> [] -> emit_node display (VSequence l) mp e
  = (e ← foldM emit_item l (increase_indent e false (mp && negb (indention e))); pop_indent e).
Proof.
  intros Hl. destruct l as [|v l]; [done|]. set (s := v :: l). cbn [emit_node]. unfold emit_block_sequence.
  change (map _ (v :: l)) with (map (fun v => emit_node display v false) s). f_equal. rewrite foldM_map. by apply foldM_ext.
Qed.

(** ** Lemmas: when the emitter panics *)

Lemma foldM_total {A} (f : Emitter -> A -> option Emitter) (bad : A -> bool) l :
  Forall (fun a => forall e, match f e a with Some e' => kept e e' /\ bad a = false | None => bad a = true end) l ->
  forall e, match foldM f l e with Some e' => kept e e' /\ existsb bad l = false | None => existsb bad l = true end.
Proof.
  induction 1 as [|a l Ha _ IH]; intros e; cbn [foldM existsb]; [done|]. specialize (Ha e).
  destruct (f e a) as [e1|]; cbn [mbind option_bind]; [|by rewrite Ha]. destruct Ha as [Hk ->]. cbn [orb].
  specialize (IH e1). destruct (foldM f l e1); [|done]. destruct IH. split; [by eapply kept_trans|done].
Qed.

(** A collection, between [increase_indent] and [pop_indent]. *)
Lemma nested_total {A} (f : Emitter -> A -> option Emitter) (bad : A -> bool) l e fl il :
  Forall (fun a => forall e, match f e a with Some e' => kept e e' /\ bad a = false | None => bad a = true end) l ->
  match e ← foldM f l (increase_indent e fl il); pop_indent e with
  | Some e' => kept e e' /\ existsb bad l = false
  | None => existsb bad l = true
  end.
Proof.
  intros Hl. pose proof (foldM_total f bad l Hl (increase_indent e fl il)) as H.
  destruct (foldM f l _) as [e1|]; cbn [mbind option_bind]; [|done]. destruct H as [[_ Hk] Hb].
  unfold pop_indent. rewrite Hk. done.
Qed.

Lemma existsb_concat {A B} (p : B -> bool) (f : A -> list B) l : existsb p (concat (map f l)) = existsb (fun a => existsb p (f a)) l.
Proof. induction l as [|a l IH]; [done|]. cbn. by rewrite existsb_app, IH. Qed.

Lemma existsb_perm {A} (p : A -> bool) l l' : l ≡ₚ l' -> existsb p l = existsb p l'.
Proof.
  intros Hp. apply eq_true_iff_eq. rewrite !existsb_exists. split; intros (x & Hin & Hx); exists x; (split; [|done]);
    apply list_elem_of_In; apply list_elem_of_In in Hin; [by rewrite <- Hp|by rewrite Hp].
Qed.

(** A text of an entry makes the emitter panic. *)
Definition entry_panics (kv : list Z * Value) : bool := panics kv.1 || existsb panics (texts display kv.2).

Lemma mapping_panics m : existsb panics (texts display (VMapping m)) = existsb entry_panics (sort_by_key (keyed m)).
Proof.
  rewrite (existsb_perm _ _ _ (sort_by_key_perm (keyed m))). cbn [texts]. rewrite existsb_concat.
  unfold keyed. induction m as [|[k v] m IH]; [done|]. cbn [existsb map fmap list_fmap]. unfold fmap in IH. by rewrite IH.
Qed.

Lemma emit_scalar_total e text tag simple_key :
  match emit_scalar e text tag simple_key with
  | Some e' => kept e e' /\ panics text = false
  | None => panics text = true
  end.
Proof.
  pose proof (emit_scalar_kept e text tag simple_key) as H. destruct (emit_scalar e text tag simple_key) as [e'|].
  - destruct H as [Hk Hr]. split; [done|]. rewrite <- panics_as_bytes. apply not_true_iff_false.
    rewrite <- resolve_plain_None. by apply not_eq_None_Some.
  - rewrite <- panics_as_bytes. by apply resolve_plain_None.
Qed.

Lemma emit_node_total v : forall mp e,
  match emit_node display v mp e with
  | Some e' => kept e e' /\ existsb panics (texts display v) = false
  | None => existsb panics (texts display v) = true
  end.
Proof.
  assert (Hscalar : forall v text tag e, scalar_repr display v = Some (text, tag) ->
    match emit_scalar_value display e v with
    | Some e' => kept e e' /\ existsb panics [text] = false | None => existsb panics [text] = true end).
  { intros w text tag e Hr. unfold emit_scalar_value. rewrite Hr. cbn [existsb]. rewrite orb_false_r. apply emit_scalar_total. }
  induction v as [|b|n|s|l IH|m IH|t v IH] using Value_nested; intros mp e.
  - by apply (Hscalar VNull _ TNull).
  - by eapply (Hscalar (VBool b)).
  - destruct n as [z|f]; by eapply (Hscalar (VNumber _)).
  - by eapply (Hscalar (VString s)).
  - destruct l as [|v l]; [done|]. rewrite emit_sequence_eq by done. cbn [texts]. rewrite existsb_concat. apply nested_total.
    eapply Forall_impl; [exact IH|]. intros w Hw e1. unfold emit_item.
    specialize (Hw false (write_indicator (write_indent e1) [45] true false true)).
    destruct (emit_node display w _ _); [|done]. destruct Hw as [Hk Hp]. split; [|done].
    eapply kept_trans; [apply (write_indent_kept e1)|]. eapply kept_trans; [|exact Hk]. done.
  - destruct m as [|kv m]; [done|]. rewrite emit_mapping_eq, mapping_panics by done. apply nested_total.
    rewrite sort_by_key_perm. unfold keyed. apply Forall_fmap. eapply Forall_impl; [exact IH|]. intros [k w] Hw e1.
    unfold compose, emit_entry, entry_panics. cbn [fst snd] in *.
    pose proof (emit_scalar_total (write_indent e1) (key_text display k) TStr true) as Hs.
    destruct (emit_scalar _ _ _ _) as [e2|]; cbn [mbind option_bind]; [|by rewrite Hs]. destruct Hs as [Hk ->]. cbn [orb].
    specialize (Hw true (write_indicator e2 [58] false false false)).
    destruct (emit_node display w _ _); [|done]. destruct Hw as [Hk2 Hp]. split; [|done].
    eapply kept_trans; [apply (write_indent_kept e1)|]. eapply kept_trans; [exact Hk|]. eapply kept_trans; [|exact Hk2]. done.
  - apply IH.
Qed.

(** ** Documents up to the order of keys *)

(** The same document with the entries of each mapping in another order. *)
Inductive same_doc : Value -> Value -> Prop :=
  | same_refl v : same_doc v v
  | same_sequence l l' : Forall2 same_doc l l' -> same_doc (VSequence l) (VSequence l')
  | same_mapping m m1 m' : m ≡ₚ m1 -> Forall2 (fun kv kv' => kv.1 = kv'.1 /\ same_doc kv.2 kv'.2) m1 m' ->
      same_doc (VMapping m) (VMapping m')
  | same_tagged t v v' : same_doc v v' -> same_doc (VTagged t v) (VTagged t v').

(** What a mapping guarantees: no key twice. *)
Fixpoint distinct_keys (v : Value) : Prop :=
  match v with
  | VMapping m => NoDup ((fun kv => as_bytes (key_text display kv.1)) <$> m) /\ foldr and True (map (fun '(k, v) => distinct_keys v) m)
  | VSequence l => foldr and True (map distinct_keys l)
  | VTagged _ v => distinct_keys v
  | _ => True
  end.

Lemma foldr_and_Forall {A} (P : A -> Prop) l : foldr and True (map P l) <-> Forall P l.
Proof. induction l as [|a l IH]; cbn; [done|]. by rewrite IH, Forall_cons. Qed.

Lemma foldM_Forall2 {E A} (f : E -> A -> option E) (R : A -> A -> Prop) l l' e :
  (forall e a a', R a a' -> f e a = f e a') -> Forall2 R l l' -> foldM f l e = foldM f l' e.
Proof.
  intros Hf Hl. revert e. induction Hl as [|a a' l l' Ha _ IH]; intros e; [done|]. cbn. rewrite (Hf e a a' Ha).
  destruct (f e a'); [apply IH|done].
Qed.

Lemma same_doc_emit v : forall v', same_doc v v' -> distinct_keys v -> forall mp e, emit_node display v mp e = emit_node display v' mp e.
Proof.
  induction v as [|b|n|s|l IH|m IH|t v IH] using Value_nested; intros v' Hsame Hd mp e;
    (inversion Hsame as [|? l' Hl|? m1 m' Hp Hm|? ? w Hw]; subst; [done|try done..]).
  - cbn [distinct_keys] in Hd. apply foldr_and_Forall in Hd. destruct l as [|a l].
    { by inversion Hl. }
    inversion Hl as [|? b ? l2 Hab Hl2]; subst. rewrite !emit_sequence_eq by done.
    rewrite (foldM_Forall2 _ (fun a b => forall e, emit_item e a = emit_item e b) (a :: l) (b :: l2)); [done|naive_solver|].
    revert IH Hd. generalize dependent (a :: l). generalize (b :: l2). intros k' k Hs Hk IH Hd. clear -Hk IH Hd.
    induction Hk as [|x y k k' Hxy _ IHk]; [constructor|]. apply Forall_cons in IH as [Hx IH], Hd as [Hdx Hd].
    constructor; [|by apply IHk]. intros e. unfold emit_item. by apply Hx.
  - cbn [distinct_keys] in Hd. destruct Hd as [Hnd Hd]. destruct m as [|kv m].
    { apply Permutation_nil_l in Hp. subst m1. by inversion Hm. }
    assert (Hd' : Forall (fun kv => distinct_keys kv.2) (kv :: m)).
    { apply foldr_and_Forall. erewrite map_ext; [exact Hd|]. by intros [k w]. }
    assert (m' <> []) by (intros ->; inversion Hm; subst; by apply Permutation_nil_r in Hp).
    rewrite !emit_mapping_eq by done.
    assert (sort_by_key (keyed (kv :: m)) = sort_by_key (keyed m1)) as ->.
    { apply sort_by_key_unique; [unfold keyed; by apply fmap_Permutation|]. unfold keyed. rewrite <- list_fmap_compose.
      erewrite list_fmap_ext; [exact Hnd|]. by intros ? [k w]. }
    assert (IH1 : Forall (fun kv => distinct_keys kv.2 /\ forall v', same_doc kv.2 v' -> distinct_keys kv.2 -> forall mp e,
      emit_node display kv.2 mp e = emit_node display v' mp e) m1) by (rewrite <- Hp; by apply Forall_and).
    f_equal. apply (foldM_Forall2 _ (same_key (fun a b => forall mp e, emit_node display a mp e = emit_node display b mp e))).
    + intros e1 [k a] [k' b] [Hk Hab]. cbn in *. subst k'. unfold emit_entry. cbn. destruct (emit_scalar _ _ _ _); [|done]. apply Hab.
    + apply sort_by_key_Forall2. clear -Hm IH1. induction Hm as [|[k a] [k' b] m1 m' [Hk Hab] _ IHm]; [constructor|].
      cbn in *. subst k'. apply Forall_cons in IH1 as [[Ha1 Ha2] IH1]. constructor; [|by apply IHm].
      split; [done|]. intros mp e. by apply Ha2.
  - cbn [emit_node]. by apply IH.
Qed.

End documents.

(** ** Claims *)

(** Rendering always ends, and panics exactly on the documents with a key or
    scalar that starts with a sign and a colon. *)
Theorem emit_yaml_panics_iff display v :
  emit_yaml display v = None <-> exists t, t ∈ texts display v /\ panics t = true.
Proof.
  assert (He : existsb panics (texts display v) = true <-> exists t, t ∈ texts display v /\ panics t = true).
  { rewrite existsb_exists. setoid_rewrite list_elem_of_In. done. }
  rewrite <- He. unfold emit_yaml. pose proof (emit_node_total display v false emitter_new) as Ht.
  destruct (emit_node display v false emitter_new) as [e|]; [|done]. destruct Ht as [_ ->]. done.
Qed.

(** The bytes of a document do not depend on the order in which the keys of
    its mappings were given, at any depth. *)
Theorem key_order_irrelevant display v v' : same_doc v v' -> distinct_keys display v ->
  emit_yaml display v = emit_yaml display v'.
Proof. intros Hs Hd. unfold emit_yaml. by rewrite (same_doc_emit display v v' Hs Hd). Qed.

Definition two_keys (k1 k2 : string) : Value :=
  VSequence [VMapping [(VString (lit k1), VString (lit "x")); (VString (lit k2), VString (lit "x"))]].

Lemma key_order_irrelevant_witness : same_doc (two_keys "b" "a") (two_keys "a" "b")
  /\ emit_yaml (fun _ => []) (two_keys "b" "a") = emit_yaml (fun _ => []) (two_keys "a" "b").
Proof.
  assert (Hs : same_doc (two_keys "b" "a") (two_keys "a" "b")).
  { apply same_sequence. repeat constructor. eapply same_mapping; [apply perm_swap|]. repeat constructor. }
  split; [done|]. apply key_order_irrelevant; [done|]. cbn. split_and!; try done.
  apply (bool_decide_unpack _). by vm_compute.
Defined.
