(* ===== verification/YamlTree.v ===== *)
(** * A document is written as the tree it is

    The block structure of YAML as a grammar over the emitted text (what stands
    before a key, a dash or a scalar at each place), and the proof that
    [emit_yaml] writes a text of the grammar that denotes the document: its
    mappings sorted, its scalars as [YamlSpec] reads them. *)

From Stdlib Require Import ZArith Lia String Floats.SpecFloat.
From stdpp Require Import base numbers strings list sorting.
From S2P Require Import Prelude.
From S2P Require Import Text.
From S2P Require Import Yaml.
From S2P Require Import YamlPlain.
From S2P Require Import YamlSpec.
From S2P Require Import YamlDoc.

Open Scope Z_scope.

(** ** What a document denotes *)

Inductive Tree :=
  | Leaf (text : list Z) (tag : Tag)
  | Items (l : list Tree)
  | Entries (l : list (list Z * Tree)).

(** The tree of a value: tags are dropped, keys are texts in their order. *)
Fixpoint tree_of (display : spec_float -> list Z) (v : Value) : Tree :=
  match v with
  | VMapping m => Entries (sort_by_key (map (fun '(k, v) => (key_text display k, tree_of display v)) m))
  | VSequence l => Items (map (tree_of display) l)
  | VTagged _ v => tree_of display v
  | scalar => match scalar_repr display scalar with Some (t, tag) => Leaf t tag | None => Leaf [] TNull end
  end.

(** Where a node begins: at the start of the text, after a key, after a dash. *)
Inductive Place := Top | Colon | Dash.

(** [mapping_context]. *)
Definition after_key (p : Place) : bool := match p with Colon => true | _ => false end.

Definition newline (j : Z) : list Z := 10 :: replicate (Z.to_nat j) 32.

(** Before a node on the same line, and before the first key or dash of a
    block at column [j]. *)
Definition lead (p : Place) : list Z := match p with Top => [] | _ => [32] end.
Definition first_lead (p : Place) (j : Z) : list Z := match p with Top => [] | Dash => [32] | Colon => newline j end.

(** The column of a nested block: two further in, but a sequence under a key
    stays where the key is. *)
Definition column_in (p : Place) (i : Z) (sequence : bool) : Z :=
  match p, sequence with Colon, true => i | _, _ => i + 2 end.

(** [denotes i p s t]: the text [s], at place [p] of a block at column [i],
    denotes the tree [t]. *)
Inductive denotes : Z -> Place -> list Z -> Tree -> Prop :=
  | denotes_leaf i p body text tag : read_scalar body = Some (text, tag) -> denotes i p (lead p ++ body) (Leaf text tag)
  | denotes_no_items i p : denotes i p (lead p ++ lit "[]") (Items [])
  | denotes_no_entries i p : denotes i p (lead p ++ lit "{}") (Entries [])
  | denotes_items i p s t l j : j = column_in p i true -> items j (first_lead p j) s (t :: l) -> denotes i p s (Items (t :: l))
  | denotes_entries i p s kt l j : j = column_in p i false -> entries j (first_lead p j) s (kt :: l) -> denotes i p s (Entries (kt :: l))
with items : Z -> list Z -> list Z -> list Tree -> Prop :=
  | items_nil j pre : items j pre [] []
  | items_cons j pre item rest t l : denotes j Dash item t -> items j (newline j) rest l ->
      items j pre (pre ++ [45] ++ item ++ rest) (t :: l)
with entries : Z -> list Z -> list Z -> list (list Z * Tree) -> Prop :=
  | entries_nil j pre : entries j pre [] []
  | entries_cons j pre body value rest k t l : read_scalar body = Some (k, TStr) -> denotes j Colon value t ->
      entries j (newline j) rest l -> entries j pre (pre ++ body ++ [58] ++ value ++ rest) ((k, t) :: l).

(** ** What is asked of a document *)

(** Every character of a key or string is one, every integer has 64 bits, and
    no key or string is one of the texts the emitter misreads. *)
Fixpoint document_ok (display : spec_float -> list Z) (v : Value) : Prop :=
  match v with
  | VMapping m => foldr and True (map (fun '(k, v) =>
      (Forall scalar_value (key_text display k) /\ misread (key_text display k) = false) /\ document_ok display v) m)
  | VSequence l => foldr and True (map (document_ok display) l)
  | VTagged _ v => document_ok display v
  | scalar => scalar_ok scalar
  end.

Fixpoint depth (v : Value) : Z :=
  match v with
  | VMapping m => 1 + foldr Z.max 0 (map (fun '(k, v) => depth v) m)
  | VSequence l => 1 + foldr Z.max 0 (map depth l)
  | VTagged _ v => depth v
  | _ => 0
  end.

(** The depth the emitter is good for. *)
Definition MAX_DEPTH : Z := 39.

(** ** Lemmas: the state of the emitter at a place *)

(** The emitter is at a place of a block at column [i] ([-2] above the root). *)
Definition at_place (e : Emitter) (p : Place) (i : Z) : Prop :=
  match p with
  | Top => indent e = None /\ i = - BEST_INDENT /\ whitespace e = true /\ indention e = true /\ column e = 0
  | Colon => indent e = Some i /\ 0 <= i /\ whitespace e = false /\ indention e = false
  | Dash => indent e = Some i /\ 0 <= i /\ whitespace e = false /\ indention e = true /\ column e = i + 1
  end.

(** After a node: the next key or dash starts a line. *)
Definition closed (e : Emitter) : Prop := whitespace e = false /\ indention e = false.

(** The emitter is about to write [pre] and stand at column [j]. *)
Definition ready (e : Emitter) (j : Z) (pre : list Z) : Prop :=
  indent e = Some j /\ 0 <= j /\ out (write_indent e) = out e ++ pre /\ column (write_indent e) = j
  /\ whitespace (write_indent e) = true /\ indention (write_indent e) = true.

Lemma ready_closed e j : indent e = Some j -> 0 <= j -> closed e -> ready e j (newline j).
Proof.
  intros Hi Hj [Hw Hn]. unfold ready, write_indent. rewrite Hi, Hn. cbn [from_option negb orb]. unfold id.
  change (column (write_line_break e)) with 0. destruct (0 <? j) eqn:E; bool_prop.
  - cbn. rewrite <- app_assoc, Z.sub_0_r. by split_and!.
  - assert (j = 0) as -> by lia. by split_and!.
Qed.

Lemma ready_pad e j : indent e = Some j -> 0 <= j -> indention e = true -> column e <= j -> (column e = j -> whitespace e = true) ->
  ready e j (replicate (Z.to_nat (j - column e)) 32).
Proof.
  intros Hi Hj Hn Hc Hw. unfold ready, write_indent. rewrite Hi, Hn. cbn [from_option negb orb]. unfold id.
  assert ((j <? column e) || (column e =? j) && negb (whitespace e) = false) as ->.
  { apply orb_false_iff. split; [by apply Z.ltb_ge|]. apply andb_false_iff. destruct (Z.eqb_spec (column e) j) as [E|]; [right|by left].
    by rewrite Hw. }
  destruct (Z.ltb_spec (column e) j) as [H|H]; [by split_and!|].
  assert (column e = j) as E by lia. rewrite E, Z.sub_diag, app_nil_r. by split_and!; [..|apply Hw|].
Qed.

Lemma ready_first e p i (sequence : bool) : at_place e p i ->
  ready (increase_indent e false (sequence && after_key p && negb (indention e))) (column_in p i sequence)
    (first_lead p (column_in p i sequence)).
Proof.
  destruct p; cbn [at_place after_key column_in first_lead].
  - intros (Hi & -> & Hw & Hn & Hc). rewrite andb_false_r. cbn [andb].
    change [] with (replicate (Z.to_nat (0 - 0)) 32). rewrite <- Hc at 2.
    apply (ready_pad (increase_indent e false false) 0); [|done|done|cbn; lia|done]. unfold increase_indent. cbn. by rewrite Hi.
  - intros (Hi & H0 & Hw & Hn). rewrite Hn. cbn [negb]. rewrite !andb_true_r.
    apply ready_closed; [|destruct sequence; lia|by split]. unfold increase_indent. cbn. rewrite Hi. by destruct sequence.
  - intros (Hi & H0 & Hw & Hn & Hc). rewrite andb_false_r. cbn [andb].
    replace [32] with (replicate (Z.to_nat (i + 2 - column e)) 32) by (rewrite Hc; by replace (i + 2 - (i + 1)) with 1 by lia).
    replace (match sequence with true | _ => i + 2 end) with (i + 2) by by destruct sequence.
    apply (ready_pad (increase_indent e false false)); [|lia|done|cbn; lia|cbn; lia]. unfold increase_indent. cbn. by rewrite Hi.
Qed.

(** *** A scalar ends inside a line *)

Definition settled (e e' : Emitter) : Prop := closed e -> closed e'.

Lemma plain_turn_closed chars split s ch : closed s.1 -> closed (plain_turn chars split s ch).1.
Proof. destruct s as [e k]. unfold plain_turn, closed. cbn [fst]. intros [Hw Hn]. repeat case_goal; by split. Qed.

Lemma emit_scalar_closed e text tag simple_key e' : emit_scalar e text tag simple_key = Some e' ->
  (text = [] -> tag <> TNull) -> closed e'.
Proof.
  unfold emit_scalar. destruct (resolve_plain (as_bytes text)) as [r|] eqn:Er; [|done]. cbn [mbind option_bind].
  set (e1 := increase_indent e true false).
  assert (Hpop : forall e2 e3, closed e2 -> pop_indent e2 = Some e3 -> closed e3).
  { intros e2 e3 H2. unfold pop_indent. destruct (indents e2); [done|]. by intros [= <-]. }
  intros He Hne. eapply Hpop; [|exact He]. destruct (choose_style _ _ _) eqn:Es; [|split; [done|apply andb_false_r]..].
  unfold write_plain. destruct (decide (text = [])) as [->|Ht].
  - cbn in Er. injection Er as <-. unfold choose_style in Es. rewrite bool_decide_eq_false_2 in Es by naive_solver.
    cbn [andb] in Es. by destruct (_ && _).
  - rewrite bool_decide_eq_false_2 by done. cbv zeta. set (e2 := if negb (whitespace e1) then _ else e1).
    generalize (with_end text). intros l. assert (Hc : closed (not_started e2, cursor_new).1) by done.
    revert Hc. generalize (not_started e2, cursor_new). induction l as [|ch l IH]; intros s Hs; [done|].
    apply IH. by apply plain_turn_closed.
Qed.

Lemma indicator_eq e s need ws ind : Forall ascii s -> whitespace e = true \/ need = false ->
  out (write_indicator e s need ws ind) = out e ++ s.
Proof.
  intros Hs Hw. unfold write_indicator. assert (whitespace e || negb need = true) as -> by (destruct Hw as [-> | ->]; [done|by rewrite orb_true_r]).
  cbn. by rewrite as_bytes_ascii.
Qed.

Lemma ascii_one c : printable c = true -> Forall ascii [c].
Proof. intros Hc. apply Forall_singleton. by right. Qed.

(** An empty collection. *)
Lemma empty_eq e p i a b : at_place e p i -> ascii a -> ascii b ->
  let e' := write_indicator (write_indicator e [a] true true false) [b] false false false in
  out e' = out e ++ lead p ++ [a; b] /\ closed e' /\ kept e e'.
Proof.
  intros Hp Ha Hb. cbv zeta. unfold write_indicator. cbn.
  assert (Hab : as_bytes [b] = [b]) by (apply as_bytes_ascii; by constructor).
  assert (Hx : forall x, x = 10 \/ printable x = true -> as_bytes (32 :: [x]) = [32; x] /\ as_bytes [x] = [x]).
  { intros x H. split; apply as_bytes_ascii; constructor; [by right|by constructor|done|done]. }
  destruct (Hx a Ha) as [H1 H2]. split; [|split; [|done]].
  - change (utf8_char b ++ []) with (as_bytes [b]). destruct p; cbn [at_place lead] in *; destruct Hp as (? & ? & Hw & _); rewrite Hw; cbn [orb]; rewrite ?H1, ?H2, Hab, <- app_assoc; done.
  - split; [done|]. cbn. by rewrite andb_false_r.
Qed.

(** ** Lemmas: the blocks *)

Section blocks.
Context (display : spec_float -> list Z) `{DisplayF64 display}.

(** What is proved of a node: written at a place, it denotes [t]. *)
Definition writes (emit : Emitter -> option Emitter) (p : Place) (i : Z) (t : Tree) : Prop :=
  forall e e', at_place e p i -> emit e = Some e' ->
  exists s, out e' = out e ++ s /\ closed e' /\ kept e e' /\ denotes i p s t.

Lemma items_written l j : j < BEST_WIDTH - BEST_INDENT ->
  Forall (fun v => writes (emit_node display v false) Dash j (tree_of display v)) l ->
  forall pre e e', ready e j pre -> foldM (emit_item display) l e = Some e' ->
  exists s, out e' = out e ++ s /\ kept e e' /\ (l <> [] -> closed e') /\ items j pre s (tree_of display <$> l).
Proof.
  intros Hj. induction 1 as [|v l Hv _ IH]; intros pre e e' Hr; cbn [foldM].
  { intros [= <-]. exists []. rewrite app_nil_r. split_and!; [done..|constructor]. }
  destruct Hr as (Hi & H0 & Ho & Hc & Hw & Hn). set (e1 := write_indicator (write_indent e) [45] true false true).
  change (emit_item display e v) with (emit_node display v false e1).
  destruct (emit_node display v false e1) as [e2|] eqn:E2; cbn [mbind option_bind]; [|done]. intros Hl.
  assert (Hk1 : kept e e1) by exact (write_indent_kept e).
  assert (Ho1 : out e1 = out e ++ pre ++ [45]).
  { subst e1. rewrite indicator_eq, Ho, <- app_assoc; [done|by apply ascii_one|by left]. }
  assert (Hp : at_place e1 Dash j).
  { split_and!; [by rewrite (proj1 Hk1)|done|done| |]; subst e1; unfold write_indicator; cbn; [by rewrite Hn|].
    rewrite Hw. cbn. lia. }
  destruct (Hv e1 e2 Hp E2) as (item & Ho2 & Hc2 & Hk2 & Hd). assert (Hk : kept e e2) by by eapply kept_trans.
  assert (Hr : ready e2 j (newline j)) by (apply ready_closed; [rewrite (proj1 Hk)|..]; done).
  destruct (IH _ e2 e' Hr Hl) as (rest & Ho3 & Hk3 & Hc3 & Hrest). exists (pre ++ [45] ++ item ++ rest).
  split; [rewrite Ho3, Ho2, Ho1; by rewrite <- !app_assoc|]. split; [by eapply kept_trans|]. split; [|by constructor].
  intros _. destruct l; [by injection Hl as <-|by apply Hc3].
Qed.

Lemma entries_written (l : list (list Z * Value)) j : j < BEST_WIDTH - BEST_INDENT ->
  Forall (fun kv => (Forall scalar_value kv.1 /\ misread kv.1 = false) /\ writes (emit_node display kv.2 true) Colon j (tree_of display kv.2)) l ->
  forall pre e e', ready e j pre -> foldM (emit_entry display) l e = Some e' ->
  exists s, out e' = out e ++ s /\ kept e e' /\ (l <> [] -> closed e') /\ entries j pre s (on_value (tree_of display) <$> l).
Proof.
  intros Hj. induction 1 as [|[k v] l [[Hk Hm] Hv] _ IH]; intros pre e e' Hr; cbn [foldM].
  { intros [= <-]. exists []. rewrite app_nil_r. split_and!; [done..|constructor]. }
  destruct Hr as (Hi & H0 & Ho & Hc & Hw & Hn). cbn [fst snd] in *.
  change (emit_entry display e (k, v)) with
    (e1 ← emit_scalar (write_indent e) k TStr true; emit_node display v true (write_indicator e1 [58] false false false)).
  destruct (emit_scalar (write_indent e) k TStr true) as [e1|] eqn:E1; cbn [mbind option_bind]; [|done].
  set (e2 := write_indicator e1 [58] false false false).
  destruct (emit_node display v true e2) as [e3|] eqn:E3; cbn [mbind option_bind]; [|done]. intros Hl.
  pose proof (write_indent_kept e) as Hk0.
  assert (Hok : indent_ok (write_indent e)) by (unfold indent_ok; rewrite (proj1 Hk0), Hi; done).
  destruct (emit_scalar_reads _ _ _ _ _ E1 Hok Hk ltac:(done) ltac:(intros Hp _; by apply resolver_string)) as (body & style & Ho1 & Hk1 & _ & Hread).
  rewrite Hw in Ho1. cbn [app] in Ho1.
  assert (Hk2 : kept e e2) by exact (kept_trans _ _ _ Hk0 Hk1).
  assert (Hp : at_place e2 Colon j).
  { split_and!; [by rewrite (proj1 Hk2)|done|done|]. apply andb_false_r. }
  assert (Ho2 : out e2 = out e ++ pre ++ body ++ [58]).
  { subst e2. rewrite indicator_eq, Ho1, Ho, <- !app_assoc; [done|by apply ascii_one|by right]. }
  destruct (Hv e2 e3 Hp E3) as (value & Ho3 & Hc3 & Hk3 & Hd). assert (Hk' : kept e e3) by by eapply kept_trans.
  assert (Hr : ready e3 j (newline j)) by (apply ready_closed; [rewrite (proj1 Hk')|..]; done).
  destruct (IH _ e3 e' Hr Hl) as (rest & Ho4 & Hk4 & Hc4 & Hrest). exists (pre ++ body ++ [58] ++ value ++ rest).
  split; [rewrite Ho4, Ho3, Ho2; by rewrite <- !app_assoc|]. split; [by eapply kept_trans|]. split.
  - intros _. destruct l; [by injection Hl as <-|by apply Hc4].
  - cbn. constructor; [by destruct style|done..].
Qed.

(** Between [increase_indent] and [pop_indent]. *)
Lemma block_closed {A} (f : Emitter -> A -> option Emitter) l e fl il e' :
  (e1 ← foldM f l (increase_indent e fl il); pop_indent e1) = Some e' ->
  exists e1, foldM f l (increase_indent e fl il) = Some e1
  /\ (kept (increase_indent e fl il) e1 -> closed e1 -> out e' = out e1 /\ closed e' /\ kept e e').
Proof.
  destruct (foldM f l _) as [e1|]; cbn [mbind option_bind]; [|done]. intros Hp. exists e1. split; [done|].
  intros [_ Hk] Hc. unfold pop_indent in Hp. rewrite Hk in Hp. by injection Hp as <-.
Qed.

Lemma max_nonneg l : 0 <= foldr Z.max 0 l.
Proof. induction l; cbn; lia. Qed.

Lemma max_in x l : x ∈ l -> x <= foldr Z.max 0 l.
Proof. induction l as [|y l IH]; [by intros ?%elem_of_nil|]. intros [-> | Hx]%elem_of_cons; cbn; [lia|]. specialize (IH Hx). lia. Qed.

Lemma depth_nonneg v : 0 <= depth v.
Proof.
  induction v as [| | | |l _|m _|t v IH] using Value_nested; cbn [depth]; try done;
    [pose proof (max_nonneg (map depth l))|pose proof (max_nonneg (map (fun '(k, v) => depth v) m))]; lia.
Qed.

Lemma depth_item v l : v ∈ l -> 1 + depth v <= depth (VSequence l).
Proof. intros Hv. cbn [depth]. pose proof (max_in (depth v) (map depth l) ltac:(by apply list_elem_of_fmap_2)). lia. Qed.

Lemma depth_entry k v m : (k, v) ∈ m -> 1 + depth v <= depth (VMapping m).
Proof.
  intros Hv. cbn [depth]. pose proof (max_in (depth v) (map (fun '(k, v) => depth v) m)) as Hm.
  assert (depth v ∈ map (fun '(k, v) => depth v) m) by by apply (list_elem_of_fmap_2 (fun '(k, v) => depth v) m (k, v)).
  specialize (Hm H0). lia.
Qed.

Lemma tree_entries m : tree_of display (VMapping m) = Entries (on_value (tree_of display) <$> sort_by_key (keyed display m)).
Proof. cbn [tree_of]. rewrite <- sort_by_key_map, <- keyed_map. f_equal. unfold keyed. f_equal. induction m as [|[k v] m IH]; [done|]. cbn in *. by rewrite IH. Qed.

(** The root is above column 0. *)
Lemma place_column e p i (sequence : bool) : at_place e p i -> 0 <= column_in p i sequence <= i + BEST_INDENT.
Proof. unfold at_place, BEST_INDENT. destruct p, sequence; cbn [column_in]; lia. Qed.

Lemma leaf_written v text tag : scalar_repr display v = Some (text, tag) -> scalar_ok v ->
  forall p i, i < BEST_WIDTH - BEST_INDENT -> writes (fun e => emit_scalar e text tag false) p i (Leaf text tag).
Proof.
  intros Hr Hok p i Hi e e' Hp He.
  assert (Hin : indent_ok e) by (unfold indent_ok; destruct p; cbn in Hp; destruct Hp as [-> Hp]; [done|lia|lia]).
  destruct (emit_value_reads display v text tag e e' Hr Hok Hin He) as (body & Ho & Hk & Hread).
  exists (lead p ++ body). split; [|split; [|split; [done|by constructor]]].
  - rewrite Ho. f_equal. f_equal. destruct p; cbn in Hp; [by rewrite (proj1 (proj2 (proj2 Hp)))..].
  - eapply emit_scalar_closed; [exact He|]. destruct v as [|[]|[]|s|l|l|]; try discriminate Hr; injection Hr as <- <-; try done.
Qed.

(** A node at a place, when there is room for its depth. *)
Lemma node_written v : forall p i, document_ok display v -> i + BEST_INDENT * depth v < BEST_WIDTH - BEST_INDENT ->
  writes (emit_node display v (after_key p)) p i (tree_of display v).
Proof.
  assert (Hleaf : forall v text tag p i, scalar_repr display v = Some (text, tag) -> scalar_ok v ->
    i < BEST_WIDTH - BEST_INDENT -> writes (fun e => emit_scalar_value display e v) p i (Leaf text tag)).
  { intros w text tag p i Hr Hok Hi e e' Hp. unfold emit_scalar_value. rewrite Hr. by apply (leaf_written w text tag Hr Hok p i Hi e e' Hp). }
  induction v as [|b|n|s|l IH|m IH|t v IH] using Value_nested; intros p i Hok Hroom.
  - apply (Hleaf VNull); [done..|cbn in Hroom; lia].
  - apply (Hleaf (VBool b)); [done..|cbn in Hroom; lia].
  - destruct n as [z|f]; apply (Hleaf (VNumber _)); [done|done|cbn in Hroom; lia|done|done|cbn in Hroom; lia].
  - apply (Hleaf (VString s)); [done|exact Hok|cbn in Hroom; lia].
  - destruct l as [|v l].
    { intros e e' Hp [= <-]. destruct (empty_eq e p i 91 93 Hp) as (Ho & Hc & Hk); [by right..|]. exists (lead p ++ lit "[]"). split_and!; try done. constructor. }
    intros e e' Hp. rewrite emit_sequence_eq by done. intros Hb. apply block_closed in Hb as (e1 & Hf & Hpop).
    pose proof (place_column e p i true Hp) as Hcol. set (j := column_in p i true) in *.
    rewrite Forall_forall in IH. cbn [document_ok] in Hok. apply foldr_and_Forall in Hok. rewrite Forall_forall in Hok.
    destruct (items_written (v :: l) j) with (4 := Hf) (pre := first_lead p j) as (s & Ho & Hk & Hc & Hd).
    + pose proof (depth_item v (v :: l) ltac:(by left)). pose proof (depth_nonneg v). unfold BEST_WIDTH, BEST_INDENT in *. lia.
    + apply Forall_forall. intros w Hw. apply (IH w Hw Dash j); [by apply Hok|].
      pose proof (depth_item w _ Hw). unfold BEST_WIDTH, BEST_INDENT in *. lia.
    + exact (ready_first e p i true Hp).
    + destruct (Hpop Hk ltac:(by apply Hc)) as (Ho' & Hc' & Hk'). exists s. split; [by rewrite Ho', Ho|]. split; [done|]. split; [done|].
      cbn [tree_of map fmap list_fmap] in *. by eapply denotes_items.
  - destruct m as [|kv m].
    { intros e e' Hp [= <-]. destruct (empty_eq e p i 123 125 Hp) as (Ho & Hc & Hk); [by right..|]. exists (lead p ++ lit "{}"). split_and!; try done. constructor. }
    intros e e' Hp. rewrite emit_mapping_eq by done. intros Hb. apply block_closed in Hb as (e1 & Hf & Hpop).
    pose proof (place_column e p i false Hp) as Hcol. set (j := column_in p i false) in *.
    rewrite Forall_forall in IH. cbn [document_ok] in Hok. apply foldr_and_Forall in Hok. rewrite Forall_forall in Hok.
    assert (Hperm := sort_by_key_perm (keyed display (kv :: m))). set (l := sort_by_key _) in *.
    assert (Hl : l <> []) by (intros E; rewrite E in Hperm; by apply Permutation_nil_l in Hperm).
    destruct (entries_written l j) with (4 := Hf) (pre := first_lead p j) as (s & Ho & Hk & Hc & Hd).
    + destruct kv as [k v]. pose proof (depth_entry k v ((k, v) :: m) ltac:(by left)). pose proof (depth_nonneg v).
      unfold BEST_WIDTH, BEST_INDENT in *. lia.
    + apply Forall_forall. intros x Hx. rewrite Hperm in Hx. apply list_elem_of_fmap in Hx as ([k w] & -> & Hw).
      destruct (Hok _ Hw) as [Hks Hwok]. split; [done|]. apply (IH _ Hw Colon j); [done|].
      pose proof (depth_entry k w _ Hw). unfold BEST_WIDTH, BEST_INDENT in *. cbn [snd]. lia.
    + exact (ready_first e p i false Hp).
    + destruct (Hpop Hk ltac:(by apply Hc)) as (Ho' & Hc' & Hk'). exists s. split; [by rewrite Ho', Ho|]. split; [done|]. split; [done|].
      rewrite tree_entries. fold l. destruct (on_value (tree_of display) <$> l) eqn:E; [by destruct l|]. by eapply denotes_entries.
  - exact (IH p i Hok Hroom).
Qed.

End blocks.


(** ** A document *)

(** [Display] on the one float the examples print. *)
Definition show_zero (f : spec_float) : list Z := lit "0".

#[export] Instance show_zero_f64 : DisplayF64 show_zero.
Proof. intros f _. exists [], 48, [], []. split_and!; [done|by left|done|constructor|by left]. Qed.

Definition sample : Value :=
  VMapping [(VString (lit "b"), VSequence [VNumber (NInt 1); VMapping [(VString (lit "y"), VNull); (VString (lit "x"), VString (lit "it's"))]]);
            (VString (lit "a"), VString (lit "yes"))].

Definition sample_text : list Z :=
  lit "a: 'yes'" ++ [10] ++ lit "b:" ++ [10] ++ lit "- 1" ++ [10] ++ lit "- x: it's" ++ [10] ++ lit "  y: null".

