(* ===== verification/Compose.v ===== *)
(** * The compose front end ([src/src/compose])

    [validate] ([validate.rs]): the whitelist gate over a parsed compose file;
    [emit_lock] ([emit.rs]): the document the guest sees; [lock_service_names]
    ([mod.rs]).  A document is a [Yaml.Value], a string the list of its
    characters.  The file system is asked through the four questions the code
    asks (a section's variables); parsing is a parameter.  An error keeps what
    it says, not its wording. *)

From Stdlib Require Import ZArith Lia String Floats.SpecFloat.
From stdpp Require Import base numbers strings gmap list.
From S2P Require Import Prelude.
From S2P Require Import Text.
From S2P Require Import Yaml.

Open Scope Z_scope.

Abbreviation str := (list Z).

(** ** Errors ([error.rs]) *)

Inductive Reason :=
  | NoServices | NotAString | ServiceNotMapping (sname : str)
  | CustomTag (tag : str) | ScientificFloat (f : spec_float) | NonStringKey
  | ExternalNetwork (name : str)
  | NoImageNoBuild (sname : str) | PullAlways (sname : str) | NetworkModeHost (sname : str)
  | AbsoluteBind (sname src : str) | MissingBindSource (sname src abssrc : str)
  | BuildKey (sname key : str) | BuildShape (sname : str) | AbsoluteContext (sname context : str)
  | ContextNotDir (sname context : str) | NoDockerfile (sname dockerfile : str) | NoFrom (sname dockerfile : str)
  | Unpinned (sname base : str) | NotParsed | LockNoServices.

Inductive InternalReason := TopNotMapping | ServicesMissing | NotAMapping (sname : str) | NotBaked (sname tag : str).

Inductive ValidateError :=
  | Reject (why : Reason)
  | IoError (path : str) (errno : Z)
  | Internal (why : InternalReason).

Definition reject {A} (why : Reason) : result ValidateError A := Err (Reject why).
Definition internal {A} (why : InternalReason) : result ValidateError A := Err (Internal why).

(** ** Values *)

(** [Value::as_str] and the like look through a tag. *)
Fixpoint untag (v : Value) : Value := match v with VTagged _ v => untag v | v => v end.

Definition as_str (v : Value) : option str := match untag v with VString s => Some s | _ => None end.
Definition as_bool (v : Value) : option bool := match untag v with VBool b => Some b | _ => None end.
Definition as_mapping (v : Value) : option (list (Value * Value)) := match untag v with VMapping m => Some m | _ => None end.

Definition key_is (k : str) (kv : Value * Value) : bool := match kv.1 with VString s => bool_decide (s = k) | _ => false end.

(** [Mapping::get], [insert], [remove] (a swap-remove) and [contains_key] at a
    string key. *)
Definition map_get (k : str) (m : list (Value * Value)) : option Value := snd <$> List.find (key_is k) m.

Definition map_insert (k : str) (v : Value) (m : list (Value * Value)) : list (Value * Value) :=
  match position (key_is k) m with
  | Some i => <[i := (VString k, v)]> m
  | None => m ++ [(VString k, v)]
  end.

Definition map_remove (k : str) (m : list (Value * Value)) : list (Value * Value) :=
  match position (key_is k) m, last m with
  | Some i, Some l => take (length m - 1) (<[i := l]> m)
  | _, _ => m
  end.

Definition contains_key (k : str) (m : list (Value * Value)) : bool := existsb (key_is k) m.

(** [Value::get] at a string. *)
Definition value_get (k : string) (v : Value) : option Value := m ← as_mapping v; map_get (lit k) m.

Definition get_str (k : string) (m : list (Value * Value)) : option str := v ← map_get (lit k) m; as_str v.

(** ** Paths ([std::path]) *)

Inductive Component := RootDir | CurDir | ParentDir | Normal (s : str).

#[export] Instance Component_eq_dec : EqDecision Component.
Proof. solve_decision. Defined.

Definition component_of (s : str) : Component := if bool_decide (s = [46; 46]) then ParentDir else Normal s.

(** [Path::components]: empty parts and [.] are dropped, except a leading [.]. *)
Definition components (p : str) : list Component :=
  let '(first, rest) := split_char 47 p in
  let parts := filter (fun s => s <> [] /\ s <> [46]) (first :: rest) in
  (if starts_with "/" p then [RootDir] else if bool_decide (first = [46]) then [CurDir] else []) ++ (component_of <$> parts).

Definition component_str (c : Component) : str :=
  match c with RootDir => [] | CurDir => [46] | ParentDir => [46; 46] | Normal s => s end.

Definition path_str (cs : list Component) : str :=
  match cs with
  | [RootDir] => [47]
  | RootDir :: cs => 47 :: join_with [47] (component_str <$> cs)
  | cs => join_with [47] (component_str <$> cs)
  end.

(** [Path::parent], up to repeated separators. *)
Definition parent (p : str) : option str :=
  match last (components p) with
  | None | Some RootDir => None
  | Some _ => Some (path_str (removelast (components p)))
  end.

(** [Path::join]. *)
Definition join_path (base p : str) : str :=
  if starts_with "/" p || bool_decide (base = []) then p
  else if bool_decide (last base = Some 47) then base ++ p
  else base ++ 47 :: p.

Definition file_name (p : str) : option str := match last (components p) with Some (Normal s) => Some s | _ => None end.

(** [str::trim_end_matches] of a character. *)
Fixpoint trim_start_matches (c : Z) (s : str) : str := match s with b :: s' => if b =? c then trim_start_matches c s' else s | [] => [] end.
Definition trim_end_matches (c : Z) (s : str) : str := reverse (trim_start_matches c (reverse s)).

(** A step of the loop of [normpath]: what is kept, last first, and whether the
    path is absolute. *)
Definition normpath_step (st : list str * bool) (c : Component) : list str * bool :=
  let '(out, is_abs) := st in
  match c with
  | RootDir => ([], true)
  | CurDir => st
  | ParentDir =>
      if match out with [] => true | s :: _ => bool_decide (s = [46; 46]) end && negb is_abs then ([46; 46] :: out, is_abs)
      else (tail out, is_abs)
  | Normal s => (s :: out, is_abs)
  end.

Definition normpath (p : str) : str :=
  let '(out, is_abs) := fold_left normpath_step (components p) ([], false) in
  let joined := join_with [47] (reverse out) in
  if is_abs then 47 :: joined else if bool_decide (joined = []) then [46] else joined.

(** ** Text *)

(** [char::is_whitespace]. *)
Definition is_whitespace (c : Z) : bool :=
  ((9 <=? c) && (c <=? 13)) || (c =? 32) || (c =? 0x85) || (c =? 0xa0) || (c =? 0x1680) || ((0x2000 <=? c) && (c <=? 0x200a))
  || (c =? 0x2028) || (c =? 0x2029) || (c =? 0x202f) || (c =? 0x205f) || (c =? 0x3000).

(** [str::split_whitespace]; leading and trailing white space make no word. *)
Fixpoint words_from (w : str) (s : str) : list str :=
  match s with
  | [] => if bool_decide (w = []) then [] else [reverse w]
  | c :: s => if is_whitespace c then (if bool_decide (w = []) then [] else [reverse w]) ++ words_from [] s else words_from (c :: w) s
  end.
Definition split_whitespace (s : str) : list str := words_from [] s.

(** [str::lines]. *)
Definition strip_cr (l : str) : str := if bool_decide (last l = Some 13) then removelast l else l.
Definition lines (s : str) : list str :=
  let '(first, rest) := split_char 10 s in
  let final := default first (last rest) in
  (strip_cr <$> removelast (first :: rest)) ++ (if bool_decide (final = []) then [] else [final]).

Definition ascii_lower (c : Z) : Z := if (65 <=? c) && (c <=? 90) then c + 32 else c.
Definition eq_ignore_ascii_case (a b : str) : bool := bool_decide (ascii_lower <$> a = ascii_lower <$> b).

(** [str::contains]. *)
Fixpoint contains (p s : str) : bool :=
  match strip_prefix p s with
  | Some _ => true
  | None => match s with [] => false | _ :: s => contains p s end
  end.

(** ** What validation returns ([validate.rs]) *)

Record BuildCtx := { bc_service : str; context : str; dockerfile : str; image_tag : str; bases : list str }.

Record Bind := { b_service : str; b_src : str; b_target : str; basename : str }.

(** A warning: the service and its ports, as displayed. *)
Record Validated := { images : list str; builds : list BuildCtx; binds : list Bind; warnings : list (str * str) }.

#[export] Instance eta_Validated : Settable Validated := fun v => Build_Validated (images v) (builds v) (binds v) (warnings v).

Definition validated_default : Validated := {| images := []; builds := []; binds := []; warnings := [] |}.

(** [Iterator::try_for_each]. *)
Fixpoint try_for_each {E A} (f : A -> result E unit) (l : list A) : result E unit :=
  match l with
  | [] => Ok tt
  | a :: l => match f a with Ok _ => try_for_each f l | Err e => Err e end
  end.

Fixpoint reject_unrepresentable (v : Value) : result ValidateError unit :=
  match v with
  | VTagged tag _ => reject (CustomTag tag)
  | VNumber (NFloat f) => if float_is_representable f then Ok tt else reject (ScientificFloat f)
  | VSequence items => try_for_each reject_unrepresentable items
  | VMapping m => try_for_each (fun '(k, v) =>
      match k with
      | VString _ => match reject_unrepresentable k with Ok _ => reject_unrepresentable v | Err e => Err e end
      | _ => reject NonStringKey
      end) m
  | _ => Ok tt
  end.

Definition reject_external_networks (doc : Value) : result ValidateError unit :=
  match value_get "networks" doc with
  | Some (VMapping nets) => try_for_each (fun '(nname, ncfg) =>
      match ncfg with
      | VMapping nm =>
          let is_ext := match map_get (lit "external") nm with
                        | Some (VBool true) | Some (VMapping _) | Some (VString _) => true | _ => false end in
          if is_ext then match as_str nname with Some nn => reject (ExternalNetwork nn) | None => reject NotAString end else Ok tt
      | _ => Ok tt
      end) nets
  | _ => Ok tt
  end.

(** (src, target, mode) of a bind entry; [None] for a volume. *)
Definition split_bind (entry : Value) : option (str * str * str) :=
  match entry with
  | VString s =>
      match split_char 58 s with
      | (_, []) => None
      | (src, target :: more) =>
          let mode := match more with mode :: _ => mode | [] => lit "rw" end in
          if starts_with "." src || starts_with "/" src || starts_with "~" src || existsb (Z.eqb 47) src
          then Some (src, target, mode) else None
      end
  | VMapping m =>
      if bool_decide (default (lit "volume") (get_str "type" m) = lit "bind") then
        let ro := default false (v ← map_get (lit "read_only") m; as_bool v) in
        Some (default [] (get_str "source" m), default [] (get_str "target" m), if ro then lit "ro" else lit "rw")
      else None
  | _ => None
  end.

Definition build_output_tag (sname : str) (scfg : list (Value * Value)) : str :=
  match get_str "image" scfg with
  | Some img => img
  | None =>
      let keep c := ((48 <=? c) && (c <=? 57)) || ((65 <=? c) && (c <=? 90)) || ((97 <=? c) && (c <=? 122)) || one_of "-_." c in
      lit "localhost/tdvmm-build-" ++ ((fun c => if keep c then c else 45) <$> sname) ++ lit ":baked"
  end.

Section validate.
(** The file system: [Path::exists], [is_dir], [is_file], [fs::read_to_string]
    (an errno on failure); how a number prints. *)
Context (exists_ is_dir is_file : str -> bool) (read_to_string : str -> result Z str) (num_str : Num -> str).

Fixpoint flow_repr (v : Value) : str :=
  match v with
  | VSequence items => [91] ++ join_with (lit ", ") (map flow_repr items) ++ [93]
  | VString s => [39] ++ s ++ [39]
  | VNumber n => num_str n
  | VBool b => if b then lit "True" else lit "False"
  | VNull => lit "None"
  | VMapping _ => lit "{...}"
  | VTagged _ _ => []
  end.

Definition base_dir (compose_path : str) : str := default (lit ".") (parent compose_path).

Definition is_absolute (s : str) : bool := starts_with "/" s || starts_with "~" s.

Definition classify_bind (sname : str) (entry : Value) (compose_path : str) : result ValidateError (option Bind) :=
  match split_bind entry with
  | None => Ok None
  | Some (src, target, _) =>
      if is_absolute src then reject (AbsoluteBind sname src)
      else
        let abssrc := normpath (join_path (base_dir compose_path) src) in
        if negb (exists_ abssrc) then reject (MissingBindSource sname src abssrc)
        else Ok (Some {| b_service := sname; b_src := abssrc; b_target := target;
                         basename := default [] (file_name (trim_end_matches 47 src)) |})
  end.

(** A line of a Dockerfile; [stages] are the aliases seen so far. *)
Definition from_line (st : gset str * list str) (raw : str) : gset str * list str :=
  let '(stages, bases) := st in
  match split_whitespace raw with
  | t0 :: r :: rest =>
      if starts_with "#" t0 then st
      else if eq_ignore_ascii_case t0 (lit "FROM") then
        let stages := match rest with
                      | t2 :: t3 :: _ => if eq_ignore_ascii_case t2 (lit "AS") then {[t3]} ∪ stages else stages
                      | _ => stages end in
        (stages, if bool_decide (r ∈ stages) then bases else bases ++ [r])
      else st
  | _ => st
  end.

Definition dockerfile_froms (text : str) : list str := (fold_left from_line (lines text) (∅, [])).2.

Definition parse_dockerfile_froms (path : str) : result ValidateError (list str) :=
  match read_to_string path with
  | Ok text => Ok (dockerfile_froms text)
  | Err e => Err (IoError path e)
  end.

Definition pinned (base : str) : bool := contains (lit "@sha256:") base.

Definition validate_build (build : Value) (sname compose_path : str) (scfg : list (Value * Value)) : result ValidateError BuildCtx :=
  '(context, dockerfile) ← match build with
    | VString s => Ok (s, lit "Dockerfile")
    | VMapping m =>
        _ ← try_for_each (fun '(k, _) =>
              match as_str k with
              | Some ks => if bool_decide (ks = lit "context") || bool_decide (ks = lit "dockerfile") then Ok tt
                           else reject (BuildKey sname ks)
              | None => Ok tt
              end) m;
        Ok (default (lit ".") (get_str "context" m), default (lit "Dockerfile") (get_str "dockerfile" m))
    | _ => reject (BuildShape sname)
    end;
  if is_absolute context then reject (AbsoluteContext sname context)
  else
    let abs_ctx := normpath (join_path (base_dir compose_path) context) in
    if negb (is_dir abs_ctx) then reject (ContextNotDir sname context)
    else
      let abs_df := normpath (join_path abs_ctx dockerfile) in
      if negb (is_file abs_df) then reject (NoDockerfile sname dockerfile)
      else
        bases ← parse_dockerfile_froms abs_df;
        if bool_decide (bases = []) then reject (NoFrom sname dockerfile)
        else
          _ ← try_for_each (fun b => if pinned b then Ok tt else reject (Unpinned sname b)) bases;
          Ok {| bc_service := sname; context := abs_ctx; dockerfile := abs_df; image_tag := build_output_tag sname scfg;
                bases := bases |}.

(** The [volumes:] of a service. *)
Fixpoint classify_binds (sname compose_path : str) (vols : list Value) (out : Validated) : result ValidateError Validated :=
  match vols with
  | [] => Ok out
  | entry :: vols =>
      bind ← classify_bind sname entry compose_path;
      classify_binds sname compose_path vols
        (match bind with Some b => out <| binds := binds out ++ [b] |> | None => out end)
  end.

Definition validate_service (sname : str) (scfg : list (Value * Value)) (compose_path : str) (out : Validated)
    : result ValidateError Validated :=
  out ← match map_get (lit "build") scfg with
    | Some build => ctx ← validate_build build sname compose_path scfg; Ok (out <| builds := builds out ++ [ctx] |>)
    | None =>
        match get_str "image" scfg with
        | None => reject (NoImageNoBuild sname)
        | Some img => Ok (if bool_decide (img ∈ images out) then out else out <| images := images out ++ [img] |>)
        end
    end;
  if bool_decide (get_str "pull_policy" scfg = Some (lit "always")) then reject (PullAlways sname)
  else if bool_decide (get_str "network_mode" scfg = Some (lit "host")) then reject (NetworkModeHost sname)
  else
    let out := match map_get (lit "ports") scfg with
               | Some VNull | None => out
               | Some ports => out <| warnings := warnings out ++ [(sname, flow_repr ports)] |>
               end in
    match map_get (lit "volumes") scfg with
    | Some (VSequence vols) => classify_binds sname compose_path vols out
    | _ => Ok out
    end.

Fixpoint validate_services (services : list (Value * Value)) (compose_path : str) (out : Validated)
    : result ValidateError Validated :=
  match services with
  | [] => Ok out
  | (skey, scfg_v) :: services =>
      match as_str skey with
      | None => reject NotAString
      | Some sname =>
          match scfg_v with
          | VMapping scfg =>
              out ← validate_service sname scfg compose_path out;
              validate_services services compose_path out
          | _ => reject (ServiceNotMapping sname)
          end
      end
  end.

Definition validate (doc : Value) (compose_path : str) : result ValidateError Validated :=
  _ ← reject_unrepresentable doc;
  match value_get "services" doc with
  | Some (VMapping ((_ :: _) as services)) =>
      _ ← reject_external_networks doc;
      validate_services services compose_path validated_default
  | _ => reject NoServices
  end.

(** ** The lock ([emit.rs]) *)

Definition EVENT_FIFO : str := lit "/run/tdvmm/events".
Definition CONTROL_DIR : str := lit "/run/tdvmm/ctl".
Definition LOCK_HEADER : str := lit "# generated by tdvmm build -- do not edit" ++ [10].

Definition BindDests : Type := gmap (str * str) str.

(** A step of the loop of [bind_dests]. *)
Definition bind_dest (binds_base : str) (st : list (str * str) * BindDests) (b : Bind) : list (str * str) * BindDests :=
  let '(manifest, dest_of) := st in
  let rel := b_service b ++ [47] ++ basename b in
  (manifest ++ [(b_src b, rel)], <[(b_service b, b_target b) := binds_base ++ [47] ++ rel]> dest_of).

Definition bind_dests (bs : list Bind) (binds_base : str) : list (str * str) * BindDests :=
  fold_left (bind_dest binds_base) bs ([], ∅).

Definition pin_service_image (sname : str) (scfg : list (Value * Value)) (digests : gmap str str)
    : result ValidateError (list (Value * Value)) :=
  if contains_key (lit "build") scfg then
    let tag := build_output_tag sname scfg in
    let scfg := map_remove (lit "build") scfg in
    match digests !! tag with
    | Some pin => Ok (map_insert (lit "image") (VString pin) scfg)
    | None => internal (NotBaked sname tag)
    end
  else
    match get_str "image" scfg with
    | Some img =>
        match digests !! img with
        | Some pin => Ok (map_insert (lit "image") (VString pin) scfg)
        | None => Ok scfg
        end
    | None => Ok scfg
    end.

(** A bind of the two harness paths. *)
Definition harness_bind (path : str) : Value := VString (path ++ [58] ++ path ++ [58] ++ lit "rw").

Definition rewrite_volume (sname : str) (dest_of : BindDests) (entry : Value) : Value :=
  match split_bind entry with
  | Some (src, target, mode) =>
      if is_absolute src then entry
      else
        match dest_of !! (sname, target) with
        | Some dest =>
            let '(m0, ms) := split_char 44 mode in
            let norm_mode := if existsb (fun x => bool_decide (x = lit "ro")) (m0 :: ms) then lit "ro" else lit "rw" in
            VString (dest ++ [58] ++ target ++ [58] ++ norm_mode)
        | None => entry
        end
  | None => entry
  end.

Definition rewrite_volumes (sname : str) (scfg : list (Value * Value)) (dest_of : BindDests) : list Value :=
  let existing := match map_get (lit "volumes") scfg with Some (VSequence vols) => vols | _ => [] end in
  (rewrite_volume sname dest_of <$> existing) ++ [harness_bind EVENT_FIFO; harness_bind CONTROL_DIR].

Definition lock_service (digests : gmap str str) (dest_of : BindDests) (sname : str) (scfg : list (Value * Value))
    : result ValidateError (list (Value * Value)) :=
  scfg ← pin_service_image sname scfg digests;
  let scfg := map_remove (lit "ports") scfg in
  let scfg := map_remove (lit "pull_policy") scfg in
  Ok (map_insert (lit "volumes") (VSequence (rewrite_volumes sname scfg dest_of)) scfg).

(** The loop over the names; a service is looked up by its name each time. *)
Fixpoint lock_services (digests : gmap str str) (dest_of : BindDests) (snames : list str) (services : list (Value * Value))
    : result ValidateError (list (Value * Value)) :=
  match snames with
  | [] => Ok services
  | sname :: snames =>
      match v ← map_get sname services; as_mapping v with
      | None => internal (NotAMapping sname)
      | Some scfg =>
          scfg ← lock_service digests dest_of sname scfg;
          lock_services digests dest_of snames (map_insert sname (VMapping scfg) services)
      end
  end.

Definition service_names (services : list (Value * Value)) : list str := omap (fun kv => as_str kv.1) services.

Record EmitLockRequest := { doc : Value; compose_path : str; digests : gmap str str; binds_base : str; project : str }.

(** [emit_lock] up to the rendering: the locked document and the manifest. *)
Definition lock_document (req : EmitLockRequest) : result ValidateError (Value * list (str * str)) :=
  validated ← validate (doc req) (compose_path req);
  let '(bind_manifest, dest_of) := bind_dests (binds validated) (binds_base req) in
  match doc req with
  | VMapping m =>
      let m := map_insert (lit "name") (VString (project req)) m in
      match v ← map_get (lit "services") m; as_mapping v with
      | None => internal ServicesMissing
      | Some services =>
          services ← lock_services (digests req) dest_of (service_names services) services;
          Ok (VMapping (map_insert (lit "services") (VMapping services) m), bind_manifest)
      end
  | _ => internal TopNotMapping
  end.

End validate.

Record LockOutput := { lock_yaml : list Z; bind_manifest : list (str * str) }.

(** [None] is a panic of the emitter. *)
Definition emit_lock (exists_ is_dir is_file : str -> bool) (read_to_string : str -> result Z str) (num_str : Num -> str)
    (display : spec_float -> str) (req : EmitLockRequest) : option (result ValidateError LockOutput) :=
  match lock_document exists_ is_dir is_file read_to_string num_str req with
  | Ok (locked, manifest) =>
      yaml ← emit_yaml display locked;
      Some (Ok {| lock_yaml := as_bytes LOCK_HEADER ++ yaml; bind_manifest := manifest |})
  | Err e => Some (Err e)
  end.

(** ** Reading a lock ([mod.rs]) *)

(** [from_slice] parses; the names are sorted by their bytes. *)
Definition lock_service_names (from_slice : list Z -> option Value) (compose_lock : list Z) : result ValidateError (list str) :=
  match from_slice compose_lock with
  | None => reject NotParsed
  | Some doc =>
      let names := default [] (m ← v ← value_get "services" doc; as_mapping v; Some (service_names m)) in
      if bool_decide (names = []) then reject LockNoServices
      else Ok (fst <$> sort_by_key ((fun n => (n, tt)) <$> names))
  end.
