(* ===== verification/ComposeSpec.v ===== *)
(** * What the compose gate and the lock promise

    The mapping operations as an update of a finite map, what validation
    guarantees of a document, and the shape of the lock: nothing from outside
    the closed world is left in it, and a validated document has one. *)

From Stdlib Require Import ZArith Lia String Floats.SpecFloat.
From stdpp Require Import base numbers strings gmap list.
From S2P Require Import Prelude.
From S2P Require Import Text.
From S2P Require Import Yaml.
From S2P Require Import YamlSpec.
From S2P Require Import YamlDoc.
From S2P Require Import Compose.

Open Scope Z_scope.

(** ** Lemmas: mappings *)

(** No key twice. *)
Definition unique (m : list (Value * Value)) : Prop := NoDup (fst <$> m).

Lemma key_is_spec k kv : key_is k kv = true <-> kv.1 = VString k.
Proof. unfold key_is. destruct kv as [[] v]; cbn; try (split; discriminate). rewrite bool_decide_eq_true. naive_solver. Qed.

Lemma key_is_false k kv : key_is k kv = false <-> kv.1 <> VString k.
Proof. rewrite <- key_is_spec. destruct (key_is k kv); naive_solver. Qed.

#[export] Instance key_ne_dec k (kv : Value * Value) : Decision (kv.1 <> VString k).
Proof. destruct (key_is k kv) eqn:E; [right|left]; [apply key_is_spec in E; tauto|by apply key_is_false]. Defined.

Lemma unique_value m k v v' : unique m -> (k, v) ∈ m -> (k, v') ∈ m -> v = v'.
Proof.
  unfold unique. induction m as [|[k0 v0] m IH]; [by intros _ ?%elem_of_nil|]. cbn. intros [Hn Hd]%NoDup_cons H1 H2.
  apply elem_of_cons in H1 as [E1|H1], H2 as [E2|H2]; simplify_eq/=; [done| | |by apply IH];
    destruct Hn; apply list_elem_of_fmap; [by exists (k0, v')|by exists (k0, v)].
Qed.

Lemma map_get_elem k v m : map_get k m = Some v -> (VString k, v) ∈ m.
Proof.
  unfold map_get. intros ([k' v'] & Hf & Hv)%fmap_Some. cbn in Hv. subst v'. apply find_some in Hf as [Hin Hk].
  apply key_is_spec in Hk. cbn in Hk. subst k'. by apply list_elem_of_In.
Qed.

Lemma map_get_None k m : map_get k m = None <-> Forall (fun kv => kv.1 <> VString k) m.
Proof.
  unfold map_get. rewrite fmap_None. induction m as [|kv m IH]; cbn; [done|]. rewrite Forall_cons, <- IH.
  destruct (key_is k kv) eqn:E; [apply key_is_spec in E|apply key_is_false in E]; naive_solver.
Qed.

Lemma map_get_spec k v m : unique m -> map_get k m = Some v <-> (VString k, v) ∈ m.
Proof.
  intros Hu. split; [apply map_get_elem|]. intros Hin. destruct (map_get k m) as [v'|] eqn:E.
  - apply map_get_elem in E. f_equal. by eapply unique_value.
  - apply map_get_None in E. rewrite Forall_forall in E. by specialize (E _ Hin).
Qed.

Lemma map_get_cons k kv m : map_get k (kv :: m) = if key_is k kv then Some kv.2 else map_get k m.
Proof. unfold map_get. cbn. by destruct (key_is k kv). Qed.

Lemma contains_key_spec k m : contains_key k m = bool_decide (is_Some (map_get k m)).
Proof.
  induction m as [|kv m IH]; [done|]. rewrite map_get_cons. cbn [contains_key existsb]. unfold contains_key in *.
  destruct (key_is k kv); [|exact IH]. symmetry. apply bool_decide_eq_true_2. eauto.
Qed.

(** The position of a key, seen from both sides. *)
Lemma position_split k m i : position (key_is k) m = Some i ->
  exists m1 v m2, m = m1 ++ (VString k, v) :: m2 /\ length m1 = i /\ Forall (fun kv => kv.1 <> VString k) m1.
Proof.
  revert i. induction m as [|[k' v] m IH]; intros i; [done|]. cbn [position]. destruct (key_is k (k', v)) eqn:E.
  - apply key_is_spec in E. cbn in E. subst k'. intros [= <-]. by exists [], v, m.
  - apply key_is_false in E. intros (j & Hj & ->)%fmap_Some. destruct (IH j Hj) as (m1 & v' & m2 & -> & <- & Hf).
    exists ((k', v) :: m1), v', m2. split; [done|]. split; [done|]. by constructor.
Qed.

Lemma map_get_app k m1 m2 : map_get k (m1 ++ m2) = match map_get k m1 with Some v => Some v | None => map_get k m2 end.
Proof. unfold map_get. induction m1 as [|kv m IH]; [done|]. cbn. by destruct (key_is k kv). Qed.

Lemma map_insert_cases k v m :
  (exists m1 v0 m2, m = m1 ++ (VString k, v0) :: m2 /\ Forall (fun kv => kv.1 <> VString k) m1
    /\ map_insert k v m = m1 ++ (VString k, v) :: m2)
  \/ (map_get k m = None /\ map_insert k v m = m ++ [(VString k, v)]).
Proof.
  unfold map_insert. destruct (position (key_is k) m) as [i|] eqn:E.
  - left. destruct (position_split k m i E) as (m1 & v0 & m2 & -> & <- & Hf). exists m1, v0, m2. split; [done|]. split; [done|].
    by rewrite insert_app_r_alt, Nat.sub_diag by lia.
  - right. split; [|done]. apply map_get_None. apply position_None in E. eapply Forall_impl; [exact E|].
    intros kv. apply key_is_false.
Qed.

Lemma map_get_insert k k' v m : map_get k' (map_insert k v m) = if decide (k' = k) then Some v else map_get k' m.
Proof.
  destruct (map_insert_cases k v m) as [(m1 & v0 & m2 & -> & Hf & ->)|[Hn ->]]; rewrite !map_get_app, !map_get_cons.
  - destruct (decide (k' = k)) as [->|Hne].
    + apply map_get_None in Hf. rewrite Hf. by rewrite (proj2 (key_is_spec _ _)).
    + rewrite !(proj2 (key_is_false k' (VString k, _))) by (cbn; congruence). done.
  - destruct (decide (k' = k)) as [->|Hne].
    + rewrite Hn. by rewrite (proj2 (key_is_spec _ _)).
    + rewrite (proj2 (key_is_false k' (VString k, _))) by (cbn; congruence). by destruct (map_get k' m).
Qed.

Lemma fst_insert k v m : fst <$> map_insert k v m = if decide (map_get k m = None) then (fst <$> m) ++ [VString k] else fst <$> m.
Proof.
  destruct (map_insert_cases k v m) as [(m1 & v0 & m2 & -> & Hf & ->)|[Hn ->]].
  - rewrite decide_False.
    + by rewrite !fmap_app.
    + rewrite map_get_app, map_get_cons, (proj2 (key_is_spec _ _)) by done. by destruct (map_get k m1).
  - rewrite decide_True by done. by rewrite fmap_app.
Qed.

Lemma unique_insert k v m : unique m -> unique (map_insert k v m).
Proof.
  unfold unique. rewrite fst_insert. intros Hu. case_decide as Hn; [|done]. apply NoDup_app. split; [done|].
  split; [|apply NoDup_singleton]. intros x Hx Hk. apply list_elem_of_singleton in Hk. subst x.
  apply list_elem_of_fmap in Hx as (kv & Hk & Hin). apply map_get_None in Hn. rewrite Forall_forall in Hn.
  by apply (Hn kv Hin).
Qed.

(** Removing a key, whatever entry takes its place. *)
Lemma map_remove_perm k m : unique m -> map_remove k m ≡ₚ filter (fun kv => kv.1 <> VString k) m.
Proof.
  intros Hu. unfold map_remove. destruct (position (key_is k) m) as [i|] eqn:E.
  - destruct (position_split k m i E) as (m1 & v0 & m2 & -> & <- & Hf).
    assert (Hf2 : Forall (fun kv => kv.1 <> VString k) m2).
    { unfold unique in Hu. rewrite fmap_app, fmap_cons in Hu. apply NoDup_app in Hu as (_ & _ & Hu). cbn in Hu.
      apply NoDup_cons in Hu as [Hn _]. apply Forall_forall. intros kv Hin Hk. destruct Hn. apply list_elem_of_fmap. eauto. }
    rewrite filter_app, filter_cons_False, !list_filter_all by (done || (intros H; by apply H)).
    destruct m2 as [|kv m2 _] using rev_ind.
    + rewrite last_snoc, insert_app_r_alt, Nat.sub_diag, length_app by lia. cbn [length list_insert insert].
      rewrite Nat.add_sub, take_app_length, app_nil_r. done.
    + rewrite app_comm_cons, app_assoc, last_snoc.
      rewrite <- app_assoc, insert_app_r_alt, Nat.sub_diag by lia. cbn [app list_insert insert].
      rewrite length_app. cbn [length]. rewrite length_app. cbn [length].
      replace (length m1 + S (length m2 + 1) - 1)%nat with (length (m1 ++ kv :: m2)) by (rewrite length_app; cbn; lia).
      rewrite app_comm_cons, app_assoc, take_app_length. apply Permutation_app_head. apply Permutation_cons_append.
  - apply position_None in E. rewrite list_filter_all; [done|]. eapply Forall_impl; [exact E|]. intros kv. apply key_is_false.
Qed.

Lemma unique_remove k m : unique m -> unique (map_remove k m).
Proof.
  intros Hu. unfold unique. rewrite map_remove_perm by done. unfold unique in Hu. revert Hu.
  induction m as [|kv m IH]; [done|]. rewrite fmap_cons. intros [Hn Hd]%NoDup_cons.
  destruct (decide (kv.1 <> VString k)) as [Hk|Hk]; [rewrite filter_cons_True by done|rewrite filter_cons_False by done; by apply IH].
  rewrite fmap_cons. apply NoDup_cons. split; [|by apply IH]. intros Hin. apply Hn.
  apply list_elem_of_fmap in Hin as (x & -> & Hx). apply list_elem_of_filter in Hx as [_ Hx]. apply list_elem_of_fmap. eauto.
Qed.

Lemma map_get_remove k k' m : unique m -> map_get k' (map_remove k m) = if decide (k' = k) then None else map_get k' m.
Proof.
  intros Hu. pose proof (unique_remove k m Hu) as Hu'.
  assert (Hin : forall v, map_get k' (map_remove k m) = Some v <-> k' <> k /\ map_get k' m = Some v).
  { intros v. rewrite !map_get_spec by done. rewrite map_remove_perm, list_elem_of_filter by done. cbn. naive_solver. }
  case_decide as Hk; apply option_eq; intros v; rewrite Hin; naive_solver.
Qed.

(** ** Lemmas: what validation guarantees *)

Lemma try_for_each_Ok {E A} (f : A -> result E unit) l : try_for_each f l = Ok tt <-> Forall (fun a => f a = Ok tt) l.
Proof.
  induction l as [|a l IH]; cbn; [done|]. rewrite Forall_cons, <- IH. destruct (f a) as [[]|e]; naive_solver.
Qed.

(** No tag, no key but a string, no float in scientific notation. *)
Fixpoint representable (v : Value) : Prop :=
  match v with
  | VTagged _ _ => False
  | VNumber (NFloat f) => float_is_representable f = true
  | VSequence items => foldr and True (map representable items)
  | VMapping m => foldr and True (map (fun '(k, v) => (exists s, k = VString s) /\ representable v) m)
  | _ => True
  end.

Lemma reject_unrepresentable_Ok v : reject_unrepresentable v = Ok tt <-> representable v.
Proof.
  induction v as [|b|n|s|l IH|m IH|t v IH] using Value_nested; cbn [reject_unrepresentable representable]; try done.
  - destruct n as [z|f]; [done|]. destruct (float_is_representable f); done.
  - rewrite try_for_each_Ok, foldr_and_Forall, !Forall_forall. rewrite Forall_forall in IH. naive_solver.
  - rewrite try_for_each_Ok, foldr_and_Forall. rewrite !Forall_forall in *. split; intros Hm [k w] Hin;
      specialize (Hm _ Hin); specialize (IH _ Hin); cbn in *; destruct k; naive_solver.
Qed.

Section gate.
Context (exists_ is_dir is_file : str -> bool) (read_to_string : str -> result Z str) (num_str : Num -> str).

Abbreviation validate_ := (validate exists_ is_dir is_file read_to_string num_str).
Abbreviation validate_service_ := (validate_service exists_ is_dir is_file read_to_string num_str).
Abbreviation validate_services_ := (validate_services exists_ is_dir is_file read_to_string num_str).

(** What was found stays found. *)
Definition grows (o o' : Validated) : Prop := images o ⊆ images o' /\ builds o ⊆ builds o' /\ binds o ⊆ binds o'.

#[export] Instance grows_preorder : PreOrder grows.
Proof. split; [by intros ?|]. intros o1 o2 o3 (? & ? & ?) (? & ? & ?). split_and!; by etrans. Qed.

(** A volume entry is no bind, or a relative one that exists and is recorded. *)
Definition entry_ok (sname path : str) (out : Validated) (entry : Value) : Prop :=
  match split_bind entry with
  | None => True
  | Some (src, target, _) => is_absolute src = false /\ exists_ (normpath (join_path (base_dir path) src)) = true
      /\ exists b, b ∈ binds out /\ b_service b = sname /\ b_target b = target
  end.

(** A build context with every recorded base pinned. *)
Definition build_ok (sname : str) (scfg : list (Value * Value)) (ctx : BuildCtx) : Prop :=
  bc_service ctx = sname /\ image_tag ctx = build_output_tag sname scfg /\ bases ctx <> []
  /\ Forall (fun b => pinned b = true) (bases ctx).

(** A service inside the supported subset. *)
Record service_ok (path : str) (out : Validated) (sname : str) (scfg : list (Value * Value)) : Prop := {
  so_source : match map_get (lit "build") scfg with
              | Some _ => exists ctx, ctx ∈ builds out /\ build_ok sname scfg ctx
              | None => exists img, get_str "image" scfg = Some img /\ img ∈ images out
              end;
  so_pull : get_str "pull_policy" scfg <> Some (lit "always");
  so_network : get_str "network_mode" scfg <> Some (lit "host");
  so_binds vols : map_get (lit "volumes") scfg = Some (VSequence vols) -> Forall (entry_ok sname path out) vols;
}.

Lemma service_ok_grows path o o' sname scfg : grows o o' -> service_ok path o sname scfg -> service_ok path o' sname scfg.
Proof.
  intros (Hi & Hb & Hv) [H1 H2 H3 H4]. split; [|done|done|].
  - destruct (map_get (lit "build") scfg); naive_solver.
  - intros vols E. eapply Forall_impl; [by apply H4|]. intros entry He. unfold entry_ok in *.
    destruct (split_bind entry) as [[[src target] mode]|]; naive_solver.
Qed.

Lemma classify_binds_Ok sname path vols : forall o o', classify_binds exists_ sname path vols o = Ok o' ->
  grows o o' /\ Forall (entry_ok sname path o') vols.
Proof.
  induction vols as [|entry vols IH]; intros o o'; cbn [classify_binds]; [intros [= <-]; by split; [reflexivity|]|].
  intros (b & Hb & Ho)%result_bind_Ok. apply IH in Ho as [Hg Hf].
  set (o1 := match b with Some b => _ | None => o end) in *.
  assert (Hg1 : grows o o1) by (subst o1; destruct b as [b|]; [|reflexivity]; split_and!; cbn; set_solver).
  split; [by etrans|]. constructor; [|done]. unfold entry_ok. unfold classify_bind in Hb.
  destruct (split_bind entry) as [[[src target] mode]|]; [|done]. destruct (is_absolute src); [done|].
  destruct (exists_ _); [|done]. cbn [negb] in Hb. injection Hb as <-. split; [done|]. split; [done|].
  destruct Hg as (_ & _ & Hg). eexists. split; [apply Hg; subst o1; cbn; apply elem_of_app; right; by left|by split].
Qed.

Lemma validate_build_Ok build sname path scfg ctx :
  validate_build is_dir is_file read_to_string build sname path scfg = Ok ctx -> build_ok sname scfg ctx.
Proof.
  unfold validate_build. intros ([context dockerfile] & _ & Hb)%result_bind_Ok.
  destruct (is_absolute context); [done|]. destruct (is_dir _); [|done]. destruct (is_file _); [|done]. cbn [negb] in Hb.
  apply result_bind_Ok in Hb as (bs & _ & Hb). case_bool_decide as Hne; [done|].
  apply result_bind_Ok in Hb as ([] & Hf & [= <-]). split; [done|]. split; [done|]. split; [done|]. cbn.
  apply try_for_each_Ok in Hf. eapply Forall_impl; [exact Hf|]. cbn. intros b. by destruct (pinned b).
Qed.

Lemma validate_service_Ok sname scfg path o o' : validate_service_ sname scfg path o = Ok o' ->
  grows o o' /\ service_ok path o' sname scfg.
Proof.
  unfold validate_service. intros (o1 & H1 & H2)%result_bind_Ok. case_bool_decide as Hp; [done|].
  case_bool_decide as Hn; [done|].
  assert (Hs : grows o o1 /\ match map_get (lit "build") scfg with
      | Some _ => exists ctx, ctx ∈ builds o1 /\ build_ok sname scfg ctx
      | None => exists img, get_str "image" scfg = Some img /\ img ∈ images o1 end).
  { destruct (map_get (lit "build") scfg) as [build|].
    - apply result_bind_Ok in H1 as (ctx & Hc & [= <-]). split; [split_and!; cbn; set_solver|]. exists ctx.
      split; [cbn; set_solver|]. by eapply validate_build_Ok.
    - destruct (get_str "image" scfg) as [img|]; [|done]. injection H1 as <-. case_bool_decide.
      + split; [reflexivity|]. by exists img.
      + split; [split_and!; cbn; set_solver|]. exists img. split; [done|]. cbn. set_solver. }
  destruct Hs as [Hg Hsrc]. set (o2 := match map_get (lit "ports") scfg with Some VNull | None => o1 | Some _ => _ end) in H2.
  assert (Hg2 : grows o1 o2) by (subst o2; destruct (map_get (lit "ports") scfg) as [[]|]; split_and!; cbn; reflexivity).
  assert (H3 : grows o2 o' /\ forall vols, map_get (lit "volumes") scfg = Some (VSequence vols) -> Forall (entry_ok sname path o') vols).
  { destruct (map_get (lit "volumes") scfg) as [[]|]; try (injection H2 as <-; by split; [reflexivity|]).
    apply classify_binds_Ok in H2 as [Hg3 Hf]. split; [done|]. by intros vols [= <-]. }
  destruct H3 as [Hg3 Hb]. assert (Hg' : grows o1 o') by by etrans. split; [by etrans|]. split; [|done..].
  destruct Hg' as (Hi & Hbu & _). destruct (map_get (lit "build") scfg); naive_solver.
Qed.

Lemma validate_services_Ok path services : forall o o', Forall (fun kv => representable kv.2 /\ exists s, kv.1 = VString s) services ->
  validate_services_ services path o = Ok o' ->
  grows o o' /\ Forall (fun kv => exists sname scfg, kv = (VString sname, VMapping scfg) /\ service_ok path o' sname scfg) services.
Proof.
  induction services as [|[k v] services IH]; intros o o' Hr; cbn [validate_services].
  { intros [= <-]. by split; [reflexivity|]. }
  apply Forall_cons in Hr as [[Hrv [s Hk]] Hr]. cbn in Hk, Hrv. subst k. cbn [as_str untag].
  destruct v as [| | | | |scfg|]; try done. intros (o1 & H1 & H2)%result_bind_Ok.
  apply IH in H2 as [Hg2 Hf]; [|done]. apply validate_service_Ok in H1 as [Hg1 Hs].
  split; [by etrans|]. constructor; [|done]. exists s, scfg. split; [done|]. by eapply service_ok_grows.
Qed.

(** What validation says of a document. *)
Lemma validate_Ok doc path o : validate_ doc path = Ok o -> representable doc /\ exists m services, doc = VMapping m
  /\ map_get (lit "services") m = Some (VMapping services) /\ services <> []
  /\ reject_external_networks doc = Ok tt
  /\ Forall (fun kv => exists sname scfg, kv = (VString sname, VMapping scfg) /\ service_ok path o sname scfg) services.
Proof.
  unfold validate. intros ([] & Hr%reject_unrepresentable_Ok & H)%result_bind_Ok. split; [done|].
  destruct doc as [| | | | |m|]; try done. unfold value_get in H. cbn [as_mapping untag mbind option_bind] in H.
  destruct (map_get (lit "services") m) as [[| | | | |services|]|] eqn:Es; try done. destruct services as [|kv services]; [done|].
  apply result_bind_Ok in H as ([] & Hn & H). exists m, (kv :: services). split; [done|]. split; [done|]. split; [done|].
  split; [done|]. eapply validate_services_Ok; [|exact H].
  cbn [representable] in Hr. rewrite foldr_and_Forall, Forall_forall in Hr. apply map_get_elem in Es.
  specialize (Hr _ Es). cbn beta iota in Hr. destruct Hr as [_ Hr]. cbn [representable] in Hr.
  apply foldr_and_Forall in Hr. eapply Forall_impl; [exact Hr|]. intros [k w] [? ?]. by split.
Qed.

End gate.

(** ** Lemmas: locking a service *)

Section lock.
Context (digests : gmap str str) (dest_of : BindDests).

(** The image a service is locked to. *)
Definition locked_image (sname : str) (scfg : list (Value * Value)) : option str :=
  if contains_key (lit "build") scfg then digests !! build_output_tag sname scfg
  else (fun img => default img (digests !! img)) <$> get_str "image" scfg.

Definition volumes_of (scfg : list (Value * Value)) : list Value :=
  match map_get (lit "volumes") scfg with Some (VSequence vols) => vols | _ => [] end.

(** A service and its form in the lock: the host-only keys are gone, the image
    is the pinned one, the binds are rewritten, the rest is as it was. *)
Record locked_as (sname : str) (scfg scfg' : list (Value * Value)) : Prop := {
  lk_build : map_get (lit "build") scfg' = None;
  lk_ports : map_get (lit "ports") scfg' = None;
  lk_pull : map_get (lit "pull_policy") scfg' = None;
  lk_image : get_str "image" scfg' = locked_image sname scfg;
  lk_baked : contains_key (lit "build") scfg = true -> is_Some (digests !! build_output_tag sname scfg);
  lk_volumes : map_get (lit "volumes") scfg'
    = Some (VSequence ((rewrite_volume sname dest_of <$> volumes_of scfg) ++ [harness_bind EVENT_FIFO; harness_bind CONTROL_DIR]));
  lk_rest k : k ∉ [lit "build"; lit "ports"; lit "pull_policy"; lit "image"; lit "volumes"] -> map_get k scfg' = map_get k scfg;
}.

Lemma pin_service_image_spec sname scfg : unique scfg ->
  match pin_service_image sname scfg digests with
  | Ok scfg1 => unique scfg1 /\ get_str "image" scfg1 = locked_image sname scfg
      /\ (contains_key (lit "build") scfg = true -> is_Some (digests !! build_output_tag sname scfg))
      /\ map_get (lit "build") scfg1 = None
      /\ forall k, k <> lit "build" -> k <> lit "image" -> map_get k scfg1 = map_get k scfg
  | Err e => contains_key (lit "build") scfg = true /\ digests !! build_output_tag sname scfg = None
      /\ e = Internal (NotBaked sname (build_output_tag sname scfg))
  end.
Proof.
  intros Hu. unfold pin_service_image, locked_image.
  assert (Hbi : lit "image" <> lit "build") by done.
  assert (Hset : forall scfg1 pin, unique scfg1 -> unique (map_insert (lit "image") (VString pin) scfg1)
    /\ get_str "image" (map_insert (lit "image") (VString pin) scfg1) = Some pin).
  { intros scfg1 pin Hu1. split; [by apply unique_insert|]. unfold get_str. rewrite map_get_insert, decide_True by done. done. }
  destruct (contains_key (lit "build") scfg) eqn:Ec.
  - destruct (digests !! build_output_tag sname scfg) as [pin|]; [|done].
    destruct (Hset (map_remove (lit "build") scfg) pin) as [H1 H2]; [by apply unique_remove|]. split; [done|]. split; [done|]. split; [done|]. split.
    + rewrite map_get_insert, decide_False, map_get_remove, decide_True by done. done.
    + intros k Hk1 Hk2. by rewrite map_get_insert, decide_False, map_get_remove, decide_False by done.
  - assert (Hnb : map_get (lit "build") scfg = None).
    { rewrite contains_key_spec in Ec. apply bool_decide_eq_false in Ec. by apply eq_None_not_Some. }
    destruct (get_str "image" scfg) as [img|] eqn:Ei; cbn; [|by rewrite Ei].
    destruct (digests !! img) as [pin|]; cbn; [|by rewrite Ei].
    destruct (Hset scfg pin Hu) as [H1 H2]. split; [done|]. split; [done|]. split; [done|]. split.
    + by rewrite map_get_insert, decide_False by done.
    + intros k Hk1 Hk2. by rewrite map_get_insert, decide_False by done.
Qed.

Lemma lock_service_spec sname scfg : unique scfg ->
  match lock_service digests dest_of sname scfg with
  | Ok scfg' => unique scfg' /\ locked_as sname scfg scfg'
  | Err e => contains_key (lit "build") scfg = true /\ digests !! build_output_tag sname scfg = None
      /\ e = Internal (NotBaked sname (build_output_tag sname scfg))
  end.
Proof.
  intros Hu. unfold lock_service. pose proof (pin_service_image_spec sname scfg Hu) as Hp.
  destruct (pin_service_image sname scfg digests) as [scfg1|e]; [|done]. cbn [mbind result_bind].
  destruct Hp as (Hu1 & Himg & Hbk & Hb & Hrest). set (scfg2 := map_remove (lit "ports") scfg1). set (scfg3 := map_remove (lit "pull_policy") scfg2).
  assert (Hu2 : unique scfg2) by by apply unique_remove. assert (Hu3 : unique scfg3) by by apply unique_remove.
  assert (H3 : forall k, k <> lit "ports" -> k <> lit "pull_policy" -> map_get k scfg3 = map_get k scfg1).
  { intros k Hk1 Hk2. subst scfg3 scfg2. by rewrite !map_get_remove, !decide_False by done. }
  assert (Hv : rewrite_volumes sname scfg3 dest_of
    = (rewrite_volume sname dest_of <$> volumes_of scfg) ++ [harness_bind EVENT_FIFO; harness_bind CONTROL_DIR]).
  { unfold rewrite_volumes, volumes_of. by rewrite H3, Hrest by done. }
  rewrite Hv. split; [by apply unique_insert|]. split.
  - by rewrite map_get_insert, decide_False, H3 by done.
  - rewrite map_get_insert, decide_False by done. subst scfg3 scfg2.
    by rewrite map_get_remove, decide_False, map_get_remove, decide_True by done.
  - rewrite map_get_insert, decide_False by done. subst scfg3. by rewrite map_get_remove, decide_True by done.
  - rewrite <- Himg. unfold get_str. by rewrite map_get_insert, decide_False, H3 by done.
  - exact Hbk.
  - by rewrite map_get_insert, decide_True.
  - intros k Hk. rewrite !not_elem_of_cons in Hk. destruct Hk as (? & ? & ? & ? & ? & _).
    by rewrite map_get_insert, decide_False, H3, Hrest by done.
Qed.

(** The loop: each service named is locked once, the others are left. *)
Lemma lock_services_spec snames : forall services, NoDup snames -> unique services ->
  Forall (fun n => exists scfg, map_get n services = Some (VMapping scfg) /\ unique scfg) snames ->
  match lock_services digests dest_of snames services with
  | Ok services' => fst <$> services' = fst <$> services /\ unique services'
      /\ (forall n, n ∉ snames -> map_get n services' = map_get n services)
      /\ Forall (fun n => exists scfg scfg', map_get n services = Some (VMapping scfg) /\ map_get n services' = Some (VMapping scfg')
           /\ locked_as n scfg scfg') snames
  | Err e => exists n scfg, n ∈ snames /\ map_get n services = Some (VMapping scfg) /\ contains_key (lit "build") scfg = true
      /\ digests !! build_output_tag n scfg = None /\ e = Internal (NotBaked n (build_output_tag n scfg))
  end.
Proof.
  induction snames as [|n snames IH]; intros services Hnd Hu Hall; cbn [lock_services]; [by split_and!|].
  apply NoDup_cons in Hnd as [Hn Hnd]. apply Forall_cons in Hall as [(scfg & Hget & Hus) Hall]. rewrite Hget.
  cbn [mbind option_bind as_mapping untag]. pose proof (lock_service_spec n scfg Hus) as Hls.
  destruct (lock_service digests dest_of n scfg) as [scfg'|e]; cbn [mbind result_bind].
  - destruct Hls as [Hus' Hlk]. set (s1 := map_insert n (VMapping scfg') services).
    assert (Hget1 : forall k, k <> n -> map_get k s1 = map_get k services).
    { intros k Hk. subst s1. by rewrite map_get_insert, decide_False by done. }
    specialize (IH s1 Hnd (unique_insert _ _ _ Hu)).
    assert (Hall1 : Forall (fun k => exists scfg, map_get k s1 = Some (VMapping scfg) /\ unique scfg) snames).
    { rewrite Forall_forall in *. intros k Hk. rewrite Hget1 by (intros ->; done). by apply Hall. }
    specialize (IH Hall1). destruct (lock_services digests dest_of snames s1) as [s2|e].
    + destruct IH as (Hf & Hu2 & Hout & Hin). split.
      { rewrite Hf. subst s1. rewrite fst_insert. rewrite decide_False by congruence. done. }
      split; [done|]. split.
      { intros k Hk. apply not_elem_of_cons in Hk as [Hk1 Hk2]. by rewrite Hout, Hget1. }
      constructor.
      * exists scfg, scfg'. split; [done|]. split; [|done]. rewrite Hout by done. subst s1. by rewrite map_get_insert, decide_True.
      * rewrite Forall_forall in *. intros k Hk. destruct (Hin k Hk) as (c & c' & Hc & Hc' & Hl). exists c, c'.
        split; [|by split]. by rewrite <- Hget1 by (intros ->; done).
    + destruct IH as (k & c & Hk & Hc & Hrest). exists k, c. split; [by right|]. split; [|done].
      by rewrite <- Hget1 by (intros ->; done).
  - exists n, scfg. split; [by left|]. split; [done|]. exact Hls.
Qed.

End lock.

(** ** Lemmas: the destinations of binds *)

Lemma bind_dests_app bs b base : bind_dests (bs ++ [b]) base = bind_dest base (bind_dests bs base) b.
Proof. unfold bind_dests. by rewrite fold_left_app. Qed.

Lemma bind_dests_dest bs base b : b ∈ bs ->
  exists bn, (bind_dests bs base).2 !! (b_service b, b_target b) = Some (base ++ 47 :: b_service b ++ 47 :: bn).
Proof.
  induction bs as [|b' bs IH] using rev_ind; [by intros ?%elem_of_nil|]. rewrite bind_dests_app, elem_of_app, list_elem_of_singleton.
  unfold bind_dest. destruct (bind_dests bs base) as [manifest dest_of]. cbn [snd] in *. intros Hb.
  destruct (decide ((b_service b, b_target b) = (b_service b', b_target b'))) as [E|Hne].
  - injection E as -> ->. exists (basename b'). apply lookup_insert_eq.
  - destruct Hb as [Hb| ->]; [|done]. destruct (IH Hb) as [bn Hbn]. exists bn. cbn [snd].
    etransitivity; [apply lookup_insert_ne; congruence|done].
Qed.

Lemma bind_dests_manifest bs base : (bind_dests bs base).1 = (fun b => (b_src b, b_service b ++ [47] ++ basename b)) <$> bs.
Proof.
  induction bs as [|b bs IH] using rev_ind; [done|]. rewrite bind_dests_app, fmap_app. unfold bind_dest.
  destruct (bind_dests bs base) as [manifest dest_of]. cbn [fst] in *. by rewrite IH.
Qed.

(** ** The closed world *)

(** What a mapping guarantees, everywhere in a document: no key twice. *)
Fixpoint well_keyed (v : Value) : Prop :=
  match v with
  | VMapping m => unique m /\ foldr and True (map (fun '(k, v) => well_keyed v) m)
  | VSequence l => foldr and True (map well_keyed l)
  | VTagged _ v => well_keyed v
  | _ => True
  end.

Lemma well_keyed_get m k v : well_keyed (VMapping m) -> map_get k m = Some v -> well_keyed v.
Proof.
  cbn. intros [_ Hall] Hg%map_get_elem. rewrite foldr_and_Forall, Forall_forall in Hall. exact (Hall _ Hg).
Qed.

(** A volume entry of the lock: no bind, or a bind of a path of the guest's. *)
Definition confined (base : str) (entry : Value) : Prop :=
  match split_bind entry with
  | None => True
  | Some (src, _, _) => (exists r, src = base ++ 47 :: r) \/ src = EVENT_FIFO \/ src = CONTROL_DIR
  end.

Lemma rewrite_volume_confined exists_ sname path out base entry : 58 ∉ base ->
  entry_ok exists_ sname path out entry -> confined base (rewrite_volume sname (bind_dests (binds out) base).2 entry).
Proof.
  intros Hbase He. unfold entry_ok in He. unfold rewrite_volume. destruct (split_bind entry) as [[[src target] mode]|] eqn:Es.
  - destruct He as (-> & _ & b & Hb & <- & <-). destruct (bind_dests_dest (binds out) base b Hb) as [bn ->].
    destruct (split_char 44 mode) as [m0 ms]. unfold confined, split_bind. set (s := (base ++ _) ++ _).
    assert (Hs : exists r, (split_char 58 s).1 = base ++ 47 :: r).
    { subst s. rewrite <- app_assoc, split_char_prefix by done. cbn [app split_char].
      destruct (split_char 58 _) as [first rest]. change (47 =? 58) with false. cbv iota. by eexists. }
    destruct (split_char 58 s) as [src' [|target' more]]; [done|]. cbn [fst] in Hs.
    destruct (starts_with "." src' || _ || _ || _); [|done]. by left.
  - unfold confined. by rewrite Es.
Qed.

Section gate_and_lock.
Context (exists_ is_dir is_file : str -> bool) (read_to_string : str -> result Z str) (num_str : Num -> str).

Abbreviation validate_ := (validate exists_ is_dir is_file read_to_string num_str).
Abbreviation lock_document_ := (lock_document exists_ is_dir is_file read_to_string num_str).

(** What validation and the uniqueness of keys say of the services, as the
    loop of the lock needs it. *)
Lemma services_named path o services : well_keyed (VMapping services) ->
  Forall (fun kv => exists sname scfg, kv = (VString sname, VMapping scfg) /\ service_ok exists_ path o sname scfg) services ->
  NoDup (service_names services) /\ fst <$> services = VString <$> service_names services
  /\ Forall (fun n => exists scfg, map_get n services = Some (VMapping scfg) /\ unique scfg
       /\ service_ok exists_ path o n scfg) (service_names services).
Proof.
  intros Hw Hall. assert (Hf : fst <$> services = VString <$> service_names services).
  { clear Hw. unfold service_names. induction Hall as [|kv services (n & scfg & -> & _) _ IH]; [done|]. cbn in *. by rewrite IH. }
  destruct Hw as [Hu Hwk]. split; [|split; [done|]].
  - unfold unique in Hu. rewrite Hf in Hu. by apply NoDup_fmap_1 in Hu.
  - apply Forall_forall. intros n Hn. rewrite Forall_forall in Hall.
    assert (Hin : VString n ∈ fst <$> services) by (rewrite Hf; by apply list_elem_of_fmap_2).
    apply list_elem_of_fmap in Hin as (kv & Hk & Hin). destruct (Hall _ Hin) as (n' & scfg & -> & Hs). injection Hk as ->.
    exists scfg. split; [by apply map_get_spec|]. split; [|done].
    rewrite foldr_and_Forall, Forall_forall in Hwk. specialize (Hwk _ Hin). by destruct Hwk.
Qed.

Lemma validate_named m path o : validate_ (VMapping m) path = Ok o -> well_keyed (VMapping m) ->
  exists services, map_get (lit "services") m = Some (VMapping services) /\ unique services
  /\ NoDup (service_names services) /\ fst <$> services = VString <$> service_names services
  /\ Forall (fun n => exists scfg, map_get n services = Some (VMapping scfg) /\ unique scfg
       /\ service_ok exists_ path o n scfg) (service_names services).
Proof.
  intros Hv Hw. apply validate_Ok in Hv as (_ & m' & services & [= <-] & Hg & _ & _ & Hall). exists services. split; [done|].
  pose proof (well_keyed_get _ _ _ Hw Hg) as Hws. split; [by destruct Hws|]. by apply (services_named path o).
Qed.

(** The lock of a validated document, in one equation. *)
Lemma lock_document_eq m path ds base proj o services : validate_ (VMapping m) path = Ok o ->
  map_get (lit "services") m = Some (VMapping services) ->
  lock_document_ {| doc := VMapping m; compose_path := path; digests := ds; binds_base := base; project := proj |}
  = match lock_services ds (bind_dests (binds o) base).2 (service_names services) services with
    | Ok services' => Ok (VMapping (map_insert (lit "services") (VMapping services')
                            (map_insert (lit "name") (VString proj) m)), (bind_dests (binds o) base).1)
    | Err e => Err e
    end.
Proof.
  intros Hv Hg. unfold lock_document. cbn [doc compose_path]. rewrite Hv. cbn [mbind result_bind binds_base].
  destruct (bind_dests (binds o) base) as [manifest dest_of]. cbn [project digests fst snd].
  rewrite map_get_insert, decide_False, Hg by done. cbn [mbind option_bind as_mapping untag]. by destruct (lock_services _ _ _ _).
Qed.

(** C12: The lock lets nothing of the host in.  When a lock is made for a
    compose file, the file passed the gate; the lock has the same services, each
    with an image (the pinned one where a digest was supplied, and always for
    a [build:]), without [build], [ports] and [pull_policy], not on the host's
    network, and with every other key as it was; its volumes are those of the
    file, followed by the two harness binds, and every bind among them has a
    source under the guest's bind directory or is one of the two. *)
Theorem lock_is_closed_world req locked manifest :
  well_keyed (doc req) -> 58 ∉ binds_base req -> lock_document_ req = Ok (locked, manifest) ->
  exists m services services' o, doc req = VMapping m /\ validate_ (doc req) (compose_path req) = Ok o
  /\ map_get (lit "services") m = Some (VMapping services)
  /\ value_get "name" locked = Some (VString (project req))
  /\ value_get "services" locked = Some (VMapping services') /\ fst <$> services' = fst <$> services
  /\ manifest = (fun b => (b_src b, b_service b ++ [47] ++ basename b)) <$> binds o
  /\ forall n scfg', map_get n services' = Some (VMapping scfg') -> exists scfg, map_get n services = Some (VMapping scfg)
     /\ locked_as (digests req) (bind_dests (binds o) (binds_base req)).2 n scfg scfg'
     /\ is_Some (get_str "image" scfg') /\ get_str "network_mode" scfg' <> Some (lit "host")
     /\ exists vols, map_get (lit "volumes") scfg' = Some (VSequence vols) /\ Forall (confined (binds_base req)) vols.
Proof.
  destruct req as [doc path ds base proj]. cbn [Compose.doc compose_path binds_base project digests]. intros Hw Hbase Hl.
  assert (Hv : exists o, validate_ doc path = Ok o).
  { unfold lock_document in Hl. cbn [Compose.doc compose_path] in Hl. destruct (validate_ doc path) as [o|e]; [by exists o|done]. }
  destruct Hv as [o Hv]. pose proof (validate_Ok _ _ _ _ _ _ _ _ Hv) as (_ & m & _ & -> & _).
  destruct (validate_named m path o Hv Hw) as (services & Hg & Hu & Hnd & Hnames & Hall).
  rewrite (lock_document_eq m path ds base proj o services Hv Hg) in Hl.
  pose proof (lock_services_spec ds (bind_dests (binds o) base).2 _ services Hnd Hu) as Hls.
  destruct (lock_services _ _ _ _) as [services'|e]; [|done]. injection Hl as <- <-.
  assert (Hall' : Forall (fun n => exists scfg, map_get n services = Some (VMapping scfg) /\ unique scfg) (service_names services)).
  { eapply Forall_impl; [exact Hall|]. by intros n (scfg & ? & ? & _); exists scfg. }
  destruct (Hls Hall') as (Hf & Hu' & _ & Hin). clear Hls Hall'.
  exists m, services, services', o. do 3 (split; [done|]). unfold value_get. cbn [as_mapping untag mbind option_bind].
  split; [rewrite map_get_insert, decide_False by (by intros ?); by rewrite map_get_insert, decide_True by reflexivity|].
  split; [by rewrite map_get_insert, decide_True|]. split; [done|]. split; [apply bind_dests_manifest|].
  intros n scfg' Hn. assert (Hmem : n ∈ service_names services).
  { apply map_get_elem in Hn. assert (H : VString n ∈ fst <$> services') by (apply list_elem_of_fmap; by exists (VString n, VMapping scfg')).
    rewrite Hf, Hnames in H. apply list_elem_of_fmap in H as (k & [= <-] & H). done. }
  rewrite Forall_forall in Hin, Hall. destruct (Hin n Hmem) as (scfg & c' & Hsc & Hc' & Hlk).
  assert (c' = scfg') as -> by congruence. destruct (Hall n Hmem) as (scfg0 & Hsc0 & _ & Hok). assert (scfg0 = scfg) as -> by congruence.
  exists scfg. split; [done|]. split; [done|]. split; [|split].
  - rewrite (lk_image _ _ _ _ _ Hlk). unfold locked_image. pose proof (so_source _ _ _ _ _ Hok) as Hsrc.
    destruct (contains_key (lit "build") scfg) eqn:Ec.
    + destruct (ds !! _) as [pin|] eqn:Ed; [by eexists|].
      destruct (lk_baked _ _ _ _ _ Hlk Ec) as [? ?]. congruence.
    + rewrite contains_key_spec in Ec. apply bool_decide_eq_false in Ec. apply eq_None_not_Some in Ec. rewrite Ec in Hsrc.
      destruct Hsrc as (img & -> & _). by eexists.
  - unfold get_str. rewrite (lk_rest _ _ _ _ _ Hlk); [apply Hok|]. apply (bool_decide_unpack _). by vm_compute.
  - eexists. split; [apply Hlk|]. apply Forall_app. split; [|apply Forall_cons; split; [|apply Forall_cons; split; [|done]]; right; [by left|by right]].
    apply Forall_fmap. unfold volumes_of. destruct (map_get (lit "volumes") scfg) as [[]|] eqn:Ev; try done.
    eapply Forall_impl; [by eapply so_binds|]. intros entry He. by eapply rewrite_volume_confined.
Qed.

End gate_and_lock.

(** ** A validated document has a lock *)

Section totality.
Context (exists_ is_dir is_file : str -> bool) (read_to_string : str -> result Z str) (num_str : Num -> str).
Context (display : spec_float -> list Z).

(** C14: A compose file that passes the gate has a lock, unless an image was not
    built: making the lock then fails with [NotBaked], naming a build context
    that validation recorded and the tag no digest was supplied for.  No other
    error of the lock can occur.  The rendering panics exactly when a key or
    scalar of the lock starts with a sign and a colon; otherwise its text is the
    header and the document. *)
Theorem validated_lock_total req o : well_keyed (doc req) ->
  validate exists_ is_dir is_file read_to_string num_str (doc req) (compose_path req) = Ok o ->
  let emitted := emit_lock exists_ is_dir is_file read_to_string num_str display req in
  match lock_document exists_ is_dir is_file read_to_string num_str req with
  | Ok (locked, manifest) =>
      if existsb panics (texts display locked) then emitted = None
      else exists yaml, emit_yaml display locked = Some yaml
           /\ emitted = Some (Ok {| lock_yaml := as_bytes LOCK_HEADER ++ yaml; bind_manifest := manifest |})
  | Err e => emitted = Some (Err e) /\ exists ctx, ctx ∈ builds o /\ digests req !! image_tag ctx = None
      /\ e = Internal (NotBaked (bc_service ctx) (image_tag ctx))
  end.
Proof.
  destruct req as [doc path ds base proj]. cbn [Compose.doc compose_path digests]. intros Hw Hv. unfold emit_lock.
  pose proof (validate_Ok _ _ _ _ _ _ _ _ Hv) as (_ & m & _ & -> & _).
  destruct (validate_named _ _ _ _ _ m path o Hv Hw) as (services & Hg & Hu & Hnd & Hnames & Hall).
  rewrite (lock_document_eq _ _ _ _ _ m path ds base proj o services Hv Hg).
  pose proof (lock_services_spec ds (bind_dests (binds o) base).2 _ services Hnd Hu) as Hls.
  assert (Hall' : Forall (fun n => exists scfg, map_get n services = Some (VMapping scfg) /\ unique scfg) (service_names services)).
  { eapply Forall_impl; [exact Hall|]. by intros n (scfg & ? & ? & _); exists scfg. }
  specialize (Hls Hall'). destruct (lock_services _ _ _ _) as [services'|e].
  - set (locked := VMapping _). unfold emit_yaml. pose proof (emit_node_total display locked false emitter_new) as Ht.
    destruct (emit_node display locked false emitter_new) as [e|]; [destruct Ht as [_ ->]|by rewrite Ht].
    eexists. by split.
  - split; [done|]. destruct Hls as (n & scfg & Hn & Hsc & Hb & Hd & ->). rewrite Forall_forall in Hall.
    destruct (Hall n Hn) as (scfg0 & Hsc0 & _ & Hok). assert (scfg0 = scfg) as -> by congruence.
    pose proof (so_source _ _ _ _ _ Hok) as Hsrc. rewrite contains_key_spec, bool_decide_eq_true in Hb. destruct Hb as [bv Hb].
    rewrite Hb in Hsrc. destruct Hsrc as (ctx & Hc & <- & Ht & _). exists ctx. rewrite Ht. done.
Qed.

End totality.

(** ** A small stack *)

Definition str_entry (k v : string) : Value * Value := (VString (lit k), VString (lit v)).

(** One service from an image, with a published port and two binds. *)
Definition web_service : list (Value * Value) :=
  [str_entry "image" "nginx"; (VString (lit "ports"), VSequence [VString (lit "80:80")]);
   (VString (lit "volumes"), VSequence [VString (lit "./site:/srv:ro"); VString (lit "cache:/var")])].

(** And one that is built. *)
Definition job_service : list (Value * Value) := [str_entry "build" "./job"; str_entry "command" "run"].

Definition web_doc : Value :=
  VMapping [(VString (lit "services"), VMapping [(VString (lit "web"), VMapping web_service); (VString (lit "job"), VMapping job_service)])].

Definition web_req (digests : gmap str str) : EmitLockRequest :=
  {| doc := web_doc; compose_path := lit "/p/compose.yml"; digests := digests; binds_base := lit "/b"; project := lit "p" |}.

Definition web_file (path : str) : result Z str :=
  if bool_decide (path = lit "/p/job/Dockerfile") then Ok (lit "FROM a@sha256:0" ++ [10]) else Err 2.

Definition job_digests : gmap str str := {[ lit "localhost/tdvmm-build-job:baked" := lit "job@sha256:1" ]}.

Lemma web_doc_well_keyed : well_keyed web_doc.
Proof.
  assert (Hnd : forall (l : list str), bool_decide (NoDup l) = true -> NoDup (VString <$> l)).
  { intros l Hl%bool_decide_eq_true. apply NoDup_fmap; [|done]. by intros ? ? [= ->]. }
  split; [by apply (Hnd [lit "services"])|]. split; [|done]. split; [by apply (Hnd [lit "web"; lit "job"])|].
  split; [split; [by apply (Hnd [lit "image"; lit "ports"; lit "volumes"])|]|split; [|done]]; [by split_and!|].
  split; [by apply (Hnd [lit "build"; lit "command"])|]. by split_and!.
Qed.

Definition web_locked : Value * list (str * str) :=
  match lock_document (fun _ => true) (fun _ => true) (fun _ => true) web_file (fun _ => []) (web_req job_digests) with
  | Ok locked => locked | Err _ => (VNull, []) end.

(** The stack is locked: the manifest has its one bind. *)
Lemma lock_is_closed_world_witness :
  web_locked.2 = [(lit "/p/site", lit "web/site")] /\ exists m services services' o, web_doc = VMapping m
  /\ validate (fun _ => true) (fun _ => true) (fun _ => true) web_file (fun _ => []) web_doc (lit "/p/compose.yml") = Ok o
  /\ map_get (lit "services") m = Some (VMapping services) /\ value_get "services" web_locked.1 = Some (VMapping services')
  /\ fst <$> services' = fst <$> services.
Proof.
  split; [by vm_compute|].
  destruct (lock_is_closed_world (fun _ => true) (fun _ => true) (fun _ => true) web_file (fun _ => []) (web_req job_digests)
    web_locked.1 web_locked.2 web_doc_well_keyed ltac:(by apply (bool_decide_unpack _); vm_compute) ltac:(by vm_compute))
    as (m & services & services' & o & Hd & Hv & Hs & _ & Hs' & Hk & _).
  by exists m, services, services', o.
Defined.

Lemma web_validates : exists o,
  validate (fun _ => true) (fun _ => true) (fun _ => true) web_file (fun _ => []) web_doc (lit "/p/compose.yml") = Ok o.
Proof. by eexists. Qed.

(** Without the digest of the built image there is no lock. *)
Lemma validated_lock_total_witness : exists o ctx,
  validate (fun _ => true) (fun _ => true) (fun _ => true) web_file (fun _ => []) web_doc (lit "/p/compose.yml") = Ok o
  /\ ctx ∈ builds o /\ bc_service ctx = lit "job"
  /\ emit_lock (fun _ => true) (fun _ => true) (fun _ => true) web_file (fun _ => []) (fun _ => []) (web_req ∅)
     = Some (Err (Internal (NotBaked (bc_service ctx) (image_tag ctx)))).
Proof.
  destruct web_validates as [o Hv].
  pose proof (validated_lock_total (fun _ => true) (fun _ => true) (fun _ => true) web_file (fun _ => []) (fun _ => []) (web_req ∅) o
    web_doc_well_keyed Hv) as H.
  change (lock_document _ _ _ _ _ _) with (Err (A := Value * list (str * str)) (Internal (NotBaked (lit "job") (lit "localhost/tdvmm-build-job:baked")))) in H.
  cbv zeta iota beta in H. destruct H as (He & ctx & Hc & _ & E). exists o, ctx. split; [done|]. split; [done|].
  rewrite He, E. split; [congruence|done].
Defined.

(** ** What the gate lets through *)

(** An alias is entered before its own line is judged: an external base of the
    same name is taken for the stage and not recorded. *)
Lemma alias_hides_its_base :
  dockerfile_froms (lit "FROM alpine AS alpine" ++ [10] ++ lit "FROM a@sha256:0") = [lit "a@sha256:0"].
Proof. by vm_compute. Qed.

(** Two binds of a service whose sources end alike have one destination. *)
Lemma binds_collide :
  let b src target := {| b_service := lit "web"; b_src := lit src; b_target := lit target; basename := lit "conf" |} in
  let r := bind_dests [b "/p/a/conf" "/a"; b "/p/b/conf" "/b"] (lit "/x") in
  r.1 = [(lit "/p/a/conf", lit "web/conf"); (lit "/p/b/conf", lit "web/conf")]
  /\ r.2 !! (lit "web", lit "/a") = Some (lit "/x/web/conf") /\ r.2 !! (lit "web", lit "/b") = Some (lit "/x/web/conf").
Proof. by vm_compute. Qed.

(** A document that passes the gate and whose lock panics the emitter. *)
Lemma validated_lock_can_panic :
  let doc := VMapping [(VString (lit "services"), VMapping [(VString (lit "web"), VMapping [str_entry "image" "nginx"; str_entry "command" "-:x"])])] in
  let req := {| doc := doc; compose_path := lit "/p/c"; digests := ∅; binds_base := lit "/b"; project := lit "p" |} in
  emit_lock (fun _ => true) (fun _ => true) (fun _ => true) web_file (fun _ => []) (fun _ => []) req = None.
Proof. by vm_compute. Qed.
