(* ===== verification/Files.v ===== *)
(** * A file system, as the build pipeline uses one

    What [std::fs] does to a tree of directories and files ([src/src/build]
    writes no other kind of node into its cache), with the host free to fail
    any call, half way through a write if it likes.  A crash is a call that
    fails and is the last. *)

From Stdlib Require Import ZArith Lia.
From stdpp Require Import base numbers gmap list.
From S2P Require Import Prelude.
From S2P Require Import Text.

Open Scope Z_scope.

(** A path is its components, from the root. *)
Definition path : Type := list (list Z).

Inductive Node :=
  | File (bytes : list Z)
  | Dir (entries : gmap (list Z) Node).

Inductive IoError := NotFound | NotADirectory | IsADirectory | NotEmpty | PermissionDenied | InvalidData | HostError.

(** One call of a process: what other processes do to the tree since its
    last one, and whether the host lets it through ([None]) or it fails, and
    how, after some of its steps. *)
Record Turn := { others : Node -> Node; outcome : option (IoError * nat) }.

(** [steps] is history only: the tree before and after each call made. *)
Record World := { fs : Node; turns : list Turn; steps : list (Node * Node) }.

#[export] Instance eta_World : Settable World := fun r => Build_World (fs r) (turns r) (steps r).

Abbreviation IO := (SE IoError World).

(** ** Trees *)

Fixpoint find (p : path) (n : Node) : option Node :=
  match p, n with
  | [], _ => Some n
  | c :: p, Dir m => m !! c ≫= find p
  | _ :: _, File _ => None
  end.

(** The entry at [p] becomes [x]; its parent must be a directory. *)
Fixpoint put (p : path) (x : option Node) (n : Node) : option Node :=
  match p, n with
  | [c], Dir m => Some (Dir (partial_alter (fun _ => x) c m))
  | c :: p, Dir m => child ← m !! c; child ← put p x child; Some (Dir (<[c := child]> m))
  | _, _ => None
  end.

Definition file_at (p : path) (n : Node) : option (list Z) :=
  match find p n with Some (File bytes) => Some bytes | _ => None end.

Definition is_dir_at (p : path) (n : Node) : bool :=
  match find p n with Some (Dir _) => true | _ => false end.

(** [create_dir_all], a component at a time. *)
Fixpoint mkdirs (p : path) (n : Node) : option Node :=
  match p, n with
  | [], Dir _ => Some n
  | c :: p, Dir m => child ← mkdirs p (default (Dir ∅) (m !! c)); Some (Dir (<[c := child]> m))
  | _, File _ => None
  end.

(** ** Calls *)

Definition next_turn (w : World) : Turn * list Turn :=
  match turns w with t :: ts => (t, ts) | [] => ({| others := id; outcome := None |}, []) end.

(** [op] when its turn comes; [left_] is what a failure leaves. *)
Definition call {A} (left_ : nat -> Node -> Node) (op : Node -> result IoError (A * Node)) : IO A := fun w =>
  let '(t, ts) := next_turn w in
  let n := others t (fs w) in
  let '(r, n') := match outcome t with
                  | Some (e, k) => (Err e, left_ k n)
                  | None => match op n with Ok (a, n') => (Ok a, n') | Err e => (Err e, n) end
                  end in
  (r, {| fs := n'; turns := ts; steps := (n, n') :: steps w |}).

Definition unchanged (_ : nat) (n : Node) : Node := n.

Definition observe {A} (f : Node -> result IoError A) : IO A := call unchanged (fun n => a ← f n; Ok (a, n)).

Definition read (p : path) : IO (list Z) :=
  observe (fun n => match find p n with
                    | Some (File bytes) => Ok bytes
                    | Some (Dir _) => Err IsADirectory
                    | None => Err NotFound
                    end).

(** A write that fails may have created the file and written part of it. *)
Definition write_node (p : path) (bytes : list Z) (n : Node) : result IoError Node :=
  match find p n with
  | Some (Dir _) => Err IsADirectory
  | _ => match put p (Some (File bytes)) n with Some n => Ok n | None => Err NotFound end
  end.

Definition write (p : path) (bytes : list Z) : IO unit :=
  call (fun k n => match k with
                   | O => n
                   | S k => match write_node p (take k bytes) n with Ok n' => n' | Err _ => n end
                   end)
       (fun n => n' ← write_node p bytes n; Ok (tt, n')).

(** [fs::copy]: the source is read, the destination written. *)
Definition copy (src dst : path) : IO unit := bytes ← read src; write dst bytes.

Definition create_dir_all (p : path) : IO unit :=
  call (fun k n => default n (mkdirs (take k p) n))
       (fun n => match mkdirs p n with Some n' => Ok (tt, n') | None => Err NotADirectory end).

(** [fs::rename]: it takes the place of nothing, of an empty directory if it is
    one, or of a file if it is a file; it happens at once or not at all. *)
Definition rename_node (src dst : path) (n : Node) : result IoError Node :=
  match find src n with
  | None => Err NotFound
  | Some x =>
      match x, find dst n with
      | Dir _, Some (File _) => Err NotADirectory
      | File _, Some (Dir _) => Err IsADirectory
      | Dir _, Some (Dir m) =>
          if bool_decide (m = ∅) then
            match put src None n ≫= put dst (Some x) with Some n' => Ok n' | None => Err NotFound end
          else Err NotEmpty
      | _, _ => match put src None n ≫= put dst (Some x) with Some n' => Ok n' | None => Err NotFound end
      end
  end.

Definition rename (src dst : path) : IO unit :=
  call unchanged (fun n => n' ← rename_node src dst n; Ok (tt, n')).

(** [remove_file], and [remove_dir_all], which may stop part of the way. *)
Definition remove_file (p : path) : IO unit :=
  call unchanged (fun n => match find p n with
                           | Some (File _) => match put p None n with Some n' => Ok (tt, n') | None => Err NotFound end
                           | Some (Dir _) => Err IsADirectory
                           | None => Err NotFound
                           end).

Definition remove_dir_all (p : path) : IO unit :=
  call (fun k n => match find p n with
                   | Some (Dir m) => default n (put p (Some (Dir (list_to_map (drop k (map_to_list m))))) n)
                   | _ => n
                   end)
       (fun n => match find p n with
                 | Some (Dir _) => match put p None n with Some n' => Ok (tt, n') | None => Err NotFound end
                 | Some (File _) => Err NotADirectory
                 | None => Err NotFound
                 end).

(** [Path::exists], [is_file], [is_dir]: a failed call is a no. *)
Definition probe (f : Node -> bool) : IO bool := fun w =>
  match observe (fun n => Ok (f n)) w with
  | (Ok b, w) => (Ok b, w)
  | (Err _, w) => (Ok false, w)
  end.

Definition path_exists (p : path) : IO bool := probe (fun n => bool_decide (is_Some (find p n))).
Definition is_file (p : path) : IO bool := probe (fun n => bool_decide (is_Some (file_at p n))).
Definition is_dir (p : path) : IO bool := probe (is_dir_at p).

(** ** Lemmas on trees *)

(** Neither is in the other's subtree. *)
Definition apart (p q : path) : Prop := ~ p `prefix_of` q /\ ~ q `prefix_of` p.

#[export] Instance apart_dec p q : Decision (apart p q).
Proof. unfold apart. apply _. Defined.

Lemma apart_sym p q : apart p q -> apart q p.
Proof. by intros []. Qed.

Lemma apart_cons c p q : apart (c :: p) (c :: q) -> apart p q.
Proof. intros [H1 H2]. split; intros Hp; [apply H1|apply H2]; by apply prefix_cons. Qed.

(** Siblings are apart, and so is what is below them. *)
Lemma apart_siblings (r : path) a b p q : a <> b -> apart (r ++ a :: p) (r ++ b :: q).
Proof.
  intros Hab. split; intros Hp; apply prefix_app_inv in Hp; by apply prefix_cons_inv_1 in Hp.
Qed.

Lemma apart_below p q r : apart p q -> apart (p ++ r) q.
Proof.
  intros [H1 H2]. split; intros Hp.
  - apply H1. etrans; [by apply prefix_app_r|exact Hp].
  - destruct (prefix_weak_total p q (p ++ r)) as [?|?]; [by apply prefix_app_r|done|done|done].
Qed.

Lemma find_app p q n : find (p ++ q) n = find p n ≫= find q.
Proof.
  revert n. induction p as [|c p IH]; intros n; [done|]. destruct n as [b|m]; [done|].
  cbn. destruct (m !! c); [apply IH|done].
Qed.

Lemma find_put p x : forall n n', put p x n = Some n' ->
  find p n' = x /\ (forall q, apart p q -> find q n' = find q n).
Proof.
  induction p as [|c p IH]; intros n n'; [by destruct n|].
  destruct p as [|c' p]; (destruct n as [b|m]; [done|]); cbn [put].
  - intros [= <-]. split.
    + cbn. rewrite lookup_partial_alter_eq. by destruct x.
    + intros [|c' q] Ha; [exfalso; apply Ha; apply prefix_nil|]. cbn.
      destruct (decide (c = c')) as [<-|Hne]; [|by rewrite lookup_partial_alter_ne].
      exfalso. destruct Ha as [Ha _]. apply Ha. apply prefix_cons, prefix_nil.
  - destruct (m !! c) as [child|] eqn:Ec; [|done].
    intros E. change (put (c' :: p) x child ≫= (fun child => Some (Dir (<[c := child]> m))) = Some n') in E.
    destruct (put (c' :: p) x child) as [child'|] eqn:Ep; [|done]. injection E as <-. destruct (IH _ _ Ep) as [Hs Hq]. split.
    + change (<[c := child']> m !! c ≫= find (c' :: p) = x). by rewrite lookup_insert_eq.
    + intros [|d q] Ha; [exfalso; apply Ha; apply prefix_nil|].
      change (<[c := child']> m !! d ≫= find q = m !! d ≫= find q). destruct (decide (c = d)) as [<-|Hne].
      * rewrite lookup_insert_eq, Ec. cbn. apply Hq. by eapply apart_cons.
      * by rewrite lookup_insert_ne.
Qed.

Lemma find_put_below p x q n n' : put p x n = Some n' -> find (p ++ q) n' = x ≫= find q.
Proof. intros Hp. apply find_put in Hp as [Hf _]. by rewrite find_app, Hf. Qed.

(** Making directories makes only directories, on the way. *)
Lemma find_mkdirs p : forall n n', mkdirs p n = Some n' ->
  is_dir_at p n' = true /\ (forall q, ~ q `prefix_of` p -> find q n' = find q n).
Proof.
  induction p as [|c p IH]; intros n n'; cbn [mkdirs]; destruct n as [b|m]; try done.
  - intros [= <-]. done.
  - destruct (mkdirs p _) as [child|] eqn:Ec; [|done]. intros [= <-]. apply IH in Ec as [Hd Hq]. split.
    + unfold is_dir_at in *. cbn. by rewrite lookup_insert_eq.
    + intros [|d q] Hn; [exfalso; apply Hn, prefix_nil|]. cbn. destruct (decide (c = d)) as [<-|Hne].
      * rewrite lookup_insert_eq. cbn. rewrite Hq by (intros Hp; apply Hn; by apply prefix_cons).
        destruct (m !! c) as [x|]; [done|]. cbn. destruct q as [|d q]; [exfalso; apply Hn, prefix_cons, prefix_nil|].
        change ((∅ : gmap (list Z) Node) !! d ≫= find q = None). by rewrite lookup_empty.
      * by rewrite lookup_insert_ne.
Qed.

(** What [rename] leaves. *)
Lemma find_rename src dst n n' : apart src dst -> rename_node src dst n = Ok n' ->
  (forall q, find (dst ++ q) n' = find (src ++ q) n) /\ (forall q, apart src q -> apart dst q -> find q n' = find q n).
Proof.
  intros Ha. unfold rename_node. destruct (find src n) as [x|] eqn:Es; [|done].
  assert (Hput : forall n', put src None n ≫= put dst (Some x) = Some n' ->
    (forall q, find (dst ++ q) n' = find (src ++ q) n) /\ (forall q, apart src q -> apart dst q -> find q n' = find q n)).
  { intros n1 E. destruct (put src None n) as [n0|] eqn:E0; [|done]. cbn in E. split.
    - intros q. rewrite (find_put_below _ _ _ _ _ E), find_app, Es. done.
    - intros q Hsq Hdq. apply find_put in E as [_ E], E0 as [_ E0]. by rewrite E, E0. }
  destruct x, (find dst n) as [[]|]; try done; try case_bool_decide; try done;
    (destruct (put src None n ≫= _) as [n1|] eqn:E; [|done]; intros [= <-]; by apply Hput).
Qed.

Lemma file_at_below p q n : file_at (p ++ q) n = find p n ≫= file_at q.
Proof. unfold file_at. rewrite find_app. by destruct (find p n). Qed.

(** A directory that holds something is in the way of a rename. *)
Lemma rename_in_the_way src dst n f bytes : file_at (dst ++ [f]) n = Some bytes -> exists e, rename_node src dst n = Err e.
Proof.
  rewrite file_at_below. destruct (find dst n) as [[b|m]|] eqn:Ed; [done| |done]. cbn. unfold file_at. cbn.
  intros Hm. unfold rename_node. rewrite Ed. destruct (find src n) as [[]|]; try by eexists.
  rewrite bool_decide_false; [by eexists|]. intros ->. by rewrite lookup_empty in Hm.
Qed.

(** Only what is at, above or below a path looks different after a call there. *)
Definition same_but (K : path -> Prop) (n n' : Node) : Prop := forall q, K q -> find q n' = find q n.

Lemma write_node_spec p bytes n n' : write_node p bytes n = Ok n' ->
  file_at p n' = Some bytes /\ same_but (apart p) n n'.
Proof.
  unfold write_node, file_at. destruct (find p n) as [[b|m]|]; [|done|];
    (destruct (put p _ n) as [n1|] eqn:Ep; [|done]; intros [= <-]; apply find_put in Ep as [-> Hq]; done).
Qed.

(** ** Calls, whatever the host decides

    [triple R G P m Q E], where the other processes act within [R]: from a tree
    in [P], whatever calls the host makes fail, each call acts within [G], a
    result leaves a tree in [Q] and an error one in [E]. *)
Section triples.
Variables R G : Node -> Node -> Prop.

Definition stable (P : Node -> Prop) : Prop := forall n n', R n n' -> P n -> P n'.

Definition relies (w : World) : Prop := Forall (fun t => forall n, R n (others t n)) (turns w).

Definition triple {X A} (P : Node -> Prop) (m : SE X World A) (Q : A -> Node -> Prop) (E : Node -> Prop) : Prop :=
  forall w, relies w -> P (fs w) ->
  let '(r, w') := m w in
  relies w' /\ (exists ss, steps w' = ss ++ steps w /\ Forall (fun s => G s.1 s.2) ss) /\
  match r with Ok a => Q a (fs w') | Err _ => E (fs w') end.

Lemma triple_ret {X A} (P : Node -> Prop) (a : A) (Q : A -> Node -> Prop) E :
  (forall n, P n -> Q a n) -> triple (X := X) P (mret a) Q E.
Proof. intros HQ w Hr Hw. split_and!; [done|by exists []|by apply HQ]. Qed.

Lemma triple_bind {X A B} (P : Node -> Prop) (m : SE X World A) (Q : A -> Node -> Prop) (k : A -> SE X World B) S E :
  triple P m Q E -> (forall a, triple (Q a) (k a) S E) -> triple P (m ≫= k) S E.
Proof.
  intros Hm Hk w Hr Hw. specialize (Hm w Hr Hw). unfold mbind, SE_bind.
  destruct (m w) as [[a|e] w1]; [|done]. destruct Hm as (Hr1 & (ss & Hs & Hss) & Hq).
  specialize (Hk a w1 Hr1 Hq). destruct (k a w1) as [r w2]. destruct Hk as (Hr2 & (ss' & Hs' & Hss') & Hk).
  split_and!; [done| |done]. exists (ss' ++ ss). rewrite Hs', Hs, (assoc_L (++)). split; [done|]. by apply Forall_app.
Qed.

Lemma triple_weaken {X A} (P P' : Node -> Prop) (m : SE X World A) (Q Q' : A -> Node -> Prop) (E E' : Node -> Prop) :
  triple P m Q E -> (forall n, P' n -> P n) -> (forall a n, Q a n -> Q' a n) -> (forall n, E n -> E' n) ->
  triple P' m Q' E'.
Proof.
  intros Hm HP HQ HE w Hr Hw. specialize (Hm w Hr (HP _ Hw)).
  destruct (m w) as [[a|e] w']; destruct Hm as (? & ? & ?); split_and!; auto.
Qed.

(** What is known of the tree may depend on a value, or be a fact. *)
Lemma triple_exists {X A B} (P : B -> Node -> Prop) (m : SE X World A) Q E :
  (forall b, triple (P b) m Q E) -> triple (fun n => exists b, P b n) m Q E.
Proof. intros Hm w Hr [b Hw]. by apply (Hm b). Qed.

Lemma triple_fact {X A} (phi : Prop) (P : Node -> Prop) (m : SE X World A) Q E :
  (phi -> triple P m Q E) -> triple (fun n => phi /\ P n) m Q E.
Proof. intros Hm w Hr [Hphi Hw]. by apply Hm. Qed.

(** A step whose error is held or dropped. *)
Lemma triple_attempt {X Y A} (P : Node -> Prop) (m : SE X World A) (Q : A -> Node -> Prop) (E E' : Node -> Prop) :
  triple P m Q E -> triple (X := Y) P (attempt m) (fun r n => match r with Ok a => Q a n | Err _ => E n end) E'.
Proof.
  intros Hm w Hr Hw. specialize (Hm w Hr Hw). unfold attempt. by destruct (m w) as [[a|e] w'].
Qed.

Lemma triple_map_err {X Y A} (f : X -> Y) (P : Node -> Prop) (m : SE X World A) (Q : A -> Node -> Prop) (E : Node -> Prop) :
  triple P m Q E -> triple P (map_err f m) Q E.
Proof. intros Hm w Hr Hw. specialize (Hm w Hr Hw). unfold map_err. by destruct (m w) as [[a|e] w']. Qed.

Lemma triple_fail {X A} (e : X) (P : Node -> Prop) (Q : A -> Node -> Prop) : triple P (fail e) Q P.
Proof. intros w Hr Hw. split_and!; [done|by exists []|done]. Qed.

Lemma triple_ignore {X Y A} (P : Node -> Prop) (m : SE X World A) (Q : Node -> Prop) (E : Node -> Prop) :
  triple P m (fun _ => Q) Q -> triple (X := Y) P (ignore m) (fun _ => Q) E.
Proof. intros Hm w Hr Hw. specialize (Hm w Hr Hw). unfold ignore. by destruct (m w) as [[a|e] w']. Qed.

Context `{!Reflexive G}.

(** A call goes through or leaves what it leaves. *)
Lemma triple_call {A} (P : Node -> Prop) left_ (op : Node -> result IoError (A * Node)) (Q : A -> Node -> Prop) (E : Node -> Prop) :
  stable P ->
  (forall n a n', P n -> op n = Ok (a, n') -> Q a n' /\ G n n') -> (forall n, P n -> E n) ->
  (forall n k, P n -> E (left_ k n) /\ G n (left_ k n)) ->
  triple P (call left_ op) Q E.
Proof.
  intros HP HQ HE Hk w Hr Hw. unfold call, next_turn.
  assert (Hn : forall t ts, turns w = t :: ts -> P (others t (fs w))).
  { intros t ts Et. unfold relies in Hr. rewrite Et in Hr. apply Forall_cons in Hr as [Hr _]. by eapply HP. }
  assert (Hts : forall t ts, turns w = t :: ts -> Forall (fun t => forall n, R n (others t n)) ts).
  { intros t ts Et. unfold relies in Hr. rewrite Et in Hr. by apply Forall_cons in Hr as [_ ?]. }
  assert (Hgo : forall o ts n, P n -> Forall (fun t => forall n, R n (others t n)) ts ->
    let '(r, n') := match o with Some (e, k) => (Err e, left_ k n)
                    | None => match op n with Ok (a, n') => (Ok a, n') | Err e => (Err e, n) end end in
    G n n' /\ match r with Ok a => Q a n' | Err _ => E n' end).
  { intros [[e k]|] ts n Hpn _; [by destruct (Hk n k Hpn)|].
    destruct (op n) as [[a n']|e] eqn:Eop; [by destruct (HQ _ _ _ Hpn Eop)|split; [done|by apply HE]]. }
  destruct (turns w) as [|t ts] eqn:Et.
  - specialize (Hgo None [] (fs w) Hw ltac:(constructor)). cbn [others outcome id] in *.
    destruct (match op (fs w) with Ok _ => _ | Err _ => _ end) as [r n']. destruct Hgo as [Hg Hq].
    split_and!; [by constructor|eexists [_]; split; [done|by constructor]|done].
  - specialize (Hgo (outcome t) ts (others t (fs w)) (Hn _ _ eq_refl) (Hts _ _ eq_refl)).
    destruct (match outcome t with Some _ => _ | None => _ end) as [r n']. destruct Hgo as [Hg Hq].
    split_and!; [by eapply Hts|eexists [_]; split; [done|by constructor]|done].
Qed.

(** A call that changes nothing. *)
Lemma triple_observe {A} (P : Node -> Prop) (f : Node -> result IoError A) : stable P ->
  triple P (observe f) (fun a n => P n /\ f n = Ok a) P.
Proof.
  intros HP. apply triple_call; [done| |done|done]. intros n a n' Hn.
  destruct (f n) as [b|e] eqn:Ef; [|done]. intros [= <- <-]. by rewrite Ef.
Qed.

Lemma triple_read (P : Node -> Prop) p : stable P ->
  triple P (read p) (fun bytes n => P n /\ file_at p n = Some bytes) P.
Proof.
  intros HP. eapply triple_weaken; [by apply triple_observe|done| |done]. cbn. intros bytes n [Hn Hf]. split; [done|].
  unfold file_at. by destruct (find p n) as [[]|]; simplify_eq.
Qed.

Lemma triple_probe (P : Node -> Prop) f (E : Node -> Prop) : stable P ->
  triple P (probe f) (fun b n => P n /\ (b = true -> f n = true)) E.
Proof.
  intros HP w Hr Hw. pose proof (triple_observe P (fun n => Ok (f n)) HP w Hr Hw) as Hc. unfold probe.
  destruct (observe _ w) as [[b|e] w']; destruct Hc as (? & ? & Hq); (split; [done|split; [done|]]); [|done].
  by destruct Hq as [Hq [= <-]].
Qed.

Lemma triple_write (P : Node -> Prop) p bytes : stable P ->
  (forall n n', same_but (apart p) n n' -> P n -> P n' /\ G n n') ->
  triple P (write p bytes) (fun _ n => P n /\ file_at p n = Some bytes) P.
Proof.
  intros HP Hk. assert (Hw : forall bs n n', P n -> write_node p bs n = Ok n' -> (P n' /\ file_at p n' = Some bs) /\ G n n').
  { intros bs n n' Hn Ew. apply write_node_spec in Ew as [Hf Hq]. by destruct (Hk _ _ Hq Hn). }
  apply triple_call; [done| |done|].
  - intros n [] n' Hn. destruct (write_node p bytes n) as [n1|] eqn:Ew; [|done]. intros [= <-]. by apply (Hw bytes).
  - intros n [|k] Hn; [done|]. destruct (write_node p _ n) as [n1|] eqn:Ew; [|done]. by destruct (Hw _ _ _ Hn Ew) as [[? ?] ?].
Qed.

Lemma triple_copy (P : Node -> Prop) src dst : stable P ->
  (forall n n', same_but (apart dst) n n' -> P n -> P n' /\ G n n') ->
  triple P (copy src dst) (fun _ n => P n /\ exists bytes, file_at dst n = Some bytes /\
    exists n0, P n0 /\ file_at src n0 = Some bytes) P.
Proof.
  intros HP Hk. eapply triple_bind; [by apply triple_read|]. intros bytes w Hr [Hw Hs].
  pose proof (triple_write P dst bytes HP Hk w Hr Hw) as Hc. destruct (write dst bytes w) as [[[]|e] w']; [|done].
  destruct Hc as (? & ? & Hp & Hf). split_and!; [done..|]. exists bytes. split; [done|]. by exists (fs w).
Qed.

Lemma triple_mkdirs (P : Node -> Prop) p : stable P ->
  (forall n n', same_but (fun q => ~ q `prefix_of` p) n n' -> P n -> P n' /\ G n n') ->
  triple P (create_dir_all p) (fun _ => P) P.
Proof.
  intros HP Hk. assert (Hm : forall k n n', P n -> mkdirs (take k p) n = Some n' -> P n' /\ G n n').
  { intros k n n' Hn Em. apply find_mkdirs in Em as [_ Hq]. apply Hk; [|done]. intros q Hnq. apply Hq. intros Hp.
    apply Hnq. etrans; [exact Hp|]. exists (drop k p). by rewrite take_drop. }
  apply triple_call; [done| |done|].
  - intros n [] n' Hn. destruct (mkdirs p n) as [n1|] eqn:Em; [|done]. intros [= <-].
    apply (Hm (length p) n); [done|by rewrite firstn_all].
  - intros n k Hn. destruct (mkdirs (take k p) n) as [n1|] eqn:Em; [by eapply Hm|done].
Qed.

Lemma triple_remove_dir (P : Node -> Prop) p : stable P ->
  (forall n n', same_but (apart p) n n' -> P n -> P n' /\ G n n') ->
  triple P (remove_dir_all p) (fun _ => P) P.
Proof.
  intros HP Hk. apply triple_call; [done| |done|].
  - intros n [] n' Hn. destruct (find p n) as [[|m]|]; [done| |done].
    destruct (put p None n) as [n1|] eqn:Ep; [|done]. intros [= <-]. apply find_put in Ep as [_ Hq]. by apply Hk.
  - intros n k Hn. destruct (find p n) as [[|m]|]; [done| |done]. destruct (put p _ n) as [n1|] eqn:Ep; [|done].
    apply find_put in Ep as [_ Hq]. by apply Hk.
Qed.
End triples.
