(* ===== verification/Trees.v ===== *)
(** * Trees with modes and links ([src/src/build/fsops.rs])

    The trees a rootfs is put together from have modes and symbolic links, which
    the calls below follow as the kernel does.  They are private to the
    process, which owns what is in them; the host may refuse any call, or stop
    a copy half way.  [copy_tree] is to be [cp -a]: [mirror] is what its comment
    promises, path by path, and its theorem says that it is kept but for two
    cases, which the examples at the end show. *)

From Stdlib Require Import ZArith Lia.
From stdpp Require Import base numbers strings gmap list.
From S2P Require Import Prelude.
From S2P Require Import Text.

Open Scope Z_scope.

(** ** The file system *)

(** A mode is its twelve permission bits. *)
Inductive Node :=
  | File (mode : Z) (bytes : list Z)
  | Link (target : list Z)
  | Dir (mode : Z).

#[export] Instance Node_eq_dec : EqDecision Node.
Proof. solve_decision. Defined.

Abbreviation fpath := (list (list Z)).

(** Every path from the root to what is there, [[]] to the root itself. *)
Abbreviation FsTree := (@gmap fpath _ (@list_countable _ _ (@list_countable _ _ Z_countable)) Node).

Inductive Errno := ENOENT | ENOTDIR | EISDIR | EEXIST | EACCES | ELOOP | EINVAL | ENAMETOOLONG | EIO.

(** What the host does with one call: whether it refuses it, after how many of
    its steps, and the order it lists a directory in. *)
Record Turn := { refused : option (Errno * nat); listed : list (list Z) -> list (list Z) }.

Record World := { tree : FsTree; turns : list Turn }.

Abbreviation FS := (SE Errno World).

Definition next_turn (w : World) : Turn * list Turn :=
  match turns w with t :: ts => (t, ts) | [] => ({| refused := None; listed := id |}, []) end.

(** [op] when its turn comes; [left_] is what a failure leaves. *)
Definition call {A : Type} (left_ : nat -> FsTree -> FsTree) (op : (list (list Z) -> list (list Z)) -> FsTree -> result Errno (A * FsTree)) : FS A := fun w =>
  let '(h, ts) := next_turn w in
  match refused h with
  | Some (e, k) => (Err e, {| tree := left_ k (tree w); turns := ts |})
  | None => match op (listed h) (tree w) with
            | Ok (a, t) => (Ok a, {| tree := t; turns := ts |})
            | Err e => (Err e, {| tree := tree w; turns := ts |})
            end
  end.

Definition unchanged (_ : nat) (t : FsTree) : FsTree := t.

Definition observe {A : Type} (f : FsTree -> result Errno A) : FS A :=
  call unchanged (fun _ t => a ← f t; Ok (a, t)).

Definition update (f : FsTree -> result Errno FsTree) : FS unit :=
  call unchanged (fun _ t => t ← f t; Ok (tt, t)).

(** An observation whose failure is a no. *)
Definition probe (f : FsTree -> result Errno bool) : FS bool := fun w =>
  let '(r, w) := observe f w in (Ok (match r with Ok b => b | Err _ => false end), w).

(** ** Paths and permissions *)

Section process.
(** Whether permissions bind the process, whether it keeps the set-id bits of
    what it writes ([CAP_FSETID]), and its umask. *)
Variables (privileged fsetid : bool) (umask : Z).

Definition may (bits mode : Z) : bool := privileged || (Z.land mode bits =? bits).

(** The kernel's limit on links in one lookup. *)
Definition MAXSYMLINKS : nat := 40.

(** The path [rest] leads to from [cur], with no link in it; [follow] is
    whether the last component may not be a link. *)
Fixpoint walk (links : nat) (follow : bool) (t : FsTree) : fpath -> fpath -> result Errno fpath :=
  fix go cur rest {struct rest} :=
    match rest with
    | [] => Ok cur
    | c :: rest =>
        match t !! cur with
        | Some (Dir m) =>
            if negb (may 64 m) then Err EACCES
            else if bool_decide (c = [] \/ c = lit ".") then go cur rest
            else if bool_decide (c = lit "..") then go (removelast cur) rest
            else match t !! (cur ++ [c]) with
                 | Some (Link target) =>
                     if bool_decide (rest = []) && negb follow then Ok (cur ++ [c])
                     else match links with
                          | O => Err ELOOP
                          | S links =>
                              let '(first, more) := split_char 47 target in
                              walk links follow t (if bool_decide (first = []) then [] else cur) (first :: more ++ rest)
                          end
                 | Some _ => go (cur ++ [c]) rest
                 | None => if bool_decide (rest = []) then Ok (cur ++ [c]) else Err ENOENT
                 end
        | Some _ => Err ENOTDIR
        | None => Err ENOENT
        end
    end.

Definition resolve (follow : bool) (p : fpath) (t : FsTree) : result Errno fpath := walk MAXSYMLINKS follow t [] p.

Definition stat (follow : bool) (p : fpath) (t : FsTree) : result Errno Node :=
  p ← resolve follow p t;
  match t !! p with Some x => Ok x | None => Err ENOENT end.

(** A name may be made or removed in the directory that is to hold [p]. *)
Definition enter (p : fpath) (t : FsTree) : result Errno unit :=
  match t !! removelast p with
  | Some (Dir m) => if may 192 m then Ok tt else Err EACCES
  | Some _ => Err ENOTDIR
  | None => Err ENOENT
  end.

(** Writing takes the set-id bits away. *)
Definition strip (m : Z) : Z :=
  if fsetid then m else let m := Z.ldiff m 2048 in if Z.land m 8 =? 8 then Z.ldiff m 1024 else m.

Definition written_mode (m : Z) (bytes : list Z) : Z := match bytes with [] => m | _ => strip m end.

(** ** Calls *)

Definition symlink_metadata (p : fpath) : FS Node := observe (stat false p).

Definition read_link (p : fpath) : FS (list Z) :=
  observe (fun t => x ← stat false p t; match x with Link target => Ok target | _ => Err EINVAL end).

(** [Path::exists], [is_dir], [is_file]. *)
Definition path_exists (p : fpath) : FS bool := probe (fun t => _ ← stat true p t; Ok true).
Definition is_dir (p : fpath) : FS bool := probe (fun t => x ← stat true p t; Ok (match x with Dir _ => true | _ => false end)).
Definition is_file (p : fpath) : FS bool := probe (fun t => x ← stat true p t; Ok (match x with File _ _ => true | _ => false end)).

Definition read (p : fpath) : FS (list Z) :=
  observe (fun t => x ← stat true p t;
    match x with
    | File m bytes => if may 256 m then Ok bytes else Err EACCES
    | Dir _ => Err EISDIR
    | Link _ => Err ELOOP
    end).

(** [fs::create_dir]: the new directory has the set-group bit of its parent. *)
Definition mkdir_op (p : fpath) (t : FsTree) : result Errno FsTree :=
  p ← resolve false p t;
  match t !! p with
  | Some _ => Err EEXIST
  | None =>
      _ ← enter p t;
      let group := match t !! removelast p with Some (Dir m) => Z.land m 1024 | _ => 0 end in
      Ok (<[p := Dir (Z.lor (Z.ldiff 511 umask) group)]> t)
  end.

Definition create_dir (p : fpath) : FS unit := update (mkdir_op p).

(** [fs::set_permissions]. *)
Definition chmod_op (p : fpath) (mode : Z) (t : FsTree) : result Errno FsTree :=
  p ← resolve true p t;
  match t !! p with
  | Some (File _ bytes) => Ok (<[p := File (Z.land mode 4095) bytes]> t)
  | Some (Dir _) => Ok (<[p := Dir (Z.land mode 4095)]> t)
  | Some (Link _) => Err ELOOP
  | None => Err ENOENT
  end.

Definition set_permissions (p : fpath) (mode : Z) : FS unit := update (chmod_op p mode).

(** The names in a directory. *)
Definition child_of (p k : fpath) : option (list Z) :=
  match last k with Some c => if bool_decide (k = p ++ [c]) then Some c else None | None => None end.

Definition children (p : fpath) (t : FsTree) : list (list Z) := omap (fun kx => child_of p kx.1) (map_to_list t).

Definition read_dir (p : fpath) : FS (list (list Z)) :=
  call unchanged (fun listed t =>
    p ← resolve true p t;
    match t !! p with
    | Some (Dir m) => if may 256 m then Ok (listed (children p t), t) else Err EACCES
    | Some _ => Err ENOTDIR
    | None => Err ENOENT
    end).

(** The next entry of a listing, or its end, may fail to come. *)
Definition next_entry : FS unit := observe (fun _ => Ok tt).

Fixpoint for_entries (f : list Z -> FS unit) (names : list (list Z)) : FS unit :=
  _ ← next_entry;
  match names with
  | [] => mret tt
  | c :: names => _ ← f c; for_entries f names
  end.

(** [open] to write, made if it is not there and emptied if it is; the real path. *)
Definition open_write (p : fpath) (mode : Z) (t : FsTree) : result Errno (fpath * FsTree) :=
  p ← resolve true p t;
  match t !! p with
  | Some (File m _) => if may 128 m then Ok (p, <[p := File (strip m) []]> t) else Err EACCES
  | Some (Dir _) => Err EISDIR
  | Some (Link _) => Err ELOOP
  | None => _ ← enter p t; Ok (p, <[p := File (Z.ldiff mode umask) []]> t)
  end.

Definition fill (p : fpath) (bytes : list Z) (t : FsTree) : FsTree :=
  match t !! p with Some (File m _) => <[p := File (written_mode m bytes) bytes]> t | _ => t end.

(** What an opened file gets, all of it or, on a failure, a piece. *)
Definition fill_call (op : FsTree -> result Errno (fpath * list Z * FsTree)) : FS unit :=
  call (fun k t => match k, op t with
                   | S k, Ok (p, bytes, t) => fill p (take k bytes) t
                   | _, _ => t
                   end)
       (fun _ t => '(p, bytes, t) ← op t; Ok (tt, fill p bytes t)).

(** [fs::write]. *)
Definition write (p : fpath) (bytes : list Z) : FS unit :=
  fill_call (fun t => '(p, t) ← open_write p 438 t; Ok (p, bytes, t)).

(** [fs::copy]: the source is opened, then the destination is, and given the
    source's mode, and then the source is read. *)
Definition copy_op (src dst : fpath) (t : FsTree) : result Errno (fpath * list Z * FsTree) :=
  src ← resolve true src t;
  match t !! src with
  | Some (File m _) =>
      if negb (may 256 m) then Err EACCES
      else '(dst, t) ← open_write dst m t;
           let t := <[dst := File (Z.land m 4095) []]> t in
           Ok (dst, match t !! src with Some (File _ bytes) => bytes | _ => [] end, t)
  | Some (Dir _) => Err EINVAL
  | Some (Link _) => Err ELOOP
  | None => Err ENOENT
  end.

Definition copy (src dst : fpath) : FS unit := fill_call (copy_op src dst).

Definition remove_file (p : fpath) : FS unit :=
  update (fun t => p ← resolve false p t;
    match t !! p with
    | Some (Dir _) => Err EISDIR
    | Some _ => _ ← enter p t; Ok (delete p t)
    | None => Err ENOENT
    end).

(** Everything at and below [p]; a removal that is stopped has removed the
    first of the entries. *)
Definition prune (p : fpath) (t : FsTree) : FsTree := filter (fun kx => ~ p `prefix_of` kx.1) t.

Definition remove_dir_all (p : fpath) : FS unit :=
  call (fun k t => match resolve false p t with
                   | Ok p => foldl (fun t c => prune (p ++ [c]) t) t (take k (children p t))
                   | Err _ => t
                   end)
       (fun _ t => p ← resolve false p t;
          match t !! p with
          | Some (Dir _) => _ ← enter p t; Ok (tt, prune p t)
          | Some (Link _) => _ ← enter p t; Ok (tt, delete p t)
          | Some (File _ _) => Err ENOTDIR
          | None => Err ENOENT
          end).

Definition symlink (target : list Z) (p : fpath) : FS unit :=
  update (fun t => p ← resolve false p t;
    match t !! p with
    | Some _ => Err EEXIST
    | None => _ ← enter p t; Ok (<[p := Link target]> t)
    end).

(** ** [fsops.rs] *)

(** A path of more components than this is longer than the kernel's
    [PATH_MAX] of 4096 bytes. *)
Definition PATH_DEPTH : nat := 2048.

Fixpoint copy_at (depth : nat) (src dst : fpath) : FS unit :=
  match depth with
  | O => fail ENAMETOOLONG
  | S depth =>
      meta ← symlink_metadata src;
      match meta with
      | Link _ => target ← read_link src; _ ← ignore (remove_file dst); symlink target dst
      | Dir mode =>
          there ← path_exists dst;
          _ ← (if there : bool then mret tt else _ ← create_dir dst; set_permissions dst (Z.land mode 4095));
          names ← read_dir src;
          for_entries (fun c => copy_at depth (src ++ [c]) (dst ++ [c])) names
      | File _ _ => copy src dst
      end
  end.

Definition copy_tree (src dst : fpath) : FS unit := copy_at PATH_DEPTH src dst.

Definition copy_dir_contents (src dst : fpath) : FS unit :=
  names ← read_dir src;
  for_entries (fun c => copy_tree (src ++ [c]) (dst ++ [c])) names.

Definition set_mode (p : fpath) (mode : Z) : FS unit := set_permissions p mode.

(** [fs::create_dir_all], on the path reversed. *)
Fixpoint create_dir_all_rev (p : fpath) : FS unit :=
  match p with
  | [] => mret tt
  | c :: up =>
      let here := rev p in
      r ← attempt (create_dir here);
      match r with
      | Ok _ => mret tt
      | Err ENOENT =>
          _ ← create_dir_all_rev up;
          r ← attempt (create_dir here);
          match r with
          | Ok _ => mret tt
          | Err e => there ← is_dir here; if there : bool then mret tt else fail e
          end
      | Err e => there ← is_dir here; if there : bool then mret tt else fail e
      end
  end.

Definition create_dir_all (p : fpath) : FS unit := create_dir_all_rev (rev p).

Definition install_file (src dst : fpath) (mode : Z) : FS unit :=
  _ ← (match dst with [] => mret tt | _ => create_dir_all (removelast dst) end);
  _ ← copy src dst;
  set_mode dst mode.
End process.

(** ** Lookups without links *)

Definition name_ok (c : list Z) : Prop := c <> [] /\ c <> lit "." /\ c <> lit "..".

(** Every directory on the way to [p] is one. *)
Definition grounded (t : FsTree) (p : fpath) : Prop :=
  forall i, (i < length p)%nat -> exists m, t !! take i p = Some (Dir m).

Definition not_link (x : option Node) : Prop := match x with Some (Link _) => False | _ => True end.

Lemma grounded_parent t p c : grounded t (p ++ [c]) <-> grounded t p /\ exists m, t !! p = Some (Dir m).
Proof.
  unfold grounded. rewrite length_app. cbn [length]. split.
  - intros Hg. split.
    + intros i Hi. specialize (Hg i ltac:(lia)). by rewrite take_app_le in Hg by lia.
    + specialize (Hg (length p) ltac:(lia)). by rewrite take_app_length in Hg.
  - intros [Hg Hp] i Hi. destruct (decide (i < length p)%nat) as [Hl|Hl].
    + rewrite take_app_le by lia. by apply Hg.
    + assert (i = length p) as -> by lia. by rewrite take_app_length.
Qed.

Section lookups.
Variable privileged : bool.

Lemma walk_step links follow t cur c rest m : t !! cur = Some (Dir m) -> may privileged 64 m = true -> name_ok c ->
  (rest = [] -> follow = false \/ not_link (t !! (cur ++ [c]))) -> (rest <> [] -> not_link (t !! (cur ++ [c]))) ->
  walk privileged links follow t cur (c :: rest) =
    match rest with
    | [] => Ok (cur ++ [c])
    | _ => match t !! (cur ++ [c]) with Some _ => walk privileged links follow t (cur ++ [c]) rest | None => Err ENOENT end
    end.
Proof.
  intros Hc Hm (Hn1 & Hn2 & Hn3) He Hr. assert (Hb1 : bool_decide (c = [] \/ c = lit ".") = false) by (apply bool_decide_false; tauto).
  assert (Hb2 : bool_decide (c = lit "..") = false) by by apply bool_decide_false.
  destruct links; cbn [walk]; rewrite Hc, Hm, Hb1, Hb2; cbn [negb]; destruct rest as [|d rest];
    destruct (t !! (cur ++ [c])) as [[| |]|] eqn:E; cbn; try done;
    try (by destruct (Hr ltac:(done))); by destruct (He eq_refl) as [->|?].
Qed.

(** A path with directories on the way leads to itself, permissions allowing. *)
Lemma walk_plain links follow t : forall rest cur, Forall name_ok rest ->
  (forall i, (i < length rest)%nat -> exists m, t !! (cur ++ take i rest) = Some (Dir m)) ->
  follow = false \/ not_link (t !! (cur ++ rest)) ->
  walk privileged links follow t cur rest = Ok (cur ++ rest) \/
  (privileged = false /\ walk privileged links follow t cur rest = Err EACCES).
Proof.
  induction rest as [|c rest IH]; intros cur Hn Hg Hf.
  - left. rewrite app_nil_r. by destruct links.
  - apply Forall_cons in Hn as [Hc Hn]. destruct (Hg 0%nat ltac:(cbn; lia)) as [m Hm]. rewrite app_nil_r in Hm.
    destruct (may privileged 64 m) eqn:Ep.
    2:{ right. split; [unfold may in Ep; by destruct privileged|]. destruct links; cbn [walk]; by rewrite Hm, Ep. }
    assert (Hnext : rest <> [] -> exists m', t !! (cur ++ [c]) = Some (Dir m')).
    { intros Hr. destruct rest; [done|]. apply (Hg 1%nat). cbn. lia. }
    rewrite (walk_step links follow t cur c rest m Hm Ep Hc).
    + destruct rest as [|d rest]; [by left|]. destruct (Hnext ltac:(done)) as [m' ->].
      specialize (IH (cur ++ [c]) Hn). rewrite <- (assoc_L (++)) in IH. apply IH; [|done].
      intros i Hi. destruct (Hg (S i) ltac:(cbn in *; lia)) as [m2 H2]. exists m2. by rewrite <- (assoc_L (++)).
    + intros ->. done.
    + intros Hr. by destruct (Hnext Hr) as [m' ->].
Qed.

Lemma resolve_plain follow p t : Forall name_ok p -> grounded t p -> follow = false \/ not_link (t !! p) ->
  resolve privileged follow p t = Ok p \/ (privileged = false /\ resolve privileged follow p t = Err EACCES).
Proof. intros Hn Hg Hf. by apply (walk_plain MAXSYMLINKS follow t p []). Qed.

(** Nothing is found below a file. *)
Lemma walk_blocked links follow t m bytes c : forall rest cur, Forall name_ok rest ->
  (forall i, (i < length rest)%nat -> exists m, t !! (cur ++ take i rest) = Some (Dir m)) ->
  t !! (cur ++ rest) = Some (File m bytes) -> exists e, walk privileged links follow t cur (rest ++ [c]) = Err e.
Proof.
  induction rest as [|d rest IH]; intros cur Hn Hg Hf.
  - rewrite app_nil_r in Hf. destruct links; cbn; rewrite Hf; by eexists.
  - apply Forall_cons in Hn as [Hd Hn]. destruct (Hg 0%nat ltac:(cbn; lia)) as [m' Hm]. rewrite app_nil_r in Hm.
    destruct (may privileged 64 m') eqn:Ep; [|destruct links; cbn [app walk]; rewrite Hm, Ep; by eexists].
    assert (Hnext : exists x, t !! (cur ++ [d]) = Some x /\ not_link (Some x)).
    { destruct rest as [|d' rest]; [by eexists|]. destruct (Hg 1%nat ltac:(cbn; lia)) as [m2 H2]. by eexists. }
    destruct Hnext as (x & Hx & Hl). change ((d :: rest) ++ [c]) with (d :: (rest ++ [c])).
    rewrite (walk_step links follow t cur d _ m' Hm Ep Hd) by (rewrite Hx; auto). destruct (rest ++ [c]) as [|z zs] eqn:Er; [by destruct rest|].
    rewrite Hx. apply IH; [done| |by rewrite <- (assoc_L (++))].
    intros i Hi. destruct (Hg (S i) ltac:(cbn in *; lia)) as [m2 H2]. exists m2. by rewrite <- (assoc_L (++)).
Qed.
End lookups.

Lemma elem_of_children p t c : c ∈ children p t <-> is_Some (t !! (p ++ [c])).
Proof.
  unfold children. rewrite list_elem_of_omap. split.
  - intros ([k x] & Hk & Hc). apply elem_of_map_to_list in Hk. unfold child_of in Hc. cbn in Hc.
    destruct (last k) as [d|]; [|done]. case_bool_decide as E; [|done]. injection Hc as ->. subst k. by exists x.
  - intros [x Hx]. exists (p ++ [c], x). split; [by apply elem_of_map_to_list|]. unfold child_of. cbn. rewrite last_snoc.
    by rewrite bool_decide_true.
Qed.

Lemma children_nodup p t : NoDup (children p t).
Proof.
  unfold children. pose proof (NoDup_fst_map_to_list t) as Hn. induction (map_to_list t) as [|[k x] l IH]; [constructor|].
  apply NoDup_cons in Hn as [Hk Hn]. cbn. destruct (child_of p k) as [c|] eqn:E; [|by apply IH]. constructor; [|by apply IH].
  rewrite list_elem_of_omap. intros ([k' x'] & Hk' & E'). assert (Hsame : forall k, child_of p k = Some c -> k = p ++ [c]).
  { intros k0 E0. unfold child_of in E0. destruct (last k0); [|done]. case_bool_decide; by simplify_eq. }
  apply Hsame in E, E'. cbn in E'. subst. apply Hk. apply list_elem_of_fmap. by eexists (_, x').
Qed.

(** ** Calls, whatever the host decides

    [triple P m Q E]: from a tree in [P], a result leaves a tree in [Q] and an
    error one in [E].  The host is [fair]: a listing has every name once.  When
    things are [calm] it refuses nothing, and an error is the call's own. *)
Section triples.
Variable calm : Prop.

Definition fair (w : World) : Prop :=
  Forall (fun h => (forall l, listed h l ≡ₚ l) /\ (calm -> refused h = None)) (turns w).

Definition triple {A : Type} (P : FsTree -> Prop) (m : FS A) (Q : A -> FsTree -> Prop) (E : FsTree -> Prop) : Prop :=
  forall w, fair w -> P (tree w) ->
  let '(r, w') := m w in
  fair w' /\ match r with Ok a => Q a (tree w') | Err _ => E (tree w') end.

Lemma holds_ret {A : Type} (P : FsTree -> Prop) (a : A) Q E : (forall t, P t -> Q a t) -> triple P (mret a) Q E.
Proof. intros HQ w Hw Hp. split; [done|]. by apply HQ. Qed.

Lemma holds_fail {A : Type} (P : FsTree -> Prop) (e : Errno) (Q : A -> FsTree -> Prop) (E : FsTree -> Prop) :
  (forall t, P t -> E t) -> triple P (fail e) Q E.
Proof. intros HE w Hw Hp. split; [done|]. by apply HE. Qed.

Lemma holds_bind {A B : Type} (P : FsTree -> Prop) (m : FS A) Q (k : A -> FS B) S E :
  triple P m Q E -> (forall a, triple (Q a) (k a) S E) -> triple P (m ≫= k) S E.
Proof.
  intros Hm Hk w Hw Hp. specialize (Hm w Hw Hp). unfold mbind, SE_bind.
  destruct (m w) as [[a|e] w1]; [|done]. destruct Hm as [Hw1 Hq]. by apply Hk.
Qed.

Lemma holds_weaken {A : Type} (P P' : FsTree -> Prop) (m : FS A) (Q Q' : A -> FsTree -> Prop) (E E' : FsTree -> Prop) :
  triple P m Q E -> (forall t, P' t -> P t) -> (forall a t, Q a t -> Q' a t) -> (forall t, E t -> E' t) -> triple P' m Q' E'.
Proof.
  intros Hm HP HQ HE w Hw Hp. specialize (Hm w Hw (HP _ Hp)). destruct (m w) as [[a|e] w']; destruct Hm; split; auto.
Qed.

Lemma holds_assoc {A B C : Type} (P : FsTree -> Prop) (m : FS A) (f : A -> FS B) (g : B -> FS C) Q E :
  triple P ((m ≫= f) ≫= g) Q E -> triple P (m ≫= fun a => f a ≫= g) Q E.
Proof. intros Hm w Hw Hp. specialize (Hm w Hw Hp). unfold mbind, SE_bind in *. by destruct (m w) as [[a|e] w1]. Qed.

Lemma holds_ignore {A : Type} (P : FsTree -> Prop) (m : FS A) (Q E : FsTree -> Prop) :
  triple P m (fun _ => Q) Q -> triple P (ignore m) (fun _ => Q) E.
Proof. intros Hm w Hw Hp. specialize (Hm w Hw Hp). unfold ignore. by destruct (m w) as [[a|e] w']. Qed.

(** From a known tree. *)
Definition from {A : Type} (t0 : FsTree) := triple (A := A) (fun t => t = t0).

Lemma from_weaken {A : Type} t0 (m : FS A) (Q Q' : A -> FsTree -> Prop) (E E' : FsTree -> Prop) :
  from t0 m Q E -> (forall a t, Q a t -> Q' a t) -> (forall t, E t -> E' t) -> from t0 m Q' E'.
Proof. intros Hm HQ HE. by eapply holds_weaken; [exact Hm|..]. Qed.

Lemma holds_from {A : Type} (P : FsTree -> Prop) (m : FS A) Q E : (forall t, P t -> from t m Q E) -> triple P m Q E.
Proof. intros Hm w Hw Hp. by apply (Hm _ Hp). Qed.

Lemma from_call {A : Type} t0 left_ (op : _ -> FsTree -> result Errno (A * FsTree)) Q (E : FsTree -> Prop) :
  (forall l a t, (forall n, l n ≡ₚ n) -> op l t0 = Ok (a, t) -> Q a t) ->
  (forall l e, op l t0 = Err e -> E t0) -> (~ calm -> forall k, E (left_ k t0)) ->
  from t0 (call left_ op) Q E.
Proof.
  intros HQ HE Hk w Hw Hp. unfold call, next_turn. unfold fair in Hw. destruct (turns w) as [|h ts] eqn:Et.
  - cbn. rewrite Hp. destruct (op id t0) as [[a t]|e] eqn:Eo; (split; [by constructor|]); [by apply (HQ id)|by apply (HE id e)].
  - apply Forall_cons in Hw as [[Hl Hc] Hts]. rewrite Hp. destruct (refused h) as [[e k]|] eqn:Er.
    + split; [done|]. apply Hk. intros Hcalm. by discriminate (Hc Hcalm).
    + destruct (op (listed h) t0) as [[a t]|e] eqn:Eo; (split; [done|]); [by apply (HQ (listed h))|by apply (HE (listed h) e)].
Qed.

(** What an error leaves when the call is all or nothing: it is calm only if
    the call had a reason. *)
Definition refusal (t0 : FsTree) (reason : Prop) (t : FsTree) : Prop := t = t0 /\ (calm -> reason).

Lemma from_observe {A : Type} t0 (f : FsTree -> result Errno A) :
  from t0 (observe f) (fun a t => t = t0 /\ f t0 = Ok a) (refusal t0 (exists e, f t0 = Err e)).
Proof.
  apply from_call.
  - intros l a t _. destruct (f t0) as [b|e]; [|done]. by intros [= <- <-].
  - intros l e Ho. split; [done|]. intros _. destruct (f t0) as [b|e']; [done|by eexists].
  - intros Hc k. split; [done|]. by intros ?.
Qed.

Lemma from_update t0 (f : FsTree -> result Errno FsTree) :
  from t0 (update f) (fun _ t => f t0 = Ok t) (refusal t0 (exists e, f t0 = Err e)).
Proof.
  apply from_call.
  - intros l a t _. destruct (f t0) as [b|e]; [|done]. by intros [= _ ->].
  - intros l e Ho. split; [done|]. intros _. destruct (f t0) as [b|e']; [done|by eexists].
  - intros Hc k. split; [done|]. by intros ?.
Qed.

Lemma from_probe t0 f E : from t0 (probe f) (fun b t => t = t0 /\ (b = true -> f t0 = Ok true) /\ (calm -> f t0 = Ok true -> b = true)) E.
Proof.
  intros w Hw Hp. pose proof (from_observe t0 f w Hw Hp) as Hc. unfold probe. destruct (observe f w) as [[b|e] w'].
  - destruct Hc as (? & ? & Hf). split; [done|]. split; [done|]. rewrite Hf. split; [by intros ->|by intros _ [= ->]].
  - destruct Hc as (? & ? & Hf). split; [done|]. split; [done|]. split; [done|]. intros Hcalm Ht. destruct (Hf Hcalm) as [e' He]. congruence.
Qed.

Lemma from_fill_call fsetid t0 (op : FsTree -> result Errno (fpath * list Z * FsTree)) :
  from t0 (fill_call fsetid op)
    (fun _ t => exists p bytes t1, op t0 = Ok (p, bytes, t1) /\ t = fill fsetid p bytes t1)
    (fun t => refusal t0 (exists e, op t0 = Err e) t \/
      ~ calm /\ exists p bytes k t1, op t0 = Ok (p, bytes, t1) /\ t = fill fsetid p (take k bytes) t1).
Proof.
  apply from_call.
  - intros l [] t _. destruct (op t0) as [[[p bytes] t1]|e]; [|done]. intros [= <-]. by eexists _, _, _.
  - intros l e Ho. left. split; [done|]. intros _. destruct (op t0) as [[[p bytes] t1]|e']; [done|by eexists].
  - intros Hc [|k]; [left; by split|]. destruct (op t0) as [[[p bytes] t1]|e] eqn:Eo; [|left; by split].
    right. split; [done|]. by eexists _, _, _, _.
Qed.
End triples.

(** ** What [copy_tree] leaves *)

Section copying.
Variables (privileged fsetid : bool) (umask : Z).

(** What the calls leave of [x] where [old] was, for the induction; what they
    are meant to leave is [mirror] below. *)
Definition laid (x old : option Node) : option Node :=
  match x, old with
  | None, _ => old
  | Some (File m bytes), _ => Some (File (written_mode fsetid (Z.land m 4095) bytes) bytes)
  | Some (Link target), _ => Some (Link target)
  | Some (Dir m), None => Some (Dir (Z.land m 4095))
  | Some (Dir _), Some _ => old
  end.

(** Nothing of the old tree is in the way of [x]. *)
Definition agrees (x old : option Node) : Prop :=
  match x, old with
  | Some (Link _), Some (Dir _) | Some (File _ _), Some (Dir _) | Some (Dir _), Some (File _ _) => False
  | _, _ => True
  end.

(** A tree at [src], and a place at [dst] where it can be copied without
    writing through a link. *)
Record ready (t : FsTree) (src dst : fpath) : Prop := {
  src_grounded : grounded t src;
  dst_grounded : grounded t dst;
  src_names : Forall name_ok src;
  dst_names : Forall name_ok dst;
  src_dst : ~ src `prefix_of` dst;
  dst_src : ~ dst `prefix_of` src;
  src_tree : forall q c, is_Some (t !! (src ++ q ++ [c])) -> name_ok c /\ exists m, t !! (src ++ q) = Some (Dir m);
  no_link_through : forall q, match t !! (src ++ q) with Some (File _ _) | Some (Dir _) => not_link (t !! (dst ++ q)) | _ => True end;
}.

Definition outside (dst : fpath) (t0 t : FsTree) : Prop := forall q, ~ dst `prefix_of` q -> t !! q = t0 !! q.

Definition copied (t0 : FsTree) (src dst : fpath) (t : FsTree) : Prop :=
  outside dst t0 t /\ forall q, t !! (dst ++ q) = laid (t0 !! (src ++ q)) (t0 !! (dst ++ q)).

(** There is a tree of at most that depth to copy, and nothing in its way. *)
Record possible (depth : nat) (t : FsTree) (src dst : fpath) : Prop := {
  src_there : is_Some (t !! src);
  all_agree : forall q, agrees (t !! (src ++ q)) (t !! (dst ++ q));
  not_deep : forall q, is_Some (t !! (src ++ q)) -> (length q < depth)%nat;
}.

Lemma ready_dst_snoc t src dst : ready t src dst -> exists p c m, dst = p ++ [c] /\ t !! p = Some (Dir m).
Proof.
  intros Hr. destruct dst as [|c p _] using rev_ind; [destruct (dst_src _ _ _ Hr); apply prefix_nil|].
  pose proof (dst_grounded _ _ _ Hr) as Hg. apply grounded_parent in Hg as [_ [m Hm]]. by eexists p, c, m.
Qed.

Lemma enter_plain t src dst : ready t src dst -> enter privileged dst t = Ok tt \/ (privileged = false /\ exists e, enter privileged dst t = Err e).
Proof.
  intros (p & c & m & -> & Hm)%ready_dst_snoc. unfold enter. rewrite removelast_last, Hm. unfold may.
  destruct privileged; [by left|]. destruct (_ =? _); [by left|right]. by split; [|eexists].
Qed.

Lemma stat_plain follow p t : Forall name_ok p -> grounded t p -> follow = false \/ not_link (t !! p) ->
  (exists x, t !! p = Some x /\ stat privileged follow p t = Ok x) \/
  (exists e, stat privileged follow p t = Err e /\ (privileged = false \/ t !! p = None)).
Proof.
  intros Hn Hg Hf. unfold stat. destruct (resolve_plain privileged follow p t Hn Hg Hf) as [->|[Hp ->]]; cbn.
  - destruct (t !! p) as [x|]; [left|right]; eauto.
  - right. eauto.
Qed.

Lemma src_not_dst t src dst : ready t src dst -> src <> dst.
Proof. intros Hr ->. by apply (src_dst _ _ _ Hr). Qed.

(** A file over what is at [dst]. *)
Lemma copy_op_file t src dst m bytes : ready t src dst -> t !! src = Some (File m bytes) ->
  copy_op privileged fsetid umask src dst t = Ok (dst, bytes, <[dst := File (Z.land m 4095) []]> t) \/
  (exists e, copy_op privileged fsetid umask src dst t = Err e) /\ (privileged = false \/ ~ agrees (t !! src) (t !! dst)).
Proof.
  intros Hr Hs. pose proof (no_link_through _ _ _ Hr []) as Hl. rewrite !app_nil_r, Hs in Hl. unfold copy_op.
  destruct (resolve_plain privileged true src t) as [->|[Hp ->]]; [by apply Hr|by apply Hr|right; by rewrite Hs| |right; eauto].
  cbn [mbind result_bind]. rewrite Hs. destruct (may privileged 256 m) eqn:Em; cbn [negb];
    [|right; unfold may in Em; destruct privileged; [done|]; split;
      [by eexists|by left]]. unfold open_write.
  destruct (resolve_plain privileged true dst t) as [->|[Hp ->]]; [by apply Hr|by apply Hr|by right| |right; eauto]. cbn [mbind result_bind].
  assert (Hsd := src_not_dst _ _ _ Hr). destruct (t !! dst) as [[m' b'|target|m']|] eqn:Ed; [|done|right; split; [by eexists|right; by intros []]|].
  - destruct (may privileged 128 m') eqn:Ep; cbn [mbind result_bind]; [left|right; unfold may in Ep; destruct privileged; [done|]; split; [by eexists|by left]].
    by rewrite !insert_insert_eq, lookup_insert_ne, Hs by done.
  - destruct (enter_plain t src dst Hr) as [->|[Hp [e ->]]]; cbn [mbind result_bind]; [left|right; eauto].
    by rewrite !insert_insert_eq, lookup_insert_ne, Hs by done.
Qed.

(** The source is closed under prefixes, and away from the destination. *)
Lemma src_prefix t src dst a b : ready t src dst -> is_Some (t !! (src ++ a ++ b)) ->
  is_Some (t !! (src ++ a)) /\ (b <> [] -> exists m, t !! (src ++ a) = Some (Dir m)).
Proof.
  intros Hr. induction b as [|c b IH] using rev_ind; [rewrite app_nil_r; done|]. intros Hs.
  rewrite (assoc_L (++) a b [c]) in Hs. apply (src_tree _ _ _ Hr) in Hs as [_ [m Hm]].
  destruct b as [|d b]; [rewrite app_nil_r in Hm; split; [by eexists|by exists m]|]. destruct (IH ltac:(by eexists)) as [? Hd].
  split; [done|]. intros _. by apply Hd.
Qed.

Lemma src_leaf t src dst c q : ready t src dst -> (forall m, t !! src <> Some (Dir m)) -> t !! (src ++ c :: q) = None.
Proof.
  intros Hr Hd. destruct (t !! (src ++ c :: q)) as [x|] eqn:E; [|done]. exfalso.
  destruct (src_prefix t src dst [] (c :: q) Hr ltac:(by eexists)) as [_ Hm]. rewrite app_nil_r in Hm.
  destruct (Hm ltac:(done)) as [m ?]. by apply (Hd m).
Qed.

Lemma src_side t src dst q : ready t src dst -> ~ dst `prefix_of` src ++ q.
Proof.
  intros Hr Hp. destruct (prefix_weak_total src dst (src ++ q)) as [?|?]; [by apply prefix_app_r|done|by apply (src_dst _ _ _ Hr)|by apply (dst_src _ _ _ Hr)].
Qed.

Lemma below_not_above (p : fpath) c : ~ p ++ [c] `prefix_of` p.
Proof. intros Hp%prefix_length. rewrite length_app in Hp. cbn in Hp. lia. Qed.

Lemma take_prefix i (p : fpath) : take i p `prefix_of` p.
Proof. exists (drop i p). by rewrite take_drop. Qed.

Lemma grounded_same t t' p : grounded t p -> (forall i, (i < length p)%nat -> t' !! take i p = t !! take i p) -> grounded t' p.
Proof. intros Hg Hs i Hi. rewrite Hs by done. by apply Hg. Qed.

(** Calls that change [dst] alone. *)
Definition but (dst : fpath) (t t' : FsTree) : Prop := forall q, q <> dst -> t' !! q = t !! q.

Lemma but_outside dst t t' : but dst t t' -> outside dst t t'.
Proof. intros Hb q Hq. apply Hb. by intros ->. Qed.

Lemma but_insert dst t x : but dst t (<[dst := x]> t).
Proof. intros q Hq. by rewrite lookup_insert_ne. Qed.

Lemma but_trans dst t t1 t2 : but dst t t1 -> but dst t1 t2 -> but dst t t2.
Proof. intros H1 H2 q Hq. by rewrite H2, H1. Qed.

Lemma dst_grounded_but t t' src dst : ready t src dst -> outside dst t t' -> grounded t' dst.
Proof.
  intros Hr Ho. eapply grounded_same; [by apply Hr|]. intros i Hi. apply Ho. intros Hp%prefix_length. rewrite length_take in Hp. lia.
Qed.

Lemma src_same t t' src dst q : ready t src dst -> outside dst t t' -> t' !! (src ++ q) = t !! (src ++ q).
Proof. intros Hr Ho. apply Ho. by eapply src_side. Qed.

Lemma copied_leaf t t' src dst : ready t src dst -> (forall m, t !! src <> Some (Dir m)) -> but dst t t' ->
  t' !! dst = laid (t !! src) (t !! dst) -> copied t src dst t'.
Proof.
  intros Hr Hd Hb Ht. split; [by apply but_outside|]. intros [|c q]; [by rewrite !app_nil_r|].
  rewrite (src_leaf t src dst) by done. cbn [laid]. apply Hb. intros E%(f_equal length). rewrite length_app in E. cbn in E. lia.
Qed.

(** ** [copy_tree], call by call *)

Variable calm : Prop.
Hypothesis calm_privileged : calm -> privileged = true.

Lemma copy_file_spec depth t src dst m bytes : ready t src dst -> t !! src = Some (File m bytes) ->
  from calm t (copy privileged fsetid umask src dst) (fun _ => copied t src dst)
    (fun t' => outside dst t t' /\ ~ (calm /\ possible depth t src dst)).
Proof.
  intros Hr Hs. assert (Hd : forall m, t !! src <> Some (Dir m)) by (intros m'; by rewrite Hs).
  assert (Hf : forall bs, fill fsetid dst bs (<[dst := File (Z.land m 4095) []]> t) = <[dst := File (written_mode fsetid (Z.land m 4095) bs) bs]> t).
  { intros bs. unfold fill. by rewrite lookup_insert_eq, insert_insert_eq. }
  destruct (copy_op_file t src dst m bytes Hr Hs) as [Ho|[[e Ho] Hwhy]].
  - eapply from_weaken; [apply from_fill_call|..].
    + intros [] t' (p & bs & t1 & E & ->). rewrite Ho in E. injection E as <- <- <-. rewrite Hf.
      apply copied_leaf; [done|done|apply but_insert|]. by rewrite lookup_insert_eq, Hs.
    + intros t' [[-> Hc]|[Hc (p & bs & k & t1 & E & ->)]].
      * split; [by intros q|]. intros [Hcalm _]. destruct (Hc Hcalm) as [e He]. congruence.
      * rewrite Ho in E. injection E as <- <- <-. rewrite Hf. split; [apply but_outside, but_insert|]. intros [? _]. by apply Hc.
  - eapply from_weaken; [apply from_fill_call|..].
    + intros [] t' (p & bs & t1 & E & _). congruence.
    + intros t' [[-> Hc]|[Hc (p & bs & k & t1 & E & _)]]; [|congruence]. split; [by intros q|]. intros [Hcalm Hp].
      destruct Hwhy as [Hw|Hw]; [by rewrite calm_privileged in Hw|]. apply Hw. pose proof (all_agree _ _ _ _ Hp []) as Ha.
      by rewrite !app_nil_r in Ha.
Qed.

Lemma resolve_dst t t' src dst follow : ready t src dst -> outside dst t t' -> follow = false \/ not_link (t' !! dst) ->
  resolve privileged follow dst t' = Ok dst \/ (privileged = false /\ resolve privileged follow dst t' = Err EACCES).
Proof. intros Hr Ho Hf. apply resolve_plain; [by apply Hr|by eapply dst_grounded_but|done]. Qed.

Lemma enter_dst t t' src dst : ready t src dst -> outside dst t t' ->
  enter privileged dst t' = Ok tt \/ (privileged = false /\ exists e, enter privileged dst t' = Err e).
Proof.
  intros Hr Ho. destruct (ready_dst_snoc _ _ _ Hr) as (p & c & m & -> & Hm). unfold enter. rewrite removelast_last.
  rewrite (Ho p) by apply below_not_above. rewrite Hm. unfold may.
  destruct privileged; [by left|]. destruct (_ =? _); [by left|right]. by split; [|eexists].
Qed.

Lemma copy_link_spec depth t src dst target : ready t src dst -> t !! src = Some (Link target) ->
  from calm t (target ← read_link privileged src; _ ← ignore (remove_file privileged dst); symlink privileged target dst)
    (fun _ => copied t src dst) (fun t' => outside dst t t' /\ ~ (calm /\ possible depth t src dst)).
Proof.
  intros Hr Hs. assert (Hd : forall m, t !! src <> Some (Dir m)) by (intros m'; by rewrite Hs).
  eapply holds_bind; [eapply from_weaken; [apply from_observe|intros a t' H; exact H|]|].
  { intros t' [-> Hc]. split; [by intros q|]. intros [Hcalm _]. destruct (Hc Hcalm) as [e He].
    destruct (stat_plain false src t) as [(x & Hx & E)|(e' & E & Hwhy)]; [by apply Hr|by apply Hr|by left|..].
    - rewrite E in He. cbn in He. assert (x = Link target) as -> by congruence. done.
    - destruct Hwhy as [Hw|Hw]; [by rewrite calm_privileged in Hw|congruence]. }
  intros target'. apply holds_from. intros t1 [-> Hl].
  assert (target' = target) as ->.
  { destruct (stat_plain false src t) as [(x & Hx & E)|(e' & E & _)]; [by apply Hr|by apply Hr|by left|..];
      rewrite E in Hl; cbn in Hl; [|done]. rewrite Hs in Hx. injection Hx as <-. by injection Hl. }
  eapply (holds_bind _ _ _ (fun _ t1 => but dst t t1 /\ (calm /\ possible depth t src dst -> t1 !! dst = None))).
  { apply holds_ignore. eapply from_weaken; [apply from_update|..]; cbn beta.
    - intros [] t1 E. destruct (resolve_plain privileged false dst t) as [Er|[_ Er]]; [by apply Hr|by apply Hr|by left|..];
        rewrite Er in E; [|done]. cbn in E. destruct (t !! dst) as [x|] eqn:Ex; [|done]. destruct x; [| |done].
      all: destruct (enter privileged dst t) as [[]|]; [|done]; injection E as <-; split;
        [by intros q Hq; rewrite lookup_delete_ne|intros _; apply lookup_delete_eq].
    - intros t1 [-> Hc]. split; [by intros q|]. intros [Hcalm Hp]. destruct (Hc Hcalm) as [e He].
      destruct (resolve_plain privileged false dst t) as [Er|[Hpr _]]; [by apply Hr|by apply Hr|by left| |by rewrite calm_privileged in Hpr].
      rewrite Er in He. cbn in He. pose proof (all_agree _ _ _ _ Hp []) as Ha. rewrite !app_nil_r, Hs in Ha.
      destruct (t !! dst) as [x|] eqn:Ex; [|done]. destruct (enter_plain t src dst Hr) as [Ee|[Hpr _]]; [|by rewrite calm_privileged in Hpr].
      rewrite Ee in He. by destruct x. }
  intros []. apply holds_from. intros t1 [Hb Hnone]. pose proof (but_outside _ _ _ Hb) as Ho.
  eapply from_weaken; [apply from_update|..]; cbn beta.
  - intros [] t2 E. destruct (resolve_dst t t1 src dst false Hr Ho ltac:(by left)) as [Er|[_ Er]]; rewrite Er in E; [|done]. cbn in E.
    destruct (t1 !! dst) eqn:Ed; [done|]. destruct (enter privileged dst t1) as [[]|]; [|done]. injection E as <-.
    apply copied_leaf; [done|done|eapply but_trans; [done|apply but_insert]|]. by rewrite lookup_insert_eq, Hs.
  - intros t2 [-> Hc]. split; [done|]. intros Hp. destruct (Hc (proj1 Hp)) as [e He].
    destruct (resolve_dst t t1 src dst false Hr Ho ltac:(by left)) as [Er|[Hpr _]]; [|by rewrite (calm_privileged (proj1 Hp)) in Hpr].
    rewrite Er in He. cbn in He. rewrite Hnone in He by done.
    destruct (enter_dst t t1 src dst Hr Ho) as [Ee|[Hpr _]]; [by rewrite Ee in He|by rewrite (calm_privileged (proj1 Hp)) in Hpr].
Qed.

(** The directory itself. *)
Lemma make_dir_spec depth t src dst mode : ready t src dst -> t !! src = Some (Dir mode) ->
  from calm t (there ← path_exists privileged dst;
      if there : bool then mret tt else _ ← create_dir privileged umask dst; set_permissions privileged dst (Z.land mode 4095))
    (fun _ t1 => but dst t t1 /\ t1 !! dst = laid (t !! src) (t !! dst))
    (fun t1 => outside dst t t1 /\ ~ (calm /\ possible depth t src dst)).
Proof.
  intros Hr Hs. pose proof (no_link_through _ _ _ Hr []) as Hl. rewrite !app_nil_r, Hs in Hl.
  assert (Hstat : (exists x, t !! dst = Some x /\ stat privileged true dst t = Ok x) \/
                  (exists e, stat privileged true dst t = Err e /\ (privileged = false \/ t !! dst = None)))
    by (apply stat_plain; [by apply Hr|by apply Hr|by right]).
  eapply holds_bind; [apply from_probe|]. intros there. apply holds_from. intros t' (-> & Hyes & Hno). destruct there.
  - apply holds_ret. intros t1 ->. split; [by intros q|]. specialize (Hyes eq_refl).
    destruct Hstat as [(x & -> & _)|(e & E & _)]; [by rewrite Hs|by rewrite E in Hyes].
  - eapply (holds_bind _ _ _ (fun _ t1 => but dst t t1 /\ t !! dst = None /\ exists m, t1 !! dst = Some (Dir m))).
    + eapply from_weaken; [apply from_update|..]; cbn beta; unfold mkdir_op.
      * intros [] t1 E. destruct (resolve_plain privileged false dst t) as [Er|[_ Er]]; [by apply Hr|by apply Hr|by left|..];
          rewrite Er in E; [|done]. cbn [mbind result_bind] in E. destruct (t !! dst) eqn:Ed; [done|].
        destruct (enter privileged dst t) as [[]|]; [|done]. injection E as <-. split; [apply but_insert|]. split; [done|].
        rewrite lookup_insert_eq. by eexists.
      * intros t1 [-> Hc]. split; [by intros q|]. intros [Hcalm Hp]. destruct (Hc Hcalm) as [e He].
        destruct (resolve_plain privileged false dst t) as [Er|[Hpr _]]; [by apply Hr|by apply Hr|by left| |by rewrite calm_privileged in Hpr].
        rewrite Er in He. cbn [mbind result_bind] in He. destruct Hstat as [(x & Hx & E)|(e' & E & [Hpr|Hx])]; [|by rewrite calm_privileged in Hpr|].
        -- rewrite E in Hno. by specialize (Hno Hcalm eq_refl).
        -- rewrite Hx in He. destruct (enter_plain t src dst Hr) as [Ee|[Hpr _]]; [by rewrite Ee in He|by rewrite calm_privileged in Hpr].
    + intros []. apply holds_from. intros t1 (Hb & Hnone & m & Hm). pose proof (but_outside _ _ _ Hb) as Ho.
      destruct (resolve_dst t t1 src dst true Hr Ho ltac:(right; by rewrite Hm)) as [Er|[Hpr Er]].
      * eapply from_weaken; [apply from_update|..]; cbn beta; unfold chmod_op; rewrite Er; cbn [mbind result_bind]; rewrite Hm.
        -- intros [] t2 [= <-]. split; [eapply but_trans; [done|apply but_insert]|]. by rewrite lookup_insert_eq, Hs, Hnone, <- Z.land_assoc.
        -- intros t2 [-> Hc]. split; [done|]. intros [Hcalm _]. by destruct (Hc Hcalm).
      * eapply from_weaken; [apply from_update|..]; cbn beta; unfold chmod_op; rewrite Er; cbn [mbind result_bind].
        -- by intros [] t2.
        -- intros t2 [-> Hc]. split; [done|]. intros [Hcalm _]. by rewrite calm_privileged in Hpr.
Qed.

(** Nothing is copied below a file. *)
Lemma copy_blocked depth t src p c m bytes : Forall name_ok p -> grounded t p -> t !! p = Some (File m bytes) ->
  from calm t (copy_at privileged fsetid umask depth src (p ++ [c])) (fun _ _ => False) (fun t' => t' = t).
Proof.
  intros Hn Hg Hf. assert (Hb : forall follow, exists e, resolve privileged follow (p ++ [c]) t = Err e)
    by (intros follow; by apply (walk_blocked privileged MAXSYMLINKS follow t m bytes c p [])).
  destruct depth as [|depth]; [by apply holds_fail|]. cbn [copy_at].
  eapply holds_bind; [eapply from_weaken; [apply from_observe|intros x t' H; exact H|by intros t' [-> _]]|].
  intros x. apply holds_from. intros t' [-> _]. destruct x as [m' b'|target|m'].
  - eapply from_weaken; [apply from_fill_call|..]; cbn beta.
    + intros [] t' (q & bs & t1 & E & _). revert E. unfold copy_op. destruct (resolve privileged true src t) as [s|]; [|done].
      cbn [mbind result_bind]. destruct (t !! s) as [[]|]; try done. destruct (negb _); [done|]. unfold open_write.
      by destruct (Hb true) as [e ->].
    + intros t' [[-> _]|[_ (q & bs & k & t1 & E & _)]]; [done|]. revert E. unfold copy_op. destruct (resolve privileged true src t) as [s|]; [|done].
      cbn [mbind result_bind]. destruct (t !! s) as [[]|]; try done. destruct (negb _); [done|]. unfold open_write.
      by destruct (Hb true) as [e ->].
  - eapply holds_bind; [eapply from_weaken; [apply from_observe|intros y t' H; exact H|by intros t' [-> _]]|].
    intros y. apply holds_from. intros t' [-> _].
    eapply (holds_bind _ _ _ (fun _ t' => t' = t)).
    + apply holds_ignore. eapply from_weaken; [apply from_update|..]; cbn beta; [|by intros t' [-> _]].
      intros [] t'. by destruct (Hb false) as [e ->].
    + intros []. eapply from_weaken; [apply from_update|..]; cbn beta; [|by intros t' [-> _]].
      intros [] t'. by destruct (Hb false) as [e ->].
  - eapply holds_bind; [apply from_probe|]. intros there. apply holds_from. intros t' (-> & Hyes & _).
    destruct there; [specialize (Hyes eq_refl); revert Hyes; unfold stat; by destruct (Hb true) as [e ->]|].
    eapply (holds_bind _ _ _ (fun _ _ => False)); [|intros a; apply holds_from; done].
    eapply (holds_bind _ _ _ (fun _ _ => False)); [|intros []; apply holds_from; done].
    eapply from_weaken; [apply from_update|..]; cbn beta; [|by intros t' [-> _]].
    intros [] t'. unfold mkdir_op. by destruct (Hb false) as [e ->].
Qed.

(** The children [done] so far, over the tree the loop began with. *)
Record partial (t1 : FsTree) (src dst : fpath) (done : list (list Z)) (t : FsTree) : Prop := {
  part_outside : outside dst t1 t;
  part_top : t !! dst = t1 !! dst;
  part_below : forall c q, t !! (dst ++ c :: q) =
    if decide (c ∈ done) then laid (t1 !! (src ++ c :: q)) (t1 !! (dst ++ c :: q)) else t1 !! (dst ++ c :: q);
}.

Lemma ready_child t1 t src dst done c m : ready t1 src dst -> t1 !! dst = Some (Dir m) -> partial t1 src dst done t ->
  c ∉ done -> is_Some (t1 !! (src ++ [c])) -> ready t (src ++ [c]) (dst ++ [c]).
Proof.
  intros Hr Hm [Ho Ht Hb] Hc Hs. assert (Hsrc : forall q, t !! (src ++ q) = t1 !! (src ++ q)) by (intros q; by eapply src_same).
  destruct (src_tree _ _ _ Hr [] c Hs) as [Hn [ms Hms]]. rewrite app_nil_r in Hms. split.
  - apply grounded_parent. split; [|exists ms; specialize (Hsrc []); rewrite app_nil_r in Hsrc; by rewrite Hsrc].
    eapply grounded_same; [by apply Hr|]. intros i _. apply Ho. intros Hp. apply (dst_src _ _ _ Hr). etrans; [exact Hp|apply take_prefix].
  - apply grounded_parent. split; [by eapply dst_grounded_but|exists m; by rewrite Ht].
  - apply Forall_app. split; [by apply Hr|by constructor].
  - apply Forall_app. split; [by apply Hr|by constructor].
  - intros Hp. assert (Hp' : src `prefix_of` dst ++ [c]) by (etrans; [by apply prefix_app_r|exact Hp]).
    destruct (prefix_weak_total src dst (dst ++ [c])) as [?|?]; [done|by apply prefix_app_r|by apply (src_dst _ _ _ Hr)|by apply (dst_src _ _ _ Hr)].
  - intros Hp. apply (src_side t1 src dst [c] Hr). etrans; [by apply prefix_app_r|exact Hp].
  - intros q d. rewrite <- !(assoc_L (++)), !Hsrc. apply (src_tree _ _ _ Hr (c :: q) d).
  - intros q. rewrite <- !(assoc_L (++)), Hsrc. cbn [app]. rewrite Hb, decide_False by done. apply (no_link_through _ _ _ Hr (c :: q)).
Qed.

Lemma partial_child t1 t t' src dst done c : ready t1 src dst -> partial t1 src dst done t -> c ∉ done ->
  copied t (src ++ [c]) (dst ++ [c]) t' -> partial t1 src dst (c :: done) t'.
Proof.
  intros Hr [Ho Ht Hb] Hc [Ho' Hcop]. split.
  - intros q Hq. rewrite Ho'; [by apply Ho|]. intros Hp. apply Hq. etrans; [by apply prefix_app_r|exact Hp].
  - rewrite Ho'; [done|]. apply below_not_above.
  - intros d q. destruct (decide (d = c)) as [->|Hd].
    + rewrite decide_True by left. specialize (Hcop q). rewrite <- !(assoc_L (++)) in Hcop. cbn [app] in Hcop. rewrite Hcop.
      rewrite (src_same t1 t src dst) by done. by rewrite Hb, decide_False.
    + rewrite Ho'; [rewrite Hb|].
      * destruct (decide (d ∈ done)); [by rewrite decide_True by by right|]. rewrite decide_False; [done|]. by intros [?|?]%elem_of_cons.
      * intros Hp%prefix_app_inv. by apply prefix_cons_inv_1 in Hp.
Qed.

Lemma possible_child depth t1 t src dst done c : ready t1 src dst -> partial t1 src dst done t -> c ∉ done ->
  is_Some (t1 !! (src ++ [c])) -> possible (S depth) t1 src dst -> possible depth t (src ++ [c]) (dst ++ [c]).
Proof.
  intros Hr [Ho Ht Hb] Hc Hs [_ Ha Hd]. split.
  - by rewrite (src_same t1 t src dst).
  - intros q. rewrite <- !(assoc_L (++)), (src_same t1 t src dst) by done. cbn [app]. rewrite Hb, decide_False by done. apply Ha.
  - intros q. rewrite <- (assoc_L (++)), (src_same t1 t src dst) by done. intros Hq. specialize (Hd _ Hq). cbn in Hd. lia.
Qed.

Lemma next_entry_spec possible_ t t0 dst : outside dst t0 t ->
  from calm t next_entry (fun _ t' => t' = t) (fun t' => outside dst t0 t' /\ ~ (calm /\ possible_)).
Proof.
  intros Ho. eapply from_weaken; [apply from_observe|by intros [] t' [-> _]|]. cbn beta. intros t' [-> Hc]. split; [done|].
  intros [Hcalm _]. by destruct (Hc Hcalm).
Qed.

Section loop.
Variables (depth : nat) (t1 : FsTree) (src dst : fpath).
Hypothesis copy_child : forall t src dst, ready t src dst ->
  from calm t (copy_at privileged fsetid umask depth src dst) (fun _ => copied t src dst)
    (fun t' => outside dst t t' /\ ~ (calm /\ possible depth t src dst)).
Hypothesis Hready : ready t1 src dst.

Lemma copy_entries_spec names : forall done t, NoDup names -> (forall c, c ∈ names -> (c ∉ done) /\ is_Some (t1 !! (src ++ [c]))) ->
  (exists m, t1 !! dst = Some (Dir m)) -> partial t1 src dst done t ->
  from calm t (for_entries (fun c => copy_at privileged fsetid umask depth (src ++ [c]) (dst ++ [c])) names)
    (fun _ => partial t1 src dst (reverse names ++ done))
    (fun t' => outside dst t1 t' /\ ~ (calm /\ possible (S depth) t1 src dst)).
Proof.
  induction names as [|c names IH]; intros done t Hn Hc [m Hm] Hp; cbn [for_entries];
    (eapply holds_bind; [by apply (next_entry_spec _ t t1 dst), Hp|]; intros []; apply holds_from; intros ? ->).
  - by apply holds_ret; intros ? ->.
  - apply NoDup_cons in Hn as [Hc0 Hn]. destruct (Hc c ltac:(left)) as [Hnd Hs].
    eapply holds_bind.
    + eapply from_weaken; [apply copy_child; by eapply ready_child|intros a t' H; exact H|]. cbn beta. intros t' [Ho Hne]. split.
      * intros q Hq. rewrite Ho; [by apply Hp|]. intros Hp'. apply Hq. etrans; [by apply prefix_app_r|exact Hp'].
      * intros [Hcalm Hpo]. apply Hne. split; [done|]. by eapply possible_child.
    + intros []. apply holds_from. intros t' Hcop. eapply from_weaken; [apply (IH (c :: done))|..]; [done| |by exists m|by eapply partial_child| |done].
      * intros d Hd. destruct (Hc d ltac:(by right)) as [Hd' ?]. split; [|done]. intros [->|?]%elem_of_cons; done.
      * intros a t2. by rewrite reverse_cons, <- (assoc_L (++)).
Qed.
End loop.

Lemma read_dir_spec possible_ t1 t src dst mode : ready t src dst -> outside dst t t1 -> t !! src = Some (Dir mode) ->
  from calm t1 (read_dir privileged src) (fun names t' => t' = t1 /\ names ≡ₚ children src t1)
    (fun t' => outside dst t t' /\ ~ (calm /\ possible_)).
Proof.
  intros Hr Ho Hs. assert (Hs1 : t1 !! src = Some (Dir mode)) by (pose proof (src_same t t1 src dst [] Hr Ho) as E; rewrite app_nil_r in E; congruence).
  assert (Hg : grounded t1 src).
  { eapply grounded_same; [by apply Hr|]. intros i _. apply Ho. intros Hp. apply (dst_src _ _ _ Hr). etrans; [exact Hp|apply take_prefix]. }
  destruct (resolve_plain privileged true src t1 (src_names _ _ _ Hr) Hg) as [Er|[Hpr Er]]; [right; by rewrite Hs1|..].
  - apply from_call.
    + intros l names t' Hl. rewrite Er. cbn [mbind result_bind]. rewrite Hs1. destruct (may privileged 256 mode); [|done]. intros [= <- <-]. by split.
    + intros l e. rewrite Er. cbn [mbind result_bind]. rewrite Hs1. destruct (may privileged 256 mode) eqn:Em; [done|]. intros _. split; [done|]. intros [Hcalm _].
      unfold may in Em. by rewrite (calm_privileged Hcalm) in Em.
    + intros Hc k. split; [done|]. by intros [? _].
  - apply from_call.
    + intros l names t'. by rewrite Er.
    + intros l e _. split; [done|]. intros [Hcalm _]. by rewrite calm_privileged in Hpr.
    + intros Hc k. split; [done|]. by intros [? _].
Qed.

Lemma but_below dst t t1 (q : fpath) : but dst t t1 -> q <> [] -> t1 !! (dst ++ q) = t !! (dst ++ q).
Proof. intros Hb Hq. apply Hb. intros E%(f_equal length). rewrite length_app in E. destruct q; [done|]. cbn in E. lia. Qed.

Lemma ready_but t t1 src dst : ready t src dst -> but dst t t1 -> not_link (t1 !! dst) -> ready t1 src dst.
Proof.
  intros Hr Hb Hl. pose proof (but_outside _ _ _ Hb) as Ho.
  assert (Hsame : forall q, t1 !! (src ++ q) = t !! (src ++ q)) by (intros q; by eapply src_same).
  split; try apply Hr.
  - eapply grounded_same; [by apply Hr|]. intros i _. apply Ho. intros Hp. apply (dst_src _ _ _ Hr). etrans; [exact Hp|apply take_prefix].
  - by eapply dst_grounded_but.
  - intros q c. rewrite !Hsame. apply (src_tree _ _ _ Hr).
  - intros q. rewrite Hsame. destruct q as [|c q]; [|rewrite (but_below dst t) by done; apply (no_link_through _ _ _ Hr)].
    rewrite !app_nil_r. by destruct (t !! src) as [[]|].
Qed.

Lemma possible_but depth t t1 src dst m : ready t src dst -> but dst t t1 -> t !! src = Some (Dir m) -> (exists m, t1 !! dst = Some (Dir m)) ->
  possible depth t src dst -> possible depth t1 src dst.
Proof.
  intros Hr Hb Hs [m' Hm] [Ht Ha Hd]. pose proof (but_outside _ _ _ Hb) as Ho.
  assert (Hsame : forall q, t1 !! (src ++ q) = t !! (src ++ q)) by (intros q; by eapply src_same). split.
  - pose proof (Hsame []) as E. rewrite !app_nil_r in E. by rewrite E.
  - intros q. rewrite Hsame. destruct q as [|c q]; [by rewrite !app_nil_r, Hs, Hm|]. rewrite (but_below dst t) by done. apply Ha.
  - intros q. rewrite Hsame. apply Hd.
Qed.

(** All children done is the whole tree. *)
Lemma partial_copied t t1 src dst names t' : ready t src dst -> but dst t t1 -> t1 !! dst = laid (t !! src) (t !! dst) ->
  (forall c, is_Some (t !! (src ++ [c])) -> c ∈ names) -> partial t1 src dst names t' -> copied t src dst t'.
Proof.
  intros Hr Hb Ht Hn [Ho Htop Hbel]. pose proof (but_outside _ _ _ Hb) as Hb'. split.
  - intros q Hq. by rewrite Ho, Hb'.
  - intros [|c q]; [by rewrite !app_nil_r, Htop|]. rewrite Hbel, (but_below dst t), (src_same t t1 src dst) by done.
    case_decide as Hc; [done|]. destruct (t !! (src ++ c :: q)) as [x|] eqn:E; [|done]. exfalso. apply Hc, Hn.
    apply (src_prefix t src dst [c] q Hr). by exists x.
Qed.

(** The loop over the entries completes the directory. *)
Lemma copy_rest_spec depth t t1 src dst mode names :
  (forall t src dst, ready t src dst ->
    from calm t (copy_at privileged fsetid umask depth src dst) (fun _ => copied t src dst)
      (fun t' => outside dst t t' /\ ~ (calm /\ possible depth t src dst))) ->
  ready t src dst -> t !! src = Some (Dir mode) -> but dst t t1 -> t1 !! dst = laid (t !! src) (t !! dst) ->
  names ≡ₚ children src t1 ->
  from calm t1 (for_entries (fun c => copy_at privileged fsetid umask depth (src ++ [c]) (dst ++ [c])) names)
    (fun _ => copied t src dst) (fun t' => outside dst t t' /\ ~ (calm /\ possible (S depth) t src dst)).
Proof.
  intros IH Hr Hs Hb Ht Hn. pose proof (but_outside _ _ _ Hb) as Ho.
  assert (Hsame : forall q, t1 !! (src ++ q) = t !! (src ++ q)) by (intros q; by eapply src_same).
  assert (Hin : forall c, c ∈ names <-> is_Some (t !! (src ++ [c]))) by (intros c; by rewrite Hn, elem_of_children, Hsame).
  assert (Hl : not_link (t1 !! dst)).
  { pose proof (no_link_through _ _ _ Hr []) as Hl. rewrite !app_nil_r, Hs in Hl. rewrite Ht, Hs. by destruct (t !! dst) as [[]|]. }
  assert (Hp0 : partial t1 src dst [] t1) by (split; [by intros q|done|intros c q; by rewrite decide_False by apply not_elem_of_nil]).
  pose proof (ready_but t t1 src dst Hr Hb Hl) as Hr1. destruct (t1 !! dst) as [[m bytes|target|m]|] eqn:Ed.
  - destruct names as [|c names]; cbn [for_entries]; (eapply holds_bind;
      [eapply from_weaken; [by apply (next_entry_spec (possible (S depth) t src dst) t1 t dst)|intros a t' H; exact H|done]|]; intros []; apply holds_from; intros ? ->).
    + apply holds_ret. intros ? ->. apply (partial_copied t t1 src dst []); [done..|by rewrite Ed|intros c; by rewrite <- Hin|done].
    + eapply holds_bind; [eapply from_weaken; [eapply (copy_blocked _ t1 _ dst c); [by apply Hr|by apply Hr1|done]|intros a t' H; exact H|]|intros []; by apply holds_from].
      cbn beta. intros t' ->. split; [done|]. intros [_ Hp]. pose proof (all_agree _ _ _ _ Hp []) as Ha. rewrite !app_nil_r, Hs in Ha.
      rewrite Hs in Ht. by destruct (t !! dst) as [[]|].
  - done.
  - eapply from_weaken; [apply (copy_entries_spec depth t1 src dst IH Hr1 names [])|..].
    + rewrite Hn. apply children_nodup.
    + intros c Hc. split; [apply not_elem_of_nil|]. by rewrite Hsame, <- Hin.
    + by exists m.
    + done.
    + intros [] t' Hp. eapply (partial_copied t t1); [done|done|by rewrite Ed| |exact Hp]. intros c Hc%Hin. rewrite app_nil_r. by apply elem_of_reverse.
    + intros t' [Ho' Hne]. split; [intros q Hq; by rewrite Ho', Ho|]. intros [Hcalm Hp]. apply Hne. split; [done|].
      eapply (possible_but _ t); [done..| |done]. by exists m.
  - rewrite Hs in Ht. by destruct (t !! dst).
Qed.

Lemma copy_at_spec depth : forall t src dst, ready t src dst ->
  from calm t (copy_at privileged fsetid umask depth src dst) (fun _ => copied t src dst)
    (fun t' => outside dst t t' /\ ~ (calm /\ possible depth t src dst)).
Proof.
  induction depth as [|depth IH]; intros t src dst Hr.
  - apply holds_fail. intros ? ->. split; [by intros q|]. intros [_ Hp]. pose proof (not_deep _ _ _ _ Hp []) as Hd.
    rewrite app_nil_r in Hd. pose proof (Hd (src_there _ _ _ _ Hp)). lia.
  - cbn [copy_at]. eapply holds_bind; [eapply from_weaken; [apply from_observe|intros x t' H; exact H|]|].
    { cbn beta. intros t' [-> Hc]. split; [by intros q|]. intros [Hcalm Hp]. destruct (Hc Hcalm) as [e He].
      destruct (stat_plain false src t) as [(x & Hx & E)|(e' & E & [Hw|Hw])]; [by apply Hr|by apply Hr|by left|congruence|by rewrite calm_privileged in Hw|].
      destruct (src_there _ _ _ _ Hp). congruence. }
    intros x. apply holds_from. intros t' [-> Hx].
    assert (Hs : t !! src = Some x).
    { destruct (stat_plain false src t) as [(y & Hy & E)|(e' & E & _)]; [by apply Hr|by apply Hr|by left|congruence..]. }
    destruct x as [m bytes|target|mode]; [by eapply copy_file_spec|by eapply copy_link_spec|]. apply holds_assoc.
    eapply holds_bind; [by apply (make_dir_spec (S depth))|]. intros []. apply holds_from. intros t1 [Hb Ht1].
    pose proof (but_outside _ _ _ Hb) as Ho. assert (Hsame : forall q, t1 !! (src ++ q) = t !! (src ++ q)) by (intros q; by eapply src_same).
    eapply holds_bind; [apply (read_dir_spec (possible (S depth) t src dst) t1 t src dst mode); done|].
    intros names. apply holds_from. intros t2 [-> Hnames]. by eapply copy_rest_spec.
Qed.
End copying.

(** ** The theorem *)

Definition lists_all (w : World) : Prop := Forall (fun h => forall l, listed h l ≡ₚ l) (turns w).
Definition quiet (w : World) : Prop := Forall (fun h => refused h = None) (turns w).

Lemma lists_fair privileged w : lists_all w -> fair (privileged = true /\ quiet w) w.
Proof.
  unfold fair, lists_all, quiet. rewrite !Forall_forall. intros Hl h Hh. split; [by apply Hl|]. intros [_ Hq]. rewrite Forall_forall in Hq. by apply Hq.
Qed.

(** What the comment of [copy_tree] promises of a place that held [old]: the
    type, the content, the target and the permission bits of [x]; a directory
    that was there keeps its mode. *)
Definition mirror (x old : option Node) : option Node :=
  match x, old with
  | None, _ => old
  | Some (File m bytes), _ => Some (File (Z.land m 4095) bytes)
  | Some (Link target), _ => Some (Link target)
  | Some (Dir _), Some (Dir m) => Some (Dir m)
  | Some (Dir m), _ => Some (Dir (Z.land m 4095))
  end.

(** The set-user-ID and set-group-ID bits. *)
Definition SET_ID : Z := 3072.

Definition without_set_id (x : option Node) : option Node :=
  match x with Some (File m bytes) => Some (File (Z.ldiff m SET_ID) bytes) | _ => x end.

(** The kernel lets the process keep what set-id bits [x] has. *)
Definition set_id_kept (fsetid : bool) (x : option Node) : Prop :=
  fsetid = true \/ match x with Some (File m (_ :: _)) => Z.land m SET_ID = 0 | _ => True end.

Definition file_for_dir (x old : option Node) : Prop :=
  match x, old with Some (Dir _), Some (File _ _) => True | _, _ => False end.

Lemma strip_set_id fsetid m : Z.ldiff (strip fsetid m) SET_ID = Z.ldiff m SET_ID.
Proof.
  unfold strip, SET_ID. destruct fsetid; [done|]. destruct (_ =? _); apply Z.bits_inj'; intros i Hi;
    rewrite !Z.ldiff_spec; change 3072 with (Z.lor 2048 1024); rewrite !Z.lor_spec;
    destruct (Z.testbit m i), (Z.testbit 2048 i), (Z.testbit 1024 i); done.
Qed.

Lemma no_set_id_clear m k : (k = 2048 \/ k = 1024) -> Z.land m SET_ID = 0 -> Z.ldiff m k = m.
Proof.
  unfold SET_ID. intros Hk Hm. apply Z.bits_inj'; intros i Hi. rewrite Z.ldiff_spec.
  assert (Hb : Z.testbit (Z.land m (Z.lor 2048 1024)) i = false) by (change (Z.lor 2048 1024) with 3072; rewrite Hm; apply Z.bits_0).
  rewrite Z.land_spec, Z.lor_spec in Hb.
  destruct Hk as [-> | ->], (Z.testbit m i), (Z.testbit 2048 i), (Z.testbit 1024 i); done.
Qed.

Lemma strip_no_set_id fsetid m : Z.land m SET_ID = 0 -> strip fsetid m = m.
Proof.
  intros Hm. unfold strip. destruct fsetid; [done|]. rewrite (no_set_id_clear m 2048), (no_set_id_clear m 1024) by auto. by destruct (_ =? _).
Qed.

Lemma laid_mirror fsetid x old : ~ file_for_dir x old -> (match x with Some (Dir _) => not_link old | _ => True end) ->
  without_set_id (laid fsetid x old) = without_set_id (mirror x old) /\ (set_id_kept fsetid x -> laid fsetid x old = mirror x old).
Proof.
  intros Hf Hl. destruct x as [[m [|b bs]|target|m]|]; [done| | |by destruct old as [[]|]|done]; cbn; [|done].
  split; [by rewrite strip_set_id|]. intros [-> |Hs]; [done|]. rewrite strip_no_set_id; [done|].
  by rewrite <- Z.land_assoc, (Z.land_comm 4095).
Qed.

(** C23: [copy_tree] copies as its comment says: whatever calls the host
    refuses and whatever order it lists directories in, nothing outside the
    destination changes; if it succeeds, every path of the destination holds
    the type, the content, the target and the permission bits the source has
    there, and what it held itself where the source has nothing, a directory
    that was there keeping its mode.  Two cases are excepted: of a file with
    content and set-user-ID or set-group-ID bits only those bits may be lost,
    and only by a process without [CAP_FSETID]; and where the source has a
    directory and the destination a file nothing is said.  A privileged
    process that is refused nothing does succeed, when no file, link or
    directory of the old tree is in the way.  The paths exist, and no file or
    directory of the source is to replace a link. *)
Theorem copy_tree_copies privileged fsetid umask src dst w :
  lists_all w -> ready (tree w) src dst ->
  let '(r, w') := copy_tree privileged fsetid umask src dst w in
  outside dst (tree w) (tree w') /\
  (r = Ok tt -> forall q,
     let x := tree w !! (src ++ q) in let old := tree w !! (dst ++ q) in let new := tree w' !! (dst ++ q) in
     ~ file_for_dir x old ->
     without_set_id new = without_set_id (mirror x old) /\ (set_id_kept fsetid x -> new = mirror x old)) /\
  (privileged = true -> quiet w -> possible PATH_DEPTH (tree w) src dst -> r = Ok tt).
Proof.
  intros Hl Hr. pose proof (copy_at_spec privileged fsetid umask (privileged = true /\ quiet w) (fun H => proj1 H) PATH_DEPTH (tree w) src dst Hr w) as Hs.
  unfold copy_tree. destruct (copy_at _ _ _ _ _ _ w) as [r w']. destruct Hs as [_ Hs]; [by apply lists_fair|done|].
  destruct r as [[]|e]; [|destruct Hs as [Ho Hne]; split_and!; [done|done|]; intros Hp Hq Hpo; by destruct Hne].
  destruct Hs as [Ho Hc]. split_and!; [done| |done]. intros _ q. cbn zeta. intros Hf. rewrite Hc. apply laid_mirror; [done|].
  pose proof (no_link_through _ _ _ Hr q) as Hn. by destruct (tree w !! (src ++ q)) as [[]|].
Qed.

(** ** Checking the hypotheses of a tree at hand *)

Definition name_okb (c : list Z) : bool := negb (bool_decide (c ∈ [[]; lit "."; lit ".."])).

Definition is_dir_node (x : option Node) : bool := match x with Some (Dir _) => true | _ => false end.

Definition groundedb (t : FsTree) (p : fpath) : bool := forallb (fun i => is_dir_node (t !! take i p)) (seq 0 (length p)).

Definition below (p k : fpath) : option fpath := if bool_decide (p ++ drop (length p) k = k) then Some (drop (length p) k) else None.

Definition not_linkb (x : option Node) : bool := match x with Some (Link _) => false | _ => true end.

(** One path of the tree, if it is in the source. *)
Definition readyb_at (t : FsTree) (src dst k : fpath) : bool :=
  match below src k with
  | None => true
  | Some q =>
      match last q with Some c => name_okb c && is_dir_node (t !! removelast k) | None => true end &&
      match t !! k with Some (Link _) => true | _ => not_linkb (t !! (dst ++ q)) end
  end.

Definition readyb (t : FsTree) (src dst : fpath) : bool :=
  groundedb t src && groundedb t dst && forallb name_okb src && forallb name_okb dst &&
  negb (bool_decide (src `prefix_of` dst)) && negb (bool_decide (dst `prefix_of` src)) &&
  forallb (fun kx => readyb_at t src dst kx.1) (map_to_list t).

Lemma name_okb_ok c : name_okb c = true -> name_ok c.
Proof. unfold name_okb, name_ok. intros Hb%negb_true_iff%bool_decide_eq_false. set_solver. Qed.

Lemma groundedb_ok t p : groundedb t p = true -> grounded t p.
Proof.
  unfold groundedb. intros Hb i Hi. rewrite forallb_forall in Hb. specialize (Hb i). rewrite in_seq in Hb. specialize (Hb ltac:(lia)).
  destruct (t !! take i p) as [[| |m]|]; try done. by exists m.
Qed.

Lemma below_app p q : below p (p ++ q) = Some q.
Proof. unfold below. by rewrite drop_app_length, bool_decide_true. Qed.

Lemma readyb_ok t src dst : readyb t src dst = true -> ready t src dst.
Proof.
  unfold readyb. rewrite !andb_true_iff, !negb_true_iff, !bool_decide_eq_false. intros ((((((H1 & H2) & H3) & H4) & H5) & H6) & H7).
  assert (Hat : forall q x, t !! (src ++ q) = Some x -> readyb_at t src dst (src ++ q) = true).
  { intros q x Hx. rewrite forallb_forall in H7. apply (H7 (src ++ q, x)). by apply list_elem_of_In, elem_of_map_to_list. }
  assert (Hn : forall l, forallb name_okb l = true -> Forall name_ok l).
  { intros l Hl. apply Forall_forall. intros c Hc. apply name_okb_ok. rewrite forallb_forall in Hl. by apply Hl, list_elem_of_In. }
  split; auto using groundedb_ok.
  - intros q c [x Hx]. specialize (Hat _ _ Hx). unfold readyb_at in Hat. rewrite below_app, last_snoc in Hat.
    rewrite !andb_true_iff in Hat. destruct Hat as [[Hc Hd] _]. split; [by apply name_okb_ok|].
    rewrite (assoc_L (++)), removelast_last in Hd. destruct (t !! (src ++ q)) as [[| |m]|]; try done. by exists m.
  - intros q. destruct (t !! (src ++ q)) as [x|] eqn:Ex; [|done]. specialize (Hat _ _ Ex). unfold readyb_at in Hat.
    rewrite below_app, andb_true_iff, Ex in Hat. destruct Hat as [_ Hat]. by destruct x, (t !! (dst ++ q)) as [[]|].
Qed.

Definition agreesb (x old : option Node) : bool :=
  match x, old with
  | Some (Link _), Some (Dir _) | Some (File _ _), Some (Dir _) | Some (Dir _), Some (File _ _) => false
  | _, _ => true
  end.

Definition possibleb (depth : nat) (t : FsTree) (src dst : fpath) : bool :=
  bool_decide (is_Some (t !! src)) &&
  forallb (fun kx => match below src kx.1 with Some q => agreesb (Some kx.2) (t !! (dst ++ q)) && (length q <? depth)%nat | None => true end) (map_to_list t).

Lemma possibleb_ok depth t src dst : possibleb depth t src dst = true -> possible depth t src dst.
Proof.
  unfold possibleb. rewrite andb_true_iff, bool_decide_eq_true. intros [H1 H2].
  assert (Hat : forall q x, t !! (src ++ q) = Some x -> agrees (Some x) (t !! (dst ++ q)) /\ (length q < depth)%nat).
  { intros q x Hx. rewrite forallb_forall in H2. specialize (H2 (src ++ q, x)). cbn [fst snd] in H2. rewrite below_app, andb_true_iff, Nat.ltb_lt in H2.
    destruct H2 as [Ha ?]; [by apply list_elem_of_In, elem_of_map_to_list|]. split; [|done]. by destruct x, (t !! (dst ++ q)) as [[]|]. }
  split; [done| |].
  - intros q. destruct (t !! (src ++ q)) as [x|] eqn:Ex; [by apply Hat|done].
  - intros q [x Hx]. by eapply Hat.
Qed.

(** ** A stack's binds *)

Definition demo_tree : FsTree :=
  list_to_map [ ([], Dir 493); ([lit "s"], Dir 493); ([lit "s"; lit "bin"], Dir 493); ([lit "s"; lit "bin"; lit "su"], File 2541 [1; 2]);
    ([lit "s"; lit "conf"], Link (lit "/etc/conf")); ([lit "w"], Dir 448); ([lit "w"; lit "d"], Dir 448); ([lit "w"; lit "d"; lit "old"], File 420 [7]);
    ([lit "w"; lit "d"; lit "bin"], Dir 448) ].

Definition backwards : World := {| tree := demo_tree; turns := replicate 30 {| refused := None; listed := @rev (list Z) |} |}.

Lemma copy_tree_copies_witness :
  let w' := (copy_tree true true 18 [lit "s"] [lit "w"; lit "d"] backwards).2 in
  (forall q, tree w' !! ([lit "w"; lit "d"] ++ q) = mirror (demo_tree !! ([lit "s"] ++ q)) (demo_tree !! ([lit "w"; lit "d"] ++ q))) /\
  tree w' !! [lit "w"; lit "d"; lit "bin"; lit "su"] = Some (File 2541 [1; 2]) /\
  tree w' !! [lit "w"; lit "d"; lit "old"] = Some (File 420 [7]).
Proof.
  pose proof (copy_tree_copies true true 18 [lit "s"] [lit "w"; lit "d"] backwards) as Hc.
  assert (Hl : lists_all backwards) by (apply Forall_replicate; intros l; symmetry; apply Permutation_rev).
  assert (Hq : quiet backwards) by by apply Forall_replicate.
  assert (Hr : readyb demo_tree [lit "s"] [lit "w"; lit "d"] = true) by (vm_compute; reflexivity).
  assert (Hp : possibleb PATH_DEPTH demo_tree [lit "s"] [lit "w"; lit "d"] = true) by (vm_compute; reflexivity).
  apply possibleb_ok in Hp. specialize (Hc Hl (readyb_ok _ _ _ Hr)).
  destruct (copy_tree true true 18 [lit "s"] [lit "w"; lit "d"] backwards) as [r w'] eqn:Er. destruct Hc as (_ & Hc & Hd). cbn [snd].
  specialize (Hc (Hd eq_refl Hq Hp)).
  assert (Hm : forall q, tree w' !! ([lit "w"; lit "d"] ++ q) = mirror (demo_tree !! ([lit "s"] ++ q)) (demo_tree !! ([lit "w"; lit "d"] ++ q))).
  { intros q. apply Hc; [|by left]. pose proof (all_agree _ _ _ _ Hp q) as Ha. intros Hf. cbn [tree backwards] in Hf.
    by destruct (demo_tree !! ([lit "s"] ++ q)) as [[]|], (demo_tree !! ([lit "w"; lit "d"] ++ q)) as [[]|]. }
  split; [exact Hm|]. split.
  - pose proof (Hm [lit "bin"; lit "su"]) as E. by vm_compute in E.
  - pose proof (Hm [lit "old"]) as E. by vm_compute in E.
Defined.

(** ** Copies at their edges *)

Definition calm_world (t : FsTree) : World := {| tree := t; turns := [] |}.

(** A directory its owner may not write to is made with that mode before it is
    filled, so only a privileged process can copy it. *)
Definition read_only_tree : FsTree :=
  list_to_map [([], Dir 493); ([lit "s"], Dir 365); ([lit "s"; lit "f"], File 292 [1]); ([lit "w"], Dir 448)].

Example read_only_dir_not_copied :
  (copy_tree false false 18 [lit "s"] [lit "w"; lit "s"] (calm_world read_only_tree)).1 = Err EACCES /\
  (copy_tree true false 18 [lit "s"] [lit "w"; lit "s"] (calm_world read_only_tree)).1 = Ok tt.
Proof. by vm_compute. Qed.

(** The mode is set before the bytes are written, and writing them takes the
    set-id bits away unless the process has [CAP_FSETID]. *)
Example set_id_bits_lost :
  let '(r, w) := copy_tree false false 18 [lit "s"] [lit "w"; lit "s"] (calm_world demo_tree) in
  r = Ok tt /\ tree w !! [lit "w"; lit "s"; lit "bin"; lit "su"] = Some (File 493 [1; 2]).
Proof. by vm_compute. Qed.

(** An empty directory copied over a file leaves the file, and succeeds. *)
Example empty_dir_over_file :
  let t : FsTree := list_to_map [([], Dir 493); ([lit "s"], Dir 493); ([lit "w"], Dir 493); ([lit "w"; lit "s"], File 420 [9])] in
  let '(r, w) := copy_tree true true 18 [lit "s"] [lit "w"; lit "s"] (calm_world t) in
  r = Ok tt /\ tree w !! [lit "w"; lit "s"] = Some (File 420 [9]).
Proof. by vm_compute. Qed.

(** Copying a file over a link writes to where the link leads. *)
Example written_through_link :
  let t : FsTree := list_to_map [([], Dir 493); ([lit "s"], File 420 [1]); ([lit "etc"], Dir 493); ([lit "etc"; lit "passwd"], File 420 [9]);
    ([lit "w"], Dir 493); ([lit "w"; lit "s"], Link (lit "../etc/passwd"))] in
  let '(r, w) := copy_tree false false 18 [lit "s"] [lit "w"; lit "s"] (calm_world t) in
  r = Ok tt /\ tree w !! [lit "etc"; lit "passwd"] = Some (File 420 [1]) /\ tree w !! [lit "w"; lit "s"] = Some (Link (lit "../etc/passwd")).
Proof. by vm_compute. Qed.
