(* ===== verification/TreeHash.v ===== *)
(** * The content hash of a source tree ([src/src/build/fsops.rs])

    [walk_files] and [tree_hash]: the bake cache's view of the stack directory.
    What it sees is the relative path and the content of every regular file,
    up to a collision of the hash; the order the host lists directories in
    does not reach it, and neither do modes, symbolic links or the excluded
    names. *)

From Stdlib Require Import ZArith Lia String.
From stdpp Require Import base numbers strings sets list sorting.
From S2P Require Import Prelude.
From S2P Require Import Text.
From S2P Require Import Lines.
From S2P Require Import Utf8.
From S2P Require Import Tar.

Open Scope Z_scope.

(** A tree as the host shows it, from what the root's path resolves to: each
    read and each listing may fail, with the text of its error; entries come in
    the host's order. *)
Inductive Tree :=
  | Regular (mode : Z) (content : result (list Z) (list Z))
  | Symlink (target : list Z)
  | Directory (mode : Z) (listing : result (list Z) (list (result (list Z) (list Z * Tree)))).

Abbreviation listing := (result (list Z) (list (result (list Z) (list Z * Tree)))).

(** A file of the walk: its path below the root, and what reading it gives. *)
Abbreviation found := (list (list Z) * result (list Z) (list Z))%type.

Lemma Tree_nested_ind (P : Tree -> Prop) :
  (forall m c, P (Regular m c)) -> (forall target, P (Symlink target)) -> (forall m e, P (Directory m (Err e))) ->
  (forall m es, Forall (fun e => match e with Ok (_, t) => P t | Err _ => True end) es -> P (Directory m (Ok es))) ->
  forall t, P t.
Proof.
  intros Hf Hs He Hd. fix IH 1. intros [m c|target|m [es|e]]; [apply Hf|apply Hs| |apply He]. apply Hd.
  induction es as [|[[name t]|e] es IHes]; constructor; auto.
Qed.

(** ** [walk_files] *)

(** The loop over one [read_dir]: directories are pushed, files kept. *)
Fixpoint scan_dir (d : list (list Z)) (es : list (result (list Z) (list Z * Tree)))
    (stack : list (list (list Z) * listing)) (out : list found) :
    result (list Z) (list (list (list Z) * listing) * list found) :=
  match es with
  | [] => Ok (stack, out)
  | Err e :: _ => Err e
  | Ok (name, t) :: es =>
      match t with
      | Directory _ l => scan_dir d es ((d ++ [name], l) :: stack) out
      | Regular _ c => scan_dir d es stack (out ++ [(d ++ [name], c)])
      | Symlink _ => scan_dir d es stack out
      end
  end.

(** The loop over the stack; every turn pops a directory. *)
Fixpoint walk_loop (fuel : nat) (stack : list (list (list Z) * listing)) (out : list found) :
    option (result (list Z) (list found)) :=
  match fuel, stack with
  | _, [] => Some (Ok out)
  | O, _ => None
  | S fuel, (d, l) :: stack =>
      match (es ← l; scan_dir d es stack out) with
      | Err e => Some (Err e)
      | Ok (stack, out) => walk_loop fuel stack out
      end
  end.

(** The directories of a tree: the fuel of its walk. *)
Fixpoint dirs (t : Tree) : nat :=
  match t with
  | Directory _ (Ok es) => S (sum_list ((fun e => match e with Ok (_, t) => dirs t | Err _ => O end) <$> es))
  | Directory _ (Err _) => 1
  | _ => O
  end.

Definition walk_files (t : Tree) : option (result (list Z) (list found)) :=
  match t with
  | Directory _ l => walk_loop (dirs t) [([], l)] []
  | _ => Some (Ok [])
  end.

(** ** [tree_hash] *)

(** [strip_prefix(root)], as text. *)
Definition rel_text (p : list (list Z)) : list Z := from_utf8_lossy (join_with [47] p).

Definition base_name (p : list (list Z)) : list Z :=
  match last p with Some c => if from_utf8_ok c then c else [] | None => [] end.

Definition kept (exclude : list (list Z)) (f : found) : bool := negb (bool_decide (base_name f.1 ∈ exclude)).

Section tree_hash.
Context {H : Type} `{Sha256 H}.

Definition hash_found (f : found) : result (list Z) (list Z * list Z) :=
  bytes ← f.2; Ok (rel_text f.1, sha256_hex bytes).

(** [collect] into a [Result]; of several errors the code may meet another
    first, the files being hashed in parallel. *)
Fixpoint collect_ok {A} (l : list (result (list Z) A)) : result (list Z) (list A) :=
  match l with
  | [] => Ok []
  | r :: l => a ← r; l ← collect_ok l; Ok (a :: l)
  end.

(** [Ord] on a pair of strings. *)
Definition pair_le (a b : list Z * list Z) : Prop :=
  if bool_decide (a.1 = b.1) then bytes_leb a.2 b.2 = true else bytes_leb a.1 b.1 = true.

#[export] Instance pair_le_dec a b : Decision (pair_le a b).
Proof. unfold pair_le. destruct (bool_decide (a.1 = b.1)); apply _. Defined.

Definition entry_line (e : list Z * list Z) : list Z := e.1 ++ [0] ++ e.2 ++ [LF].

Definition digest (entries : list (list Z * list Z)) : list Z :=
  sha256_hex (concat (entry_line <$> merge_sort pair_le entries)).

(** [None] only if the walk ran out of fuel. *)
Definition tree_hash (display : list Z) (root : option Tree) (exclude : list (list Z)) : option (result (list Z) (list Z)) :=
  match root with
  | None => Some (Ok (lit "MISSING:" ++ display))
  | Some t =>
      r ← walk_files t;
      Some (files ← r;
            entries ← collect_ok (hash_found <$> filter (fun f => kept exclude f = true) files);
            Ok (digest entries))
  end.
End tree_hash.

(** ** The files of a tree, by recursion *)

Fixpoint files_below (d : list (list Z)) (t : Tree) : list found :=
  match t with
  | Regular _ c => [(d, c)]
  | Symlink _ => []
  | Directory _ (Err _) => []
  | Directory _ (Ok es) =>
      concat ((fun e => match e with Ok (name, t) => files_below (d ++ [name]) t | Err _ => [] end) <$> es)
  end.

(** No listing fails. *)
Fixpoint listable (t : Tree) : Prop :=
  match t with
  | Directory _ (Err _) => False
  | Directory _ (Ok es) => foldr (fun e P => match e with Ok (_, t) => listable t | Err _ => False end /\ P) True es
  | _ => True
  end.

Definition below (stack : list (list (list Z) * listing)) : list found :=
  concat ((fun x => files_below x.1 (Directory 0 x.2)) <$> stack).

Definition weight (stack : list (list (list Z) * listing)) : nat :=
  sum_list ((fun x => dirs (Directory 0 x.2)) <$> stack).

(** ** The walk *)

(** A turn of the loop: nothing is lost or invented, and what is left to walk
    is smaller. *)
Lemma scan_dir_spec d es : forall stack out,
  match scan_dir d es stack out with
  | Ok (stack', out') =>
      out' ++ below stack' ≡ₚ out ++ files_below d (Directory 0 (Ok es)) ++ below stack /\
      S (weight stack') = (dirs (Directory 0 (Ok es)) + weight stack)%nat /\
      (listable (Directory 0 (Ok es)) /\ Forall (fun x => listable (Directory 0 x.2)) stack <->
       Forall (fun x => listable (Directory 0 x.2)) stack')
  | Err e => ~ listable (Directory 0 (Ok es))
  end.
Proof.
  induction es as [|[[name t]|e] es IH]; intros stack out; cbn [scan_dir]; [|..|by intros []].
  - cbn. split_and!; [done|done|tauto].
  - destruct t as [m c|target|m l].
    + specialize (IH stack (out ++ [(d ++ [name], c)])). destruct (scan_dir d es _ _) as [[stack' out']|e]; [|by intros [_ ?]].
      destruct IH as (Hp & Hw & Hl). split_and!; [|exact Hw|cbn in *; tauto]. rewrite Hp, <- (assoc_L (++)). done.
    + specialize (IH stack out). destruct (scan_dir d es _ _) as [[stack' out']|e]; [|by intros [_ ?]].
      destruct IH as (Hp & Hw & Hl). split_and!; [exact Hp|exact Hw|cbn in *; tauto].
    + specialize (IH ((d ++ [name], l) :: stack) out). destruct (scan_dir d es _ _) as [[stack' out']|e]; [|by intros [_ ?]].
      destruct IH as (Hp & Hw & Hl). split_and!.
      * rewrite Hp. apply Permutation_app_head. change (below ((d ++ [name], l) :: stack)) with (files_below (d ++ [name]) (Directory 0 l) ++ below stack).
        change (files_below d (Directory 0 (Ok (Ok (name, Directory m l) :: es))))
          with (files_below (d ++ [name]) (Directory 0 l) ++ files_below d (Directory 0 (Ok es))).
        rewrite !(assoc_L (++)). apply Permutation_app_tail, Permutation_app_comm.
      * rewrite Hw. unfold weight. cbn. destruct l; cbn; lia.
      * rewrite <- Hl, Forall_cons. cbn. destruct l; tauto.
Qed.

Lemma walk_loop_spec fuel : forall stack out, (weight stack <= fuel)%nat ->
  match walk_loop fuel stack out with
  | Some (Ok files) => Forall (fun x => listable (Directory 0 x.2)) stack /\ files ≡ₚ out ++ below stack
  | Some (Err _) => ~ Forall (fun x => listable (Directory 0 x.2)) stack
  | None => False
  end.
Proof.
  induction fuel as [|fuel IH]; intros [|[d [es|e]] stack] out Hf; cbn [walk_loop].
  1, 4: cbn; split; [constructor|by rewrite app_nil_r].
  1, 2: unfold weight in Hf; cbn in Hf; lia.
  - change (es ← Ok es; scan_dir d es stack out) with (scan_dir d es stack out).
    pose proof (scan_dir_spec d es stack out) as Hs. destruct (scan_dir d es stack out) as [[stack' out']|e].
    + destruct Hs as (Hp & Hw & Hl). specialize (IH stack' out').
      assert (Hc : weight ((d, Ok es) :: stack) = (dirs (Directory 0 (Ok es)) + weight stack)%nat) by done.
      specialize (IH ltac:(lia)).
      destruct (walk_loop fuel stack' out') as [[files|e]|]; [|rewrite Forall_cons; cbn [snd]; tauto|done].
      rewrite Forall_cons. cbn [snd]. split; [tauto|]. by destruct IH as [_ ->].
    + intros Hall. by apply Forall_cons in Hall as [? _].
  - intros Hall. by apply Forall_cons in Hall as [? _].
Qed.

(** The walk ends; it gives the files in some order, or fails if a listing does. *)
Lemma walk_files_spec t :
  match walk_files t with
  | Some (Ok files) => match t with Directory _ _ => listable t /\ files ≡ₚ files_below [] t | _ => files = [] end
  | Some (Err _) => ~ listable t
  | None => False
  end.
Proof.
  destruct t as [m c|target|m l]; [done..|]. cbn [walk_files].
  pose proof (walk_loop_spec (dirs (Directory m l)) [([], l)] []) as Hs.
  specialize (Hs ltac:(unfold weight; cbn; destruct l; lia)).
  destruct (walk_loop _ _ _) as [[files|e]|]; [| |done].
  - destruct Hs as [Hl Hp]. rewrite Forall_singleton in Hl. split; [exact Hl|]. rewrite Hp. cbn. by rewrite app_nil_r.
  - by rewrite Forall_singleton in Hs.
Qed.

(** ** What the hash depends on *)

#[export] Instance pair_le_total : Total pair_le.
Proof.
  intros [a a'] [b b']. unfold pair_le. cbn. case_bool_decide as Ha; case_bool_decide as Hb; try congruence.
  - apply bytes_leb_total.
  - apply bytes_leb_total.
Qed.

#[export] Instance pair_le_trans : Transitive pair_le.
Proof.
  intros [a a'] [b b'] [c c']. unfold pair_le. cbn. repeat case_bool_decide; subst; eauto using bytes_leb_trans; try congruence.
  intros H1 H2. exfalso. eauto using bytes_leb_antisym.
Qed.

#[export] Instance pair_le_antisym : AntiSymm (=) pair_le.
Proof.
  intros [a a'] [b b']. unfold pair_le. cbn. repeat case_bool_decide; subst; try congruence; intros H1 H2.
  - f_equal. eauto using bytes_leb_antisym.
  - exfalso. eauto using bytes_leb_antisym.
Qed.

Lemma merge_sort_unique l l' : l ≡ₚ l' -> merge_sort pair_le l = merge_sort pair_le l'.
Proof.
  intros Hp. apply (StronglySorted_unique pair_le); try apply (StronglySorted_merge_sort _).
  by rewrite !merge_sort_Permutation.
Qed.

Lemma merge_sort_sorted l : StronglySorted pair_le l -> merge_sort pair_le l = l.
Proof.
  intros Hs. apply (StronglySorted_unique pair_le); [apply (StronglySorted_merge_sort _)|done|apply merge_sort_Permutation].
Qed.

Lemma pairs_same {A B} (l : list (A * B)) : (fun x => (x.1, x.2)) <$> l = l.
Proof. induction l as [|[]]; [done|]. rewrite fmap_cons. by f_equal. Qed.

(** SHA-256's digests are 32 bytes, and two inputs with one digest. *)
Class Sha256Digests (H : Type) `{Sha256 H} := {
  digest_length h : length (sha_finalize h) = 32%nat;
  digest_bytes h : Forall (fun b => 0 <= b < 256) (sha_finalize h);
}.

Definition collision {H} `{Sha256 H} : Prop := exists a b, a <> b /\ sha256_hex a = sha256_hex b.

(** What the hash sees of a directory: relative paths and contents. *)
Definition seen (exclude : list (list Z)) (t : Tree) : list (list Z * result (list Z) (list Z)) :=
  (fun f => (rel_text f.1, f.2)) <$> filter (fun f => kept exclude f = true) (files_below [] t).

(** The same tree, each directory listed in any order. *)
Inductive relisted : Tree -> Tree -> Prop :=
  | relisted_regular m c : relisted (Regular m c) (Regular m c)
  | relisted_link target : relisted (Symlink target) (Symlink target)
  | relisted_unlisted m e : relisted (Directory m (Err e)) (Directory m (Err e))
  | relisted_directory m es es' es'' : Forall2 relisted_entry es es' -> es' ≡ₚ es'' -> relisted (Directory m (Ok es)) (Directory m (Ok es''))
with relisted_entry : result (list Z) (list Z * Tree) -> result (list Z) (list Z * Tree) -> Prop :=
  | relisted_ok name t t' : relisted t t' -> relisted_entry (Ok (name, t)) (Ok (name, t'))
  | relisted_err e : relisted_entry (Err e) (Err e).

Lemma concat_perm {A} (l l' : list (list A)) : l ≡ₚ l' -> concat l ≡ₚ concat l'.
Proof.
  induction 1 as [|x l l' _ IH|x y l|l1 l2 l3 _ IH1 _ IH2]; cbn; [done|by rewrite IH| |by etrans].
  rewrite !(assoc_L (++)). apply Permutation_app_tail, Permutation_app_comm.
Qed.

Lemma relisted_files t : forall t' d, relisted t t' -> files_below d t ≡ₚ files_below d t'.
Proof.
  induction t as [m c|target|m e|m es IH] using Tree_nested_ind; intros t' d Hr; inversion Hr as [| | |? ? es' es'' He Hp]; subst; try done.
  cbn [files_below]. etrans; [|apply concat_perm, fmap_Permutation, Hp]. clear Hp Hr es''.
  revert es' He. induction IH as [|e es Hh _ IHes]; intros es' He; apply Forall2_cons_inv_l in He || apply Forall2_nil_inv_l in He;
    [by subst|]. destruct He as (e' & es'' & He & Hes & ->). rewrite !fmap_cons. cbn [concat].
  apply Permutation_app; [|by apply IHes]. destruct He as [name u u' Hu|x]; [by apply Hh|done].
Qed.

Lemma relisted_seen ex t t' : relisted t t' -> seen ex t ≡ₚ seen ex t'.
Proof. intros Hr. unfold seen. by apply fmap_Permutation, filter_Permutation, relisted_files. Qed.

Definition is_directory (t : Tree) : bool := match t with Directory _ _ => true | _ => false end.

(** No file name holds a NUL: the kernel allows none. *)
Fixpoint names_ok (t : Tree) : Prop :=
  match t with
  | Directory _ (Ok es) => foldr (fun e P => match e with Ok (name, t) => 0 ∉ name /\ names_ok t | Err _ => True end /\ P) True es
  | _ => True
  end.

Lemma hex_length bs : Forall (fun b => 0 <= b < 256) bs -> length (hex bs) = (2 * length bs)%nat.
Proof.
  intros Hbs. unfold hex. induction Hbs as [|b bs Hb _ IH]; [done|].
  rewrite fmap_cons. cbn [concat]. rewrite length_app, IH. cbn [length].
  rewrite zero_pad_length, Nat.max_l; [lia|]. apply radix_length; lia.
Qed.

Section dependence.
Context {H : Type} `{Sha256 H}.

Lemma collect_hash (l : list found) entries :
  collect_ok (hash_found <$> l) = Ok entries <->
  exists cs, (fun f => (rel_text f.1, f.2)) <$> l = (fun c => (c.1, Ok c.2)) <$> cs /\
    entries = (fun c => (c.1, sha256_hex c.2)) <$> cs.
Proof.
  revert entries. induction l as [|[p r] l IH]; intros entries.
  - cbn. split; [intros [= <-]; by exists []|]. intros ([|] & ? & ->); done.
  - rewrite !fmap_cons. cbn [collect_ok fst snd].
    change (hash_found (p, r)) with (bytes ← r; Ok (rel_text p, sha256_hex bytes)).
    destruct r as [bytes|e]; unfold mbind, result_bind.
    + split.
      * destruct (collect_ok _) as [es|e]; [|done]. intros [= <-].
        destruct (proj1 (IH es) eq_refl) as (cs & Hc & ->). exists ((rel_text p, bytes) :: cs). by rewrite !fmap_cons, Hc.
      * intros ([|[q b] cs] & Hc & ->); [done|]. rewrite !fmap_cons in Hc. injection Hc as <- <- Hc.
        by rewrite (proj2 (IH _) (ex_intro _ cs (conj Hc eq_refl))).
    + split; [done|]. intros ([|[q b] cs] & Hc & _); [done|]. by rewrite fmap_cons in Hc.
Qed.

(** A hash is the digest of the names and hashes of what is seen. *)
Lemma tree_hash_seen d t ex h : is_directory t = true -> tree_hash d (Some t) ex = Some (Ok h) ->
  exists cs, seen ex t ≡ₚ (fun c => (c.1, Ok c.2)) <$> cs /\ h = digest ((fun c => (c.1, sha256_hex c.2)) <$> cs).
Proof.
  intros Hd Hh. pose proof (walk_files_spec t) as Hw. cbn [tree_hash] in Hh.
  destruct (walk_files t) as [[files|e]|]; [|done|done]. destruct t as [| |m l]; [done..|]. destruct Hw as [_ Hp].
  cbn -[fmap filter] in Hh. destruct (collect_ok _) as [es|e] eqn:Ec; [|done]. injection Hh as <-.
  apply collect_hash in Ec as (cs & Hc & ->). exists cs. split; [|done]. rewrite <- Hc. unfold seen. by rewrite Hp.
Qed.

Lemma seen_names ex t p r : names_ok t -> (p, r) ∈ seen ex t -> 0 ∉ p.
Proof.
  intros Hn Hin. unfold seen in Hin. apply list_elem_of_fmap in Hin as ([q c] & [= -> ->] & Hin).
  apply list_elem_of_filter in Hin as [_ Hin]. cbn.
  assert (Hq : forall t d, names_ok t -> Forall (fun c => 0 ∉ c) d -> (q, c) ∈ files_below d t -> Forall (fun c => 0 ∉ c) q).
  { clear. intros t. induction t as [m c'|tg|m e|m es IH] using Tree_nested_ind; intros d Hn Hd Hin; cbn in Hin.
    - apply list_elem_of_singleton in Hin as [= -> ->]. done.
    - by apply not_elem_of_nil in Hin.
    - by apply not_elem_of_nil in Hin.
    - cbn in Hn. induction IH as [|[[name t]|e] es IHt _ IHes]; cbn in Hin.
      + by apply not_elem_of_nil in Hin.
      + destruct Hn as [[Hname Ht] Hn]. apply elem_of_app in Hin as [Hin|Hin]; [|by apply IHes].
        apply (IHt (d ++ [name])); [done| |done]. apply Forall_app. split; [done|]. by constructor.
      + destruct Hn as [_ Hn]. by apply IHes. }
  specialize (Hq t [] Hn ltac:(constructor) Hin). unfold rel_text.
  assert (Hj : Forall (fun b => b <> 0) (join_with [47] q)).
  { clear -Hq. induction Hq as [|c q Hc Hq IH]; [constructor|]. destruct q as [|c' q].
    - cbn. apply Forall_forall. by intros x Hx ->.
    - change (join_with [47] (c :: c' :: q)) with (c ++ 47 :: join_with [47] (c' :: q)). apply Forall_app. split.
      + apply Forall_forall. by intros x Hx ->.
      + by constructor. }
  intros Hnul. apply (from_utf8_lossy_Forall _ _) in Hj; [|by repeat constructor].
  rewrite Forall_forall in Hj. by apply (Hj 0).
Qed.

(** The lines of the hashed text can be told apart. *)
Lemma entry_lines_inj (l l' : list (list Z * list Z)) :
  Forall (fun e => 0 ∉ e.1 /\ length e.2 = 64%nat) l -> Forall (fun e => 0 ∉ e.1 /\ length e.2 = 64%nat) l' ->
  concat (entry_line <$> l) = concat (entry_line <$> l') -> l = l'.
Proof.
  intros Hl. revert l'. induction Hl as [|[p s] l [Hp Hs] _ IH]; intros [|[p' s'] l'] Hl' E; [done|..].
  - rewrite fmap_cons in E. cbn in E. unfold entry_line in E. cbn in E. destruct p'; done.
  - rewrite fmap_cons in E. cbn in E. unfold entry_line in E. cbn in E. destruct p; done.
  - apply Forall_cons in Hl' as [[Hp' Hs'] Hl']. rewrite !fmap_cons in E. cbn [concat] in E. unfold entry_line at 1 3 in E.
    cbn [fst snd] in *. rewrite <- !(assoc_L (++)) in E. apply app_mark_inj in E as [-> E]; [|done..]. apply app_inj_1 in E as [-> E]; [|by rewrite Hs, Hs']. injection E as E. f_equal. by apply IH.
Qed.

Lemma map_inj_or_collision (l l' : list (list Z * list Z)) :
  ((fun c => (c.1, sha256_hex c.2)) <$> l) ≡ₚ ((fun c => (c.1, sha256_hex c.2)) <$> l') -> l ≡ₚ l' \/ collision.
Proof.
  revert l'. induction l as [|[p b] l IH]; intros l' Hp.
  - apply Permutation_nil_l in Hp. symmetry in Hp. apply fmap_nil_inv in Hp as ->. by left.
  - rewrite fmap_cons in Hp. symmetry in Hp. apply Permutation_cons_inv_r in Hp as (k1 & k2 & El & Hp).
    apply fmap_app_inv in El as (l1 & l2' & -> & El & ->). symmetry in El.
    destruct l2' as [|[p' b'] l2]; [done|]. rewrite fmap_cons in El. injection El as -> Eb <-. cbn [fst snd] in Eb.
    destruct (decide (b = b')) as [<-|Hne]; [|right; by exists b', b]. rewrite <- fmap_app in Hp.
    destruct (IH (l1 ++ l2)) as [Hq|?]; [by symmetry| |by right]. left. rewrite Hq. apply Permutation_middle.
Qed.

Context `{!Sha256Digests H}.

Lemma sha256_hex_length bs : length (sha256_hex bs) = 64%nat.
Proof. unfold sha256_hex. rewrite hex_length by apply digest_bytes. by rewrite digest_length. Qed.

Lemma digest_inj (l l' : list (list Z * list Z)) :
  Forall (fun e => 0 ∉ e.1 /\ length e.2 = 64%nat) l -> Forall (fun e => 0 ∉ e.1 /\ length e.2 = 64%nat) l' ->
  digest l = digest l' -> l ≡ₚ l' \/ collision.
Proof.
  intros Hl Hl' E. unfold digest in E.
  destruct (decide (concat (entry_line <$> merge_sort pair_le l) = concat (entry_line <$> merge_sort pair_le l'))) as [Es|Hne].
  - left. apply entry_lines_inj in Es; [|by rewrite merge_sort_Permutation..].
    by rewrite <- (merge_sort_Permutation pair_le l), Es, merge_sort_Permutation.
  - right. by eexists _, _.
Qed.

(** The hash of a directory identifies what is seen of it, a relative
    path and a content for each regular file that is not excluded: two
    directories that show the same files, in whatever order the host lists
    them, hash the same, and two that hash the same show the same files, or
    there are two texts with the same SHA-256. *)
Theorem tree_hash_identifies d d' t t' ex h h' :
  is_directory t = true -> is_directory t' = true -> names_ok t -> names_ok t' ->
  tree_hash d (Some t) ex = Some (Ok h) -> tree_hash d' (Some t') ex = Some (Ok h') ->
  (seen ex t ≡ₚ seen ex t' -> h = h') /\ (h = h' -> seen ex t ≡ₚ seen ex t' \/ collision).
Proof.
  intros Hd Hd' Hn Hn' (cs & Hs & ->)%tree_hash_seen (cs' & Hs' & ->)%tree_hash_seen; [|done..]. split.
  - rewrite Hs, Hs'. intros Hp. unfold digest. do 3 f_equal.
    assert (Hc : cs ≡ₚ cs').
    { apply (fmap_Permutation (fun c => match c.2 with Ok b => (c.1, b) | Err _ => (c.1, []) end)) in Hp.
      rewrite <- !list_fmap_compose in Hp. unfold compose in Hp. cbn in Hp.
      by rewrite !pairs_same in Hp. }
    apply merge_sort_unique. by rewrite Hc.
  - assert (Hall : forall t cs, names_ok t -> seen ex t ≡ₚ (fun c => (c.1, Ok c.2)) <$> cs ->
      Forall (fun e => 0 ∉ e.1 /\ length e.2 = 64%nat) ((fun c => (c.1, sha256_hex c.2)) <$> cs)).
    { clear -Sha256Digests0. intros t cs Hn Hs. apply Forall_fmap, Forall_forall. intros [p b] Hin.
      split; [|apply sha256_hex_length]. apply (seen_names ex t p (Ok b) Hn). rewrite Hs. apply list_elem_of_fmap. exists (p, b). done. }
    intros E. apply digest_inj in E as [E|?]; [|by right|by apply (Hall t)|by apply (Hall t')].
    apply map_inj_or_collision in E as [E|?]; [|by right]. left. by rewrite Hs, Hs', E.
Qed.

Lemma collect_readable (l : list found) :
  match collect_ok (hash_found <$> l) with
  | Ok _ => Forall (fun s => exists bytes, s.2 = Ok bytes) ((fun f => (rel_text f.1, f.2)) <$> l)
  | Err _ => ~ Forall (fun s => exists bytes, s.2 = Ok bytes) ((fun f => (rel_text f.1, f.2)) <$> l)
  end.
Proof.
  induction l as [|[p r] l IH]; [constructor|]. rewrite !fmap_cons. cbn [collect_ok].
  destruct r as [bytes|e]; cbn -[fmap rel_text]; [|intros Hall; apply Forall_cons in Hall as [[? ?] _]; done].
  destruct (collect_ok _) as [es|e].
  - constructor; [by eexists|done].
  - intros Hall. apply Forall_cons in Hall as [_ ?]. done.
Qed.

(** The hash is computed for any tree: the walk ends, with an error only if
    a listing failed or a file that is not excluded could not be read. *)
Theorem tree_hash_total d t ex :
  is_directory t = true ->
  match tree_hash d (Some t) ex with
  | Some (Ok _) => listable t /\ Forall (fun s => exists bytes, s.2 = Ok bytes) (seen ex t)
  | Some (Err _) => ~ (listable t /\ Forall (fun s => exists bytes, s.2 = Ok bytes) (seen ex t))
  | None => False
  end.
Proof.
  intros Hd. pose proof (walk_files_spec t) as Hw. cbn [tree_hash].
  destruct (walk_files t) as [[files|e]|]; [|intros [Hl _]; by apply Hw|done].
  destruct t as [| |m l]; [done..|]. destruct Hw as [Hl Hp].
  assert (Hs : seen ex (Directory m l) ≡ₚ (fun f => (rel_text f.1, f.2)) <$> filter (fun f => kept ex f = true) files)
    by (unfold seen; by rewrite Hp).
  pose proof (collect_readable (filter (fun f => kept ex f = true) files)) as Hc.
  change (Some (Ok files) ≫= _) with (Some (entries ← collect_ok (hash_found <$> filter (fun f => kept ex f = true) files); Ok (digest entries))).
  destruct (collect_ok _) as [es|e]; unfold mbind, result_bind; rewrite Hs; [done|tauto].
Qed.
End dependence.

(** ** Instances *)

(** A hash to run code with: the first bytes, to a length of 32. *)
Record Short := { short : list Z }.

#[export] Program Instance short_sha : Sha256 Short := {
  sha_new := {| short := [] |};
  sha_update h bs := {| short := short h ++ bs |};
  sha_finalize h := take 32 (((fun b => b mod 256) <$> short h) ++ replicate 32 0);
}.
Next Obligation. intros. cbn. by rewrite app_assoc. Qed.
Next Obligation. intros [h]. cbn. by rewrite app_nil_r. Qed.

#[export] Instance short_digests : Sha256Digests Short.
Proof.
  split; intros [h]; cbn -[take replicate].
  - rewrite length_take, length_app, length_replicate. lia.
  - apply Forall_take, Forall_app. split; [|apply Forall_replicate; lia].
    apply Forall_fmap, Forall_forall. intros b _. apply Z.mod_pos_bound. lia.
Qed.

(** A directory with two files, a link and an excluded file, listed in two orders. *)
Definition demo_tree (swap : bool) : Tree :=
  let sub := Ok (lit "sub", Directory 493 (Ok [Ok (lit "b.txt", Regular 420 (Ok (lit "world")))])) in
  let a := Ok (lit "a.txt", Regular (if swap then 493 else 420) (Ok (lit "hello"))) in
  let l := Ok (lit "l", Symlink (lit "a.txt")) in
  let s := Ok (lit "stack.lock", Regular 420 (Ok (if swap then lit "1" else lit "2"))) in
  Directory 493 (Ok (if swap then [s; a; sub] else [sub; a; l; s])).

Example demo_seen : seen [lit "stack.lock"] (demo_tree false) = [(lit "sub/b.txt", Ok (lit "world")); (lit "a.txt", Ok (lit "hello"))].
Proof. by vm_compute. Qed.

(** Neither the order, the modes, the link nor the excluded file reach the hash. *)
Lemma tree_hash_identifies_witness :
  exists h h', tree_hash (H := Short) (lit "/s") (Some (demo_tree false)) [lit "stack.lock"] = Some (Ok h) /\
    tree_hash (lit "/s") (Some (demo_tree true)) [lit "stack.lock"] = Some (Ok h') /\ h = h'.
Proof.
  eexists _, _. split; [vm_compute; reflexivity|]. split; [vm_compute; reflexivity|].
  eapply (tree_hash_identifies (lit "/s") (lit "/s") (demo_tree false) (demo_tree true) [lit "stack.lock"]);
    [done|done|by vm_compute; set_solver|by vm_compute; set_solver|vm_compute; reflexivity|vm_compute; reflexivity|].
  vm_compute. apply Permutation_swap.
Defined.

Lemma tree_hash_total_witness :
  match tree_hash (H := Short) (lit "/s") (Some (demo_tree false)) [] with
  | Some (Ok _) => listable (demo_tree false) /\ Forall (fun s => exists bytes, s.2 = Ok bytes) (seen [] (demo_tree false))
  | Some (Err _) => ~ (listable (demo_tree false) /\ Forall (fun s => exists bytes, s.2 = Ok bytes) (seen [] (demo_tree false)))
  | None => False
  end.
Proof. apply (tree_hash_total (lit "/s") (demo_tree false) []). reflexivity. Defined.
