(* ===== verification/Cache.v ===== *)
(** * The bake cache ([src/src/build/cache.rs], [src/src/build/base.rs], [overlay_id])

    The key a bake is stored under, and the entries of the two caches, which
    several builders fill and read at once.  An entry is a directory that is
    filled beside its place and renamed into it.  The outputs it is filled from
    and restored to are shared by name and nothing locks them: the theorems say
    what holds while others put into them only what they may, and two examples
    show what becomes of an entry and of an output when they do otherwise. *)

From Stdlib Require Import ZArith Lia.
From stdpp Require Import base numbers strings gmap list.
From S2P Require Import Prelude.
From S2P Require Import Text.
From S2P Require Import Lines.
From S2P Require Import Utf8.
From S2P Require Import Tar.
From S2P Require Import Store.
From S2P Require Import Files.
From S2P Require Import TreeHash.

Open Scope Z_scope.

Definition CACHE_VERSION : Z := 6.

(** ** Where the cache is *)

(** [resolve_cache_dir]; [env] is [std::env::var] with errors as [None]. *)
Definition resolve_cache_dir (env : list Z -> option (list Z)) (flag : option (list Z)) : list Z * list Z :=
  match flag with
  | Some (c :: f) => (c :: f, lit "--cache-dir flag")
  | _ =>
      match env (lit "TDVMM_CACHE_DIR") with
      | Some (c :: d) => (c :: d, lit "TDVMM_CACHE_DIR env")
      | _ => (Store.join_path (default (lit ".") (env (lit "HOME"))) (lit ".tdvmm"), lit "default $HOME/.tdvmm")
      end
  end.

(** ** The key *)

(** What is compiled into the binary: the overlay's contents and the engine
    ledger. *)
Record Embedded := { overlay_bytes : list Z -> list Z; COMPOSE_ENGINE_LOCK : list Z }.

Record OverlayFile := { o_path : list Z; o_mode : Z }.

Definition OVERLAY_FILES : list OverlayFile :=
  [ {| o_path := lit "init"; o_mode := 493 |};
    {| o_path := lit "etc/inittab"; o_mode := 420 |};
    {| o_path := lit "etc/containers/containers.conf"; o_mode := 420 |};
    {| o_path := lit "etc/containers/storage.conf"; o_mode := 420 |};
    {| o_path := lit "usr/local/bin/compose-up.sh"; o_mode := 493 |};
    {| o_path := lit "usr/local/bin/container-selftest.sh"; o_mode := 493 |};
    {| o_path := lit "usr/local/bin/healthcheck-ticker.sh"; o_mode := 493 |} ].

(** The arguments of [compute_cache_key], with what reading the files gives. *)
Record KeyInputs := {
  self_exe : result (list Z) (list Z);
  compose_dir : option Tree;
  compose_dir_display : list Z;
  stack_name : list Z;
  mem_mib : Z; working_set_mib : Z; squash_threshold_mib : Z;
  kernel : result (list Z) (list Z);
  builders : list (list Z);
  agent_pin : list Z;
}.

(** What the manifest of a key says, line by line. *)
Record KeyFields := {
  k_self : list Z; k_builders : list Z; k_engine : list Z; k_kernel : list Z; k_agent : list Z;
  k_overlay : list Z; k_stackdir : list Z; k_name : list Z; k_mem : Z; k_ws : Z; k_squash : Z;
}.

Section key.
Context {H : Type} `{Sha256 H}.

(** [o_path \0 {:o} \0 sha \n] per file. *)
Definition overlay_line (em : Embedded) (f : OverlayFile) : list Z :=
  o_path f ++ 0 :: octal (o_mode f) ++ 0 :: sha256_hex (overlay_bytes em (o_path f)) ++ [LF].

Definition overlay_id (em : Embedded) : list Z := sha256_hex (concat (overlay_line em <$> OVERLAY_FILES)).

Definition key_manifest (k : KeyFields) : list Z :=
  lit "tdvmm-bake-cache v" ++ dec CACHE_VERSION ++ LF ::
  lit "self:      " ++ k_self k ++ LF ::
  lit "builders:  " ++ k_builders k ++ LF ::
  lit "engine:    " ++ k_engine k ++ LF ::
  lit "kernel:    " ++ k_kernel k ++ LF ::
  lit "agent:     " ++ k_agent k ++ LF ::
  lit "overlay:   " ++ k_overlay k ++ LF ::
  lit "stackdir:  " ++ k_stackdir k ++ LF ::
  lit "name:      " ++ k_name k ++ LF ::
  lit "mem:       " ++ dec (k_mem k) ++ LF ::
  lit "ws:        " ++ dec (k_ws k) ++ LF ::
  lit "squash:    " ++ dec (k_squash k) ++ [LF].

Definition LEDGERS : list (list Z) := [lit "compose.lock.yml"; lit "stack.lock"].

(** The lines of the manifest for the inputs; [None] only without fuel for the
    walk, which does not happen. *)
Definition key_fields (em : Embedded) (i : KeyInputs) : option (result (list Z) KeyFields) :=
  match self_exe i with
  | Err x => Some (Err (lit "hashing tdvmm binary: " ++ x))
  | Ok self =>
      match kernel i with
      | Err x => Some (Err (lit "hashing kernel: " ++ x))
      | Ok kern =>
          t ← tree_hash (compose_dir_display i) (compose_dir i) LEDGERS;
          Some match t with
               | Err x => Err (lit "hashing stack dir: " ++ x)
               | Ok stack_tree =>
                   Ok {| k_self := sha256_hex self; k_builders := join_with [44] (builders i);
                         k_engine := sha256_hex (COMPOSE_ENGINE_LOCK em); k_kernel := sha256_hex kern;
                         k_agent := agent_pin i; k_overlay := overlay_id em; k_stackdir := stack_tree;
                         k_name := stack_name i; k_mem := mem_mib i; k_ws := working_set_mib i;
                         k_squash := squash_threshold_mib i |}
               end
      end
  end.

Record CacheCtx := { c_dir : path; c_key : list Z }.

Definition compute_cache_key (em : Embedded) (cache_dir : path) (i : KeyInputs) : option (result (list Z) CacheCtx) :=
  fs ← key_fields em i;
  Some (k ← fs;
        let key := sha256_hex (key_manifest k) in
        Ok {| c_dir := cache_dir ++ [lit "bake"; key]; c_key := key |}).

(** [compute_base_key]: the shared base segment's. *)
Definition BUILD_EPOCH : list Z := lit "1785542400".
Definition ALPINE_VER : list Z := lit "3.22.5".
Definition MINIROOTFS_SHA256 : list Z := lit "4b4daa9fe2fc696c4919c4412a4c3d3e770d8fb70292a004a2c72f5096175282".
Definition PKGS : list (list Z) :=
  [ lit "podman=5.6.2-r3"; lit "crun=1.23.1-r0"; lit "conmon=2.1.13-r0"; lit "netavark=1.16.1-r0";
    lit "aardvark-dns=1.16.0-r0"; lit "nftables=1.1.3-r0"; lit "iptables=1.8.11-r1"; lit "iproute2=6.15.0-r0";
    lit "ca-certificates=20260611-r0"; lit "fuse-overlayfs=1.15-r0" ].

Definition base_manifest (em : Embedded) (agent_sha compose_version compose_sha256 selftest_pin rootfs_builder : list Z) : list Z :=
  lit "tdvmm-base-runtime v" ++ dec CACHE_VERSION ++ LF ::
  lit "alpine:     " ++ ALPINE_VER ++ LF ::
  lit "minirootfs: " ++ MINIROOTFS_SHA256 ++ LF ::
  lit "epoch:      " ++ BUILD_EPOCH ++ LF ::
  lit "pkgs:       " ++ join_with [44] PKGS ++ LF ::
  lit "overlay:    " ++ overlay_id em ++ LF ::
  lit "agent:      " ++ agent_sha ++ LF ::
  lit "compose:    " ++ compose_version ++ 32 :: compose_sha256 ++ LF ::
  lit "builder:    " ++ rootfs_builder ++ LF ::
  lit "selftest:   " ++ selftest_pin ++ [LF].

Definition compute_base_key (em : Embedded) (agent_sha compose_version compose_sha256 selftest_pin rootfs_builder : list Z) : list Z :=
  sha256_hex (base_manifest em agent_sha compose_version compose_sha256 selftest_pin rootfs_builder).
End key.

(** ** What a key depends on *)

Lemma lit_no_lf s : forallb (fun b => negb (b =? LF)) (lit s) = true -> LF ∉ lit s.
Proof. rewrite forallb_forall. intros Hs Hin. apply list_elem_of_In, Hs in Hin. done. Qed.

Lemma radix_no_lf letter base n : (letter = 97 \/ letter = 65) -> 1 < base <= 36 -> LF ∉ radix letter base n.
Proof.
  intros Hl Hb Hin. pose proof (radix_range letter base n Hl Hb) as Hr. rewrite Forall_forall in Hr.
  apply Hr in Hin. unfold LF in Hin. lia.
Qed.

Lemma dec_no_lf n : LF ∉ dec n.
Proof. apply radix_no_lf; [by left|lia]. Qed.

Lemma dec_inj a b : fits 64 a -> fits 64 b -> dec a = dec b -> a = b.
Proof.
  intros Ha Hb E. pose proof (radix_roundtrip 64 97 10 a 0 ltac:(by left) ltac:(lia) ltac:(lia) Ha) as Ra.
  pose proof (radix_roundtrip 64 97 10 b 0 ltac:(by left) ltac:(lia) ltac:(lia) Hb) as Rb.
  unfold dec in E. rewrite E, Rb in Ra. congruence.
Qed.

Lemma sha256_hex_no_lf {H} `{Sha256 H} bs : LF ∉ sha256_hex bs.
Proof.
  unfold sha256_hex, hex. rewrite list_elem_of_In, in_concat. intros (x & Hx & Hin).
  apply list_elem_of_In, list_elem_of_fmap in Hx as (b & -> & _). apply list_elem_of_In in Hin.
  unfold zero_pad in Hin. apply elem_of_app in Hin as [Hin|Hin].
  - apply elem_of_replicate in Hin as [Hin _]. done.
  - revert Hin. apply radix_no_lf; [by left|lia].
Qed.

Lemma sha256_hex_graphic {H} `{Sha256 H} bs : Forall graphic (sha256_hex bs).
Proof.
  unfold sha256_hex, hex, graphic. apply Forall_concat, Forall_fmap, Forall_forall. intros b _. cbn. unfold zero_pad.
  apply Forall_app. split; [apply Forall_replicate; lia|].
  eapply Forall_impl; [apply radix_range; [by left|lia]|]. cbn. intros. lia.
Qed.

(** The fields a line can hold; only the name may run over lines. *)
Record fields_ok (k : KeyFields) : Prop := {
  fo_lines : Forall (fun l => LF ∉ l) [k_self k; k_builders k; k_engine k; k_kernel k; k_agent k; k_overlay k; k_stackdir k];
  fo_mem : fits 64 (k_mem k);
  fo_ws : fits 64 (k_ws k);
  fo_squash : fits 64 (k_squash k);
}.

(** One line off two texts that begin, or end, alike. *)
Lemma line_inj (label a b r r' : list Z) : LF ∉ a -> LF ∉ b ->
  label ++ a ++ LF :: r = label ++ b ++ LF :: r' -> a = b /\ r = r'.
Proof. intros Ha Hb E%app_inv_head. by apply app_mark_inj in E. Qed.

Lemma line_inj_r (label r r' : list Z) m m' : LF ∉ label -> fits 64 m -> fits 64 m' ->
  r ++ LF :: label ++ dec m = r' ++ LF :: label ++ dec m' -> r = r' /\ m = m'.
Proof.
  intros Hl Hm Hm' E. apply app_mark_inj_r in E as [-> E].
  - split; [done|]. apply app_inv_head in E. by apply dec_inj.
  - rewrite elem_of_app. intros [?|?%dec_no_lf]; done.
  - rewrite elem_of_app. intros [?|?%dec_no_lf]; done.
Qed.

Ltac line_off E := apply line_inj in E as [? E]; [|assumption..].

Lemma key_manifest_inj k k' : fields_ok k -> fields_ok k' -> key_manifest k = key_manifest k' -> k = k'.
Proof.
  intros [Hl Hm Hw Hs] [Hl' Hm' Hw' Hs'] E. rewrite !Forall_cons in Hl, Hl'. destruct_and!. unfold key_manifest in E.
  apply line_inj in E as [_ E]; [|apply dec_no_lf..].
  do 7 line_off E. apply app_inv_head in E.
  assert (Er : forall k, k_name k ++ LF :: lit "mem:       " ++ dec (k_mem k) ++ LF :: lit "ws:        " ++ dec (k_ws k) ++
      LF :: lit "squash:    " ++ dec (k_squash k) ++ [LF] =
    (((k_name k ++ LF :: lit "mem:       " ++ dec (k_mem k)) ++ LF :: lit "ws:        " ++ dec (k_ws k)) ++
      LF :: lit "squash:    " ++ dec (k_squash k)) ++ LF :: []).
  { intros k0. generalize (lit "mem:       ") (lit "ws:        ") (lit "squash:    ") (dec (k_mem k0)) (dec (k_ws k0)) (dec (k_squash k0)).
    intros. repeat (rewrite <- app_assoc; cbn [app]). done. }
  rewrite !Er in E. clear Er. apply app_inv_tail in E.
  apply line_inj_r in E as [E ?]; [|by apply lit_no_lf|done..].
  apply line_inj_r in E as [E ?]; [|by apply lit_no_lf|done..].
  apply line_inj_r in E as [E ?]; [|by apply lit_no_lf|done..].
  destruct k, k'. cbn [k_self k_builders k_engine k_kernel k_agent k_overlay k_stackdir k_name k_mem k_ws k_squash] in *. by subst.
Qed.

Section identity.
Context {H : Type} `{Sha256 H} `{!Sha256Digests H}.

Lemma sha_same a b : sha256_hex a = sha256_hex b -> a = b \/ collision.
Proof. intros E. destruct (decide (a = b)) as [|Hne]; [by left|]. right. by exists a, b. Qed.

(** One hash per file of a fixed list. *)
Lemma overlay_same em em' : overlay_id em = overlay_id em' ->
  Forall (fun f => overlay_bytes em (o_path f) = overlay_bytes em' (o_path f)) OVERLAY_FILES \/ collision.
Proof.
  intros E. apply sha_same in E as [E|?]; [|by right]. revert E. generalize OVERLAY_FILES as l. intros l.
  induction l as [|f l IH]; intros E; [left; constructor|]. rewrite !fmap_cons in E. cbn [concat] in E.
  apply app_inj_1 in E as [Ef E]; [|unfold overlay_line; rewrite !length_app; cbn [length]; rewrite !length_app; cbn [length];
    by rewrite !length_app, !sha256_hex_length].
  destruct (IH E) as [Hall|?]; [|by right].
  unfold overlay_line in Ef. apply app_inv_head in Ef. injection Ef as Ef. apply app_inv_head in Ef. injection Ef as Ef.
  apply app_inv_tail, sha_same in Ef as [Ef|?]; [|by right]. left. by constructor.
Qed.

(** What the arguments are when the command line and the ledgers gave them. *)
Record inputs_ok (i : KeyInputs) (t : Tree) : Prop := {
  io_dir : compose_dir i = Some t;
  io_is_dir : is_directory t = true;
  io_names : names_ok t;
  io_builders : Forall (fun b => b <> [] /\ 44 ∉ b /\ LF ∉ b) (builders i);
  io_agent : LF ∉ agent_pin i;
  io_sizes : fits 64 (mem_mib i) /\ fits 64 (working_set_mib i) /\ fits 64 (squash_threshold_mib i);
}.

(** The same regular files, ledgers aside: paths and contents.  Modes and
    links are not files. *)
Definition same_files (t t' : Tree) : Prop := seen LEDGERS t ≡ₚ seen LEDGERS t'.

(** Two bakes alike, the stack directories as far as [R] says. *)
Record same_inputs (R : Tree -> Tree -> Prop) (em em' : Embedded) (i i' : KeyInputs) (t t' : Tree) : Prop := {
  si_self : self_exe i = self_exe i';
  si_builders : builders i = builders i';
  si_engine : COMPOSE_ENGINE_LOCK em = COMPOSE_ENGINE_LOCK em';
  si_kernel : kernel i = kernel i';
  si_agent : agent_pin i = agent_pin i';
  si_overlay : Forall (fun f => overlay_bytes em (o_path f) = overlay_bytes em' (o_path f)) OVERLAY_FILES;
  si_stack : R t t';
  si_name : stack_name i = stack_name i';
  si_sizes : (mem_mib i, working_set_mib i, squash_threshold_mib i) = (mem_mib i', working_set_mib i', squash_threshold_mib i');
}.

Lemma key_fields_spec em i t k : inputs_ok i t -> key_fields em i = Some (Ok k) ->
  fields_ok k /\ exists self kern h, self_exe i = Ok self /\ kernel i = Ok kern /\
    tree_hash (compose_dir_display i) (Some t) LEDGERS = Some (Ok h) /\
    k = {| k_self := sha256_hex self; k_builders := join_with [44] (builders i);
           k_engine := sha256_hex (COMPOSE_ENGINE_LOCK em); k_kernel := sha256_hex kern;
           k_agent := agent_pin i; k_overlay := overlay_id em; k_stackdir := h; k_name := stack_name i;
           k_mem := mem_mib i; k_ws := working_set_mib i; k_squash := squash_threshold_mib i |}.
Proof.
  intros [Hd Hdir Hn Hb Ha (Hm & Hw & Hs)]. unfold key_fields. rewrite Hd.
  destruct (self_exe i) as [self|]; [|done]. destruct (kernel i) as [kern|]; [|done].
  destruct (tree_hash _ _ _) as [[h|]|] eqn:Et; [|done|done]. intros [= <-]. split.
  - pose proof (tree_hash_seen _ _ _ _ Hdir Et) as (cs & _ & ->).
    split; [|done..]. repeat (constructor; [try apply sha256_hex_no_lf; try done|]); [|constructor].
    induction Hb as [|b l (_ & _ & Hb) _ IH]; [by intros ?%not_elem_of_nil|]. destruct l as [|b' l]; [done|].
    change (LF ∉ b ++ 44 :: join_with [44] (b' :: l)). rewrite not_elem_of_app, not_elem_of_cons. done.
  - by exists self, kern, h.
Qed.

Lemma cache_key_ctx em cd i c : compute_cache_key em cd i = Some (Ok c) ->
  exists k, key_fields em i = Some (Ok k) /\ c_key c = sha256_hex (key_manifest k) /\ c_dir c = cd ++ [lit "bake"; c_key c].
Proof.
  unfold compute_cache_key. destruct (key_fields em i) as [[k|e]|]; [|done..]. intros [= <-]. by exists k.
Qed.

Lemma overlay_id_same em em' :
  Forall (fun f => overlay_bytes em (o_path f) = overlay_bytes em' (o_path f)) OVERLAY_FILES -> overlay_id em = overlay_id em'.
Proof.
  intros Hall. unfold overlay_id. do 2 f_equal. apply list_fmap_ext. intros j f Hj.
  unfold overlay_line. rewrite Forall_forall in Hall. by rewrite (Hall f) by (by eapply list_elem_of_lookup_2).
Qed.

(** C21: Two bakes that get the same cache key have in common the binary, the
    builder pins, the compose engine's ledger, the kernel, the agent, every
    overlay file, the name, the three sizes, and the paths and contents of the
    regular files of the stack directory other than the lock ledgers, or there
    are two texts with the same SHA-256; and the order in which the host lists
    directories does not reach the key.  Modes and links of the stack directory
    are not among what is in common. *)
Theorem cache_key_identifies em em' cd i i' t t' c c' :
  inputs_ok i t -> inputs_ok i' t' ->
  compute_cache_key em cd i = Some (Ok c) -> compute_cache_key em' cd i' = Some (Ok c') ->
  (c_key c = c_key c' -> same_inputs same_files em em' i i' t t' \/ collision) /\
  (same_inputs relisted em em' i i' t t' -> c = c').
Proof.
  intros Hi Hi' (k & Hk & Hc & Hd)%cache_key_ctx (k' & Hk' & Hc' & Hd')%cache_key_ctx.
  destruct (key_fields_spec _ _ _ _ Hi Hk) as (Hok & self & kern & h & Es & Ek & Et & ->).
  destruct (key_fields_spec _ _ _ _ Hi' Hk') as (Hok' & self' & kern' & h' & Es' & Ek' & Et' & ->).
  pose proof (tree_hash_identifies _ _ _ _ _ _ _ (io_is_dir _ _ Hi) (io_is_dir _ _ Hi') (io_names _ _ Hi) (io_names _ _ Hi') Et Et')
    as [Hsame Hdiff]. split.
  - rewrite Hc, Hc'. intros E. apply sha_same in E as [E|?]; [|by right].
    apply key_manifest_inj in E; [|done..]. injection E as E1 E2 E3 E4 E5 E6 E7 E8 E9 E10 E11.
    apply sha_same in E1 as [E1|?]; [|by right]. apply sha_same in E3 as [E3|?]; [|by right].
    apply sha_same in E4 as [E4|?]; [|by right]. destruct (overlay_same _ _ E6) as [Ho|?]; [|by right].
    destruct (Hdiff E7) as [Hst|?]; [|by right]. left. split; try congruence; try done.
    apply (join_with_inj 44); [..|done]; eapply Forall_impl; try apply (io_builders _ _ Hi); try apply (io_builders _ _ Hi');
      by intros b (? & ? & ?).
  - intros [Hself Hb He Hkern Ha Ho Hst Hname [= Hm Hw Hs]].
    assert (E : c_key c = c_key c').
    { rewrite Hc, Hc'. do 2 f_equal. rewrite (Hsame (relisted_seen _ _ _ Hst)), (overlay_id_same _ _ Ho), Hb, He, Ha, Hname, Hm, Hw, Hs. congruence. }
    destruct c, c'. cbn in *. congruence.
Qed.
End identity.

(** ** Entries *)

(** [Path::parent]. *)
Definition parent (p : path) : option path := match p with [] => None | _ => Some (removelast p) end.

(** [format!("{}.sha256", p.display())]. *)
Definition sidecar (p : path) : path :=
  (from_utf8_lossy <$> removelast p) ++ [from_utf8_lossy (default [] (last p)) ++ lit ".sha256"].

Definition ARTIFACT : list Z := lit "artifact.tdvmm".
Definition INITRAMFS : list Z := lit "initramfs.cpio.gz".
Definition INITRAMFS_SHA : list Z := lit "initramfs.cpio.gz.sha256".
Definition COMPOSE_LOCK : list Z := lit "compose.lock.yml".
Definition STACK_LOCK : list Z := lit "stack.lock".
Definition TDVMM_SHA : list Z := lit "tdvmm_sha256".

Definition CACHE_FILES : list (list Z) := [ARTIFACT; INITRAMFS; INITRAMFS_SHA; COMPOSE_LOCK; STACK_LOCK].

(** [.iter().all(...)] stops at the first that is not there. *)
Fixpoint all_files (dir : path) (l : list (list Z)) : IO bool :=
  match l with
  | [] => mret true
  | f :: l => b ← is_file (dir ++ [f]); if (b : bool) then all_files dir l else mret false
  end.

Definition cache_is_hit (c : CacheCtx) : IO bool :=
  d ← is_dir (c_dir c);
  if (d : bool) then
    s ← is_file (c_dir c ++ [TDVMM_SHA]);
    if (s : bool) then all_files (c_dir c) CACHE_FILES else mret false
  else mret false.

Fixpoint make_parents (l : list path) : IO unit :=
  match l with
  | [] => mret tt
  | p :: l => (match parent p with Some d => create_dir_all d | None => mret tt end) ;; make_parents l
  end.

(** Where a bake leaves its outputs. *)
Record Outputs := { out_tdvmm : path; out_initramfs : path; lock_out : path; stack_lock : path }.

Definition cache_restore (c : CacheCtx) (o : Outputs) : IO (list Z) :=
  make_parents [out_tdvmm o; out_initramfs o; lock_out o; stack_lock o] ;;
  copy (c_dir c ++ [ARTIFACT]) (out_tdvmm o) ;;
  copy (c_dir c ++ [INITRAMFS]) (out_initramfs o) ;;
  copy (c_dir c ++ [INITRAMFS_SHA]) (sidecar (out_initramfs o)) ;;
  copy (c_dir c ++ [COMPOSE_LOCK]) (lock_out o) ;;
  copy (c_dir c ++ [STACK_LOCK]) (stack_lock o) ;;
  s ← read (c_dir c ++ [TDVMM_SHA]);
  if from_utf8_ok s then mret (trim s) else fail InvalidData.

(** What [cmd_build] does with the cache before it bakes: [Some] is the hash of
    an artifact restored, and the end of the build. *)
Definition reuse (no_cache : bool) (c : CacheCtx) (o : Outputs) : IO (option (list Z)) :=
  if no_cache then mret None else
  h ← cache_is_hit c;
  if (h : bool) then
    r ← attempt (cache_restore c o);
    mret (match r with Ok sha => Some sha | Err _ => None end)
  else mret None.

(** A builder's scratch name for an entry: [.tmp-<pid>-<nanos>]. *)
Definition tmp_name (pid nanos : Z) : list Z := lit ".tmp-" ++ dec pid ++ 45 :: dec nanos.

Definition entry_root (dir : path) : path := default [lit "."] (parent dir).

(** The rename that publishes an entry; one who comes second drops his own. *)
Definition publish (tmp dir : path) : IO bool :=
  r ← attempt (rename tmp dir);
  match r with
  | Ok _ => mret true
  | Err _ => ignore (remove_dir_all tmp) ;; mret false
  end.

Definition cache_store (pid nanos : Z) (c : CacheCtx) (o : Outputs) (tdvmm_sha : list Z) : IO bool :=
  e ← path_exists (c_dir c);
  if (e : bool) then mret false else
  let root := entry_root (c_dir c) in
  create_dir_all root ;;
  let tmp := root ++ [tmp_name pid nanos] in
  create_dir_all tmp ;;
  copy (out_tdvmm o) (tmp ++ [ARTIFACT]) ;;
  copy (out_initramfs o) (tmp ++ [INITRAMFS]) ;;
  s ← path_exists (sidecar (out_initramfs o));
  (if (s : bool) then copy (sidecar (out_initramfs o)) (tmp ++ [INITRAMFS_SHA])
   else write (tmp ++ [INITRAMFS_SHA]) []) ;;
  copy (lock_out o) (tmp ++ [COMPOSE_LOCK]) ;;
  copy (stack_lock o) (tmp ++ [STACK_LOCK]) ;;
  write (tmp ++ [TDVMM_SHA]) (tdvmm_sha ++ [LF]) ;;
  publish tmp (c_dir c).

Definition BASE_SEGMENT : list Z := lit "base.cpio".
Definition PACKAGES_LOCK : list Z := lit "packages.lock".

Definition base_cache_store (pid nanos : Z) (entry base_seg packages_lock : path) : IO unit :=
  e ← path_exists entry;
  if (e : bool) then mret tt else
  let root := entry_root entry in
  create_dir_all root ;;
  let tmp := root ++ [tmp_name pid nanos] in
  create_dir_all tmp ;;
  copy base_seg (tmp ++ [BASE_SEGMENT]) ;;
  f ← is_file packages_lock;
  (if (f : bool) then copy packages_lock (tmp ++ [PACKAGES_LOCK]) else mret tt) ;;
  ignore (publish tmp entry).

(** ** Builders side by side

    [good] is what an entry may hold.  A builder that stores acts on its scratch
    directory and on the entry, which it only ever publishes.  Of everything
    else that runs, other builders of this key or of others, restores and bakes
    that rewrite outputs, only this is asked: an entry once published stays, a
    scratch directory is its builder's own, and the files a builder is storing
    hold no content that it could not store ([may]). *)
Section builders.
Variables (root : path) (key : list Z) (good : Node -> Prop).
Hypothesis key_name : head key <> Some 46.

Definition entry : path := root ++ [key].
Definition scratch (t : list Z) : path := root ++ [t].

Definition entry_ok (n : Node) : Prop := forall x, find entry n = Some x -> good x.

(** The entry stays as it is, or appears. *)
Definition publishes (n n' : Node) : Prop :=
  find entry n' = find entry n \/ find entry n = None /\ exists x, find entry n' = Some x /\ good x.

(** A step of the builder with scratch name [t]. *)
Definition acts (t : list Z) (n n' : Node) : Prop :=
  publishes n n' /\ same_but (fun q => apart (scratch t) q /\ apart entry q) n n'.

(** The files stored hold only what they may hold. *)
Definition sources_ok (srcs : list path) (may : path -> list Z -> Prop) (n : Node) : Prop :=
  Forall (fun p => forall v, file_at p n = Some v -> may p v) srcs.

(** What everything else does between two calls of the builder [t] that stores
    [srcs]. *)
Definition others_act (srcs : list path) (may : path -> list Z -> Prop) (t : list Z) (n n' : Node) : Prop :=
  publishes n n' /\ (forall q, find (scratch t ++ q) n' = find (scratch t ++ q) n) /\
  (sources_ok srcs may n -> sources_ok srcs may n').

#[export] Instance acts_refl t : Reflexive (acts t).
Proof. intros n. split; [by left|done]. Qed.

(** A path no builder writes to. *)
Definition aside (p : path) : Prop := apart entry p /\ forall t, head t = Some 46 -> apart (scratch t) p.

Lemma aside_below p q : aside p -> aside (p ++ q).
Proof. intros [He Ht]. split; [|intros t Hh; specialize (Ht t Hh)]; by apply apart_sym, apart_below, apart_sym. Qed.

Lemma scratch_apart_entry t : head t = Some 46 -> apart (scratch t) entry.
Proof. intros Ht. unfold scratch, entry. apply apart_siblings. congruence. Qed.

Lemma scratches_apart t t' : t <> t' -> apart (scratch t) (scratch t').
Proof. intros Ht. by apply apart_siblings. Qed.

(** What is published stays. *)
Lemma publishes_entry n n' : publishes n n' ->
  (entry_ok n -> entry_ok n') /\ (forall x, find entry n = Some x -> find entry n' = Some x).
Proof.
  intros He. split.
  - intros Hok x Hx. destruct He as [He|(_ & y & Hy & Hg)]; [apply Hok; congruence|congruence].
  - intros x Hx. destruct He as [He|(He & _)]; congruence.
Qed.

(** A step of one builder is a step of the others to another. *)
Lemma acts_are_others srcs may t t' n n' : t <> t' -> head t = Some 46 -> head t' = Some 46 -> Forall aside srcs ->
  acts t n n' -> others_act srcs may t' n n'.
Proof.
  intros Hne Ht Ht' Hs [Hp Hq]. split; [done|]. split.
  - intros q. apply Hq. split; apply apart_sym, apart_below; [apply scratches_apart; congruence|by apply scratch_apart_entry].
  - unfold sources_ok. rewrite !Forall_forall. rewrite Forall_forall in Hs. intros Hok p Hin v. destruct (Hs p Hin) as [He Hsc].
    unfold file_at. rewrite Hq by (split; [by apply Hsc|done]). by apply Hok.
Qed.

(** What the builder with scratch name [t] knows: what the files it copies may
    hold, and what it has put in its scratch directory. *)
Variable t : list Z.
Hypothesis t_name : head t = Some 46.
Variable srcs : list path.
Variable may : path -> list Z -> Prop.
Hypothesis srcs_aside : Forall aside srcs.

Definition knows (ks : list (list Z * list Z)) (n : Node) : Prop :=
  entry_ok n /\ sources_ok srcs may n /\ Forall (fun k => file_at (scratch t ++ [k.1]) n = Some k.2) ks.

Abbreviation does := (triple (others_act srcs may t) (acts t)).

Lemma knows_stable ks : stable (others_act srcs may t) (knows ks).
Proof.
  intros n n' (Hp & Hq & Hs') (He & Hs & Hk). split_and!; [by apply (publishes_entry _ _ Hp)|by apply Hs'|].
  eapply Forall_impl; [exact Hk|]. intros k Hkn. unfold file_at in *. by rewrite Hq.
Qed.

Lemma sources_same n n' : (forall p, aside p -> find p n' = find p n) -> sources_ok srcs may n -> sources_ok srcs may n'.
Proof.
  intros Hf. unfold sources_ok. rewrite !Forall_forall. rewrite Forall_forall in srcs_aside. intros Hs p Hin v.
  unfold file_at. rewrite Hf by auto. by apply Hs.
Qed.

(** A change within the scratch directory, or above it. *)
Lemma knows_within (K : path -> Prop) ks n n' : same_but K n n' -> (forall q, apart (scratch t) q -> K q) ->
  Forall (fun k => K (scratch t ++ [k.1])) ks -> knows ks n -> knows ks n' /\ acts t n n'.
Proof.
  intros Hsame HK Hks (He & Hs & Hk).
  assert (Hent : find entry n' = find entry n) by (apply Hsame, HK; by apply scratch_apart_entry).
  split; [split_and!|split; [by left|]].
  - intros x. rewrite Hent. apply He.
  - eapply sources_same; [|exact Hs]. intros p [_ Hp]. apply Hsame, HK. by apply Hp.
  - rewrite !Forall_forall in *. intros k Hin. unfold file_at. rewrite Hsame by auto. by apply Hk.
  - intros q [Hq _]. by apply Hsame, HK.
Qed.

Lemma knows_less ks n : knows ks n -> knows [] n.
Proof. intros (? & ? & ?). split_and!; [done..|constructor]. Qed.

Lemma does_mkdirs p ks : p = root \/ p = scratch t -> does (knows ks) (create_dir_all p) (fun _ => knows ks) (knows []).
Proof.
  intros Hp. assert (Hpre : p `prefix_of` scratch t) by (destruct Hp as [-> | ->]; [by apply prefix_app_r|done]).
  eapply triple_weaken; [apply (triple_mkdirs _ _ (knows ks))|done|done|apply knows_less]; [apply knows_stable|].
  intros n n' Hsame. eapply knows_within; [exact Hsame|..].
  - intros q [_ Hq] Hqp. apply Hq. by etrans.
  - apply Forall_forall. intros k _ Hk. assert (Hl : scratch t ++ [k.1] `prefix_of` scratch t) by (by etrans).
    apply prefix_length in Hl. rewrite length_app in Hl. cbn in Hl. lia.
Qed.

Lemma does_write f bytes ks : f ∉ ks.*1 ->
  does (knows ks) (write (scratch t ++ [f]) bytes) (fun _ => knows ((f, bytes) :: ks)) (knows []).
Proof.
  intros Hf. eapply triple_weaken; [apply (triple_write _ _ (knows ks))|done| |apply knows_less].
  - apply knows_stable.
  - intros n n' Hsame. eapply knows_within; [exact Hsame|..].
    + intros q Hq. by apply apart_below.
    + apply Forall_forall. intros k Hin. apply (apart_siblings _ _ _ [] []). intros ->. apply Hf. by apply list_elem_of_fmap_2.
  - cbn. intros _ n [(He & Hs & Hk) Hw]. split_and!; [done..|]. by constructor.
Qed.

Lemma does_copy src f ks : src ∈ srcs -> f ∉ ks.*1 ->
  does (knows ks) (copy src (scratch t ++ [f])) (fun _ n => exists b, may src b /\ knows ((f, b) :: ks) n) (knows []).
Proof.
  intros Hin Hf. unfold copy. eapply triple_bind; [|intros b; cbn beta].
  - eapply triple_weaken; [apply (triple_read _ _ (knows ks)), knows_stable|done|intros b n Hr; exact Hr|apply knows_less].
  - eapply triple_weaken; [apply (triple_fact _ _ (may src b) (knows ks))| |intros a n Hq; exact Hq|done].
    + intros Hc. eapply triple_weaken; [by apply (does_write f b)|done| |done]. intros [] n Hk. by exists b.
    + intros n [Hk Hr]. split; [|done]. destruct Hk as (_ & Hs & _). unfold sources_ok in Hs. rewrite Forall_forall in Hs.
      by apply (Hs _ Hin).
Qed.

Hypothesis good_holds : forall x, good x -> exists f bytes, file_at [f] x = Some bytes.

(** The rename goes through only where there is no entry, and then the entry
    is what was in the scratch directory. *)
Lemma does_rename ks (ours : Node -> Prop) :
  (forall x, Forall (fun k => file_at [k.1] x = Some k.2) ks -> ours x) -> (forall x, ours x -> good x) ->
  does (knows ks) (rename (scratch t) entry)
    (fun _ n => knows [] n /\ exists x, find entry n = Some x /\ ours x) (knows []).
Proof.
  intros Hours Hgood. apply triple_call; [apply acts_refl|apply knows_stable| |apply knows_less|].
  - intros n [] n' Hkn. destruct (rename_node (scratch t) entry n) as [n1|] eqn:Er; [|done]. intros [= <-].
    destruct Hkn as (He & Hs & Hk).
    destruct (find_rename _ _ _ _ (scratch_apart_entry _ t_name) Er) as [Hmove Hrest].
    specialize (Hmove []) as Hroot. rewrite !app_nil_r in Hroot.
    destruct (find (scratch t) n) as [x|] eqn:Ex; [|unfold rename_node in Er; by rewrite Ex in Er].
    assert (Hx : ours x).
    { apply Hours. eapply Forall_impl; [exact Hk|]. cbn. intros k. by rewrite file_at_below, Ex. }
    assert (Hnone : find entry n = None).
    { destruct (find entry n) as [y|] eqn:Ey; [|done]. destruct (good_holds _ (He y Ey)) as (f & b & Hf).
      destruct (rename_in_the_way (scratch t) entry n f b) as [e Hw]; [by rewrite file_at_below, Ey|]. congruence. }
    split; [split; [split_and!|]|split].
    + intros y Hy. rewrite Hroot in Hy. injection Hy as <-. by apply Hgood.
    + eapply sources_same; [|exact Hs]. intros p [Hpe Hps]. apply Hrest; [by apply Hps|done].
    + constructor.
    + by exists x.
    + right. split; [done|]. exists x. auto.
    + intros q [Hq Hqe]. by apply Hrest.
  - intros n k Hk. split; [by eapply knows_less|apply acts_refl].
Qed.

Lemma does_publish ks (ours : Node -> Prop) :
  (forall x, Forall (fun k => file_at [k.1] x = Some k.2) ks -> ours x) -> (forall x, ours x -> good x) ->
  does (knows ks) (publish (scratch t) entry)
    (fun b n => entry_ok n /\ (b = true -> exists x, find entry n = Some x /\ ours x)) (knows []).
Proof.
  intros Hours Hgood. unfold publish. eapply triple_bind; [apply triple_attempt; by apply does_rename|].
  intros [[]|e]; cbn beta iota.
  - apply triple_ret. intros n [(? & _) ?]. done.
  - eapply (triple_bind _ _ _ _ (fun _ => knows [])).
    + eapply triple_weaken; [apply (triple_ignore _ _ _ _ (knows []) (knows []))|done..].
      apply (triple_remove_dir _ _ (knows [])); [apply knows_stable|]. intros n n' Hsame.
      eapply knows_within; [exact Hsame|done|constructor].
    + intros _. apply triple_ret. intros n (? & _). done.
Qed.
End builders.

(** ** What the bake cache promises *)

(** What a bake leaves behind: the contents of the files of an entry. *)
Record Baked := { b_tdvmm : list Z; b_initramfs : list Z; b_sidecar : list Z; b_lock : list Z; b_ledger : list Z; b_sha : list Z }.

Definition holds (b : Baked) (x : Node) : Prop :=
  Forall (fun f => file_at [f.1] x = Some f.2)
    [(TDVMM_SHA, b_sha b); (STACK_LOCK, b_ledger b); (COMPOSE_LOCK, b_lock b); (INITRAMFS_SHA, b_sidecar b);
     (INITRAMFS, b_initramfs b); (ARTIFACT, b_tdvmm b)].

(** The files for an entry, each something its output may hold; a sidecar that
    could not be seen is stored empty. *)
Definition stored (o : Outputs) (may : path -> list Z -> Prop) (tdvmm_sha : list Z) (b : Baked) : Prop :=
  may (out_tdvmm o) (b_tdvmm b) /\ may (out_initramfs o) (b_initramfs b) /\
  (may (sidecar (out_initramfs o)) (b_sidecar b) \/ b_sidecar b = []) /\
  may (lock_out o) (b_lock b) /\ may (stack_lock o) (b_ledger b) /\ b_sha b = tdvmm_sha ++ [LF].

(** An entry of the cache is what some bake of its key made. *)
Definition bake_of (made : Baked -> Prop) (x : Node) : Prop := exists b, made b /\ holds b x.

Lemma bake_holds made x : bake_of made x -> exists f bytes, file_at [f] x = Some bytes.
Proof. intros (b & _ & Hb). apply Forall_cons in Hb as [Hb _]. by eexists _, _. Qed.

Definition outputs_list (o : Outputs) : list path :=
  [out_tdvmm o; out_initramfs o; sidecar (out_initramfs o); lock_out o; stack_lock o].

(** No two in each other's subtrees. *)
Fixpoint all_apart (l : list path) : Prop :=
  match l with [] => True | p :: l => Forall (apart p) l /\ all_apart l end.

Lemma entry_root_snoc root key : entry_root (root ++ [key]) = root.
Proof. unfold entry_root, parent. destruct (root ++ [key]) eqn:E; [by destruct root|]. cbn -[removelast]. by rewrite <- E, removelast_last. Qed.

(** Facts of the members of a short list, taken apart and put together. *)
Ltac each_of := repeat match goal with Hf : Forall _ (_ :: _) |- _ => apply Forall_cons in Hf as [? Hf] end.
Ltac for_each := repeat (apply Forall_cons_2; [cbn [fst]; auto using apart_sym|]); apply Forall_nil_2.

(** The next file of the scratch directory. *)
Ltac put_in Hin :=
  eapply triple_bind; [eapply does_copy; [eassumption..|apply Hin; set_solver|set_solver]|];
  intros []; apply triple_exists; intros ?; apply triple_fact; intros ?.

Section bake_cache.
Variables (root : path) (key : list Z) (made : Baked -> Prop).
Hypothesis key_name : head key <> Some 46.

Abbreviation ctx := {| c_dir := root ++ [key]; c_key := key |}.

Lemma store_does pid nanos o sha may :
  let t := tmp_name pid nanos in
  let knows := knows root key (bake_of made) t (outputs_list o) may in
  Forall (aside root key) (outputs_list o) -> (forall b, stored o may sha b -> made b) ->
  triple (others_act root key (bake_of made) (outputs_list o) may t) (acts root key (bake_of made) t) (knows []) (cache_store pid nanos ctx o sha)
    (fun r n => entry_ok root key (bake_of made) n /\
      (r = true -> exists x, find (root ++ [key]) n = Some x /\ exists b, stored o may sha b /\ holds b x))
    (knows []).
Proof.
  intros t knows Ho Hmade. assert (Ht : head t = Some 46) by done.
  assert (Hin : forall p, p ∈ outputs_list o -> p ∈ outputs_list o) by done.
  assert (Hst : forall ks, stable (others_act root key (bake_of made) (outputs_list o) may t) (knows ks)) by (intros; by apply knows_stable).
  unfold cache_store. cbn [c_dir]. rewrite entry_root_snoc. fold t. change (root ++ [t]) with (scratch root t).
  eapply triple_bind; [apply triple_probe; [apply acts_refl|apply Hst]|].
  intros [|]; cbn beta iota; [apply triple_ret; intros n [(? & _) _]; by split|].
  eapply triple_weaken; [|intros n [Hn _]; exact Hn|intros ? ? Hq; exact Hq|done].
  eapply triple_bind; [apply does_mkdirs; eauto|]. intros [].
  eapply triple_bind; [apply does_mkdirs; eauto|]. intros [].
  put_in Hin. put_in Hin.
  eapply triple_bind; [apply triple_probe; [apply acts_refl|apply Hst]|]. intros side. cbn beta.
  eapply (triple_bind _ _ _ _ (fun _ n => exists s, (may (sidecar (out_initramfs o)) s \/ s = []) /\
    knows [(INITRAMFS_SHA, s); (INITRAMFS, b0); (ARTIFACT, b)] n)).
  { destruct side.
    - eapply triple_weaken; [apply (does_copy _ _ _ key_name _ Ht _ may Ho (sidecar (out_initramfs o)) INITRAMFS_SHA [(INITRAMFS, b0); (ARTIFACT, b)]); [apply Hin; set_solver|set_solver]|by intros n []| |done].
      intros [] n (s & Hs & Hn). exists s. auto.
    - eapply triple_weaken; [apply (does_write _ _ _ key_name _ Ht _ may Ho INITRAMFS_SHA [] [(INITRAMFS, b0); (ARTIFACT, b)]); set_solver|by intros n []| |done].
      intros [] n Hn. exists []. auto. }
  intros []. apply triple_exists. intros s. apply triple_fact. intros Hs.
  put_in Hin. put_in Hin.
  eapply triple_bind; [eapply does_write; [eassumption..|set_solver]|]. intros [].
  eapply triple_weaken; [apply (does_publish _ _ _ key_name _ Ht _ may Ho (bake_holds made)) with
    (ours := fun x => exists b, stored o may sha b /\ holds b x)|done..].
  - intros x Hx. exists {| b_tdvmm := b; b_initramfs := b0; b_sidecar := s; b_lock := b1; b_ledger := b2; b_sha := sha ++ [LF] |}.
    by split_and!.
  - intros x (b' & Hout & Hb'). exists b'. auto.
Qed.


Abbreviation anything := (fun _ _ : Node => True).

#[local] Instance anything_refl : Reflexive anything.
Proof. done. Qed.

(** A restore, of an entry that stays: everything else may do what it likes
    but change a published entry or one of the files [mine]. *)
Definition spares (mine : list path) (n n' : Node) : Prop :=
  publishes root key (bake_of made) n n' /\ Forall (fun p => find p n' = find p n) mine.

Section restore.
Variables (mine : list path) (b : Baked) (x : Node).
Hypothesis x_holds : holds b x.

Definition restored (ks : list (path * list Z)) (n : Node) : Prop :=
  find (root ++ [key]) n = Some x /\ Forall (fun k => file_at k.1 n = Some k.2) ks.

Abbreviation all_act := (spares mine).

Lemma restored_stable ks : Forall (fun k => k.1 ∈ mine) ks -> stable all_act (restored ks).
Proof.
  intros Hks n n' [Hp Hm] [Hx Hr]. split; [by apply (publishes_entry _ _ _ _ _ Hp)|].
  rewrite !Forall_forall in *. intros k Hin. unfold file_at. rewrite Hm by auto. by apply Hr.
Qed.

(** A change at, above or below a path that is apart from the entry and from
    what is restored. *)
Lemma restored_same (K : path -> Prop) ks n n' : same_but K n n' -> K (root ++ [key]) -> Forall (fun k => K k.1) ks ->
  restored ks n -> restored ks n'.
Proof.
  intros Hs He Hk [Hx Hr]. split; [by rewrite Hs|]. rewrite !Forall_forall in *. intros k Hin. unfold file_at.
  rewrite Hs by auto. by apply Hr.
Qed.

Lemma restore_parents l : Forall (aside root key) l ->
  triple all_act anything (restored []) (make_parents l) (fun _ => restored []) (restored []).
Proof.
  induction 1 as [|p l Hp Hl IH]; cbn [make_parents]; [by apply triple_ret|].
  eapply (triple_bind _ _ _ _ (fun _ => restored [])); [|intros []; exact IH]. unfold parent. destruct p as [|c p]; [by apply triple_ret|].
  apply triple_mkdirs; [apply _|by apply restored_stable|]. intros n n' Hs Hn. split; [|done].
  eapply restored_same; [exact Hs| |constructor|done]. intros Hpre. destruct Hp as [[Hp _] _]. apply Hp. etrans; [exact Hpre|].
  exists [default [] (last (c :: p))]. destruct (exists_last (l := c :: p) ltac:(done)) as (q & d & E).
  rewrite E, removelast_last, last_snoc. done.
Qed.

Lemma restore_copy f v dst ks :
  file_at [f] x = Some v -> Forall (fun k => k.1 ∈ mine) ks -> dst ∈ mine -> aside root key dst -> Forall (fun k => apart dst k.1) ks ->
  triple all_act anything (restored ks) (copy ((root ++ [key]) ++ [f]) dst) (fun _ => restored ((dst, v) :: ks)) (fun _ => True).
Proof.
  intros Hf Hks Hdm Hd Hap. eapply triple_weaken; [apply (triple_copy _ _ (restored ks))|done| |done].
  - by apply restored_stable.
  - intros n n' Hs Hn. split; [|done]. eapply restored_same; [exact Hs|destruct Hd as [Hd _]; by apply apart_sym|exact Hap|done].
  - intros [] n [[Hx Hr] (v' & Hw & n0 & [Hx0 _] & Hread)]. split; [done|]. constructor; [|done]. cbn.
    rewrite file_at_below in Hread. unfold entry in Hread. rewrite Hx0 in Hread. cbn in Hread. congruence.
Qed.

(** Membership in the outputs, which [Hm] lists. *)
Ltac is_mine Hm := rewrite Hm; repeat first [apply list_elem_of_here | apply list_elem_of_further].
Ltac all_mine Hm := repeat (apply Forall_cons_2; [cbn [fst]; is_mine Hm|]); apply Forall_nil_2.

Ltac take_out Hm := eapply triple_bind; [eapply restore_copy; [eassumption|all_mine Hm|is_mine Hm|assumption|for_each]|]; intros [].

Lemma restore_does o : mine = outputs_list o -> Forall (aside root key) (outputs_list o) -> all_apart (outputs_list o) ->
  triple all_act anything (restored []) (cache_restore ctx o)
    (fun s n => s = trim (b_sha b) /\
      restored [(stack_lock o, b_ledger b); (lock_out o, b_lock b); (sidecar (out_initramfs o), b_sidecar b);
                (out_initramfs o, b_initramfs b); (out_tdvmm o, b_tdvmm b)] n)
    (fun _ => True).
Proof.
  intros Hmine Ho Ha. unfold outputs_list in *. cbn [all_apart] in Ha. destruct_and!.
  pose proof x_holds as Hx. unfold holds in Hx. each_of. cbn [fst snd] in *.
  unfold cache_restore. cbn [c_dir].
  eapply triple_bind; [eapply triple_weaken; [apply (restore_parents [out_tdvmm o; out_initramfs o; lock_out o; stack_lock o]); for_each|intros n Hn; exact Hn|intros a n Hn; exact Hn|intros n _; exact I]|]. intros [].
  do 5 take_out Hmine.
  eapply triple_bind.
  { match goal with |- triple _ _ ?P _ _ _ => eapply (triple_weaken _ _ P P); [apply (triple_read _ _ P), restored_stable; all_mine Hmine|..] end.
    - by intros n Hn.
    - intros s n Hn. exact Hn.
    - by intros n Hn. }
  intros s. cbn beta. destruct (from_utf8_ok s); [|eapply triple_weaken; [apply triple_fail|intros n Hn; exact Hn|intros a n Hq; exact Hq|done]].
  apply triple_ret. intros n [Hn Hs]. split; [|done]. destruct Hn as [He _].
  rewrite file_at_below in Hs. rewrite He in Hs. change (file_at [TDVMM_SHA] x = Some s) in Hs. congruence.
Qed.
End restore.

(** A hit is seen only where there is an entry. *)
Lemma hit_finds_entry mine :
  triple (spares mine) (fun _ _ => True) (entry_ok root key (bake_of made)) (cache_is_hit ctx)
    (fun h n => entry_ok root key (bake_of made) n /\ (h = true -> exists x, find (root ++ [key]) n = Some x)) (fun _ => True).
Proof.
  assert (Hst : forall f, stable (spares mine)
    (fun n => entry_ok root key (bake_of made) n /\ (f = true -> exists x, find (root ++ [key]) n = Some x))).
  { intros f n n' [Ho _] [He Hf]. destruct (publishes_entry _ _ _ _ _ Ho) as [He' Hx']. split; [by apply He'|].
    intros Hft. destruct (Hf Hft) as [x Hx]. exists x. by apply Hx'. }
  unfold cache_is_hit. cbn [c_dir].
  eapply (triple_bind _ _ _ _ (fun d n => entry_ok root key (bake_of made) n /\ (d = true -> exists x, find (root ++ [key]) n = Some x))).
  { eapply triple_weaken; [apply (triple_probe _ _ _ _ (fun _ => True) (Hst false))|by intros n Hn| |done].
    cbn beta. intros d n [[He _] Hd]. split; [done|]. intros Ht. specialize (Hd Ht). unfold is_dir_at in Hd.
    destruct (find _ n); [by eexists|done]. }
  intros [|]; [|apply triple_ret; intros n [He _]; by split].
  assert (Hprobe : forall f (P : Node -> Prop), P = (fun n => entry_ok root key (bake_of made) n /\ (true = true -> exists x, find (root ++ [key]) n = Some x)) ->
    triple (spares mine) (fun _ _ => True) P (probe f) (fun _ => P) (fun _ => True)).
  { intros f P ->. eapply triple_weaken; [apply (triple_probe _ _ _ f (fun _ => True) (Hst true))|by intros n Hn|by intros b n [Hn _]|done]. }
  set (P := fun n => entry_ok root key (bake_of made) n /\ (true = true -> exists x, find (root ++ [key]) n = Some x)) in *.
  eapply (triple_bind _ _ _ _ (fun _ => P)); [by apply Hprobe|].
  assert (Hret : forall h, triple (X := IoError) (spares mine) (fun _ _ => True) P (mret h)
    (fun h n => entry_ok root key (bake_of made) n /\ (h = true -> exists x, find (root ++ [key]) n = Some x)) (fun _ => True)).
  { intros h. apply triple_ret. intros n [He Hx]. auto. }
  intros [|]; [|apply Hret]. induction CACHE_FILES as [|f l IH]; cbn [all_files]; [apply Hret|].
  eapply (triple_bind _ _ _ _ (fun _ => P)); [by apply Hprobe|]. intros [|]; [apply IH|apply Hret].
Qed.
End bake_cache.

(** C18: A cache hit gives back a bake: whatever calls fail, and whatever else
    runs in between, as long as it leaves published entries and this build's
    five output files alone, when [cmd_build] reuses an entry the outputs are in
    place as one bake of that key made them, and the hash it prints is that of
    the artifact it restored.  That nothing else writes to the outputs is asked
    of the user: nothing in the program keeps two builds of a stack of the same
    name from restoring to the same files at once. *)
Theorem cache_hit_gives_bake {H} `{Sha256 H} root key made o no_cache w sha w' :
  (forall b, made b -> b_sha b = sha256_hex (b_tdvmm b) ++ [LF]) ->
  relies (spares root key made (outputs_list o)) w -> entry_ok root key (bake_of made) (fs w) ->
  Forall (aside root key) (outputs_list o) -> all_apart (outputs_list o) ->
  reuse no_cache {| c_dir := root ++ [key]; c_key := key |} o w = (Ok (Some sha), w') ->
  exists b, made b /\ no_cache = false /\ sha = sha256_hex (b_tdvmm b) /\
    file_at (out_tdvmm o) (fs w') = Some (b_tdvmm b) /\ file_at (out_initramfs o) (fs w') = Some (b_initramfs b) /\
    file_at (sidecar (out_initramfs o)) (fs w') = Some (b_sidecar b) /\
    file_at (lock_out o) (fs w') = Some (b_lock b) /\ file_at (stack_lock o) (fs w') = Some (b_ledger b).
Proof.
  intros Hmade Hr He Ho Ha. unfold reuse. destruct no_cache; [done|].
  pose proof (hit_finds_entry root key made (outputs_list o) w Hr He) as Hh. unfold mbind, SE_bind.
  destruct (cache_is_hit _ w) as [[[|]|e] w1]; [|done..]. destruct Hh as (Hr1 & _ & He1 & Hx).
  destruct (Hx eq_refl) as [x Hx1]. destruct (He1 x Hx1) as (b & Hb & Hbx).
  pose proof (restore_does root key made (outputs_list o) b x Hbx o eq_refl Ho Ha w1 Hr1 ltac:(by split)) as Hd. unfold attempt.
  destruct (cache_restore _ _ w1) as [[s|e] w2]; [|done]. destruct Hd as (_ & _ & -> & Hx2 & Hd). intros [= <- <-].
  exists b. each_of. cbn [fst snd] in *. split_and!; try done.
  rewrite (Hmade b Hb). apply trim_line. apply sha256_hex_graphic.
Qed.

(** The shared segment's cache is stored to in the same way. *)
Definition segment_of (made : list Z -> Prop) (x : Node) : Prop := exists seg, made seg /\ file_at [BASE_SEGMENT] x = Some seg.

Section base_cache.
Variables (root : path) (key : list Z) (made : list Z -> Prop) (seg pkgs : path).
Hypothesis key_name : head key <> Some 46.
Hypotheses (seg_aside : aside root key seg) (pkgs_aside : aside root key pkgs).

(** What the segment and the ledger may hold meanwhile. *)
Definition segment_may (p : path) (bytes : list Z) : Prop := p = seg -> made bytes.

Lemma segment_holds x : segment_of made x -> exists f bytes, file_at [f] x = Some bytes.
Proof. intros (b & _ & Hb). by exists BASE_SEGMENT, b. Qed.

Lemma base_store_does pid nanos :
  let t := tmp_name pid nanos in
  let knows := knows root key (segment_of made) t [seg; pkgs] segment_may in
  triple (others_act root key (segment_of made) [seg; pkgs] segment_may t) (acts root key (segment_of made) t) (knows [])
    (base_cache_store pid nanos (root ++ [key]) seg pkgs) (fun _ => entry_ok root key (segment_of made)) (knows []).
Proof.
  intros t P. assert (Ht : head t = Some 46) by done.
  assert (Hsrcs : Forall (aside root key) [seg; pkgs]) by for_each.
  assert (Hst : forall ks, stable (others_act root key (segment_of made) [seg; pkgs] segment_may t) (P ks)) by (intros; by apply knows_stable).
  unfold base_cache_store. rewrite entry_root_snoc. fold t. change (root ++ [t]) with (scratch root t).
  eapply triple_bind; [apply triple_probe; [apply acts_refl|apply Hst]|].
  intros [|]; cbn beta iota; [apply triple_ret; by intros n [(? & _) _]|].
  eapply triple_weaken; [|intros n [Hn _]; exact Hn|intros ? ? Hq; exact Hq|done].
  eapply triple_bind; [apply does_mkdirs; eauto|]. intros [].
  eapply triple_bind; [apply does_mkdirs; eauto|]. intros [].
  eapply triple_bind; [apply (does_copy _ _ _ key_name _ Ht _ segment_may Hsrcs seg BASE_SEGMENT []); set_solver|].
  intros []. apply triple_exists. intros b. apply triple_fact. intros Hb. fold P.
  eapply triple_bind; [apply triple_probe; [apply acts_refl|apply Hst]|]. intros f. cbn beta.
  eapply (triple_bind _ _ _ _ (fun _ => P [(BASE_SEGMENT, b)])).
  { destruct f; [|by apply triple_ret; intros n []].
    eapply triple_weaken; [apply (does_copy _ _ _ key_name _ Ht _ segment_may Hsrcs pkgs PACKAGES_LOCK [(BASE_SEGMENT, b)]); set_solver
      |by intros n []| |done].
    intros [] n (p & _ & Hk & Hs & Hks). split_and!; [done..|]. by apply Forall_cons in Hks as [_ ?]. }
  intros []. apply (triple_weaken _ _ (P [(BASE_SEGMENT, b)]) (P [(BASE_SEGMENT, b)]) _ (fun _ => entry_ok root key (segment_of made))
    (fun _ => entry_ok root key (segment_of made)) (P []) (P [])); [|done..].
  apply triple_ignore. eapply triple_weaken;
    [apply (does_publish _ _ _ key_name _ Ht _ segment_may Hsrcs segment_holds) with (ours := segment_of made)|done|..].
  - intros x Hx. apply Forall_cons in Hx as [Hx _]. exists b. split; [by apply Hb|done].
  - done.
  - by intros a n [? _].
  - by intros n [? _].
Qed.

Theorem base_cache_store_atomic pid nanos w :
  let t := tmp_name pid nanos in
  relies (others_act root key (segment_of made) [seg; pkgs] segment_may t) w -> entry_ok root key (segment_of made) (fs w) ->
  sources_ok [seg; pkgs] segment_may (fs w) ->
  let '(r, w') := base_cache_store pid nanos (root ++ [key]) seg pkgs w in
  entry_ok root key (segment_of made) (fs w') /\
  exists ss, steps w' = ss ++ steps w /\ Forall (fun s => acts root key (segment_of made) t s.1 s.2) ss.
Proof.
  intros t Hr He Hs. pose proof (base_store_does pid nanos w Hr) as Hd. destruct (base_cache_store _ _ _ _ _ w) as [r w'].
  destruct Hd as (_ & Hss & Hd); [split_and!; [done..|constructor]|]. split; [|done]. destruct r; [done|by destruct Hd].
Qed.
End base_cache.

(** ** Examples *)

Definition demo_embedded : Embedded := {| overlay_bytes p := p; COMPOSE_ENGINE_LOCK := lit "COMPOSE_VERSION=v5.3.1" |}.

Definition demo_inputs (t : Tree) : KeyInputs := {|
  self_exe := Ok (lit "elf"); compose_dir := Some t; compose_dir_display := lit "/s"; stack_name := lit "kv";
  mem_mib := 3072; working_set_mib := 512; squash_threshold_mib := 100; kernel := Ok (lit "vmlinux");
  builders := [lit "docker.io/rust@sha256:1"; lit "docker.io/alpine@sha256:2"]; agent_pin := lit "0123456789abcdef" |}.

(** A stack directory, and the same listed backwards. *)
Definition demo_listing : list (result (list Z) (list Z * Tree)) :=
  [Ok (lit "sub", Directory 493 (Ok [])); Ok (lit "a.txt", Regular 420 (Ok (lit "hello"))); Ok (lit "l", Symlink (lit "a.txt"))].
Definition demo_dir (backwards : bool) : Tree := Directory 493 (Ok (if backwards then rev demo_listing else demo_listing)).

Lemma demo_inputs_ok t : is_directory t = true -> names_ok t -> inputs_ok (demo_inputs t) t.
Proof.
  intros Hd Hn. split; [done|done|done| |by apply (bool_decide_unpack _); vm_compute|by vm_compute].
  repeat constructor; apply (bool_decide_unpack _); by vm_compute.
Qed.

Lemma demo_relisted : relisted (demo_dir false) (demo_dir true).
Proof.
  apply (relisted_directory 493 demo_listing demo_listing); [|apply Permutation_rev].
  assert (Hsub : relisted (Directory 493 (Ok [])) (Directory 493 (Ok []))) by by apply (relisted_directory 493 [] []).
  repeat (constructor || done).
Qed.

(** A listing in another order gives the same key. *)
Lemma cache_key_identifies_witness :
  exists c c', compute_cache_key (H := Short) demo_embedded [lit "c"] (demo_inputs (demo_dir false)) = Some (Ok c) /\
    compute_cache_key demo_embedded [lit "c"] (demo_inputs (demo_dir true)) = Some (Ok c') /\ c = c' /\
    (same_inputs same_files demo_embedded demo_embedded (demo_inputs (demo_dir false)) (demo_inputs (demo_dir true)) (demo_dir false) (demo_dir true)
     \/ collision (H := Short)).
Proof.
  assert (Hok : forall b, inputs_ok (demo_inputs (demo_dir b)) (demo_dir b)).
  { intros b. apply demo_inputs_ok; [done|]. destruct b; vm_compute; set_solver. }
  eexists _, _. split; [vm_compute; reflexivity|]. split; [vm_compute; reflexivity|].
  edestruct (cache_key_identifies demo_embedded demo_embedded [lit "c"]) as [Hkey Hsame];
    [exact (Hok false)|exact (Hok true)|vm_compute; reflexivity|vm_compute; reflexivity|].
  assert (E := Hsame ltac:(split; try reflexivity; [apply Forall_forall; reflexivity|exact demo_relisted])).
  split; [exact E|]. apply Hkey. exact (f_equal c_key E).
Defined.

(** A mode and a link do not reach the key: two stacks whose images differ share
    it. *)
Lemma key_ignores_modes :
  let t m l := Directory 493 (Ok (Ok (lit "run.sh", Regular m (Ok (lit "#!"))) :: l)) in
  compute_cache_key (H := Short) demo_embedded [lit "c"] (demo_inputs (t 420 [])) =
  compute_cache_key demo_embedded [lit "c"] (demo_inputs (t 493 [Ok (lit "l", Symlink (lit "run.sh"))])).
Proof. by vm_compute. Qed.

(** A builder whose outputs are in [/o], beside another that has left a scratch
    directory in the cache. *)
Definition demo_outputs : Outputs := {|
  out_tdvmm := [lit "o"; lit "kv.tdvmm"]; out_initramfs := [lit "o"; lit "i.cpio.gz"];
  lock_out := [lit "o"; lit "kv.lock"]; stack_lock := [lit "o"; lit "kv.stack"] |}.

Definition demo_fs : Node :=
  Dir (list_to_map [
    (lit "o", Dir (list_to_map [(lit "kv.tdvmm", File [1; 2]); (lit "i.cpio.gz", File [3]);
                                (lit "i.cpio.gz.sha256", File [4]); (lit "kv.lock", File [5]); (lit "kv.stack", File [6])]));
    (lit "c", Dir (list_to_map [(lit ".tmp-7-7", Dir ∅)])) ]).

Definition demo_baked : Baked :=
  {| b_tdvmm := [1; 2]; b_initramfs := [3]; b_sidecar := [4]; b_lock := [5]; b_ledger := [6]; b_sha := hex [1; 2] ++ [LF] |}.

(** Another process that writes a file of its own. *)
Definition elsewhere (n : Node) : Node := default n (put [lit "z"] (Some (File [])) n).

Definition demo_world (o : option (IoError * nat)) : World :=
  {| fs := demo_fs; turns := replicate 3 {| others := elsewhere; outcome := None |} ++ [{| others := elsewhere; outcome := o |}]; steps := [] |}.

Lemma elsewhere_same n q : apart [lit "z"] q -> find q (elsewhere n) = find q n.
Proof. intros Hq. unfold elsewhere. destruct (put _ _ n) as [n'|] eqn:E; [|done]. by apply (find_put _ _ _ _ E). Qed.

(** What each output held at the start. *)
Definition demo_may (p : path) (v : list Z) : Prop := file_at p demo_fs = Some v.

Lemma demo_aside : Forall (aside [lit "c"] (lit "k")) (outputs_list demo_outputs).
Proof.
  repeat (apply Forall_cons_2; [split; [|intros t _]; apply (apart_siblings []); done|]). apply Forall_nil_2.
Qed.

Lemma demo_entry_ok good : entry_ok [lit "c"] (lit "k") good demo_fs.
Proof. intros x Hx. vm_compute in Hx. discriminate. Qed.

Lemma demo_relies key made t o : relies (others_act [lit "c"] key made (outputs_list demo_outputs) demo_may t) (demo_world o).
Proof.
  assert (Hz : forall c q n, lit "z" <> c -> find (c :: q) (elsewhere n) = find (c :: q) n).
  { intros c q n Hc. apply elsewhere_same. by apply (apart_siblings []). }
  assert (Ho : forall n, others_act [lit "c"] key made (outputs_list demo_outputs) demo_may t n (elsewhere n)).
  { intros n. split; [left; by apply Hz|]. split; [intros q; by apply Hz|]. unfold sources_ok. rewrite !Forall_forall.
    intros Hs p Hp v. unfold file_at. enough (find p (elsewhere n) = find p n) as -> by by apply Hs.
    assert (Hhead : exists q, p = lit "o" :: q).
    { revert p Hp. apply Forall_forall. repeat (apply Forall_cons_2; [by eexists|]). apply Forall_nil_2. }
    destruct Hhead as [q ->]. by apply Hz. }
  apply Forall_app. split; [apply Forall_replicate|constructor; [|constructor]]; exact Ho.
Qed.


(** Another build of the stack writes its ledger between two copies of a store:
    the entry has the artifact of one bake and the ledger of the other. *)
Example stored_entry_mixed :
  let rewrite n := match write_node [lit "o"; lit "kv.stack"] [7] n with Ok n' => n' | Err _ => n end in
  let w := {| fs := demo_fs; turns := replicate 5 {| others := id; outcome := None |} ++ [{| others := rewrite; outcome := None |}]; steps := [] |} in
  let m := cache_store 1 2 {| c_dir := [lit "c"; lit "k"]; c_key := lit "k" |} demo_outputs (hex [1; 2]) w in
  m.1 = Ok true /\ file_at [lit "c"; lit "k"; ARTIFACT] (fs m.2) = Some [1; 2] /\ file_at [lit "c"; lit "k"; STACK_LOCK] (fs m.2) = Some [7].
Proof. by vm_compute. Qed.

(** A tree with an entry and no outputs. *)
Definition demo_entry : Node := Dir (list_to_map [
  (ARTIFACT, File [1; 2]); (INITRAMFS, File [3]); (INITRAMFS_SHA, File [4]); (COMPOSE_LOCK, File [5]); (STACK_LOCK, File [6]);
  (TDVMM_SHA, File (hex [1; 2] ++ [LF]))]).

Definition demo_full : World := {|
  fs := Dir (list_to_map [(lit "c", Dir (list_to_map [(lit "k", demo_entry)]))]); turns := []; steps := [] |}.

Lemma demo_entry_holds : holds demo_baked demo_entry.
Proof. repeat (apply Forall_cons_2; [by vm_compute|]). apply Forall_nil_2. Qed.

Lemma cache_hit_gives_bake_witness :
  let m := reuse false {| c_dir := [lit "c"; lit "k"]; c_key := lit "k" |} demo_outputs demo_full in
  m.1 = Ok (Some (hex [1; 2])) /\ file_at (out_tdvmm demo_outputs) (fs m.2) = Some [1; 2].
Proof.
  intros m. assert (Hm : m.1 = Ok (Some (hex [1; 2]))) by (vm_compute; reflexivity). split; [exact Hm|].
  destruct (cache_hit_gives_bake (H := list Z) [lit "c"] (lit "k") (fun b => b = demo_baked) demo_outputs false demo_full (hex [1; 2]) m.2)
    as (b & -> & _ & _ & Ht & _).
  - intros b ->. reflexivity.
  - apply Forall_nil_2.
  - intros y Hy. assert (Hf : find (entry [lit "c"] (lit "k")) (fs demo_full) = Some demo_entry) by (vm_compute; reflexivity).
    rewrite Hf in Hy. injection Hy as <-. exists demo_baked. split; [reflexivity|exact demo_entry_holds].
  - exact demo_aside.
  - repeat split; apply (bool_decide_unpack _); vm_compute; reflexivity.
  - change (m = (Ok (Some (hex [1; 2])), m.2)). rewrite <- Hm. apply surjective_pairing.
  - exact Ht.
Defined.

(** Another build of the stack begins to restore the artifact, which truncates
    it, after this one has restored it: this one reports a hit. *)
Example restored_artifact_truncated :
  let cut n := match write_node (out_tdvmm demo_outputs) [] n with Ok n' => n' | Err _ => n end in
  let w := {| fs := fs demo_full; turns := replicate 18 {| others := id; outcome := None |} ++ [{| others := cut; outcome := None |}]; steps := [] |} in
  let m := reuse false {| c_dir := [lit "c"; lit "k"]; c_key := lit "k" |} demo_outputs w in
  m.1 = Ok (Some (hex [1; 2])) /\ file_at (out_tdvmm demo_outputs) (fs m.2) = Some [].
Proof. by vm_compute. Qed.
