(* ===== verification/Pinned.v ===== *)
(** * Pinned inputs of a bake ([src/src/build/pins.rs], [src/src/build/kernel.rs], [src/src/build/agent.rs])

    The ledgers of pins, the downloads, the guest kernel and the guest agent:
    each is fetched or built in a container that is not trusted, and used only
    when its hash is the one wanted.  The container engine is a parameter: it
    may do anything to the files. *)

From Stdlib Require Import ZArith Lia.
From stdpp Require Import base numbers strings gmap sets list sorting.
From S2P Require Import Prelude.
From S2P Require Import Text.
From S2P Require Import Lines.
From S2P Require Import Utf8.
From S2P Require Import Tar.
From S2P Require Import Files.
From S2P Require Import TreeHash.
From S2P Require Import Cache.

Open Scope Z_scope.

(** ** Ledgers *)

(** [str::split_once]. *)
Fixpoint split_once (c : Z) (s : list Z) : option (list Z * list Z) :=
  match s with
  | [] => None
  | b :: s => if b =? c then Some ([], s) else '(k, v) ← split_once c s; Some (b :: k, v)
  end.

Fixpoint index_of (k : list Z) (keys : list (list Z)) : option nat :=
  match keys with
  | [] => None
  | k' :: keys => if bool_decide (k' = k) then Some O else S <$> index_of k keys
  end.

(** A line of [lock_values]. *)
Definition lock_line (keys : list (list Z)) (out : list (list Z)) (line : list Z) : list (list Z) :=
  let l := trim line in
  if bool_decide (l = []) || bool_decide (head l = Some 35) then out
  else match split_once 61 l with
       | None => out
       | Some (key, val) => match index_of (trim key) keys with Some i => <[i := trim val]> out | None => out end
       end.

Definition lock_values (text : list Z) (keys : list (list Z)) : list (list Z) :=
  fold_left (lock_line keys) (lines_of text) (replicate (length keys) []).

(** A build fails with a host error or a message. *)
Inductive BuildError := Io (e : IoError) | Msg (m : list Z).

Abbreviation Build := (SE BuildError World).

Definition io {A} (m : IO A) : Build A := map_err Io m.

(** The texts compiled into the binary. *)
Record Ledgers := {
  ROOTFS_BUILDER_LOCK : list Z; AGENT_IMAGES_LOCK : list Z; ENGINE_LOCK : list Z;
  KERNEL_LOCK : list Z; KERNEL_CONFIG : list Z;
  AGENT_SRC : list (list Z * list Z); ROOT_MANIFEST : list Z;
}.

Definition two_values (text k1 k2 missing : list Z) : result BuildError (list Z * list Z) :=
  match lock_values text [k1; k2] with
  | [a; b] => if bool_decide (a = []) || bool_decide (b = []) then Err (Msg missing) else Ok (a, b)
  | _ => Err (Msg missing)
  end.

Definition rootfs_builder_pin (em : Ledgers) : result BuildError (list Z * list Z) :=
  two_values (ROOTFS_BUILDER_LOCK em) (lit "BUILDER_IMAGE") (lit "BUILDER_DIGEST")
    (lit "rootfs-builder.lock missing BUILDER_IMAGE / BUILDER_DIGEST").

Definition agent_builder_pin (em : Ledgers) : result BuildError (list Z * list Z) :=
  two_values (AGENT_IMAGES_LOCK em) (lit "BUILDER_IMAGE") (lit "BUILDER_DIGEST")
    (lit "tdvmm-agent/images.lock missing BUILDER_IMAGE / BUILDER_DIGEST").

Definition compose_engine_pin (em : Ledgers) : result BuildError (list Z * list Z) :=
  two_values (ENGINE_LOCK em) (lit "COMPOSE_VERSION") (lit "COMPOSE_SHA256")
    (lit "compose-engine.lock missing COMPOSE_VERSION / COMPOSE_SHA256").

(** ** The kernel's ledger *)

Record KernelLock := {
  version : list Z; sha256 : list Z; config_sha256 : list Z; source_url : list Z; source_sha256 : list Z;
  builder_image : list Z; builder_digest : list Z;
}.

Definition KERNEL_KEYS : list (list Z) :=
  [ lit "KERNEL_VERSION"; lit "KERNEL_SHA256"; lit "KERNEL_CONFIG_SHA256"; lit "KERNEL_SOURCE_URL"; lit "KERNEL_SOURCE_SHA256";
    lit "BUILDER_IMAGE"; lit "BUILDER_DIGEST" ].

Definition parse_kernel_lock (text origin : list Z) : result BuildError KernelLock :=
  match lock_values text KERNEL_KEYS with
  | [v; s; c; u; ss; i; d] =>
      if bool_decide (v = []) then Err (Msg (origin ++ lit " missing KERNEL_VERSION"))
      else Ok {| version := v; sha256 := s; config_sha256 := c; source_url := u; source_sha256 := ss; builder_image := i; builder_digest := d |}
  | _ => Err (Msg (origin ++ lit " missing KERNEL_VERSION"))
  end.

Definition embedded_kernel_lock (em : Ledgers) : result BuildError KernelLock :=
  parse_kernel_lock (KERNEL_LOCK em) (lit "embedded kernel.lock").

Definition KERNEL_LOCK_HEADER : list (list Z) :=
  [ lit "# tdvmm guest kernel pin (Fable Part C).";
    lit "#";
    lit "# The guest vmlinux is compiled FROM SOURCE in the pinned builder container:";
    lit "# the sha-pinned tarball below is built with the recorded config, and the";
    lit "# result must match KERNEL_SHA256 byte-for-byte before it is cached. Nothing";
    lit "# precompiled is ever downloaded; no host kernel toolchain is required. This";
    lit "# file and the config are embedded into the tdvmm binary at compile time.";
    lit "#";
    lit "# Regenerate with:  tdvmm build-kernel --record" ].

Definition kernel_values (k : KernelLock) : list (list Z) :=
  [ version k; sha256 k; config_sha256 k; source_url k; source_sha256 k; builder_image k; builder_digest k ].

Definition kernel_lock_body (k : KernelLock) : list Z :=
  join_lines (KERNEL_LOCK_HEADER ++ zip_with (fun key v => key ++ 61 :: v) KERNEL_KEYS (kernel_values k)) [].

Definition kernel_lock_path (testdata_dir : path) : path := testdata_dir ++ [lit "kernel"; lit "kernel.lock"].

Definition write_kernel_lock (testdata_dir : path) (k : KernelLock) : Build unit :=
  io (write (kernel_lock_path testdata_dir) (kernel_lock_body k)).

Definition lift {A} (r : result BuildError A) : Build A := match r with Ok a => mret a | Err e => fail e end.

(** A path as text; its root is the file system's. *)
Definition display (p : path) : list Z := 47 :: join_with [47] (from_utf8_lossy <$> p).

Definition read_to_string (p : path) : IO (list Z) :=
  s ← read p; if from_utf8_ok s then mret s else fail InvalidData.

Definition io_text (e : IoError) : list Z :=
  match e with
  | NotFound => lit "No such file or directory (os error 2)"
  | NotADirectory => lit "Not a directory (os error 20)"
  | IsADirectory => lit "Is a directory (os error 21)"
  | NotEmpty => lit "Directory not empty (os error 39)"
  | PermissionDenied => lit "Permission denied (os error 13)"
  | InvalidData => lit "stream did not contain valid UTF-8"
  | HostError => lit "Input/output error (os error 5)"
  end.

Definition read_kernel_lock (testdata_dir : path) : Build KernelLock :=
  let p := kernel_lock_path testdata_dir in
  text ← map_err (fun e => Msg (lit "reading " ++ display p ++ lit ": " ++ io_text e ++ lit " (run `tdvmm build-kernel --record`)"))
           (read_to_string p);
  lift (parse_kernel_lock text (display p)).

Section hash.
Context {H : Type} `{Sha256 H}.

Definition sha256_file_hex (p : path) : IO (list Z) := bytes ← read p; mret (sha256_hex bytes).

Definition embedded_kernel_config (em : Ledgers) (kl : KernelLock) : result BuildError (list Z) :=
  let got := sha256_hex (KERNEL_CONFIG em) in
  if bool_decide (got <> config_sha256 kl) then
    Err (Msg (lit "embedded kernel config sha256 " ++ got ++ lit " != kernel.lock KERNEL_CONFIG_SHA256 " ++ config_sha256 kl ++
              lit "; re-run `tdvmm build-kernel --record`, then rebuild tdvmm"))
  else Ok (KERNEL_CONFIG em).

(** [image@digest]. *)
Definition img_ref (pin : list Z * list Z) : list Z := pin.1 ++ 64 :: pin.2.

Definition bytes_le (a b : list Z) : Prop := bytes_leb a b = true.

#[export] Instance bytes_le_dec a b : Decision (bytes_le a b).
Proof. unfold bytes_le. apply _. Defined.

Definition collect_builder_pins (em : Ledgers) : result BuildError (list (list Z)) :=
  apin ← agent_builder_pin em;
  kl ← embedded_kernel_lock em;
  if bool_decide (builder_digest kl = []) then
    Err (Msg (lit "kernel.lock has no BUILDER_DIGEST; run `tdvmm build-kernel --record` first"))
  else
    rpin ← rootfs_builder_pin em;
    Ok (merge_sort bytes_le [img_ref apin; img_ref (builder_image kl, builder_digest kl); img_ref rpin]).
End hash.

(** ** Containers and scratch directories *)

Definition BUILD_EPOCH : list Z := Cache.BUILD_EPOCH.
Definition KERNEL_CONFIG_NAME : list Z := lit "microvm-kernel-x86_64-6.1.config".
Definition CONF : list Z := lit "[engine]" ++ LF :: lit "runtime=" ++ 34 :: lit "runc" ++ 34 :: [LF].

Section containers.
Context {H : Type} `{Sha256 H}.

(** [engine::run] of an engine command with these arguments, under a
    [CONTAINERS_CONF]: it may do anything to the files, and fail. *)
Variable engine : path -> list (list Z) -> Build unit.

(** The system's temporary directory, this process, and its clock. *)
Variables (temp_dir : path) (pid : Z).

Definition SCRATCH_PREFIX : list Z := lit "tdvmm-build-".

Definition scratch_dir (nanos : Z) : path := temp_dir ++ [SCRATCH_PREFIX ++ dec pid ++ 45 :: dec nanos].

(** [Path::with_extension] of a name without one. *)
Definition cleanup_conf (p : path) : path := removelast p ++ [default [] (last p) ++ lit ".cleanup-conf"].

Definition unshare_remove (p : path) : Build unit :=
  let conf := cleanup_conf p in
  map_err (fun e => match e with Io e => Msg (lit "write cleanup conf: " ++ io_text e) | e => e end) (io (write conf (lit "[engine]" ++ [LF]))) ;;
  r ← attempt (engine conf [lit "unshare"; lit "rm"; lit "-rf"; display p]);
  ignore (remove_file conf) ;;
  lift r.

(** What is left after it is logged. *)
Definition remove_build_scratch (p : path) : Build unit :=
  r ← attempt (remove_dir_all p);
  match r with
  | Err PermissionDenied => ignore (unshare_remove p)
  | _ => mret tt
  end.

(** A [ScratchDir] and its drop at the end of a block, early returns included. *)
Definition with_scratch {A} (nanos : Z) (body : path -> Build A) : Build A :=
  let dir := scratch_dir nanos in
  io (create_dir_all dir) ;;
  r ← attempt (body dir);
  remove_build_scratch dir ;;
  lift r.

Variable em : Ledgers.

Definition fetch_in_container (nanos : Z) (dest : path) (url : list Z) : Build unit :=
  pin ← lift (rootfs_builder_pin em);
  match parent dest, last dest with
  | Some dir, Some n =>
      let name := from_utf8_lossy n in
      io (create_dir_all dir) ;;
      with_scratch nanos (fun confdir =>
        let conf := confdir ++ [lit "containers.conf"] in
        io (write conf CONF) ;;
        engine conf [ lit "run"; lit "--rm"; lit "-v"; display dir ++ lit ":/cache"; img_ref pin;
                      lit "wget"; lit "-q"; lit "-O"; lit "/cache/" ++ name; url ])
  | _, _ => fail (Msg (lit "fetch destination " ++ display dest ++ lit " has no parent dir"))
  end.

Definition fetch_verify (nanos : Z) (p : path) (url sha : list Z) : Build unit :=
  e ← io (path_exists p);
  (if (e : bool) then mret tt else fetch_in_container nanos p url) ;;
  got ← io (sha256_file_hex p);
  if bool_decide (got <> sha) then
    fail (Msg (lit "sha256 mismatch for " ++ display p ++ lit ": got " ++ got ++ lit ", want " ++ sha))
  else mret tt.

(** ** The kernel *)

(** The script of the container, over the version. *)
Definition kernel_script (ver : list Z) : list Z :=
  let q := [34] in
  join_lines
    [ lit "set -e";
      lit "export DEBIAN_FRONTEND=noninteractive";
      lit "apt-get update -qq";
      lit "apt-get install -y --no-install-recommends build-essential bc bison flex libelf-dev libssl-dev xz-utils >/dev/null";
      lit "cd /work";
      lit "tar -xf /src/linux-" ++ ver ++ lit ".tar.xz";
      lit "cd linux-" ++ ver;
      lit "# Modern GCC defaults to C23 (bool/true/false keywords); Linux 6.1's real-";
      lit "# mode boot stub predates that. Force -std=gnu11 for EVERY TU via a CC wrapper";
      lit "# (build_kernel.sh parity), so the build works regardless of the image's GCC.";
      lit "printf '#!/bin/sh\nexec gcc -std=gnu11 " ++ q ++ lit "$@" ++ q ++ lit "\n' > .cc-gnu11";
      lit "chmod +x .cc-gnu11";
      lit "cp /config .config";
      lit "make CC=$PWD/.cc-gnu11 olddefconfig";
      lit "make -j" ++ q ++ lit "$(nproc)" ++ q ++ lit " CC=$PWD/.cc-gnu11 vmlinux";
      lit "cp vmlinux /work/vmlinux-out" ] [].

Definition build_kernel_container (n0 n1 n2 : Z) (cache_dir : path) (kl : KernelLock) (config : list Z) (out : path) : Build unit :=
  if bool_decide (builder_digest kl = []) then
    fail (Msg (lit "kernel.lock has no BUILDER_DIGEST; run `tdvmm build-kernel --record`"))
  else
  let src_dir := cache_dir ++ [lit "kernel-src"] in
  io (create_dir_all src_dir) ;;
  let tarball := src_dir ++ [lit "linux-" ++ version kl ++ lit ".tar.xz"] in
  (if bool_decide (source_sha256 kl = []) then
     e ← io (path_exists tarball);
     if (e : bool) then mret tt else fetch_in_container n0 tarball (source_url kl)
   else fetch_verify n0 tarball (source_url kl) (source_sha256 kl)) ;;
  with_scratch n1 (fun confdir =>
    let conf := confdir ++ [lit "containers.conf"] in
    io (write conf CONF) ;;
    let config_src := confdir ++ [KERNEL_CONFIG_NAME] in
    io (write config_src config) ;;
    with_scratch n2 (fun work =>
      engine conf [ lit "run"; lit "--rm"; lit "-v"; display src_dir ++ lit ":/src:ro";
                    lit "-v"; display config_src ++ lit ":/config:ro"; lit "-v"; display work ++ lit ":/work";
                    lit "-e"; lit "SOURCE_DATE_EPOCH=" ++ BUILD_EPOCH;
                    lit "-e"; lit "KBUILD_BUILD_TIMESTAMP=Thu Jan  1 00:00:00 UTC 1970";
                    lit "-e"; lit "KBUILD_BUILD_USER=tdvmm"; lit "-e"; lit "KBUILD_BUILD_HOST=tdvmm";
                    lit "-e"; lit "KCONFIG_NOTIMESTAMP=1"; img_ref (builder_image kl, builder_digest kl);
                    lit "sh"; lit "-c"; kernel_script (version kl) ] ;;
      match parent out with Some d => io (create_dir_all d) | None => mret tt end ;;
      map_err (fun e => Msg (lit "kernel build produced no vmlinux: " ++ io_text e)) (copy (work ++ [lit "vmlinux-out"]) out))).

(** The warning for a stale kernel, which is only printed, slices sixteen
    characters of each hash. *)
Definition ensure_kernel (n0 n1 n2 : Z) (cache_dir : path) (force_build : bool) : Build path :=
  kl ← lift (embedded_kernel_lock em);
  let kernel_dir := cache_dir ++ [lit "kernel"] in
  io (create_dir_all kernel_dir) ;;
  let out := kernel_dir ++ [lit "vmlinux-" ++ version kl] in
  if bool_decide (sha256 kl = []) then
    fail (Msg (lit "kernel.lock has no KERNEL_SHA256; run `tdvmm build-kernel --record` first"))
  else
  here ← (if force_build then mret false else io (path_exists out));
  present ← (if (here : bool) then
               r ← attempt (sha256_file_hex out);
               mret (match r with Ok got => bool_decide (got = sha256 kl) | Err _ => false end)
             else mret false);
  if (present : bool) then mret out else
  config ← lift (embedded_kernel_config em kl);
  build_kernel_container n0 n1 n2 cache_dir kl config out ;;
  got ← io (sha256_file_hex out);
  if bool_decide (got <> sha256 kl) then
    fail (Msg (lit "container-built kernel sha256 " ++ got ++ lit " != kernel.lock " ++ sha256 kl ++
               lit "; the build is not reproducing the recorded kernel (re-run `tdvmm build-kernel --record` if inputs changed)"))
  else mret out.

(** ** The agent *)

Definition AGENT_RUSTFLAGS : list Z :=
  lit "-C linker=rust-lld -C link-self-contained=yes -C link-arg=--build-id=none --remap-path-prefix=/src=/tdvmm --remap-path-prefix=/work/cargo=/cargo".

Definition AGENT_BUILD_SCRIPT : list Z :=
  lit "set -e; cd /src && cargo build -p tdvmm-agent --profile agent-release --target x86_64-unknown-linux-musl --locked && cp /work/target/x86_64-unknown-linux-musl/agent-release/tdvmm-agent /work/tdvmm-agent".

(** [None] is a panic: the table is missing the file. *)
Definition embedded_file (rel : list Z) : option (list Z) :=
  snd <$> List.find (fun e => bool_decide (e.1 = rel)) (AGENT_SRC em).

(** [str::strip_prefix]. *)
Definition strip_prefix (p s : list Z) : option (list Z) :=
  if bool_decide (take (length p) s = p) then Some (drop (length p) s) else None.

Definition embedded_entries (prefix : list Z) : list (list Z * list Z) :=
  omap (fun e => (fun rel => (rel, e.2)) <$> strip_prefix prefix e.1) (AGENT_SRC em).

Definition embedded_tree_hash (prefix : list Z) : list Z :=
  sha256_hex (concat ((fun e => entry_line (e.1, sha256_hex e.2)) <$> embedded_entries prefix)).

Definition agent_src_id : option (list Z) :=
  let a := embedded_tree_hash (lit "tdvmm-agent/") in
  let p := embedded_tree_hash (lit "tdvmm-proto/") in
  lock ← embedded_file (lit "Cargo.lock");
  Some (take 16 (sha256_hex (a ++ LF :: p ++ LF :: sha256_hex lock ++ [LF]))).

Definition agent_build_key : option (list Z) :=
  id ← agent_src_id;
  Some (take 16 (sha256_hex (lit "tdvmm-agent-build v1" ++ LF :: id ++ LF :: sha256_hex (ROOT_MANIFEST em) ++ LF ::
    sha256_hex AGENT_RUSTFLAGS ++ LF :: sha256_hex AGENT_BUILD_SCRIPT ++ LF :: BUILD_EPOCH ++ [LF]))).

(** A relative path's components. *)
Definition components_of (rel : list Z) : path := let '(c, cs) := split_char 47 rel in c :: cs.

Fixpoint write_table (dst : path) (t : list (list Z * list Z)) : IO unit :=
  match t with
  | [] => mret tt
  | (rel, bytes) :: t =>
      let p := dst ++ components_of rel in
      match parent p with Some d => create_dir_all d | None => mret tt end ;;
      write p bytes ;;
      write_table dst t
  end.

Definition materialize_agent_src (dst : path) : IO unit :=
  write_table dst (AGENT_SRC em) ;;
  write (dst ++ [lit "Cargo.toml"]) (ROOT_MANIFEST em) ;;
  create_dir_all (dst ++ [lit "src"]) ;;
  write (dst ++ [lit "src"; lit "main.rs"]) (lit "fn main() {}" ++ [LF]).

Definition build_agent (n1 n2 : Z) (build_hash : list Z) (src_dir out : path) : Build unit :=
  pin ← lift (agent_builder_pin em);
  with_scratch n1 (fun confdir =>
    let conf := confdir ++ [lit "containers.conf"] in
    io (write conf CONF) ;;
    with_scratch n2 (fun work =>
      engine conf [ lit "run"; lit "--rm"; lit "-v"; display src_dir ++ lit ":/src:ro"; lit "-v"; display work ++ lit ":/work";
                    lit "-e"; lit "SOURCE_DATE_EPOCH=" ++ BUILD_EPOCH; lit "-e"; lit "CARGO_HOME=/work/cargo";
                    lit "-e"; lit "CARGO_TARGET_DIR=/work/target"; lit "-e"; lit "RUSTFLAGS=" ++ AGENT_RUSTFLAGS;
                    lit "-e"; lit "TDVMM_AGENT_BUILD=" ++ build_hash; img_ref pin; lit "sh"; lit "-c"; AGENT_BUILD_SCRIPT ] ;;
      map_err (fun e => Msg (lit "agent build produced no binary: " ++ io_text e)) (copy (work ++ [lit "tdvmm-agent"]) out))).

(** [ensure_agent]; [None] is the panic of a broken table. *)
Definition ensure_agent (n0 n1 n2 nanos : Z) (cache_dir : path) : option (Build (path * list Z)) :=
  build_hash ← agent_src_id;
  key ← agent_build_key;
  let agent_dir := cache_dir ++ [lit "agent"] in
  let cached := agent_dir ++ [lit "tdvmm-agent-" ++ key] in
  let sidecar := agent_dir ++ [lit "tdvmm-agent-" ++ key ++ lit ".sha256"] in
  Some (
    here ← io (is_file cached);
    ok ← (if (here : bool) then
            w ← attempt (read_to_string sidecar);
            let want := match w with Ok s => trim s | Err _ => [] end in
            g ← attempt (sha256_file_hex cached);
            if match g with Ok got => bool_decide (want <> []) && bool_decide (got = want) | Err _ => false end then mret true
            else ignore (remove_file cached) ;; ignore (remove_file sidecar) ;; mret false
          else mret false);
    if (ok : bool) then mret (cached, build_hash) else
    io (create_dir_all agent_dir) ;;
    with_scratch n0 (fun d =>
      let src := d ++ [lit "src"] in
      io (materialize_agent_src src) ;;
      let tmp := agent_dir ++ [tmp_name pid nanos] in
      build_agent n1 n2 build_hash src tmp ;;
      sha ← io (sha256_file_hex tmp);
      io (rename tmp cached) ;;
      io (write sidecar (sha ++ [LF])) ;;
      mret (cached, build_hash))).
(** The pid in the name of a scratch directory. *)
Definition scratch_pid (name : list Z) : option Z :=
  if from_utf8_ok name then
    rest ← strip_prefix SCRATCH_PREFIX name;
    match from_str_radix 32 10 (split_char 45 rest).1 with Ok p => Some p | Err _ => None end
  else None.

(** [sweep_stale_scratch], over the entries of the temporary directory (a name,
    and whether it is a directory) and the pids that are alive. *)
Fixpoint sweep_stale_scratch (pid_is_alive : Z -> bool) (entries : list (list Z * bool)) : Build unit :=
  match entries with
  | [] => mret tt
  | (name, is_dir) :: entries =>
      (match (if is_dir then scratch_pid name else None) with
       | Some p => if pid_is_alive p then mret tt else remove_build_scratch (temp_dir ++ [name])
       | None => mret tt
       end) ;;
      sweep_stale_scratch pid_is_alive entries
  end.

End containers.

(** ** Scratch directories *)

(** The name says whose it is: [mkdtemp] and the sweep agree. *)
Lemma scratch_pid_name pid nanos : fits 32 pid -> scratch_pid (SCRATCH_PREFIX ++ dec pid ++ 45 :: dec nanos) = Some pid.
Proof.
  intros Hp. assert (Hr : forall n, Forall (fun c => 48 <= c <= 57) (dec n)).
  { intros n. unfold dec, radix. apply Forall_fmap. eapply Forall_impl; [apply digits_range; lia|]. intros d Hd. cbn beta in *. unfold compose.
    unfold digit_char. destruct (Z.ltb_spec d 10); lia. }
  unfold scratch_pid. rewrite from_utf8_ok_ascii.
  - unfold strip_prefix. rewrite take_app_length, drop_app_length, bool_decide_true by done. cbn [mbind option_bind].
    rewrite split_char_prefix by (intros Hin; specialize (Hr pid); rewrite Forall_forall in Hr; specialize (Hr _ Hin); lia).
    cbn [split_char]. rewrite Z.eqb_refl. destruct (split_char 45 (dec nanos)) as [c cs]. cbn [fst].
    rewrite app_nil_r. change (dec pid) with (zero_pad 0 (radix 97 10 pid)). by rewrite (radix_roundtrip 32 97 10 pid 0) by (auto; lia).
  - apply Forall_app. split; [apply (bool_decide_unpack _); by vm_compute|]. apply Forall_app. split; [|constructor; [lia|]];
      (eapply Forall_impl; [apply Hr|]; cbn; lia).
Qed.

(** The sweep makes no call for what a living process may own, and none for
    what is not a scratch directory. *)
Lemma sweep_spares_living engine temp_dir alive entries w :
  Forall (fun e => e.2 = true -> forall p, scratch_pid e.1 = Some p -> alive p = true) entries ->
  sweep_stale_scratch engine temp_dir alive entries w = (Ok tt, w).
Proof.
  induction 1 as [|[name d] entries He _ IH]; [done|]. cbn [sweep_stale_scratch fst snd] in *.
  destruct d; [|exact IH]. destruct (scratch_pid name) as [p|] eqn:Ep; [|exact IH]. rewrite (He eq_refl p) by done. exact IH.
Qed.

(** ** What a ledger says comes back *)

Lemma split_once_app c k v : c ∉ k -> split_once c (k ++ c :: v) = Some (k, v).
Proof.
  induction k as [|b k IH]; intros Hk; cbn; [by rewrite Z.eqb_refl|].
  apply not_elem_of_cons in Hk as [Hb Hk]. rewrite (proj2 (Z.eqb_neq b c)) by congruence. by rewrite IH.
Qed.

(** A line that says [key=v]. *)
Lemma lock_line_value keys out key i v :
  Forall graphic key -> 61 ∉ key -> head key <> Some 35 -> key <> [] -> index_of key keys = Some i -> Forall graphic v ->
  lock_line keys out (key ++ 61 :: v) = <[i := v]> out.
Proof.
  intros Hg Heq Hh Hne Hi Hv. unfold lock_line.
  rewrite trim_graphic by (apply Forall_app; split; [done|]; constructor; [unfold graphic; lia|done]).
  rewrite !bool_decide_false by (destruct key; done). cbn [orb]. rewrite split_once_app by done.
  by rewrite !trim_graphic, Hi.
Qed.

(** The same, with what can be computed of the key. *)
Lemma lock_value_known keys out key v i :
  bool_decide (Forall graphic key /\ 61 ∉ key /\ head key <> Some 35 /\ key <> []) && bool_decide (index_of key keys = Some i) = true ->
  Forall graphic v -> lock_line keys out (key ++ 61 :: v) = <[i := v]> out.
Proof. rewrite andb_true_iff, !bool_decide_eq_true. intros [(? & ? & ? & ?) ?] ?. by apply lock_line_value. Qed.

Lemma lines_of_join ls : Forall (fun l => no_lf l /\ last l <> Some CR) ls -> lines_of (join_lines ls []) = ls.
Proof.
  intros Hls. unfold lines_of. rewrite split_lines_join; [|eapply Forall_impl; [exact Hls|by intros l []]|constructor].
  rewrite bool_decide_true, app_nil_r by done. induction Hls as [|l ls [_ Hl] _ IH]; [done|].
  rewrite fmap_cons, IH. f_equal. unfold strip_cr. by rewrite bool_decide_false.
Qed.

Lemma kernel_header_skipped out : fold_left (lock_line KERNEL_KEYS) KERNEL_LOCK_HEADER out = out.
Proof. done. Qed.

Lemma graphic_line l : Forall graphic l -> no_lf l /\ last l <> Some CR.
Proof.
  intros Hl. split.
  - eapply Forall_impl; [exact Hl|]. unfold graphic, LF. intros b Hb ->. lia.
  - intros Hc. apply last_Some_elem_of in Hc. rewrite Forall_forall in Hl. specialize (Hl _ Hc). unfold graphic, CR in Hl. lia.
Qed.

Ltac known key i := rewrite (lock_value_known KERNEL_KEYS _ (lit key) _ i); [|vm_compute; reflexivity|assumption].

(** The kernel's ledger reads back: whatever [build-kernel --record] writes
    (visible ASCII, with a version), the next build parses to the same pins. *)
Theorem kernel_lock_roundtrip k origin :
  Forall (Forall graphic) (kernel_values k) -> version k <> [] ->
  parse_kernel_lock (kernel_lock_body k) origin = Ok k.
Proof.
  intros Hv Hne. unfold parse_kernel_lock, lock_values, kernel_lock_body.
  rewrite lines_of_join.
  - rewrite fold_left_app, kernel_header_skipped. unfold kernel_values in Hv. each_of.
    cbn [KERNEL_KEYS kernel_values zip_with fold_left].
    known "KERNEL_VERSION" 0%nat. known "KERNEL_SHA256" 1%nat. known "KERNEL_CONFIG_SHA256" 2%nat. known "KERNEL_SOURCE_URL" 3%nat.
    known "KERNEL_SOURCE_SHA256" 4%nat. known "BUILDER_IMAGE" 5%nat. known "BUILDER_DIGEST" 6%nat.
    cbn [length KERNEL_KEYS replicate]. cbn. rewrite bool_decide_false by done. by destruct k.
  - apply Forall_app. split; [apply (bool_decide_unpack _); by vm_compute|].
    unfold kernel_values in Hv. each_of. cbn [KERNEL_KEYS kernel_values zip_with].
    repeat (apply Forall_cons_2; [apply graphic_line, Forall_app; split; [by apply (bool_decide_unpack _); vm_compute|]; constructor; [done|assumption]|]).
    apply Forall_nil_2.
Qed.

(** ** Only what has the wanted hash is used *)

Lemma observe_ok {A} (f : Node -> result IoError A) w a w' : observe f w = (Ok a, w') -> f (fs w') = Ok a.
Proof.
  unfold observe, call. destruct (next_turn w) as [t ts]. destruct (outcome t) as [[e k]|]; [done|].
  destruct (f (others t (fs w))) as [b|e] eqn:Ef; cbn; [|done]. by intros [= <- <-].
Qed.

Section verified.
Context {H : Type} `{Sha256 H}.

Lemma sha256_file_ok p w h w' : sha256_file_hex p w = (Ok h, w') ->
  exists bytes, file_at p (fs w') = Some bytes /\ h = sha256_hex bytes.
Proof.
  unfold sha256_file_hex. intros (bytes & w1 & Hr & Hm)%SE_bind_ok. injection Hm as <- <-.
  apply observe_ok in Hr. exists bytes. split; [|done]. unfold file_at. by destruct (find p (fs w1)) as [[]|]; simplify_eq.
Qed.

Lemma io_of_ok {A} (m : IO A) w a w' : io m w = (Ok a, w') -> m w = (Ok a, w').
Proof. unfold io, map_err. destruct (m w) as [[]]; by intros [= <- <-]. Qed.

Lemma attempt_ok {X Y A} (m : SE X World A) w r w' : attempt (E' := Y) m w = (Ok r, w') -> m w = (r, w').
Proof. unfold attempt. destruct (m w). by intros [= <- <-]. Qed.

Lemma lift_ok {A} (r : result BuildError A) w a w' : lift r w = (Ok a, w') -> r = Ok a /\ w' = w.
Proof. destruct r; [by intros [= <- <-]|done]. Qed.

(** A file in a tree that hashes to [sha]. *)
Definition verified (p : path) (sha : list Z) (n : Node) : Prop := exists bytes, file_at p n = Some bytes /\ sha256_hex bytes = sha.

Variables (engine : path -> list (list Z) -> Build unit) (temp_dir : path) (pid : Z) (em : Ledgers).

(** A download is used only if it is the pinned one, whatever the container
    that fetched it, other processes and the host did: [fetch_verify] returns
    only with the wanted content in place. *)
Theorem fetch_verify_pinned nanos p url sha w w' :
  fetch_verify engine temp_dir pid em nanos p url sha w = (Ok tt, w') -> verified p sha (fs w').
Proof.
  unfold fetch_verify. intros (e & w1 & _ & Hk)%SE_bind_ok. apply SE_bind_ok in Hk as ([] & w2 & _ & Hk).
  apply SE_bind_ok in Hk as (got & w3 & Hg & Hk). apply io_of_ok, sha256_file_ok in Hg as (bytes & Hb & ->).
  case_bool_decide as Hne; [done|]. injection Hk as <-. exists bytes. done.
Qed.

Lemma embedded_kernel_config_ok kl c : embedded_kernel_config em kl = Ok c -> c = KERNEL_CONFIG em /\ sha256_hex c = config_sha256 kl.
Proof. unfold embedded_kernel_config. case_bool_decide as Hne; [done|]. intros [= <-]. split; [done|]. by destruct (decide (sha256_hex (KERNEL_CONFIG em) = config_sha256 kl)). Qed.

Lemma ensure_kernel_verified n0 n1 n2 cache_dir force w p w' :
  ensure_kernel engine temp_dir pid em n0 n1 n2 cache_dir force w = (Ok p, w') ->
  exists kl, embedded_kernel_lock em = Ok kl /\ p = cache_dir ++ [lit "kernel"; lit "vmlinux-" ++ version kl] /\
    sha256 kl <> [] /\ verified p (sha256 kl) (fs w').
Proof.
  unfold ensure_kernel. intros (kl & w1 & Hl & Hk)%SE_bind_ok. apply lift_ok in Hl as [Hl ->]. exists kl. split; [done|].
  apply SE_bind_ok in Hk as ([] & w2 & _ & Hk). rewrite <- (assoc_L (++)) in Hk. cbn [app] in Hk.
  set (out := cache_dir ++ [lit "kernel"; lit "vmlinux-" ++ version kl]) in *.
  case_bool_decide as Hs; [done|]. apply SE_bind_ok in Hk as (here & w3 & _ & Hk).
  apply SE_bind_ok in Hk as (present & w4 & Hp & Hk). destruct present.
  - injection Hk as <- <-. split_and!; [done..|]. destruct here; [|done].
    apply SE_bind_ok in Hp as (r & w5 & Hr & Hp). apply attempt_ok in Hr. injection Hp as Hp <-.
    destruct r as [got|e]; [|done]. apply bool_decide_eq_true in Hp as ->. apply sha256_file_ok in Hr as (bytes & Hb & Hh).
    by exists bytes.
  - apply SE_bind_ok in Hk as (config & w5 & _ & Hk). apply SE_bind_ok in Hk as ([] & w6 & _ & Hk).
    apply SE_bind_ok in Hk as (got & w7 & Hg & Hk). apply io_of_ok, sha256_file_ok in Hg as (bytes & Hb & ->).
    case_bool_decide as Hne; [done|]. injection Hk as <- <-. split_and!; [done..|]. exists bytes. done.
Qed.

(** With a configuration that is not the recorded one the engine has no part
    in it, and a build that is forced fails. *)
Lemma ensure_kernel_wrong_config engine' n0 n1 n2 cache_dir force w kl :
  embedded_kernel_lock em = Ok kl -> sha256_hex (KERNEL_CONFIG em) <> config_sha256 kl ->
  ensure_kernel engine temp_dir pid em n0 n1 n2 cache_dir force w = ensure_kernel engine' temp_dir pid em n0 n1 n2 cache_dir force w /\
  (force = true -> exists e, (ensure_kernel engine temp_dir pid em n0 n1 n2 cache_dir force w).1 = Err e).
Proof.
  intros Hl Hc. assert (He : exists e, embedded_kernel_config em kl = Err e).
  { destruct (embedded_kernel_config em kl) as [c|e] eqn:E; [|by eexists]. by apply embedded_kernel_config_ok in E as [-> ?]. }
  destruct He as [e He]. unfold ensure_kernel. rewrite Hl. cbn [lift]. unfold mbind, SE_bind. cbn [mret SE_ret].
  destruct (io (create_dir_all _) w) as [[[]|e1] w1]; [|split; [done|by eexists]].
  destruct (bool_decide (sha256 kl = [])); [split; [done|by eexists]|]. rewrite He. destruct force.
  - split; [done|]. intros _. by eexists.
  - split; [|done]. destruct (io (path_exists _) w1) as [[[]|e2] w2]; [|done..].
    destruct (attempt _ w2) as [[[got|e3]|e3] w3]; [|done..]. cbn. by destruct (bool_decide (got = sha256 kl)).
Qed.

(** C22: The kernel a bake uses is the pinned one, and a configuration that is
    not the recorded one is caught before anything is built.  Whatever the
    container built and other processes do, [ensure_kernel] returns only a path where the file has the hash of the
    embedded ledger; and when the embedded configuration is not the one whose
    hash the ledger records, no container is started at all, to compile or to
    fetch: the outcome is the same whatever the engine is, a kernel that was
    there and verified or an error, and an error when a build is forced. *)
Theorem ensure_kernel_pinned n0 n1 n2 cache_dir force w :
  match ensure_kernel engine temp_dir pid em n0 n1 n2 cache_dir force w with
  | (Ok p, w') => exists kl, embedded_kernel_lock em = Ok kl /\ p = cache_dir ++ [lit "kernel"; lit "vmlinux-" ++ version kl] /\
      sha256 kl <> [] /\ verified p (sha256 kl) (fs w')
  | (Err _, _) => True
  end /\
  forall kl, embedded_kernel_lock em = Ok kl -> sha256_hex (KERNEL_CONFIG em) <> config_sha256 kl ->
    (forall engine', ensure_kernel engine' temp_dir pid em n0 n1 n2 cache_dir force w = ensure_kernel engine temp_dir pid em n0 n1 n2 cache_dir force w) /\
    (force = true -> exists e, (ensure_kernel engine temp_dir pid em n0 n1 n2 cache_dir force w).1 = Err e).
Proof.
  split.
  - destruct (ensure_kernel _ _ _ _ _ _ _ _ _ w) as [[p|e] w'] eqn:E; [|done]. by eapply ensure_kernel_verified.
  - intros kl Hl Hc. split; [|by apply (ensure_kernel_wrong_config engine _ _ _ _ _ _ kl)].
    intros engine'. symmetry. by apply (ensure_kernel_wrong_config engine' _ _ _ _ _ _ kl).
Qed.
End verified.

(** ** The embedded sources are hashed as a checkout would be *)

Section embedded.
Context {H : Type} `{Sha256 H}.
Variables (em : Ledgers) (prefix : list Z).

Lemma bytes_leb_app p a b : bytes_leb (p ++ a) (p ++ b) = bytes_leb a b.
Proof. induction p as [|x p IH]; [done|]. cbn. rewrite Z.ltb_irrefl, Z.eqb_refl. exact IH. Qed.

Lemma strip_prefix_Some p s r : strip_prefix p s = Some r -> s = p ++ r.
Proof. unfold strip_prefix. case_bool_decide as E; [|done]. intros [= <-]. rewrite <- E at 1. by rewrite take_drop. Qed.

Definition path_lt (a b : list Z * list Z) : Prop := bytes_leb a.1 b.1 = true /\ a.1 <> b.1.

Lemma embedded_entries_sorted : StronglySorted path_lt (AGENT_SRC em) -> StronglySorted path_lt (embedded_entries em prefix).
Proof.
  unfold embedded_entries. induction 1 as [|[p b] l Hl IH Hp]; cbn; [constructor|].
  destruct (strip_prefix prefix p) as [r|] eqn:Er; [|exact IH]. cbn. constructor; [exact IH|].
  apply Forall_forall. intros [r' b'] Hin. apply list_elem_of_omap in Hin as ([p' c] & Hin & Hs).
  cbn in Hs. destruct (strip_prefix prefix p') as [q|] eqn:Eq; [|done]. injection Hs as -> ->.
  rewrite Forall_forall in Hp. destruct (Hp _ Hin) as [Hle Hne]. cbn in Hle, Hne.
  apply strip_prefix_Some in Er as ->, Eq as ->. rewrite bytes_leb_app in Hle. split; [done|]. cbn. congruence.
Qed.

(** The identity of the embedded agent sources is the hash of the checkout
    they came from: over a table sorted by path, [embedded_tree_hash] of a
    subtree is [tree_hash] of any directory that shows the same files. *)
Theorem embedded_tree_hash_agrees d t ex h :
  StronglySorted path_lt (AGENT_SRC em) -> is_directory t = true ->
  seen ex t ≡ₚ (fun e => (e.1, Ok e.2)) <$> embedded_entries em prefix ->
  tree_hash d (Some t) ex = Some (Ok h) -> embedded_tree_hash em prefix = h.
Proof.
  intros Hs Hd Hp Ht. apply tree_hash_seen in Ht as (cs & Hc & ->); [|done].
  assert (Hcs : embedded_entries em prefix ≡ₚ cs).
  { rewrite Hp in Hc. apply (fmap_Permutation (fun c => match c.2 with Ok b => (c.1, b) | Err _ => (c.1, []) end)) in Hc.
    rewrite <- !list_fmap_compose in Hc. unfold compose in Hc. cbn in Hc. by rewrite !pairs_same in Hc. }
  unfold embedded_tree_hash, digest. f_equal.
  rewrite (merge_sort_unique _ ((fun c => (c.1, sha256_hex c.2)) <$> embedded_entries em prefix)) by (by rewrite Hcs).
  rewrite merge_sort_sorted; [by rewrite <- list_fmap_compose|].
  pose proof (embedded_entries_sorted Hs) as Hss. clear -Hss. induction Hss as [|[p b] l _ IH Hl]; [constructor|]. rewrite fmap_cons. constructor; [exact IH|].
  apply Forall_fmap. eapply Forall_impl; [exact Hl|]. intros [p' b'] [Hle Hne]. cbn in *. unfold pair_le. cbn. by rewrite bool_decide_false.
Qed.
End embedded.

(** ** Examples *)

Definition demo_lock : KernelLock := {|
  version := lit "6.1.128"; sha256 := hex (lit "vmlinux"); config_sha256 := hex (lit "cfg"); source_url := lit "https://cdn.kernel.org/x.tar.xz";
  source_sha256 := lit "874d"; builder_image := lit "debian:bookworm"; builder_digest := lit "sha256:63a4" |}.

Definition demo_pin : list Z := lit "# pin" ++ LF :: lit "BUILDER_IMAGE=docker.io/rust" ++ LF :: lit " BUILDER_DIGEST = sha256:b348 " ++ [LF].

Definition demo_ledgers : Ledgers := {|
  ROOTFS_BUILDER_LOCK := demo_pin; AGENT_IMAGES_LOCK := demo_pin; ENGINE_LOCK := lit "COMPOSE_VERSION=v5";
  KERNEL_LOCK := kernel_lock_body demo_lock; KERNEL_CONFIG := lit "cfg";
  AGENT_SRC := [(lit "Cargo.lock", [1]); (lit "tdvmm-agent/src/main.rs", [2])]; ROOT_MANIFEST := [3] |}.

Example demo_pins : agent_builder_pin demo_ledgers = Ok (lit "docker.io/rust", lit "sha256:b348").
Proof. by vm_compute. Qed.

Example demo_pin_missing : compose_engine_pin demo_ledgers = Err (Msg (lit "compose-engine.lock missing COMPOSE_VERSION / COMPOSE_SHA256")).
Proof. by vm_compute. Qed.

Lemma kernel_lock_roundtrip_witness : parse_kernel_lock (kernel_lock_body demo_lock) (lit "kernel.lock") = Ok demo_lock.
Proof. apply kernel_lock_roundtrip; [apply (bool_decide_unpack _); vm_compute; reflexivity|discriminate]. Defined.

(** A container that leaves what it is told at the path it is told. *)
Definition demo_engine (out : path) (bytes : list Z) (conf : path) (args : list (list Z)) : Build unit := io (write out bytes).

Definition demo_start (ts : list Turn) : World :=
  {| fs := Dir (list_to_map [(lit "c", Dir ∅); (lit "tmp", Dir ∅)]); turns := ts; steps := [] |}.

Definition demo_download : path := [lit "c"; lit "downloads"; lit "x"].

Lemma fetch_verify_pinned_witness :
  let m := fetch_verify (H := list Z) (demo_engine demo_download [1; 2]) [lit "tmp"] 1 demo_ledgers 5 demo_download (lit "u") (hex [1; 2]) (demo_start []) in
  m.1 = Ok tt /\ verified (H := list Z) demo_download (hex [1; 2]) (fs m.2).
Proof.
  intros m. assert (Hm : m.1 = Ok tt) by (vm_compute; reflexivity). split; [exact Hm|].
  apply (fetch_verify_pinned (H := list Z) (demo_engine demo_download [1; 2]) [lit "tmp"] 1 demo_ledgers 5 demo_download (lit "u") (hex [1; 2]) (demo_start [])).
  change (m = (Ok tt, m.2)). rewrite <- Hm. apply surjective_pairing.
Defined.

(** A container that builds the kernel: what it leaves in its work directory. *)
Definition demo_engine_run (conf : path) (args : list (list Z)) : Build unit :=
  io (write (if bool_decide (lit "wget" ∈ args) then [lit "c"; lit "kernel-src"; lit "linux-6.1.128.tar.xz"]
             else scratch_dir [lit "tmp"] 1 7 ++ [lit "vmlinux-out"])
            (if bool_decide (lit "wget" ∈ args) then [135; 77] else lit "vmlinux")).

Definition demo_kernel_run :=
  ensure_kernel (H := list Z) demo_engine_run [lit "tmp"] 1 demo_ledgers 5 6 7 [lit "c"] false (demo_start []).

(** The same ledgers with another configuration embedded. *)
Definition edited_ledgers : Ledgers := {|
  ROOTFS_BUILDER_LOCK := demo_pin; AGENT_IMAGES_LOCK := demo_pin; ENGINE_LOCK := lit "COMPOSE_VERSION=v5";
  KERNEL_LOCK := kernel_lock_body demo_lock; KERNEL_CONFIG := lit "edited";
  AGENT_SRC := []; ROOT_MANIFEST := [] |}.

Definition idle_engine (conf : path) (args : list (list Z)) : Build unit := mret tt.

Lemma ensure_kernel_pinned_witness :
  verified (H := list Z) [lit "c"; lit "kernel"; lit "vmlinux-6.1.128"] (hex (lit "vmlinux")) (fs demo_kernel_run.2) /\
  exists e, (ensure_kernel (H := list Z) idle_engine [lit "tmp"] 1 edited_ledgers 5 6 7 [lit "c"] true (demo_start [])).1 = Err e.
Proof.
  split.
  - assert (Hm : demo_kernel_run.1 = Ok [lit "c"; lit "kernel"; lit "vmlinux-6.1.128"]) by (vm_compute; reflexivity).
    destruct (ensure_kernel_pinned (H := list Z) demo_engine_run [lit "tmp"] 1 demo_ledgers 5 6 7 [lit "c"] false (demo_start [])) as [Hok _].
    fold demo_kernel_run in Hok. destruct demo_kernel_run as [r w']. cbn [fst snd] in *. subst r.
    destruct Hok as (kl & Hl & _ & _ & Hv). vm_compute in Hl. injection Hl as <-. exact Hv.
  - destruct (ensure_kernel_pinned (H := list Z) idle_engine [lit "tmp"] 1 edited_ledgers 5 6 7 [lit "c"] true (demo_start [])) as [_ Hbad].
    destruct (Hbad demo_lock) as [_ He]; [vm_compute; reflexivity|vm_compute; discriminate|]. by apply He.
Defined.

(** Two builders without an agent in the cache.  The second looks after the
    first has renamed the binary into place and before it has written its
    hash beside it: it takes the entry for a corrupt one and deletes it. *)
Definition demo_agent (ts : list Turn) (n : Node) : option (result BuildError (path * list Z) * World) :=
  m ← ensure_agent (H := list Z) (demo_engine (scratch_dir [lit "tmp"] 1 7 ++ [lit "tdvmm-agent"]) [127; 69])
        [lit "tmp"] 1 demo_ledgers 5 6 7 9 [lit "c"];
  Some (m {| fs := n; turns := ts; steps := [] |}).

Definition quiet_turn : Turn := {| others := id; outcome := None |}.

Example demo_agent_built :
  (fun m => match m.1 with Ok (p, _) => file_at p (fs m.2) | Err _ => None end) <$> demo_agent [] (fs (demo_start [])) = Some (Some [127; 69]).
Proof. by vm_compute. Qed.

Definition demo_cached : path :=
  [lit "c"; lit "agent"; lit "tdvmm-agent-" ++ default [] (agent_build_key (H := list Z) demo_ledgers)].

(** The call of the second builder that matters: [remove_file] of the binary. *)
Definition drop_cached (n : Node) : Node := default n (put demo_cached None n).

Definition demo_first : option (result BuildError (path * list Z) * World) :=
  demo_agent (replicate 20 quiet_turn ++ [{| others := drop_cached; outcome := None |}]) (fs (demo_start [])).

(** The tree after the first builder's rename. *)
Definition demo_renamed : Node := default (Dir ∅) (demo_first ≫= fun m => steps m.2 !! 2%nat ≫= fun s => Some s.2).

(** Two builds at once on a cold cache can fail: [ensure_agent] returns the path
    of a binary that the other has just deleted, one call of it having come
    between the rename and the write of the hash. *)
Theorem ensure_agent_race :
  match demo_first with
  | Some (Ok (p, _), w) => p = demo_cached /\ file_at demo_cached (fs w) = None
  | _ => False
  end /\
  match demo_agent [] demo_renamed with
  | Some (_, w) => steps w !! 22%nat = Some (demo_renamed, drop_cached demo_renamed)
  | None => False
  end.
Proof. vm_compute. repeat split. Qed.

Lemma embedded_tree_hash_agrees_witness :
  let t := Directory 493 (Ok [Ok (lit "src", Directory 493 (Ok [Ok (lit "main.rs", Regular 420 (Ok [2]))]))]) in
  exists h, tree_hash (H := list Z) (lit "/agent") (Some t) [lit "agent.lock"] = Some (Ok h) /\
    embedded_tree_hash (H := list Z) demo_ledgers (lit "tdvmm-agent/") = h.
Proof.
  intros t. eexists. split; [vm_compute; reflexivity|].
  apply (embedded_tree_hash_agrees (H := list Z) demo_ledgers (lit "tdvmm-agent/") (lit "/agent") t [lit "agent.lock"]).
  - repeat constructor; vm_compute; congruence.
  - reflexivity.
  - vm_compute. reflexivity.
  - vm_compute. reflexivity.
Defined.
