(* ===== verification/Images.v ===== *)
(** * Baking the images ([src/src/build/images.rs])

    [bake_all] is a pool of threads over one atomic index, here a step relation
    any schedule of which ends with the outputs in the order of the inputs.
    [bake_one] drives the container engine, a parameter. *)

From Stdlib Require Import ZArith Lia.
From stdpp Require Import base numbers strings gmap sets list sorting.
From S2P Require Import Prelude.
From S2P Require Import Text.
From S2P Require Import Lines.
From S2P Require Import Utf8.
From S2P Require Import Tar.
From S2P Require Import Files.
From S2P Require Import TreeHash.
From S2P Require Import Cache.
From S2P Require Import Pinned.

Open Scope Z_scope.

(** ** Names *)

(** [echo ref | sed -E 's#[@:].*$##; s#.*/##']. *)
Fixpoint cut_at (s : list Z) : list Z :=
  match s with
  | [] => []
  | b :: s => if (b =? 64) || (b =? 58) then [] else b :: cut_at s
  end.

Definition squash_base_name (reff : list Z) : list Z :=
  let '(c, cs) := split_char 47 (cut_at reff) in default c (last cs).

Definition is_ascii_hexdigit (b : Z) : bool :=
  ((48 <=? b) && (b <=? 57)) || ((65 <=? b) && (b <=? 70)) || ((97 <=? b) && (b <=? 102)).

(** The length of the run of hex digits a text begins with. *)
Fixpoint hex_run (s : list Z) : nat :=
  match s with b :: s => if is_ascii_hexdigit b then S (hex_run s) else O | [] => O end.

(** The outer loop; every turn takes at least a byte. *)
Fixpoint first_hex64 (fuel : nat) (s : list Z) : option (list Z) :=
  match fuel, s with
  | S fuel, b :: s' =>
      if is_ascii_hexdigit b then
        let n := hex_run s in
        if (64 <=? n)%nat then Some (take 12 s) else first_hex64 fuel (drop n s)
      else first_hex64 fuel s'
  | _, _ => None
  end.

Record ImgRecord := {
  r_key : list Z; r_upstream : list Z; r_policy : list Z; r_content_id : list Z; r_size_mib : Z; r_pinned : list Z;
}.

Record BakedImage := {
  b_record : ImgRecord;
  b_plain : option (list Z * list Z);
  b_squash : option (list Z * list Z * path);
}.

Section names.
Context {H : Type} `{Sha256 H}.

Definition squash_short (reff : list Z) : list Z :=
  match first_hex64 (length reff) reff with Some s => s | None => take 12 (sha256_hex reff) end.

Definition squash_tag (reff : list Z) : list Z :=
  lit "localhost/tdvmm-" ++ squash_base_name reff ++ 45 :: squash_short reff ++ lit ":baked".
End names.

(** ** The pool *)

Section pool.
Context {B : Type}.
(** What baking the image at an index gives, or the error it ends with. *)
Variable bake : nat -> result (list Z) B.
Variable images : list (list Z).

Inductive Worker :=
  | Idle (done : list (nat * B))
  | Baking (i : nat) (done : list (nat * B))
  | Ended (haul : result (list Z) (list (nat * B))).

Record Pool := { next : nat; workers : list Worker }.

(** [next.fetch_add(1)], and the image at the index or the end of the loop. *)
Definition claim (p : Pool) (w : nat) (done : list (nat * B)) : Pool :=
  {| next := S (next p);
     workers := <[w := match images !! next p with Some _ => Baking (next p) done | None => Ended (Ok done) end]> (workers p) |}.

(** The end of a bake: its output is kept, or the worker ends with its error. *)
Definition baked (p : Pool) (w i : nat) (done : list (nat * B)) : Pool :=
  {| next := next p;
     workers := <[w := match bake i with Ok b => Idle (done ++ [(i, b)]) | Err e => Ended (Err e) end]> (workers p) |}.

Inductive pool_step : Pool -> Pool -> Prop :=
  | step_claim p w done : workers p !! w = Some (Idle done) -> pool_step p (claim p w done)
  | step_baked p w i done : workers p !! w = Some (Baking i done) -> pool_step p (baked p w i done).

Definition pool_start (parallelism : nat) : Pool :=
  {| next := 0; workers := replicate (Nat.min parallelism (length images)) (Idle []) |}.

(** What the joins give: every worker's haul. *)
Fixpoint hauls (ws : list Worker) : option (list (result (list Z) (list (nat * B)))) :=
  match ws with
  | [] => Some []
  | Ended h :: ws => (h ::.) <$> hauls ws
  | _ => None
  end.

(** [slots[i] = Some(baked)]; [None] is a panic. *)
Fixpoint fill (slots : list (option B)) (l : list (nat * B)) : option (list (option B)) :=
  match l with
  | [] => Some slots
  | (i, b) :: l => if (i <? length slots)%nat then fill (<[i := Some b]> slots) l else None
  end.

Fixpoint fill_all (slots : list (option B)) (hs : list (result (list Z) (list (nat * B)))) : option (result (list Z) (list (option B))) :=
  match hs with
  | [] => Some (Ok slots)
  | Err e :: _ => Some (Err e)
  | Ok l :: hs => slots ← fill slots l; fill_all slots hs
  end.

Fixpoint full_slots (i : Z) (slots : list (option B)) : result (list Z) (list B) :=
  match slots with
  | [] => Ok []
  | None :: _ => Err (lit "image bake dropped slot " ++ dec i)
  | Some b :: slots => bs ← full_slots (i + 1) slots; Ok (b :: bs)
  end.

(** The rest of [bake_all], after the joins. *)
Definition merge (hs : list (result (list Z) (list (nat * B)))) : option (result (list Z) (list B)) :=
  r ← fill_all (replicate (length images) None) hs;
  Some (slots ← r; full_slots 0 slots).
End pool.
Arguments Worker : clear implicits.
Arguments Pool : clear implicits.

Section pool_proofs.
Context {B : Type}.
Variable bake : nat -> result (list Z) B.
Variable images : list (list Z).

Abbreviation n := (length images).
Abbreviation step := (pool_step bake images).

(** The indices a worker has taken, and what it knows of them. *)
Definition taken (w : Worker B) : list nat :=
  match w with
  | Idle done => done.*1
  | Baking i done => i :: done.*1
  | Ended (Ok done) => done.*1
  | Ended (Err _) => []
  end.

Definition outputs_of (w : Worker B) : list (nat * B) :=
  match w with Idle done | Baking _ done | Ended (Ok done) => done | Ended (Err _) => [] end.

Definition worker_ok (p : Pool B) (w : Worker B) : Prop :=
  Forall (fun d => (d.1 < n)%nat /\ bake d.1 = Ok d.2) (outputs_of w) /\
  match w with
  | Idle _ => True
  | Baking i _ => (i < n)%nat
  | Ended (Ok _) => (n <= next p)%nat
  | Ended (Err e) => exists i, (i < n)%nat /\ bake i = Err e
  end.

Definition failed (p : Pool B) : Prop := exists w e, workers p !! w = Some (Ended (Err e)).

(** Every index claimed is some worker's, once, unless a worker failed. *)
Record pool_inv (p : Pool B) : Prop := {
  pi_workers : Forall (worker_ok p) (workers p);
  pi_taken : failed p \/ concat (taken <$> workers p) ≡ₚ seq 0 (Nat.min (next p) n);
}.

Lemma concat_insert (f : Worker B -> list nat) ws w x y : ws !! w = Some x ->
  concat (f <$> <[w := y]> ws) ++ f x ≡ₚ concat (f <$> ws) ++ f y.
Proof.
  revert w. induction ws as [|z ws IH]; intros [|w] Hw; try done.
  - injection Hw as ->. cbn. rewrite <- !(assoc_L (++)). rewrite (Permutation_app_comm (f y)), (Permutation_app_comm (f x)), <- !(assoc_L (++)).
    apply Permutation_app_head, Permutation_app_comm.
  - cbn. rewrite <- !(assoc_L (++)). by rewrite (IH w).
Qed.

Lemma concat_insert_cons (f : Worker B -> list nat) ws w x y (l : list nat) : ws !! w = Some x -> f y ≡ₚ l ++ f x ->
  concat (f <$> <[w := y]> ws) ≡ₚ l ++ concat (f <$> ws).
Proof.
  intros Hw Hf. pose proof (concat_insert f ws w x y Hw) as Hc. rewrite Hf in Hc.
  apply (Permutation_app_inv_r (f x)). rewrite Hc, !(assoc_L (++)). apply Permutation_app_tail, Permutation_app_comm.
Qed.

Lemma worker_ok_mono p p' w : (next p <= next p')%nat -> worker_ok p w -> worker_ok p' w.
Proof. intros Hn [Ho Hw]. split; [done|]. destruct w as [|?|[]]; try done. lia. Qed.

Lemma pool_start_inv k : pool_inv (pool_start images k).
Proof.
  split; cbn.
  - apply Forall_replicate. split; [constructor|done].
  - right. induction (Nat.min k n) as [|m IH]; [done|]. exact IH.
Qed.

Lemma pool_step_inv p p' : step p p' -> pool_inv p -> pool_inv p'.
Proof.
  intros Hs [Hw Ht]. destruct Hs as [p w done Hl|p w i done Hl]; assert (Hok := Hw); rewrite Forall_lookup in Hok; specialize (Hok _ _ Hl) as [Ho Hi].
  - split; unfold claim, baked; cbn [next workers].
    + apply Forall_insert; [eapply Forall_impl; [exact Hw|]; intros x; apply worker_ok_mono; cbn [next]; lia|].
      destruct (images !! next p) as [im|] eqn:Ei; split; try exact Ho; cbn [next].
      * by apply lookup_lt_Some in Ei.
      * apply lookup_ge_None in Ei. lia.
    + destruct Ht as [(w' & e & He)|Ht].
      { left. exists w', e. cbn [workers]. rewrite list_lookup_insert_ne; [done|]. intros ->. congruence. }
      right. destruct (images !! next p) as [im|] eqn:Ei.
      * apply lookup_lt_Some in Ei. rewrite (concat_insert_cons taken _ _ _ (Baking (next p) done) [next p] Hl) by done.
        rewrite Ht. replace (Nat.min (S (next p)) n) with (S (Nat.min (next p) n)) by lia. rewrite seq_S.
        replace (0 + Nat.min (next p) n)%nat with (next p) by lia. apply Permutation_app_comm.
      * apply lookup_ge_None in Ei. rewrite (concat_insert_cons taken _ _ _ (Ended (Ok done)) [] Hl) by done.
        cbn [app]. rewrite Ht. by replace (Nat.min (S (next p)) n) with (Nat.min (next p) n) by lia.
  - split; unfold claim, baked; cbn [next workers].
    + apply Forall_insert; [exact Hw|]. destruct (bake i) as [b|e] eqn:Eb; split; cbn [outputs_of]; try done.
      * apply Forall_app. split; [done|]. by constructor.
      * by exists i.
    + destruct Ht as [(w' & e & He)|Ht].
      { left. exists w', e. cbn [workers]. rewrite list_lookup_insert_ne; [done|]. intros ->. congruence. }
      destruct (bake i) as [b|e] eqn:Eb.
      * right. rewrite (concat_insert_cons taken _ _ _ (Idle (done ++ [(i, b)])) [] Hl); [done|].
        cbn [taken app]. rewrite fmap_app. apply Permutation_app_comm.
      * left. exists w, e. cbn [workers]. rewrite list_lookup_insert_eq; [done|]. by apply lookup_lt_Some in Hl.
Qed.

Lemma pool_reaches_inv k p : rtc step (pool_start images k) p -> pool_inv p.
Proof.
  assert (Hr : forall q, rtc step q p -> pool_inv q -> pool_inv p) by (induction 1; eauto using pool_step_inv).
  intros Hp. apply (Hr _ Hp), pool_start_inv.
Qed.

Lemma pool_length q p : rtc step q p -> length (workers p) = length (workers q).
Proof.
  induction 1 as [|q q1 q2 Hs _ IH]; [done|]. rewrite IH. by destruct Hs; unfold claim, baked; cbn; rewrite length_insert.
Qed.

(** *** The slots *)

Definition slots_ok (slots : list (option B)) : Prop :=
  length slots = n /\ forall i b, slots !! i = Some (Some b) -> bake i = Ok b.

Lemma fill_spec l : forall slots, Forall (fun d => (d.1 < n)%nat /\ bake d.1 = Ok d.2) l -> slots_ok slots ->
  exists slots', fill slots l = Some slots' /\ slots_ok slots' /\
    (forall i, i ∈ l.*1 -> exists b, slots' !! i = Some (Some b)) /\
    (forall i b, slots !! i = Some (Some b) -> exists b, slots' !! i = Some (Some b)).
Proof.
  induction l as [|[i b] l IH]; intros slots Hl Hs; cbn [fill].
  { exists slots. split_and!; [done|done|by intros i ?%not_elem_of_nil|by intros i b Hb; exists b]. }
  apply Forall_cons in Hl as [[Hi Hb] Hl]. cbn in Hi, Hb. destruct Hs as [Hlen Hs].
  rewrite (proj2 (Nat.ltb_lt i (length slots))) by lia.
  destruct (IH (<[i := Some b]> slots) Hl) as (slots' & Hf & Hok & Hin & Hkeep).
  { split; [by rewrite length_insert|]. intros j b'. destruct (decide (i = j)) as [<-|Hne].
    - rewrite list_lookup_insert_eq by lia. by intros [= <-].
    - rewrite list_lookup_insert_ne by done. apply Hs. }
  exists slots'. split_and!; [done|done| |].
  - intros j [->|Hj]%elem_of_cons; [|by apply Hin]. apply (Hkeep i b). apply list_lookup_insert_eq. lia.
  - intros j b' Hj. destruct (decide (i = j)) as [<-|Hne].
    + apply (Hkeep i b). apply list_lookup_insert_eq. lia.
    + apply (Hkeep j b'). by rewrite list_lookup_insert_ne.
Qed.

Lemma hauls_ended (ws : list (Worker B)) hs : hauls ws = Some hs -> ws = Ended <$> hs.
Proof.
  revert hs. induction ws as [|w ws IH]; intros hs; cbn [hauls]; [by intros [= <-]|].
  destruct w as [| |h]; [done..|]. destruct (hauls ws) as [hs'|]; [|done]. intros [= <-]. by rewrite (IH hs' eq_refl).
Qed.

Lemma fill_all_spec p hs : forall slots, Forall (worker_ok p) (Ended <$> hs) -> slots_ok slots ->
  match fill_all slots hs with
  | Some (Ok slots') => slots_ok slots' /\ (forall h, h ∈ hs -> exists l, h = Ok l) /\
      (forall i, i ∈ concat (taken <$> (Ended <$> hs)) \/ (exists b, slots !! i = Some (Some b)) -> exists b, slots' !! i = Some (Some b))
  | Some (Err e) => exists i, (i < n)%nat /\ bake i = Err e
  | None => False
  end.
Proof.
  induction hs as [|h hs IH]; intros slots Hw Hs; cbn [fill_all].
  { split_and!; [done|by intros h ?%not_elem_of_nil|]. intros i [Hi|Hi]; [by apply not_elem_of_nil in Hi|done]. }
  rewrite fmap_cons in Hw. apply Forall_cons in Hw as [[Ho He] Hw]. destruct h as [l|e]; [|done].
  destruct (fill_spec l slots Ho Hs) as (slots' & Hf & Hok & Hin & Hkeep). rewrite Hf. cbn [mbind option_bind].
  specialize (IH slots' Hw Hok). destruct (fill_all slots' hs) as [[slots''|e]|]; [|done..].
  destruct IH as (Hok' & Hall & Hcov). split_and!; [done| |].
  - intros h [->|Hh]%elem_of_cons; [by exists l|by apply Hall].
  - intros i Hi. apply Hcov. destruct Hi as [Hi|[b Hb]]; [|right; by apply (Hkeep i b)].
    cbn in Hi. apply elem_of_app in Hi as [Hi|Hi]; [right; by apply Hin|by left].
Qed.

Lemma full_slots_spec (slots : list (option B)) k : (forall i, (i < length slots)%nat -> exists b, slots !! i = Some (Some b)) ->
  exists bs, full_slots k slots = Ok bs /\ slots = Some <$> bs.
Proof.
  revert k. induction slots as [|o slots IH]; intros k Hs; [by exists []|].
  destruct (Hs O ltac:(cbn; lia)) as [b Hb]. injection Hb as ->.
  destruct (IH (k + 1)) as (bs & Hb & ->); [intros i Hi; apply (Hs (S i)); cbn; lia|].
  exists (b :: bs). cbn [full_slots]. by rewrite Hb.
Qed.

(** C25: Baking the images in parallel gives what baking them one by one gives:
    whatever the number of threads and the order of their steps, once all
    have ended [bake_all] returns the outputs in the order of the inputs if
    it returns them, and otherwise the error of a bake; no slot is dropped
    and no index is out of range. *)
Theorem bake_all_in_input_order k p hs :
  (0 < k)%nat -> rtc step (pool_start images k) p -> hauls (workers p) = Some hs ->
  match merge images hs with
  | Some (Ok outs) => length outs = n /\ (forall i b, outs !! i = Some b -> bake i = Ok b)
  | Some (Err e) => exists i, (i < n)%nat /\ bake i = Err e
  | None => False
  end.
Proof.
  intros Hk Hp Hh. pose proof (pool_reaches_inv k p Hp) as [Hw Ht].
  pose proof (hauls_ended _ _ Hh) as Hws. rewrite Hws in Hw, Ht. unfold merge.
  assert (Hlen : length hs = Nat.min k n).
  { rewrite <- (length_fmap (Ended (B := B))), <- Hws, (pool_length _ _ Hp). apply length_replicate. }
  pose proof (fill_all_spec p hs (replicate n None) Hw) as Hf.
  specialize (Hf ltac:(split; [apply length_replicate|intros i b Hb; by apply lookup_replicate in Hb as [? _]])).
  destruct (fill_all (replicate n None) hs) as [[slots|e]|]; [|done..].
  destruct Hf as ([Hsl Hok] & Hall & Hcov). unfold mbind, option_bind, result_bind.
  assert (Hcover : forall i, (i < length slots)%nat -> exists b, slots !! i = Some (Some b)).
  { intros i Hi. rewrite Hsl in Hi. apply Hcov. left. destruct Ht as [(w & e & He)|Ht].
    - rewrite Hws in He. apply list_lookup_fmap_Some in He as (h & [= <-] & Hh'). apply list_elem_of_lookup_2, Hall in Hh' as [l ?]. done.
    - rewrite Ht. apply elem_of_seq. destruct hs as [|h hs']; [cbn in Hlen; lia|].
      destruct (Hall h ltac:(left)) as [l ->]. rewrite fmap_cons in Hw. apply Forall_cons in Hw as [[_ Hn] _]. cbn in Hn. lia. }
  destruct (full_slots_spec slots 0 Hcover) as (bs & -> & ->). rewrite length_fmap in Hsl. split; [done|].
  intros i b Hb. apply Hok. by rewrite list_lookup_fmap, Hb.
Qed.

(** *** The pool ends *)

Definition work (w : Worker B) : nat := match w with Idle _ => 1 | Baking _ _ => 2 | Ended _ => 0 end%nat.

Definition measure (p : Pool B) : nat := (2 * (n - next p) + sum_list (work <$> workers p))%nat.

Lemma sum_insert ws w x y : ws !! w = Some x -> (sum_list (work <$> <[w := y]> ws) + work x = sum_list (work <$> ws) + work y)%nat.
Proof.
  revert w. induction ws as [|z ws IH]; intros [|w] Hw; try done; cbn.
  - injection Hw as ->. lia.
  - specialize (IH w Hw).
    change (work z + sum_list (work <$> <[w := y]> ws) + work x = work z + sum_list (work <$> ws) + work y)%nat. lia.
Qed.

Lemma pool_step_measure p p' : step p p' -> (measure p' < measure p)%nat.
Proof.
  unfold measure. destruct 1 as [p w done Hl|p w i done Hl]; unfold claim, baked; cbn [next workers].
  - destruct (images !! next p) as [im|] eqn:Ei.
    + apply lookup_lt_Some in Ei. pose proof (sum_insert _ _ _ (Baking (next p) done) Hl) as Hs. cbn [work] in Hs. lia.
    + pose proof (sum_insert _ _ _ (Ended (Ok done)) Hl) as Hs. cbn [work] in Hs. lia.
  - destruct (bake i) as [b|e].
    + pose proof (sum_insert _ _ _ (Idle (done ++ [(i, b)])) Hl) as Hs. cbn [work] in Hs. lia.
    + pose proof (sum_insert _ _ _ (Ended (Err e)) Hl) as Hs. cbn [work] in Hs. lia.
Qed.

Lemma pool_progress p : is_Some (hauls (workers p)) \/ exists p', step p p'.
Proof.
  assert (Hws : is_Some (hauls (workers p)) \/ exists w x, workers p !! w = Some x /\ match x with Ended _ => False | _ => True end).
  { induction (workers p) as [|w ws IH]; [left; by eexists|].
    destruct w as [d|i d|h]; [right; by exists O, (Idle d)|right; by exists O, (Baking i d)|]. cbn [hauls].
    destruct IH as [[hs ->]|(j & x & Hx & Hn)]; [left; by eexists|right; by exists (S j), x]. }
  destruct Hws as [?|(w & x & Hx & Hn)]; [by left|right]. destruct x as [d|i d|h]; [|..|done].
  - eexists. by apply (step_claim bake images p w d).
  - eexists. by apply (step_baked bake images p w i d).
Qed.

(** C26: The pool ends: no schedule takes more than two steps an image and one a
    thread, and until every thread has ended some thread can take one. *)
Theorem bake_all_terminates k m p :
  nsteps step m (pool_start images k) p ->
  (m <= 2 * n + Nat.min k n)%nat /\ (is_Some (hauls (workers p)) \/ exists p', step p p').
Proof.
  intros Hm. split; [|apply pool_progress].
  assert (Hb : forall q, nsteps step m q p -> (m + measure p <= measure q)%nat).
  { clear Hm. induction m as [|m IH]; intros q Hq; inversion Hq as [|? ? q' ? Hs Hr]; subst; [lia|].
    specialize (IH q' Hr). pose proof (pool_step_measure _ _ Hs). lia. }
  specialize (Hb _ Hm). assert (He : measure (pool_start images k) = (2 * n + Nat.min k n)%nat).
  { unfold measure, pool_start. cbn [next workers]. rewrite Nat.sub_0_r. f_equal.
    induction (Nat.min k n) as [|j IH]; [done|]. cbn in *. lia. }
  lia.
Qed.
End pool_proofs.

(** ** One image *)

(** [str::contains]. *)
Fixpoint contains (p s : list Z) : bool :=
  bool_decide (take (length p) s = p) || match s with [] => false | _ :: s => contains p s end.

Section baking.
Context {H : Type} `{Sha256 H}.

(** The engine's commands on a scratch store: for their effect, and for their
    output.  They may do anything to the files. *)
Variable podman : path -> path -> path -> list (list Z) -> Build unit.
Variable podman_output : path -> path -> path -> list (list Z) -> Build (list Z).

(** Some run of the engine with these arguments printed this. *)
Definition printed (args : list (list Z)) (out : list Z) : Prop :=
  exists bstore brun conf w w', podman_output bstore brun conf args w = (Ok out, w').

Definition inspect_canon (reff : list Z) : list (list Z) :=
  [lit "image"; lit "inspect"; reff; lit "--format"; lit "{{if .RepoDigests}}{{index .RepoDigests 0}}{{else}}{{.Id}}{{end}}"].

(** The canonical reference of an image: what was asked for when that has a
    digest, else what the engine says of it. *)
Definition canon_of (reff canon : list Z) : Prop :=
  if contains (lit "@sha256:") reff then canon = reff
  else exists out, printed (inspect_canon reff) out /\ canon = trim out.

(** [{{range .RootFS.Layers}}...] without white space. *)
Definition LAYERS : list Z := lit "{{range .RootFS.Layers}}{{println .}}{{end}}".

Definition image_mib (bstore brun conf : path) (reff : list Z) : Build Z :=
  s ← podman_output bstore brun conf [lit "image"; lit "inspect"; reff; lit "--format"; lit "{{.Size}}"];
  let bytes := match from_str_radix 64 10 (trim s) with Ok b => b | Err _ => 0 end in
  mret (bytes / 1048576).

Definition image_layers (bstore brun conf : path) (reff : list Z) : Build (list Z) :=
  s ← podman_output bstore brun conf [lit "image"; lit "inspect"; reff; lit "--format"; LAYERS];
  mret (squeeze s).

Definition GATE_FIELDS : list (list Z) := [lit "Entrypoint"; lit "Cmd"; lit "Env"; lit "Volumes"; lit "WorkingDir"].

Definition config_json (bstore brun conf : path) (f reff : list Z) : Build (list Z) :=
  podman_output bstore brun conf [lit "image"; lit "inspect"; reff; lit "--format"; lit "{{json .Config." ++ f ++ lit "}}"].

(** The config-equivalence gate. *)
Fixpoint config_gate (bstore brun conf : path) (reff tag : list Z) (fields : list (list Z)) : Build unit :=
  match fields with
  | [] => mret tt
  | f :: fields =>
      up ← config_json bstore brun conf f reff;
      sq ← config_json bstore brun conf f tag;
      if bool_decide (up <> sq) then fail (Msg (lit "GATE FAIL: Config." ++ f ++ lit " drifted during squash of " ++ reff))
      else config_gate bstore brun conf reff tag fields
  end.

Definition squash_tar (work : path) (idx : nat) : path := work ++ [lit "squash-" ++ dec (Z.of_nat idx) ++ lit ".tar"].

Definition bake_one (bstore brun conf : path) (reff : list Z) (squash_threshold_mib : Z) (idx : nat) (work : path) : Build BakedImage :=
  podman bstore brun conf [lit "pull"; lit "-q"; reff] ;;
  mib ← image_mib bstore brun conf reff;
  diffid ← image_layers bstore brun conf reff;
  if mib <=? squash_threshold_mib then
    canon ← (if contains (lit "@sha256:") reff then mret reff
             else s ← podman_output bstore brun conf [lit "image"; lit "inspect"; reff; lit "--format";
                        lit "{{if .RepoDigests}}{{index .RepoDigests 0}}{{else}}{{.Id}}{{end}}"];
                  mret (trim s));
    mret {| b_record := {| r_key := reff; r_upstream := reff; r_policy := lit "plain"; r_content_id := diffid;
                           r_size_mib := mib; r_pinned := reff |};
            b_plain := Some (reff, canon); b_squash := None |}
  else
    let tag := squash_tag reff in
    let ctx := work ++ [lit "ctx-" ++ dec (Z.of_nat idx)] in
    io (create_dir_all ctx) ;;
    io (write (ctx ++ [lit "Containerfile"]) (lit "FROM " ++ reff ++ [LF])) ;;
    podman bstore brun conf [lit "build"; lit "--squash-all"; lit "--pull=never"; lit "--timestamp"; BUILD_EPOCH; lit "-t"; tag; lit "-f";
                             display (ctx ++ [lit "Containerfile"]); display ctx] ;;
    config_gate bstore brun conf reff tag GATE_FIELDS ;;
    sq_diffid ← image_layers bstore brun conf tag;
    let tar := squash_tar work idx in
    podman bstore brun conf [lit "save"; lit "-o"; display tar; tag] ;;
    mret {| b_record := {| r_key := reff; r_upstream := reff; r_policy := lit "squash"; r_content_id := sq_diffid;
                           r_size_mib := mib; r_pinned := [] |};
            b_plain := None; b_squash := Some (reff, tag, tar) |}.

(** What a worker of the pool does with an index: its own store. *)
Definition bake_at (images : list (list Z)) (conf : path) (squash_threshold_mib : Z) (work : path) (i : nat) : Build (option BakedImage) :=
  match images !! i with
  | None => mret None
  | Some reff =>
      let bstore := work ++ [lit "build-storage-" ++ dec (Z.of_nat i)] in
      let brun := work ++ [lit "build-run-" ++ dec (Z.of_nat i)] in
      io (create_dir_all bstore) ;;
      io (create_dir_all brun) ;;
      b ← map_err (fun e => Msg (lit "baking " ++ reff ++ lit ": " ++ match e with Io e => io_text e | Msg m => m end))
            (bake_one bstore brun conf reff squash_threshold_mib i work);
      mret (Some b)
  end.

(** An image is baked one way or the other, by its size: a plain image is
    pinned as it is and saved nowhere, a larger one is squashed under a tag
    and into a file of its own, and its record waits for the seed's pin. *)
Lemma bake_one_policy bstore brun conf reff thr idx work w b w' :
  bake_one bstore brun conf reff thr idx work w = (Ok b, w') ->
  r_key (b_record b) = reff /\ r_upstream (b_record b) = reff /\
  ((r_policy (b_record b) = lit "plain" /\ r_size_mib (b_record b) <= thr /\ r_pinned (b_record b) = reff /\ b_squash b = None /\
    exists canon, b_plain b = Some (reff, canon) /\ canon_of reff canon) \/
   (r_policy (b_record b) = lit "squash" /\ thr < r_size_mib (b_record b) /\ r_pinned (b_record b) = [] /\ b_plain b = None /\
    b_squash b = Some (reff, squash_tag reff, squash_tar work idx))).
Proof.
  unfold bake_one. intros Hb. apply SE_bind_ok in Hb as ([] & w1 & _ & Hb). apply SE_bind_ok in Hb as (mib & w2 & _ & Hb).
  apply SE_bind_ok in Hb as (diffid & w3 & _ & Hb). destruct (mib <=? thr) eqn:Em; bool_prop.
  - apply SE_bind_ok in Hb as (canon & w4 & Hc & Hb). injection Hb as <- <-. split_and!; [done..|]. left. cbn [b_record b_plain b_squash r_policy r_size_mib r_pinned]. split_and!; [done..|].
    exists canon. split; [done|]. unfold canon_of. destruct (contains _ reff); [by injection Hc as <- _|].
    apply SE_bind_ok in Hc as (out & w5 & Ho & Hc). injection Hc as <- <-. exists out. split; [|done]. by exists bstore, brun, conf, w3, w5.
  - do 4 (apply SE_bind_ok in Hb as ([] & ? & _ & Hb)). apply SE_bind_ok in Hb as (sq & ? & _ & Hb).
    apply SE_bind_ok in Hb as ([] & ? & _ & Hb). injection Hb as <- <-. split_and!; [done..|]. right. cbn [b_record b_plain b_squash r_policy r_size_mib r_pinned]. split_and!; done.
Qed.
End baking.

(** ** Schedules *)

(** A schedule, each step the number of the worker that takes it. *)
Fixpoint run_schedule {B} (bake : nat -> result (list Z) B) (images : list (list Z)) (ws : list nat) (p : Pool B) : option (Pool B) :=
  match ws with
  | [] => Some p
  | w :: ws =>
      match workers p !! w with
      | Some (Idle done) => run_schedule bake images ws (claim images p w done)
      | Some (Baking i done) => run_schedule bake images ws (baked bake p w i done)
      | _ => None
      end
  end.

Lemma run_schedule_steps {B} (bake : nat -> result (list Z) B) images ws : forall p p',
  run_schedule bake images ws p = Some p' -> nsteps (pool_step bake images) (length ws) p p'.
Proof.
  induction ws as [|w ws IH]; intros p p'; cbn [run_schedule length]; [intros [= ->]; constructor|].
  destruct (workers p !! w) as [[d|i d|h]|] eqn:Ew; try done; intros Hr; (eapply nsteps_l; [|by apply IH]).
  - by apply step_claim.
  - by apply step_baked.
Qed.

Lemma run_schedule_rtc {B} (bake : nat -> result (list Z) B) images ws p p' :
  run_schedule bake images ws p = Some p' -> rtc (pool_step bake images) p p'.
Proof. intros Hr. eapply rtc_nsteps_2, run_schedule_steps, Hr. Qed.

(** Three images, two workers, the second image done first. *)
Definition demo_images : list (list Z) := [lit "a"; lit "b"; lit "c"].
Definition demo_schedule : list nat := [0; 1; 1; 1; 1; 0; 1; 0]%nat.
Definition demo_bake (i : nat) : result (list Z) Z := Ok (Z.of_nat i).
Definition demo_pool : option (Pool Z) := run_schedule demo_bake demo_images demo_schedule (pool_start demo_images 2).

Lemma bake_all_in_input_order_witness :
  exists p hs, demo_pool = Some p /\ hauls (workers p) = Some hs /\ merge demo_images hs = Some (Ok [0; 1; 2]) /\
  match merge demo_images hs with
  | Some (Ok outs) => length outs = 3%nat /\ (forall i b, outs !! i = Some b -> demo_bake i = Ok b)
  | Some (Err e) => exists i, (i < 3)%nat /\ demo_bake i = Err e
  | None => False
  end.
Proof.
  destruct demo_pool as [p|] eqn:Ep; [|vm_compute in Ep; discriminate]. exists p.
  destruct (hauls (workers p)) as [hs|] eqn:Eh; [|vm_compute in Ep; injection Ep as <-; vm_compute in Eh; discriminate].
  exists hs. split; [done|]. split; [done|]. split.
  - vm_compute in Ep. injection Ep as <-. vm_compute in Eh. injection Eh as <-. reflexivity.
  - apply (bake_all_in_input_order demo_bake demo_images 2 p hs); [lia|exact (run_schedule_rtc _ _ _ _ _ Ep)|exact Eh].
Defined.

Lemma bake_all_terminates_witness :
  exists p, demo_pool = Some p /\
  (length demo_schedule <= 2 * 3 + Nat.min 2 3)%nat /\ (is_Some (hauls (workers p)) \/ exists p', pool_step demo_bake demo_images p p').
Proof.
  destruct demo_pool as [p|] eqn:Ep; [|vm_compute in Ep; discriminate]. exists p. split; [done|].
  exact (bake_all_terminates demo_bake demo_images 2 (length demo_schedule) p (run_schedule_steps _ _ _ _ _ Ep)).
Defined.
