(* ===== verification/Ledger.v ===== *)
(** * From the images to the lock, the ledger and the manifest

    The ordered merge of the image outputs and the digests for the lock
    ([src/src/build/bake.rs]), the seed pins ([src/src/build/seed.rs]), the
    ledger [stack.lock] ([src/src/build/stack_lock.rs]) and the packing of the
    artifact ([src/src/build/pack.rs]).  A [HashMap] is iterated in an order
    that is an argument; the texts of the compose file are taken as they are.
    The images come from [bake_one] of [Images], and what the engine documents of
    the digests it prints is the class [EngineDigests]. *)

From Stdlib Require Import ZArith Lia.
From stdpp Require Import base numbers strings gmap sets list sorting.
From S2P Require Import Prelude.
From S2P Require Import Text.
From S2P Require Import Lines.
From S2P Require Import Utf8.
From S2P Require Import Tar.
From S2P Require Import Artifact.
From S2P Require Import Yaml.
From S2P Require Import YamlSpec.
From S2P Require Import Compose.
From S2P Require Import ComposeSpec.
From S2P Require Import Files.
From S2P Require Import TreeHash.
From S2P Require Import Cache.
From S2P Require Import Pinned.
From S2P Require Import Images.

Open Scope Z_scope.

(** ** The merge *)

Definition BUSYBOX_REF : list Z :=
  lit "docker.io/library/busybox@sha256:dc2d74b28e4cf8984fa52af1f39bc7c3d9c73760b41a74d629f5d11b1ab28616".

(** What the overlapped middle of the bake accumulates, in input order.  The
    sum stays far below 64 bits: a size is below [2 ^ 44]. *)
Record Bakes := {
  bk_records : list ImgRecord;
  bk_plain_refs : list (list Z);
  bk_plain_pin : gmap (list Z) (list Z);
  bk_squash_tars : list (list Z * list Z * path);
  bk_total_mib : Z;
}.

Definition bakes_new : Bakes :=
  {| bk_records := []; bk_plain_refs := []; bk_plain_pin := ∅; bk_squash_tars := []; bk_total_mib := 0 |}.

(** An image's output, or the self-test's. *)
Definition add_image (k : Bakes) (b : BakedImage) : Bakes :=
  {| bk_records := bk_records k ++ [b_record b];
     bk_plain_refs := match b_plain b with Some (reff, _) => bk_plain_refs k ++ [reff] | None => bk_plain_refs k end;
     bk_plain_pin := match b_plain b with Some (reff, canon) => <[reff := canon]> (bk_plain_pin k) | None => bk_plain_pin k end;
     bk_squash_tars := match b_squash b with Some t => bk_squash_tars k ++ [t] | None => bk_squash_tars k end;
     bk_total_mib := bk_total_mib k + r_size_mib (b_record b) |}.

(** A service build's. *)
Definition add_build (k : Bakes) (b : BakedImage) : Bakes :=
  {| bk_records := bk_records k ++ [b_record b];
     bk_plain_refs := bk_plain_refs k;
     bk_plain_pin := bk_plain_pin k;
     bk_squash_tars := match b_squash b with Some t => bk_squash_tars k ++ [t] | None => bk_squash_tars k end;
     bk_total_mib := bk_total_mib k + r_size_mib (b_record b) |}.

Definition merge_bakes (images builds : list BakedImage) (selftest : BakedImage) : Bakes :=
  add_image (fold_left add_build builds (fold_left add_image images bakes_new)) selftest.

Definition selftest_pin (k : Bakes) : list Z := default [] (bk_plain_pin k !! BUSYBOX_REF).

(** The pins of the images that went through the seed store. *)
Definition fill_pins (seedpins : gmap (list Z) (list Z)) (rs : list ImgRecord) : list ImgRecord :=
  (fun r => if bool_decide (r_policy r = lit "squash") || bool_decide (r_policy r = lit "build") then
              match seedpins !! r_key r with
              | Some pin => {| r_key := r_key r; r_upstream := r_upstream r; r_policy := r_policy r;
                               r_content_id := r_content_id r; r_size_mib := r_size_mib r; r_pinned := pin |}
              | None => r
              end
            else r) <$> rs.

(** The digests for the lock: the plain pins, then the seed pins in the order
    they are iterated in. *)
Definition lock_digests (k : Bakes) (seedpins : list (list Z * list Z)) : gmap (list Z) (list Z) :=
  fold_left (fun d e => <[e.1 := e.2]> d) seedpins
    (fold_left (fun d reff => match bk_plain_pin k !! reff with Some canon => <[reff := canon]> d | None => d end)
       (bk_plain_refs k) ∅).

(** ** The seed store ([cmd_seed_build]) *)

(** [str::rsplit_once]. *)
Fixpoint rsplit_once (c : Z) (s : list Z) : option (list Z * list Z) :=
  match s with
  | [] => None
  | b :: s => match rsplit_once c s with
              | Some (k, v) => Some (b :: k, v)
              | None => if b =? c then Some ([], s) else None
              end
  end.

(** The digest line of an image's own repository, or nothing. *)
Definition repo_of (local_tag : list Z) : list Z := match rsplit_once 58 local_tag with Some (r, _) => r | None => local_tag end.

Definition own_line (repo line : list Z) : bool := bool_decide (take (length repo + 1) line = repo ++ [64]).

Definition seed_pin (local_tag digests : list Z) : list Z :=
  default [] (find_first (own_line (repo_of local_tag)) (lines_of digests)).

Record SeedConfig := {
  sc_store : path; sc_runroot : path; sc_conf : path; sc_plains : list (list Z);
  sc_squash : list (list Z * list Z * path); sc_seedpins_out : path;
}.

Section seed.
(** The engine on a scratch store, for its effect and for its output. *)
Variable podman : path -> path -> path -> list (list Z) -> Build unit.
Variable podman_output : path -> path -> path -> list (list Z) -> Build (list Z).
(** serde_json. *)
Variable config_from_slice : list Z -> result BuildError SeedConfig.
Variable pins_to_vec : gmap (list Z) (list Z) -> result BuildError (list Z).

Definition DIGESTS : list Z := lit "{{range .RepoDigests}}{{println .}}{{end}}".

Fixpoint pull_plains (c : SeedConfig) (l : list (list Z)) : Build unit :=
  match l with
  | [] => mret tt
  | reff :: l => podman (sc_store c) (sc_runroot c) (sc_conf c) [lit "pull"; lit "-q"; reff] ;; pull_plains c l
  end.

Fixpoint load_squashed (c : SeedConfig) (l : list (list Z * list Z * path)) : Build unit :=
  match l with
  | [] => mret tt
  | (_, _, tar) :: l => podman (sc_store c) (sc_runroot c) (sc_conf c) [lit "load"; lit "-q"; lit "-i"; display tar] ;; load_squashed c l
  end.

Fixpoint resolve_pins (c : SeedConfig) (l : list (list Z * list Z * path)) (pins : gmap (list Z) (list Z)) : Build (gmap (list Z) (list Z)) :=
  match l with
  | [] => mret pins
  | (key, tag, _) :: l =>
      digests ← podman_output (sc_store c) (sc_runroot c) (sc_conf c) [lit "image"; lit "inspect"; tag; lit "--format"; DIGESTS];
      resolve_pins c l (<[key := seed_pin tag digests]> pins)
  end.

Definition cmd_seed_build (config : path) : Build Z :=
  text ← io (read config);
  c ← lift (config_from_slice text);
  pull_plains c (sc_plains c) ;;
  load_squashed c (sc_squash c) ;;
  seedpins ← resolve_pins c (sc_squash c) ∅;
  bytes ← lift (pins_to_vec seedpins);
  io (write (sc_seedpins_out c) bytes) ;;
  mret 0.

Definition inspect_digests (tag : list Z) : list (list Z) := [lit "image"; lit "inspect"; tag; lit "--format"; DIGESTS].

(** A pin comes from the digests the engine lists for the tag it was saved under. *)
Lemma resolve_pins_listed c l : forall pins w pins' w' key pin, resolve_pins c l pins w = (Ok pins', w') -> pins' !! key = Some pin ->
  pins !! key = Some pin \/ exists tag tar digests, (key, tag, tar) ∈ l /\ printed podman_output (inspect_digests tag) digests /\ pin = seed_pin tag digests.
Proof using podman_output.
  clear podman config_from_slice pins_to_vec. induction l as [|[[k tag] tar] l IH]; intros pins w pins' w' key pin Hr Hp; cbn [resolve_pins] in Hr.
  - injection Hr as <- _. by left.
  - apply SE_bind_ok in Hr as (digests & w1 & Hd & Hr). destruct (IH _ _ _ _ _ _ Hr Hp) as [Hk|(tag' & tar' & ds & Hin & H')].
    + destruct (decide (k = key)) as [->|Hne]; [|rewrite lookup_insert_ne in Hk by done; by left].
      rewrite lookup_insert_eq in Hk. injection Hk as <-. right. exists tag, tar, digests. split; [by left|]. split; [|done].
      by exists (sc_store c), (sc_runroot c), (sc_conf c), w, w1.
    + right. exists tag', tar', ds. split; [by right|done].
Qed.

Lemma resolve_pins_dom c l : forall pins w pins' w', resolve_pins c l pins w = (Ok pins', w') ->
  dom pins' = dom pins ∪ list_to_set ((fun t => t.1.1) <$> l).
Proof using podman_output.
  clear podman config_from_slice pins_to_vec. induction l as [|[[key tag] tar] l IH]; intros pins w pins' w' Hr; cbn [resolve_pins] in Hr.
  - injection Hr as <- _. set_solver.
  - apply SE_bind_ok in Hr as (digests & w1 & _ & Hr). apply IH in Hr as ->. cbn. rewrite dom_insert_L. set_solver.
Qed.

(** A seed build that ends well leaves a pin for every image that was saved. *)
Lemma seed_build_pins_all config w r w' : cmd_seed_build config w = (Ok r, w') ->
  exists c seedpins bytes, dom seedpins = list_to_set ((fun t => t.1.1) <$> sc_squash c) /\ pins_to_vec seedpins = Ok bytes
    /\ file_at (sc_seedpins_out c) (fs w') = Some bytes.
Proof.
  unfold cmd_seed_build. intros (text & w1 & _ & Hb)%SE_bind_ok. apply SE_bind_ok in Hb as (c & w2 & _ & Hb).
  apply SE_bind_ok in Hb as ([] & w3 & _ & Hb). apply SE_bind_ok in Hb as ([] & w4 & _ & Hb).
  apply SE_bind_ok in Hb as (pins & w5 & Hp & Hb). apply SE_bind_ok in Hb as (bytes & w6 & [Hv ->]%lift_ok & Hb).
  apply SE_bind_ok in Hb as ([] & w7 & Hw%io_of_ok & Hb). injection Hb as <- <-.
  exists c, pins, bytes. split_and!; [|done|].
  - apply resolve_pins_dom in Hp. rewrite Hp. set_solver.
  - unfold write, call in Hw. destruct (next_turn w5) as [t ts]. destruct (outcome t) as [[e k]|]; [done|].
    destruct (write_node _ _ _) as [n|e] eqn:En; [|done]. injection Hw as <-. by apply write_node_spec in En as [? _].
Qed.
End seed.

(** ** The ledger ([write_stack_lock]) *)

Section ledger.
Context {H : Type} `{Sha256 H}.

Definition build_base_lines (b : BuildCtx) : list (list Z) :=
  (fun base => lit "build_base  service=" ++ bc_service b ++ lit "  base=" ++ base) <$> bases b.

Definition image_line (builds : list BuildCtx) (r : ImgRecord) : option (list Z) :=
  let size := dec (r_size_mib r) in
  if bool_decide (r_policy r = lit "plain") then
    Some (lit "image  policy=plain   upstream=" ++ r_upstream r ++ lit "  diffid=" ++ r_content_id r ++ lit "  size_mib=" ++ size)
  else if bool_decide (r_policy r = lit "squash") then
    Some (lit "image  policy=squash  upstream=" ++ r_upstream r ++ lit "  seed_tag=" ++ squash_tag (r_upstream r) ++
          lit "  src_diffid=" ++ r_content_id r ++ lit "  size_mib=" ++ size ++ lit "  GATE=ok")
  else if bool_decide (r_policy r = lit "build") then
    let svc := match find_first (fun b => bool_decide (image_tag b = r_key r)) builds with Some b => bc_service b | None => [] end in
    Some (lit "image  policy=build   service=" ++ svc ++ lit "  tag=" ++ r_key r ++ lit "  content_id=" ++ r_content_id r ++
          lit "  size_mib=" ++ size)
  else None.

Definition pin_line (e : list Z * list Z) : list Z := lit "pin    upstream=" ++ e.1 ++ lit "  pinned=" ++ e.2.

(** The provenance lines; [seedpins] in the order it is iterated in. *)
Definition provenance (builds : list BuildCtx) (records : list ImgRecord) (seedpins : list (list Z * list Z)) : list (list Z) :=
  merge_sort bytes_le (concat (build_base_lines <$> builds) ++ omap (image_line builds) records ++ (pin_line <$> seedpins)).

(** The arguments of [write_stack_lock] that are one value each. *)
Record LedgerHead := {
  lh_stack : list Z; lh_project : list Z; lh_mem_mib : Z; lh_est_mib : Z;
  lh_lock_sha : list Z; lh_art_sha : list Z; lh_agent_sha : list Z; lh_out_initramfs : path;
}.

(** [file_name().unwrap()]: [None] is its panic. *)
Definition stack_lock_text (h : LedgerHead) (records : list ImgRecord) (seedpins : list (list Z * list Z))
    (builds : list BuildCtx) (builders : list (list Z)) : option (list Z) :=
  name ← last (lh_out_initramfs h);
  Some (join_lines (
    [ lit "# generated by tdvmm build -- do not edit";
      lit "stack     " ++ lh_stack h;
      lit "project   " ++ lh_project h;
      lit "mem_mib   " ++ dec (lh_mem_mib h);
      lit "ram_estimate_mib  " ++ dec (lh_est_mib h);
      lit "compose_lock_sha256  " ++ lh_lock_sha h;
      lit "initramfs_sha256     " ++ lh_art_sha h ++ lit "  " ++ from_utf8_lossy name;
      lit "agent_sha256         " ++ lh_agent_sha h ++ lit "  tdvmm-agent" ] ++
    ((fun b => lit "builder_image        " ++ b) <$> builders) ++
    ((fun line => lit "  " ++ line) <$> provenance builds records seedpins)) []).

Definition write_stack_lock (out_path : path) (h : LedgerHead) (records : list ImgRecord) (seedpins : list (list Z * list Z))
    (builds : list BuildCtx) (builders : list (list Z)) : option (IO unit) :=
  text ← stack_lock_text h records seedpins builds builders;
  Some (match Cache.parent out_path with Some d => create_dir_all d | None => mret tt end ;; write out_path text).

Definition append_stack_lock_tdvmm (p : path) (tdvmm_sha : list Z) (out_tdvmm : path) : option (IO unit) :=
  name ← last out_tdvmm;
  Some (s ← read_to_string p;
        write p (s ++ lit "tdvmm_sha256          " ++ tdvmm_sha ++ lit "  " ++ from_utf8_lossy name ++ [LF])).
End ledger.

(** ** The artifact ([pack_tdvmm]) *)

(** A [BTreeMap] of the records by key, the last one winning. *)
Definition pins_by_key (records : list ImgRecord) : gmap (list Z) ImagePin :=
  fold_left (fun m r =>
    <[r_key r := {| upstream := r_upstream r; Artifact.pinned := if bool_decide (r_pinned r = []) then r_key r else r_pinned r;
                    policy := r_policy r; content_id := r_content_id r; size_mib := r_size_mib r |}]> m) records ∅.

Definition key_le (a b : list Z * ImagePin) : Prop := bytes_le a.1 b.1.

#[export] Instance key_le_dec a b : Decision (key_le a b).
Proof. unfold key_le. apply _. Defined.

(** [into_values]: in the order of the keys. *)
Definition image_pins (records : list ImgRecord) : list ImagePin := (merge_sort key_le (map_to_list (pins_by_key records))).*2.

Definition DEFAULT_CMDLINE : list Z :=
  lit "console=ttyS0 reboot=t panic=1 pci=off no_timer_check tsc=reliable tdvmm.stack=1 tdvmm.interval=3600 tdvmm.maxrows=1000 tdvmm.hc_tick=2".

Record PackInputs := {
  p_self_exe : path; p_records : list ImgRecord; p_compose_version : list Z; p_compose_sha256 : list Z; p_stack : list Z;
  p_project : list Z; p_mem_mib : Z; p_est_mib : Z; p_builders : list (list Z); p_agent_sha : list Z; p_agent_build_hash : list Z;
  p_kernel_path : path; p_initramfs_path : path; p_lock_path : path;
}.

(** An error of the build, or one of the artifact. *)
Inductive PackError := PackBuild (e : BuildError) | PackArtifact (e : ArtifactError).

Section pack.
Context {MJ : ManifestJson} {H : Type} `{Sha256 H}.
(** What this binary prints as [dump-cpuid]. *)
Variable dump_cpuid : path -> Build (list Z).

Definition pack_anchors (i : PackInputs) (cpuid_profile : list Z) : Anchors :=
  {| cpuid_sha256 := sha256_hex cpuid_profile; cpuid_profile := cpuid_profile;
     compose_engine := {| ce_version := p_compose_version i; ce_sha256 := p_compose_sha256 i |};
     Artifact.images := image_pins (p_records i);
     toolchain := {| Artifact.builders := p_builders i; alpine := ALPINE_VER; tc_compose := p_compose_version i |};
     ram_estimate_mib := p_est_mib i; agent_sha256 := p_agent_sha i; agent_build_hash := p_agent_build_hash i |}.

Definition pack_tdvmm (i : PackInputs) : SE PackError World SealedArtifact :=
  profile ← map_err PackBuild (dump_cpuid (p_self_exe i));
  let defaults := {| Artifact.mem_mib := p_mem_mib i; cmdline := DEFAULT_CMDLINE; fast_forward := true; max_virtual_time := None |} in
  let b := builder_new (p_stack i) (p_project i) (pack_anchors i profile) defaults in
  lock ← map_err (fun e => PackBuild (Io e)) (read (p_lock_path i));
  kern ← map_err (fun e => PackBuild (Io e)) (read (p_kernel_path i));
  initrd ← map_err (fun e => PackBuild (Io e)) (read (p_initramfs_path i));
  match initramfs (H := H) (add_kernel (add_compose_lock b lock) kern) initrd with
  | Ok sealed => mret sealed
  | Err e => fail (PackArtifact e)
  end.
End pack.

(** ** What a bake records of its images *)

Lemma bytes_le_sort_unique l l' : l ≡ₚ l' -> merge_sort bytes_le l = merge_sort bytes_le l'.
Proof.
  assert (Total bytes_le) by (intros a b; apply bytes_leb_total).
  assert (Transitive bytes_le) by (intros a b c; apply bytes_leb_trans).
  assert (AntiSymm (=) bytes_le) by (intros a b; apply bytes_leb_antisym).
  intros Hp. apply (StronglySorted_unique bytes_le); try apply (StronglySorted_merge_sort _).
  by rewrite !merge_sort_Permutation.
Qed.

Lemma insert_all_lookup {A} (l : list (list Z * A)) : forall (d : gmap (list Z) A) k, k ∉ l.*1 ->
  fold_left (fun d e => <[e.1 := e.2]> d) l d !! k = d !! k.
Proof.
  induction l as [|[k' a] l IH]; intros d k Hk; [done|]. cbn in *. apply not_elem_of_cons in Hk as [Hne Hk].
  rewrite IH by done. by rewrite lookup_insert_ne.
Qed.

Lemma insert_all_map {A} (m : gmap (list Z) A) (l : list (list Z * A)) : forall d, l ≡ₚ map_to_list m ->
  fold_left (fun d e => <[e.1 := e.2]> d) l d = m ∪ d.
Proof.
  revert m. induction l as [|[k a] l IH]; intros m d Hp.
  - symmetry in Hp. apply Permutation_nil_r, map_to_list_empty_iff in Hp as ->. by rewrite (left_id_L ∅ (∪)).
  - cbn. assert (Hk : m !! k = Some a) by (apply elem_of_map_to_list; rewrite <- Hp; left).
    rewrite (IH (delete k m)).
    + apply map_eq. intros i. destruct (decide (k = i)) as [<-|Hne].
      * rewrite lookup_union_r by apply lookup_delete_eq. rewrite lookup_insert_eq. by rewrite (lookup_union_Some_l _ _ _ a).
      * rewrite !lookup_union, lookup_delete_ne, lookup_insert_ne by done. done.
    + apply (Permutation_cons_inv (a := (k, a))). rewrite Hp. symmetry. by apply map_to_list_delete.
Qed.

(** The digests, wherever the seed pins come in. *)
Lemma lock_digests_lookup k m order key : order ≡ₚ map_to_list m ->
  lock_digests k order !! key
  = match m !! key with Some pin => Some pin | None => if bool_decide (key ∈ bk_plain_refs k) then bk_plain_pin k !! key else None end.
Proof.
  intros Hp. unfold lock_digests. rewrite (insert_all_map m) by done.
  assert (Hpl : forall refs (d : gmap (list Z) (list Z)), fold_left (fun d reff => match bk_plain_pin k !! reff with Some canon => <[reff := canon]> d | None => d end) refs d !! key
    = if bool_decide (key ∈ refs) then match bk_plain_pin k !! key with Some c => Some c | None => d !! key end else d !! key).
  { induction refs as [|r refs IH]; intros d; cbn; [done|]. rewrite IH. clear IH.
    destruct (decide (key = r)) as [->|Hne].
    - rewrite (bool_decide_true (r ∈ r :: refs)) by left. destruct (bk_plain_pin k !! r) as [c|]; [rewrite lookup_insert_eq|]; by case_bool_decide.
    - rewrite (bool_decide_ext (key ∈ r :: refs) (key ∈ refs)) by (rewrite elem_of_cons; naive_solver).
      destruct (bk_plain_pin k !! r); [by rewrite lookup_insert_ne|done]. }
  destruct (m !! key) as [pin|] eqn:Em; [by apply lookup_union_Some_l|]. rewrite lookup_union_r, Hpl, lookup_empty by done.
  case_bool_decide; [by destruct (bk_plain_pin k !! key)|done].
Qed.

(** An image is on its way to the seed store, or pinned by itself. *)
Definition accounted (k : Bakes) (key : list Z) : Prop :=
  (key ∈ bk_plain_refs k /\ is_Some (bk_plain_pin k !! key)) \/ key ∈ (fun t => t.1.1) <$> bk_squash_tars k.

(** An output is the reference's own, plain or saved. *)
Definition gives (reff : list Z) (b : BakedImage) : Prop :=
  (exists canon, b_plain b = Some (reff, canon)) \/ (exists tag tar, b_squash b = Some (reff, tag, tar)).

Definition build_output (ctx : BuildCtx) (b : BakedImage) : Prop := exists tar, b_squash b = Some (image_tag ctx, image_tag ctx, tar).

Lemma add_image_accounted k b key : accounted k key \/ gives key b -> accounted (add_image k b) key.
Proof.
  intros [[[Hk Hp]|Hs]|[[canon Hb]|(tag & tar & Hb)]]; unfold accounted, add_image; cbn [bk_plain_refs bk_plain_pin bk_squash_tars].
  - left. destruct (b_plain b) as [[r c]|]; [|done]. split; [set_solver|].
    destruct (decide (key = r)) as [->|Hne]; [rewrite lookup_insert_eq; by eexists|by rewrite lookup_insert_ne].
  - right. destruct (b_squash b); [|done]. rewrite fmap_app. set_solver.
  - left. rewrite Hb. split; [set_solver|]. rewrite lookup_insert_eq. by eexists.
  - right. rewrite Hb, fmap_app. set_solver.
Qed.

Lemma add_build_accounted k b key : accounted k key \/ (exists tag tar, b_squash b = Some (key, tag, tar)) -> accounted (add_build k b) key.
Proof.
  intros [[[Hk Hp]|Hs]|(tag & tar & Hb)]; unfold accounted, add_build; cbn [bk_plain_refs bk_plain_pin bk_squash_tars].
  - by left.
  - right. destruct (b_squash b); [|done]. rewrite fmap_app. set_solver.
  - right. rewrite Hb, fmap_app. set_solver.
Qed.

(** Every image and every build of the stack is accounted for. *)
Lemma merge_accounted imgs built selftest refs ctxs key :
  Forall2 gives refs imgs -> Forall2 build_output ctxs built ->
  key ∈ refs \/ key ∈ image_tag <$> ctxs -> accounted (merge_bakes imgs built selftest) key.
Proof.
  intros Hi Hb Hk. apply add_image_accounted. left.
  assert (Hfold : forall l k0, accounted k0 key \/ (exists b tag tar, b ∈ l /\ b_squash b = Some (key, tag, tar)) ->
    accounted (fold_left add_build l k0) key).
  { induction l as [|b l IH]; intros k0 [Ha|(b' & tag & tar & Hin & E)]; cbn; [done|by apply not_elem_of_nil in Hin| |].
    - apply IH. left. apply add_build_accounted. by left.
    - apply IH. apply elem_of_cons in Hin as [->|Hin]; [left; apply add_build_accounted; right; eauto|right; eauto 10]. }
  assert (Hfold' : forall l k0, accounted k0 key \/ (exists b, b ∈ l /\ gives key b) -> accounted (fold_left add_image l k0) key).
  { induction l as [|b l IH]; intros k0 [Ha|(b' & Hin & E)]; cbn; [done|by apply not_elem_of_nil in Hin| |].
    - apply IH. left. apply add_image_accounted. by left.
    - apply IH. apply elem_of_cons in Hin as [->|Hin]; [left; apply add_image_accounted; by right|right; eauto]. }
  apply Hfold. destruct Hk as [Hk|Hk].
  - left. apply Hfold'. right. apply list_elem_of_lookup in Hk as [i Hl]. destruct (Forall2_lookup_l _ _ _ _ _ Hi Hl) as (b & Hlb & Ho).
    exists b. split; [by eapply list_elem_of_lookup_2|done].
  - right. apply list_elem_of_fmap in Hk as (ctx & -> & Hk). apply list_elem_of_lookup in Hk as [i Hl].
    destruct (Forall2_lookup_l _ _ _ _ _ Hb Hl) as (b & Hlb & tar & Ho). exists b, (image_tag ctx), tar.
    split; [by eapply list_elem_of_lookup_2|done].
Qed.

(** A plain pin is some image's own. *)
Lemma merge_plain_pin imgs built selftest key pin : bk_plain_pin (merge_bakes imgs built selftest) !! key = Some pin ->
  exists b, b ∈ imgs ++ [selftest] /\ b_plain b = Some (key, pin).
Proof.
  assert (Hb : forall l k0, bk_plain_pin (fold_left add_build l k0) = bk_plain_pin k0) by (induction l; intros k0; cbn; [done|by rewrite IHl]).
  assert (Ha : forall b k0, bk_plain_pin (add_image k0 b) !! key = Some pin ->
    b_plain b = Some (key, pin) \/ bk_plain_pin k0 !! key = Some pin).
  { intros b k0. cbn. destruct (b_plain b) as [[r c]|]; [|by right].
    destruct (decide (key = r)) as [->|Hne]; [rewrite lookup_insert_eq; intros [= ->]; by left|rewrite lookup_insert_ne by done; by right]. }
  assert (Hf : forall l k0, bk_plain_pin (fold_left add_image l k0) !! key = Some pin ->
    (exists b, b ∈ l /\ b_plain b = Some (key, pin)) \/ bk_plain_pin k0 !! key = Some pin).
  { induction l as [|b l IH]; intros k0 E; cbn in E; [by right|]. apply IH in E as [(b' & Hin & E)|E].
    - left. exists b'. split; [by right|done].
    - apply Ha in E as [E|E]; [left; exists b; split; [by left|done]|by right]. }
  unfold merge_bakes. intros E. apply Ha in E as [E|E].
  - exists selftest. split; [set_solver|done].
  - rewrite Hb in E. apply Hf in E as [(b & Hin & E)|E]; [exists b; split; [set_solver|done]|done].
Qed.

(** ** Where a pin comes from *)

Section engine.
Variable podman_output : path -> path -> path -> list (list Z) -> Build (list Z).

(** What baking a reference gives: plain with its canonical reference, or
    saved under a tag. *)
Definition image_output (reff : list Z) (b : BakedImage) : Prop :=
  (exists canon, b_plain b = Some (reff, canon) /\ canon_of podman_output reff canon) \/
  (b_plain b = None /\ exists tag tar, b_squash b = Some (reff, tag, tar)).

Lemma bake_one_output {H} `{Sha256 H} podman bstore brun conf reff thr idx work w b w' :
  bake_one podman podman_output bstore brun conf reff thr idx work w = (Ok b, w') -> image_output reff b.
Proof. intros (_ & _ & [(_ & _ & _ & _ & canon & Hp & Hc)|(_ & _ & _ & Hn & Hs)])%bake_one_policy; [left|right]; eauto. Qed.

(** The output of some bake of the reference. *)
Definition image_baked {H} `{Sha256 H} (podman : path -> path -> path -> list (list Z) -> Build unit) (thr : Z) (reff : list Z) (b : BakedImage) : Prop :=
  exists bstore brun conf idx work w w', bake_one podman podman_output bstore brun conf reff thr idx work w = (Ok b, w').

Lemma image_baked_output {H} `{Sha256 H} podman thr reff b : image_baked podman thr reff b -> image_output reff b.
Proof. intros (bs & br & cf & idx & work & w & w' & Hb). by eapply bake_one_output. Qed.

(** An image is named by its content: with a digest, or by its id. *)
Definition addressed (pin : list Z) : Prop :=
  contains (lit "@sha256:") pin = true \/ (length pin = 64%nat /\ forallb is_ascii_hexdigit pin = true).

(** What the engine's documentation says of what it prints: a repo digest is
    [name@sha256:hex], and the canonical reference is a repo digest or the id. *)
Class EngineDigests := {
  canon_addressed reff out : printed podman_output (inspect_canon reff) out -> addressed (trim out);
  listed_addressed tag out line : printed podman_output (inspect_digests tag) out -> line ∈ lines_of out -> 64 ∈ line -> addressed line;
}.

(** No digest is listed under the repository of the tag an image is saved under. *)
Definition unlisted (saved : list (list Z * list Z * path)) (key : list Z) : Prop :=
  exists tag tar digests, (key, tag, tar) ∈ saved /\ printed podman_output (inspect_digests tag) digests /\
    Forall (fun line => own_line (repo_of tag) line = false) (lines_of digests).

(** The pin of a reference, by where it comes from. *)
Inductive pin_of (saved : list (list Z * list Z * path)) (key : list Z) : list Z -> Prop :=
  | pin_canon canon : canon_of podman_output key canon -> pin_of saved key canon
  | pin_listed tag tar digests line : (key, tag, tar) ∈ saved -> printed podman_output (inspect_digests tag) digests ->
      line ∈ lines_of digests -> own_line (repo_of tag) line = true -> pin_of saved key line.

Lemma seed_pin_cases tag digests :
  (seed_pin tag digests ∈ lines_of digests /\ own_line (repo_of tag) (seed_pin tag digests) = true) \/
  (seed_pin tag digests = [] /\ Forall (fun line => own_line (repo_of tag) line = false) (lines_of digests)).
Proof.
  unfold seed_pin. induction (lines_of digests) as [|l ls IH]; cbn [find_first]; [by right|].
  destruct (own_line (repo_of tag) l) eqn:E; cbn [from_option]; [left; split; [by left|done]|].
  destruct IH as [[? ?]|[? ?]]; [left; split; [by right|done]|right; split; [done|by constructor]].
Qed.

Lemma pin_addressed `{!EngineDigests} saved key pin : pin_of saved key pin -> addressed pin.
Proof.
  intros [canon Hc|tag tar digests line _ Hd Hl Ho].
  - unfold canon_of in Hc. destruct (contains _ key) eqn:E; [subst; by left|]. destruct Hc as (out & Ho & ->). by eapply canon_addressed.
  - eapply listed_addressed; [exact Hd|exact Hl|]. unfold own_line in Ho. bool_prop.
    rewrite <- (take_drop (length (repo_of tag) + 1) line), Ho. apply elem_of_app. left. apply elem_of_app. right. by left.
Qed.

(** The digests for the lock: every image asked for and every build has one,
    and where it comes from. *)
Lemma lock_digest_of sc w w' imgs built selftest selftest_ref refs ctxs seedpins order key :
  Forall2 image_output refs imgs -> Forall2 build_output ctxs built -> image_output selftest_ref selftest ->
  let k := merge_bakes imgs built selftest in
  resolve_pins podman_output sc (bk_squash_tars k) ∅ w = (Ok seedpins, w') -> order ≡ₚ map_to_list seedpins ->
  key ∈ refs \/ key ∈ image_tag <$> ctxs ->
  exists pin, lock_digests k order !! key = Some pin /\
    (pin_of (bk_squash_tars k) key pin \/ (pin = [] /\ unlisted (bk_squash_tars k) key)).
Proof.
  intros Hi Hb Hs k Hr Hord Hkey. rewrite (lock_digests_lookup k seedpins) by done.
  assert (Hdom : dom seedpins = list_to_set ((fun t => t.1.1) <$> bk_squash_tars k)) by (pose proof (resolve_pins_dom _ _ _ _ _ _ _ Hr) as E; by rewrite E, dom_empty_L, (left_id_L ∅ (∪))).
  destruct (seedpins !! key) as [pin|] eqn:Es.
  - exists pin. split; [done|]. destruct (resolve_pins_listed _ _ _ _ _ _ _ key pin Hr Es) as [?|(tag & tar & ds & Hin & Hd & ->)]; [done|].
    destruct (seed_pin_cases tag ds) as [[Hl Ho]|[-> Hn]]; [left; by eapply pin_listed|right; split; [done|]; by exists tag, tar, ds].
  - assert (Hg : Forall2 gives refs imgs).
    { eapply Forall2_impl; [exact Hi|]. intros r b [(c & Hc & _)|[_ ?]]; [left; by exists c|by right]. }
    destruct (merge_accounted imgs built selftest _ _ key Hg Hb Hkey) as [[Hin [pin Hp]]|Hin].
    + rewrite bool_decide_true by done. exists pin. split; [done|left]. apply pin_canon.
      apply merge_plain_pin in Hp as (b & Hb' & Hp). assert (Hcan : forall r, image_output r b -> canon_of podman_output key pin).
      { intros r [(c & E & Hc)|[E _]]; rewrite E in Hp; by simplify_eq. }
      apply elem_of_app in Hb' as [Hb'|Hb'%list_elem_of_singleton]; [|subst b; by eapply Hcan].
      apply list_elem_of_lookup in Hb' as [i Hl]. destruct (Forall2_lookup_r _ _ _ _ _ Hi Hl) as (r & _ & Ho). by eapply Hcan.
    + apply not_elem_of_dom in Es. rewrite Hdom, elem_of_list_to_set in Es. done.
Qed.
End engine.

(** ** The lock of a bake *)

(** What a service asks for: the tag it is built under, or an image. *)
Definition service_ref (sname : list Z) (scfg : list (Value * Value)) : option (list Z) :=
  if contains_key (lit "build") scfg then Some (build_output_tag sname scfg) else get_str "image" scfg.

Section lock.
Context (exists_ is_dir is_file : str -> bool) (read_to_string : str -> result Z str) (num_str : Num -> str).

(** C15: A bake always has its lock, and the lock names every image by its
    content.  Once the images, the builds and the self-test of a validated
    stack are baked and the seed build has resolved a pin for every image that
    was saved, making the lock cannot fail; and the image of every service in
    it is what the service asked for when that has a digest, or the canonical
    reference the engine gave for it, or a digest the engine lists under the
    repository of the tag it was saved under, all of which name an image by
    digest or id as far as the engine prints what it documents.  The one
    exception is a saved image with no digest listed under the repository of
    its tag: its service has the empty text for an image. *)
Theorem baked_stack_locks {H} `{Sha256 H} podman podman_output `{!EngineDigests podman_output} thr doc path base proj o imgs built selftest sc w w' seedpins order :
  well_keyed doc -> validate exists_ is_dir is_file read_to_string num_str doc path = Ok o ->
  Forall2 (image_baked podman_output podman thr) (images o) imgs -> Forall2 build_output (builds o) built ->
  image_baked podman_output podman thr BUSYBOX_REF selftest ->
  let k := merge_bakes imgs built selftest in
  resolve_pins podman_output sc (bk_squash_tars k) ∅ w = (Ok seedpins, w') -> order ≡ₚ map_to_list seedpins ->
  exists m services services' locked manifest,
    doc = VMapping m /\ map_get (lit "services") m = Some (VMapping services) /\
    lock_document exists_ is_dir is_file read_to_string num_str
      {| Compose.doc := doc; compose_path := path; digests := lock_digests k order; binds_base := base; project := proj |} = Ok (locked, manifest) /\
    value_get "services" locked = Some (VMapping services') /\
    forall n scfg', map_get n services' = Some (VMapping scfg') ->
      exists scfg key pin, map_get n services = Some (VMapping scfg) /\ service_ref n scfg = Some key /\ get_str "image" scfg' = Some pin /\
        ((pin_of podman_output (bk_squash_tars k) key pin /\ addressed pin) \/
         (pin = [] /\ unlisted podman_output (bk_squash_tars k) key)).
Proof.
  intros Hw Hv Hib Hb Hst%image_baked_output k Hpins Hord.
  assert (Hi := Forall2_impl _ _ _ _ Hib (image_baked_output podman_output podman thr)). pose proof (validate_Ok _ _ _ _ _ _ _ _ Hv) as (_ & m & _ & -> & _).
  destruct (validate_named _ _ _ _ _ m path o Hv Hw) as (services & Hg & Hu & Hnd & Hnames & Hall).
  set (ds := lock_digests k order).
  assert (Hds := fun key Hk => lock_digest_of podman_output sc w w' imgs built selftest BUSYBOX_REF _ _ seedpins order key Hi Hb Hst Hpins Hord Hk).
  fold k ds in Hds.
  rewrite (lock_document_eq _ _ _ _ _ m path ds base proj o services Hv Hg).
  pose proof (lock_services_spec ds (bind_dests (binds o) base).2 _ services Hnd Hu) as Hls.
  specialize (Hls ltac:(eapply Forall_impl; [exact Hall|]; by intros n (scfg & ? & ? & _); exists scfg)).
  rewrite Forall_forall in Hall. destruct (lock_services _ _ _ _) as [services'|e].
  - destruct Hls as (Hf & Hu' & _ & Hin). exists m, services, services'. do 2 eexists. split; [done|]. split; [done|]. split; [done|].
    split; [unfold value_get; cbn [as_mapping untag mbind option_bind]; by rewrite map_get_insert, decide_True|].
    intros n scfg' Hn. assert (Hmem : n ∈ service_names services).
    { apply map_get_elem in Hn. assert (Hk : VString n ∈ fst <$> services') by (apply list_elem_of_fmap; by exists (VString n, VMapping scfg')).
      rewrite Hf, Hnames in Hk. apply list_elem_of_fmap in Hk as (k' & [= <-] & Hk). done. }
    rewrite Forall_forall in Hin. destruct (Hin n Hmem) as (scfg & c' & Hsc & Hc' & Hlk). assert (c' = scfg') as -> by congruence.
    destruct (Hall n Hmem) as (scfg0 & Hsc0 & _ & Hok). assert (scfg0 = scfg) as -> by congruence.
    pose proof (so_source _ _ _ _ _ Hok) as Hsrc. pose proof (lk_image _ _ _ _ _ Hlk) as Him. unfold locked_image in Him.
    assert (Hkey : exists key, service_ref n scfg = Some key /\ (key ∈ images o \/ key ∈ image_tag <$> builds o)
      /\ (forall pin, ds !! key = Some pin -> get_str "image" scfg' = Some pin)).
    { unfold service_ref. destruct (contains_key (lit "build") scfg) eqn:Ec; rewrite contains_key_spec in Ec.
      - apply bool_decide_eq_true in Ec as [bv Eb]. rewrite Eb in Hsrc. destruct Hsrc as (ctx & Hc & _ & Ht & _).
        eexists. split; [done|]. split; [right; rewrite <- Ht; by apply list_elem_of_fmap_2|]. intros pin Hp. by rewrite Him, Hp.
      - apply bool_decide_eq_false, eq_None_not_Some in Ec. rewrite Ec in Hsrc. destruct Hsrc as (img & Eg & Himg).
        exists img. split; [done|]. split; [by left|]. intros pin Hp. rewrite Him, Eg. cbn. by rewrite Hp. }
    destruct Hkey as (key & Hr & Hkin & Hpin). destruct (Hds key Hkin) as (pin & Hd & Hsrc'). exists scfg, key, pin.
    split_and!; [done|done|by apply Hpin|]. destruct Hsrc' as [Hp|Hp]; [left; split; [done|by eapply pin_addressed]|by right].
  - exfalso. destruct Hls as (n & scfg & Hn & Hsc & Hbc & Hnone & _). destruct (Hall n Hn) as (scfg0 & Hsc0 & _ & Hok).
    assert (scfg0 = scfg) as -> by congruence. pose proof (so_source _ _ _ _ _ Hok) as Hsrc. rewrite contains_key_spec, bool_decide_eq_true in Hbc.
    destruct Hbc as [bv Hbc]. rewrite Hbc in Hsrc. destruct Hsrc as (ctx & Hc & _ & Ht & _).
    destruct (Hds (build_output_tag n scfg)) as (pin & Hd & _); [right; rewrite <- Ht; by apply list_elem_of_fmap_2|congruence].
Qed.
End lock.

(** The outputs of a bake do not depend on the order a hash map is iterated
    in: whatever the two orders of the seed pins, the digests for the lock are
    the same and so is the text of the ledger, which does not depend on the
    order of the image records either. *)
Theorem ledger_order_free {H} `{Sha256 H} k h records records' seedpins order order' builds builders :
  records ≡ₚ records' -> order ≡ₚ map_to_list seedpins -> order' ≡ₚ map_to_list seedpins ->
  lock_digests k order = lock_digests k order' /\
  stack_lock_text h records order builds builders = stack_lock_text h records' order' builds builders.
Proof.
  intros Hr Ho Ho'. split.
  - unfold lock_digests. by rewrite !(insert_all_map seedpins) by done.
  - unfold stack_lock_text. destruct (last _) as [name|]; [|done]. cbn [mbind option_bind]. do 2 f_equal. do 2 f_equal. f_equal.
    apply bytes_le_sort_unique. apply Permutation_app_head, Permutation_app; [by apply omap_Permutation|by rewrite Ho, Ho'].
Qed.

(** ** What modelling showed *)

Definition plain_output (reff canon : list Z) (mib : Z) : BakedImage :=
  {| b_record := {| r_key := reff; r_upstream := reff; r_policy := lit "plain"; r_content_id := lit "sha256:1"; r_size_mib := mib; r_pinned := reff |};
     b_plain := Some (reff, canon); b_squash := None |}.

Definition saved_output (key tag policy : list Z) (mib : Z) : BakedImage :=
  {| b_record := {| r_key := key; r_upstream := key; r_policy := policy; r_content_id := lit "sha256:2"; r_size_mib := mib; r_pinned := [] |};
     b_plain := None; b_squash := Some (key, tag, [lit "w"; lit "squash-1.tar"]) |}.

(** When the threshold is below the size of the self-test image, it is squashed
    like any other and its pin is looked up where it is not. *)
Lemma squashed_selftest_unpinned imgs built tag : (forall b, b ∈ imgs -> fst <$> b_plain b <> Some BUSYBOX_REF) ->
  selftest_pin (merge_bakes imgs built (saved_output BUSYBOX_REF tag (lit "squash") 4)) = [].
Proof.
  intros Hne. unfold selftest_pin. destruct (_ !! BUSYBOX_REF) as [pin|] eqn:E; [|done].
  apply merge_plain_pin in E as (b & [Hb|Hb]%elem_of_app & E).
  - destruct (Hne b Hb). by rewrite E.
  - by apply list_elem_of_singleton in Hb as ->.
Qed.

(** A build tag without a registry is not the name its digest is listed under:
    the pin is empty, and an empty pin is what the lock then says. *)
Lemma short_tag_unpinned :
  seed_pin (lit "app:1") (lit "localhost/app@sha256:00ff" ++ [LF]) = [] /\
  seed_pin (lit "localhost/app:1") (lit "localhost/app@sha256:00ff" ++ [LF]) = lit "localhost/app@sha256:00ff".
Proof. by vm_compute. Qed.

(** An image asked for by tag is locked to its digest, and the manifest says the tag. *)
Lemma plain_pin_not_recorded :
  let k := merge_bakes [plain_output (lit "nginx:1") (lit "nginx@sha256:ab") 9] [] (plain_output BUSYBOX_REF BUSYBOX_REF 4) in
  lock_digests k [] !! lit "nginx:1" = Some (lit "nginx@sha256:ab") /\
  Artifact.pinned <$> image_pins (bk_records k) = [BUSYBOX_REF; lit "nginx:1"].
Proof. by vm_compute. Qed.

(** ** The small stack, baked *)

Definition demo_tag : list Z := lit "localhost/tdvmm-build-job:baked".

(** An engine that prints nine MiB for whatever is not asked for a name. *)
Definition demo_podman (bstore brun conf : path) (args : list (list Z)) : Build unit := mret tt.

Definition demo_output (bstore brun conf : path) (args : list (list Z)) : Build (list Z) :=
  mret (if bool_decide (last args = Some DIGESTS) then lit "localhost/tdvmm-build-job@sha256:cd" ++ [LF]
        else if bool_decide (last args = last (inspect_canon [])) then lit "nginx@sha256:ab" ++ [LF]
        else lit "9437184" ++ [LF]).

#[export] Instance demo_digests : EngineDigests demo_output.
Proof.
  split.
  - intros reff out (bs & br & cf & w & w' & [= <- _]). by left.
  - intros tag out line (bs & br & cf & w & w' & [= <- _]). intros [->|Hl]%elem_of_cons _; [by left|by apply not_elem_of_nil in Hl].
Qed.

Definition demo_image (reff canon : list Z) : BakedImage :=
  {| b_record := {| r_key := reff; r_upstream := reff; r_policy := lit "plain"; r_content_id := lit "9437184"; r_size_mib := 9; r_pinned := reff |};
     b_plain := Some (reff, canon); b_squash := None |}.

Definition baked_images : list BakedImage := [demo_image (lit "nginx") (lit "nginx@sha256:ab")].
Definition baked_builds : list BakedImage := [saved_output demo_tag demo_tag (lit "build") 7].
Definition demo_selftest : BakedImage := demo_image BUSYBOX_REF BUSYBOX_REF.
Definition demo_bakes : Bakes := merge_bakes baked_images baked_builds demo_selftest.
Definition demo_seedpins : gmap (list Z) (list Z) := {[ demo_tag := lit "localhost/tdvmm-build-job@sha256:cd" ]}.
Definition demo_seed : SeedConfig := {| sc_store := []; sc_runroot := []; sc_conf := []; sc_plains := []; sc_squash := []; sc_seedpins_out := [] |}.
Definition empty_world : World := {| fs := Dir ∅; turns := []; steps := [] |}.

Lemma demo_outputs_fit : exists o,
  validate (fun _ => true) (fun _ => true) (fun _ => true) web_file (fun _ => []) web_doc (lit "/p/compose.yml") = Ok o /\
  Forall2 (image_baked demo_output demo_podman 400) (images o) baked_images /\ Forall2 build_output (builds o) baked_builds /\
  image_baked demo_output demo_podman 400 BUSYBOX_REF demo_selftest.
Proof.
  assert (Hb : forall reff idx canon,
    bake_one (H := list Z) demo_podman demo_output [] [] [] reff 400 idx [] empty_world = (Ok (demo_image reff canon), empty_world) ->
    image_baked demo_output demo_podman 400 reff (demo_image reff canon)).
  { intros reff idx canon E. by exists [], [], [], idx, [], empty_world, empty_world. }
  eexists. split; [vm_compute; reflexivity|]. split_and!; [(constructor; [|constructor])..|].
  - by apply (Hb _ 0%nat).
  - by eexists.
  - by apply (Hb _ 2%nat).
Qed.

Lemma baked_stack_locks_witness : exists m services services' locked manifest,
  web_doc = VMapping m /\ map_get (lit "services") m = Some (VMapping services) /\
  lock_document (fun _ => true) (fun _ => true) (fun _ => true) web_file (fun _ => [])
    (web_req (lock_digests demo_bakes (map_to_list demo_seedpins))) = Ok (locked, manifest) /\
  value_get "services" locked = Some (VMapping services') /\
  forall n scfg', map_get n services' = Some (VMapping scfg') ->
    exists scfg key pin, map_get n services = Some (VMapping scfg) /\ service_ref n scfg = Some key /\ get_str "image" scfg' = Some pin /\
      ((pin_of demo_output (bk_squash_tars demo_bakes) key pin /\ addressed pin) \/
       (pin = [] /\ unlisted demo_output (bk_squash_tars demo_bakes) key)).
Proof.
  destruct demo_outputs_fit as (o & Hv & Hi & Hb & Hs).
  exact (baked_stack_locks (fun _ => true) (fun _ => true) (fun _ => true) web_file (fun _ => []) demo_podman demo_output 400 web_doc (lit "/p/compose.yml")
    (lit "/b") (lit "p") o baked_images baked_builds demo_selftest demo_seed empty_world empty_world demo_seedpins (map_to_list demo_seedpins)
    web_doc_well_keyed Hv Hi Hb Hs eq_refl (reflexivity _)).
Defined.

Definition demo_head : LedgerHead :=
  {| lh_stack := lit "s"; lh_project := lit "tdvmm_s"; lh_mem_mib := 3072; lh_est_mib := 1100; lh_lock_sha := lit "aa"; lh_art_sha := lit "bb";
     lh_agent_sha := lit "cc"; lh_out_initramfs := [lit "c"; lit "initramfs.cpio.gz"] |}.

Definition two_pins : gmap (list Z) (list Z) := <[lit "x" := lit "1"]> {[ lit "y" := lit "2" ]}.

Lemma ledger_order_free_witness :
  let k := merge_bakes baked_images baked_builds demo_selftest in
  let o := [(lit "x", lit "1"); (lit "y", lit "2")] in
  let o' := [(lit "y", lit "2"); (lit "x", lit "1")] in
  lock_digests k o = lock_digests k o' /\
  stack_lock_text (H := list Z) demo_head (bk_records k) o [] [] = stack_lock_text (H := list Z) demo_head (reverse (bk_records k)) o' [] [].
Proof.
  apply (ledger_order_free (H := list Z) _ demo_head _ _ two_pins).
  - by rewrite reverse_Permutation.
  - by apply (bool_decide_unpack _); vm_compute.
  - by apply (bool_decide_unpack _); vm_compute.
Defined.
