(* ===== verification/Dates.v ===== *)
(** * Dates and sizes as text ([src/src/build/util.rs], [src/src/main.rs])

    [civil_from_days] is the proleptic Gregorian calendar, day by day, and the
    texts made of it.  [i64] sums here do not overflow: a day number of a 64-bit
    count of seconds is below [2 ^ 48]. *)

From Stdlib Require Import ZArith Lia.
From stdpp Require Import base numbers strings list.
From S2P Require Import Prelude.
From S2P Require Import Text.

Open Scope Z_scope.

(** ** The code *)

Definition civil_from_days (z : Z) : Z * Z * Z :=
  let z := z + 719468 in
  let era := Z.quot (if 0 <=? z then z else z - 146096) 146097 in
  let doe := z - era * 146097 in
  let yoe := Z.quot (doe - Z.quot doe 1460 + Z.quot doe 36524 - Z.quot doe 146096) 365 in
  let y := yoe + era * 400 in
  let doy := doe - (365 * yoe + Z.quot yoe 4 - Z.quot yoe 100) in
  let mp := Z.quot (5 * doy + 2) 153 in
  let d := doy - Z.quot (153 * mp + 2) 5 + 1 in
  let m := if mp <? 10 then mp + 3 else mp - 9 in
  (if m <=? 2 then y + 1 else y, m, d).

(** [{y:04}-{mo:02}-{d:02}T{h:02}:{m:02}:{s:02}Z] of a count of seconds. *)
Definition utc_iso (secs : Z) : list Z :=
  let days := secs / 86400 in
  let rem := secs mod 86400 in
  let '(y, mo, d) := civil_from_days days in
  zero_pad 4 (dec y) ++ 45 :: zero_pad 2 (dec mo) ++ 45 :: zero_pad 2 (dec d) ++ 84 ::
  zero_pad 2 (dec (rem / 3600)) ++ 58 :: zero_pad 2 (dec (rem mod 3600 / 60)) ++ 58 :: zero_pad 2 (dec (rem mod 60)) ++ [90].

(** [{y:04}-{m:02}-{d:02} {h:02}:{mi:02}] of a modification time. *)
Definition fmt_mtime (secs : Z) : list Z :=
  let days := secs / 86400 in
  let rem := secs mod 86400 in
  let '(y, m, d) := civil_from_days days in
  zero_pad 4 (dec y) ++ 45 :: zero_pad 2 (dec m) ++ 45 :: zero_pad 2 (dec d) ++ 32 ::
  zero_pad 2 (dec (rem / 3600)) ++ 58 :: zero_pad 2 (dec (rem mod 3600 / 60)).

Example fmt_mtime_epoch : fmt_mtime 1785542400 = lit "2026-08-01 00:00".
Proof. by vm_compute. Qed.

(** ** The calendar *)

Definition is_leap (y : Z) : bool := (y mod 4 =? 0) && negb (y mod 100 =? 0) || (y mod 400 =? 0).

Definition days_in_month (y m : Z) : Z :=
  if m =? 2 then (if is_leap y then 29 else 28)
  else if (m =? 4) || (m =? 6) || (m =? 9) || (m =? 11) then 30 else 31.

Definition valid_date (t : Z * Z * Z) : Prop := let '(y, m, d) := t in 1 <= m <= 12 /\ 1 <= d <= days_in_month y m.

Definition next_day (t : Z * Z * Z) : Z * Z * Z :=
  let '(y, m, d) := t in
  if d <? days_in_month y m then (y, m, d + 1) else if m =? 12 then (y + 1, 1, 1) else (y, m + 1, 1).

(** ** Within a year that starts in March *)

Definition month_day (doy : Z) : Z * Z :=
  let mp := (5 * doy + 2) / 153 in
  (if mp <? 10 then mp + 3 else mp - 9, doy - (153 * mp + 2) / 5 + 1).

Definition date_of (era yoe doy : Z) : Z * Z * Z :=
  let '(m, d) := month_day doy in (if m <=? 2 then yoe + era * 400 + 1 else yoe + era * 400, m, d).

(** Days of an era before a year, and in it. *)
Definition year_start (yoe : Z) : Z := 365 * yoe + yoe / 4 - yoe / 100.
Definition year_length (yoe : Z) : Z := if is_leap (yoe + 1) then 366 else 365.

Lemma civil_parts z : exists era yoe doy,
  civil_from_days z = date_of era yoe doy /\ 0 <= yoe <= 399 /\ 0 <= doy < year_length yoe /\
  z + 719468 = era * 146097 + year_start yoe + doy.
Proof.
  set (w := z + 719468). set (era := w / 146097). set (doe := w - era * 146097).
  assert (Hera : Z.quot (if 0 <=? w then w else w - 146096) 146097 = era).
  { unfold era. destruct (Z.leb_spec 0 w); [by apply Z.quot_div_nonneg|].
    replace (w - 146096) with (- (146096 - w)) by lia. rewrite Z.quot_opp_l, Z.quot_div_nonneg by lia.
    Z.div_mod_to_equations. lia. }
  assert (Hdoe : 0 <= doe <= 146096) by (unfold doe, era; Z.div_mod_to_equations; lia).
  set (yoe := (doe - doe / 1460 + doe / 36524 - doe / 146096) / 365).
  assert (Hyoe : 0 <= yoe <= 399) by (unfold yoe; Z.div_mod_to_equations; lia).
  set (doy := doe - year_start yoe).
  assert (Hdoy : 0 <= doy <= 365) by (unfold doy, year_start, yoe; Z.div_mod_to_equations; lia).
  exists era, yoe, doy. split_and!; [|lia..| | |].
  - unfold civil_from_days. fold w. rewrite Hera. fold doe.
    rewrite (Z.quot_div_nonneg doe 1460), (Z.quot_div_nonneg doe 36524), (Z.quot_div_nonneg doe 146096) by lia.
    rewrite (Z.quot_div_nonneg (doe - _ + _ - _) 365) by (Z.div_mod_to_equations; lia). fold yoe.
    rewrite (Z.quot_div_nonneg yoe 4), (Z.quot_div_nonneg yoe 100) by lia. fold (year_start yoe). fold doy.
    unfold date_of, month_day. rewrite (Z.quot_div_nonneg (5 * doy + 2) 153) by lia.
    rewrite (Z.quot_div_nonneg (153 * _ + 2) 5) by (Z.div_mod_to_equations; lia). reflexivity.
  - lia.
  - unfold year_length, is_leap. destruct (Z.eqb_spec ((yoe + 1) mod 4) 0), (Z.eqb_spec ((yoe + 1) mod 100) 0), (Z.eqb_spec ((yoe + 1) mod 400) 0); cbn;
      try lia; unfold doy, year_start, yoe in *; Z.div_mod_to_equations; lia.
  - unfold doy, doe. lia.
Qed.

(** The days of a year, one after another. *)
Definition month_step (doy : Z) : Prop :=
  let '(m, d) := month_day doy in
  let '(m', d') := month_day (doy + 1) in
  1 <= m <= 12 /\ 1 <= d /\ (m <= 2 <-> 306 <= doy) /\
  (m = 2 -> d = doy - 336 /\ m' = 2 /\ d' = d + 1) /\
  (m <> 2 -> doy < 337) /\
  (m <> 2 -> (d < days_in_month 0 m /\ m' = m /\ d' = d + 1) \/
             (d = days_in_month 0 m /\ m' = (if m =? 12 then 1 else m + 1) /\ d' = 1)).

#[export] Instance month_step_dec doy : Decision (month_step doy).
Proof. unfold month_step. destruct (month_day doy), (month_day (doy + 1)). apply _. Defined.

Lemma month_steps doy : 0 <= doy < 366 -> month_step doy.
Proof.
  intros Hd. assert (Hall : Forall month_step (seqZ 0 366)) by (apply (bool_decide_unpack _); by vm_compute).
  rewrite Forall_forall in Hall. apply Hall, elem_of_seqZ. lia.
Qed.

Lemma leap_in_era y era : is_leap (y + era * 400) = is_leap y.
Proof.
  unfold is_leap. replace (era * 400) with (era * 100 * 4) by lia. rewrite Z_mod_plus_full.
  replace (era * 100 * 4) with (era * 4 * 100) by lia. rewrite Z_mod_plus_full.
  replace (era * 4 * 100) with (era * 400) by lia. by rewrite Z_mod_plus_full.
Qed.

Lemma days_in_month_other y m : m <> 2 -> days_in_month y m = days_in_month 0 m.
Proof. intros Hm. unfold days_in_month. by rewrite (proj2 (Z.eqb_neq m 2)). Qed.

(** A date of a year is a date, and the next is the next day's. *)
Lemma date_of_next era yoe doy : 0 <= doy < year_length yoe ->
  valid_date (date_of era yoe doy) /\
  next_day (date_of era yoe doy) = if doy + 1 <? year_length yoe then date_of era yoe (doy + 1) else date_of era (yoe + 1) 0.
Proof.
  intros Hd. assert (Hlen : 365 <= year_length yoe <= 366) by (unfold year_length; destruct (is_leap _); lia).
  pose proof (month_steps doy ltac:(lia)) as Hs. unfold month_step in Hs. unfold date_of.
  destruct (month_day doy) as [m d], (month_day (doy + 1)) as [m' d']. change (month_day 0) with (3, 1). change (3 <=? 2) with false.
  destruct Hs as (Hm & Hd1 & Hle & Hfeb & Hlt & Hoth). cbn [valid_date next_day]. destruct (decide (m = 2)) as [->|Hm2].
  - destruct (Hfeb eq_refl) as (-> & -> & ->). change (2 <=? 2) with true. change (2 =? 12) with false. cbn iota.
    replace (yoe + era * 400 + 1) with (yoe + 1 + era * 400) by lia. unfold days_in_month. change (2 =? 2) with true. cbn iota.
    rewrite leap_in_era. unfold year_length in *. split; [destruct (is_leap (yoe + 1)); lia|].
    destruct (is_leap (yoe + 1)), (Z.ltb_spec (doy - 336) 29), (Z.ltb_spec (doy - 336) 28), (Z.ltb_spec (doy + 1) 366), (Z.ltb_spec (doy + 1) 365);
      try lia; repeat f_equal; lia.
  - specialize (Hoth Hm2). rewrite !days_in_month_other by done. split; [lia|]. specialize (Hlt Hm2).
    rewrite (proj2 (Z.ltb_lt (doy + 1) _)) by lia. destruct Hoth as [(Hlt' & -> & ->)|(-> & -> & ->)].
    + by rewrite (proj2 (Z.ltb_lt d _)).
    + rewrite Z.ltb_irrefl. destruct (Z.eqb_spec m 12) as [->|Hm12]; [done|].
      destruct (Z.leb_spec m 2), (Z.leb_spec (m + 1) 2); try lia; done.
Qed.

Lemma year_start_next yoe : 0 <= yoe <= 398 -> year_start (yoe + 1) = year_start yoe + year_length yoe.
Proof.
  intros Hy. unfold year_length, is_leap, year_start.
  destruct (Z.eqb_spec ((yoe + 1) mod 4) 0), (Z.eqb_spec ((yoe + 1) mod 100) 0), (Z.eqb_spec ((yoe + 1) mod 400) 0); cbn;
    Z.div_mod_to_equations; lia.
Qed.

(** The parts are determined. *)
Lemma parts_unique era yoe doy era' yoe' doy' :
  0 <= yoe <= 399 -> 0 <= doy < year_length yoe -> 0 <= yoe' <= 399 -> 0 <= doy' < year_length yoe' ->
  era * 146097 + year_start yoe + doy = era' * 146097 + year_start yoe' + doy' -> era = era' /\ yoe = yoe' /\ doy = doy'.
Proof.
  assert (Hend : forall y d, 0 <= y <= 399 -> 0 <= d < year_length y -> 0 <= year_start y + d <= 146096).
  { intros y d Hy Hd. assert (year_length y <= 366) by (unfold year_length; destruct (is_leap _); lia). unfold year_start.
    destruct (decide (y = 399)) as [->|Hne]; [unfold year_start in *; change (year_length 399) with 366 in Hd; change (399 / 4) with 99; change (399 / 100) with 3; lia|].
    Z.div_mod_to_equations; lia. }
  assert (Hmono : forall y d y' d', 0 <= y -> y < y' -> y' <= 399 -> 0 <= d < year_length y -> 0 <= d' -> year_start y + d < year_start y' + d').
  { intros y d y' d' H0 Hlt Hy' Hd Hd'. pose proof (year_start_next y ltac:(lia)).
    assert (year_start (y + 1) <= year_start y') by (unfold year_start; Z.div_mod_to_equations; lia). lia. }
  intros Hy Hd Hy' Hd' E. pose proof (Hend yoe doy Hy Hd). pose proof (Hend yoe' doy' Hy' Hd').
  assert (era = era') as -> by lia. split; [done|].
  destruct (Z.lt_trichotomy yoe yoe') as [Hlt|[->|Hlt]]; [|lia|].
  - pose proof (Hmono yoe doy yoe' doy'). lia.
  - pose proof (Hmono yoe' doy' yoe doy). lia.
Qed.

(** The day count is the calendar: day zero is the first of January 1970,
    every day's date is one, and the date of the next day is the next day of
    the proleptic Gregorian calendar, before the epoch as after it. *)
Theorem civil_from_days_calendar z :
  civil_from_days 0 = (1970, 1, 1) /\ valid_date (civil_from_days z) /\ civil_from_days (z + 1) = next_day (civil_from_days z).
Proof.
  split; [done|]. destruct (civil_parts z) as (era & yoe & doy & -> & Hy & Hd & E).
  destruct (civil_parts (z + 1)) as (era' & yoe' & doy' & -> & Hy' & Hd' & E').
  pose proof (date_of_next era yoe doy Hd) as [Hv Hn]. split; [done|]. rewrite Hn. clear Hv Hn.
  destruct (Z.ltb_spec (doy + 1) (year_length yoe)) as [Hlt|Hge].
  - destruct (parts_unique era' yoe' doy' era yoe (doy + 1)) as (-> & -> & ->); (done || lia).
  - destruct (decide (yoe = 399)) as [->|Hne].
    + destruct (parts_unique era' yoe' doy' (era + 1) 0 0) as (-> & -> & ->); try (done || lia).
      * change (year_length 399) with 366 in *.
        change (year_start 399) with 145731 in *. change (year_start 0) with 0. lia.
      * unfold date_of. change (month_day 0) with (3, 1). cbn. do 2 f_equal. lia.
    + destruct (parts_unique era' yoe' doy' era (yoe + 1) 0) as (-> & -> & ->); try (done || lia).
      * unfold year_length. destruct (is_leap _); lia.
      * rewrite year_start_next by lia. lia.
Qed.
