(* ===== verification/Cli.v ===== *)
(** * From a command line to a boot ([src/src/cli.rs], [src/src/main.rs])

    The parsers of the command line's values, the configuration resolved from
    the flags and the defaults baked into an artifact, and the way of [run]
    from a name to what is booted.  An [f64] is a [spec_float]; reading one
    from decimal text is a parameter.  The provenance line keeps which source
    each knob came from, not its wording. *)

From Stdlib Require Import ZArith Lia Floats.SpecFloat.
From stdpp Require Import base numbers strings list.
From S2P Require Import Prelude.
From S2P Require Import Proto.
From S2P Require Import Text.
From S2P Require Import Utf8.
From S2P Require Import Io.
From S2P Require Import Conscan.
From S2P Require Import Tar.
From S2P Require Import Artifact.
From S2P Require Import Store.
From S2P Require Import Cache.

Open Scope Z_scope.

(** ** Values *)

Definition parse_onoff (s : list Z) : option bool :=
  if bool_decide (s ∈ [lit "on"; lit "1"; lit "true"]) then Some true
  else if bool_decide (s ∈ [lit "off"; lit "0"; lit "false"]) then Some false
  else None.

Definition NAME_RULE : list Z := lit "a stack name must be a single path component ([A-Za-z0-9._-], not '.'/'..')".

(** The question a rejected path is answered with; [—] in UTF-8. *)
Definition parse_stack_name (s : list Z) : result (list Z) (list Z) :=
  if is_safe_path_component s then Ok s
  else if bool_decide (47 ∈ s) then
    Err (NAME_RULE ++ 32 :: [226; 128; 148] ++ lit " did you mean `tdvmm build <name> " ++ s ++ lit "`?")
  else Err NAME_RULE.

(** [f64]. *)
Definition f64_mul : spec_float -> spec_float -> spec_float := SFmul 53 1024.
Definition f64_finite (x : spec_float) : bool := match x with S754_zero _ | S754_finite _ _ _ => true | _ => false end.
Definition f64_positive (x : spec_float) : bool := match x with S754_finite false _ _ | S754_infinity false => true | _ => false end.

Definition f64_milli : spec_float := S754_finite false 4611686018427388 (-62).
Definition f64_one : spec_float := S754_finite false (2 ^ 52) (-52).
Definition f64_60 : spec_float := S754_finite false (60 * 2 ^ 47) (-47).
Definition f64_3600 : spec_float := S754_finite false (3600 * 2 ^ 41) (-41).

(** ** The configuration *)

Record CommonRunFlags := {
  f_mem : option Z; f_cmdline : option (list Z); f_ff : option bool; f_max_jump_secs : option spec_float;
  f_max_virtual_time : option (list Z); f_metrics_out : option (list Z); f_allow_egress : bool;
}.

(** Where a knob's value comes from: [baked] < [flag], [default] without either. *)
Inductive Source := FromFlag | Baked | Default.

Record EffectiveConfig := {
  e_mem_mib : Z; e_cmdline : list Z; e_fast_forward : bool; e_ff_explicit : bool; e_max_jump_secs : spec_float;
  e_max_virtual_time_secs : option spec_float; e_metrics_out : option (list Z); e_allow_egress : bool;
  e_sources : list (list Z * Source);
}.

Definition DEFAULT_CMDLINE : list Z := lit "console=ttyS0 reboot=t panic=1 pci=off no_timer_check tsc=reliable".
Definition DEFAULT_MEM_MIB : Z := 2048.
Definition DEFAULT_MAX_JUMP_SECS : spec_float := S754_finite false (300 * 2 ^ 44) (-44).

Inductive ConfigError := BadDuration (s : list Z) | BadMaxJump.

Section config.
(** [str::parse::<f64>]. *)
Variable parse_f64 : list Z -> option spec_float.

Definition parse_duration_secs (s : list Z) : option spec_float :=
  let s := trim s in
  let '(num, mult) :=
    match Store.strip_suffix (lit "ms") s with
    | Some v => (v, f64_milli)
    | None =>
        match Store.strip_suffix (lit "s") s with
        | Some v => (v, f64_one)
        | None =>
            match Store.strip_suffix (lit "m") s with
            | Some v => (v, f64_60)
            | None => match Store.strip_suffix (lit "h") s with Some v => (v, f64_3600) | None => (s, f64_one) end
            end
        end
    end in
  n ← parse_f64 (trim num);
  let secs := f64_mul n mult in
  if f64_finite secs && f64_positive secs then Some secs else None.

Definition parse_dur (s : list Z) : result ConfigError spec_float :=
  match parse_duration_secs s with Some x => Ok x | None => Err (BadDuration s) end.

(** A knob: the flag, else what is baked, else the default. *)
Definition knob {A} (flag : option A) (baked : option A) (default_ : A) : A * Source :=
  match flag, baked with
  | Some v, _ => (v, FromFlag)
  | None, Some b => (b, Baked)
  | None, None => (default_, Default)
  end.

Definition resolve (f : CommonRunFlags) (baked : option RunDefaults) : result ConfigError EffectiveConfig :=
  let '(mem, mem_src) := knob (f_mem f) (Artifact.mem_mib <$> baked) DEFAULT_MEM_MIB in
  let '(cl, cl_src) := knob (f_cmdline f) (cmdline <$> baked) DEFAULT_CMDLINE in
  let '(ff, ff_src) := knob (f_ff f) (fast_forward <$> baked) true in
  '(mvt, mvt_src) ← match f_max_virtual_time f, baked with
    | Some s, _ => x ← parse_dur s; Ok (Some x, FromFlag)
    | None, Some b =>
        match max_virtual_time b with
        | Some s => x ← parse_dur s; Ok (Some x, Baked)
        | None => Ok (None, Baked)
        end
    | None, None => Ok (None, Default)
    end;
  '(mj, mj_src) ← match f_max_jump_secs f with
    | Some v => if f64_finite v && f64_positive v then Ok (v, FromFlag) else Err BadMaxJump
    | None => Ok (DEFAULT_MAX_JUMP_SECS, Default)
    end;
  Ok {| e_mem_mib := mem; e_cmdline := cl; e_fast_forward := ff; e_ff_explicit := bool_decide (is_Some (f_ff f));
        e_max_jump_secs := mj; e_max_virtual_time_secs := mvt; e_metrics_out := f_metrics_out f; e_allow_egress := f_allow_egress f;
        e_sources := [(lit "mem", mem_src); (lit "cmdline", cl_src); (lit "ff", ff_src); (lit "max-virtual-time", mvt_src);
                      (lit "max-jump-secs", mj_src)] ++ (if f_allow_egress f then [(lit "egress", FromFlag)] else []) |}.

Definition from_boot (f : CommonRunFlags) : result ConfigError EffectiveConfig := resolve f None.
Definition from_run (f : CommonRunFlags) (baked : RunDefaults) : result ConfigError EffectiveConfig := resolve f (Some baked).
End config.

Definition ff_mode_statement (fast_forward ff_explicit : bool) : list Z :=
  let state := if fast_forward then lit "ON" else lit "OFF" in
  let how := match ff_explicit, fast_forward with
             | true, true => lit "--ff on"
             | true, false => lit "--ff off"
             | false, _ => lit "default"
             end in
  lit "fast-forward: " ++ state ++ lit " (" ++ how ++ lit ")".

(** ** [run] *)

(** The files of the host: those of the store, and their bytes. *)
Class RunFs (F : Type) `{!StoreFs F} := { file_bytes : F -> list Z -> result ArtifactError (list Z) }.

Record RunArgs := { r_artifact : list Z; r_no_verify : bool; r_common : CommonRunFlags }.

Record Boot := { b_kernel : list Z; b_initramfs : list Z; b_config : EffectiveConfig }.

Inductive RunError := RunArtifact (e : ArtifactError) | RunConfig (e : ConfigError).

Section run.
Context {F : Type} `{!StoreFs F, !RunFs F} (fs : F) {MJ : ManifestJson} {H : Type} {SH : Sha256 H}.
Variable parse_f64 : list Z -> option spec_float.
Variable env : list Z -> option (list Z).

Definition artifact_err {A} (r : result ArtifactError A) : result RunError A := match r with Ok a => Ok a | Err e => Err (RunArtifact e) end.
Definition config_err {A} (r : result ConfigError A) : result RunError A := match r with Ok a => Ok a | Err e => Err (RunConfig e) end.

(** [artifact::resolve]. *)
Definition resolve_arg (arg : list Z) : result ArtifactError (list Z) := resolve_in fs (store_dir env) arg.

(** [cmd_run] as far as what is booted, and with which configuration; the
    identity it logs, for which it reads the file again, is left out. *)
Definition load_run (a : RunArgs) : result RunError Boot :=
  path ← artifact_err (resolve_arg (r_artifact a));
  file ← artifact_err (file_bytes fs path);
  payload ← artifact_err (read_for_run file);
  _ ← (if r_no_verify a then Ok tt else artifact_err (verify_members payload));
  eff ← config_err (from_run parse_f64 (r_common a) (run_defaults (rp_manifest payload)));
  Ok {| b_kernel := rp_kernel payload; b_initramfs := rp_initramfs payload; b_config := eff |}.

(** [cmd_inspect]: the bytes it prints; [cmd_verify]: its exit code. *)
Definition cmd_inspect (arg : list Z) : result ArtifactError (list Z) :=
  path ← resolve_arg arg;
  file ← file_bytes fs path;
  m ← read_manifest file;
  to_canonical_json m.

Definition cmd_verify (arg : list Z) : result ArtifactError Z :=
  path ← resolve_arg arg;
  file ← file_bytes fs path;
  report ← verify file;
  Ok (if all_ok report then 0 else 1).
End run.

(** ** What is resolved *)

Lemma parse_duration_sane parse_f64 s x : parse_duration_secs parse_f64 s = Some x -> f64_finite x = true /\ f64_positive x = true.
Proof.
  unfold parse_duration_secs. destruct (match Store.strip_suffix (lit "ms") (trim s) with Some _ => _ | None => _ end) as [num mult].
  destruct (parse_f64 (trim num)) as [n|]; [|done]. cbn [mbind option_bind].
  destruct (f64_finite _ && f64_positive _) eqn:E; [|done]. intros [= <-]. by apply andb_true_iff in E.
Qed.

(** The knobs of a configuration, and that its two durations are sane; egress
    is the flag's alone. *)
Lemma resolved_config parse_f64 f baked e : resolve parse_f64 f baked = Ok e ->
  e_mem_mib e = (knob (f_mem f) (Artifact.mem_mib <$> baked) DEFAULT_MEM_MIB).1 /\
  e_cmdline e = (knob (f_cmdline f) (cmdline <$> baked) DEFAULT_CMDLINE).1 /\
  e_fast_forward e = (knob (f_ff f) (fast_forward <$> baked) true).1 /\
  e_allow_egress e = f_allow_egress f /\
  f64_finite (e_max_jump_secs e) = true /\ f64_positive (e_max_jump_secs e) = true /\
  (forall x, e_max_virtual_time_secs e = Some x -> f64_finite x = true /\ f64_positive x = true) /\
  (e_max_virtual_time_secs e = None <-> f_max_virtual_time f = None /\ baked ≫= max_virtual_time = None).
Proof.
  unfold resolve. destruct (knob (f_mem f) _ _) as [mem ms], (knob (f_cmdline f) _ _) as [cl cs], (knob (f_ff f) _ _) as [ff fs].
  intros ([mvt src] & Hm & H)%result_bind_Ok. apply result_bind_Ok in H as ([mj js] & Hj & [= <-]).
  cbn [e_mem_mib e_cmdline e_fast_forward e_allow_egress e_max_jump_secs e_max_virtual_time_secs fst]. do 4 (split; [done|]).
  assert (Hjs : f64_finite mj = true /\ f64_positive mj = true).
  { destruct (f_max_jump_secs f) as [v|]; [|by injection Hj as <- _]. destruct (f64_finite v && f64_positive v) eqn:E; [|done].
    injection Hj as <- _. by apply andb_true_iff in E. }
  destruct Hjs as [Hj1 Hj2]. do 2 (split; [done|]).
  assert (Hdur : forall s (y z : Source), (x ← parse_dur parse_f64 s; Ok (Some x, y)) = Ok (E := ConfigError) (mvt, z) -> exists x, mvt = Some x /\ f64_finite x = true /\ f64_positive x = true).
  { intros s y z. unfold parse_dur. destruct (parse_duration_secs parse_f64 s) as [x|] eqn:E; [|done]. intros [= <- _].
    exists x. split; [done|]. by eapply parse_duration_sane. }
  destruct (f_max_virtual_time f) as [s|]; [|destruct baked as [b|]; [cbn [mbind option_bind]; destruct (max_virtual_time b) as [s|]|]].
  - destruct (Hdur _ _ _ Hm) as (x & -> & Hx). split; [by intros y [= <-]|]. split; [done|by intros []].
  - destruct (Hdur _ _ _ Hm) as (x & -> & Hx). split; [by intros y [= <-]|]. split; [done|by intros []].
  - injection Hm as <- _. done.
  - injection Hm as <- _. done.
Qed.

(** The store is where a build without [--cache-dir] puts its artifacts. *)
Lemma store_is_cache env : store_dir env = join_path (resolve_cache_dir env None).1 (lit "artifacts").
Proof. unfold store_dir, resolve_cache_dir. by destruct (env (lit "TDVMM_CACHE_DIR")) as [[|c d]|]. Qed.

Lemma safe_name_no_slash s : is_safe_path_component s = true -> 47 ∉ s.
Proof.
  unfold is_safe_path_component. rewrite !andb_true_iff. intros [_ Hs] Hin.
  rewrite forallb_forall in Hs. specialize (Hs 47). rewrite <- list_elem_of_In in Hs. by specialize (Hs Hin).
Qed.

Section built.
Context {F : Type} `{!StoreFs F, !RunFs F} (fs : F) {MJ : ManifestJson} {H : Type} {SH : Sha256 H} {W : Type} `{!Write W, !WriteLaws W}.

(** C16: What was built is what runs: an artifact that was sealed, written
    without error and left where [build] puts it under an accepted name, is
    what [run] of that name boots, kernel and initramfs to the byte, with the
    flags over the defaults that were packed, whether or not its members are
    checked again; and [verify] of that name finds nothing wrong.  A name that
    itself ends in [.tdvmm] is the exception. *)
Theorem built_artifact_runs parse_f64 env name ids lock kernel initrd a (w : W) wr w' f no_verify :
  parse_stack_name name = Ok name -> Store.strip_suffix SUFFIX name = None ->
  initramfs (add_kernel (add_compose_lock ids lock) kernel) initrd = Ok a ->
  write_to a w = (Ok wr, w') -> intact w' = true -> written w = [] -> Z.of_nat (length (artifact_bytes a)) < 2 ^ 64 ->
  let out := join_path (join_path (resolve_cache_dir env None).1 (lit "artifacts")) (name ++ SUFFIX) in
  is_file fs out = true -> file_bytes fs out = Ok (written w') ->
  load_run fs parse_f64 env {| r_artifact := name; r_no_verify := no_verify; r_common := f |}
  = (eff ← config_err (from_run parse_f64 f (ab_run_defaults ids)); Ok {| b_kernel := kernel; b_initramfs := initrd; b_config := eff |}) /\
  cmd_verify fs env name = Ok 0.
Proof.
  intros Hn Hsuf Hs Hw Hi Hw0 Hl out Hf Hb.
  destruct (written_reads _ _ _ _ _ _ _ _ Hs Hw Hi Hw0 Hl) as (_ & _ & Hr & r & Hv & Hok & _).
  assert (Hres : resolve_arg fs env name = Ok out).
  { unfold resolve_arg, resolve_in. unfold parse_stack_name in Hn.
    destruct (is_safe_path_component name) eqn:Es; [|by case_bool_decide].
    rewrite bool_decide_false by (by apply safe_name_no_slash). rewrite Hsuf. cbn [from_option]. unfold id.
    rewrite store_is_cache. fold out. by rewrite Hf. }
  unfold load_run, cmd_verify. cbn [r_artifact r_no_verify r_common]. rewrite Hres. cbn [artifact_err mbind result_bind].
  rewrite Hb. cbn [artifact_err mbind result_bind]. rewrite Hr, Hv. cbn [artifact_err mbind result_bind rp_manifest rp_kernel rp_initramfs].
  rewrite Hok. split; [|done]. rewrite (proj2 (verify_members_iff ids lock kernel initrd lock kernel initrd)) by done. by destruct no_verify.
Qed.
End built.

(** ** A small store *)

(** One artifact, under one name. *)
#[export] Instance OneDir_run_fs : RunFs OneDir := { file_bytes _ _ := Ok (written toy_written) }.

Definition demo_store : OneDir := (lit "/c/artifacts", [lit "dogfood.tdvmm"]).
Definition demo_env (v : list Z) : option (list Z) := if bool_decide (v = lit "TDVMM_CACHE_DIR") then Some (lit "/c") else None.
Definition no_flags : CommonRunFlags :=
  {| f_mem := Some 4096; f_cmdline := None; f_ff := None; f_max_jump_secs := None; f_max_virtual_time := None; f_metrics_out := None; f_allow_egress := false |}.

Lemma built_artifact_runs_witness :
  (exists e, load_run (H := list Z) demo_store (fun _ => None) demo_env {| r_artifact := lit "dogfood"; r_no_verify := false; r_common := no_flags |}
    = Ok {| b_kernel := [2; 3]; b_initramfs := [4]; b_config := e |} /\ e_mem_mib e = 4096 /\ e_cmdline e = lit "console=ttyS0") /\
  cmd_verify (H := list Z) demo_store demo_env (lit "dogfood") = Ok 0.
Proof.
  destruct (built_artifact_runs (H := list Z) demo_store (fun _ => None) demo_env (lit "dogfood") toy_ids [1] [2; 3] [4] toy_sealed toy_sink
    {| w_sha256_hex := sha256_hex (H := list Z) (written toy_written); w_len := 5120 |} toy_written no_flags false) as [Hrun Hver];
    [vm_compute; reflexivity|vm_compute; reflexivity|vm_compute; reflexivity|vm_compute; reflexivity|done|done|vm_compute; reflexivity
    |vm_compute; reflexivity|reflexivity|].
  split; [|exact Hver]. rewrite Hrun. eexists. split; [reflexivity|]. by split.
Defined.

Example duration_minutes :
  parse_duration_secs (fun s => if bool_decide (s = lit "5") then Some (S754_finite false (5 * 2 ^ 50) (-50)) else None) (lit " 5 m")
  = Some (S754_finite false (300 * 2 ^ 44) (-44)).
Proof. by vm_compute. Qed.
