(* ===== verification/Normalize.v ===== *)
(** * What the assembly erases ([src/src/build/initramfs.rs])

    [normalize_created_json] and [truncate_locks], file by file: the creation
    times and the lock tokens of the image store are not reproducible, and
    are overwritten.  The regular expression is matched by hand: its classes
    are ASCII, and what follows the repeated class is not in it. *)

From Stdlib Require Import ZArith Lia.
From stdpp Require Import base numbers strings list.
From S2P Require Import Prelude.
From S2P Require Import Text.
From S2P Require Import Utf8.
From S2P Require Import TreeHash.

Open Scope Z_scope.

(** ** The pattern *)

Definition is_digit (b : Z) : bool := (48 <=? b) && (b <=? 57).
Definition in_time (b : Z) : bool := is_digit b || (b =? 58) || (b =? 46).

(** One element of the pattern takes one byte. *)
Inductive Elem := Byte (b : Z) | Digit.

Definition elem_ok (e : Elem) (b : Z) : bool := match e with Byte c => b =? c | Digit => is_digit b end.

Fixpoint take_elems (es : list Elem) (s : list Z) : option (list Z) :=
  match es, s with
  | [], _ => Some s
  | e :: es, b :: s => if elem_ok e b then take_elems es s else None
  | _ :: _, [] => None
  end.

(** [drop_while] of the repeated class. *)
Fixpoint drop_time (s : list Z) : list Z :=
  match s with b :: s' => if in_time b then drop_time s' else s | [] => [] end.

Definition QUOTED_CREATED : list Z := 34 :: lit "created" ++ 34 :: 58 :: [34].

Definition PREFIX : list Elem :=
  (Byte <$> QUOTED_CREATED) ++ [Digit; Digit; Digit; Digit; Byte 45; Digit; Digit; Byte 45; Digit; Digit; Byte 84].

(** What follows a match at the start of a text. *)
Definition stamp_at (s : list Z) : option (list Z) :=
  s ← take_elems PREFIX s;
  match s with
  | b :: _ =>
      if in_time b then
        match drop_time s with
        | 90 :: 34 :: rest => Some rest
        | _ => None
        end
      else None
  | [] => None
  end.

Definition STAMP : list Z := QUOTED_CREATED ++ lit "2026-08-01T00:00:00Z" ++ [34].

(** [replace_all], leftmost first. *)
Fixpoint replace_loop (fuel : nat) (s : list Z) : list Z :=
  match fuel, s with
  | S fuel, b :: s' =>
      match stamp_at s with
      | Some rest => STAMP ++ replace_loop fuel rest
      | None => b :: replace_loop fuel s'
      end
  | _, _ => []
  end.

Definition replace_all (s : list Z) : list Z := replace_loop (length s) s.

(** ** The files *)

(** [Path::extension] of a file name, as text. *)
Fixpoint after_last_dot (s : list Z) : option (list Z) :=
  match s with
  | [] => None
  | b :: s => match after_last_dot s with Some e => Some e | None => if b =? 46 then Some s else None end
  end.

Definition extension (name : list Z) : option (list Z) :=
  match name with
  | [] => None
  | _ :: rest => match after_last_dot rest with Some e => if from_utf8_ok e then Some e else None | None => None end
  end.

(** What [normalize_created_json] leaves in a file it can read. *)
Definition normalize_created (name text : list Z) : list Z :=
  if bool_decide (extension name = Some (lit "json")) && from_utf8_ok text then replace_all text else text.

(** What [truncate_locks] does. *)
Definition truncate_lock (name text : list Z) : list Z :=
  if bool_decide (extension name = Some (lit "lock")) then [] else text.

(** ** The pattern as a set of words *)

Inductive is_stamp : list Z -> Prop :=
  | stamp_word p t : take_elems PREFIX p = Some [] -> t <> [] -> Forall (fun b => in_time b = true) t -> is_stamp (p ++ t ++ [90; 34]).

Lemma take_elems_split es : forall s r, take_elems es s = Some r -> exists p, s = p ++ r /\ take_elems es p = Some [] /\ length p = length es.
Proof.
  induction es as [|e es IH]; intros s r; cbn [take_elems]; [intros [= ->]; by exists []|].
  destruct s as [|b s]; [done|]. destruct (elem_ok e b) eqn:Ee; [|done]. intros (p & -> & Hp & Hl)%IH.
  exists (b :: p). cbn. rewrite Ee. by rewrite Hp, Hl.
Qed.

Lemma take_elems_app es : forall p r, take_elems es p = Some [] -> take_elems es (p ++ r) = Some r.
Proof.
  induction es as [|e es IH]; intros p r; cbn [take_elems]; [by intros [= ->]|].
  destruct p as [|b p]; [done|]. cbn. destruct (elem_ok e b); [apply IH|done].
Qed.

Lemma drop_time_split s : exists t, s = t ++ drop_time s /\ Forall (fun b => in_time b = true) t.
Proof.
  induction s as [|b s (t & IH & Ht)]; [by exists []|]. cbn. destruct (in_time b) eqn:Eb; [|by exists []].
  exists (b :: t). split; [by rewrite IH at 1|by constructor].
Qed.

Lemma drop_time_app t r : Forall (fun b => in_time b = true) t -> match r with b :: _ => in_time b = false | [] => True end ->
  drop_time (t ++ r) = r.
Proof.
  intros Ht Hr. induction Ht as [|b t Hb _ IH]; cbn; [destruct r as [|b r]; [done|]; cbn; by rewrite Hr|by rewrite Hb].
Qed.

Lemma stamp_at_iff s r : stamp_at s = Some r <-> exists w, is_stamp w /\ s = w ++ r.
Proof.
  split.
  - unfold stamp_at. destruct (take_elems PREFIX s) as [s1|] eqn:Ep; [|done]. cbn [mbind option_bind].
    apply take_elems_split in Ep as (p & -> & Hp & _). destruct (drop_time_split s1) as (t & Ht & Hf).
    destruct s1 as [|b s1]; [done|]. destruct (in_time b) eqn:Eb; [|done].
    destruct (drop_time (b :: s1)) as [|x [|y rest]] eqn:Ed; [done|by repeat case_match|].
    intros Hm. assert (x = 90 /\ y = 34 /\ rest = r) as (-> & -> & ->) by (repeat case_match; simplify_eq; done).
    exists (p ++ t ++ [90; 34]). split; [|by rewrite Ht, <- !(assoc_L (++))].
    constructor; [done| |done]. intros ->. by injection Ht as -> _.
  - intros (w & [p t Hp Hne Hf] & ->). unfold stamp_at. rewrite <- !(assoc_L (++)), take_elems_app by done. cbn [mbind option_bind].
    destruct t as [|b t]; [done|]. pose proof Hf as Hf'. apply Forall_cons in Hf' as [Hb _]. cbn [app]. rewrite Hb.
    change (drop_time _) with (drop_time ((b :: t) ++ 90 :: 34 :: r)). by rewrite drop_time_app.
Qed.

(** ** Quotes *)

(** A quote of a stamp is followed by a [c] only where the stamp begins. *)
Fixpoint quote_c (s : list Z) : bool :=
  match s with
  | b :: s' => (b =? 34) && bool_decide (head s' = Some 99) || quote_c s'
  | [] => false
  end.

Lemma time_no_quote t : Forall (fun b => in_time b = true) t -> Forall (fun b => b <> 34) t.
Proof. intros Ht. eapply Forall_impl; [exact Ht|]. by intros b Hb ->. Qed.

Lemma quote_c_plain p r : Forall (fun b => b <> 34) p -> quote_c (p ++ r) = quote_c r.
Proof. induction 1 as [|b p Hb _ IH]; [done|]. cbn [app quote_c]. by rewrite (proj2 (Z.eqb_neq b 34)). Qed.

(** The bytes of the prefix, one after another. *)
Lemma elems_shape p : take_elems PREFIX p = Some [] -> exists d, p = QUOTED_CREATED ++ d /\ Forall (fun b => b <> 34 /\ b <> 99) d /\ d <> [].
Proof.
  assert (Hb : forall bs es s, take_elems ((Byte <$> bs) ++ es) s = Some [] -> exists d, s = bs ++ d /\ take_elems es d = Some []).
  { induction bs as [|c bs IH]; intros es s; cbn; [intros ?; by exists s|]. destruct s as [|b s]; [done|].
    destruct (Z.eqb_spec b c) as [->|]; [|done]. intros (d & -> & Hd)%IH. by exists d. }
  assert (Hd : forall es s, Forall (fun e => match e with Byte b => b <> 34 /\ b <> 99 | Digit => True end) es -> take_elems es s = Some [] ->
    Forall (fun b => b <> 34 /\ b <> 99) s /\ length s = length es).
  { induction es as [|e es IH]; intros s He; cbn; [intros [= ->]; by split|]. destruct s as [|b s]; [done|].
    apply Forall_cons in He as [He Hes]. destruct (elem_ok e b) eqn:Eb; [|done]. intros (Hs & Hl)%IH; [|done].
    split; [|cbn; lia]. constructor; [|done]. destruct e as [c|]; cbn in Eb; unfold is_digit in Eb; bool_prop; lia. }
  intros (d & -> & Ht)%Hb. apply Hd in Ht as [Hs Hl]; [|repeat constructor; lia]. exists d. split; [done|]. split; [done|]. by intros ->.
Qed.

Lemma stamp_shape w : is_stamp w -> exists q, w = 34 :: 99 :: q /\ quote_c (99 :: q) = false /\ exists d, w = d ++ [90; 34] /\ (2 <= length d)%nat.
Proof.
  intros [p t Hp Hne Hf]. pose proof (elems_shape p Hp) as (d & -> & Hd & Hdne).
  eexists. split; [reflexivity|]. split.
  - change (quote_c ((99 :: lit "reated") ++ 34 :: 58 :: 34 :: ((d ++ t ++ [90; 34]))) = false).
    rewrite (quote_c_plain (99 :: lit "reated")) by (apply (bool_decide_unpack _); by vm_compute). cbn [quote_c]. destruct d as [|b d]; [done|].
    apply Forall_cons in Hd as [Hb Hd]. cbn [app]. assert (Hq : quote_c (b :: d ++ t ++ [90; 34]) = false).
    { change (quote_c ((b :: d) ++ t ++ [90; 34]) = false). rewrite quote_c_plain by (constructor; [tauto|]; eapply Forall_impl; [exact Hd|]; tauto).
      by rewrite quote_c_plain by (by apply time_no_quote). }
    rewrite Hq. cbn [head]. rewrite (bool_decide_false (Some b = Some 99)) by (intros [= ?]; tauto). done.
  - exists ((QUOTED_CREATED ++ d) ++ t). split; [by rewrite <- !(assoc_L (++))|]. cbn. lia.
Qed.

(** ** The replacement *)

Lemma stamp_at_word w r : is_stamp w -> stamp_at (w ++ r) = Some r.
Proof. intros Hw. apply stamp_at_iff. by exists w. Qed.

Lemma STAMP_is_stamp : is_stamp STAMP.
Proof. assert (Hs : stamp_at STAMP = Some []) by (by vm_compute). apply stamp_at_iff in Hs as (w & Hw & E). rewrite app_nil_r in E. by rewrite E. Qed.

Lemma stamp_at_shorter s r : stamp_at s = Some r -> (length r < length s)%nat.
Proof. intros (w & (q & -> & _)%stamp_shape & ->)%stamp_at_iff. cbn. rewrite length_app. lia. Qed.

Lemma replace_fuel n : forall s, (length s <= n)%nat -> replace_loop n s = replace_all s.
Proof.
  assert (Hmono : forall m k s, (length s <= m)%nat -> (length s <= k)%nat -> replace_loop m s = replace_loop k s).
  { induction m as [|m IH]; intros k [|b s] Hm Hk; try (cbn in *; lia); destruct k as [|k]; try (cbn in *; lia); try done.
    cbn [replace_loop]. destruct (stamp_at (b :: s)) as [r|] eqn:Es.
    - apply stamp_at_shorter in Es. cbn [length] in *. f_equal. apply IH; lia.
    - cbn [length] in *. f_equal. apply IH; lia. }
  intros s Hs. by apply Hmono.
Qed.

Lemma replace_all_cons b s :
  replace_all (b :: s) = match stamp_at (b :: s) with Some r => STAMP ++ replace_all r | None => b :: replace_all s end.
Proof.
  unfold replace_all at 1. cbn [length replace_loop]. destruct (stamp_at (b :: s)) as [r|] eqn:Es.
  - apply stamp_at_shorter in Es. cbn in Es. by rewrite replace_fuel by lia.
  - by rewrite replace_fuel.
Qed.

Lemma replace_all_stamp w r : is_stamp w -> replace_all (w ++ r) = STAMP ++ replace_all r.
Proof.
  intros Hw. pose proof (stamp_at_word w r Hw) as Hs. destruct (w ++ r) as [|b s] eqn:E.
  - by apply stamp_shape in Hw as (q & -> & _).
  - by rewrite replace_all_cons, Hs.
Qed.

(** A piece that begins no stamp comes from the text itself. *)
Lemma replaced_prefix q : forall s, quote_c q = false -> q `prefix_of` replace_all s -> q `prefix_of` s.
Proof.
  induction q as [|b q IH]; intros s Hq Hp; [apply prefix_nil|]. destruct s as [|c s]; [by apply prefix_nil_inv in Hp|].
  rewrite replace_all_cons in Hp. destruct (stamp_at (c :: s)) as [r|] eqn:Es.
  - apply stamp_at_iff in Es as (w & (q' & -> & _)%stamp_shape & E). injection E as -> ->.
    change (STAMP ++ replace_all r) with (34 :: 99 :: drop 2 STAMP ++ replace_all r) in Hp.
    pose proof (prefix_cons_inv_1 _ _ _ _ Hp) as ->. apply prefix_cons_inv_2 in Hp. destruct q as [|b q]; [apply prefix_cons, prefix_nil|].
    pose proof (prefix_cons_inv_1 _ _ _ _ Hp) as ->. done.
  - pose proof (prefix_cons_inv_1 _ _ _ _ Hp) as ->. apply prefix_cons_inv_2 in Hp. apply prefix_cons, IH; [|done].
    cbn [quote_c] in Hq. by apply orb_false_iff in Hq as [_ ?].
Qed.

(** A stamp of a text starts before another only if it ends before it, the
    byte before the other being no [Z]. *)
Lemma stamp_before u w v r : is_stamp w -> u <> [] -> last u <> Some 90 -> stamp_at (u ++ w ++ v) = Some r ->
  exists p u', is_stamp p /\ u = p ++ u' /\ r = u' ++ w ++ v.
Proof.
  intros Hw Hu Hl (p & Hp & E)%stamp_at_iff. exists p. apply app_eq_app in E as (x & [[-> ->]|[-> E]]); [by exists x|].
  destruct x as [|b x]; [exists []; by rewrite !app_nil_r in *|]. exfalso.
  apply stamp_shape in Hw as (q & -> & _). pose proof Hp as (q' & Eq & Hqc & d & Ed & Hd)%stamp_shape. injection E as <- E.
  destruct x as [|c x].
  - apply Hl. change (d ++ [90; 34]) with (d ++ [90] ++ [34]) in Ed. rewrite (assoc_L (++)) in Ed. apply app_inj_2 in Ed as [-> _]; [|done].
    by rewrite last_snoc.
  - injection E as <- E. destruct u as [|c0 u]; [done|]. injection Eq as -> Eq. rewrite <- Eq in Hqc.
    assert (Htrue : forall l, quote_c (l ++ 34 :: 99 :: x) = true) by (induction l as [|? l IH]; cbn; [done|by rewrite IH, orb_true_r]).
    by rewrite Htrue in Hqc.
Qed.

(** Rewriting twice is rewriting once. *)
Lemma replace_all_idem s : replace_all (replace_all s) = replace_all s.
Proof.
  remember (length s) as n eqn:En. revert s En. induction n as [n IH] using lt_wf_ind.
  intros [|b s] ->; [done|]. rewrite replace_all_cons. destruct (stamp_at (b :: s)) as [r|] eqn:E.
  + rewrite replace_all_stamp by apply STAMP_is_stamp. f_equal. apply stamp_at_shorter in E. by apply (IH (length r)).
  + rewrite replace_all_cons. destruct (stamp_at (b :: replace_all s)) as [r|] eqn:E'; [|f_equal; apply (IH (length s)); [cbn; lia|done]].
    exfalso. apply stamp_at_iff in E' as (p & Hp & Ep). pose proof Hp as (q & -> & Hq & _)%stamp_shape. injection Ep as -> Ep.
    assert (Hpre : 99 :: q `prefix_of` s) by (apply replaced_prefix; [done|]; exists r; done).
    destruct Hpre as [r' ->]. change (34 :: (99 :: q) ++ r') with ((34 :: 99 :: q) ++ r') in E. by rewrite stamp_at_word in E.
Qed.

(** C36: The creation times leave no trace: rewriting a JSON text once is
    rewriting it again, and two texts that differ only in a time written
    somewhere (not straight after another [Z]) are rewritten to the same
    text. *)
Theorem created_times_erased u w w' v : is_stamp w -> is_stamp w' -> last u <> Some 90 ->
  replace_all (u ++ w ++ v) = replace_all (u ++ w' ++ v) /\ replace_all (replace_all (u ++ w ++ v)) = replace_all (u ++ w ++ v).
Proof.
  intros Hw Hw' Hl. split.
  - revert Hl. remember (length u) as n eqn:En. revert u En. induction n as [n IH] using lt_wf_ind. intros u -> Hl.
    destruct u as [|b u]; [cbn [app]; by rewrite !replace_all_stamp|].
    change ((b :: u) ++ w ++ v) with (b :: (u ++ w ++ v)). change ((b :: u) ++ w' ++ v) with (b :: (u ++ w' ++ v)).
    assert (Hback : forall w1 w2, is_stamp w1 -> is_stamp w2 -> stamp_at (b :: u ++ w1 ++ v) = None -> stamp_at (b :: u ++ w2 ++ v) = None).
    { intros w1 w2 H1 H2 Hn. destruct (stamp_at (b :: u ++ w2 ++ v)) as [r|] eqn:E; [|done].
      destruct (stamp_before (b :: u) w2 v r H2 ltac:(done) Hl E) as (p & u' & Hp & Eu & _).
      change (b :: u ++ w1 ++ v) with ((b :: u) ++ w1 ++ v) in Hn. rewrite Eu, <- (assoc_L (++)), stamp_at_word in Hn by done. done. }
    destruct (stamp_at (b :: u ++ w ++ v)) as [r|] eqn:E.
    + destruct (stamp_before (b :: u) w v r Hw ltac:(done) Hl E) as (p & u' & Hp & Eu & _).
      change (b :: u ++ w ++ v) with ((b :: u) ++ w ++ v). change (b :: u ++ w' ++ v) with ((b :: u) ++ w' ++ v).
      rewrite Eu in *. rewrite <- !(assoc_L (++)), !(replace_all_stamp p) by done. f_equal. apply (IH (length u')); [|done|].
      * rewrite length_app. apply stamp_shape in Hp as (q & -> & _). cbn. lia.
      * destruct u' as [|c u']; [done|]. by rewrite last_app_cons in Hl.
    + rewrite !replace_all_cons, E, (Hback w w' Hw Hw' E). f_equal. apply (IH (length u)); [cbn; lia|done|].
      destruct u as [|c u]; [done|]. by rewrite last_cons_cons in Hl.
  - apply replace_all_idem.
Qed.

(** Every [.lock] file is emptied, whoever's it is. *)
Example user_locks_truncated text :
  truncate_lock (lit "yarn.lock") text = [] /\ truncate_lock (lit "Cargo.lock") text = [] /\ truncate_lock (lit ".lock") text = text.
Proof. done. Qed.

Lemma created_times_erased_witness :
  let w d := QUOTED_CREATED ++ lit "2026-0" ++ d ++ lit "-01T10:20:30.123Z" ++ [34] in
  replace_all (lit "{" ++ w (lit "1") ++ lit "}") = replace_all (lit "{" ++ w (lit "2") ++ lit "}") /\
  replace_all (replace_all (lit "{" ++ w (lit "1") ++ lit "}")) = replace_all (lit "{" ++ w (lit "1") ++ lit "}").
Proof.
  intros w. assert (Hw : forall d, stamp_at (w d) = Some [] -> is_stamp (w d)).
  { intros d (w0 & Hw0 & E)%stamp_at_iff. rewrite app_nil_r in E. by rewrite E. }
  apply (created_times_erased (lit "{") (w (lit "1")) (w (lit "2")) (lit "}")); [apply Hw; by vm_compute|apply Hw; by vm_compute|by vm_compute].
Defined.
