(* ===== verification/Assemble.v ===== *)
(** * Putting a rootfs together ([src/src/build/initramfs.rs], [src/src/build/overlay.rs])

    The base tree and the stack tree of an initramfs, as calls on the trees of
    [Trees]: the overlay, the copies of the seed store and of the binds, and
    the passes that erase times and locks ([Normalize] says what they do to
    one file).  Unpacking the base's tar is a parameter. *)

From Stdlib Require Import ZArith Lia.
From stdpp Require Import base numbers strings gmap list.
From S2P Require Import Prelude.
From S2P Require Import Text.
From S2P Require Import Lines.
From S2P Require Import Utf8.
From S2P Require Import Tar.
From S2P Require Import Cpio.
From S2P Require Import TreeHash.
From S2P Require Import Cache.
From S2P Require Import Normalize.
From S2P Require Import Trees.

Open Scope Z_scope.

(** [Path::join] of a relative path. *)
Definition components (s : list Z) : fpath := let '(first, rest) := split_char 47 s in first :: rest.
Definition join (p : fpath) (s : list Z) : fpath := p ++ components s.

Fixpoint for_each {A : Type} (f : A -> FS unit) (l : list A) : FS unit :=
  match l with
  | [] => mret tt
  | x :: l => _ ← f x; for_each f l
  end.

(** The overlay's directories, parents first. *)
Definition OVERLAY_DIRS : list (list Z) := [lit "etc"; lit "etc/containers"; lit "usr"; lit "usr/local"; lit "usr/local/bin"].

Record AssembleConfig := {
  work : fpath; base_rootfs_tar : fpath; build_epoch : list Z; compose_cache : fpath; agent_bin : fpath;
  seed_storage : fpath; selftest_image_ref : list Z; ac_stack_name : list Z; stack_project : list Z;
  ac_stack_lock : fpath; stack_binds : fpath; stack_mem : Z; ac_packages_lock : fpath;
  base_hit : bool; ac_base_segment : fpath; base_packages_lock : fpath; ac_out : fpath;
}.

Section process.
Variables (privileged fsetid : bool) (umask : Z).

Abbreviation write := (write privileged fsetid umask).
Abbreviation copy := (copy privileged fsetid umask).
Abbreviation set_mode := (set_mode privileged).

(** ** The overlay *)

Definition materialize (em : Embedded) (rootfs : fpath) : FS unit :=
  _ ← for_each (fun dir =>
        let d := join rootfs dir in
        there ← path_exists privileged d;
        if there : bool then mret tt else _ ← create_dir privileged umask d; set_mode d 493) OVERLAY_DIRS;
  for_each (fun f =>
    let dst := join rootfs (o_path f) in
    _ ← write dst (overlay_bytes em (o_path f));
    set_mode dst (o_mode f)) OVERLAY_FILES.

(** ** Passes over a tree *)

(** The loop over one listing: directories are pushed, files kept. *)
Fixpoint scan_entries (d : fpath) (names : list (list Z)) (stack out : list fpath) : FS (list fpath * list fpath) :=
  _ ← next_entry;
  match names with
  | [] => mret (stack, out)
  | c :: names =>
      let p := d ++ [c] in
      meta ← symlink_metadata privileged p;
      match meta with
      | Dir _ => scan_entries d names (p :: stack) out
      | File _ _ => scan_entries d names stack (out ++ [p])
      | Link _ => scan_entries d names stack out
      end
  end.

Fixpoint walk_loop (fuel : nat) (stack out : list fpath) : FS (list fpath) :=
  match stack, fuel with
  | [], _ => mret out
  | _, O => fail ENAMETOOLONG
  | d :: stack, S fuel =>
      dir ← is_dir privileged d;
      if negb dir then walk_loop fuel stack out
      else names ← read_dir privileged d;
           '(stack, out) ← scan_entries d names stack out;
           walk_loop fuel stack out
  end.

(** Every turn of the loop pops a directory, and meets each at most once. *)
Definition walk_files (dir : fpath) : FS (list fpath) := fun w => walk_loop (S (size (tree w))) [dir] [] w.

Definition file_name (p : fpath) : list Z := default [] (last p).

(** [Regex::is_match]. *)
Fixpoint is_match (s : list Z) : bool :=
  match stamp_at s with
  | Some _ => true
  | None => match s with [] => false | _ :: s => is_match s end
  end.

Definition normalize_file (p : fpath) : FS unit :=
  if bool_decide (extension (file_name p) = Some (lit "json")) then
    r ← attempt (read privileged p);
    match r with
    | Ok text => if from_utf8_ok text && is_match text then write p (replace_all text) else mret tt
    | Err _ => mret tt
    end
  else mret tt.

Definition normalize_created_json (dir : fpath) : FS unit :=
  files ← walk_files dir; for_each normalize_file files.

Definition truncate_file (p : fpath) : FS unit :=
  if bool_decide (extension (file_name p) = Some (lit "lock")) then write p [] else mret tt.

Definition truncate_locks (root : fpath) : FS unit :=
  files ← walk_files root; for_each truncate_file files.

(** ** The stack tree *)

Definition SCAFFOLD : list (list Z) :=
  [lit "var"; lit "var/lib"; lit "etc"; lit "var/lib/tdvmm-stack"; lit "var/lib/tdvmm-stack/binds"; lit "var/lib/containers-seed"].

Definition assemble_stack_tree (cfg : AssembleConfig) (rootfs : fpath) : FS unit :=
  _ ← create_dir_all privileged umask rootfs;
  _ ← for_each (fun d => _ ← create_dir_all privileged umask (join rootfs d); set_mode (join rootfs d) 493) SCAFFOLD;
  let lock := join rootfs (lit "var/lib/tdvmm-stack/compose.lock.yml") in
  _ ← copy (ac_stack_lock cfg) lock;
  _ ← set_mode lock 420;
  binds ← is_dir privileged (stack_binds cfg);
  _ ← (if binds : bool
       then ignore (copy_dir_contents privileged fsetid umask (stack_binds cfg) (join rootfs (lit "var/lib/tdvmm-stack/binds")))
       else mret tt);
  _ ← write (join rootfs (lit "etc/tdvmm-stack-name")) (ac_stack_name cfg ++ [LF]);
  _ ← write (join rootfs (lit "etc/tdvmm-stack-project")) (stack_project cfg ++ [LF]);
  _ ← write (join rootfs (lit "etc/tdvmm-stack-mem")) (dec (stack_mem cfg) ++ [LF]);
  _ ← copy_tree privileged fsetid umask (seed_storage cfg) (join rootfs (lit "var/lib/containers-seed/storage"));
  _ ← normalize_created_json (join rootfs (lit "var/lib/containers-seed"));
  truncate_locks rootfs.

(** ** The base tree *)

Definition remove_glob (dir : fpath) : FS unit :=
  d ← is_dir privileged dir;
  if negb d then mret tt
  else names ← read_dir privileged dir;
       for_entries (fun c =>
         let p := dir ++ [c] in
         d ← is_dir privileged p;
         if d : bool then remove_dir_all privileged p else remove_file privileged p) names.

(** [extract_tar] is the [tar] crate's. *)
Variable extract_tar : fpath -> fpath -> FS unit.

Definition assemble_base_tree (em : Embedded) (cfg : AssembleConfig) (rootfs : fpath) : FS unit :=
  _ ← create_dir_all privileged umask rootfs;
  _ ← extract_tar (base_rootfs_tar cfg) rootfs;
  _ ← materialize em rootfs;
  _ ← install_file privileged fsetid umask (compose_cache cfg) (join rootfs (lit "usr/local/bin/docker-compose")) 493;
  _ ← install_file privileged fsetid umask (agent_bin cfg) (join rootfs (lit "usr/local/bin/tdvmm-agent")) 493;
  _ ← write (join rootfs (lit "etc/tdvmm-build-epoch")) (build_epoch cfg ++ [LF]);
  _ ← write (join rootfs (lit "etc/tdvmm-image-ref")) (selftest_image_ref cfg ++ [LF]);
  _ ← ignore (remove_glob (join rootfs (lit "var/cache/apk")));
  _ ← ignore (remove_file privileged (join rootfs (lit "etc/resolv.conf")));
  _ ← ignore (remove_dir_all privileged (join rootfs (lit "root/.config/containers")));
  _ ← write (join rootfs (lit "etc/resolv.conf")) [];
  truncate_locks rootfs.

(** ** Segments *)

(** What [rootfs_segment] sees below a directory; there are no hard links here,
    so each path is an inode, with a number of its own. *)
Definition ino_of (t : FsTree) (p : fpath) : Z := Z.of_nat (default O (fst <$> list_find (fun kx => kx.1 = p) (map_to_list t))).

Definition meta_of (t : FsTree) (p : fpath) (x : Node) : Meta :=
  {| m_dev := 0; m_ino := ino_of t p; m_rdev := 0; m_nlink := match x with Dir _ => 2 | _ => 1 end;
     m_mode := match x with File m _ => S_IFREG + m | Link _ => S_IFLNK + 511 | Dir m => S_IFDIR + m end |}.

Definition errno (e : Errno) : Z :=
  match e with
  | ENOENT => 2 | EIO => 5 | EACCES => 13 | EEXIST => 17 | ENOTDIR => 20 | EISDIR => 21 | EINVAL => 22 | ENAMETOOLONG => 36 | ELOOP => 40
  end.

Definition at_errno {A : Type} (r : result Errno A) : result Z A := match r with Ok a => Ok a | Err e => Err (errno e) end.

#[local] Instance below_root (rootfs : fpath) : RootFs FsTree := {|
  Cpio.read_dir t p := at_errno (
    p ← resolve privileged true (rootfs ++ p) t;
    match t !! p with
    | Some (Dir m) => if may privileged 256 m then Ok (Ok <$> children p t) else Err EACCES
    | Some _ => Err ENOTDIR
    | None => Err ENOENT
    end);
  Cpio.symlink_metadata t p := at_errno (x ← stat privileged false (rootfs ++ p) t; Ok (meta_of t (rootfs ++ p) x));
  fs_read t p := at_errno (
    x ← stat privileged true (rootfs ++ p) t;
    match x with
    | File m bytes => if may privileged 256 m then Ok bytes else Err EACCES
    | Dir _ => Err EISDIR
    | Link _ => Err ELOOP
    end);
  fs_read_link t p := at_errno (x ← stat privileged false (rootfs ++ p) t; match x with Link target => Ok target | _ => Err EINVAL end);
|}.

Definition segment_of_tree (rootfs : fpath) (t : FsTree) : option (result CpioError (list Z)) :=
  rootfs_segment (H := below_root rootfs) (S (size t)) t.

Definition tree_segment (rootfs : fpath) : FS (list Z) :=
  observe (fun t => match segment_of_tree rootfs t with Some (Ok seg) => Ok seg | _ => Err EIO end).

Definition base_segment (em : Embedded) (cfg : AssembleConfig) : FS (list Z) :=
  if base_hit cfg then
    there ← is_file privileged (base_packages_lock cfg);
    _ ← (if there : bool then ignore (copy (base_packages_lock cfg) (join (work cfg) (lit "packages.lock"))) else mret tt);
    read privileged (ac_base_segment cfg)
  else
    let base_root := join (work cfg) (lit "rootfs-base") in
    _ ← assemble_base_tree em cfg base_root;
    seg ← tree_segment base_root;
    _ ← write (ac_base_segment cfg) seg;
    mret seg.

Definition stack_segment (cfg : AssembleConfig) : FS (list Z) :=
  let stack_root := join (work cfg) (lit "rootfs-stack") in
  _ ← assemble_stack_tree cfg stack_root;
  tree_segment stack_root.

(** [gzip] is flate2's, with no time and no name in it.  The two segments are
    made by two threads in two directories; this is one of the orders. *)
Definition cmd_assemble_initramfs {H : Type} `{Sha256 H} (gzip : list Z -> list Z) (em : Embedded) (cfg : AssembleConfig) : FS Z :=
  base_res ← attempt (base_segment em cfg);
  stack_res ← attempt (stack_segment cfg);
  base_seg ← (match base_res with Ok s => mret s | Err e => fail e end);
  stack_seg ← (match stack_res with Ok s => mret s | Err e => fail e end);
  _ ← write (ac_out cfg) (gzip (nodes_segment ++ base_seg ++ stack_seg));
  let pl := join (work cfg) (lit "packages.lock") in
  there ← is_file privileged pl;
  _ ← (if there : bool then copy pl (ac_packages_lock cfg) else mret tt);
  bytes ← read privileged (ac_out cfg);
  _ ← write (removelast (ac_out cfg) ++ [file_name (ac_out cfg) ++ lit ".sha256"])
        (sha256_hex bytes ++ lit "  " ++ file_name (ac_out cfg) ++ [LF]);
  mret 0.
End process.

(** ** What the overlay leaves *)

Section overlaying.
Variables (privileged fsetid : bool) (umask : Z) (calm : Prop).
Hypothesis calm_privileged : calm -> privileged = true.

Lemma enter_grounded p t : p <> [] -> grounded t p ->
  enter privileged p t = Ok tt \/ (privileged = false /\ exists e, enter privileged p t = Err e).
Proof.
  destruct p as [|c p _] using rev_ind; [done|]. intros _ (_ & m & Hm)%grounded_parent. unfold enter. rewrite removelast_last, Hm.
  unfold may. destruct privileged; [by left|]. destruct (_ =? _); [by left|right]. by split; [|eexists].
Qed.

(** A call that fails with things calm had to have a reason. *)
Definition blameless (p : fpath) (t t' : FsTree) : Prop := but p t t' /\ ~ calm.

Lemma set_mode_spec p mode t : Forall name_ok p -> grounded t p ->
  (exists m bytes, t !! p = Some (File m bytes)) \/ (exists m, t !! p = Some (Dir m)) ->
  from calm t (set_mode privileged p mode)
    (fun _ t' => t' = <[p := match t !! p with Some (File _ bytes) => File (Z.land mode 4095) bytes | _ => Dir (Z.land mode 4095) end]> t)
    (blameless p t).
Proof.
  intros Hn Hg Hx. assert (Hl : not_link (t !! p)) by (by destruct Hx as [(? & ? & ->)|(? & ->)]).
  destruct (resolve_plain privileged true p t Hn Hg (or_intror Hl)) as [Er|[Hpr Er]];
    (eapply from_weaken; [apply from_update|..]); cbn beta; unfold chmod_op; rewrite Er; cbn [mbind result_bind]; [..|done|].
  - intros [] t'. by destruct Hx as [(m & bytes & ->)|(m & ->)]; intros [= <-].
  - intros t' [-> Hc]. split; [by intros q|]. intros Hcalm. destruct (Hc Hcalm) as [e He]. by destruct Hx as [(m & bytes & E)|(m & E)]; rewrite E in He.
  - intros t' [-> _]. split; [by intros q|]. intros Hcalm. by rewrite calm_privileged in Hpr.
Qed.

Definition writable (x : option Node) : Prop := match x with None | Some (File _ _) => True | _ => False end.

Lemma write_over_spec p bytes t : p <> [] -> Forall name_ok p -> grounded t p -> writable (t !! p) ->
  from calm t (write privileged fsetid umask p bytes) (fun _ t' => exists m, t' = <[p := File m bytes]> t) (blameless p t).
Proof.
  intros Hp Hn Hg Hx. assert (Hl : not_link (t !! p)) by (by destruct (t !! p) as [[]|]).
  assert (Ho : (exists m, (forall b, fill fsetid p b (<[p := File m []]> t) = <[p := File (written_mode fsetid m b) b]> t) /\
      open_write privileged fsetid umask p 438 t = Ok (p, <[p := File m []]> t)) \/
    (privileged = false /\ exists e, open_write privileged fsetid umask p 438 t = Err e)).
  { assert (Hf : forall m b, fill fsetid p b (<[p := File m []]> t) = <[p := File (written_mode fsetid m b) b]> t)
      by (intros m b; unfold fill; by rewrite lookup_insert_eq, insert_insert_eq).
    unfold open_write. destruct (resolve_plain privileged true p t Hn Hg (or_intror Hl)) as [->|[Hpr ->]]; [|right; split; [done|by eexists]].
    cbn [mbind result_bind]. destruct (t !! p) as [[m b| |]|]; [|done..|].
    - unfold may. destruct privileged; [left; by eexists|]. destruct (false || _); [left; by eexists|right; split; [done|by eexists]].
    - destruct (enter_grounded p t Hp Hg) as [->|[Hpr [e ->]]]; [left; by eexists|right; split; [done|by eexists]]. }
  eapply from_weaken; [apply from_fill_call|..]; cbn beta.
  - intros [] t' (q & b & t1 & E & ->). destruct Ho as [(m & Hf & Ho)|[_ [e Ho]]]; rewrite Ho in E; [|done].
    injection E as <- <- <-. rewrite Hf. by eexists.
  - intros t' Hw. destruct Ho as [(m & Hf & Ho)|[Hpr [e Ho]]]; rewrite Ho in Hw; destruct Hw as [[-> Hc]|[Hc (q & b & k & t1 & E & ->)]].
    + split; [by intros q|]. intros Hcalm. by destruct (Hc Hcalm).
    + injection E as <- <- <-. rewrite Hf. split; [apply but_insert|done].
    + split; [by intros q|]. intros Hcalm. by rewrite calm_privileged in Hpr.
    + done.
Qed.

(** A file written and given its mode is that file, whatever was there and
    whatever the umask. *)
Lemma put_file_spec p bytes mode t : p <> [] -> Forall name_ok p -> grounded t p -> writable (t !! p) ->
  from calm t (_ ← write privileged fsetid umask p bytes; set_mode privileged p mode)
    (fun _ t' => t' = <[p := File (Z.land mode 4095) bytes]> t) (blameless p t).
Proof.
  intros Hp Hn Hg Hx. eapply holds_bind; [by apply write_over_spec|]. intros []. apply holds_from. intros t1 [m ->].
  eapply from_weaken; [apply set_mode_spec|..]; [done| |left; rewrite lookup_insert_eq; by eexists _, _|..].
  - eapply grounded_same; [done|]. intros i Hi. apply lookup_insert_ne. intros E%(f_equal length). rewrite length_take in E. lia.
  - intros [] t' ->. by rewrite lookup_insert_eq, insert_insert_eq.
  - intros t' [Hb Hc]. split; [|done]. by eapply but_trans; [apply but_insert|].
Qed.
Definition room (x : option Node) : Prop := match x with None | Some (Dir _) => True | _ => False end.

(** A directory that is made where there is none. *)
Definition with_dir (p : fpath) (t : FsTree) : FsTree := match t !! p with Some _ => t | None => <[p := Dir 493]> t end.

Lemma make_spec p t : p <> [] -> Forall name_ok p -> grounded t p -> room (t !! p) ->
  from calm t (there ← path_exists privileged p; if there : bool then mret tt else _ ← create_dir privileged umask p; set_mode privileged p 493)
    (fun _ t' => t' = with_dir p t) (blameless p t).
Proof.
  intros Hp Hn Hg Hx. assert (Hl : not_link (t !! p)) by (by destruct (t !! p) as [[]|]).
  eapply holds_bind; [apply from_probe|]. intros there. apply holds_from. intros t1 (-> & Hyes & Hno). destruct there.
  - apply holds_ret. intros t1 ->. unfold with_dir. destruct (stat_plain privileged true p t Hn Hg (or_intror Hl)) as [(x & -> & _)|(e & E & _)]; [done|].
    specialize (Hyes eq_refl). by rewrite E in Hyes.
  - eapply (holds_bind _ _ _ (fun _ t1 => t !! p = None /\ exists m, t1 = <[p := Dir m]> t)).
    + eapply from_weaken; [apply from_update|..]; cbn beta; unfold mkdir_op;
        (destruct (resolve_plain privileged false p t Hn Hg (or_introl eq_refl)) as [Er|[Hpr Er]]; rewrite Er; cbn [mbind result_bind]).
      * intros [] t1. destruct (t !! p); [done|]. destruct (enter privileged p t) as [[]|]; [|done]. intros [= <-]. split; [done|by eexists].
      * done.
      * intros t1 [-> Hc]. split; [by intros q|]. intros Hcalm. destruct (Hc Hcalm) as [e He].
        destruct (stat_plain privileged true p t Hn Hg (or_intror Hl)) as [(x & Hx' & E)|(e' & E & [Hpr|Hx'])]; [|by rewrite calm_privileged in Hpr|].
        -- rewrite E in Hno. by specialize (Hno Hcalm eq_refl).
        -- rewrite Hx' in He. destruct (enter_grounded p t Hp Hg) as [Ee|[Hpr _]]; [by rewrite Ee in He|by rewrite calm_privileged in Hpr].
      * intros t1 [-> _]. split; [by intros q|]. intros Hcalm. by rewrite calm_privileged in Hpr.
    + intros []. apply holds_from. intros t1 (Hnone & m & ->). eapply from_weaken; [apply set_mode_spec|..]; [done| |right; rewrite lookup_insert_eq; by eexists|..].
      * eapply grounded_same; [done|]. intros i Hi. apply lookup_insert_ne. intros E%(f_equal length). rewrite length_take in E. lia.
      * intros [] t' ->. unfold with_dir. by rewrite lookup_insert_eq, insert_insert_eq, Hnone.
      * intros t' [Hb Hc]. split; [|done]. by eapply but_trans; [apply but_insert|].
Qed.

(** A loop whose steps are known. *)
Lemma for_each_spec {X : Type} (f : X -> FS unit) (step : FsTree -> X -> FsTree) (I : list X -> FsTree -> Prop) (touched : fpath -> Prop) t0 l :
  (forall done x rest t, l = done ++ x :: rest -> I done t -> (forall q, ~ touched q -> t !! q = t0 !! q) ->
    from calm t (f x) (fun _ t' => t' = step t x) (fun t' => (forall q, ~ touched q -> t' !! q = t !! q) /\ ~ calm) /\
    I (done ++ [x]) (step t x) /\ (forall q, ~ touched q -> step t x !! q = t !! q)) ->
  I [] t0 ->
  from calm t0 (for_each f l) (fun _ t' => t' = foldl step t0 l /\ I l t' /\ forall q, ~ touched q -> t' !! q = t0 !! q) (fun t' => (forall q, ~ touched q -> t' !! q = t0 !! q) /\ ~ calm).
Proof.
  intros Hstep HI. assert (Hgen : forall rest pre t, l = pre ++ rest -> I pre t -> (forall q, ~ touched q -> t !! q = t0 !! q) ->
    from calm t (for_each f rest) (fun _ t' => t' = foldl step t rest /\ I l t' /\ forall q, ~ touched q -> t' !! q = t0 !! q) (fun t' => (forall q, ~ touched q -> t' !! q = t0 !! q) /\ ~ calm)).
  { induction rest as [|x rest IH]; intros pre t El Hi Ht; cbn [for_each foldl].
    - apply holds_ret. intros ? ->. rewrite app_nil_r in El. by subst.
    - destruct (Hstep pre x rest t El Hi Ht) as (Hf & Hi' & Hs). eapply holds_bind.
      + eapply from_weaken; [exact Hf|intros a t' H; exact H|]. intros t' [Hq Hc]. split; [|done]. intros q Hnq. by rewrite Hq, Ht.
      + intros []. apply holds_from. intros ? ->. apply (IH (pre ++ [x])); [by rewrite <- (assoc_L (++))|done|]. intros q Hnq. by rewrite Hs, Ht. }
  by apply (Hgen l []).
Qed.

(** ** The overlay *)

Variables (em : Embedded) (rootfs : fpath) (t0 : FsTree).

(** A rootfs the overlay can be laid on: nothing it names is a link, a
    directory of it is no file and a file of it no directory. *)
Record overlay_fits : Prop := {
  of_names : Forall name_ok rootfs;
  of_rootfs : grounded t0 rootfs /\ exists m, t0 !! rootfs = Some (Dir m);
  of_dirs : Forall (fun d => room (t0 !! join rootfs d)) OVERLAY_DIRS;
  of_files : Forall (fun f => writable (t0 !! join rootfs (o_path f))) OVERLAY_FILES;
}.

Definition lay_dir (t : FsTree) (d : list Z) : FsTree := with_dir (join rootfs d) t.
Definition lay_file (t : FsTree) (f : OverlayFile) : FsTree := <[join rootfs (o_path f) := File (o_mode f) (overlay_bytes em (o_path f))]> t.

(** What the overlay makes of a rootfs. *)
Definition overlaid : FsTree := foldl lay_file (foldl lay_dir t0 OVERLAY_DIRS) OVERLAY_FILES.

Definition OVERLAY_PATHS : list (list Z) := OVERLAY_DIRS ++ (o_path <$> OVERLAY_FILES).

Definition touched (q : fpath) : Prop := exists p, p ∈ OVERLAY_PATHS /\ q = join rootfs p.

(** The overlay's own shape: distinct paths of good names, with parents in it. *)
Lemma overlay_names p : p ∈ OVERLAY_PATHS -> Forall name_ok (components p) /\ components p <> [].
Proof.
  assert (Hall : forallb (fun p => forallb name_okb (components p) && negb (bool_decide (components p = []))) OVERLAY_PATHS = true) by (vm_compute; reflexivity).
  intros Hp%list_elem_of_In. rewrite forallb_forall in Hall. specialize (Hall p Hp). apply andb_true_iff in Hall as [Hn He]. split.
  - apply Forall_forall. intros c Hc%list_elem_of_In. rewrite forallb_forall in Hn. by apply name_okb_ok, Hn.
  - by apply negb_true_iff, bool_decide_eq_false in He.
Qed.

Lemma overlay_inj p p' : p ∈ OVERLAY_PATHS -> p' ∈ OVERLAY_PATHS -> join rootfs p = join rootfs p' -> p = p'.
Proof.
  intros Hp Hp' E%app_inv_head. assert (Hall : forallb (fun p => forallb (fun p' => bool_decide (components p = components p' -> p = p')) OVERLAY_PATHS) OVERLAY_PATHS = true)
    by (vm_compute; reflexivity).
  apply list_elem_of_In in Hp, Hp'. rewrite forallb_forall in Hall. specialize (Hall p Hp). rewrite forallb_forall in Hall.
  specialize (Hall p' Hp'). apply bool_decide_eq_true in Hall. auto.
Qed.

Definition rootedb (D : list (list Z)) (p : list Z) : bool :=
  forallb (fun i => bool_decide (take i (components p) ∈ components <$> D)) (seq 1 (length (components p) - 1)).

Lemma dirs_rooted pre x rest : OVERLAY_DIRS = pre ++ x :: rest -> rootedb pre x = true.
Proof.
  assert (Hall : forallb (fun k => match OVERLAY_DIRS !! k with Some x => rootedb (take k OVERLAY_DIRS) x | None => false end)
    (seq 0 (length OVERLAY_DIRS)) = true) by (vm_compute; reflexivity).
  intros E. rewrite forallb_forall in Hall. specialize (Hall (length pre)). rewrite E in Hall.
  rewrite list_lookup_middle, take_app_length in Hall by done. apply Hall. rewrite in_seq, length_app. cbn. lia.
Qed.

Lemma files_rooted f : f ∈ OVERLAY_FILES -> rootedb OVERLAY_DIRS (o_path f) = true /\ o_path f ∈ OVERLAY_PATHS /\ Z.land (o_mode f) 4095 = o_mode f.
Proof.
  assert (Hall : forallb (fun f => rootedb OVERLAY_DIRS (o_path f) && (Z.land (o_mode f) 4095 =? o_mode f)) OVERLAY_FILES = true) by (vm_compute; reflexivity).
  intros Hf. rewrite forallb_forall in Hall. pose proof (Hall f (proj1 (list_elem_of_In _ _) Hf)) as Hr. apply andb_true_iff in Hr as [Hr Hm].
  apply Z.eqb_eq in Hm. split; [done|]. split; [|done]. apply elem_of_app. right. apply list_elem_of_fmap. by exists f.
Qed.

(** After the paths in [past]: what is above the rootfs and what is still to
    come is as it was, and the directories are there. *)
Record so_far (past : list (list Z)) (t : FsTree) : Prop := {
  sf_above : forall q, (length q <= length rootfs)%nat -> t !! q = t0 !! q;
  sf_dirs : forall d, d ∈ past -> d ∈ OVERLAY_DIRS -> exists m, t !! join rootfs d = Some (Dir m);
  sf_todo : forall p, p ∈ OVERLAY_PATHS -> p ∉ past -> t !! join rootfs p = t0 !! join rootfs p;
}.

Lemma join_longer p : p ∈ OVERLAY_PATHS -> (length rootfs < length (join rootfs p))%nat.
Proof. intros [_ Hne]%overlay_names. unfold join. rewrite length_app. destruct (components p); [done|]. cbn. lia. Qed.

Lemma so_far_insert past t x y : so_far past t -> x ∈ OVERLAY_PATHS -> (x ∈ OVERLAY_DIRS -> exists m, y = Dir m) ->
  so_far (past ++ [x]) (<[join rootfs x := y]> t).
Proof.
  intros [Ha Hd Ht] Hx Hy. pose proof (join_longer x Hx) as Hlong. split.
  - intros q Hq. rewrite lookup_insert_ne; [by apply Ha|]. intros E. rewrite E in Hlong. lia.
  - intros d Hin Hdir. destruct (decide (d = x)) as [->|Hne]; [destruct (Hy Hdir) as [m ->]; exists m; apply lookup_insert_eq|].
    rewrite lookup_insert_ne; [apply Hd; [|done]; apply elem_of_app in Hin as [?|?%list_elem_of_singleton]; done|].
    intros E%overlay_inj; [done|done|by apply elem_of_app; left].
  - intros p Hp Hin. rewrite lookup_insert_ne; [apply Ht; [done|]; intros Hp'; apply Hin, elem_of_app; by left|].
    intros E%overlay_inj; [|done..]. apply Hin. rewrite E. apply elem_of_app. right. by left.
Qed.

Lemma so_far_same past t x m : so_far past t -> t !! join rootfs x = Some (Dir m) -> so_far (past ++ [x]) t.
Proof.
  intros [Ha Hd Ht] Hx. split; [done| |].
  - intros d [Hin|Hin%list_elem_of_singleton]%elem_of_app Hdir; [by apply Hd|subst; by exists m].
  - intros p Hp Hin. apply Ht; [done|]. intros Hp'. apply Hin, elem_of_app. by left.
Qed.

Hypothesis fits_ : overlay_fits.

Lemma rooted_grounded D past t p : so_far past t -> D ⊆ past -> D ⊆ OVERLAY_DIRS -> rootedb D p = true -> grounded t (join rootfs p).
Proof.
  intros [Ha Hd _] Hsub Hdirs Hr. destruct (of_rootfs fits_) as [Hg [m Hm]]. intros i Hi. unfold join in *. rewrite length_app in Hi.
  destruct (decide (i < length rootfs)%nat) as [Hl|Hl].
  - rewrite take_app_le by lia. rewrite Ha by (rewrite length_take; lia). by apply Hg.
  - rewrite take_app_ge by lia. destruct (i - length rootfs)%nat as [|k] eqn:Ek; [rewrite take_0, app_nil_r, Ha by done; by exists m|].
    unfold rootedb in Hr. rewrite forallb_forall in Hr. specialize (Hr (S k)). rewrite in_seq in Hr. specialize (Hr ltac:(lia)).
    apply bool_decide_eq_true, list_elem_of_fmap in Hr as (d & -> & Hin). apply (Hd d); auto.
Qed.

Lemma join_names p : p ∈ OVERLAY_PATHS -> Forall name_ok (join rootfs p) /\ join rootfs p <> [].
Proof.
  intros [Hn Hne]%overlay_names. split; [apply Forall_app; split; [apply fits_|done]|]. unfold join. destruct rootfs; [|done]. by destruct (components p).
Qed.

Lemma untouched_step p t t' : p ∈ OVERLAY_PATHS -> but (join rootfs p) t t' -> forall q, ~ touched q -> t' !! q = t !! q.
Proof. intros Hp Hb q Hq. apply Hb. intros ->. apply Hq. by exists p. Qed.

Lemma overlay_dirs_paths d : d ∈ OVERLAY_DIRS -> d ∈ OVERLAY_PATHS.
Proof. intros Hd. apply elem_of_app. by left. Qed.

Lemma dirs_loop : from calm t0 (for_each (fun dir =>
      let d := join rootfs dir in
      there ← path_exists privileged d;
      if there : bool then mret tt else _ ← create_dir privileged umask d; set_mode privileged d 493) OVERLAY_DIRS)
    (fun _ t' => t' = foldl lay_dir t0 OVERLAY_DIRS /\ so_far OVERLAY_DIRS t' /\ forall q, ~ touched q -> t' !! q = t0 !! q)
    (fun t' => (forall q, ~ touched q -> t' !! q = t0 !! q) /\ ~ calm).
Proof.
  apply (for_each_spec _ lay_dir so_far); [|by split; [|by intros d ?%not_elem_of_nil|]].
  intros past x rest t El Hs _. assert (Hx : x ∈ OVERLAY_DIRS) by (rewrite El; apply elem_of_app; right; by left).
  pose proof (overlay_dirs_paths x Hx) as Hp. destruct (join_names x Hp) as [Hn Hne].
  assert (Hnew : x ∉ past).
  { assert (Hnd : NoDup OVERLAY_DIRS) by (apply (bool_decide_unpack _); vm_compute; exact I). rewrite El in Hnd.
    apply NoDup_app in Hnd as (_ & Hd & _). intros Hin. apply (Hd x Hin). by left. }
  assert (Hroom : room (t !! join rootfs x)).
  { rewrite (sf_todo _ _ Hs) by done. pose proof (of_dirs fits_) as Hd. rewrite Forall_forall in Hd. by apply Hd. }
  assert (Hg : grounded t (join rootfs x)).
  { apply (rooted_grounded past past); [done|done|intros d Hd; rewrite El; apply elem_of_app; by left|by eapply dirs_rooted]. }
  split; [|split].
  - eapply from_weaken; [by apply make_spec|done|]. intros t' [Hb Hc]. split; [|done]. by eapply untouched_step.
  - unfold lay_dir, with_dir. destruct (t !! join rootfs x) as [[| |m]|] eqn:Ex; [done|done|by eapply so_far_same|].
    apply so_far_insert; [done|done|]. intros _. by eexists.
  - unfold lay_dir, with_dir. destruct (t !! join rootfs x); [done|]. apply (untouched_step x); [done|]. apply but_insert.
Qed.

Lemma files_loop t1 : so_far OVERLAY_DIRS t1 -> (forall q, ~ touched q -> t1 !! q = t0 !! q) ->
  from calm t1 (for_each (fun f =>
      let dst := join rootfs (o_path f) in
      _ ← write privileged fsetid umask dst (overlay_bytes em (o_path f)); set_mode privileged dst (o_mode f)) OVERLAY_FILES)
    (fun _ t' => t' = foldl lay_file t1 OVERLAY_FILES /\ so_far (OVERLAY_DIRS ++ (o_path <$> OVERLAY_FILES)) t' /\ forall q, ~ touched q -> t' !! q = t1 !! q)
    (fun t' => (forall q, ~ touched q -> t' !! q = t1 !! q) /\ ~ calm).
Proof.
  intros Hs1 Ht1. apply (for_each_spec _ lay_file (fun past => so_far (OVERLAY_DIRS ++ (o_path <$> past)))); [|by rewrite app_nil_r].
  intros past f rest t El Hs _. assert (Hf : f ∈ OVERLAY_FILES) by (rewrite El; apply elem_of_app; right; by left).
  destruct (files_rooted f Hf) as (Hroot & Hp & Hmode). destruct (join_names _ Hp) as [Hn Hne].
  assert (Hnew : o_path f ∉ OVERLAY_DIRS ++ (o_path <$> past)).
  { assert (Hnd : NoDup OVERLAY_PATHS) by (apply (bool_decide_unpack _); vm_compute; exact I). unfold OVERLAY_PATHS in Hnd.
    rewrite El, fmap_app, fmap_cons, (assoc_L (++)) in Hnd. apply NoDup_app in Hnd as (_ & Hd & _). intros Hin. apply (Hd _ Hin). by left. }
  assert (Hroom : writable (t !! join rootfs (o_path f))).
  { rewrite (sf_todo _ _ Hs) by done. pose proof (of_files fits_) as Hd. rewrite Forall_forall in Hd. by apply Hd. }
  assert (Hg : grounded t (join rootfs (o_path f))).
  { eapply (rooted_grounded OVERLAY_DIRS); [exact Hs| |done|done]. intros d Hd. apply elem_of_app. by left. }
  split; [|split].
  - eapply from_weaken; [by apply put_file_spec|..]; cbn beta.
    + intros [] t' ->. unfold lay_file. by rewrite Hmode.
    + intros t' [Hb Hc]. split; [|done]. by eapply untouched_step.
  - rewrite fmap_app. cbn [fmap list_fmap]. rewrite (assoc_L (++)). apply so_far_insert; [done|done|].
    intros Hd. exfalso. apply Hnew, elem_of_app. by left.
  - apply (untouched_step (o_path f)); [done|]. apply but_insert.
Qed.

(** Each file of the overlay is in what is laid. *)
Lemma overlaid_file f : f ∈ OVERLAY_FILES -> overlaid !! join rootfs (o_path f) = Some (File (o_mode f) (overlay_bytes em (o_path f))).
Proof.
  intros Hf. unfold overlaid. generalize (foldl lay_dir t0 OVERLAY_DIRS) as t. apply list_elem_of_split in Hf as (l1 & l2 & El). intros t.
  assert (Hnd : NoDup (o_path <$> OVERLAY_FILES)) by (apply (bool_decide_unpack _); vm_compute; exact I).
  assert (Hin : forall g, g ∈ f :: l2 -> o_path g ∈ OVERLAY_PATHS).
  { intros g Hg. apply elem_of_app. right. rewrite El, fmap_app. apply elem_of_app. right. by apply list_elem_of_fmap_2. }
  rewrite El, fmap_app, fmap_cons in Hnd. apply NoDup_app in Hnd as (_ & _ & [Hn _]%NoDup_cons). rewrite El, foldl_app. cbn [foldl].
  generalize (foldl lay_file t l1) as u. intros u. assert (Hkeep : forall v, v !! join rootfs (o_path f) = Some (File (o_mode f) (overlay_bytes em (o_path f))) ->
    foldl lay_file v l2 !! join rootfs (o_path f) = Some (File (o_mode f) (overlay_bytes em (o_path f)))).
  { clear El. induction l2 as [|g l2 IH]; intros v Hv; cbn [foldl]; [done|]. rewrite fmap_cons, not_elem_of_cons in Hn. destruct Hn as [Hne Hn].
    apply IH; [done|intros h Hh; apply Hin; apply elem_of_cons in Hh as [->|?]; [by left|by right; right]|].
    unfold lay_file. rewrite lookup_insert_ne; [done|]. intros E%overlay_inj; [done|apply Hin; right; by left|apply Hin; by left]. }
  apply Hkeep. apply lookup_insert_eq.
Qed.
End overlaying.

(** C24: The overlay is pinned: on a rootfs it fits, [materialize] changes only
    its own paths, and if it succeeds it leaves exactly the overlay's files
    with their bytes and modes and its directories, made with mode 0755 only
    where there were none, whatever the umask and the modes of the files it
    replaces; and it does succeed for a privileged process that is refused
    nothing. *)
Theorem materialize_pins_modes privileged fsetid umask em rootfs w :
  lists_all w -> overlay_fits rootfs (tree w) ->
  let '(r, w') := materialize privileged fsetid umask em rootfs w in
  (forall q, ~ touched rootfs q -> tree w' !! q = tree w !! q) /\
  (r = Ok tt -> tree w' = overlaid em rootfs (tree w) /\
    forall f, f ∈ OVERLAY_FILES -> tree w' !! join rootfs (o_path f) = Some (File (o_mode f) (overlay_bytes em (o_path f)))) /\
  (privileged = true -> quiet w -> r = Ok tt).
Proof.
  intros Hl Hf. pose (calm := privileged = true /\ quiet w).
  assert (Hs : from calm (tree w) (materialize privileged fsetid umask em rootfs)
    (fun _ t' => t' = overlaid em rootfs (tree w) /\ forall q, ~ touched rootfs q -> t' !! q = tree w !! q)
    (fun t' => (forall q, ~ touched rootfs q -> t' !! q = tree w !! q) /\ ~ calm)).
  { eapply holds_bind; [apply (dirs_loop privileged umask calm (fun H => proj1 H) rootfs (tree w) Hf)|].
    intros []. apply holds_from. intros t1 (-> & Hs & Ht).
    eapply from_weaken; [apply (files_loop privileged fsetid umask calm (fun H => proj1 H) em rootfs (tree w) Hf _ Hs Ht)|..]; cbn beta.
    - intros [] t2 (-> & _ & Ht2). split; [done|]. intros q Hq. by rewrite Ht2, Ht.
    - intros t2 [Ht2 Hc]. split; [|done]. intros q Hq. by rewrite Ht2, Ht. }
  specialize (Hs w). destruct (materialize _ _ _ _ _ w) as [r w']. destruct Hs as [_ Hs]; [by apply lists_fair|done|].
  destruct r as [[]|e]; [|by destruct Hs as [Hq Hc]; split_and!; [done|done|intros Hp Hqu; by destruct Hc]].
  destruct Hs as [-> Hq]. split_and!; [done| |done]. intros _. split; [done|]. by apply overlaid_file.
Qed.



(** ** Walking a tree *)

Section walking.
Variables (privileged : bool) (calm : Prop).
Hypothesis calm_privileged : calm -> privileged = true.
Variable t : FsTree.

(** A directory the walk can go through by its own path. *)
Record walkable (d : fpath) : Prop := {
  wk_grounded : grounded t d;
  wk_names : Forall name_ok d;
  wk_dir : exists m, t !! d = Some (Dir m);
  wk_tree : forall q c, is_Some (t !! (d ++ q ++ [c])) -> name_ok c /\ exists m, t !! (d ++ q) = Some (Dir m);
}.

Definition is_file_node (x : option Node) : bool := match x with Some (File _ _) => true | _ => false end.

Definition dirs_in (d : fpath) (names : list (list Z)) : list fpath := (fun c => d ++ [c]) <$> List.filter (fun c => is_dir_node (t !! (d ++ [c]))) names.
Definition files_in (d : fpath) (names : list (list Z)) : list fpath := (fun c => d ++ [c]) <$> List.filter (fun c => is_file_node (t !! (d ++ [c]))) names.

Lemma stat_child d c x : walkable d -> t !! (d ++ [c]) = Some x ->
  stat privileged false (d ++ [c]) t = Ok x \/ (privileged = false /\ exists e, stat privileged false (d ++ [c]) t = Err e).
Proof.
  intros Hd Hx. pose proof (wk_tree d Hd [] c ltac:(by exists x)) as [Hc _]. unfold stat.
  destruct (resolve_plain privileged false (d ++ [c]) t) as [->|[Hp ->]].
  - apply Forall_app. split; [apply Hd|by constructor].
  - apply grounded_parent. split; apply Hd.
  - by left.
  - left. cbn [mbind result_bind]. by rewrite Hx.
  - right. split; [done|by eexists].
Qed.

Lemma next_entry_ok : from calm t next_entry (fun _ t' => t' = t) (fun t' => t' = t /\ ~ calm).
Proof.
  eapply from_weaken; [apply from_observe|by intros [] t' [-> _]|]. cbn beta. intros t' [-> Hc]. split; [done|].
  intros Hcalm. by destruct (Hc Hcalm).
Qed.

Lemma lstat_child d c x : walkable d -> t !! (d ++ [c]) = Some x ->
  from calm t (symlink_metadata privileged (d ++ [c])) (fun y t' => t' = t /\ y = x) (fun t' => t' = t /\ ~ calm).
Proof.
  intros Hd Hx. destruct (stat_child d c x Hd Hx) as [Hs|[Hp [e Hs]]];
    (eapply from_weaken; [apply from_observe|..]; cbn beta; rewrite Hs).
  - intros y t' [-> [= ->]]. done.
  - intros t' [-> Hw]. split; [done|]. intros Hcalm. by destruct (Hw Hcalm).
  - by intros y t' [_ ?].
  - intros t' [-> _]. split; [done|]. intros Hcalm. by rewrite calm_privileged in Hp.
Qed.

Lemma scan_spec d names : walkable d -> (forall c, c ∈ names -> is_Some (t !! (d ++ [c]))) -> forall stack out,
  from calm t (scan_entries privileged d names stack out)
    (fun so t' => t' = t /\ so = (reverse (dirs_in d names) ++ stack, out ++ files_in d names)) (fun t' => t' = t /\ ~ calm).
Proof.
  intros Hd. induction names as [|c names IH]; intros Hn stack out; cbn [scan_entries];
    (eapply holds_bind; [apply next_entry_ok|]; intros []; apply holds_from; intros ? ->).
  - apply holds_ret. intros ? ->. by rewrite app_nil_r.
  - destruct (Hn c ltac:(left)) as [x Hx]. specialize (IH ltac:(intros e He; apply Hn; by right)).
    eapply holds_bind; [by apply (lstat_child d c x)|]. intros y. apply holds_from. intros ? [-> ->].
    unfold dirs_in, files_in in *. cbn [List.filter]. rewrite Hx.
    destruct x; cbn [is_dir_node is_file_node]; rewrite ?fmap_cons; (eapply from_weaken; [apply IH|..|done]); intros so t' [-> ->]; split; try done.
    + by rewrite <- (assoc_L (++)).
    + by rewrite reverse_cons, <- (assoc_L (++)).
Qed.

(** The directories at and below [d]: what the walk has to pop. *)
Definition ndirs (d : fpath) : nat := length (List.filter (fun kx => bool_decide (d `prefix_of` kx.1) && is_dir_node (Some kx.2)) (map_to_list t)).

Lemma filter_disjoint {X : Type} (p q r : X -> bool) l : (forall x, p x = true -> r x = true /\ q x = false) -> (forall x, q x = true -> r x = true) ->
  (length (List.filter p l) + length (List.filter q l) <= length (List.filter r l))%nat.
Proof.
  intros Hp Hq. induction l as [|x l IH]; [cbn; lia|]. cbn [List.filter].
  destruct (p x) eqn:Ep; [destruct (Hp x Ep) as [-> ->]; cbn; lia|]. destruct (q x) eqn:Eq; [rewrite (Hq x Eq); cbn; lia|].
  destruct (r x); cbn; lia.
Qed.

Lemma children_dirs d names : NoDup names ->
  (sum_list_with ndirs (dirs_in d names) <=
   length (List.filter (fun kx => existsb (fun c => bool_decide (d ++ [c] `prefix_of` kx.1)) names && is_dir_node (Some kx.2)) (map_to_list t)))%nat.
Proof.
  induction names as [|c names IH]; intros Hn; [cbn; lia|]. apply NoDup_cons in Hn as [Hc Hn]. specialize (IH Hn).
  assert (Hsum : (sum_list_with ndirs (dirs_in d (c :: names)) <= ndirs (d ++ [c]) + sum_list_with ndirs (dirs_in d names))%nat).
  { unfold dirs_in. cbn [List.filter]. destruct (is_dir_node _); [cbn; lia|]. lia. }
  etrans; [exact Hsum|]. etrans; [apply Nat.add_le_mono_l, IH|]. apply filter_disjoint.
  - intros [k x]. cbn [fst snd existsb]. intros [Hp Hx]%andb_true_iff. rewrite Hp, Hx. split; [done|]. apply bool_decide_eq_true in Hp.
    rewrite andb_true_r. apply not_true_iff_false. intros (c' & Hin & Hp')%existsb_exists. apply bool_decide_eq_true in Hp'.
    apply Hc. apply list_elem_of_In in Hin. assert (c' = c) as ->; [|done].
    destruct (prefix_weak_total _ _ _ Hp Hp') as [E|E]; apply prefix_app_inv, prefix_cons_inv_1 in E; done.
  - intros [k x]. cbn [fst snd existsb]. intros [-> ->]%andb_true_iff. by rewrite orb_true_r.
Qed.

(** Popping a directory and pushing those in it is progress. *)
Lemma walk_progress d names : walkable d -> NoDup names -> (sum_list_with ndirs (dirs_in d names) < ndirs d)%nat.
Proof.
  intros Hd Hn. pose proof (children_dirs d names Hn) as Hs. destruct (wk_dir d Hd) as [m Hm].
  set (q := fun kx : fpath * Node => existsb (fun c => bool_decide (d ++ [c] `prefix_of` kx.1)) names && is_dir_node (Some kx.2)) in Hs.
  assert (Hle : (length (List.filter (fun kx : fpath * Node => bool_decide (kx.1 = d) && is_dir_node (Some kx.2)) (map_to_list t)) +
                 length (List.filter q (map_to_list t)) <= ndirs d)%nat).
  { apply filter_disjoint; intros [k x]; cbn [fst snd]; unfold q; cbn [fst snd].
    - intros [Hk Hx]%andb_true_iff. apply bool_decide_eq_true in Hk as ->. rewrite Hx, bool_decide_true by done. split; [done|].
      rewrite andb_true_r. apply not_true_iff_false. intros (c & _ & Hp)%existsb_exists. apply bool_decide_eq_true in Hp. by apply below_not_above in Hp.
    - intros [(c & _ & Hp)%existsb_exists Hx]%andb_true_iff. apply bool_decide_eq_true in Hp. rewrite Hx, bool_decide_true; [done|].
      etrans; [by apply prefix_app_r|exact Hp]. }
  assert (Hone : (0 < length (List.filter (fun kx : fpath * Node => bool_decide (kx.1 = d) && is_dir_node (Some kx.2)) (map_to_list t)))%nat); [|lia].
  assert (Hin : In (d, Dir m) (List.filter (fun kx : fpath * Node => bool_decide (kx.1 = d) && is_dir_node (Some kx.2)) (map_to_list t))).
  { apply filter_In. split; [by apply list_elem_of_In, elem_of_map_to_list|]. cbn [fst snd]. by rewrite bool_decide_true. }
  apply in_split in Hin as (l1 & l2 & ->). rewrite length_app. cbn. lia.
Qed.

Lemma walkable_child d c m : walkable d -> t !! (d ++ [c]) = Some (Dir m) -> walkable (d ++ [c]).
Proof.
  intros Hd Hc. pose proof (wk_tree d Hd [] c ltac:(by exists (Dir m))) as [Hn _]. split.
  - apply grounded_parent. split; apply Hd.
  - apply Forall_app. split; [apply Hd|by constructor].
  - by exists m.
  - intros q e. rewrite <- !(assoc_L (++)). apply (wk_tree d Hd (c :: q) e).
Qed.

(** A file below a directory is in it or below a directory in it. *)
Lemma file_below d f : walkable d -> d `prefix_of` f -> is_file_node (t !! f) = true ->
  exists c q, f = d ++ c :: q /\ is_Some (t !! (d ++ [c])) /\ (q = [] \/ exists m, t !! (d ++ [c]) = Some (Dir m)).
Proof.
  intros Hd [q ->] Hf. destruct q as [|c q]; [destruct (wk_dir d Hd) as [m Hm]; by rewrite app_nil_r, Hm in Hf|]. exists c, q. split; [done|].
  assert (Hs : is_Some (t !! (d ++ c :: q))) by (destruct (t !! (d ++ c :: q)); [by eexists|done]). clear Hf.
  induction q as [|e q IH] using rev_ind; [split; [done|by left]|]. destruct (wk_tree d Hd (c :: q) e Hs) as [_ [m Hm]].
  destruct (IH ltac:(by exists (Dir m))) as [Hc Hq]. split; [done|]. right. destruct Hq as [->|Hq]; [by exists m|done].
Qed.

Lemma is_dir_walkable d : walkable d ->
  from calm t (is_dir privileged d) (fun b t' => t' = t /\ (calm -> b = true)) (fun t' => t' = t /\ ~ calm).
Proof.
  intros Hd. eapply from_weaken; [apply from_probe|..|intros t' H; exact H]; cbn beta. intros b t' (-> & _ & Hb). split; [done|]. intros Hcalm.
  apply Hb; [done|]. destruct (wk_dir d Hd) as [m Hm].
  destruct (stat_plain privileged true d t (wk_names d Hd) (wk_grounded d Hd)) as [(x & Hx & E)|(e & E & [Hp|Hp])]; [right; by rewrite Hm|..].
  - rewrite E. cbn [mbind result_bind]. rewrite Hm in Hx. by injection Hx as <-.
  - by rewrite calm_privileged in Hp.
  - congruence.
Qed.

Lemma read_dir_walkable d : walkable d ->
  from calm t (read_dir privileged d) (fun names t' => t' = t /\ names ≡ₚ children d t) (fun t' => t' = t /\ ~ calm).
Proof.
  intros Hd. destruct (wk_dir d Hd) as [m Hm].
  destruct (resolve_plain privileged true d t (wk_names d Hd) (wk_grounded d Hd)) as [Er|[Hp Er]]; [right; by rewrite Hm|..].
  - apply from_call.
    + intros l names t' Hl. rewrite Er. cbn [mbind result_bind]. rewrite Hm. destruct (may privileged 256 m); [|done]. intros [= <- <-]. by split.
    + intros l e. rewrite Er. cbn [mbind result_bind]. rewrite Hm. destruct (may privileged 256 m) eqn:Em; [done|]. intros _. split; [done|].
      intros Hcalm. unfold may in Em. by rewrite (calm_privileged Hcalm) in Em.
    + by intros Hc k.
  - apply from_call.
    + intros l names t'. by rewrite Er.
    + intros l e _. split; [done|]. intros Hcalm. by rewrite calm_privileged in Hp.
    + by intros Hc k.
Qed.

Definition file_under (d f : fpath) : Prop := d `prefix_of` f /\ is_file_node (t !! f) = true.

(** The walk ends, its fuel being enough, and lists only files below where it
    began; when things are calm it lists all of them. *)
Lemma walk_tree_loop_spec fuel : forall stack out, Forall walkable stack -> (sum_list_with ndirs stack <= fuel)%nat ->
  from calm t (walk_loop privileged fuel stack out)
    (fun files t' => t' = t /\ (forall f, f ∈ files -> f ∈ out \/ exists d, d ∈ stack /\ file_under d f) /\
      (calm -> forall f, f ∈ out \/ (exists d, d ∈ stack /\ file_under d f) -> f ∈ files))
    (fun t' => t' = t /\ ~ calm).
Proof.
  induction fuel as [|fuel IH]; intros stack out Hst Hf.
  - destruct stack as [|d stack].
    + apply holds_ret. intros ? ->. split; [done|]. split; [by left|]. intros _ f [?|(d & Hd & _)]; [done|by apply not_elem_of_nil in Hd].
    + apply Forall_cons in Hst as [Hd _]. pose proof (walk_progress d [] Hd ltac:(constructor)). cbn in *. lia.
  - destruct stack as [|d stack]; cbn [walk_loop].
    { apply holds_ret. intros ? ->. split; [done|]. split; [by left|]. intros _ f [?|(d & Hd & _)]; [done|by apply not_elem_of_nil in Hd]. }
    apply Forall_cons in Hst as [Hd Hst]. cbn [sum_list_with] in Hf.
    eapply holds_bind; [by apply is_dir_walkable|]. intros b. apply holds_from. intros ? [-> Hb]. destruct b; cbn [negb].
    + eapply holds_bind; [by apply read_dir_walkable|]. intros names. apply holds_from. intros ? [-> Hn].
      assert (Hnd : NoDup names) by (rewrite Hn; apply children_nodup).
      assert (Hin : forall c, c ∈ names <-> is_Some (t !! (d ++ [c]))) by (intros c; by rewrite Hn, elem_of_children).
      eapply holds_bind; [by apply scan_spec; [|intros c; rewrite Hin]|]. intros [stack' out']. apply holds_from. intros ? [-> [= -> ->]].
      assert (Hdirs : forall p, p ∈ dirs_in d names <-> exists c m, p = d ++ [c] /\ t !! p = Some (Dir m)).
      { intros p. unfold dirs_in. rewrite list_elem_of_fmap. split.
        - intros (c & -> & Hc). apply list_elem_of_In, filter_In in Hc as [_ Hc]. destruct (t !! (d ++ [c])) as [[| |m]|] eqn:E; try done. by exists c, m.
        - intros (c & m & -> & Hm). exists c. split; [done|]. apply list_elem_of_In, filter_In. rewrite Hm. split; [|done].
          apply list_elem_of_In, Hin. by eexists. }
      assert (Hfiles : forall p, p ∈ files_in d names <-> exists c, p = d ++ [c] /\ is_file_node (t !! p) = true).
      { intros p. unfold files_in. rewrite list_elem_of_fmap. split.
        - intros (c & -> & Hc). apply list_elem_of_In, filter_In in Hc as [_ Hc]. by exists c.
        - intros (c & -> & Hm). exists c. split; [done|]. apply list_elem_of_In, filter_In. split; [|done].
          apply list_elem_of_In, Hin. destruct (t !! (d ++ [c])); [by eexists|done]. }
      eapply from_weaken; [apply IH|..|done]; cbn beta.
      * apply Forall_app. split; [|done]. apply Forall_forall. intros p Hp. rewrite elem_of_reverse, Hdirs in Hp.
        destruct Hp as (c & m & -> & Hm). by eapply walkable_child.
      * rewrite sum_list_with_app, sum_list_with_reverse. pose proof (walk_progress d names Hd Hnd). lia.
      * intros files t' (-> & Hsound & Hall). split; [done|]. split.
        -- intros f Hf'. destruct (Hsound f Hf') as [[?|Hfi]%elem_of_app|(p & [Hp|Hp]%elem_of_app & Hu)].
           ++ by left.
           ++ apply Hfiles in Hfi as (c & -> & Hfi). right. exists d. split; [by left|]. split; [by apply prefix_app_r|done].
           ++ rewrite elem_of_reverse, Hdirs in Hp. destruct Hp as (c & m & -> & Hm). right. exists d. split; [by left|]. destruct Hu as [Hpre Hu].
              split; [|done]. etrans; [by apply prefix_app_r|exact Hpre].
           ++ right. exists p. split; [by right|done].
        -- intros Hcalm f [Hf'|(p & [->|Hp]%elem_of_cons & Hu)]; apply (Hall Hcalm); [left; apply elem_of_app; by left|..].
           ++ destruct Hu as [Hpre Hu]. destruct (file_below d f Hd Hpre Hu) as (c & q & -> & Hc & Hq). destruct q as [|e q].
              ** left. apply elem_of_app. right. apply Hfiles. by exists c.
              ** destruct Hq as [?|[m Hm]]; [done|]. right. exists (d ++ [c]). split.
                 --- apply elem_of_app. left. rewrite elem_of_reverse, Hdirs. by exists c, m.
                 --- split; [|done]. exists (e :: q). by rewrite <- (assoc_L (++)).
           ++ right. exists p. split; [apply elem_of_app; by right|done].
    + eapply from_weaken; [apply IH|..|done]; [done|pose proof (walk_progress d [] Hd ltac:(constructor)); cbn in *; lia|]; cbn beta.
      intros files t' (-> & Hsound & _). split; [done|]. split.
      * intros f Hf'. destruct (Hsound f Hf') as [?|(p & Hp & Hu)]; [by left|right; exists p; split; [by right|done]].
      * intros Hcalm. by specialize (Hb Hcalm).
Qed.
End walking.

(** ** The passes *)

Lemma is_match_spec s : is_match s = false -> replace_all s = s.
Proof.
  induction s as [|b s IH]; [done|]. intros Hm. rewrite replace_all_cons. cbn [is_match] in Hm. destruct (stamp_at (b :: s)); [done|]. by rewrite IH.
Qed.

(** Every file below [d] has gone through [g], and nothing else has changed. *)
Definition rewritten (g : list Z -> list Z -> list Z) (d : fpath) (t t' : FsTree) : Prop := forall k,
  match t !! k with
  | Some (File m bytes) => if decide (d `prefix_of` k) then exists m', t' !! k = Some (File m' (g (file_name k) bytes)) else t' !! k = t !! k
  | x => t' !! k = x
  end.

Section passes.
Variables (privileged fsetid : bool) (umask : Z) (calm : Prop).
Hypothesis calm_privileged : calm -> privileged = true.

Variables (f : fpath -> FS unit) (g : list Z -> list Z -> list Z).
Hypothesis g_idem : forall name bytes, g name (g name bytes) = g name bytes.
Hypothesis f_spec : forall t p m bytes, p <> [] -> Forall name_ok p -> grounded t p -> t !! p = Some (File m bytes) ->
  from calm t (f p) (fun _ t' => but p t t' /\ exists m' bytes', t' !! p = Some (File m' bytes') /\ (calm -> bytes' = g (file_name p) bytes))
    (blameless calm p t).

Variables (t0 : FsTree) (d : fpath).
Hypothesis d_walkable : walkable t0 d.

Record pass_inv (past : list fpath) (t : FsTree) : Prop := {
  pi_file : forall k m bytes, t0 !! k = Some (File m bytes) -> exists m' bytes', t !! k = Some (File m' bytes') /\ (calm -> k ∈ past -> bytes' = g (file_name k) bytes);
  pi_other : forall k, k ∉ past -> t !! k = t0 !! k;
  pi_kind : forall k, is_file_node (t0 !! k) = false -> t !! k = t0 !! k;
}.

Lemma under_names k : file_under t0 d k -> Forall name_ok k /\ grounded t0 k /\ k <> [].
Proof.
  intros [[q ->] Hf]. assert (Hs : is_Some (t0 !! (d ++ q))) by (destruct (t0 !! (d ++ q)); [by eexists|done]).
  assert (Hq : q <> []) by (intros ->; destruct (wk_dir _ _ d_walkable) as [m Hm]; by rewrite app_nil_r, Hm in Hf). clear Hf.
  assert (Hall : Forall name_ok (d ++ q) /\ grounded t0 (d ++ q)); [|destruct Hall; split_and!; [done..|by destruct d]].
  clear Hq. induction q as [|c q IH] using rev_ind; [rewrite app_nil_r; split; apply d_walkable|].
  destruct (wk_tree _ _ d_walkable q c Hs) as [Hc [m Hm]]. destruct (IH ltac:(by eexists)) as [Hn Hg]. rewrite (assoc_L (++)). split.
  - apply Forall_app. split; [done|by constructor].
  - apply grounded_parent. split; [done|by exists m].
Qed.

Lemma pass_loop files : forall past t, (forall k, k ∈ files -> file_under t0 d k) -> (forall k, k ∈ past -> file_under t0 d k) -> pass_inv past t ->
  from calm t (for_each f files) (fun _ t' => exists all, (forall k, k ∈ all <-> k ∈ past \/ k ∈ files) /\ pass_inv all t')
    (fun t' => outside d t0 t' /\ ~ calm).
Proof.
  induction files as [|p files IH]; intros past t Hfiles Hpast Hi; cbn [for_each].
  - apply holds_ret. intros ? ->. exists past. split; [|done]. intros k. split; [by left|by intros [?|?%not_elem_of_nil]].
  - destruct (under_names p (Hfiles p ltac:(by left))) as (Hn & Hg & Hne). pose proof (Hfiles p ltac:(by left)) as [Hpre Hpf].
    destruct (t0 !! p) as [[m bytes| |]|] eqn:Ep; try done. destruct (pi_file _ _ Hi p m bytes Ep) as (m1 & bytes1 & Ep1 & Hb1).
    assert (Hout : outside d t0 t).
    { intros q Hq. apply (pi_other _ _ Hi). intros Hin. apply Hq. by apply Hpast. }
    eapply holds_bind; [eapply from_weaken; [eapply (f_spec t p); [done|done| |exact Ep1]|intros a t' H; exact H|]|].
    + eapply grounded_same; [done|]. intros i Hl. apply (pi_kind _ _ Hi). destruct (Hg i Hl) as [m2 ->]. done.
    + cbn beta. intros t' [Hb Hc]. split; [|done]. intros q Hq. rewrite Hb by (by intros ->). by apply Hout.
    + intros []. apply holds_from. intros t' (Hb & m' & bytes' & Ep' & Hb').
      eapply from_weaken; [apply (IH (p :: past) t')|..|done].
      * intros k Hk. apply Hfiles. by right.
      * intros k [->|Hk]%elem_of_cons; [by apply Hfiles; left|by apply Hpast].
      * split.
        -- intros k mk bk Ek. destruct (decide (k = p)) as [->|Hk].
           ++ rewrite Ep in Ek. injection Ek as <- <-. exists m', bytes'. split; [done|]. intros Hcalm _. rewrite (Hb' Hcalm).
              destruct (decide (p ∈ past)) as [Hin|Hin]; [by rewrite (Hb1 Hcalm Hin), g_idem|].
              pose proof (pi_other _ _ Hi p Hin) as E. rewrite Ep1, Ep in E. by injection E as _ ->.
           ++ destruct (pi_file _ _ Hi k mk bk Ek) as (m2 & b2 & E2 & Hb2). exists m2, b2. split; [by rewrite Hb|].
              intros Hcalm [?|Hin]%elem_of_cons; [done|by apply Hb2].
        -- intros k [Hk Hin]%not_elem_of_cons. rewrite Hb by done. by apply (pi_other _ _ Hi).
        -- intros k Hk. rewrite Hb by (intros ->; by rewrite Ep in Hk). by apply (pi_kind _ _ Hi).
      * intros [] t2 (all & Hall & Hi2). exists all. split; [|done]. intros k. rewrite Hall, !elem_of_cons. tauto.
Qed.

Lemma walk_tree_spec : from calm t0 (walk_files privileged d)
  (fun files t' => t' = t0 /\ (forall k, k ∈ files -> file_under t0 d k) /\ (calm -> forall k, file_under t0 d k -> k ∈ files)) (fun t' => t' = t0 /\ ~ calm).
Proof.
  intros w Hw Ht. unfold walk_files. rewrite Ht.
  pose proof (walk_tree_loop_spec privileged calm calm_privileged t0 (S (size t0)) [d] [] ltac:(by constructor)) as Hs.
  assert (Hfuel : (sum_list_with (ndirs t0) [d] <= S (size t0))%nat).
  { cbn. rewrite Nat.add_0_r. unfold ndirs. etrans; [apply filter_length_le|]. rewrite <- length_map_to_list. lia. }
  specialize (Hs Hfuel w Hw Ht). destruct (walk_loop _ _ _ _ w) as [[files|e] w']; destruct Hs as [Hf Hs]; (split; [done|]); [|done].
  destruct Hs as (Ht' & Hsound & Hall). split_and!; [done| |].
  - intros k Hk. destruct (Hsound k Hk) as [?%not_elem_of_nil|(d' & ->%list_elem_of_singleton & Hu)]; done.
  - intros Hcalm k Hk. apply (Hall Hcalm). right. exists d. split; [by left|done].
Qed.

(** The pass over the whole tree. *)
Lemma pass_spec : from calm t0 (files ← walk_files privileged d; for_each f files)
  (fun _ t' => outside d t0 t' /\ (calm -> rewritten g d t0 t')) (fun t' => outside d t0 t' /\ ~ calm).
Proof.
  eapply holds_bind; [eapply from_weaken; [apply walk_tree_spec|intros a t' H; exact H|by intros t' [-> Hc]]|].
  intros files. apply holds_from. intros ? (-> & Hsound & Hall).
  eapply from_weaken; [apply (pass_loop files [] t0); [done|by intros k ?%not_elem_of_nil|]|..|done].
  - split; [|done|done]. intros k m bytes Ek. exists m, bytes. split; [done|]. by intros _ ?%not_elem_of_nil.
  - intros [] t' (all & Hin & Hi). split.
    + intros q Hq. apply (pi_other _ _ Hi). rewrite Hin. intros [?%not_elem_of_nil|Hf]; [done|]. apply Hq. by apply Hsound.
    + intros Hcalm k. destruct (t0 !! k) as [[m bytes|target|m]|] eqn:Ek; try (rewrite (pi_kind _ _ Hi) by (by rewrite Ek); done).
      destruct (decide (d `prefix_of` k)) as [Hd|Hd].
      * destruct (pi_file _ _ Hi k m bytes Ek) as (m' & b' & E' & Hb). exists m'. rewrite E'. do 2 f_equal. apply Hb; [done|].
        apply Hin. right. apply (Hall Hcalm). split; [done|by rewrite Ek].
      * rewrite <- Ek. apply (pi_other _ _ Hi). rewrite Hin. intros [?%not_elem_of_nil|Hf]; [done|]. apply Hd. by apply Hsound.
Qed.
End passes.

Section both_passes.
Variables (privileged fsetid : bool) (umask : Z) (calm : Prop).
Hypothesis calm_privileged : calm -> privileged = true.

Lemma read_file_spec t p m bytes : Forall name_ok p -> grounded t p -> t !! p = Some (File m bytes) ->
  from calm t (read privileged p) (fun b t' => t' = t /\ b = bytes) (fun t' => t' = t /\ ~ calm).
Proof.
  intros Hn Hg Hp. destruct (stat_plain privileged true p t Hn Hg) as [(x & Hx & E)|(e & E & Hw)]; [right; by rewrite Hp|..];
    (eapply from_weaken; [apply from_observe|..]; cbn beta; rewrite E; cbn [mbind result_bind]).
  - rewrite Hp in Hx. injection Hx as <-. intros b t'. destruct (may privileged 256 m); [|by intros [_ ?]]. by intros [-> [= ->]].
  - rewrite Hp in Hx. injection Hx as <-. intros t' [-> Hc]. split; [done|]. intros Hcalm. destruct (Hc Hcalm) as [e He].
    unfold may in He. by rewrite (calm_privileged Hcalm) in He.
  - by intros b t' [_ ?].
  - intros t' [-> Hc]. split; [done|]. intros Hcalm. destruct Hw as [Hw|Hw]; [by rewrite calm_privileged in Hw|congruence].
Qed.

(** A file that stays, or is written. *)
Lemma kept_file t p m bytes new : t !! p = Some (File m bytes) -> (calm -> bytes = new) ->
  from calm t (mret tt) (fun _ t' => but p t t' /\ exists m' bytes', t' !! p = Some (File m' bytes') /\ (calm -> bytes' = new)) (blameless calm p t).
Proof. intros Hp Hb. apply holds_ret. intros ? ->. split; [by intros q|]. by exists m, bytes. Qed.

Lemma written_file t p m bytes new : p <> [] -> Forall name_ok p -> grounded t p -> t !! p = Some (File m bytes) ->
  from calm t (write privileged fsetid umask p new)
    (fun _ t' => but p t t' /\ exists m' bytes', t' !! p = Some (File m' bytes') /\ (calm -> bytes' = new)) (blameless calm p t).
Proof.
  intros Hne Hn Hg Hp. eapply from_weaken; [apply write_over_spec; try done; by rewrite Hp|..|done]; cbn beta.
  intros [] t' [m' ->]. split; [apply but_insert|]. exists m', new. by rewrite lookup_insert_eq.
Qed.

Lemma normalize_file_spec t p m bytes : p <> [] -> Forall name_ok p -> grounded t p -> t !! p = Some (File m bytes) ->
  from calm t (normalize_file privileged fsetid umask p)
    (fun _ t' => but p t t' /\ exists m' bytes', t' !! p = Some (File m' bytes') /\ (calm -> bytes' = normalize_created (file_name p) bytes))
    (blameless calm p t).
Proof.
  intros Hne Hn Hg Hp. unfold normalize_file, normalize_created. destruct (bool_decide _) eqn:Ee; cbn [andb]; [|by eapply kept_file].
  eapply (holds_bind _ _ _ (fun r t' => t' = t /\ match r with Ok b => b = bytes | Err _ => ~ calm end)).
  - intros w Hw Ht. pose proof (read_file_spec t p m bytes Hn Hg Hp w Hw Ht) as Hr. unfold attempt.
    destruct (read privileged p w) as [[b|e] w']; destruct Hr as [? [? ?]]; done.
  - intros r. apply holds_from. intros ? [-> Hr]. destruct r as [b|e]; [subst b|by eapply kept_file].
    destruct (from_utf8_ok bytes) eqn:Eu; cbn [andb]; [|by eapply kept_file].
    destruct (is_match bytes) eqn:Em; [by eapply written_file|]. eapply kept_file; [done|]. intros _. by rewrite is_match_spec.
Qed.

Lemma normalize_created_idem name bytes : normalize_created name (normalize_created name bytes) = normalize_created name bytes.
Proof.
  unfold normalize_created. destruct (bool_decide _); cbn [andb]; [|done]. destruct (from_utf8_ok bytes) eqn:Eu; [|by rewrite Eu].
  rewrite replace_all_idem. cbn [andb]. by destruct (from_utf8_ok (replace_all bytes)).
Qed.

Lemma truncate_file_spec t p m bytes : p <> [] -> Forall name_ok p -> grounded t p -> t !! p = Some (File m bytes) ->
  from calm t (truncate_file privileged fsetid umask p)
    (fun _ t' => but p t t' /\ exists m' bytes', t' !! p = Some (File m' bytes') /\ (calm -> bytes' = truncate_lock (file_name p) bytes))
    (blameless calm p t).
Proof.
  intros Hne Hn Hg Hp. unfold truncate_file, truncate_lock. destruct (bool_decide _); [by eapply written_file|by eapply kept_file].
Qed.

Lemma truncate_lock_idem name bytes : truncate_lock name (truncate_lock name bytes) = truncate_lock name bytes.
Proof. unfold truncate_lock. by destruct (bool_decide _). Qed.

(** What the passes leave, from [normalize_file] and [truncate_file] up. *)
Lemma normalize_created_json_spec t d : walkable t d ->
  from calm t (normalize_created_json privileged fsetid umask d)
    (fun _ t' => outside d t t' /\ (calm -> rewritten normalize_created d t t')) (fun t' => outside d t t' /\ ~ calm).
Proof. intros Hd. apply pass_spec; [done|apply normalize_created_idem|apply normalize_file_spec|done]. Qed.

Lemma truncate_locks_spec t d : walkable t d ->
  from calm t (truncate_locks privileged fsetid umask d)
    (fun _ t' => outside d t t' /\ (calm -> rewritten truncate_lock d t t')) (fun t' => outside d t t' /\ ~ calm).
Proof. intros Hd. apply pass_spec; [done|apply truncate_lock_idem|apply truncate_file_spec|done]. Qed.
End both_passes.

(** ** A small build *)

Definition demo_cfg : AssembleConfig :=
  {| work := [lit "w"]; base_rootfs_tar := []; build_epoch := lit "1785542400"; compose_cache := [lit "dc"]; agent_bin := [lit "agent"];
     seed_storage := [lit "seed"]; selftest_image_ref := lit "busybox"; ac_stack_name := lit "web"; stack_project := lit "web";
     ac_stack_lock := [lit "lock"]; stack_binds := [lit "binds"]; stack_mem := 512; ac_packages_lock := [lit "pl"];
     base_hit := true; ac_base_segment := [lit "base.cpio"]; base_packages_lock := [lit "bpl"]; ac_out := [lit "out"] |}.

Definition demo_fs : FsTree :=
  list_to_map [([], Dir 493); ([lit "w"], Dir 448); ([lit "lock"], File 384 (lit "services: {}")); ([lit "seed"], Dir 448);
    ([lit "seed"; lit "images.json"], File 384 (lit "{" ++ QUOTED_CREATED ++ lit "2026-01-02T03:04:05.6Z" ++ [34] ++ lit "}"));
    ([lit "seed"; lit "storage.lock"], File 420 [1; 2]); ([lit "binds"], Dir 448); ([lit "binds"; lit "app"], Dir 493);
    ([lit "binds"; lit "app"; lit "yarn.lock"], File 420 [5])].

Definition stack_tree (umask : Z) (ts : list Turn) : result Errno unit * World :=
  assemble_stack_tree true false umask demo_cfg [lit "w"; lit "r"] {| tree := demo_fs; turns := ts |}.

Example demo_run : (stack_tree 18 []).1 = Ok tt.
Proof. vm_compute. reflexivity. Qed.

Definition stack_file (s : list Z) : fpath := join [lit "w"; lit "r"] s.

(** The files under [etc] are written without [set_mode], so the umask the
    build happens to run with is in their modes, and in the archive. *)
Definition stack_bytes (umask : Z) : list Z :=
  match segment_of_tree true [lit "w"; lit "r"] (tree (stack_tree umask []).2) with Some (Ok seg) => seg | _ => [] end.

Example umask_reaches_the_archive :
  tree (stack_tree 18 []).2 !! stack_file (lit "etc/tdvmm-stack-name") = Some (File 420 (lit "web" ++ [LF])) /\
  tree (stack_tree 63 []).2 !! stack_file (lit "etc/tdvmm-stack-name") = Some (File 384 (lit "web" ++ [LF])) /\
  length (stack_bytes 18) = 2560%nat /\ bool_decide (stack_bytes 18 = stack_bytes 63) = false.
Proof. vm_compute. split_and!; reflexivity. Qed.

(** A copy of the binds that fails is not an error: the archive is made without
    what was not copied. *)
Example failed_binds_ignored :
  let ok := {| refused := None; listed := id |} in
  let '(r, w) := stack_tree 18 (replicate 22 ok ++ [{| refused := Some (EIO, O); listed := id |}]) in
  r = Ok tt /\ tree w !! stack_file (lit "var/lib/tdvmm-stack/binds/app/yarn.lock") = None /\
  is_Some (tree w !! stack_file (lit "etc/tdvmm-stack-mem")).
Proof. vm_compute. split_and!; try reflexivity. by eexists. Qed.

(** Every [.lock] file of the binds is emptied with the seed store's, and the
    creation times of the store are gone. *)
Example stack_tree_passes :
  tree (stack_tree 18 []).2 !! stack_file (lit "var/lib/tdvmm-stack/binds/app/yarn.lock") = Some (File 420 []) /\
  tree (stack_tree 18 []).2 !! stack_file (lit "var/lib/containers-seed/storage/images.json") = Some (File 384 (lit "{" ++ STAMP ++ lit "}")).
Proof. vm_compute. split; reflexivity. Qed.

(** The archive is the nodes, the base and the stack, in this order. *)
Example initramfs_in_order :
  let t := <[[lit "base.cpio"] := File 420 [3; 4]]> demo_fs in
  let '(r, w) := cmd_assemble_initramfs true false 18 (fun _ _ => mret tt) (H := list Z) (fun bytes => bytes) demo_embedded demo_cfg (calm_world t) in
  r = Ok 0 /\
  match tree w !! [lit "out"], tree w !! [lit "out.sha256"] with
  | Some (File _ bytes), Some (File _ side) =>
      take (length nodes_segment + 2) bytes = nodes_segment ++ [3; 4] /\ drop (length nodes_segment + 2) bytes <> [] /\
      drop (length side - 6) side = lit "  out" ++ [LF]
  | _, _ => False
  end.
Proof. vm_compute. split_and!; try reflexivity. discriminate. Qed.

(** ** An overlay laid on a small base *)

Definition demo_base : FsTree :=
  list_to_map [([], Dir 493); ([lit "r"], Dir 448); ([lit "r"; lit "etc"], Dir 488); ([lit "r"; lit "etc"; lit "inittab"], File 384 [1])].

Definition overlay_fitsb (rootfs : fpath) (t : FsTree) : bool :=
  forallb name_okb rootfs && groundedb t rootfs && is_dir_node (t !! rootfs) &&
  forallb (fun d => match t !! join rootfs d with None | Some (Dir _) => true | _ => false end) OVERLAY_DIRS &&
  forallb (fun f => match t !! join rootfs (o_path f) with None | Some (File _ _) => true | _ => false end) OVERLAY_FILES.

Lemma overlay_fitsb_ok rootfs t : overlay_fitsb rootfs t = true -> overlay_fits rootfs t.
Proof.
  unfold overlay_fitsb. rewrite !andb_true_iff. intros ((((H1 & H2) & H3) & H4) & H5).
  rewrite forallb_forall in H1, H4, H5. split.
  - apply Forall_forall. intros c Hc%list_elem_of_In. by apply name_okb_ok, H1.
  - split; [by apply groundedb_ok|]. destruct (t !! rootfs) as [[| |m]|]; try done. by exists m.
  - apply Forall_forall. intros d Hd%list_elem_of_In. specialize (H4 d Hd). by destruct (t !! join rootfs d) as [[]|].
  - apply Forall_forall. intros f Hf%list_elem_of_In. specialize (H5 f Hf). by destruct (t !! join rootfs (o_path f)) as [[]|].
Qed.

Lemma materialize_pins_modes_witness :
  let w := calm_world demo_base in
  let w' := (materialize true false 63 demo_embedded [lit "r"] w).2 in
  tree w' = overlaid demo_embedded [lit "r"] demo_base /\
  tree w' !! [lit "r"; lit "etc"; lit "inittab"] = Some (File 420 (lit "etc/inittab")) /\
  tree w' !! [lit "r"; lit "etc"] = Some (Dir 488) /\ tree w' !! [lit "r"; lit "usr"; lit "local"] = Some (Dir 493).
Proof.
  intros w w'. assert (Hf : overlay_fitsb [lit "r"] demo_base = true) by (vm_compute; reflexivity).
  pose proof (materialize_pins_modes true false 63 demo_embedded [lit "r"] w ltac:(constructor) (overlay_fitsb_ok _ _ Hf)) as Hm.
  unfold w' in *. destruct (materialize true false 63 demo_embedded [lit "r"] w) as [r w2]. destruct Hm as (_ & Hok & Hrun).
  destruct (Hok (Hrun eq_refl ltac:(constructor))) as [E _]. cbn [snd]. split; [exact E|]. rewrite E. vm_compute. split_and!; reflexivity.
Defined.
