(* ===== verification/Stage.v ===== *)
(** * Building a service's image ([build_one] of [src/src/build/images.rs])

    A context is built where it is, unless it is a driver's: then it is staged
    beside a copy of the SDK, with the calls of [Trees].  The container engine
    is a parameter and may do anything to the files. *)

From Stdlib Require Import ZArith Lia.
From stdpp Require Import base numbers strings gmap list.
From S2P Require Import Prelude.
From S2P Require Import Text.
From S2P Require Import Utf8.
From S2P Require Import Tar.
From S2P Require Import Artifact.
From S2P Require Import Compose.
From S2P Require Import Files.
From S2P Require Import Cache.
From S2P Require Import Pinned.
From S2P Require Import Images.
From S2P Require Import Ledger.
From S2P Require Import Trees.
From S2P Require Import Assemble.

Open Scope Z_scope.

Inductive StageError := StageIo (e : Errno) | StageMsg (text : list Z).

Abbreviation Staging := (SE StageError World).

Definition in_tree {A : Type} (m : FS A) : Staging A := map_err StageIo m.

(** [PathBuf::to_str]. *)
Definition path_bytes (p : fpath) : list Z := 47 :: join_with [47] p.
Definition to_str (p : fpath) : option (list Z) := if from_utf8_ok (path_bytes p) then Some (path_bytes p) else None.

Definition DRIVER_SDK_REPLACE : list Z := lit "github.com/mtsaas/tdvmm/sdk/go => ./sdk".

Section building.
Variables (privileged fsetid : bool) (umask : Z).

(** Where the program runs from: [current_exe] and [current_dir], if known. *)
Variables (current_exe current_dir : option fpath).

Definition find_testdata_dir : FS (option fpath) :=
  match current_exe with
  | None => mret None
  | Some exe =>
      let cand := removelast (removelast (removelast exe)) ++ [lit "testdata"] in
      there ← Trees.is_dir privileged cand;
      if there : bool then mret (Some cand)
      else match current_dir with
           | None => mret None
           | Some cwd =>
               let cwd := cwd ++ [lit "testdata"] in
               there ← Trees.is_dir privileged cwd;
               mret (if there : bool then Some cwd else None)
           end
  end.

(** [sdk/go] beside it. *)
Definition find_sdk : FS (option fpath) :=
  td ← find_testdata_dir;
  match td with
  | None => mret None
  | Some td =>
      let sdk := removelast td ++ [lit "sdk"; lit "go"] in
      there ← Trees.is_dir privileged sdk;
      mret (if there : bool then Some sdk else None)
  end.

Definition staged_path (work : fpath) (idx : nat) : fpath := work ++ [lit "driverctx-" ++ dec (Z.of_nat idx)].

(** The copies: the context, then the SDK in the place of what it had there. *)
Definition stage_copy (ctx sdk staged : fpath) : FS unit :=
  _ ← ignore (Trees.remove_dir_all privileged staged);
  _ ← copy_tree privileged fsetid umask ctx staged;
  _ ← ignore (Trees.remove_dir_all privileged (staged ++ [lit "sdk"]));
  copy_tree privileged fsetid umask sdk (staged ++ [lit "sdk"]).

Definition stage_driver_context (ctx : fpath) (idx : nat) (work : fpath) : Staging (option fpath) :=
  r ← attempt (Trees.read privileged (ctx ++ [lit "go.mod"]));
  let gomod := match r with Ok text => if from_utf8_ok text then text else [] | Err _ => [] end in
  if negb (contains DRIVER_SDK_REPLACE gomod) then mret None
  else
    sdk ← in_tree find_sdk;
    match sdk with
    | None => fail (StageMsg (lit "driver stack build needs the tdvmm Go SDK source (sdk/go); run from a source checkout"))
    | Some sdk =>
        _ ← in_tree (stage_copy ctx sdk (staged_path work idx));
        mret (Some (staged_path work idx))
    end.

(** The engine's commands on a scratch store, for their effect and for their
    output. *)
Variable podman : fpath -> fpath -> fpath -> list (list Z) -> Staging unit.
Variable podman_output : fpath -> fpath -> fpath -> list (list Z) -> Staging (list Z).

Definition build_one (bstore brun conf : fpath) (b : BuildCtx) (ctx : fpath) (idx : nat) (work : fpath) : Staging BakedImage :=
  staged ← stage_driver_context ctx idx work;
  let ctx := default (context b) (staged ≫= to_str) in
  _ ← podman bstore brun conf [lit "build"; lit "--squash-all"; lit "--timestamp"; BUILD_EPOCH; lit "-t"; image_tag b; lit "-f"; dockerfile b; ctx];
  size ← podman_output bstore brun conf [lit "image"; lit "inspect"; image_tag b; lit "--format"; lit "{{.Size}}"];
  let bytes := match from_str_radix 64 10 (trim size) with Ok n => n | Err _ => 0 end in
  layers ← podman_output bstore brun conf [lit "image"; lit "inspect"; image_tag b; lit "--format"; LAYERS];
  let tar := squash_tar work idx in
  _ ← podman bstore brun conf [lit "save"; lit "-o"; display tar; image_tag b];
  mret {| b_record := {| r_key := image_tag b; r_upstream := image_tag b; r_policy := lit "build"; r_content_id := squeeze layers;
                         r_size_mib := bytes / 1048576; r_pinned := [] |};
          b_plain := None; b_squash := Some (image_tag b, image_tag b, tar) |}.

(** What the merge takes from it. *)
Lemma build_one_output bstore brun conf b ctx idx work w baked w' :
  build_one bstore brun conf b ctx idx work w = (Ok baked, w') -> build_output b baked /\ r_policy (b_record baked) = lit "build" /\ b_plain baked = None.
Proof.
  unfold build_one. intros (staged & w1 & _ & Hb)%SE_bind_ok. apply SE_bind_ok in Hb as ([] & w2 & _ & Hb).
  apply SE_bind_ok in Hb as (size & w3 & _ & Hb). apply SE_bind_ok in Hb as (layers & w4 & _ & Hb).
  apply SE_bind_ok in Hb as ([] & w5 & _ & Hb). injection Hb as <- <-. split_and!; [by eexists|done|done].
Qed.
End building.

(** ** What is staged *)

Section staged.
Variables (privileged fsetid : bool) (umask : Z) (calm : Prop).
Hypothesis calm_privileged : calm -> privileged = true.

Lemma prune_outside p q t : ~ p `prefix_of` q -> prune p t !! q = t !! q.
Proof. intros Hq. unfold prune. destruct (t !! q) as [x|] eqn:E; [by apply map_lookup_filter_Some|]. apply map_lookup_filter_None. by left. Qed.

Lemma prune_below p q t : prune p t !! (p ++ q) = None.
Proof. apply map_lookup_filter_None. right. intros x _ Hp. apply Hp. by apply prefix_app_r. Qed.

Lemma prune_children_outside p cs : forall t, outside p t (foldl (fun t c => prune (p ++ [c]) t) t cs).
Proof.
  induction cs as [|c cs IH]; intros t q Hq; cbn [foldl]; [done|]. rewrite IH by done. apply prune_outside.
  intros Hp. apply Hq. etrans; [by apply prefix_app_r|exact Hp].
Qed.

Lemma prune_less p q t : prune p t !! q = t !! q \/ prune p t !! q = None.
Proof. unfold prune. destruct (filter _ t !! q) as [x|] eqn:E; [left|by right]. by apply map_lookup_filter_Some in E as [-> _]. Qed.

Lemma prune_children_less p cs : forall t q, foldl (fun t c => prune (p ++ [c]) t) t cs !! q = t !! q \/ foldl (fun t c => prune (p ++ [c]) t) t cs !! q = None.
Proof.
  induction cs as [|c cs IH]; intros t q; cbn [foldl]; [by left|]. destruct (IH (prune (p ++ [c]) t) q) as [->|?]; [apply prune_less|by right].
Qed.

(** A removal whose error is dropped: when things are calm there is nothing left
    unless there was a file. *)
Lemma removed_spec p t : p <> [] -> Forall name_ok p -> grounded t p ->
  from calm t (ignore (Trees.remove_dir_all privileged p))
    (fun _ t' => outside p t t' /\ (forall q, t' !! q = t !! q \/ t' !! q = None) /\ (calm -> match t !! p with
       | Some (Dir _) => forall q, t' !! (p ++ q) = None
       | Some (Link _) => t' = delete p t
       | _ => t' = t
       end)) (fun _ => False).
Proof.
  intros Hne Hn Hg. apply holds_ignore. destruct (resolve_plain privileged false p t Hn Hg (or_introl eq_refl)) as [Er|[Hp Er]].
  - apply from_call.
    + intros l [] t' _. rewrite Er. cbn [mbind result_bind]. destruct (t !! p) as [[m bytes|target|m]|]; [done| | |done];
        (destruct (enter privileged p t) as [[]|]; [|done]); intros [= <-].
      * split_and!; [|intros q; destruct (decide (p = q)) as [->|]; [right; apply lookup_delete_eq|left; by apply lookup_delete_ne]|done].
        intros q Hq. apply lookup_delete_ne. by intros ->.
      * split_and!; [by intros q Hq; apply prune_outside|intros q; apply prune_less|]. intros _ q. apply prune_below.
    + intros l e. rewrite Er. cbn [mbind result_bind]. intros He. split_and!; [by intros q|by left|]. intros Hcalm.
      destruct (enter_grounded privileged calm calm_privileged p t Hne Hg) as [Ee|[Hp _]]; [|by rewrite calm_privileged in Hp].
      rewrite Ee in He. by destruct (t !! p) as [[]|].
    + intros Hc k. rewrite Er. split_and!; [apply prune_children_outside|apply prune_children_less|done].
  - apply from_call.
    + intros l [] t' _. by rewrite Er.
    + intros l e _. split_and!; [by intros q|by left|]. intros Hcalm. by rewrite calm_privileged in Hp.
    + intros Hc k. rewrite Er. split_and!; [by intros q|by left|done].
Qed.

(** What is staged: the context, with the SDK where it has [sdk]. *)
Definition staged_node (t : FsTree) (ctx sdk q : fpath) : option Node :=
  match q with
  | c :: r => if decide (c = lit "sdk") then laid fsetid (t !! (sdk ++ r)) None else laid fsetid (t !! (ctx ++ q)) None
  | [] => laid fsetid (t !! ctx) None
  end.

Lemma sdk_ready t t2 ctx sdk staged m : ready t ctx staged -> t !! ctx = Some (Dir m) ->
  ready t sdk staged -> outside staged t t2 -> t2 !! staged = laid fsetid (t !! ctx) None ->
  (forall q, t2 !! (staged ++ lit "sdk" :: q) = None) -> ready t2 sdk (staged ++ [lit "sdk"]).
Proof.
  intros Hr Hctx Hs Ho Htop Hnone. assert (Hsame : forall q, t2 !! (sdk ++ q) = t !! (sdk ++ q)) by (intros q; by eapply src_same).
  split; try apply Hs.
  - eapply grounded_same; [by apply Hs|]. intros i _. apply Ho. intros Hp. apply (dst_src _ _ _ Hs). etrans; [exact Hp|apply take_prefix].
  - apply grounded_parent. split; [by eapply dst_grounded_but|]. rewrite Htop, Hctx. by eexists.
  - apply Forall_app. split; [apply Hs|]. constructor; [|done]. by apply name_okb_ok.
  - intros Hp. destruct (prefix_weak_total sdk staged (staged ++ [lit "sdk"])) as [?|?]; [done|by apply prefix_app_r|by apply (src_dst _ _ _ Hs)|by apply (dst_src _ _ _ Hs)].
  - intros Hp. apply (dst_src _ _ _ Hs). etrans; [by apply prefix_app_r|exact Hp].
  - intros q c. rewrite !Hsame. apply (src_tree _ _ _ Hs).
  - intros q. rewrite <- (assoc_L (++)). cbn [app]. rewrite Hnone. by destruct (t2 !! (sdk ++ q)) as [[]|].
Qed.

(** A staged driver context is the context with the SDK in it: whatever copy of
    the SDK the context had is gone, and nothing else changes. *)
Lemma stage_copy_exact t ctx sdk staged m : ready t ctx staged -> t !! ctx = Some (Dir m) ->
  is_file_node (t !! (ctx ++ [lit "sdk"])) = false -> ready t sdk staged -> (forall q, t !! (staged ++ q) = None) -> calm ->
  from calm t (stage_copy privileged fsetid umask ctx sdk staged)
    (fun _ t' => outside staged t t' /\ forall q, t' !! (staged ++ q) = staged_node t ctx sdk q) (fun _ => True).
Proof.
  intros Hr Hctx Hfile Hs Hempty Hcalm. assert (Hne : staged <> []) by (intros ->; apply (dst_src _ _ _ Hr), prefix_nil).
  pose proof (Hempty []) as Hnone. rewrite app_nil_r in Hnone.
  eapply (holds_bind _ _ _ (fun _ t0 => t0 = t)).
  { eapply from_weaken; [apply removed_spec; [done|by apply Hr|by apply Hr]|..|done]. cbn beta. intros [] t0 (Ho & Hless & _).
    apply map_eq. intros q. destruct (decide (staged `prefix_of` q)) as [[r ->]|Hq]; [|by apply Ho].
    destruct (Hless (staged ++ r)) as [-> | ->]; by rewrite ?Hempty. }
  intros []. apply holds_from. intros ? ->.
  eapply holds_bind; [eapply from_weaken; [by apply (copy_at_spec privileged fsetid umask calm calm_privileged)|intros a t1 H; exact H|done]|].
  intros []. apply holds_from. intros t1 [Ho1 Hcop].
  assert (Hcop' : forall q, t1 !! (staged ++ q) = laid fsetid (t !! (ctx ++ q)) None) by (intros q; by rewrite Hcop, Hempty).
  assert (Htop : t1 !! staged = laid fsetid (t !! ctx) None) by (specialize (Hcop' []); by rewrite !app_nil_r in Hcop').
  assert (Hg1 : grounded t1 (staged ++ [lit "sdk"])) by (apply grounded_parent; split; [by eapply dst_grounded_but|rewrite Htop, Hctx; by eexists]).
  eapply holds_bind; [eapply from_weaken; [apply (removed_spec (staged ++ [lit "sdk"]) t1)|intros a t2 H; exact H|done]|].
  { by destruct staged. }
  { apply Forall_app. split; [apply Hr|]. constructor; [|done]. by apply name_okb_ok. }
  { done. }
  intros []. apply holds_from. intros t2 (Ho2 & Hless & Hgone). specialize (Hgone Hcalm).
  assert (Hsdk : forall q, t1 !! (staged ++ lit "sdk" :: q) = laid fsetid (t !! (ctx ++ lit "sdk" :: q)) None) by (intros q; apply Hcop').
  assert (Hkeep : forall q, ~ staged ++ [lit "sdk"] `prefix_of` q -> t2 !! q = t1 !! q) by (intros q Hq; by apply Ho2).
  assert (Hnone2 : forall q, t2 !! (staged ++ lit "sdk" :: q) = None).
  { intros q. destruct (Hless (staged ++ lit "sdk" :: q)) as [E| ->]; [|done]. destruct (t !! (ctx ++ [lit "sdk"])) as [[m' b'|target|m']|] eqn:Ec; [done|..].
    - destruct q as [|c q].
      + rewrite (Hsdk []) , Ec in Hgone. rewrite Hgone. apply lookup_delete_eq.
      + rewrite E, Hsdk. destruct (t !! (ctx ++ lit "sdk" :: c :: q)) as [x|] eqn:Ex; [|done].
        destruct (src_prefix t ctx staged [lit "sdk"] (c :: q) Hr ltac:(by exists x)) as [_ Hd]. destruct (Hd ltac:(done)) as [m2 ?]. congruence.
    - rewrite (Hsdk []), Ec in Hgone. specialize (Hgone q). by rewrite <- (assoc_L (++)) in Hgone.
    - rewrite E, Hsdk. destruct (t !! (ctx ++ lit "sdk" :: q)) as [x|] eqn:Ex; [|done].
      destruct (src_prefix t ctx staged [lit "sdk"] q Hr ltac:(by exists x)) as [[y Hy] _]. congruence. }
  assert (Ho02 : outside staged t t2).
  { intros q Hq. rewrite Hkeep; [by apply Ho1|]. intros Hp. apply Hq. etrans; [by apply prefix_app_r|exact Hp]. }
  assert (Hr2 : ready t2 sdk (staged ++ [lit "sdk"])).
  { eapply (sdk_ready t t2 ctx sdk staged); [done..| |done]. rewrite Hkeep; [done|apply below_not_above]. }
  eapply from_weaken; [by apply (copy_at_spec privileged fsetid umask calm calm_privileged)|..|done]; cbn beta. intros [] t3 [Ho3 Hcop3]. split.
  - intros q Hq. rewrite Ho3; [by apply Ho02|]. intros Hp. apply Hq. etrans; [by apply prefix_app_r|exact Hp].
  - intros [|c q]; cbn [staged_node].
    + rewrite app_nil_r, Ho3, Hkeep by apply below_not_above. done.
    + destruct (decide (c = lit "sdk")) as [->|Hc].
      * specialize (Hcop3 q). rewrite <- (assoc_L (++)) in Hcop3. cbn [app] in Hcop3. rewrite Hcop3, Hnone2.
        by rewrite (src_same t t2 sdk staged).
      * assert (Hnp : ~ staged ++ [lit "sdk"] `prefix_of` staged ++ c :: q) by (intros Hp%prefix_app_inv; by apply prefix_cons_inv_1 in Hp).
        by rewrite Ho3, Hkeep.
Qed.
End staged.

(** A driver's context beside the SDK of a checkout. *)
Definition demo_checkout : FsTree :=
  list_to_map [([], Dir 493); ([lit "r"], Dir 493); ([lit "r"; lit "testdata"], Dir 493); ([lit "r"; lit "sdk"], Dir 493); ([lit "r"; lit "sdk"; lit "go"], Dir 493);
    ([lit "r"; lit "sdk"; lit "go"; lit "sdk.go"], File 420 [2]); ([lit "c"], Dir 493); ([lit "c"; lit "go.mod"], File 420 (lit "replace " ++ DRIVER_SDK_REPLACE));
    ([lit "c"; lit "sdk"], Dir 493); ([lit "c"; lit "sdk"; lit "stale.go"], File 420 [1]); ([lit "w"], Dir 448)].

Example driver_context_staged :
  let '(r, w) := stage_driver_context false false 18 (Some [lit "r"; lit "target"; lit "release"; lit "tdvmm"]) None [lit "c"] 3 [lit "w"] (calm_world demo_checkout) in
  r = Ok (Some [lit "w"; lit "driverctx-3"]) /\
  tree w !! [lit "w"; lit "driverctx-3"; lit "sdk"; lit "sdk.go"] = Some (File 420 [2]) /\
  tree w !! [lit "w"; lit "driverctx-3"; lit "sdk"; lit "stale.go"] = None.
Proof. vm_compute. split_and!; reflexivity. Qed.
